(* ===== verification/_CoqProject ===== *)
-Q . S2P
Prelude.v
Collection.v
Lisk32.v
Heap.v
Varint.v
Codec.v
CodecSpec.v
Message.v
Crypto.v
RMT.v
RMTAppend.v
RMTProof.v
RMTProofSpec.v
BlockTypes.v
Block.v
DB.v
DiffDB.v
ForkChoice.v
BFTTypes.v
Votes.v
VotesSpec.v
VotesInv.v
BFTSafety.v
LiskBFT.v
BFTStore.v
BFTRefine.v
SMT.v
SMTSpec.v
SMTMap.v
SMTUpdate.v
SMTProof.v
TxList.v
TxPool.v
Selector.v
Event.v
LabiTypes.v
NetTypes.v
Certificate.v
DataAccess.v
ChainSpec.v
Commits.v
StateInv.v
Execute.v
ExecuteSpec.v
Sync.v
SyncSpec.v
Download.v
Forge.v
ForgeSpec.v
StateMachine.v
StateMachineSpec.v
Framework.v
FrameworkSpec.v
AppChain.v
P2P.v
P2PSpec.v
P2PRequests.v
