(* ===== verification/Prelude.v ===== *)
(** * Lisk Engine: a verification library

    The program (src/, Go) is a blockchain engine: it keeps a chain of blocks
    in a key-value store, agrees on finality with the Lisk-BFT protocol, keeps
    unconfirmed transactions in a pool, generates blocks, and talks to an
    application through an ABI.  This library models the deterministic core of
    that program as executable Rocq functions and proves what makes it correct.

    ** Conventions

    A Go function becomes a function with the result type [res]: [Ok],
    [Err] for a returned error, [Panic] for a run-time panic, [OutOfFuel] when
    the bound given to a loop was too small, which theorems exclude.  Integers
    are [Z] with the wrap-around of the source written out ([u8], [u32], [u64],
    [i64]); bytes are lists of [Z]; slices are lists with Go's bounds checks
    ([index], [slice]); maps are [gmap]s.  Where views share state (the diff
    database) the model has a heap of caches.  Code outside the repository is a
    class of operations with a class of laws: [Norm] (Unicode normal form),
    [Hasher] (SHA-256, defined as [sha256] in Crypto.v), [BLS] and [Ed25519],
    the pebble store of DB.v, [PoolEnv] (application, network, order of map
    iteration), [ABI], [Application], [Network] and [Libp2p].  Laws state documented behaviour only; instances show
    that they can hold.  Resistance to collisions is never assumed of a hash:
    theorems that need it ask for [collision_free] of the messages hashed.

    ** Files

    - Prelude: integers, errors, slices, sorting, the order of byte strings.
    - Collection: pkg/collection (conversions, searches, bit lists).
    - Lisk32: pkg/codec/bytes.go, the text form of addresses and its checksum.
    - Heap: Go's container/heap, with the heap order and [Pop] of a minimum.
    - Varint, Codec, CodecSpec, Message: pkg/codec, varints, reader and writer
      and the contracts of field readers ([Reads]: what is written is read
      back, also nested; [Total]: no panic; [Canon]: only canonical bytes are
      accepted); [Message] is the interface of the generated codecs.
    - Crypto: pkg/crypto, addresses, aggregation bits and aggregate signatures.
    - RMT, RMTAppend, RMTProof, RMTProofSpec: pkg/trie/rmt, the regular Merkle
      tree: roots and [Append], that [Append] succeeds and refines the reference
      root, proofs and updates, and what an accepted proof shows.
    - SMT, SMTSpec, SMTMap, SMTUpdate, SMTProof: pkg/trie/smt, the sparse
      Merkle tree with its subtrees, and its theory: subtree layouts, the tree
      of a map, the update algorithm, proofs.
    - BlockTypes, Block: pkg/blockchain (transactions, headers, assets, blocks
      and their generated codecs).
    - DB, DiffDB: pkg/db and pkg/db/diffdb (range iteration, cached views with
      prefixes, commit, revert, snapshots).
    - ForkChoice: contradiction, block slots and fork choice of pkg/consensus.
    - BFTTypes, Votes, VotesSpec, VotesInv, BFTSafety: the vote counting of
      pkg/consensus/liskbft, its invariant and the safety argument.
    - LiskBFT, BFTStore, BFTRefine: the API and module over the database and
      its refinement of the vote machine.
    - TxList, TxPool: pkg/txpool; the pool runs in a monad that knows its
      mutex, so a call that blocks for ever is a result of the model.
    - Selector: the transaction selection of pkg/generator.
    - Event: events, their keys and the event root (pkg/blockchain/event.go).
    - LabiTypes, NetTypes: the messages of pkg/labi, of the consensus, sync and
      p2p packages and of stored keys, with their generated codecs.
    - Certificate, Commits: certificates, single commits and their pool
      (pkg/consensus/certificate) and the use the executer makes of them
      (pkg/consensus/certificate.go).
    - DataAccess, ChainSpec: the block cache and the stored blocks
      (pkg/blockchain: block_cache.go, data_access.go, chain.go) and their
      refinement by a stack of blocks.
    - Execute: the consensus executer (pkg/consensus/execute.go, verify.go,
      abi_caller.go), in a monad over chain, consensus store, application and
      network.  StateInv and ExecuteSpec hold its theory: which parts of the
      state a step touches, and the invariant [final_rep] of the chain.
    - Sync, SyncSpec, Download: pkg/consensus/sync, both synchronisers, the
      choice of a peer, the requests and the handlers that answer them.
    - Forge, ForgeSpec: the forging of blocks and the keys of pkg/generator, and
      what the executer does with the blocks it produces.
    - StateMachine, StateMachineSpec: pkg/statemachine, the event logger, the
      contexts of modules and the executer of hooks and commands.  Modules are
      code of the application: a hook is an arbitrary program over the methods
      of its context, run by an interpreter.
    - Framework, FrameworkSpec: pkg/framework and pkg/db/batchdb, the handler of
      the ABI with its state database, its state tree and its diffs.
    - AppChain: the executer with this handler as its application.
    - P2P, P2PSpec: pkg/p2p, penalties and bans, rate limits, the handlers of
      requests and responses, discovery and gossip topics, over the operations
      of libp2p (class [Libp2p]).
    - P2PRequests: the goroutines of pkg/p2p that wait for responses, as a step
      relation with the mutex and the channels they share.

    ** What the theorems show

    - Consensus: quorums count distinct validators, conflicting quorums expose
      contradicting headers, heights are exact and monotone, the module over
      the database refines the abstract vote machine.
    - Chain: the stored blocks behave as a stack, of which only the cached blocks
      can be removed; processing and deleting a block is all or nothing, deleting
      the last block undoes it if the application agrees; no received block, tie
      break or synchronisation removes a finalized block as long as the blocks it
      accepts are new; deleting down to a common block ends; a download from a
      peer that runs this program copies its chain.
    - Certificates: the aggregate commit is that of the highest height that can
      be certified, the pool holds authentic commits only.
    - Storage: views behave as one map, commit and revert are inverse,
      snapshots restore, ranges return the view.
    - Tries: roots commit to their content, appending always succeeds and
      agrees with the direct computation, the sparse tree refines a finite map,
      accepted proofs of well-formed queries are true, and the proof generated
      for a value of a regular tree is accepted.
    - Codec: decoders are total, accept canonical bytes only and invert the
      encoders.
    - Pool and generator: the pool invariant holds in every run of calls that
      return, and those that do not are known, promotion is exact, selection terminates within the size limit in nonce order; a node
      accepts the blocks it forges, and the headers of one generator do not
      contradict each other while their heights grow, but do after a switch to a
      shorter chain.
    - Application: a failed command leaves no trace in the store but keeps its
      events; a commit writes the state and a root that does not depend on the
      order of the cache; a revert undoes exactly the commits that add no new
      key, so a block that adds one cannot be deleted; and the application
      panics when it starts ahead of the engine.
    - Network: a ban lasts for its time, a peer is banned after an exact number
      of messages, and a response that meets a timeout blocks all requests.
    - Addresses: the text form is decoded to the address, and valid texts differ
      in five characters or more.
    - Defects: where the code does not do what it means to, a theorem states
      what it does instead (blocking [Add], forged exclusion and membership
      proofs, panics on malformed input, diverging right witnesses, updates of a
      tree that are lost, and others).

    ** Bounds and fuel

    Loops whose recursion is not structural take a fuel that is computed
    from their input: lengths for readers, heights for tries, the binary
    digits of the indexes for Merkle proofs, number of transactions for the
    selection, the length of the slice for heaps. The lemmas about them
    assume fuel at least that large and show a result, so that [OutOfFuel]
    does not occur in the functions of the source. Deleting down to a common
    block takes at most as many rounds as the last block is high. Only the number of
    requests of a download has no bound in the source, since a peer can
    answer without progress: it is an argument of the synchronisers, and
    their safety holds for every value.

    ** Assumptions on the environment

    [final_rep] is established by the genesis block and kept by every step.
    That a new block has a new ID and new transactions is not checked by the
    code; it follows from the absence of hash collisions and from the nonces the
    application checks.  Theorems ask for it of the blocks that were accepted in
    the run they speak of only: [may_extend] of one block, [new_blocks] of the
    blocks that the published events announce.  It is needed
    ([repeated_transaction_lost]).  Nothing else is assumed of what the
    application answers when blocks are processed or deleted; where a result
    depends on it the theorem says how ([accepts_revert]), and the termination of
    the deletion asks that its calls return ([app_answers]).  In runs of the pool
    the answers may change with every operation.

    ** Not modelled

    JSON, the reading of key files, the query endpoints and plugins of the
    framework, the code generator, the configuration of libp2p, RPC and process
    wiring, which are text formats, I/O and glue around libraries; within
    modelled packages: logging, timers and channels, which do not affect
    results.  Goroutines of one call run in sequence where they work on disjoint
    state or only read; locks are modelled in the transaction pool only. *)

From stdpp Require Export base list list_numbers numbers strings gmap sorting.
From Stdlib Require Export ZArith Lia.

#[global] Open Scope Z_scope.

(** ** Bytes and machine integers *)

(** A Go [[]byte] is a list of integers; [byte_ok] says that an element is a
    byte.  Lengths and indices are [Z], as Go's [int] (64 bits). *)
Abbreviation bytes := (list Z).

Definition byte_ok (b : Z) : Prop := 0 ≤ b < 256.

Abbreviation bytes_ok := (Forall byte_ok).

Definition len {A} (l : list A) : Z := Z.of_nat (length l).

(** Conversions to the unsigned and signed types of the source, which wrap. *)
Definition u8 (x : Z) : Z := x mod 2 ^ 8.
Definition u32 (x : Z) : Z := x mod 2 ^ 32.
Definition u64 (x : Z) : Z := x mod 2 ^ 64.
Definition i64 (x : Z) : Z := (x + 2 ^ 63) mod 2 ^ 64 - 2 ^ 63.

Definition MaxUint32 : Z := 2 ^ 32 - 1.
Definition MaxUint64 : Z := 2 ^ 64 - 1.
Definition MinInt64 : Z := - 2 ^ 63.

Definition u32_ok (x : Z) : Prop := 0 ≤ x < 2 ^ 32.
Definition u64_ok (x : Z) : Prop := 0 ≤ x < 2 ^ 64.
Definition i64_ok (x : Z) : Prop := - 2 ^ 63 ≤ x < 2 ^ 63.
Definition i32_ok (x : Z) : Prop := - 2 ^ 31 ≤ x < 2 ^ 31.

(** ** Errors, panics and the result monad *)

(** The sentinel errors the code compares with [errors.Is], and one
    constructor for the messages built by [errors.New] and [fmt.Errorf]. *)
Inductive error :=
| ErrInvalidData
| ErrOutOfRange
| ErrNoTerminate
| ErrUnexpectedFieldNumber
| ErrFieldNumberNotFound
| ErrUnreadBytes
| ErrUnnecessaryLeadingBytes
| ErrDataNotFound
| ErrBFTParamsNotFound
| ErrGeneratorKeysNotFound
| ErrCommonBlockNotFound
| Errorf (msg : string).

#[export] Instance error_eq_dec : EqDecision error.
Proof. solve_decision. Defined.

(** [Ok]: normal return.  [Err]: a non-nil error is returned.  [Panic]: a run
    time panic (index out of range, explicit [panic]).  [OutOfFuel]: the loop
    bound of the model was too small; theorems show that it never is. *)
Inductive res (A : Type) :=
| Ok (a : A)
| Err (e : error)
| Panic
| OutOfFuel.

Arguments Ok {A} _.
Arguments Err {A} _.
Arguments Panic {A}.
Arguments OutOfFuel {A}.

#[export] Instance res_ret : MRet res := @Ok.

#[export] Instance res_bind : MBind res := λ A B f m,
  match m with
  | Ok a => f a
  | Err e => Err e
  | Panic => Panic
  | OutOfFuel => OutOfFuel
  end.

#[export] Instance res_fmap : FMap res := λ A B f m,
  match m with
  | Ok a => Ok (f a)
  | Err e => Err e
  | Panic => Panic
  | OutOfFuel => OutOfFuel
  end.

#[export] Instance res_eq_dec `{EqDecision A} : EqDecision (res A).
Proof. solve_decision. Defined.

Definition ok_or {A} (o : option A) (e : error) : res A :=
  match o with Some a => Ok a | None => Err e end.

Definition is_ok {A} (r : res A) : bool :=
  match r with Ok _ => true | _ => false end.

(** ** Indexing and slicing with Go's run-time checks *)

Definition idx {A} (l : list A) (i : Z) : option A :=
  if decide (0 ≤ i) then l !! Z.to_nat i else None.

Definition index {A} (l : list A) (i : Z) : res A :=
  match idx l i with Some x => Ok x | None => Panic end.

(** [l[a:b]]. *)
Definition slice {A} (l : list A) (a b : Z) : res (list A) :=
  if decide (0 ≤ a ∧ a ≤ b ∧ b ≤ len l)
  then Ok (take (Z.to_nat (b - a)) (drop (Z.to_nat a) l)) else Panic.

(** ** [sort.Slice] *)

Section sort_slice.
Context {A : Type} (less : A → A → bool).

Fixpoint insert_by (x : A) (l : list A) : list A :=
  match l with
  | [] => [x]
  | y :: k => if less y x then y :: insert_by x k else x :: l
  end.

(** Insertion sort, which is what [sort.Slice] runs on up to twelve
    elements.  The theorems only use that the result is a sorted
    permutation. *)
Fixpoint sort_slice (l : list A) : list A :=
  match l with
  | [] => []
  | x :: k => insert_by x (sort_slice k)
  end.

(** [less] is a strict weak order. *)
Record less_ok : Prop := {
  less_asym : ∀ x y, less x y = true → less y x = false;
  less_cotrans : ∀ x y z, less y x = false → less z y = false → less z x = false;
}.

Definition no_inversion (x y : A) : Prop := less y x = false.

Lemma insert_by_Permutation x l : insert_by x l ≡ₚ x :: l.
Proof.
  induction l as [|y l IH]; simpl; [done|].
  destruct (less y x); [|done]. rewrite IH. constructor.
Qed.

Lemma sort_slice_Permutation l : sort_slice l ≡ₚ l.
Proof.
  induction l as [|x l IH]; simpl; [done|].
  by rewrite insert_by_Permutation, IH.
Qed.

Lemma insert_by_sorted x l :
  less_ok → StronglySorted no_inversion l → StronglySorted no_inversion (insert_by x l).
Proof.
  intros [Hasym Htrans]. induction 1 as [|y l Hl IH Hy]; simpl.
  { repeat constructor. }
  destruct (less y x) eqn:E.
  - constructor; [done|]. rewrite insert_by_Permutation.
    constructor; [|done]. by apply Hasym.
  - constructor; [by constructor|]. constructor; [done|].
    eapply Forall_impl; [exact Hy|]. intros z Hz. unfold no_inversion in *. eauto.
Qed.

Lemma sort_slice_sorted l : less_ok → StronglySorted no_inversion (sort_slice l).
Proof.
  intros Hok. induction l; simpl; [constructor|]. by apply insert_by_sorted.
Qed.

Lemma length_sort_slice l : length (sort_slice l) = length l.
Proof. by rewrite sort_slice_Permutation. Qed.

Lemma elem_of_sort_slice x l : x ∈ sort_slice l ↔ x ∈ l.
Proof. by rewrite sort_slice_Permutation. Qed.
End sort_slice.

(** ** Lexicographic comparison: [bytes.Compare] *)

Fixpoint bytes_compare (a b : bytes) : comparison :=
  match a, b with
  | [], [] => Eq
  | [], _ :: _ => Lt
  | _ :: _, [] => Gt
  | x :: a, y :: b =>
      match x ?= y with Eq => bytes_compare a b | c => c end
  end.

Definition bytes_equal (a b : bytes) : bool := bool_decide (a = b).
Definition bytes_ltb (a b : bytes) : bool :=
  match bytes_compare a b with Lt => true | _ => false end.
Definition bytes_leb (a b : bytes) : bool :=
  match bytes_compare a b with Gt => false | _ => true end.

Section bytes_order.
Implicit Types a b c : bytes.

Lemma bytes_compare_refl a : bytes_compare a a = Eq.
Proof. induction a as [|x a IH]; simpl; [done|]. by rewrite Z.compare_refl. Qed.

Lemma bytes_compare_eq a b : bytes_compare a b = Eq ↔ a = b.
Proof.
  split; [|intros ->; apply bytes_compare_refl].
  revert b; induction a as [|x a IH]; intros [|y b]; simpl; try done.
  destruct (Z.compare_spec x y); try done. intros ?%IH. by subst.
Qed.

Lemma bytes_compare_antisym a b : bytes_compare b a = CompOpp (bytes_compare a b).
Proof.
  revert b; induction a as [|x a IH]; intros [|y b]; simpl; try done.
  rewrite Z.compare_antisym. destruct (x ?= y) eqn:E; simpl; auto.
Qed.

Lemma bytes_compare_lt_trans a b c :
  bytes_compare a b = Lt → bytes_compare b c = Lt → bytes_compare a c = Lt.
Proof.
  revert b c; induction a as [|x a IH]; intros [|y b] [|z c]; simpl; try done.
  destruct (Z.compare_spec x y), (Z.compare_spec y z), (Z.compare_spec x z);
    try done; try lia; subst; eauto.
Qed.

Lemma bytes_ltb_irrefl a : bytes_ltb a a = false.
Proof. unfold bytes_ltb. by rewrite bytes_compare_refl. Qed.

Lemma bytes_ltb_trans a b c :
  bytes_ltb a b = true → bytes_ltb b c = true → bytes_ltb a c = true.
Proof.
  unfold bytes_ltb. destruct (bytes_compare a b) eqn:E1; try done.
  destruct (bytes_compare b c) eqn:E2; try done.
  by rewrite (bytes_compare_lt_trans a b c).
Qed.

Lemma bytes_ltb_total a b : bytes_ltb a b = false → bytes_ltb b a = false → a = b.
Proof.
  unfold bytes_ltb. rewrite (bytes_compare_antisym a b).
  destruct (bytes_compare a b) eqn:E; simpl; try done.
  intros _ _. by apply bytes_compare_eq.
Qed.

Lemma bytes_ltb_asym a b : bytes_ltb a b = true → bytes_ltb b a = false.
Proof.
  unfold bytes_ltb. rewrite (bytes_compare_antisym a b).
  by destruct (bytes_compare a b).
Qed.

Lemma bytes_leb_ltb a b : bytes_leb a b = negb (bytes_ltb b a).
Proof.
  unfold bytes_leb, bytes_ltb. rewrite (bytes_compare_antisym a b).
  by destruct (bytes_compare a b).
Qed.

Lemma bytes_ltb_cotrans a b c :
  bytes_ltb b a = false → bytes_ltb c b = false → bytes_ltb c a = false.
Proof.
  intros H1 H2. destruct (bytes_ltb c a) eqn:E; [|done].
  destruct (bytes_ltb a b) eqn:E3.
  - rewrite (bytes_ltb_trans c a b) in H2; done.
  - rewrite (bytes_ltb_total a b E3 H1) in E. congruence.
Qed.

(** The comparison on a key, ascending and descending. *)
Lemma less_ok_key {A} (key : A → bytes) : less_ok (λ x y, bytes_ltb (key x) (key y)).
Proof.
  split; intros *; [apply bytes_ltb_asym|]. apply bytes_ltb_cotrans.
Qed.

Lemma less_ok_key_desc {A} (key : A → bytes) : less_ok (λ x y, bytes_ltb (key y) (key x)).
Proof.
  split; intros *; [apply bytes_ltb_asym|].
  intros H1 H2. by eapply bytes_ltb_cotrans.
Qed.

End bytes_order.

(** Descending order on an integer key. *)
Lemma less_ok_Z {A} (key : A → Z) : less_ok (λ x y, key x <? key y).
Proof. split; intros *; rewrite ?Z.ltb_lt, ?Z.ltb_ge; lia. Qed.

Lemma less_ok_Z_desc {A} (key : A → Z) : less_ok (λ x y, key y <? key x).
Proof. split; intros *; rewrite ?Z.ltb_lt, ?Z.ltb_ge; lia. Qed.

(** Two sorted permutations of each other are equal when the order separates
    their elements. *)
Lemma sorted_perm_unique {A} (R : A → A → Prop) (l k : list A) :
  (∀ x y, x ∈ l → y ∈ l → R x y → R y x → x = y) →
  StronglySorted R l → StronglySorted R k → l ≡ₚ k → l = k.
Proof.
  intros HR Hl. revert k HR. induction Hl as [|x l Hl IH Hx]; intros k HR Hk Hp.
  { by apply Permutation_nil_l in Hp as ->. }
  destruct k as [|y k]; [by apply Permutation_nil_r in Hp|].
  inversion Hk as [|? ? Hk' Hy]; subst.
  rewrite Forall_forall in Hx, Hy.
  assert (x = y) as ->.
  { assert (x ∈ y :: k) as [->|Hxk]%elem_of_cons by (rewrite <-Hp; left); [done|].
    assert (y ∈ x :: l) as [->|Hyl]%elem_of_cons by (rewrite Hp; left); [done|].
    apply HR; [left|by right|apply Hx, Hyl|apply Hy, Hxk]. }
  f_equal. apply IH; [|done|by apply Permutation_cons_inv in Hp].
  intros; apply HR; [by right|by right|done|done].
Qed.

Lemma StronglySorted_weaken {A} (R R' : A → A → Prop) l :
  (∀ x y, R x y → R' x y) → StronglySorted R l → StronglySorted R' l.
Proof.
  intros HR. induction 1 as [|x l Hl IH Hx]; constructor; [done|]. eapply Forall_impl; [done|]. auto.
Qed.

(** ** Generic lemmas on lists, lengths and integers *)

Section list_lemmas.
Context {A : Type}.
Implicit Types l k : list A.

Lemma len_nonneg l : 0 ≤ len l.
Proof. unfold len. lia. Qed.

Lemma len_app l k : len (l ++ k) = len l + len k.
Proof. unfold len. rewrite length_app. lia. Qed.

Lemma len_cons x l : len (x :: l) = 1 + len l.
Proof. unfold len. simpl length. lia. Qed.

Lemma len_nil : len (@nil A) = 0.
Proof. done. Qed.

Lemma idx_nonneg l i : 0 ≤ i → idx l i = l !! Z.to_nat i.
Proof. unfold idx. intros. by rewrite decide_True by lia. Qed.

Lemma idx_app_r l k i : 0 ≤ i → idx (l ++ k) (len l + i) = idx k i.
Proof.
  intros. unfold len. rewrite !idx_nonneg by lia.
  rewrite lookup_app_r by lia. f_equal. lia.
Qed.

Lemma idx_app_len l x k : idx (l ++ x :: k) (len l) = Some x.
Proof. rewrite <-(Z.add_0_r (len l)). by rewrite idx_app_r. Qed.

Lemma idx_is_Some l i : is_Some (idx l i) ↔ 0 ≤ i < len l.
Proof.
  unfold idx, len. case_decide; [|rewrite <-not_eq_None_Some; naive_solver lia].
  rewrite lookup_lt_is_Some. lia.
Qed.

Lemma idx_None l i : idx l i = None ↔ i < 0 ∨ len l ≤ i.
Proof. rewrite eq_None_not_Some, idx_is_Some. lia. Qed.

Lemma index_0 x l : index (x :: l) 0 = Ok x.
Proof. done. Qed.

Lemma slice_app_mid l k m :
  slice (l ++ k ++ m) (len l) (len l + len k) = Ok k.
Proof.
  unfold slice. rewrite decide_True by (rewrite !len_app; pose proof (len_nonneg l);
    pose proof (len_nonneg k); pose proof (len_nonneg m); lia).
  unfold len. rewrite Nat2Z.id, drop_app_length.
  replace (Z.to_nat _) with (length k) by lia. by rewrite take_app_length.
Qed.

End list_lemmas.

Lemma u32_small x : u32_ok x → u32 x = x.
Proof. intros. by apply Z.mod_small. Qed.

Lemma u64_small x : u64_ok x → u64 x = x.
Proof. intros. by apply Z.mod_small. Qed.

Lemma u32_range x : u32_ok (u32 x).
Proof. apply Z.mod_pos_bound. lia. Qed.

Lemma u64_range x : u64_ok (u64 x).
Proof. apply Z.mod_pos_bound. lia. Qed.

Lemma i64_small x : i64_ok x → i64 x = x.
Proof. intros [??]. unfold i64. rewrite Z.mod_small; lia. Qed.

Lemma i64_range x : i64_ok (i64 x).
Proof.
  unfold i64, i64_ok. pose proof (Z.mod_pos_bound (x + 2 ^ 63) (2 ^ 64)). lia.
Qed.

(** ** Automation *)

Create HintDb go.
#[export] Hint Resolve len_nonneg u32_range u64_range i64_range : go.
#[export] Hint Resolve less_ok_key less_ok_key_desc less_ok_Z less_ok_Z_desc : go.
Create Rewrite HintDb len.
#[export] Hint Rewrite @len_app @len_cons @len_nil : len.

(** Destructs the scrutinee of a [match] in the goal, keeping the equation. *)
Ltac step_match :=
  match goal with
  | |- context [match ?x with _ => _ end] => destruct x eqn:?
  end.

(** Turns boolean comparisons on [Z] into propositions. *)
Ltac zbool :=
  rewrite ?Z.ltb_lt, ?Z.leb_le, ?Z.eqb_eq, ?Z.ltb_ge, ?Z.leb_gt, ?Z.eqb_neq,
    ?andb_true_iff, ?orb_true_iff, ?negb_true_iff, ?andb_false_iff,
    ?orb_false_iff, ?negb_false_iff in *.

(** [lia] after exposing lengths as non-negative integers. *)
Ltac len_lia :=
  autorewrite with len in *;
  repeat match goal with
  | |- context [len ?l] =>
      lazymatch goal with
      | _ : 0 ≤ len l |- _ => fail
      | _ => pose proof (len_nonneg l)
      end
  | _ : context [len ?l] |- _ =>
      lazymatch goal with
      | _ : 0 ≤ len l |- _ => fail
      | _ => pose proof (len_nonneg l)
      end
  end; lia.
