(* ===== verification/Collection.v ===== *)
(** * Collection: the slice utilities of pkg/collection

    Models [pkg/collection/bytes] (integer/byte conversions, bit strings,
    joining), [pkg/collection] (search, insert, common prefix) and
    [pkg/collection/ints] (maximum and minimum).  The main facts are that the
    big-endian conversions are inverse to each other and order preserving,
    which is what makes height-keyed database ranges work, and that
    [BinarySearch] terminates and finds the first match. *)

From S2P Require Import Prelude.

(** ** pkg/collection/bytes *)
Module Bytes.

(** [binary.BigEndian.PutUint<8n>]. *)
Fixpoint be_put (n : nat) (v : Z) : bytes :=
  match n with
  | O => []
  | S n => u8 (Z.shiftr v (8 * Z.of_nat n)) :: be_put n v
  end.

(** [binary.BigEndian.Uint<8n>] on [n] bytes. *)
Definition be_get (b : bytes) : Z :=
  foldl (λ acc x, Z.lor (Z.shiftl acc 8) x) 0 b.

Definition FromUint16 (val : Z) : bytes := be_put 2 val.
Definition FromUint32 (val : Z) : bytes := be_put 4 val.
Definition FromUint64 (val : Z) : bytes := be_put 8 val.

(** The conversions back read a prefix and panic on a shorter slice. *)
Definition ToUint32 (val : bytes) : res Z :=
  if decide (4 ≤ len val) then Ok (be_get (take 4 val)) else Panic.
Definition ToUint64 (val : bytes) : res Z :=
  if decide (8 ≤ len val) then Ok (be_get (take 8 val)) else Panic.

Definition Join (s : list bytes) : bytes := concat s.

(** [JoinSize] copies into a buffer of the given size: what does not fit is
    dropped and what is not filled stays zero. *)
Definition JoinSize (size : Z) (s : list bytes) : bytes :=
  take (Z.to_nat size) (concat s ++ replicate (Z.to_nat size) 0).

Fixpoint FindIndex_from (i : Z) (values : list bytes) (target : bytes) : Z :=
  match values with
  | [] => -1
  | v :: vs => if bytes_equal v target then i else FindIndex_from (i + 1) vs target
  end.
Definition FindIndex (values : list bytes) (target : bytes) : Z :=
  FindIndex_from 0 values target.

Definition IsBitSet (bits : bytes) (i : Z) : res bool :=
  b ← index bits (i ÷ 8);
  Ok (Z.land (u8 (Z.shiftl b (i mod 8))) 0x80 =? 0x80).

Definition bools_of_byte (x : Z) : list bool :=
  (λ j, Z.land (u8 (Z.shiftl x j)) 0x80 =? 0x80) <$> [0; 1; 2; 3; 4; 5; 6; 7].

Definition ToBools (val : bytes) : list bool := val ≫= bools_of_byte.

Definition byte_of_bools (l : list bool) : Z :=
  foldl Z.lor 0 (imap (λ i x, if (x : bool) then Z.shiftr 0x80 (Z.of_nat i) else 0) l).

Fixpoint pack_bools (n : nat) (l : list bool) : bytes :=
  match n with
  | O => []
  | S n => byte_of_bools (take 8 l) :: pack_bools n (drop 8 l)
  end.

(** The input is padded in front to a multiple of eight. *)
Definition FromBools (input : list bool) : bytes :=
  let n := ((length input + 7) `div` 8)%nat in
  let target := replicate (8 * n - length input)%nat false ++ input in
  pack_bools n target.

(** *** Lemmas *)

Lemma length_be_put n v : length (be_put n v) = n.
Proof. induction n; simpl; auto. Qed.

Lemma be_put_ok n v : bytes_ok (be_put n v).
Proof.
  induction n; simpl; constructor; [|done].
  apply Z.mod_pos_bound; lia.
Qed.

Lemma lor_shift8 a b : 0 ≤ b < 256 → Z.lor (Z.shiftl a 8) b = a * 256 + b.
Proof.
  intros Hb. rewrite Z.shiftl_mul_pow2 by lia. change (2 ^ 8) with 256.
  symmetry. apply Z.add_nocarry_lor, Z.bits_inj'. intros i Hi.
  rewrite Z.land_spec, Z.bits_0. change 256 with (2 ^ 8).
  destruct (decide (i < 8)).
  - by rewrite Z.mul_pow2_bits_low by lia.
  - rewrite (Z.bits_above_log2 b i), andb_false_r; [done|lia|].
    destruct (decide (b = 0)) as [->|]; [simpl; lia|].
    apply Z.log2_lt_pow2; [lia|]. apply Z.lt_le_trans with 256; [lia|].
    change 256 with (2 ^ 8). apply Z.pow_le_mono_r; lia.
Qed.

Lemma foldl_be_acc b acc :
  bytes_ok b →
  foldl (λ acc x, Z.lor (Z.shiftl acc 8) x) acc b = acc * 256 ^ len b + be_get b.
Proof.
  unfold be_get. intros Hb. revert acc.
  induction Hb as [|x b Hx Hb IH]; intros acc; simpl; [rewrite len_nil; lia|].
  rewrite (IH (Z.lor _ x)), (IH (Z.lor (Z.shiftl 0 8) x)).
  rewrite !lor_shift8 by done. rewrite len_cons, Z.pow_add_r by len_lia. lia.
Qed.

Lemma be_get_cons x b :
  byte_ok x → bytes_ok b → be_get (x :: b) = x * 256 ^ len b + be_get b.
Proof.
  intros Hx Hb. unfold be_get at 1. simpl. rewrite foldl_be_acc by done.
  rewrite lor_shift8 by done. lia.
Qed.

Lemma be_get_bounds b : bytes_ok b → 0 ≤ be_get b < 256 ^ len b.
Proof.
  induction 1 as [|x b Hx Hb IH]; [done|].
  rewrite be_get_cons by done. rewrite len_cons, Z.pow_add_r by len_lia.
  unfold byte_ok in Hx. nia.
Qed.

Lemma be_get_put n v : 0 ≤ v → be_get (be_put n v) = v mod 256 ^ Z.of_nat n.
Proof.
  intros Hv. induction n as [|n IH]; simpl; [by rewrite Z.mod_1_r|].
  rewrite be_get_cons by (apply be_put_ok || (apply Z.mod_pos_bound; lia)).
  rewrite IH. unfold len, u8. rewrite length_be_put.
  rewrite Z.shiftr_div_pow2 by lia.
  replace (2 ^ (8 * Z.of_nat n)) with (256 ^ Z.of_nat n)
    by (change 256 with (2 ^ 8); rewrite <-Z.pow_mul_r; [done|lia|lia]).
  rewrite Nat2Z.inj_succ, Z.pow_succ_r by lia. rewrite (Z.mul_comm 256).
  rewrite Z.rem_mul_r by (try apply Z.pow_nonzero; try apply Z.pow_pos_nonneg; lia).
  change (2 ^ 8) with 256. lia.
Qed.

Lemma bytes_compare_be_get a b :
  length a = length b → bytes_ok a → bytes_ok b →
  bytes_compare a b = (be_get a ?= be_get b).
Proof.
  intros Hl Ha. revert b Hl. induction Ha as [|x a Hx Ha IH]; intros [|y b] Hl Hb;
    simplify_eq/=; [done|].
  inversion Hb as [|?? Hy Hb']; subst. rewrite !be_get_cons by done.
  rewrite IH by done. unfold len. rewrite Hl.
  pose proof (be_get_bounds a Ha). pose proof (be_get_bounds b Hb').
  unfold len in *. rewrite Hl in *.
  destruct (Z.compare_spec x y); subst.
  - destruct (Z.compare_spec (be_get a) (be_get b)); symmetry;
      [apply Z.compare_eq_iff|apply Z.compare_lt_iff|apply Z.compare_gt_iff]; lia.
  - symmetry. apply Z.compare_lt_iff. nia.
  - symmetry. apply Z.compare_gt_iff. nia.
Qed.

Lemma ToUint32_FromUint32 v : u32_ok v → ToUint32 (FromUint32 v) = Ok v.
Proof.
  intros Hv. unfold ToUint32, FromUint32.
  rewrite decide_True by (unfold len; rewrite length_be_put; lia).
  rewrite take_ge by (rewrite length_be_put; lia).
  rewrite be_get_put by apply Hv. f_equal. apply Z.mod_small. apply Hv.
Qed.

Lemma bytes_compare_FromUint32 a b :
  u32_ok a → u32_ok b → bytes_compare (FromUint32 a) (FromUint32 b) = (a ?= b).
Proof.
  intros Ha Hb. unfold FromUint32.
  rewrite bytes_compare_be_get by (apply be_put_ok || by rewrite !length_be_put).
  rewrite !be_get_put, !Z.mod_small by (apply Ha || apply Hb). done.
Qed.

Lemma FromUint32_inj a b : u32_ok a → u32_ok b → FromUint32 a = FromUint32 b → a = b.
Proof.
  intros Ha Hb H. apply (f_equal (λ l, bytes_compare l (FromUint32 b))) in H.
  rewrite bytes_compare_FromUint32, bytes_compare_refl in H by done.
  by apply Z.compare_eq.
Qed.

Lemma bools_of_byte_inv x : byte_ok x → byte_of_bools (bools_of_byte x) = x.
Proof.
  intros Hx. assert (x ∈ seqZ 0 256) as Hin by (apply elem_of_seqZ; unfold byte_ok in Hx; lia).
  assert (Forall (λ x, byte_of_bools (bools_of_byte x) = x) (seqZ 0 256)) as HF
    by (apply (bool_decide_unpack _); vm_compute; exact I).
  rewrite Forall_forall in HF. by apply HF.
Qed.

Lemma length_bools_of_byte x : length (bools_of_byte x) = 8%nat.
Proof. done. Qed.

Lemma length_ToBools val : length (ToBools val) = (8 * length val)%nat.
Proof.
  induction val as [|x val IH]; [done|].
  unfold ToBools in *. cbn [mbind list_bind]. rewrite length_app, IH, length_bools_of_byte.
  simpl; lia.
Qed.

Lemma pack_ToBools val : bytes_ok val → pack_bools (length val) (ToBools val) = val.
Proof.
  induction 1 as [|x val Hx Hv IH]; [done|].
  unfold ToBools in *. cbn [mbind list_bind length pack_bools].
  rewrite take_app_length', drop_app_length' by done.
  by rewrite bools_of_byte_inv, IH.
Qed.

(** [FromBools] inverts [ToBools]. *)
Lemma FromBools_ToBools val : bytes_ok val → FromBools (ToBools val) = val.
Proof.
  intros Hv. unfold FromBools. rewrite length_ToBools.
  assert ((8 * length val + 7) `div` 8 = length val)%nat as ->.
  { rewrite Nat.mul_comm, Nat.div_add_l by lia. simpl. lia. }
  rewrite Nat.sub_diag. simpl. by apply pack_ToBools.
Qed.

End Bytes.

(** ** pkg/collection *)
Module Slices.
Section slices.
Context {A : Type}.

Fixpoint Equal `{EqDecision A} (a b : list A) : bool :=
  match a, b with
  | [], [] => true
  | x :: a, y :: b => bool_decide (x = y) && Equal a b
  | _, _ => false
  end.

Fixpoint CommonPrefix_loop `{EqDecision A} (shorter longer : list A) : list A :=
  match shorter, longer with
  | x :: s, y :: l => if decide (x = y) then x :: CommonPrefix_loop s l else []
  | _, _ => []
  end.

Definition CommonPrefix `{EqDecision A} (a b : list A) : list A :=
  if decide (len a < len b) then CommonPrefix_loop a b else CommonPrefix_loop b a.

(** [Insert] panics when the index is out of range. *)
Definition Insert (list : list A) (i : Z) (val : A) : res (Datatypes.list A) :=
  if decide (0 ≤ i ≤ len list)
  then Ok (take (Z.to_nat i) list ++ val :: drop (Z.to_nat i) list) else Panic.

Fixpoint FindIndex_from (i : Z) (list : Datatypes.list A) (predicate : A → bool) : Z :=
  match list with
  | [] => -1
  | v :: vs => if predicate v then i else FindIndex_from (i + 1) vs predicate
  end.
Definition FindIndex (list : Datatypes.list A) (predicate : A → bool) : Z :=
  FindIndex_from 0 list predicate.

(** The loop of [BinarySearch]; each round halves [high - low], so the length
    of the list bounds the number of rounds. *)
Fixpoint BinarySearch_loop (fuel : nat) (list : Datatypes.list A) (less : A → bool)
    (low high : Z) : res Z :=
  if decide (1 + low < high) then
    match fuel with
    | O => OutOfFuel
    | S fuel =>
        let mid := low + Z.shiftr (high - low) 1 in
        x ← index list mid;
        if less x then BinarySearch_loop fuel list less low mid
        else BinarySearch_loop fuel list less mid high
    end
  else Ok high.

Definition BinarySearch (list : Datatypes.list A) (less : A → bool) : res Z :=
  BinarySearch_loop (length list) list less (-1) (len list).

Lemma Equal_spec `{EqDecision A} (a b : list A) : Equal a b = true ↔ a = b.
Proof.
  revert b; induction a as [|x a IH]; intros [|y b]; simpl; try done.
  rewrite andb_true_iff, bool_decide_eq_true, IH. naive_solver.
Qed.

Lemma BinarySearch_loop_spec fuel l less low high :
  -1 ≤ low → low < high → high ≤ len l → high - low ≤ Z.of_nat fuel + 1 →
  (low = -1 ∨ ∃ x, idx l low = Some x ∧ less x = false) →
  (high = len l ∨ ∃ x, idx l high = Some x ∧ less x = true) →
  ∃ h, BinarySearch_loop fuel l less low high = Ok h ∧ 0 ≤ h ≤ len l
    ∧ (h = 0 ∨ ∃ x, idx l (h - 1) = Some x ∧ less x = false)
    ∧ (h = len l ∨ ∃ x, idx l h = Some x ∧ less x = true).
Proof.
  revert low high. induction fuel as [|fuel IH]; intros low high Hl Hlh Hh Hf Hlo Hhi;
    cbn [BinarySearch_loop]; case_decide as Hd.
  - lia.
  - exists high. assert (low = high - 1) as -> by lia.
    split_and!; [done|lia..| |done]. destruct Hlo; [left; lia|by right].
  - assert (low < low + Z.shiftr (high - low) 1 < high) as Hmid.
    { rewrite Z.shiftr_div_pow2 by lia. change (2 ^ 1) with 2.
      pose proof (Z.div_mod (high - low) 2). pose proof (Z.mod_pos_bound (high - low) 2). lia. }
    assert (2 * (low + Z.shiftr (high - low) 1) ≤ high + low) as Hmid2.
    { rewrite Z.shiftr_div_pow2 by lia. change (2 ^ 1) with 2.
      pose proof (Z.div_mod (high - low) 2). pose proof (Z.mod_pos_bound (high - low) 2). lia. }
    destruct (proj2 (idx_is_Some l (low + Z.shiftr (high - low) 1)) ltac:(lia)) as [x Hx].
    unfold index. rewrite Hx. cbn [mbind res_bind].
    destruct (less x) eqn:E; apply IH; try lia; eauto.
  - exists high. assert (low = high - 1) as -> by lia.
    split_and!; [done|lia..| |done]. destruct Hlo; [left; lia|by right].
Qed.

End slices.
End Slices.

(** ** pkg/collection/ints *)
Module Ints.

(** [Max] and [Min] sort a copy and take the first element; both panic on an
    empty argument list. *)
Definition Max (nums : list Z) : res Z :=
  index (sort_slice (λ x y, y <? x) nums) 0.
Definition Min (nums : list Z) : res Z :=
  index (sort_slice (λ x y, x <? y) nums) 0.

Lemma hd_sorted_extreme (less : Z → Z → bool) (nums : list Z) m :
  less_ok less → index (sort_slice less nums) 0 = Ok m →
  m ∈ nums ∧ ∀ x, x ∈ nums → less x m = false.
Proof.
  intros Hok. pose proof (sort_slice_sorted less nums Hok) as Hs.
  pose proof (λ x, elem_of_sort_slice less x nums) as Hel.
  destruct (sort_slice less nums) as [|y k]; [done|].
  intros [= ->]. inversion Hs as [|?? Hk HF]; subst. split; [apply Hel; left|].
  intros x [->|Hx]%Hel%elem_of_cons.
  - destruct (less m m) eqn:E; [|done]. by rewrite (less_asym _ Hok _ _ E) in E.
  - rewrite Forall_forall in HF. by apply HF.
Qed.

Lemma Max_Ok nums m : Max nums = Ok m → m ∈ nums ∧ ∀ x, x ∈ nums → x ≤ m.
Proof.
  intros [H1 H2]%hd_sorted_extreme; [|apply (less_ok_Z_desc id)].
  split; [done|]. intros x Hx%H2. zbool. lia.
Qed.

Lemma Min_Ok nums m : Min nums = Ok m → m ∈ nums ∧ ∀ x, x ∈ nums → m ≤ x.
Proof.
  intros [H1 H2]%hd_sorted_extreme; [|apply (less_ok_Z id)].
  split; [done|]. intros x Hx%H2. zbool. lia.
Qed.

Ltac solve_extreme :=
  unfold Max, Min; cbn -[Z.max Z.min Z.ltb];
  repeat (match goal with |- context [?a <? ?b] => destruct (Z.ltb_spec a b) end;
          cbn -[Z.max Z.min Z.ltb]);
  rewrite index_0; f_equal; lia.

Lemma Max_2 a b : Max [a; b] = Ok (Z.max a b).
Proof. solve_extreme. Qed.

Lemma Max_3 a b c : Max [a; b; c] = Ok (Z.max a (Z.max b c)).
Proof. solve_extreme. Qed.

Lemma Min_2 a b : Min [a; b] = Ok (Z.min a b).
Proof. solve_extreme. Qed.

End Ints.
