(* ===== verification/Lisk32.v ===== *)
(** * Lisk32: the text form of addresses

    pkg/codec/bytes.go: an address of 20 bytes is written as "lsk", 32 digits of
    base 32 and 6 digits of a checksum.  Strings are lists of bytes; ranging
    over the runes of a string or over its bytes finds the same first character
    outside the alphabet, since the alphabet is ASCII. *)

From S2P Require Import Prelude Collection.

(** ** bytes.go *)

(** "zxvcpmbn3465o978uyrtkqew2adsjhfg" *)
Definition lisk32Charset : bytes :=
  [122; 120; 118; 99; 112; 109; 98; 110; 51; 52; 54; 53; 111; 57; 55; 56;
   117; 121; 114; 116; 107; 113; 101; 119; 50; 97; 100; 115; 106; 104; 102; 103].

Definition lisk32_generator : list Z := [0x3b6a57b2; 0x26508e6d; 0x1ea119fa; 0x3d4233dd; 0x2a1462b3].

(** "lsk" *)
Definition lisk32_prefix : bytes := [108; 115; 107].

(** [strings.Index] for one character. *)
Definition charIndex (c : Z) : Z :=
  match list_find (λ x, x = c) lisk32Charset with Some (i, _) => Z.of_nat i | None => -1 end.

(** The inner loop of [convertUIntArray]. *)
Fixpoint drain (fuel : nat) (toBits accumulator bits : Z) (result : list Z) : res (Z * list Z) :=
  if toBits <=? bits then
    match fuel with
    | O => OutOfFuel
    | S fuel =>
        let bits := bits - toBits in
        drain fuel toBits accumulator bits (result ++ [Z.land (Z.shiftr accumulator bits) (Z.shiftl 1 toBits - 1)])
    end
  else Ok (bits, result).

(** An entry out of range ends the loop with an empty slice; the accumulator is
    an [int], which loses its upper bits. *)
Fixpoint convert_loop (uintArray : list Z) (fromBits toBits accumulator bits : Z) (result : list Z) : res (list Z) :=
  match uintArray with
  | [] => Ok result
  | value :: uintArray =>
      if (value <? 0) || negb (Z.shiftr value fromBits =? 0) then Ok []
      else
        let accumulator := i64 (Z.lor (Z.shiftl accumulator fromBits) value) in
        let bits := bits + fromBits in
        '(bits, result) ← drain (Z.to_nat bits) toBits accumulator bits result;
        convert_loop uintArray fromBits toBits accumulator bits result
  end.

Definition convertUIntArray (uintArray : list Z) (fromBits toBits : Z) : res (list Z) :=
  convert_loop uintArray fromBits toBits 0 0 [].

(** The generators of the bits that are set in [top]. *)
Definition reduce (top chk : Z) : Z :=
  foldl (λ chk '(i, g), if negb (Z.land (Z.shiftr top i) 1 =? 0) then Z.lxor chk g else chk) chk
    (zip [0; 1; 2; 3; 4] lisk32_generator).

Definition polymod_step (chk value : Z) : Z :=
  let top := Z.shiftr chk 25 in
  reduce top (Z.lxor (Z.shiftl (Z.land chk 0x1ffffff) 5) value).

Definition polymod (uint5Array : list Z) : Z := foldl polymod_step 1 uint5Array.

Definition createChecksum (uint5Array : list Z) : list Z :=
  let values := uint5Array ++ [0; 0; 0; 0; 0; 0] in
  let mod_ := Z.lxor (polymod values) 1 in
  (λ p, Z.land (Z.shiftr mod_ (5 * (5 - p))) 31) <$> [0; 1; 2; 3; 4; 5].

Fixpoint uint5ToLisk32 (values : list Z) : res bytes :=
  match values with
  | [] => Ok []
  | v :: values => c ← index lisk32Charset v; result ← uint5ToLisk32 values; Ok (c :: result)
  end.

Definition BytesToLisk32 (val : bytes) : res bytes :=
  if len val =? 0 then Ok []
  else if negb (len val =? 20) then Err (Errorf "lisk32 bytes must be size of 20")
  else
    uint5Arr ← convertUIntArray val 8 5;
    result ← uint5ToLisk32 (uint5Arr ++ createChecksum uint5Arr);
    Ok (lisk32_prefix ++ result).

Fixpoint char_indices (cs : bytes) : res (list Z) :=
  match cs with
  | [] => Ok []
  | c :: cs =>
      let index := charIndex c in
      if index <? 0 then Err (Errorf "lisk32 string includes invalid character")
      else rest ← char_indices cs; Ok (index :: rest)
  end.

(** The first three characters are not looked at. *)
Definition ValidateLisk32 (val : bytes) : res () :=
  if negb (len val =? 41) then Err (Errorf "lisk32 string must be size of 41")
  else
    withoutPrefix ← slice val 3 (len val);
    uint5Arr ← char_indices withoutPrefix;
    if negb (polymod uint5Arr =? 1) then Err (Errorf "invalid checksum") else Ok ().

Definition Lisk32ToBytes (val : bytes) : res bytes :=
  if bytes_equal val [] then Ok []
  else
    _ ← ValidateLisk32 val;
    target ← (slice val 3 35 : res (list Z));
    let uint5Arr := (charIndex <$> target : list Z) in
    uint8Arr ← convertUIntArray uint5Arr 5 8 : res (list Z);
    Ok ((u8 <$> uint8Arr) : list Z).

(** An address of the tests, "lskgr5tu9283t77x8d27g8e95zwqgkc3sogx4zazd". *)
Example lisk32_sample :
  let s := [108; 115; 107; 103; 114; 53; 116; 117; 57; 50; 56; 51; 116; 55; 55; 120; 56; 100; 50; 55; 103; 56; 101; 57; 53; 122; 119; 113; 103; 107; 99; 51; 115; 111; 103; 120; 52; 122; 97; 122; 100] in
  is_ok (ValidateLisk32 s) = true ∧ (Lisk32ToBytes s ≫= BytesToLisk32) = Ok s.
Proof. vm_compute. done. Qed.

(** ** Digits *)

(** The number that digits of [b] bits are, the most significant first. *)
Definition value (b : Z) (l : list Z) : Z := foldl (λ n d, n * 2 ^ b + d) 0 l.
Definition digits (b : Z) (l : list Z) : Prop := Forall (λ d, 0 ≤ d < 2 ^ b) l.

Lemma value_snoc b l d : value b (l ++ [d]) = value b l * 2 ^ b + d.
Proof. unfold value. by rewrite foldl_app. Qed.

Lemma digits_snoc b l d : digits b (l ++ [d]) ↔ digits b l ∧ 0 ≤ d < 2 ^ b.
Proof. unfold digits. by rewrite Forall_app, Forall_singleton. Qed.

Lemma len_snoc {A} (l : list A) x : len (l ++ [x]) = len l + 1.
Proof. unfold len. rewrite length_app. cbn. lia. Qed.

Lemma value_bounds b l : 0 ≤ b → digits b l → 0 ≤ value b l < 2 ^ (b * len l).
Proof.
  intros Hb. induction l as [|d l IH] using rev_ind; intros Hd; [change (len (@nil Z)) with 0; rewrite Z.mul_0_r; cbn; lia|].
  apply digits_snoc in Hd as [Hl Hd]. specialize (IH Hl).
  rewrite value_snoc, len_snoc, Z.mul_add_distr_l, Z.mul_1_r, Z.pow_add_r by (unfold len; lia).
  assert (value b l * 2 ^ b ≤ (2 ^ (b * len l) - 1) * 2 ^ b) by (apply Z.mul_le_mono_nonneg_r; lia). nia.
Qed.

(** Digits of the same length are determined by their number. *)
Lemma value_inj b l k : 0 ≤ b → digits b l → digits b k → length l = length k → value b l = value b k → l = k.
Proof.
  intros Hb. revert k. induction l as [|d l IH] using rev_ind; intros k Hl Hk Hlen Hv.
  { by destruct k. }
  destruct k as [|e k _] using rev_ind; [rewrite length_app in Hlen; cbn in Hlen; lia|].
  apply digits_snoc in Hl as [Hl Hd]. apply digits_snoc in Hk as [Hk He].
  rewrite !length_app in Hlen. cbn [length] in Hlen. rewrite !value_snoc in Hv.
  assert (value b l = value b k ∧ d = e) as [Hv' ->] by (apply (Z.div_mod_unique (2 ^ b)); lia). f_equal. apply IH; [done..|lia|done].
Qed.

Lemma i64_mod n k : 0 ≤ k ≤ 64 → i64 n mod 2 ^ k = n mod 2 ^ k.
Proof.
  intros Hk. unfold i64. rewrite (Z.mod_eq _ (2 ^ 64)) by lia. set (q := (n + 2 ^ 63) / 2 ^ 64).
  replace (n + 2 ^ 63 - 2 ^ 64 * q - 2 ^ 63) with (n + (- q * 2 ^ (64 - k)) * 2 ^ k); [apply Z_mod_plus_full|].
  rewrite <-Z.mul_assoc, <-Z.pow_add_r by lia. replace (64 - k + k) with 64 by lia. lia.
Qed.

(** Reading [w] bits at a position below the width of an [int]. *)
Lemma bits_of_i64 n b w : 0 ≤ b → 0 ≤ w → b + w ≤ 64 →
  Z.land (Z.shiftr (i64 n) b) (Z.shiftl 1 w - 1) = n / 2 ^ b mod 2 ^ w.
Proof.
  intros Hb Hw Hs. rewrite Z.shiftl_1_l. replace (2 ^ w - 1) with (Z.ones w) by (rewrite Z.ones_equiv; lia).
  rewrite Z.land_ones, Z.shiftr_div_pow2 by lia.
  assert (∀ x, x / 2 ^ b mod 2 ^ w = x mod 2 ^ (b + w) / 2 ^ b) as E; [|by rewrite !E, i64_mod by lia].
  intros x. pose proof (Z.pow_pos_nonneg 2 b ltac:(lia) Hb). rewrite Z.pow_add_r, Z.rem_mul_r by (lia || (apply Z.pow_pos_nonneg; lia)).
  rewrite (Z.mul_comm (2 ^ b)), Z.div_add, (Z.div_small (x mod _)) by (lia || (apply Z.mod_pos_bound; lia)). done.
Qed.

Lemma lor_shiftl a f v : 0 ≤ f → 0 ≤ v < 2 ^ f → Z.lor (Z.shiftl a f) v = a * 2 ^ f + v.
Proof.
  intros Hf Hv. rewrite <-Z.shiftl_mul_pow2 by done. symmetry.
  assert (Z.land (Z.shiftl a f) v = 0) as E.
  { apply Z.bits_inj'. intros i Hi. rewrite Z.land_spec, Z.bits_0. destruct (Z.ltb_spec i f).
    - by rewrite Z.shiftl_spec_low.
    - rewrite <-(Z.mod_small v (2 ^ f)), Z.mod_pow2_bits_high by lia. apply andb_false_r. }
  by rewrite Z.add_nocarry_lxor, Z.lxor_lor.
Qed.

(** Appending bits to an accumulator. *)
Lemma i64_append n f v : 0 ≤ f → 0 ≤ v < 2 ^ f → i64 (Z.lor (Z.shiftl (i64 n) f) v) = i64 (n * 2 ^ f + v).
Proof.
  intros Hf Hv. rewrite lor_shiftl by done. unfold i64 at 1 3. f_equal.
  pose proof (i64_mod n 64 ltac:(lia)) as E.
  rewrite <-!Z.add_assoc, Zplus_mod, Zmult_mod, E, <-Zmult_mod, <-Zplus_mod. done.
Qed.

Lemma value_cons b d l : 0 ≤ b → value b (d :: l) = d * 2 ^ (b * len l) + value b l.
Proof.
  intros Hb. induction l as [|e l IH] using rev_ind.
  - unfold value. change (len (@nil Z)) with 0. rewrite Z.mul_0_r. cbn. lia.
  - change (d :: l ++ [e]) with ((d :: l) ++ [e]). rewrite !value_snoc, IH, len_snoc, Z.mul_add_distr_l, Z.mul_1_r, Z.pow_add_r by (unfold len; lia). lia.
Qed.

Section convert.
Context (fromBits toBits : Z) (Hfrom : 0 < fromBits ≤ 32) (Hto : 0 < toBits ≤ 32).

Lemma drain_spec fuel n bits result : 0 ≤ n → 0 ≤ bits ≤ 64 → (Z.to_nat bits ≤ fuel)%nat →
  digits toBits result → value toBits result = n / 2 ^ bits →
  ∃ bits' result', drain fuel toBits (i64 n) bits result = Ok (bits', result') ∧ 0 ≤ bits' < toBits ∧
    toBits * len result' + bits' = toBits * len result + bits ∧ digits toBits result' ∧ value toBits result' = n / 2 ^ bits'.
Proof using Hto.
  revert bits result. induction fuel as [|fuel IH]; intros bits result Hn Hb Hf Hd Hv; cbn [drain];
    (destruct (Z.leb_spec toBits bits); [|exists bits, result; by repeat split; try lia]); [lia|].
  rewrite bits_of_i64 by lia. destruct (IH (bits - toBits) (result ++ [n / 2 ^ (bits - toBits) mod 2 ^ toBits])) as (b' & r' & E & Hb' & Hl & Hd' & Hv').
  - done.
  - lia.
  - lia.
  - apply digits_snoc. split; [done|]. apply Z.mod_pos_bound. apply Z.pow_pos_nonneg; lia.
  - rewrite value_snoc, Hv. pose proof (Z.pow_pos_nonneg 2 toBits ltac:(lia) ltac:(lia)).
    replace (2 ^ bits) with (2 ^ (bits - toBits) * 2 ^ toBits) by (rewrite <-Z.pow_add_r by lia; f_equal; lia).
    rewrite <-Z.div_div by (try apply Z.pow_nonzero; lia). pose proof (Z.div_mod (n / 2 ^ (bits - toBits)) (2 ^ toBits)). lia.
  - exists b', r'. rewrite len_snoc in Hl. repeat split; try done; lia.
Qed.

Lemma convert_loop_spec l n bits result : 0 ≤ n → 0 ≤ bits < toBits → digits fromBits l → digits toBits result →
  value toBits result = n / 2 ^ bits →
  ∃ bits' result', convert_loop l fromBits toBits (i64 n) bits result = Ok result' ∧ 0 ≤ bits' < toBits ∧
    toBits * len result' + bits' = toBits * len result + bits + fromBits * len l ∧ digits toBits result' ∧
    value toBits result' = (n * 2 ^ (fromBits * len l) + value fromBits l) / 2 ^ bits'.
Proof using Hto Hfrom.
  revert n bits result. induction l as [|v l IH]; intros n bits result Hn Hb Hl Hd Hv; cbn [convert_loop].
  { exists bits, result. change (len (@nil Z)) with 0. rewrite !Z.mul_0_r. cbn. rewrite Z.mul_1_r, !Z.add_0_r. done. }
  apply Forall_cons in Hl as [Hv0 Hl].
  destruct (Z.ltb_spec v 0); [lia|]. rewrite Z.shiftr_div_pow2, Z.div_small by lia. cbn [orb negb Z.eqb].
  rewrite i64_append by lia.
  destruct (drain_spec (Z.to_nat (bits + fromBits)) (n * 2 ^ fromBits + v) (bits + fromBits) result) as (b1 & r1 & -> & Hb1 & Hl1 & Hd1 & Hv1).
  - nia.
  - lia.
  - lia.
  - done.
  - rewrite Hv, (Z.add_comm bits), Z.pow_add_r, <-Z.div_div by (try apply Z.pow_nonzero; try apply Z.pow_pos_nonneg; lia).
    rewrite Z.div_add_l, (Z.div_small v), Z.add_0_r by (try apply Z.pow_nonzero; lia). done.
  - cbn [mbind res_bind]. destruct (IH (n * 2 ^ fromBits + v) b1 r1) as (b2 & r2 & E & Hb2 & Hl2 & Hd2 & Hv2); [nia|done..|].
    exists b2, r2. split; [done|]. split; [done|]. rewrite len_cons. split; [lia|]. split; [done|]. rewrite Hv2. f_equal.
    rewrite value_cons, Z.mul_add_distr_l, Z.mul_1_r, Z.pow_add_r by (unfold len; lia). lia.
Qed.
End convert.

(** All bits are used when the lengths match. *)
Lemma convert_exact fromBits toBits l m : 0 < fromBits ≤ 32 → 0 < toBits ≤ 32 → digits fromBits l → fromBits * len l = toBits * m →
  ∃ r, convertUIntArray l fromBits toBits = Ok r ∧ len r = m ∧ digits toBits r ∧ value toBits r = value fromBits l.
Proof.
  intros Hf Ht Hl Hm. destruct (convert_loop_spec fromBits toBits Hf Ht l 0 0 []) as (b & r & E & Hb & Hlen & Hd & Hv);
    [lia|lia|done|constructor|done|].
  exists r. split; [exact E|]. change (len (@nil Z)) with 0 in Hlen. destruct (Z.div_mod_unique toBits (len r) m b 0) as [Hr ->]; [lia..|]. split; [done|]. split; [done|].
  rewrite Hv, Z.mul_0_l, Z.add_0_l. apply Z.div_1_r.
Qed.

(** ** The alphabet *)

Lemma charIndex_ok c : 0 ≤ charIndex c → charIndex c < 32 ∧ index lisk32Charset (charIndex c) = Ok c.
Proof.
  unfold charIndex. destruct (list_find _ _) as [[i y]|] eqn:E; [|lia]. intros _. apply list_find_Some in E as (Hi & -> & _).
  pose proof (lookup_lt_Some _ _ _ Hi) as Hlt. cbn [lisk32Charset length] in Hlt. split; [lia|].
  unfold index. rewrite idx_nonneg, Nat2Z.id, Hi by lia. done.
Qed.

Lemma charIndex_digit d : 0 ≤ d < 32 → ∃ c, index lisk32Charset d = Ok c ∧ charIndex c = d.
Proof.
  intros Hd. assert (∀ n, (n < 32)%nat → ∃ c, lisk32Charset !! n = Some c ∧ charIndex c = Z.of_nat n) as Hall.
  { intros n Hn. do 32 (destruct n as [|n]; [by eexists|]). lia. }
  destruct (Hall (Z.to_nat d) ltac:(lia)) as (c & Hc & Ei). exists c. unfold index. rewrite idx_nonneg, Hc, Ei by lia. split; [done|lia].
Qed.

Lemma uint5ToLisk32_ok l : digits 5 l → ∃ s, uint5ToLisk32 l = Ok s ∧ char_indices s = Ok l ∧ len s = len l.
Proof.
  induction l as [|d l IH]; intros Hl; [by exists []|]. apply Forall_cons in Hl as [Hd Hl]. destruct (IH Hl) as (s & Es & Ei & Hlen).
  destruct (charIndex_digit d Hd) as (c & Ec & Ed). exists (c :: s). cbn. rewrite Ec, Es, Ed. cbn. rewrite Ei, !len_cons, Hlen.
  destruct (Z.ltb_spec d 0); [lia|done].
Qed.

Lemma char_indices_ok s l : char_indices s = Ok l → digits 5 l ∧ uint5ToLisk32 l = Ok s ∧ l = charIndex <$> s.
Proof.
  revert l. induction s as [|c s IH]; intros l; cbn; [intros [= <-]; split; [constructor|done]|]. destruct (Z.ltb_spec (charIndex c) 0); [done|].
  destruct (char_indices s) as [rest| | |]; try done. intros [= <-]. destruct (IH _ eq_refl) as (Hd & Eu & Er).
  destruct (charIndex_ok c ltac:(lia)) as [Hlt Ec]. split; [constructor; [lia|done]|]. cbn. rewrite Ec, Eu. cbn. split; [done|]. by f_equal.
Qed.

(** ** The checksum is linear *)

Definition gens (top : Z) : Z :=
  foldr (λ '(i, g) r, Z.lxor (if Z.testbit top i then g else 0) r) 0 (zip [0; 1; 2; 3; 4] lisk32_generator).

Lemma bit_test top i : 0 ≤ i → negb (Z.land (Z.shiftr top i) 1 =? 0) = Z.testbit top i.
Proof.
  intros Hi. change 1 with (Z.ones 1). rewrite Z.land_ones, Z.shiftr_div_pow2 by lia. change (2 ^ 1) with 2. rewrite <-Z.testbit_spec' by done.
  by destruct (Z.testbit top i).
Qed.

Lemma polymod_step_gens c v : polymod_step c v = Z.lxor (Z.lxor (Z.shiftl (Z.land c 0x1ffffff) 5) v) (gens (Z.shiftr c 25)).
Proof.
  unfold polymod_step, reduce, gens. set (top := Z.shiftr c 25). set (x := Z.lxor _ v). clearbody top x.
  cbn [zip zip_with lisk32_generator foldl foldr]. rewrite !bit_test by lia.
  repeat (match goal with |- context [Z.testbit top ?i] => destruct (Z.testbit top i) end); rewrite ?Z.lxor_0_l, ?Z.lxor_0_r, ?Z.lxor_assoc; done.
Qed.

Lemma lxor_swap a b c d : Z.lxor (Z.lxor a b) (Z.lxor c d) = Z.lxor (Z.lxor a c) (Z.lxor b d).
Proof. rewrite !Z.lxor_assoc. f_equal. rewrite <-!Z.lxor_assoc. f_equal. apply Z.lxor_comm. Qed.

Lemma gens_lxor s t : gens (Z.lxor s t) = Z.lxor (gens s) (gens t).
Proof.
  unfold gens. induction (zip _ _) as [|[i g] l IH]; cbn [foldr]; [done|]. rewrite IH, lxor_swap. f_equal. rewrite Z.lxor_spec.
  destruct (Z.testbit s i), (Z.testbit t i); cbn [xorb]; by rewrite ?Z.lxor_0_l, ?Z.lxor_0_r, ?Z.lxor_nilpotent.
Qed.

Lemma polymod_step_lxor a b u v : polymod_step (Z.lxor a b) (Z.lxor u v) = Z.lxor (polymod_step a u) (polymod_step b v).
Proof.
  rewrite !polymod_step_gens, Z.shiftr_lxor, gens_lxor. rewrite (lxor_swap (Z.lxor _ u)). f_equal. rewrite (lxor_swap _ u). f_equal.
  rewrite <-Z.shiftl_lxor. f_equal. apply Z.bits_inj'. intros i Hi. rewrite !Z.lxor_spec, !Z.land_spec, Z.lxor_spec.
  by destruct (Z.testbit a i), (Z.testbit b i), (Z.testbit _ i).
Qed.

(** The checksum from any start. *)
Definition polymod_from (c : Z) (l : list Z) : Z := foldl polymod_step c l.

Lemma polymod_from_lxor u v a b : length u = length v →
  polymod_from (Z.lxor a b) (zip_with Z.lxor u v) = Z.lxor (polymod_from a u) (polymod_from b v).
Proof.
  revert v a b. induction u as [|x u IH]; intros [|y v] a b Hlen; [done..|]. unfold polymod_from. cbn [zip_with foldl]. rewrite polymod_step_lxor. apply IH. cbn in Hlen. lia.
Qed.

(** ** Valid checksums *)

(** The states of the checksum have 30 bits. *)
Abbreviation state30 c := (0 ≤ c < 2 ^ 30).

Lemma lxor_bound n a b : 0 ≤ n → 0 ≤ a < 2 ^ n → 0 ≤ b < 2 ^ n → 0 ≤ Z.lxor a b < 2 ^ n.
Proof.
  intros Hn Ha Hb. assert (0 ≤ Z.lxor a b) as H0 by (apply Z.lxor_nonneg; lia). split; [done|].
  apply Z.bounded_iff_bits_nonneg; [done..|]. intros i Hi. rewrite Z.lxor_spec.
  by rewrite (proj1 (Z.bounded_iff_bits_nonneg n a Hn ltac:(lia)) ltac:(lia) i Hi), (proj1 (Z.bounded_iff_bits_nonneg n b Hn ltac:(lia)) ltac:(lia) i Hi).
Qed.

Lemma gens_bound t : state30 (gens t).
Proof.
  unfold gens. cbn [zip zip_with lisk32_generator foldr]. repeat (apply lxor_bound; [lia|case_match; lia|]). lia.
Qed.

Lemma polymod_step_bound c v : 0 ≤ v < 32 → state30 (polymod_step c v).
Proof.
  intros Hv. rewrite polymod_step_gens. apply lxor_bound; [lia| |apply gens_bound]. apply lxor_bound; [lia| |lia].
  change 0x1ffffff with (Z.ones 25). rewrite Z.land_ones, Z.shiftl_mul_pow2 by lia. pose proof (Z.mod_pos_bound c (2 ^ 25) ltac:(lia)). lia.
Qed.

Lemma polymod_from_bound c l : state30 c → digits 5 l → state30 (polymod_from c l).
Proof.
  revert c. induction l as [|v l IH]; intros c Hc Hl; [done|]. apply Forall_cons in Hl as [Hv Hl]. apply IH; [|done]. by apply polymod_step_bound.
Qed.

(** Nothing is reduced below 25 bits. *)
Lemma polymod_step_small c v : 0 ≤ c < 2 ^ 25 → 0 ≤ v < 32 → polymod_step c v = c * 32 + v.
Proof.
  intros Hc Hv. rewrite polymod_step_gens, Z.shiftr_div_pow2, Z.div_small by lia. change (gens 0) with 0. rewrite Z.lxor_0_r.
  change 0x1ffffff with (Z.ones 25). rewrite Z.land_ones, Z.mod_small by lia. change 32 with (2 ^ 5). rewrite <-(lor_shiftl c 5 v) by lia. apply Z.lxor_lor.
  apply Z.bits_inj'. intros i Hi. rewrite Z.land_spec, Z.bits_0. destruct (Z.ltb_spec i 5); [by rewrite Z.shiftl_spec_low|].
  rewrite (proj1 (Z.bounded_iff_bits_nonneg 5 v ltac:(lia) ltac:(lia)) ltac:(lia) i) by lia. apply andb_false_r.
Qed.

Lemma polymod_from_value l : digits 5 l → len l ≤ 6 → polymod_from 0 l = value 5 l.
Proof.
  induction l as [|v l IH] using rev_ind; intros Hl Hlen; [done|]. apply digits_snoc in Hl as [Hl Hv]. rewrite len_snoc in Hlen.
  unfold polymod_from. rewrite foldl_app. cbn [foldl]. fold (polymod_from 0 l). rewrite IH, value_snoc by (done || lia).
  apply polymod_step_small; [|done]. pose proof (value_bounds 5 l ltac:(lia) Hl) as Hb. split; [lia|].
  eapply Z.lt_le_trans; [apply Hb|]. apply Z.pow_le_mono_r; lia.
Qed.

Lemma checksum_digits m : state30 m → let l := (λ p, Z.land (Z.shiftr m (5 * (5 - p))) 31) <$> [0; 1; 2; 3; 4; 5] in digits 5 l ∧ value 5 l = m.
Proof.
  intros Hm l. assert (∀ k, 0 ≤ k → Z.land (Z.shiftr m k) 31 = m / 2 ^ k mod 32) as E.
  { intros k Hk. change 31 with (Z.ones 5). by rewrite Z.land_ones, Z.shiftr_div_pow2 by lia. }
  unfold l. cbn [fmap list_fmap]. rewrite !E by lia. split; [repeat constructor; apply Z.mod_pos_bound; lia|].
  unfold value. cbn [foldl]. cbn [Z.sub Z.mul]. Z.div_mod_to_equations. lia.
Qed.

Lemma createChecksum_ok u : digits 5 u → digits 5 (createChecksum u) ∧ value 5 (createChecksum u) = Z.lxor (polymod (u ++ replicate 6 0)) 1.
Proof.
  intros Hu. apply checksum_digits, lxor_bound; [lia| |lia]. apply polymod_from_bound; [lia|]. apply Forall_app. split; [done|]. repeat constructor; lia.
Qed.

Lemma polymod_app u v : polymod (u ++ v) = polymod_from (polymod_from 1 u) v.
Proof. apply foldl_app. Qed.

(** Exactly the six digits of [createChecksum] are accepted after [u]. *)
Lemma checksum_unique u cs : digits 5 u → digits 5 cs → length cs = 6%nat → polymod (u ++ cs) = 1 ↔ cs = createChecksum u.
Proof.
  intros Hu Hcs Hlen. destruct (createChecksum_ok u Hu) as [Hd Hv].
  assert (polymod (u ++ cs) = Z.lxor (polymod (u ++ replicate 6 0)) (value 5 cs)) as E.
  { rewrite !polymod_app, <-(polymod_from_value cs) by (done || (unfold len; lia)).
    rewrite <-polymod_from_lxor, Z.lxor_0_r by (rewrite length_replicate; lia). f_equal.
    do 7 (destruct cs as [|? cs]; try discriminate Hlen). cbn [zip_with replicate]. by rewrite !Z.lxor_0_l. }
  rewrite E. split.
  - intros Ep. apply (value_inj 5); [lia|done..|]. rewrite Hv, <-Ep, <-Z.lxor_assoc, Z.lxor_nilpotent. apply Z.lxor_0_l.
  - intros ->. rewrite Hv, <-Z.lxor_assoc, Z.lxor_nilpotent. apply Z.lxor_0_l.
Qed.

(** ** Round trip *)

Lemma Lisk32_text a : bytes_ok a → len a = 20 → ∃ u, digits 5 u ∧ len u = 32 ∧ value 5 u = value 8 a ∧ ∃ t,
  uint5ToLisk32 (u ++ createChecksum u) = Ok t ∧ char_indices t = Ok (u ++ createChecksum u) ∧ len t = 38 ∧
  BytesToLisk32 a = Ok (lisk32_prefix ++ t).
Proof.
  intros Ha Hlen. destruct (convert_exact 8 5 a 32 ltac:(lia) ltac:(lia) Ha ltac:(lia)) as (u & E & Hu & Hd & Hv).
  destruct (uint5ToLisk32_ok (u ++ createChecksum u)) as (t & Et & Ei & Ht).
  { apply Forall_app. split; [done|]. by apply createChecksum_ok. }
  exists u. split_and!; [done..|]. exists t. split_and!; [done..| |].
  - rewrite Ht, len_app, Hu. done.
  - unfold BytesToLisk32. rewrite Hlen. cbn [Z.eqb Pos.eqb negb]. rewrite E. cbn [mbind res_bind]. by rewrite Et.
Qed.

Lemma slice_inside {A} (l : list A) a b : 0 ≤ a ≤ b → b ≤ len l → slice l a b = Ok (take (Z.to_nat (b - a)) (drop (Z.to_nat a) l)).
Proof. intros Hab Hb. unfold slice. by rewrite decide_True by lia. Qed.

Lemma u8_digits r : digits 8 r → u8 <$> r = r.
Proof.
  intros Hr. rewrite <-(list_fmap_id r) at 2. apply list_fmap_ext. intros i d Hd. eapply Forall_lookup in Hr; [|exact Hd]. by apply Z.mod_small.
Qed.

(** The text of a valid string. *)
Lemma ValidateLisk32_Ok s : ValidateLisk32 s = Ok () ↔ len s = 41 ∧ ∃ l, char_indices (drop 3 s) = Ok l ∧ polymod l = 1.
Proof.
  unfold ValidateLisk32. destruct (Z.eqb_spec (len s) 41) as [Hlen|]; cbn [negb]; [|split; [done|intros [? _]; lia]].
  rewrite slice_inside, take_ge by (rewrite ?length_drop; unfold len in *; lia). cbn [mbind res_bind]. change (Z.to_nat 3) with 3%nat.
  destruct (char_indices (drop 3 s)) as [l| | |]; cbn [mbind res_bind];
    try (split; [discriminate|intros (_ & l & ? & _); discriminate]).
  destruct (Z.eqb_spec (polymod l) 1) as [E|E]; cbn [negb]; split; try done.
  - by eauto.
  - intros (_ & l' & [= <-] & ?). done.
Qed.

(** What [Lisk32ToBytes] accepts, in digits. *)
Lemma Lisk32ToBytes_Ok s a : s ≠ [] → Lisk32ToBytes s = Ok a ↔ len s = 41 ∧ bytes_ok a ∧ len a = 20 ∧
  ∃ u, digits 5 u ∧ len u = 32 ∧ value 5 u = value 8 a ∧ char_indices (drop 3 s) = Ok (u ++ createChecksum u).
Proof.
  intros Hs. unfold Lisk32ToBytes, bytes_equal. rewrite bool_decide_false by done.
  assert (len s = 41 → ∀ l, char_indices (drop 3 s) = Ok l → polymod l = 1 → ∃ u r, digits 5 u ∧ len u = 32 ∧ l = u ++ createChecksum u ∧
    charIndex <$> take 32 (drop 3 s) = u ∧ convertUIntArray u 5 8 = Ok r ∧ len r = 20 ∧ digits 8 r ∧ value 8 r = value 5 u) as Hmain.
  { intros Hlen l El Hp. destruct (char_indices_ok _ _ El) as (Hd & _ & ->). clear El.
    assert (∃ t c, drop 3 s = t ++ c ∧ length t = 32%nat ∧ length c = 6%nat) as (t & c & E & Ht & Hc).
    { exists (take 32 (drop 3 s)), (drop 32 (drop 3 s)). unfold len in Hlen. rewrite take_drop, length_take, !length_drop. split_and!; [done|lia..]. }
    rewrite E, fmap_app in *. rewrite take_app_length' by done. apply Forall_app in Hd as [Hu Hdc].
    assert (len (charIndex <$> t) = 32) as Hlu by (unfold len; rewrite length_fmap; lia).
    destruct (convert_exact 5 8 (charIndex <$> t) 20 ltac:(lia) ltac:(lia) Hu ltac:(lia)) as (r & Er & Hr & Hdr & Hv).
    exists (charIndex <$> t), r. split_and!; try done. f_equal. apply checksum_unique; [done..| |done]. by rewrite length_fmap. }
  split.
  - destruct (ValidateLisk32 s) as [[]| | |] eqn:Ev; try done. apply ValidateLisk32_Ok in Ev as (Hlen & l & El & Hp). cbn [mbind res_bind].
    rewrite slice_inside by lia. cbn [mbind res_bind]. change (Z.to_nat (35 - 3)) with 32%nat. change (Z.to_nat 3) with 3%nat.
    destruct (Hmain Hlen l El Hp) as (u & r & Hu & Hlu & -> & -> & -> & Hr & Hdr & Hv). cbn [mbind res_bind]. intros [= <-].
    rewrite (u8_digits r) by done. eauto 10.
  - intros (Hlen & Ha & Hla & u & Hu & Hlu & Hv & El).
    assert (polymod (u ++ createChecksum u) = 1) as Hp.
    { destruct (createChecksum_ok u Hu). by apply checksum_unique. }
    assert (ValidateLisk32 s = Ok ()) as -> by (apply ValidateLisk32_Ok; eauto). cbn [mbind res_bind].
    rewrite slice_inside by lia. cbn [mbind res_bind]. change (Z.to_nat (35 - 3)) with 32%nat. change (Z.to_nat 3) with 3%nat.
    destruct (Hmain Hlen _ El Hp) as (u' & r & Hu' & Hlu' & Eu & -> & -> & Hr & Hdr & Hv'). apply app_inj_1 in Eu as [<- _]; [|unfold len in *; lia].
    cbn [mbind res_bind]. rewrite (u8_digits r) by done. f_equal.
    apply (value_inj 8); [lia|done..|unfold len in *; lia|congruence].
Qed.

(** C33: The text form of an address is decoded to that address.  A string is decoded
    to the address exactly when it has the length and the characters of its text
    form, the first three excepted: the prefix "lsk" is not checked. *)
Theorem Lisk32_roundtrip a : bytes_ok a → len a = 20 → ∃ s, BytesToLisk32 a = Ok s ∧ Lisk32ToBytes s = Ok a ∧
  ∀ s', s' ≠ [] → Lisk32ToBytes s' = Ok a ↔ len s' = 41 ∧ drop 3 s' = drop 3 s.
Proof.
  intros Ha Hlen. destruct (Lisk32_text a Ha Hlen) as (u & Hu & Hlu & Hv & t & Et & Ei & Ht & E). exists (lisk32_prefix ++ t).
  assert (∀ s', s' ≠ [] → Lisk32ToBytes s' = Ok a ↔ len s' = 41 ∧ drop 3 s' = t) as Hs'.
  { intros s' Hne. rewrite Lisk32ToBytes_Ok by done. split.
    - intros (Hl & _ & _ & u' & Hu' & Hlu' & Hv' & Ei'). split; [done|].
      assert (u' = u) as -> by (apply (value_inj 5); [lia|done..|unfold len in *; lia|congruence]).
      destruct (char_indices_ok _ _ Ei') as (_ & Et' & _). congruence.
    - intros [Hl ->]. eauto 10. }
  split; [done|]. split; [|done]. apply Hs'; [done|]. split; [|done]. rewrite len_app, Ht. done.
Qed.

(** ** The distance of valid strings

    A difference of valid strings is a word with checksum 0; its weight is
    bounded by a computation over a multiple of it. *)

(** A digit zero, and [n] of them. *)
Definition shift (c : Z) : Z := polymod_step c 0.
Definition shifts (n : nat) (c : Z) : Z := Nat.iter n shift c.

(** A function that distributes over xor. *)
Definition linear (f : Z → Z) : Prop := ∀ a b, f (Z.lxor a b) = Z.lxor (f a) (f b).

Lemma shift_linear : linear shift.
Proof. intros a b. unfold shift. rewrite <-polymod_step_lxor. by rewrite Z.lxor_0_r. Qed.

Lemma iter_linear f n : linear f → linear (Nat.iter n f).
Proof. intros Hf. induction n as [|n IH]; intros a b; [done|]. by rewrite !Nat.iter_succ, IH, Hf. Qed.

Lemma shifts_linear n : linear (shifts n).
Proof. apply iter_linear, shift_linear. Qed.

Lemma linear_0 f : linear f → f 0 = 0.
Proof. intros Hf. specialize (Hf 0 0). rewrite Z.lxor_0_r, Z.lxor_nilpotent in Hf. done. Qed.

Lemma shifts_0 n : shifts n 0 = 0.
Proof. apply linear_0, shifts_linear. Qed.

Lemma shifts_add n m c : shifts (n + m) c = shifts n (shifts m c).
Proof. apply Nat.iter_add. Qed.

Lemma shift_bound c : state30 (shift c).
Proof. unfold shift. apply polymod_step_bound. lia. Qed.

Lemma shifts_bound n c : state30 c → state30 (shifts n c).
Proof. destruct n; [done|]. intros _. change (state30 (shift (shifts n c))). apply shift_bound. Qed.

(** Linear functions on [n] bits are equal when they are on each bit. *)
Lemma linear_ext f g n : linear f → linear g → (∀ i, (i < n)%nat → f (2 ^ Z.of_nat i) = g (2 ^ Z.of_nat i)) →
  ∀ c, 0 ≤ c < 2 ^ Z.of_nat n → f c = g c.
Proof.
  intros Hf Hg. induction n as [|n IH]; intros Hb c Hc.
  { assert (c = 0) as -> by (cbn in Hc; lia). by rewrite !linear_0. }
  destruct (Z.ltb_spec c (2 ^ Z.of_nat n)); [apply IH; [intros; apply Hb; lia|lia]|].
  rewrite Nat2Z.inj_succ, Z.pow_succ_r in Hc by lia.
  assert (c = Z.lxor (2 ^ Z.of_nat n) (c - 2 ^ Z.of_nat n)) as ->.
  { rewrite <-Z.add_nocarry_lxor; [lia|]. apply Z.bits_inj'. intros i Hi. rewrite Z.land_spec, Z.bits_0, Z.pow2_bits_eqb by lia.
    destruct (Z.eqb_spec (Z.of_nat n) i) as [<-|]; [|done].
    rewrite (proj1 (Z.bounded_iff_bits_nonneg (Z.of_nat n) (c - 2 ^ Z.of_nat n) ltac:(lia) ltac:(lia)) ltac:(lia)) by lia. done. }
  rewrite Hf, Hg, Hb by lia. f_equal. apply IH; [intros; apply Hb; lia|lia].
Qed.

(** Only 0 becomes 0. *)
Lemma shift_zero c : state30 c → shift c = 0 → c = 0.
Proof.
  intros Hc E. assert (Z.shiftr c 25 = 0) as Ht.
  { assert (∀ n, (n < 32)%nat → Z.land (gens (Z.of_nat n)) 31 = 0 → n = 0%nat) as Hall.
    { intros n Hn. do 32 (destruct n as [|n]; [by vm_compute|]). lia. }
    assert (0 ≤ Z.shiftr c 25 < 32) as Hr.
    { rewrite Z.shiftr_div_pow2 by lia. split; [apply Z.div_pos; lia|apply Z.div_lt_upper_bound; lia]. }
    assert (Z.land (gens (Z.shiftr c 25)) 31 = 0) as Hg.
    { unfold shift in E. rewrite polymod_step_gens, Z.lxor_0_r in E. apply Z.lxor_eq in E. rewrite <-E. change 31 with (Z.ones 5).
      rewrite Z.land_ones, Z.shiftl_mul_pow2 by lia. apply Z.mod_mul. lia. }
    pose proof (Hall (Z.to_nat (Z.shiftr c 25)) ltac:(lia)) as Hn. rewrite Z2Nat.id in Hn by lia. specialize (Hn Hg). lia. }
  rewrite Z.shiftr_div_pow2 in Ht by lia. unfold shift in E. rewrite polymod_step_small in E; [lia| |lia].
  split; [lia|]. apply Z.div_small_iff in Ht; lia.
Qed.

Lemma shifts_zero n c : state30 c → shifts n c = 0 → c = 0.
Proof.
  intros Hc. induction n as [|n IH]; [done|]. change (shifts (S n) c) with (shift (shifts n c)). intros E. apply IH, shift_zero; [by apply shifts_bound|done].
Qed.

(** Multiplication by x in the field of 32 elements, in each digit. *)
Definition scale (c : Z) : Z :=
  let top := Z.land c 0x21084210 in
  Z.lxor (Z.shiftl (Z.land c 0x1ef7bdef) 1) (Z.lxor (Z.shiftr top 4) (Z.shiftr top 1)).

Lemma land_linear m : linear (λ c, Z.land c m).
Proof.
  intros a b. apply Z.bits_inj'. intros i Hi. rewrite !Z.lxor_spec, !Z.land_spec, Z.lxor_spec.
  by destruct (Z.testbit a i), (Z.testbit b i), (Z.testbit m i).
Qed.

Lemma scale_linear : linear scale.
Proof.
  intros a b. unfold scale. rewrite !(land_linear _ a b : Z.land _ _ = _), Z.shiftl_lxor, !Z.shiftr_lxor.
  rewrite (lxor_swap (Z.shiftr _ 4)). by rewrite lxor_swap.
Qed.

Lemma scale_shift c : state30 c → scale (shift c) = shift (scale c).
Proof.
  apply (linear_ext (λ c, scale (shift c)) (λ c, shift (scale c)) 30).
  - intros a b. by rewrite shift_linear, scale_linear.
  - intros a b. by rewrite scale_linear, shift_linear.
  - intros i Hi. do 30 (destruct i as [|i]; [by vm_compute|]). lia.
Qed.

Lemma scale_bound c : 0 ≤ c → state30 (scale c).
Proof.
  intros Hc. assert (∀ m n, 0 ≤ m < 2 ^ n → 0 ≤ n → 0 ≤ Z.land c m < 2 ^ n) as Hl.
  { intros m n Hm Hn. split; [apply Z.land_nonneg; lia|]. apply Z.bounded_iff_bits_nonneg; [done|apply Z.land_nonneg; lia|].
    intros i Hi. rewrite Z.land_spec, (proj1 (Z.bounded_iff_bits_nonneg n m Hn ltac:(lia)) ltac:(lia) i Hi). apply andb_false_r. }
  pose proof (Hl 0x21084210 30 ltac:(lia) ltac:(lia)). pose proof (Hl 0x1ef7bdef 29 ltac:(lia) ltac:(lia)).
  unfold scale. apply lxor_bound; [lia|rewrite Z.shiftl_mul_pow2 by lia; lia|].
  apply lxor_bound; [lia|..]; rewrite Z.shiftr_div_pow2 by lia; (split; [apply Z.div_pos; lia|apply Z.div_lt_upper_bound; lia]).
Qed.

Definition scales (k : nat) (c : Z) : Z := Nat.iter k scale c.

Lemma scales_linear k : linear (scales k).
Proof. apply iter_linear, scale_linear. Qed.

Lemma scale_shifts n c : state30 c → scale (shifts n c) = shifts n (scale c).
Proof.
  intros Hc. induction n as [|n IH]; [done|]. change (scale (shift (shifts n c)) = shift (shifts n (scale c))).
  rewrite scale_shift, IH by (by apply shifts_bound). done.
Qed.

Lemma scales_bound k c : state30 c → state30 (scales k c).
Proof.
  intros Hc. induction k as [|k IH]; [done|]. change (state30 (scale (scales k c))). apply scale_bound. lia.
Qed.

Lemma scales_shifts k n c : state30 c → scales k (shifts n c) = shifts n (scales k c).
Proof.
  intros Hc. induction k as [|k IH]; [done|]. change (scale (scales k (shifts n c)) = shifts n (scale (scales k c))).
  rewrite IH. apply scale_shifts. by apply scales_bound.
Qed.

Abbreviation digit d := (0 ≤ d < 32).

Lemma scale_digit d : digit d → digit (scale d).
Proof.
  intros Hd. assert (∀ n, (n < 32)%nat → digit (scale (Z.of_nat n))) as Hall.
  { intros n Hn. do 32 (destruct n as [|n]; [vm_compute; intuition congruence|]). lia. }
  specialize (Hall (Z.to_nat d) ltac:(lia)). by rewrite Z2Nat.id in Hall by lia.
Qed.

Lemma scales_digit k d : digit d → digit (scales k d).
Proof. intros Hd. induction k as [|k IH]; [done|]. change (digit (scale (scales k d))). by apply scale_digit. Qed.

(** Every digit but 0 is scaled to 1. *)
Lemma scales_one d : digit d → d ≠ 0 → ∃ k, scales k d = 1.
Proof.
  intros Hd Hne. assert (forallb (λ d, existsb (λ k, scales k d =? 1) (seq 0 31)) (seqZ 1 31) = true) as Hall by (vm_compute; reflexivity).
  rewrite forallb_forall in Hall. specialize (Hall d). rewrite existsb_exists in Hall. destruct Hall as (k & _ & Hk%Z.eqb_eq); [|by exists k].
  apply list_elem_of_In, elem_of_seqZ. lia.
Qed.

(** The upper digits. *)
Definition high (c : Z) : Z := Z.shiftr c 5.

Definition all_digits : list Z := seqZ 0 32.

(** The digits, shifted up to [k] times. *)
Fixpoint rows (k : nat) (r : list Z) : list (list Z) :=
  match k with O => [r] | S k => r :: rows k (shift <$> r) end.

Lemma rows_lookup k r n : (n ≤ k)%nat → rows k r !! n = Some (shifts n <$> r).
Proof.
  revert k r. induction n as [|n IH]; intros k r Hn.
  - destruct k; cbn; f_equal; symmetry; apply list_fmap_id.
  - destruct k as [|k]; [lia|]. cbn [rows lookup list_lookup]. rewrite IH by lia. f_equal. rewrite <-list_fmap_compose.
    apply list_fmap_ext. intros i d _. cbn [compose]. unfold shifts. by rewrite Nat.iter_swap.
Qed.

(** In no row does a digit of it complete the 1 of a later row to the digits of
    an earlier one. *)
Fixpoint far (rs : list (list Z)) (seen : gset Z) : bool :=
  match rs with
  | [] => true
  | r :: rs =>
      forallb (λ r', match r' !! 1%nat with
                     | Some x => forallb (λ y, bool_decide (high (Z.lxor x y) ∉ seen)) r
                     | None => false
                     end) rs
      && far rs (list_to_set (high <$> r) ∪ seen)
  end.

Lemma far_sound rs seen n m r r' x y : far rs seen = true → rs !! n = Some r → rs !! m = Some r' → (n < m)%nat → r' !! 1%nat = Some x → y ∈ r →
  high (Z.lxor x y) ∉ seen ∧ ∀ p rp w, (p < n)%nat → rs !! p = Some rp → w ∈ rp → high (Z.lxor x y) ≠ high w.
Proof.
  revert seen n m. induction rs as [|r0 rs IH]; intros seen n m Hf Hn Hm Hlt Hx Hy; [done|]. cbn [far] in Hf. apply andb_true_iff in Hf as [Hr Hf].
  destruct m as [|m]; [lia|]. cbn in Hm. destruct n as [|n].
  - cbn in Hn. injection Hn as ->. split; [|lia]. rewrite forallb_forall in Hr. specialize (Hr r').
    rewrite Hx, forallb_forall in Hr. apply (bool_decide_unpack _).
    specialize (Hr ltac:(apply list_elem_of_In; by eapply list_elem_of_lookup_2) y ltac:(by apply list_elem_of_In)). by rewrite Hr.
  - cbn in Hn. destruct (IH _ n m Hf Hn Hm ltac:(lia) Hx Hy) as [Hs Hp]. rewrite not_elem_of_union, elem_of_list_to_set in Hs. destruct Hs as [Hs0 Hs].
    split; [done|]. intros [|p] rp w Hpn Hrp Hw; cbn in Hrp; [|by apply (Hp p rp w); [lia|..]].
    injection Hrp as ->. intros E. apply Hs0. rewrite E. by apply list_elem_of_fmap_2.
Qed.

Lemma far_table : far (rows 37 all_digits) {[0]} = true.
Proof. vm_compute. reflexivity. Qed.

Lemma high_lxor a b : high (Z.lxor a b) = Z.lxor (high a) (high b).
Proof. apply Z.shiftr_lxor. Qed.

Lemma digit_high d : digit d → high d = 0.
Proof. intros Hd. unfold high. rewrite Z.shiftr_div_pow2, Z.div_small by lia. done. Qed.

Lemma elem_of_row n d : digit d → (shifts n <$> all_digits) !! Z.to_nat d = Some (shifts n d).
Proof.
  intros Hd. rewrite list_lookup_fmap, (lookup_seqZ_lt 0 32) by lia. cbn. by rewrite Z2Nat.id by lia.
Qed.

(** No four digits at different places have the sum 0. *)
Lemma no_small_one m n p d2 d3 d4 : (n < m ≤ 37)%nat → (p < n)%nat ∨ d3 = 0 → digit d2 → digit d3 → digit d4 →
  Z.lxor (shifts m 1) (Z.lxor (shifts n d2) (Z.lxor (shifts p d3) d4)) ≠ 0.
Proof.
  intros Hm Hp H2 H3 H4 E. assert (high (Z.lxor (shifts m 1) (shifts n d2)) = high (shifts p d3)) as Eh.
  { apply (f_equal high) in E. rewrite !high_lxor, (digit_high d4 H4), Z.lxor_0_r, <-Z.lxor_assoc in E. rewrite high_lxor. by apply Z.lxor_eq. }
  destruct (far_sound (rows 37 all_digits) {[0]} n m (shifts n <$> all_digits) (shifts m <$> all_digits) (shifts m 1) (shifts n d2))
    as [Hs Hq].
  - exact far_table.
  - apply rows_lookup. lia.
  - apply rows_lookup. lia.
  - lia.
  - exact (elem_of_row m 1 ltac:(lia)).
  - eapply list_elem_of_lookup_2, elem_of_row. done.
  - destruct Hp as [Hp| ->].
    + apply (Hq p (shifts p <$> all_digits) (shifts p d3)); [done|apply rows_lookup; lia| |exact Eh].
      eapply list_elem_of_lookup_2, elem_of_row. done.
    + apply Hs. rewrite Eh, shifts_0. change (high 0) with 0. by apply elem_of_singleton.
Qed.

Lemma no_small m n p d1 d2 d3 d4 : (n < m ≤ 37)%nat → (p < n)%nat ∨ d3 = 0 → digit d1 → d1 ≠ 0 → digit d2 → digit d3 → digit d4 →
  Z.lxor (shifts m d1) (Z.lxor (shifts n d2) (Z.lxor (shifts p d3) d4)) ≠ 0.
Proof.
  intros Hm Hp H1 Hne H2 H3 H4 E. destruct (scales_one d1 H1 Hne) as [k Hk].
  apply (f_equal (scales k)) in E. rewrite !(scales_linear k _ _), (linear_0 _ (scales_linear k)), !scales_shifts, Hk in E by lia.
  apply (no_small_one m n p (scales k d2) (scales k d3) (scales k d4)) in E; [done|done| |by apply scales_digit..].
  destruct Hp as [?| ->]; [by left|right]. apply linear_0, scales_linear.
Qed.

(** ** Words *)

Definition weight (e : list Z) : nat := length (filter (λ d, d ≠ 0) e).

Lemma synd_cons d e : digit d → polymod_from 0 (d :: e) = Z.lxor (shifts (length e) d) (polymod_from 0 e).
Proof.
  intros Hd. assert (∀ c, polymod_from c e = Z.lxor (shifts (length e) c) (polymod_from 0 e)) as Hall.
  { induction e as [|x e IH] using rev_ind; intros c; [symmetry; apply Z.lxor_0_r|]. unfold polymod_from. rewrite !foldl_app. cbn [foldl].
    fold (polymod_from c e) (polymod_from 0 e). rewrite IH, length_app, Nat.add_comm. cbn [length Nat.add].
    change (shifts (S (length e)) c) with (shift (shifts (length e) c)). unfold shift.
    by rewrite <-polymod_step_lxor, Z.lxor_0_l. }
  change (polymod_from 0 (d :: e)) with (polymod_from (polymod_step 0 d) e). rewrite polymod_step_small by lia. apply Hall.
Qed.

(** The first digit that is not 0. *)
Lemma peel e : digits 5 e → (0 < weight e)%nat → ∃ d e', digit d ∧ d ≠ 0 ∧ digits 5 e' ∧ (length e' < length e)%nat ∧ weight e = S (weight e') ∧
  polymod_from 0 e = Z.lxor (shifts (length e') d) (polymod_from 0 e').
Proof.
  induction e as [|d e IH]; intros He Hw; [cbn in Hw; lia|]. apply Forall_cons in He as [Hd He]. destruct (decide (d = 0)) as [->|Hne].
  - destruct IH as (d' & e' & Hd' & Hne & He' & Hl & Hw' & E); [done|unfold weight in *; by cbn in *|].
    exists d', e'. split_and!; [lia|lia|done|done|cbn; lia|unfold weight in *; by cbn|]. by rewrite synd_cons, shifts_0, Z.lxor_0_l.
  - exists d, e. split_and!; [lia|lia|done|done|cbn; lia| |by apply synd_cons]. unfold weight. by rewrite filter_cons_True.
Qed.

Lemma weight_0 e : weight e = 0%nat → polymod_from 0 e = 0.
Proof.
  induction e as [|d e IH]; intros Hw; [done|]. unfold weight in *. destruct (decide (d = 0)) as [->|Hne].
  - rewrite filter_cons_False in Hw by auto. rewrite synd_cons, shifts_0, Z.lxor_0_l by lia. auto.
  - rewrite filter_cons_True in Hw by done. done.
Qed.

(** The same above the place [q]. *)
Lemma no_small_above q m n p d1 d2 d3 d4 : (n < m ≤ 37)%nat → (p < n)%nat ∨ d3 = 0 → digit d1 → d1 ≠ 0 → digit d2 → digit d3 → digit d4 →
  Z.lxor (shifts (q + m) d1) (Z.lxor (shifts (q + n) d2) (Z.lxor (shifts (q + p) d3) (shifts q d4))) ≠ 0.
Proof.
  intros Hm Hp H1 Hne H2 H3 H4 E. rewrite !shifts_add, <-!(shifts_linear q _ _) in E. revert E. intros E%shifts_zero.
  - exact (no_small m n p d1 d2 d3 d4 Hm Hp H1 Hne H2 H3 H4 E).
  - apply lxor_bound; [lia|apply shifts_bound; lia|]. apply lxor_bound; [lia|apply shifts_bound; lia|].
    apply lxor_bound; [lia|apply shifts_bound; lia|lia].
Qed.

(** A word of checksum 0 has no or at least five digits that are not 0. *)
Lemma weight_bound e : digits 5 e → (length e ≤ 38)%nat → polymod_from 0 e = 0 → (0 < weight e)%nat → (5 ≤ weight e)%nat.
Proof.
  intros He Hlen E Hw. apply not_lt. intros Hlt.
  destruct (peel e He Hw) as (d1 & e1 & H1 & N1 & He1 & Hl1 & Hw1 & E1). rewrite E1 in E. clear E1.
  destruct (decide (weight e1 = 0%nat)) as [W1|W1].
  { rewrite (weight_0 _ W1), Z.lxor_0_r in E. apply shifts_zero in E; lia. }
  destruct (peel e1 He1 ltac:(lia)) as (d2 & e2 & H2 & N2 & He2 & Hl2 & Hw2 & E2). rewrite E2 in E. clear E2.
  destruct (decide (weight e2 = 0%nat)) as [W2|W2].
  { rewrite (weight_0 _ W2), Z.lxor_0_r in E. apply (no_small_above (length e2) (length e1 - length e2) 0 0 d1 0 0 d2); try lia; try done.
    rewrite !shifts_0, !Z.lxor_0_l. by replace (length e2 + (length e1 - length e2))%nat with (length e1) by lia. }
  destruct (peel e2 He2 ltac:(lia)) as (d3 & e3 & H3 & N3 & He3 & Hl3 & Hw3 & E3). rewrite E3 in E. clear E3.
  destruct (decide (weight e3 = 0%nat)) as [W3|W3].
  { rewrite (weight_0 _ W3), Z.lxor_0_r in E.
    apply (no_small_above (length e3) (length e1 - length e3) (length e2 - length e3) 0 d1 d2 0 d3); try lia; try done.
    rewrite !shifts_0, !Z.lxor_0_l. replace (length e3 + (length e1 - length e3))%nat with (length e1) by lia.
    by replace (length e3 + (length e2 - length e3))%nat with (length e2) by lia. }
  destruct (peel e3 He3 ltac:(lia)) as (d4 & e4 & H4 & N4 & He4 & Hl4 & Hw4 & E4). rewrite E4 in E. clear E4.
  rewrite (weight_0 e4 ltac:(lia)), Z.lxor_0_r in E.
  apply (no_small_above (length e4) (length e1 - length e4) (length e2 - length e4) (length e3 - length e4) d1 d2 d3 d4); try lia; try done.
  replace (length e4 + (length e1 - length e4))%nat with (length e1) by lia. replace (length e4 + (length e2 - length e4))%nat with (length e2) by lia.
  by replace (length e4 + (length e3 - length e4))%nat with (length e3) by lia.
Qed.

(** The places where two strings differ. *)
Definition distance (s s' : bytes) : nat := length (filter (λ '(x, y), x ≠ y) (zip s s')).

Lemma distance_weight s s' l l' : char_indices s = Ok l → char_indices s' = Ok l' → length s = length s' →
  length l = length s ∧ length l' = length s ∧ digits 5 (zip_with Z.lxor l l') ∧ weight (zip_with Z.lxor l l') = distance s s'.
Proof.
  revert s' l l'. induction s as [|c s IH]; intros [|c' s'] l l' E E' Hlen; try done; cbn in E, E'.
  { injection E as <-. injection E' as <-. split_and!; try done. constructor. }
  destruct (Z.ltb_spec (charIndex c) 0); [done|]. destruct (Z.ltb_spec (charIndex c') 0); [done|].
  destruct (char_indices s) as [t| | |] eqn:Et; try done. destruct (char_indices s') as [t'| | |] eqn:Et'; try done.
  injection E as <-. injection E' as <-. cbn in Hlen. destruct (IH s' t t' eq_refl Et' ltac:(lia)) as (H1 & H2 & H3 & H4). cbn [length zip_with].
  destruct (charIndex_ok c ltac:(lia)) as [Hc Ec], (charIndex_ok c' ltac:(lia)) as [Hc' Ec'].
  split_and!; [lia|lia|constructor; [by apply (lxor_bound 5); lia|done]|].
  unfold weight, distance in *. cbn [zip zip_with]. rewrite !filter_cons.
  destruct (decide (c = c')) as [->|Hne].
  - rewrite Z.lxor_nilpotent, !decide_False by auto. done.
  - rewrite !decide_True; [cbn; f_equal; exact H4|done|]. intros Hx%Z.lxor_eq. apply Hne. congruence.
Qed.

Lemma distance_0 s s' : length s = length s' → distance s s' = 0%nat → s = s'.
Proof.
  revert s'. induction s as [|x s IH]; intros [|y s'] Hlen Hd; try done. unfold distance in *. cbn [zip zip_with] in Hd. rewrite filter_cons in Hd.
  destruct (decide (x = y)) as [->|Hne]; [|by rewrite decide_True in Hd].
  rewrite decide_False in Hd by auto. f_equal. apply IH; [by injection Hlen|done].
Qed.

(** C20: Up to four wrong characters are noticed: the texts of two valid strings are
    equal or differ at five places or more. *)
Theorem Lisk32_distance s s' : ValidateLisk32 s = Ok () → ValidateLisk32 s' = Ok () → drop 3 s ≠ drop 3 s' →
  (5 ≤ distance (drop 3 s) (drop 3 s'))%nat.
Proof.
  intros (Hl & l & El & Hp)%ValidateLisk32_Ok (Hl' & l' & El' & Hp')%ValidateLisk32_Ok Hne.
  destruct (distance_weight _ _ _ _ El El') as (H1 & H2 & H3 & H4); [rewrite !length_drop; unfold len in *; lia|].
  rewrite length_drop in H1, H2. rewrite <-H4. apply weight_bound; [done|rewrite length_zip_with; unfold len in *; lia| |].
  - pose proof (polymod_from_lxor l l' 1 1 ltac:(lia)) as E. rewrite (Z.lxor_nilpotent 1) in E. rewrite E.
    unfold polymod in Hp, Hp'. unfold polymod_from. rewrite Hp, Hp'. apply Z.lxor_nilpotent.
  - rewrite H4. apply Nat.neq_0_lt_0. intros W. apply Hne, distance_0; [rewrite !length_drop; unfold len in *; lia|done].
Qed.

Lemma Lisk32_roundtrip_witness : ∃ s, BytesToLisk32 (replicate 20 7) = Ok s ∧ Lisk32ToBytes s = Ok (replicate 20 7).
Proof.
  destruct (Lisk32_roundtrip (replicate 20 7)) as (s & E1 & E2 & _); [by repeat constructor|reflexivity|]. exists s. split; [exact E1|exact E2].
Defined.

Definition sample_text (b : Z) : bytes := match BytesToLisk32 (replicate 20 b) with Ok s => s | _ => [] end.

Lemma Lisk32_distance_witness : (5 ≤ distance (drop 3 (sample_text 7)) (drop 3 (sample_text 8)))%nat.
Proof. apply (Lisk32_distance (sample_text 7) (sample_text 8)); [vm_compute; reflexivity..|by vm_compute]. Defined.
