(* ===== verification/Heap.v ===== *)
(** * Heap: Go's container/heap

    The heap operations the transaction pool and the block generator use, on
    slices: [up], [down], [Init], [Push] and [Pop] as the Go library defines
    them.  For a strict weak order [less] the operations permute the elements
    and keep the heap order, so [Pop] removes a least element.  Indices are
    natural numbers; the check of [down] for an overflow of [2 * i + 1] has no
    effect on slices that fit in memory. *)

From S2P Require Import Prelude.

Section heap.
Context {A : Type} (less : A → A → bool).
Implicit Types l : list A.

(** [h.Swap(i, j)] and [h.Less(i, j)]; the operations stay within bounds. *)
Definition swap (i j : nat) l : list A :=
  match l !! i, l !! j with
  | Some x, Some y => <[i := y]> (<[j := x]> l)
  | _, _ => l
  end.

Definition less_at l (i j : nat) : bool :=
  match l !! i, l !! j with Some x, Some y => less x y | _, _ => false end.

Definition parent (j : nat) : nat := ((j - 1) / 2)%nat.

(** The index decreases with every round. *)
Fixpoint up (fuel : nat) (j : nat) l : list A :=
  match fuel with
  | O => l
  | S fuel =>
      let i := parent j in
      if (i =? j)%nat || negb (less_at l j i) then l else up fuel i (swap i j l)
  end.

(** The index increases with every round and stays below [n]. *)
Fixpoint down (fuel : nat) (i n : nat) l : list A :=
  match fuel with
  | O => l
  | S fuel =>
      let j1 := (2 * i + 1)%nat in
      if (n <=? j1)%nat then l
      else
        let j2 := (j1 + 1)%nat in
        let j := if (j2 <? n)%nat && less_at l j2 j1 then j2 else j1 in
        if negb (less_at l j i) then l else down fuel j n (swap i j l)
  end.

Fixpoint init_loop (k n : nat) l : list A :=
  match k with O => l | S k => init_loop k n (down n k n l) end.

Definition Init l : list A := init_loop (length l / 2) (length l) l.

Definition Push (x : A) l : list A := let l := l ++ [x] in up (length l) (length l - 1) l.

Definition Pop l : res (A * list A) :=
  let n := (length l - 1)%nat in
  let l := down n 0 n (swap 0 n l) in
  match last l with Some x => Ok (x, take n l) | None => Panic end.

(** ** Specification *)

(** [x] may stand above [y]. *)
Definition le (x y : A) : Prop := less y x = false.

Definition edge l (i j : nat) : Prop := ∀ x y, l !! i = Some x → l !! j = Some y → le x y.

(** The heap order below the nodes from [k] on, among the first [n] elements. *)
Definition heap_from (k n : nat) l : Prop := ∀ j, (0 < j < n)%nat → (k ≤ parent j)%nat → edge l (parent j) j.

Definition heap_ok l : Prop := heap_from 0 (length l) l.

Lemma lookup_swap i j l k :
  (i < length l)%nat → (j < length l)%nat →
  swap i j l !! k = if decide (k = i) then l !! j else if decide (k = j) then l !! i else l !! k.
Proof using.
  intros [x Hx]%lookup_lt_is_Some [y Hy]%lookup_lt_is_Some. unfold swap. rewrite Hx, Hy.
  pose proof (lookup_lt_Some _ _ _ Hx). pose proof (lookup_lt_Some _ _ _ Hy).
  case_decide; subst; [by rewrite list_lookup_insert_eq by (rewrite length_insert; lia)|].
  rewrite list_lookup_insert_ne by done. case_decide; subst; [by rewrite list_lookup_insert_eq|].
  by rewrite list_lookup_insert_ne.
Qed.

Lemma swap_Permutation i j l : swap i j l ≡ₚ l.
Proof using.
  unfold swap. destruct (l !! i) as [x|] eqn:Hx; [|done]. destruct (l !! j) as [y|] eqn:Hy; [|done].
  destruct (decide (i = j)) as [->|Hne].
  - rewrite list_insert_insert_eq. by rewrite list_insert_id by congruence.
  - rewrite list_insert_insert_ne by done. by apply Permutation_insert_swap.
Qed.

Lemma length_swap i j l : length (swap i j l) = length l.
Proof using. by rewrite swap_Permutation. Qed.

Lemma up_Permutation fuel j l : up fuel j l ≡ₚ l.
Proof using.
  revert j l. induction fuel as [|fuel IH]; intros j l; cbn [up]; [done|].
  destruct (_ || _); [done|]. by rewrite IH, swap_Permutation.
Qed.

Lemma down_Permutation fuel i n l : down fuel i n l ≡ₚ l.
Proof using.
  revert i l. induction fuel as [|fuel IH]; intros i l; cbn [down]; [done|].
  destruct (n <=? _)%nat; [done|]. destruct (negb _); [done|]. by rewrite IH, swap_Permutation.
Qed.

Lemma init_loop_Permutation k n l : init_loop k n l ≡ₚ l.
Proof using.
  revert l. induction k as [|k IH]; intros l; cbn [init_loop]; [done|]. by rewrite IH, down_Permutation.
Qed.

Lemma Init_Permutation l : Init l ≡ₚ l.
Proof using. apply init_loop_Permutation. Qed.

Lemma Push_Permutation x l : Push x l ≡ₚ x :: l.
Proof using. unfold Push. rewrite up_Permutation. symmetry. apply Permutation_cons_append. Qed.

Lemma parent_spec j : (0 < j)%nat → (j = 2 * parent j + 1 ∨ j = 2 * parent j + 2)%nat.
Proof using.
  intros Hj. unfold parent. pose proof (Nat.div_mod (j - 1) 2 ltac:(lia)). pose proof (Nat.mod_upper_bound (j - 1) 2 ltac:(lia)). lia.
Qed.

Lemma parent_child i j : (j = 2 * i + 1 ∨ j = 2 * i + 2)%nat → parent j = i.
Proof using. intros Hj. assert (0 < j)%nat as Hp%parent_spec by lia. lia. Qed.

Lemma less_at_edge l i j : less_at l j i = false → edge l i j.
Proof using. unfold less_at. intros Hl x y Hx Hy. by rewrite Hx, Hy in Hl. Qed.

Lemma less_at_lt l i j : less_at l j i = true → ∃ x y, l !! i = Some x ∧ l !! j = Some y ∧ less y x = true.
Proof using.
  unfold less_at. destruct (l !! j) as [y|] eqn:Hy; [|done]. destruct (l !! i) as [x|] eqn:Hx; [|done]. eauto.
Qed.

Section order.
Context (Hless : less_ok less).

Lemma le_trans x y z : le x y → le y z → le x z.
Proof using Hless. unfold le. intros H1 H2. by eapply (less_cotrans _ Hless x y z). Qed.

Lemma le_refl x : le x x.
Proof using Hless.
  unfold le. destruct (less x x) eqn:E; [|done]. by rewrite (less_asym _ Hless _ _ E) in E.
Qed.

Lemma less_le x y : less x y = true → le x y.
Proof using Hless. apply (less_asym _ Hless). Qed.

(** [up] repairs the heap order when only the edge above [j] is broken. *)
Lemma up_heap fuel j l :
  (j ≤ fuel)%nat → (j < length l)%nat →
  (∀ c, (0 < c < length l)%nat → c ≠ j → edge l (parent c) c) →
  (∀ c, (0 < c < length l)%nat → parent c = j → (0 < j)%nat → edge l (parent j) c) →
  heap_ok (up fuel j l).
Proof using Hless.
  revert j l. induction fuel as [|fuel IH]; intros j l Hf Hj He Hg; cbn [up].
  { intros c Hc _. apply He; [lia|]. lia. }
  destruct (Nat.eqb_spec (parent j) j) as [Ep|Ep]; cbn [orb].
  { assert (j = 0)%nat as -> by (destruct j; [done|]; pose proof (parent_spec (S j) ltac:(lia)); lia).
    intros c Hc _. apply He; lia. }
  assert (0 < j)%nat as Hj0 by (destruct j; [done|lia]). pose proof (parent_spec j Hj0) as Hps.
  destruct (less_at l j (parent j)) eqn:El; cbn [negb].
  2: { intros c Hc _. destruct (decide (c = j)) as [->|Hne]; [by apply less_at_edge|by apply He]. }
  apply less_at_lt in El as (x & y & Hx & Hy & Hlt). set (i := parent j) in *.
  assert (i < length l)%nat by lia.
  apply IH; rewrite ?length_swap; [lia|lia| |].
  - intros c Hc Hci a b. rewrite !lookup_swap by lia.
    destruct (decide (c = j)) as [->|Hcj].
    { rewrite (decide_True (P := parent j = i)), decide_False by (done || lia). fold i. rewrite Hx, Hy. intros [= <-] [= <-]. by apply less_le. }
    destruct (decide (parent c = i)) as [Epi|Hpi].
    { rewrite (decide_False (P := c = i)) by done. rewrite Hy. intros [= <-] Hb. apply le_trans with x; [by apply less_le|].
      apply (He c); [lia|done|by rewrite Epi|done]. }
    rewrite (decide_False (P := c = i)) by done. destruct (decide (parent c = j)) as [Epj|Hpj].
    + rewrite Hx. intros [= <-] Hb. apply (Hg c); [lia|done|done|done|done].
    + intros Ha Hb. by apply (He c).
  - intros c Hc Hpc Hi0 a b. pose proof (parent_spec i Hi0). pose proof (parent_spec c ltac:(lia)). rewrite !lookup_swap by lia.
    rewrite (decide_False (P := parent i = i)), (decide_False (P := parent i = j)) by lia.
    rewrite (decide_False (P := c = i)) by lia. intros Ha. assert (edge l (parent i) i) as Hei by (apply He; lia).
    destruct (decide (c = j)) as [->|Hcj].
    + rewrite Hx. intros [= <-]. by apply Hei.
    + intros Hb. apply le_trans with x; [by apply Hei|]. apply (He c); [lia|done|by rewrite Hpc|done].
Qed.

Lemma Push_heap x l : heap_ok l → heap_ok (Push x l).
Proof using Hless.
  intros Hh. unfold Push. rewrite length_app. cbn [length]. replace (length l + 1 - 1)%nat with (length l) by lia.
  assert (∀ c, (c < length l)%nat → (l ++ [x]) !! c = l !! c) as Hl by (intros; by apply lookup_app_l).
  apply up_heap; rewrite ?length_app; cbn [length]; [lia|lia| |].
  - intros c Hc Hne a b. pose proof (parent_spec c ltac:(lia)). rewrite !Hl by lia. apply Hh; lia.
  - intros c Hc Hp Hpos. pose proof (parent_spec c ltac:(lia)). lia.
Qed.

Lemma lookup_down_ge fuel i n l c :
  (i < n ≤ length l)%nat → (n ≤ c)%nat → down fuel i n l !! c = l !! c.
Proof using.
  clear Hless. revert i l. induction fuel as [|fuel IH]; intros i l Hi Hc; cbn [down]; [done|].
  destruct (Nat.leb_spec n (2 * i + 1)) as [?|?]; [done|].
  set (j := if _ && _ then _ else _).
  assert (2 * i + 1 ≤ j < n)%nat as Hj.
  { subst j. destruct (Nat.ltb_spec (2 * i + 1 + 1) n) as [?|?]; cbn [andb]; [destruct (less_at _ _ _)|]; lia. }
  destruct (negb _); [done|]. rewrite IH by (rewrite ?length_swap; lia).
  rewrite lookup_swap by lia. rewrite !decide_False by lia. done.
Qed.

(** The child [down] looks at is a least child. *)
Lemma least_child l i n (c : nat) :
  let j1 := (2 * i + 1)%nat in
  let j := if (j1 + 1 <? n)%nat && less_at l (j1 + 1) j1 then (j1 + 1)%nat else j1 in
  (j1 < n)%nat → (n ≤ length l)%nat → (0 < c < n)%nat → parent c = i → edge l j c.
Proof using Hless.
  intros j1 j Hj1 Hn Hc Hp. pose proof (parent_spec c ltac:(lia)) as Hs. subst j.
  destruct (Nat.ltb_spec (j1 + 1) n) as [Hlt|Hge]; cbn [andb].
  - destruct (less_at l (j1 + 1) j1) eqn:El.
    + apply less_at_lt in El as (x & y & Hx & Hy & Hxy). intros a b Ha Hb.
      destruct (decide (c = j1)) as [->|Hne]; [|assert (c = j1 + 1)%nat as -> by lia].
      * rewrite Hx in Hb. rewrite Hy in Ha. injection Hb as <-. injection Ha as <-. by apply less_le.
      * rewrite Ha in Hb. injection Hb as <-. apply le_refl.
    + destruct (decide (c = j1)) as [->|Hne]; [|assert (c = j1 + 1)%nat as -> by lia; by apply less_at_edge].
      intros a b Ha Hb. rewrite Ha in Hb. injection Hb as <-. apply le_refl.
  - assert (c = j1) as -> by lia. intros a b Ha Hb. rewrite Ha in Hb. injection Hb as <-. apply le_refl.
Qed.

(** [down] repairs the heap order when only the edges below [i] are broken. *)
Lemma down_heap fuel k i n l :
  (n ≤ i + fuel)%nat → (n ≤ length l)%nat → (k ≤ i)%nat →
  (∀ c, (0 < c < n)%nat → (k ≤ parent c)%nat → parent c ≠ i → edge l (parent c) c) →
  (∀ c, (0 < c < n)%nat → parent c = i → (0 < i)%nat → (k ≤ parent i)%nat → edge l (parent i) c) →
  heap_from k n (down fuel i n l).
Proof using Hless.
  revert i l. induction fuel as [|fuel IH]; intros i l Hf Hn Hk He Hg; cbn [down].
  { intros c Hc Hp. apply He; [lia|done|]. pose proof (parent_spec c ltac:(lia)). lia. }
  destruct (Nat.leb_spec n (2 * i + 1)) as [Hle|Hlt].
  { intros c Hc Hp. apply He; [lia|done|]. pose proof (parent_spec c ltac:(lia)). lia. }
  pose proof (λ c, least_child l i n c Hlt Hn) as Hmin. cbv zeta in Hmin.
  set (j := if _ && _ then _ else _) in *.
  assert (parent j = i ∧ 2 * i + 1 ≤ j < n)%nat as [Hpj Hj].
  { subst j. destruct (Nat.ltb_spec (2 * i + 1 + 1) n) as [?|?]; cbn [andb]; [destruct (less_at _ _ _)|];
      (split; [apply parent_child|]; lia). }
  destruct (less_at l j i) eqn:El; cbn [negb].
  2: { apply less_at_edge in El. intros c Hc Hp. destruct (decide (parent c = i)) as [E|E]; [|by apply He].
       rewrite E. intros a b Ha Hb. destruct (lookup_lt_is_Some_2 l j ltac:(lia)) as [m Hm].
       apply le_trans with m; [by apply El|]. by apply (Hmin c). }
  apply less_at_lt in El as (x & y & Hx & Hy & Hxy).
  apply IH; rewrite ?length_swap; [lia|lia|lia| |].
  - intros c Hc Hp Hpc a b. pose proof (parent_spec c ltac:(lia)) as Hs. rewrite !lookup_swap by lia.
    rewrite (decide_False (P := parent c = j)) by done.
    destruct (decide (parent c = i)) as [E|E].
    + rewrite Hy. intros [= <-]. rewrite (decide_False (P := c = i)) by lia.
      destruct (decide (c = j)) as [->|Hne]; [rewrite Hx; intros [= <-]; by apply less_le|].
      intros Hb. by apply (Hmin c).
    + rewrite (decide_False (P := c = j)) by congruence. destruct (decide (c = i)) as [->|Hne].
      * rewrite Hy. intros Ha [= <-]. apply (Hg j); [lia|done|lia|done|done|done].
      * intros Ha Hb. by apply (He c).
  - intros c Hc Hpc _ Hpk a b. pose proof (parent_spec c ltac:(lia)) as Hs. rewrite Hpj. rewrite !lookup_swap by lia.
    rewrite (decide_True (P := i = i)) by done. rewrite Hy. intros [= <-].
    rewrite (decide_False (P := c = i)), (decide_False (P := c = j)) by lia.
    intros Hb. apply (He c); [lia|lia|lia|by rewrite Hpc|done].
Qed.

Lemma init_loop_heap k n l :
  n = length l → heap_from k n l → heap_from 0 n (init_loop k n l).
Proof using Hless.
  revert l. induction k as [|k IH]; intros l Hn Hh; cbn [init_loop]; [done|].
  apply IH; [by rewrite down_Permutation|]. apply down_heap; [lia|lia|lia| |].
  - intros c Hc Hp Hne. apply Hh; lia.
  - intros c Hc Hp H0 Hk. pose proof (parent_spec k H0). lia.
Qed.

Lemma Init_heap l : heap_ok (Init l).
Proof using Hless.
  assert (length (Init l) = length l) as Hl by by rewrite Init_Permutation.
  unfold heap_ok. rewrite Hl. unfold Init. apply init_loop_heap; [done|].
  intros c Hc Hp. pose proof (parent_spec c ltac:(lia)).
  pose proof (Nat.div_mod (length l) 2 ltac:(lia)). pose proof (Nat.mod_upper_bound (length l) 2 ltac:(lia)). lia.
Qed.

Lemma heap_head_least x l : heap_ok (x :: l) → Forall (le x) (x :: l).
Proof using Hless.
  intros Hh. apply Forall_lookup. intros i. induction (lt_wf i) as [i _ IH]. intros y Hy.
  destruct (decide (i = 0%nat)) as [->|Hi]; [injection Hy as <-; apply le_refl|].
  pose proof (parent_spec i ltac:(lia)) as Hs. pose proof (lookup_lt_Some _ _ _ Hy) as Hlt.
  destruct (lookup_lt_is_Some_2 (x :: l) (parent i) ltac:(lia)) as [z Hz].
  apply le_trans with z; [apply (IH (parent i)); [lia|done]|]. apply (Hh i); [lia|lia|done|done].
Qed.

(** [Pop] returns the first element, which no other element precedes, and
    leaves the others as a heap. *)
Lemma Pop_spec l :
  l ≠ [] → heap_ok l →
  ∃ x l', Pop l = Ok (x, l') ∧ head l = Some x ∧ l ≡ₚ x :: l' ∧ heap_ok l' ∧ Forall (le x) l'.
Proof using Hless.
  destruct l as [|x k]; [done|intros _ Hh]. set (l := x :: k) in *.
  unfold Pop. set (n := (length l - 1)%nat). assert (S n = length l) as Hn by (subst n l; cbn; lia).
  set (d := down n 0 n (swap 0 n l)).
  assert (length d = length l) as Hd by (subst d; by rewrite down_Permutation, swap_Permutation).
  assert (d !! n = Some x) as Hx.
  { subst d. destruct n as [|n'] eqn:En.
    - cbn [down]. rewrite lookup_swap by lia. done.
    - rewrite lookup_down_ge by (rewrite ?length_swap; lia). rewrite lookup_swap by lia.
      rewrite decide_False, decide_True by done. done. }
  rewrite last_lookup, Hd, <- Hn. cbn [Nat.pred]. rewrite Hx. exists x, (take n d). split; [done|]. split; [done|].
  assert (l ≡ₚ x :: take n d) as Hp.
  { transitivity d; [subst d; by rewrite down_Permutation, swap_Permutation|].
    rewrite <- (take_drop n d) at 1. rewrite (drop_S d x n Hx), (drop_ge d (S n)) by lia. symmetry. apply Permutation_cons_append. }
  assert (length (take n d) = n) as Ht by (rewrite length_take; lia).
  split; [done|]. split.
  - intros c Hc _ a b. rewrite Ht in Hc. pose proof (parent_spec c ltac:(lia)). rewrite !lookup_take_lt by lia.
    revert a b. apply (down_heap n 0 0 n); rewrite ?length_swap; try lia.
    intros e He _ Hpe a b. pose proof (parent_spec e ltac:(lia)). rewrite !lookup_swap by lia.
    rewrite !(decide_False (P := _ = 0%nat)), !(decide_False (P := _ = n)) by lia. apply Hh; lia.
  - pose proof (heap_head_least x k Hh : Forall (le x) l) as Hleast. rewrite Hp in Hleast.
    by apply Forall_cons in Hleast as [_ Hleast].
Qed.
End order.
End heap.
