(* ===== verification/Varint.v ===== *)
(** * Varint: the variable-length integers of pkg/codec

    [PutUvarint] and [PutVarint] are encoding/binary's; [readUint],
    [varintShortestSize], [readKey] and [getKey] are pkg/codec's.  The file
    proves that [readUint] reads back exactly what [PutUvarint] wrote and,
    conversely, that it accepts nothing else: an accepted integer has one
    encoding. *)

From S2P Require Import Prelude.

(** ** encoding/binary *)

(** [PutUvarint] on a buffer that is large enough; ten bytes hold any
    [uint64]. *)
Fixpoint put_uvarint (fuel : nat) (x : Z) : bytes :=
  match fuel with
  | O => [u8 x]
  | S fuel =>
      if x <? 0x80 then [u8 x]
      else Z.lor (u8 x) 0x80 :: put_uvarint fuel (Z.shiftr x 7)
  end.
Definition PutUvarint (x : Z) : bytes := put_uvarint 9 x.

(** [PutVarint]: zig-zag. *)
Definition PutVarint (x : Z) : bytes :=
  let ux := u64 (Z.shiftl (u64 x) 1) in
  PutUvarint (if x <? 0 then u64 (Z.lnot ux) else ux).

(** ** pkg/codec/reader.go *)

Definition varintShortestSize (data : Z) : Z :=
  if data <? Z.shiftl 1 7 then 1
  else if data <? Z.shiftl 1 (7 * 2) then 2
  else if data <? Z.shiftl 1 (7 * 3) then 3
  else if data <? Z.shiftl 1 (7 * 4) then 4
  else if data <? Z.shiftl 1 (7 * 5) then 5
  else if data <? Z.shiftl 1 (7 * 6) then 6
  else if data <? Z.shiftl 1 (7 * 7) then 7
  else if data <? Z.shiftl 1 (7 * 8) then 8
  else if data <? Z.shiftl 1 (7 * 9) then 9
  else 10.

(** One round of the loop per value of [shift] below 64, that is ten. *)
Fixpoint readUint_loop (rounds : nat) (data : bytes) (offset i shift result : Z)
    : res (Z * Z) :=
  match rounds with
  | O => Err ErrNoTerminate
  | S rounds =>
      match idx data i with
      | None => Err ErrInvalidData
      | Some bit =>
          let i := i + 1 in
          if (i =? offset + 10) && (0x01 <? bit) then Err ErrOutOfRange
          else
            let result := Z.lor result (u64 (Z.shiftl (Z.land bit 0x7f) shift)) in
            if Z.land bit 0x80 =? 0 then
              if varintShortestSize result =? i - offset
              then Ok (result, i - offset) else Err ErrUnnecessaryLeadingBytes
            else readUint_loop rounds data offset i (shift + 7) result
      end
  end.

Definition readUint (data : bytes) (offset : Z) : res (Z * Z) :=
  readUint_loop 10 data offset offset 0 0.

(** ** pkg/codec/key.go *)

Definition wireType0 : Z := 0.
Definition wireType2 : Z := 2.

Definition readKey (val : Z) : res (Z * Z) :=
  let wireType := Z.land val 7 in
  if negb (wireType =? wireType0) && negb (wireType =? wireType2) then Err ErrInvalidData
  else Ok (Z.shiftr val 3, wireType).

(** The bytes [vint[0:size]] of the key. *)
Definition getKey (wireType fieldNumber : Z) : bytes :=
  PutUvarint (Z.lor (Z.shiftl fieldNumber 3) wireType).

(** ** Lemmas *)

(** The [n]-byte form of an integer: continuation bits on all but the last. *)
Fixpoint put_n (n : nat) (x : Z) : bytes :=
  match n with
  | O => []
  | S O => [x]
  | S n => (x mod 128 + 128) :: put_n n (x / 128)
  end.

Lemma length_put_n n x : length (put_n n x) = n.
Proof.
  revert x. induction n as [|[|n] IH]; intros x; [done|done|].
  cbn [put_n length] in *. by rewrite IH.
Qed.

Lemma byte_forall (P : Z → bool) :
  forallb P (seqZ 0 256) = true → ∀ b, byte_ok b → P b = true.
Proof.
  intros H b Hb. rewrite forallb_forall in H. apply H.
  apply list_elem_of_In, elem_of_seqZ. unfold byte_ok in Hb. lia.
Qed.

Lemma land_7f b : byte_ok b → Z.land b 0x7f = b mod 128.
Proof.
  intros Hb. apply Z.eqb_eq.
  by apply (byte_forall (λ b, Z.land b 0x7f =? b mod 128)); [vm_compute|].
Qed.

Lemma land_80 b : byte_ok b → (Z.land b 0x80 =? 0) = (b <? 128).
Proof.
  intros Hb. apply eqb_prop.
  by apply (byte_forall (λ b, eqb (Z.land b 0x80 =? 0) (b <? 128))); [vm_compute|].
Qed.

Lemma lor_80 b : byte_ok b → Z.lor b 0x80 = b mod 128 + 128.
Proof.
  intros Hb. apply Z.eqb_eq.
  by apply (byte_forall (λ b, Z.lor b 0x80 =? b mod 128 + 128)); [vm_compute|].
Qed.

Lemma lor_shiftl_add a b s :
  0 ≤ s → 0 ≤ a < 2 ^ s → 0 ≤ b → Z.lor a (Z.shiftl b s) = a + b * 2 ^ s.
Proof.
  intros Hs Ha Hb. rewrite Z.shiftl_mul_pow2 by lia.
  symmetry. apply Z.add_nocarry_lor, Z.bits_inj'. intros i Hi.
  rewrite Z.land_spec, Z.bits_0. destruct (decide (i < s)).
  - rewrite (Z.mul_pow2_bits_low b) by lia. apply andb_false_r.
  - destruct (decide (a = 0)) as [->|]; [by rewrite Z.bits_0|].
    rewrite (Z.bits_above_log2 a i); [done|lia|].
    apply Z.log2_lt_pow2; [lia|]. eapply Z.lt_le_trans; [apply Ha|].
    apply Z.pow_le_mono_r; lia.
Qed.

Lemma u8_mod128 x : 0 ≤ x → u8 x mod 128 = x mod 128.
Proof.
  intros Hx. unfold u8. change (2 ^ 8) with (128 * 2).
  rewrite Z.rem_mul_r by lia. rewrite Z.add_mod, Z.mod_mod by lia.
  rewrite Z.mul_comm, Z.mod_mul, Z.add_0_r by lia. by rewrite Z.mod_mod by lia.
Qed.

Ltac compute_shifts :=
  repeat match goal with
  | |- context [Z.shiftl 1 ?k] =>
      let v := eval vm_compute in (Z.shiftl 1 k) in change (Z.shiftl 1 k) with v
  end.

Lemma varintShortestSize_step x :
  0 ≤ x → x < 2 ^ 64 →
  varintShortestSize x = if x <? 128 then 1 else 1 + varintShortestSize (x / 128).
Proof.
  intros H0 H1. unfold varintShortestSize. compute_shifts.
  pose proof (Z.div_mod x 128 ltac:(lia)). pose proof (Z.mod_pos_bound x 128 ltac:(lia)).
  repeat match goal with
  | |- context [?a <? ?b] => destruct (Z.ltb_spec a b)
  end; lia.
Qed.

Lemma varintShortestSize_pos x : 1 ≤ varintShortestSize x ≤ 10.
Proof. unfold varintShortestSize. repeat case_match; lia. Qed.

Lemma put_uvarint_put_n fuel x :
  0 ≤ x → x < 2 ^ 64 → x < 128 * 128 ^ Z.of_nat fuel →
  put_uvarint fuel x = put_n (Z.to_nat (varintShortestSize x)) x.
Proof.
  revert x. induction fuel as [|fuel IH]; intros x H0 H64 Hf.
  - change (128 * 128 ^ Z.of_nat 0) with 128 in Hf. rewrite varintShortestSize_step by lia.
    destruct (Z.ltb_spec x 128); [|lia]. cbn. unfold u8. rewrite Z.mod_small by lia. done.
  - rewrite varintShortestSize_step by lia. cbn [put_uvarint].
    change 0x80 with 128. destruct (Z.ltb_spec x 128).
    { cbn. unfold u8. rewrite Z.mod_small by lia. done. }
    pose proof (varintShortestSize_pos (x / 128)).
    rewrite Nat2Z.inj_succ, Z.pow_succ_r in Hf by lia.
    rewrite Z.add_comm, Z2Nat.inj_add by lia. rewrite Nat.add_comm.
    destruct (Z.to_nat (varintShortestSize (x / 128))) as [|m] eqn:Em; [lia|].
    cbn [Nat.add Z.to_nat Pos.to_nat Pos.iter_op put_n].
    rewrite Z.shiftr_div_pow2 by lia. change (2 ^ 7) with 128.
    rewrite IH, Em; [|apply Z.div_pos; lia|apply Z.div_lt_upper_bound; lia..].
    f_equal. change 128 with 0x80 at 1. rewrite lor_80 by (apply Z.mod_pos_bound; lia).
    by rewrite u8_mod128.
Qed.

Lemma PutUvarint_put_n x :
  u64_ok x → PutUvarint x = put_n (Z.to_nat (varintShortestSize x)) x.
Proof.
  intros [??]. apply put_uvarint_put_n; [done|done|]. simpl. lia.
Qed.

Lemma len_PutUvarint x : u64_ok x → len (PutUvarint x) = varintShortestSize x.
Proof.
  intros Hx. rewrite PutUvarint_put_n by done. unfold len. rewrite length_put_n.
  pose proof (varintShortestSize_pos x). lia.
Qed.

Lemma PutUvarint_bounds x : u64_ok x → 1 ≤ len (PutUvarint x) ≤ 10.
Proof. intros. rewrite len_PutUvarint by done. apply varintShortestSize_pos. Qed.

Lemma put_n_ok n x : 0 ≤ x < 128 ^ Z.of_nat n → bytes_ok (put_n n x).
Proof.
  revert x. induction n as [|[|n] IH]; intros x Hx; [constructor| |].
  { change (128 ^ Z.of_nat 1) with 128 in Hx.
    constructor; [unfold byte_ok; lia|constructor]. }
  cbn [put_n]. constructor.
  - pose proof (Z.mod_pos_bound x 128). unfold byte_ok. lia.
  - apply IH. rewrite Nat2Z.inj_succ, Z.pow_succ_r in Hx by lia.
    split; [apply Z.div_pos; lia|apply Z.div_lt_upper_bound; lia].
Qed.

Lemma pow128 k : 0 ≤ k → 128 ^ k = 2 ^ (7 * k).
Proof. intros. change 128 with (2 ^ 7). by rewrite <-Z.pow_mul_r by lia. Qed.

Lemma varintShortestSize_bound x : u64_ok x → x < 128 ^ varintShortestSize x.
Proof.
  intros [H0 H1]. rewrite pow128 by (pose proof (varintShortestSize_pos x); lia).
  unfold varintShortestSize. compute_shifts.
  repeat match goal with |- context [?a <? ?b] => destruct (Z.ltb_spec a b) end; lia.
Qed.

Lemma PutUvarint_ok x : u64_ok x → bytes_ok (PutUvarint x).
Proof.
  intros Hx. rewrite PutUvarint_put_n by done. apply put_n_ok.
  rewrite Z2Nat.id by (pose proof (varintShortestSize_pos x); lia).
  split; [apply Hx|by apply varintShortestSize_bound].
Qed.

(** One round of the loop adds the low seven bits at the current shift. *)
Lemma round_value r b k :
  0 ≤ k → 0 ≤ r < 2 ^ (7 * k) → byte_ok b → b mod 128 * 2 ^ (7 * k) < 2 ^ 64 →
  Z.lor r (u64 (Z.shiftl (Z.land b 0x7f) (7 * k))) = r + b mod 128 * 2 ^ (7 * k).
Proof.
  intros Hk Hr Hb Hlt. rewrite land_7f by done.
  pose proof (Z.mod_pos_bound b 128 ltac:(lia)).
  rewrite u64_small by (rewrite Z.shiftl_mul_pow2 by lia; split; [nia|done]).
  apply lor_shiftl_add; lia.
Qed.

Lemma readUint_loop_put_n (m rounds : nat) k x r offset pre post :
  0 ≤ k → (1 ≤ m)%nat → k + Z.of_nat m ≤ 10 → k + Z.of_nat rounds = 10 →
  0 ≤ r < 2 ^ (7 * k) → 0 ≤ x < 128 ^ Z.of_nat m → r + x * 2 ^ (7 * k) < 2 ^ 64 →
  varintShortestSize (r + x * 2 ^ (7 * k)) = k + Z.of_nat m →
  len pre = offset + k →
  readUint_loop rounds (pre ++ put_n m x ++ post) offset (offset + k) (7 * k) r
  = Ok (r + x * 2 ^ (7 * k), k + Z.of_nat m).
Proof.
  revert m k x r pre. induction rounds as [|rounds IH]; intros m k x r pre Hk Hm Hkm Hrd Hr Hx H64 Hsz Hpre;
    [lia|].
  cbn [readUint_loop]. rewrite <-Hpre. set (off := offset) in *.
  assert (0 < 2 ^ (7 * k)) by (apply Z.pow_pos_nonneg; lia).
  destruct m as [|[|m]]; [lia| |].
  - change (128 ^ Z.of_nat 1) with 128 in Hx. cbn [put_n app].
    rewrite idx_app_len.
    assert (byte_ok x) by (unfold byte_ok; lia).
    assert ((len pre + 1 =? off + 10) && (1 <? x) = false) as ->.
    { apply andb_false_iff. destruct (Z.eqb_spec (len pre + 1) (off + 10)); [|by left].
      right. apply Z.ltb_ge. assert (k = 9) as -> by lia. change (2 ^ (7 * 9)) with (2 ^ 63) in *. lia. }
    rewrite round_value, land_80 by (rewrite ?Z.mod_small by lia; lia || done).
    rewrite Z.mod_small by lia. destruct (Z.ltb_spec x 128); [|lia].
    rewrite Hsz, Hpre. change (Z.of_nat 1) with 1.
    destruct (Z.eqb_spec (k + 1) (off + k + 1 - off)); [|lia]. do 2 f_equal. lia.
  - change (put_n (S (S m)) x) with ((x mod 128 + 128) :: put_n (S m) (x / 128)).
    cbn [app]. rewrite idx_app_len.
    pose proof (Z.mod_pos_bound x 128 ltac:(lia)) as Hmod.
    pose proof (Z.div_mod x 128 ltac:(lia)) as Hdm.
    assert (byte_ok (x mod 128 + 128)) by (unfold byte_ok; lia).
    assert (0 ≤ x / 128) by (apply Z.div_pos; lia).
    assert ((x mod 128 + 128) mod 128 = x mod 128) as Hmm.
    { rewrite <-Z.add_mod_idemp_r by lia. rewrite Z.mod_same, Z.add_0_r, Z.mod_mod by lia. done. }
    assert ((len pre + 1 =? off + 10) = false) as ->.
    { apply Z.eqb_neq. lia. }
    rewrite andb_false_l. rewrite round_value by (rewrite ?Hmm; nia || done).
    rewrite land_80 by done. destruct (Z.ltb_spec (x mod 128 + 128) 128); [lia|].
    rewrite Hmm.
    assert (2 ^ (7 * (k + 1)) = 128 * 2 ^ (7 * k)) as Hpow.
    { rewrite Z.mul_add_distr_l, Z.pow_add_r by lia. change (2 ^ (7 * 1)) with 128. lia. }
    assert (r + x mod 128 * 2 ^ (7 * k) + x / 128 * 2 ^ (7 * (k + 1))
            = r + x * 2 ^ (7 * k)) as Hval by (rewrite Hpow; nia).
    replace (len pre + 1) with (off + (k + 1)) by lia.
    replace (7 * k + 7) with (7 * (k + 1)) by lia.
    replace (pre ++ (x mod 128 + 128) :: put_n (S m) (x / 128) ++ post)
      with ((pre ++ [x mod 128 + 128]) ++ put_n (S m) (x / 128) ++ post)
      by (by rewrite <-app_assoc).
    rewrite IH; [rewrite Hval; do 2 f_equal; lia|lia|lia|lia|lia|nia| |lia|rewrite Hval; lia|len_lia].
    rewrite (Nat2Z.inj_succ (S m)), Z.pow_succ_r in Hx by lia.
    split; [done|]. apply Z.div_lt_upper_bound; lia.
Qed.

(** [readUint] reads back what [PutUvarint] wrote, whatever surrounds it. *)
Lemma readUint_PutUvarint x pre post :
  u64_ok x →
  readUint (pre ++ PutUvarint x ++ post) (len pre) = Ok (x, len (PutUvarint x)).
Proof.
  intros Hx. pose proof (varintShortestSize_pos x). rewrite len_PutUvarint by done.
  rewrite PutUvarint_put_n by done. unfold readUint.
  rewrite <-(Z.add_0_r (len pre)) at 2. change 0 with (7 * 0) at 2.
  rewrite readUint_loop_put_n; change (2 ^ (7 * 0)) with 1;
    rewrite ?Z.mul_1_r, ?Z.add_0_l, ?Z2Nat.id; try lia; [done|..].
  - split; [apply Hx|by apply varintShortestSize_bound].
  - apply Hx.
Qed.

Lemma readUint_loop_inv rounds k data offset r v m :
  bytes_ok data → 0 ≤ k → k + Z.of_nat rounds = 10 → 0 ≤ r < 2 ^ (7 * k) → 0 ≤ offset →
  readUint_loop rounds data offset (offset + k) (7 * k) r = Ok (v, m) →
  ∃ (n : nat) x post, (1 ≤ n)%nat ∧ m = k + Z.of_nat n ∧ k + Z.of_nat n ≤ 10
    ∧ drop (Z.to_nat (offset + k)) data = put_n n x ++ post
    ∧ 0 ≤ x ∧ v = r + x * 2 ^ (7 * k) ∧ v < 2 ^ 64 ∧ varintShortestSize v = m.
Proof.
  intros Hd. revert k r. induction rounds as [|rounds IH]; intros k r Hk Hrd Hr Hoff; [done|].
  cbn [readUint_loop]. destruct (idx data (offset + k)) as [b|] eqn:Hb; [|done].
  rewrite idx_nonneg in Hb by lia.
  assert (byte_ok b) as Hbok by (eapply Forall_lookup_1; eauto).
  destruct (_ && _) eqn:Hlast; [done|].
  assert (0 < 2 ^ (7 * k)) by (apply Z.pow_pos_nonneg; lia).
  pose proof (Z.mod_pos_bound b 128 ltac:(lia)) as Hmod.
  assert (b mod 128 * 2 ^ (7 * k) < 2 ^ 64 - 2 ^ (7 * k) ∨ k = 9 ∧ b ≤ 1) as Hfit.
  { destruct (decide (k = 9)) as [->|].
    - right. split; [done|]. apply andb_false_iff in Hlast. zbool. lia.
    - left. assert (2 ^ (7 * k) ≤ 2 ^ 56) by (apply Z.pow_le_mono_r; lia). nia. }
  assert (b mod 128 * 2 ^ (7 * k) < 2 ^ 64) as Hlt.
  { destruct Hfit as [?|[-> ?]]; [lia|].
    rewrite Z.mod_small by (unfold byte_ok in Hbok; lia). change (2 ^ (7 * 9)) with (2 ^ 63). lia. }
  rewrite round_value, land_80 by done.
  destruct (Z.ltb_spec b 128) as [Hb128|Hb128].
  - rewrite Z.mod_small in * by (unfold byte_ok in Hbok; lia).
    destruct (Z.eqb_spec (varintShortestSize (r + b * 2 ^ (7 * k))) (offset + k + 1 - offset)) as [Hs|];
      [|done].
    intros [= <- <-]. exists 1%nat, b, (drop (S (Z.to_nat (offset + k))) data).
    change (Z.of_nat 1) with 1. unfold byte_ok in Hbok. split_and!; try lia.
    + by rewrite (drop_S data b).
    + destruct Hfit as [?|[-> ?]]; [lia|]. change (2 ^ (7 * 9)) with (2 ^ 63) in *. lia.
  - destruct Hfit as [Hfit|[-> ?]]; [|lia]. rewrite <-Z.add_assoc.
    replace (7 * k + 7) with (7 * (k + 1)) by lia. intros Hrec.
    assert (2 ^ (7 * (k + 1)) = 128 * 2 ^ (7 * k)) as Hpow.
    { rewrite Z.mul_add_distr_l, Z.pow_add_r by lia. change (2 ^ (7 * 1)) with 128. lia. }
    apply IH in Hrec as (n & x & post & Hn & -> & Hn10 & Hdrop & Hx & Hv & Hv64 & Hsz);
      [|lia|lia|rewrite Hpow; nia|done].
    exists (S n), (b mod 128 + 128 * x), post. split_and!; try lia.
    { rewrite (drop_S data b) by done.
      replace (S (Z.to_nat (offset + k))) with (Z.to_nat (offset + (k + 1))) by lia.
      rewrite Hdrop. destruct n as [|n]; [lia|].
      change (put_n (S (S n)) (b mod 128 + 128 * x)) with
        (((b mod 128 + 128 * x) mod 128 + 128) :: put_n (S n) ((b mod 128 + 128 * x) / 128)).
      rewrite (Z.mul_comm 128 x), Z.mod_add, Z.mod_mod, Z.div_add by lia.
      rewrite (Z.div_small (b mod 128)), Z.add_0_l by lia. simpl. f_equal.
      unfold byte_ok in Hbok.
      pose proof (Z.div_mod b 128 ltac:(lia)).
      assert (b / 128 = 1) by (symmetry; apply Z.div_unique with (b - 128); lia). lia. }
Qed.

(** [readUint] accepts only canonical encodings. *)
Lemma readUint_canonical data offset v m :
  bytes_ok data → 0 ≤ offset → readUint data offset = Ok (v, m) →
  u64_ok v ∧ m = len (PutUvarint v)
  ∧ ∃ post, drop (Z.to_nat offset) data = PutUvarint v ++ post.
Proof.
  intros Hd Hoff. unfold readUint. rewrite <-(Z.add_0_r offset) at 2.
  change 0 with (7 * 0) at 2. intros H.
  apply readUint_loop_inv in H as (n & x & post & Hn & -> & Hn10 & Hdrop & Hx & Hv & Hv64 & Hsz);
    try done; try lia.
  rewrite Z.add_0_r in Hdrop. change (2 ^ (7 * 0)) with 1 in Hv.
  rewrite Z.add_0_l, Z.mul_1_r in *. subst v. assert (u64_ok x) by (unfold u64_ok; lia).
  split; [done|]. rewrite len_PutUvarint by done. split; [lia|].
  exists post. rewrite PutUvarint_put_n by done. by rewrite Hsz, Nat2Z.id.
Qed.

(** The error for a missing terminating bit is unreachable: the tenth byte
    either terminates or is out of range. *)
Lemma readUint_terminates data offset :
  bytes_ok data → 0 ≤ offset → readUint data offset ≠ Err ErrNoTerminate.
Proof.
  intros Hd Hoff. unfold readUint. cbn [readUint_loop].
  repeat (case_match; try done);
    match goal with
    | H : (?i =? ?o) && (1 <? ?b) = false, H' : (Z.land ?b 0x80 =? 0) = false,
      Hb : idx data (offset + 1 + 1 + 1 + 1 + 1 + 1 + 1 + 1 + 1) = Some ?b |- _ =>
        rewrite idx_nonneg in Hb by lia;
        rewrite land_80 in H' by (eapply Forall_lookup_1; eauto)
    end.
  all: zbool; lia.
Qed.
