(* ===== verification/Codec.v ===== *)
(** * Codec: the reader and writer of pkg/codec

    [Writer] and [Reader] are the records of writer.go and reader.go, with one
    definition per method.  [Reads dec enc a] is the contract between the two
    sides: [dec], started where [enc] stands in any buffer, returns [a] and
    stops right after it.  Each primitive satisfies it, and the messages of
    Messages.v are proved against it. *)

From S2P Require Import Prelude Varint.

(** Unicode normalisation is golang.org/x/text/unicode/norm, not part of the
    repository: a parameter.  The law is the documented one. *)
Class Norm := {
  NFC_String : bytes → bytes;
  NFC_IsNormal : bytes → bool;
}.

Class NormLaws `{Norm} := {
  NFC_normal : ∀ s, NFC_IsNormal s = true → NFC_String s = s;
}.

(** unicode/utf8's [Valid]. *)
Definition between (lo hi x : Z) : bool := (lo <=? x) && (x <=? hi).

Fixpoint utf8_valid (s : bytes) : bool :=
  match s with
  | [] => true
  | b0 :: s =>
      if between 0 0x7f b0 then utf8_valid s else
      match s with
      | [] => false
      | b1 :: s =>
          if between 0xc2 0xdf b0 then between 0x80 0xbf b1 && utf8_valid s else
          match s with
          | [] => false
          | b2 :: s =>
              if between 0xe0 0xef b0 then
                between (if b0 =? 0xe0 then 0xa0 else 0x80)
                        (if b0 =? 0xed then 0x9f else 0xbf) b1
                && between 0x80 0xbf b2 && utf8_valid s
              else
              match s with
              | [] => false
              | b3 :: s =>
                  between 0xf0 0xf4 b0
                  && between (if b0 =? 0xf0 then 0x90 else 0x80)
                             (if b0 =? 0xf4 then 0x8f else 0xbf) b1
                  && between 0x80 0xbf b2 && between 0x80 0xbf b3 && utf8_valid s
              end
          end
      end
  end.

Declare Scope go_scope.
Delimit Scope go_scope with go.
Notation "w |> f" := (f w) (at level 50, left associativity, only parsing) : go_scope.
#[global] Open Scope go_scope.

(** ** writer.go *)

Record Writer := mkWriter { w_result : bytes; w_size : Z }.

Definition NewWriter : Writer := mkWriter [] 0.

Definition Result (w : Writer) : bytes := w_result w.
Definition Size (w : Writer) : Z := w_size w.

Definition writeKey (wireType fieldNumber : Z) (w : Writer) : Writer :=
  let vint := getKey wireType fieldNumber in
  mkWriter (w_result w ++ vint) (w_size w + len vint).

(** The size is assigned, not accumulated. *)
Definition writeUInt (data : Z) (w : Writer) : Writer :=
  let vint := PutUvarint data in
  mkWriter (w_result w ++ vint) (len vint).

Definition writeInt (data : Z) (w : Writer) : Writer :=
  let vint := PutVarint data in
  mkWriter (w_result w ++ vint) (len vint).

Definition writeBool (data : bool) (w : Writer) : Writer :=
  mkWriter (w_result w ++ [if data then 0x01 else 0x00]) (w_size w + 1).

Definition writeBytes (data : bytes) (w : Writer) : Writer :=
  let size := len data in
  let w := writeUInt (u64 size) w in
  mkWriter (w_result w ++ data) (w_size w + size).

Definition WriteBytes (fieldNumber : Z) (data : bytes) (w : Writer) : Writer :=
  w |> writeKey wireType2 fieldNumber |> writeBytes data.

Definition WriteBytesArray (fieldNumber : Z) (data : list bytes) (w : Writer) : Writer :=
  foldl (λ w val, WriteBytes fieldNumber val w) w data.

Definition WriteString `{Norm} (fieldNumber : Z) (data : bytes) (w : Writer) : Writer :=
  WriteBytes fieldNumber (NFC_String data) w.

Definition WriteStrings `{Norm} (fieldNumber : Z) (data : list bytes) (w : Writer) : Writer :=
  foldl (λ w val, WriteString fieldNumber val w) w data.

Definition WriteBool (fieldNumber : Z) (data : bool) (w : Writer) : Writer :=
  w |> writeKey wireType0 fieldNumber |> writeBool data.

Definition WriteUInt (fieldNumber data : Z) (w : Writer) : Writer :=
  w |> writeKey wireType0 fieldNumber |> writeUInt data.

Definition WriteUInt32 (fieldNumber data : Z) (w : Writer) : Writer :=
  WriteUInt fieldNumber (u64 data) w.

Definition WriteInt (fieldNumber data : Z) (w : Writer) : Writer :=
  w |> writeKey wireType0 fieldNumber |> writeInt data.

Definition WriteInt32 (fieldNumber data : Z) (w : Writer) : Writer :=
  WriteInt fieldNumber (i64 data) w.

(** The packed arrays: nothing is written for an empty one. *)
Definition write_packed {A} (wr : A → Writer → Writer) (fieldNumber : Z) (data : list A)
    (w : Writer) : Writer :=
  match data with
  | [] => w
  | _ => w |> writeKey wireType2 fieldNumber
           |> writeBytes (Result (foldl (λ w val, wr val w) NewWriter data))
  end.

Definition WriteBools : Z → list bool → Writer → Writer := write_packed writeBool.
Definition WriteUInts : Z → list Z → Writer → Writer := write_packed writeUInt.
Definition WriteUInt32s : Z → list Z → Writer → Writer :=
  write_packed (λ val, writeUInt (u64 val)).
Definition WriteInts : Z → list Z → Writer → Writer := write_packed writeInt.
Definition WriteInt32s : Z → list Z → Writer → Writer :=
  write_packed (λ val, writeInt (i64 val)).

(** [WriteEncodable]: [None] is a nil interface; [data.Encode()] is passed. *)
Definition WriteEncodable (fieldNumber : Z) (data : option bytes) (w : Writer) : Writer :=
  match data with
  | None => w
  | Some enc => w |> writeKey wireType2 fieldNumber |> writeBytes enc
  end.

(** ** reader.go *)

Record Reader := mkReader { r_index : Z; r_end : Z; r_data : bytes }.

Definition NewReader (data : bytes) : Reader := mkReader 0 (len data) data.

Definition set_index (i : Z) (r : Reader) : Reader := mkReader i (r_end r) (r_data r).

Definition HasUnreadBytes (r : Reader) : bool := negb (r_index r =? r_end r).

Definition readUInt (r : Reader) : res (Z * Reader) :=
  '(result, size) ← readUint (r_data r) (r_index r);
  Ok (result, set_index (r_index r + size) r).

Definition readInt (r : Reader) : res (Z * Reader) :=
  '(n, r) ← readUInt r;
  if n mod 2 =? 0 then Ok (i64 (n / 2), r)
  else Ok (i64 (-1 * i64 (u64 (n + 1) / 2)), r).

Definition readBytes (r : Reader) : res (bytes * Reader) :=
  '(size, r) ← readUInt r;
  let remaining := len (r_data r) - r_index r in
  if u64 remaining <? size then Err (Errorf "invalid byte size")
  else
    result ← slice (r_data r) (r_index r) (r_index r + i64 size);
    Ok (result, set_index (r_index r + i64 size) r).

Definition readString `{Norm} (r : Reader) : res (bytes * Reader) :=
  '(result, r) ← readBytes r;
  if negb (utf8_valid result) then Err (Errorf "invalid byte for UTF-8 is included")
  else if negb (NFC_IsNormal result) then Err (Errorf "UTF-8 is not normalized")
  else Ok (result, r).

(** The byte is read without a bounds check. *)
Definition readBool (r : Reader) : res (bool * Reader) :=
  target ← index (r_data r) (r_index r);
  if negb (target =? 0x00) && negb (target =? 0x01) then Err ErrInvalidData
  else Ok (negb (target =? 0x00), set_index (r_index r + 1) r).

Definition peekKey (r : Reader) : res (Z * Z) :=
  '(result, size) ← readUint (r_data r) (r_index r);
  Ok (i64 result, size).

(** [check] consumes the key of the expected field; every other outcome is an
    error and leaves the reader where it was. *)
Definition check (fieldNumber wireType : Z) (r : Reader) : res Reader :=
  if r_end r <=? r_index r then Err ErrFieldNumberNotFound
  else
    '(key, size) ← peekKey r;
    '(nextFieldNumber, nextWireType) ← readKey key;
    if negb (nextFieldNumber =? fieldNumber) then Err ErrUnexpectedFieldNumber
    else if negb (nextWireType =? wireType) then Err ErrInvalidData
    else Ok (set_index (r_index r + size) r).

Definition strictError (e : error) : bool :=
  bool_decide (e = ErrFieldNumberNotFound) || bool_decide (e = ErrUnexpectedFieldNumber).

(** The common shape of the readers of one value: a missing field is the zero
    value unless [strict]. *)
Definition read_field {A} (wireType : Z) (zero : A) (rd : Reader → res (A * Reader))
    (fieldNumber : Z) (strict : bool) (r : Reader) : res (A * Reader) :=
  match check fieldNumber wireType r with
  | Ok r' => rd r'
  | Err e => if negb (strictError e) then Err e
             else if strict then Err e else Ok (zero, r)
  | Panic => Panic
  | OutOfFuel => OutOfFuel
  end.

Definition ReadUInt : Z → bool → Reader → res (Z * Reader) := read_field wireType0 0 readUInt.
Definition ReadUInt32 (fieldNumber : Z) (strict : bool) (r : Reader) : res (Z * Reader) :=
  '(val, r) ← ReadUInt fieldNumber strict r;
  Ok (u32 val, r).
Definition ReadInt : Z → bool → Reader → res (Z * Reader) := read_field wireType0 0 readInt.
Definition ReadInt32 (fieldNumber : Z) (strict : bool) (r : Reader) : res (Z * Reader) :=
  '(val, r) ← ReadInt fieldNumber strict r;
  Ok ((val + 2 ^ 31) mod 2 ^ 32 - 2 ^ 31, r).
Definition ReadBool : Z → bool → Reader → res (bool * Reader) :=
  read_field wireType0 false readBool.
Definition ReadBytes : Z → bool → Reader → res (bytes * Reader) :=
  read_field wireType2 [] readBytes.
Definition ReadString `{Norm} : Z → bool → Reader → res (bytes * Reader) :=
  read_field wireType2 [] readString.

(** The packed arrays are read up to a byte position.  Each round consumes at
    least one byte, so the size of the buffer bounds the rounds. *)
Fixpoint packed_loop {A} (fuel : nat) (rd : Reader → res (A * Reader)) (end_ : Z) (r : Reader)
    : res (list A * Reader) :=
  if r_index r <? end_ then
    match fuel with
    | O => OutOfFuel
    | S fuel =>
        '(val, r) ← rd r;
        '(rest, r) ← packed_loop fuel rd end_ r;
        Ok (val :: rest, r)
    end
  else Ok ([], r).

Definition read_packed {A} (rd : Reader → res (A * Reader)) (fieldNumber : Z) (r : Reader)
    : res (list A * Reader) :=
  match check fieldNumber wireType2 r with
  | Ok r' =>
      '(arrayLength, r') ← readUInt r';
      packed_loop (S (length (r_data r'))) rd (i64 (r_index r' + i64 arrayLength)) r'
  | Err e => if negb (strictError e) then Err e else Ok ([], r)
  | Panic => Panic
  | OutOfFuel => OutOfFuel
  end.

Definition ReadUInts : Z → Reader → res (list Z * Reader) := read_packed readUInt.
Definition ReadUInt32s : Z → Reader → res (list Z * Reader) :=
  read_packed (λ r, '(val, r) ← readUInt r; Ok (u32 val, r)).
Definition ReadInts : Z → Reader → res (list Z * Reader) := read_packed readInt.
Definition ReadBools : Z → Reader → res (list bool * Reader) := read_packed readBool.

(** The repeated fields are read while the key repeats. *)
Fixpoint repeated_loop {A} (fuel : nat) (rd : Reader → res (A * Reader)) (fieldNumber : Z)
    (r : Reader) : res (list A * Reader) :=
  if r_index r <? r_end r then
    match fuel with
    | O => OutOfFuel
    | S fuel =>
        match check fieldNumber wireType2 r with
        | Ok r' =>
            '(val, r') ← rd r';
            '(rest, r') ← repeated_loop fuel rd fieldNumber r';
            Ok (val :: rest, r')
        | Err e => if negb (strictError e) then Err e else Ok ([], r)
        | Panic => Panic
        | OutOfFuel => OutOfFuel
        end
    end
  else Ok ([], r).

Definition read_repeated {A} (rd : Reader → res (A * Reader)) (fieldNumber : Z) (r : Reader)
    : res (list A * Reader) :=
  repeated_loop (S (length (r_data r))) rd fieldNumber r.

Definition ReadBytesArray : Z → Reader → res (list bytes * Reader) := read_repeated readBytes.
Definition ReadStrings `{Norm} : Z → Reader → res (list bytes * Reader) :=
  read_repeated readString.

(** A nested message is decoded by a reader of its own on the same buffer; the
    outer reader continues where the nested one stopped. *)
Definition read_nested {A} (dec : Reader → res (A * Reader)) (r : Reader) : res (A * Reader) :=
  '(decodableSize, r) ← readUInt r;
  let decodableReader :=
    mkReader (r_index r) (i64 (r_index r + i64 decodableSize)) (r_data r) in
  '(val, decodableReader) ← dec decodableReader;
  Ok (val, set_index (r_index decodableReader) r).

(** [creator] gives the zero message, [dec] is its [DecodeFromReader]. *)
Definition ReadDecodable {A} (fieldNumber : Z) (creator : A) (dec : Reader → res (A * Reader))
    (strict : bool) (r : Reader) : res (A * Reader) :=
  read_field wireType2 creator (read_nested dec) fieldNumber strict r.

Definition ReadDecodables {A} (fieldNumber : Z) (dec : Reader → res (A * Reader)) (r : Reader)
    : res (list A * Reader) :=
  read_repeated (read_nested dec) fieldNumber r.
