(* ===== verification/CodecSpec.v ===== *)
(** * CodecSpec: the contract between the writer and the reader

    [Reads lo hi rd enc a] says that [rd], started where [enc] stands in any
    buffer, returns [a] and stops right after [enc], provided that what
    follows is the end of the message or a field numbered [hi] or more.  The
    lemma [Reads_bind] composes contracts the way a generated decoder composes
    its fields, so the round trip of a message is one lemma per field.
    [Total rd] says that [rd] neither panics nor runs out of fuel, on any
    bytes, and [Canon rd enc] that it accepts only what [enc] writes. *)

From S2P Require Import Prelude Varint Codec.

(** ** What the writer appends *)

Definition enc_key (wireType fieldNumber : Z) : bytes := getKey wireType fieldNumber.
Definition enc_bytes (data : bytes) : bytes := PutUvarint (u64 (len data)) ++ data.
Definition enc_UInt (n data : Z) : bytes := enc_key wireType0 n ++ PutUvarint data.
Definition enc_Int (n data : Z) : bytes := enc_key wireType0 n ++ PutVarint data.
Definition enc_Bool (n : Z) (data : bool) : bytes :=
  enc_key wireType0 n ++ [if data then 1 else 0].
Definition enc_Bytes (n : Z) (data : bytes) : bytes := enc_key wireType2 n ++ enc_bytes data.
Definition enc_repeated {A} (enc : A → bytes) (n : Z) (data : list A) : bytes :=
  concat ((λ a, enc_Bytes n (enc a)) <$> data).
Definition enc_packed {A} (enc : A → bytes) (n : Z) (data : list A) : bytes :=
  match data with [] => [] | _ => enc_Bytes n (concat (enc <$> data)) end.

Section writer.
Context `{Norm}.

Lemma w_writeBytes data w : w_result (writeBytes data w) = w_result w ++ enc_bytes data.
Proof. unfold writeBytes, enc_bytes. simpl. by rewrite <-app_assoc. Qed.

Lemma w_WriteBytes n data w : w_result (WriteBytes n data w) = w_result w ++ enc_Bytes n data.
Proof. unfold WriteBytes, enc_Bytes. rewrite w_writeBytes. simpl. by rewrite <-app_assoc. Qed.

Lemma w_WriteString n data w :
  w_result (WriteString n data w) = w_result w ++ enc_Bytes n (NFC_String data).
Proof. apply w_WriteBytes. Qed.

Lemma w_WriteUInt n data w : w_result (WriteUInt n data w) = w_result w ++ enc_UInt n data.
Proof. unfold WriteUInt, enc_UInt. simpl. by rewrite <-app_assoc. Qed.

Lemma w_WriteUInt32 n data w :
  w_result (WriteUInt32 n data w) = w_result w ++ enc_UInt n (u64 data).
Proof. apply w_WriteUInt. Qed.

Lemma w_WriteInt n data w : w_result (WriteInt n data w) = w_result w ++ enc_Int n data.
Proof. unfold WriteInt, enc_Int. simpl. by rewrite <-app_assoc. Qed.

Lemma w_WriteInt32 n data w : w_result (WriteInt32 n data w) = w_result w ++ enc_Int n (i64 data).
Proof. apply w_WriteInt. Qed.

Lemma w_WriteBool n data w : w_result (WriteBool n data w) = w_result w ++ enc_Bool n data.
Proof. unfold WriteBool, enc_Bool. simpl. by rewrite <-app_assoc. Qed.

Lemma w_foldl {A} (wr : A → Writer → Writer) (enc : A → bytes) data w :
  (∀ a w, w_result (wr a w) = w_result w ++ enc a) →
  w_result (foldl (λ w a, wr a w) w data) = w_result w ++ concat (enc <$> data).
Proof.
  intros Hwr. revert w. induction data as [|a data IH]; intros w; simpl; [by rewrite app_nil_r|].
  by rewrite IH, Hwr, <-app_assoc.
Qed.

Lemma w_WriteBytesArray n data w :
  w_result (WriteBytesArray n data w) = w_result w ++ enc_repeated id n data.
Proof. apply (w_foldl (WriteBytes n)). intros. apply w_WriteBytes. Qed.

Lemma w_WriteStrings n data w :
  w_result (WriteStrings n data w) = w_result w ++ enc_repeated NFC_String n data.
Proof. apply (w_foldl (WriteString n)). intros. apply w_WriteString. Qed.

Lemma w_write_packed {A} (wr : A → Writer → Writer) (enc : A → bytes) n data w :
  (∀ a w, w_result (wr a w) = w_result w ++ enc a) →
  w_result (write_packed wr n data w) = w_result w ++ enc_packed enc n data.
Proof.
  intros Hwr. unfold write_packed, enc_packed.
  destruct data as [|a data]; [by rewrite app_nil_r|].
  unfold Result. rewrite w_writeBytes, (w_foldl wr enc) by done.
  simpl. unfold enc_Bytes. by rewrite <-app_assoc.
Qed.

Lemma w_WriteUInts n data w :
  w_result (WriteUInts n data w) = w_result w ++ enc_packed PutUvarint n data.
Proof. by apply w_write_packed. Qed.

Lemma w_WriteInts n data w :
  w_result (WriteInts n data w) = w_result w ++ enc_packed PutVarint n data.
Proof. by apply w_write_packed. Qed.

Lemma w_WriteBools n data w :
  w_result (WriteBools n data w) = w_result w ++ enc_packed (λ b : bool, [if b then 1 else 0]) n data.
Proof. by apply w_write_packed. Qed.

Lemma w_WriteEncodable n enc w :
  w_result (WriteEncodable n (Some enc) w) = w_result w ++ enc_Bytes n enc.
Proof. apply w_WriteBytes. Qed.

(** The loop the generated encoders write for an array of messages. *)
Lemma w_WriteEncodables {A} (enc : A → bytes) n data w :
  w_result (foldl (λ w a, WriteEncodable n (Some (enc a)) w) w data)
  = w_result w ++ enc_repeated enc n data.
Proof.
  apply (w_foldl (λ a, WriteEncodable n (Some (enc a))) (λ a, enc_Bytes n (enc a))).
  intros. apply w_WriteEncodable.
Qed.
End writer.

Create Rewrite HintDb writer.
#[export] Hint Rewrite @w_WriteBytes @w_WriteString @w_WriteUInt @w_WriteUInt32 @w_WriteInt @w_WriteInt32
  @w_WriteBool @w_WriteBytesArray @w_WriteStrings @w_WriteUInts @w_WriteInts @w_WriteBools
  @w_WriteEncodable @w_WriteEncodables : writer.

(** ** Field boundaries *)

Definition field_ok (n : Z) : Prop := 1 ≤ n < 2 ^ 28.
Definition wire_ok (wt : Z) : Prop := wt = wireType0 ∨ wt = wireType2.

(** The rest of the message is empty or starts with a field numbered [n] or
    more. *)
Definition starts_from (n : Z) (bs : bytes) : Prop :=
  bs = [] ∨ ∃ wt k rest, n ≤ k ∧ field_ok k ∧ wire_ok wt ∧ bs = enc_key wt k ++ rest.

Lemma starts_from_mono n m bs : m ≤ n → starts_from n bs → starts_from m bs.
Proof.
  intros Hm [->|(wt & k & rest & ? & ? & ? & ->)]; [by left|].
  right. exists wt, k, rest. split_and!; [lia|done..].
Qed.

Lemma starts_from_key wt n rest :
  field_ok n → wire_ok wt → starts_from n (enc_key wt n ++ rest).
Proof. intros. right. exists wt, n, rest. split_and!; [lia|done..]. Qed.

Lemma getKey_value wt n :
  wire_ok wt → field_ok n → Z.lor (Z.shiftl n 3) wt = n * 8 + wt.
Proof.
  intros Hwt Hn. unfold field_ok, wire_ok, wireType0, wireType2 in *.
  rewrite Z.lor_comm, lor_shiftl_add by (change (2 ^ 3) with 8; lia).
  change (2 ^ 3) with 8. lia.
Qed.

Lemma enc_key_bounds wt n : wire_ok wt → field_ok n → 1 ≤ len (enc_key wt n) ≤ 10.
Proof.
  intros Hwt Hn. unfold enc_key, getKey. rewrite getKey_value by done.
  apply PutUvarint_bounds. unfold u64_ok, field_ok, wire_ok, wireType0, wireType2 in *. lia.
Qed.

(** ** The readers on what the writer wrote *)

(** A reader positioned after [pre]. *)
Abbreviation rd_at pre e buf := (mkReader (len pre) e buf).

Lemma check_key pre wt k n wt' rest e :
  field_ok k → wire_ok wt → len pre < e →
  check n wt' (rd_at pre e (pre ++ enc_key wt k ++ rest))
  = (if negb (k =? n) then Err ErrUnexpectedFieldNumber
     else if negb (wt =? wt') then Err ErrInvalidData
     else Ok (rd_at (pre ++ enc_key wt k) e (pre ++ enc_key wt k ++ rest))).
Proof.
  intros Hk Hwt He. unfold check, peekKey. simpl.
  destruct (Z.leb_spec e (len pre)); [lia|]. unfold enc_key, getKey.
  rewrite getKey_value by done.
  assert (0 ≤ k * 8 + wt < 2 ^ 32)
    by (unfold field_ok, wire_ok, wireType0, wireType2 in *; lia).
  rewrite readUint_PutUvarint by (unfold u64_ok; lia). simpl.
  rewrite i64_small by (unfold i64_ok; lia).
  unfold readKey.
  assert (Z.land (k * 8 + wt) 7 = wt) as ->.
  { change 7 with (Z.ones 3). rewrite Z.land_ones by lia. change (2 ^ 3) with 8.
    rewrite Z.add_comm, Z.mod_add by lia.
    apply Z.mod_small. unfold wire_ok, wireType0, wireType2 in *. lia. }
  assert (negb (wt =? wireType0) && negb (wt =? wireType2) = false) as ->.
  { destruct Hwt as [->| ->]; done. }
  rewrite Z.shiftr_div_pow2 by lia. change (2 ^ 3) with 8.
  rewrite Z.div_add_l, Z.div_small, Z.add_0_r
    by (unfold wire_ok, wireType0, wireType2 in *; lia). simpl.
  rewrite len_app. done.
Qed.

Lemma check_own pre wt n rest e :
  field_ok n → wire_ok wt → len pre < e →
  check n wt (rd_at pre e (pre ++ enc_key wt n ++ rest))
  = Ok (rd_at (pre ++ enc_key wt n) e (pre ++ enc_key wt n ++ rest)).
Proof. intros. rewrite check_key by done. by rewrite !Z.eqb_refl. Qed.

(** At a field boundary the reader finds that its field is missing. *)
Lemma check_missing pre n wt tail beyond :
  starts_from (n + 1) tail →
  ∃ err, check n wt (rd_at pre (len pre + len tail) (pre ++ tail ++ beyond)) = Err err
    ∧ strictError err = true.
Proof.
  intros [->|(wt' & k & rest & ? & ? & ? & ->)].
  - exists ErrFieldNumberNotFound. split; [|done]. unfold check. simpl.
    rewrite len_nil, Z.add_0_r. destruct (Z.leb_spec (len pre) (len pre)); [done|lia].
  - exists ErrUnexpectedFieldNumber. split; [|done].
    pose proof (enc_key_bounds wt' k ltac:(done) ltac:(done)). rewrite <-app_assoc, check_key by (done || len_lia).
    destruct (Z.eqb_spec k n); [lia|done].
Qed.

(** [PReads]: the same contract for the readers of a payload, which do not
    look at what follows. *)
Definition PReads {A} (rd : Reader → res (A * Reader)) (enc : bytes) (a : A) : Prop :=
  ∀ pre post e, len (pre ++ enc ++ post) < 2 ^ 63 → len pre + len enc ≤ e →
    rd (rd_at pre e (pre ++ enc ++ post)) = Ok (a, rd_at (pre ++ enc) e (pre ++ enc ++ post)).

Definition Reads {A} (lo hi : Z) (rd : Reader → res (A * Reader)) (enc : bytes) (a : A) : Prop :=
  (∀ tail, starts_from hi tail → starts_from lo (enc ++ tail)) ∧
  ∀ pre tail beyond, len (pre ++ enc ++ tail ++ beyond) < 2 ^ 63 → starts_from hi tail →
    rd (rd_at pre (len (pre ++ enc ++ tail)) (pre ++ enc ++ tail ++ beyond))
    = Ok (a, rd_at (pre ++ enc) (len (pre ++ enc ++ tail)) (pre ++ enc ++ tail ++ beyond)).

Lemma PReads_readUInt x : u64_ok x → PReads readUInt (PutUvarint x) x.
Proof.
  intros Hx pre post e ??. unfold readUInt. simpl.
  rewrite readUint_PutUvarint by done. simpl. by rewrite len_app.
Qed.

Lemma PReads_bind {A B} rd (k : A → Reader → res (B * Reader)) enc1 enc2 a b :
  PReads rd enc1 a → PReads (k a) enc2 b →
  PReads (λ r, '(x, r) ← rd r; k x r) (enc1 ++ enc2) b.
Proof.
  intros H1 H2 pre post e Hlen He. rewrite <-app_assoc in *.
  rewrite H1 by len_lia. simpl. specialize (H2 (pre ++ enc1) post e).
  rewrite <-!app_assoc in H2. rewrite H2 by len_lia. done.
Qed.

Lemma PReads_ret {A} (a : A) : PReads (λ r, Ok (a, r)) [] a.
Proof. intros pre post e ??. by rewrite app_nil_r. Qed.

Lemma PReads_map {A B} rd (f : A → B) enc a :
  PReads rd enc a → PReads (λ r, '(x, r) ← rd r; Ok (f x, r)) enc (f a).
Proof.
  intros H. rewrite <-(app_nil_r enc).
  eapply (PReads_bind rd (λ x r, Ok (f x, r))); [done|]. apply PReads_ret.
Qed.

Lemma len_u64 {A} (l : list A) : len l < 2 ^ 63 → u64 (len l) = len l ∧ i64 (len l) = len l.
Proof.
  intros. pose proof (len_nonneg l).
  rewrite u64_small, i64_small by (unfold u64_ok, i64_ok; lia). done.
Qed.

Lemma PReads_readBytes data : PReads readBytes (enc_bytes data) data.
Proof.
  intros pre post e Hlen He. unfold readBytes, enc_bytes in *. rewrite <-app_assoc in *.
  destruct (len_u64 data) as [Hu Hi]; [len_lia|]. rewrite Hu in *.
  rewrite (PReads_readUInt (len data)) by (unfold u64_ok; len_lia). simpl.
  rewrite Hi, u64_small by (unfold u64_ok; len_lia).
  destruct (Z.ltb_spec (len (pre ++ PutUvarint (len data) ++ data ++ post)
    - len (pre ++ PutUvarint (len data))) (len data)); [len_lia|].
  pose proof (slice_app_mid (pre ++ PutUvarint (len data)) data post) as Hs.
  rewrite <-app_assoc in Hs. rewrite Hs. simpl. unfold set_index. simpl.
  by rewrite !(app_assoc pre), (len_app _ data).
Qed.

Section strings.
Context `{Norm}.

Definition string_ok (s : bytes) : Prop := utf8_valid s = true ∧ NFC_IsNormal s = true.

Lemma PReads_readString s : string_ok s → PReads readString (enc_bytes s) s.
Proof.
  intros [Hv Hn] pre post e ??. unfold readString.
  rewrite (PReads_readBytes s) by done. simpl. by rewrite Hv, Hn.
Qed.
End strings.

Lemma PReads_readBool (b : bool) : PReads readBool [if b then 1 else 0] b.
Proof.
  intros pre post e Hlen He. unfold readBool, index. cbn [r_data r_index app].
  rewrite idx_app_len. unfold set_index. simpl. rewrite len_app. by destruct b.
Qed.

(** Zig-zag: every [int64] but the least one is read back. *)
Lemma zigzag x :
  i64_ok x →
  PutVarint x = PutUvarint (if x <? 0 then -2 * x - 1 else 2 * x).
Proof.
  intros [H1 H2]. unfold PutVarint. f_equal. rewrite Z.shiftl_mul_pow2 by lia.
  change (2 ^ 1) with 2. unfold u64. destruct (Z.ltb_spec x 0).
  - replace (x mod 2 ^ 64) with (x + 2 ^ 64)
      by (apply Z.mod_unique with (-1); lia).
    replace (((x + 2 ^ 64) * 2) mod 2 ^ 64) with (2 * x + 2 ^ 64)
      by (apply Z.mod_unique with 1; lia).
    unfold Z.lnot. symmetry. apply Z.mod_unique with (-1); lia.
  - rewrite (Z.mod_small x) by lia. rewrite Z.mod_small; lia.
Qed.

Lemma PReads_readInt x : i64_ok x → x ≠ MinInt64 → PReads readInt (PutVarint x) x.
Proof.
  intros Hx Hmin pre post e ??. rewrite zigzag in * by done.
  unfold readInt. destruct Hx as [H1 H2]. unfold MinInt64 in Hmin.
  rewrite PReads_readUInt by (done || (unfold u64_ok; case_match; zbool; lia)). cbn [mbind res_bind].
  destruct (Z.ltb_spec x 0).
  - replace ((-2 * x - 1) mod 2) with 1 by (apply Z.mod_unique with (- x - 1); lia). simpl.
    replace (-2 * x - 1 + 1) with (- x * 2) by lia.
    rewrite u64_small by (unfold u64_ok; lia). rewrite Z.div_mul by lia.
    rewrite (i64_small (- x)) by (unfold i64_ok; lia).
    replace (-1 * - x) with x by lia. by rewrite i64_small.
  - rewrite Z.mul_comm, Z.mod_mul, Z.div_mul by lia. simpl. by rewrite i64_small.
Qed.

(** ** Fields *)

Lemma Reads_field {A} wt (zero : A) rd n strict enc a :
  field_ok n → wire_ok wt → PReads rd enc a →
  Reads n (n + 1) (read_field wt zero rd n strict) (enc_key wt n ++ enc) a.
Proof.
  intros Hn Hwt Hrd. split.
  { intros tail _. rewrite <-app_assoc. by apply starts_from_key. }
  intros pre tail beyond Hlen _. pose proof (enc_key_bounds wt n Hwt Hn).
  unfold read_field. rewrite <-!app_assoc in *.
  rewrite check_own by (done || len_lia).
  specialize (Hrd (pre ++ enc_key wt n) (tail ++ beyond)). rewrite <-!app_assoc in Hrd.
  by rewrite Hrd by len_lia.
Qed.

Lemma Reads_ReadUInt n strict x :
  field_ok n → u64_ok x → Reads n (n + 1) (ReadUInt n strict) (enc_UInt n x) x.
Proof. intros. apply Reads_field; [done|by left|by apply PReads_readUInt]. Qed.

Lemma Reads_ReadInt n strict x :
  field_ok n → i64_ok x → x ≠ MinInt64 →
  Reads n (n + 1) (ReadInt n strict) (enc_Int n x) x.
Proof. intros. apply Reads_field; [done|by left|by apply PReads_readInt]. Qed.

Lemma Reads_ReadBool n strict b :
  field_ok n → Reads n (n + 1) (ReadBool n strict) (enc_Bool n b) b.
Proof. intros. apply Reads_field; [done|by left|apply PReads_readBool]. Qed.

Lemma Reads_ReadBytes n strict data :
  field_ok n → Reads n (n + 1) (ReadBytes n strict) (enc_Bytes n data) data.
Proof. intros. apply Reads_field; [done|by right|apply PReads_readBytes]. Qed.

Lemma Reads_ReadString `{Norm, !NormLaws} n strict s :
  field_ok n → string_ok s →
  Reads n (n + 1) (ReadString n strict) (enc_Bytes n (NFC_String s)) s.
Proof.
  intros ? Hs. rewrite NFC_normal by apply Hs.
  apply Reads_field; [done|by right|by apply PReads_readString].
Qed.

Lemma Reads_mono {A} lo hi lo' (rd : Reader → res (A * Reader)) enc a :
  lo' ≤ lo → Reads lo hi rd enc a → Reads lo' hi rd enc a.
Proof.
  intros Hlo [H1 H2]. split; [|done]. intros. eapply starts_from_mono; [|by apply H1]. lia.
Qed.

Lemma Reads_bind {A B} lo mid hi rd (k : A → Reader → res (B * Reader)) enc1 enc2 a b :
  Reads lo mid rd enc1 a → Reads mid hi (k a) enc2 b →
  Reads lo hi (λ r, '(x, r) ← rd r; k x r) (enc1 ++ enc2) b.
Proof.
  intros [Hs1 H1] [Hs2 H2]. split.
  { intros. rewrite <-app_assoc. by apply Hs1, Hs2. }
  intros pre tail beyond Hlen Ht. rewrite <-!app_assoc in *.
  specialize (H1 pre (enc2 ++ tail) beyond). rewrite <-!app_assoc in H1.
  rewrite H1; [|by len_lia|by apply Hs2]. simpl.
  specialize (H2 (pre ++ enc1) tail beyond). rewrite <-!app_assoc in H2.
  rewrite H2; [done|by len_lia|done].
Qed.

Lemma Reads_ret {A} lo (a : A) : Reads lo lo (λ r, Ok (a, r)) [] a.
Proof. split; [done|]. intros. by rewrite app_nil_r. Qed.

Lemma Reads_map {A B} lo hi rd (f : A → B) enc a :
  Reads lo hi rd enc a → Reads lo hi (λ r, '(x, r) ← rd r; Ok (f x, r)) enc (f a).
Proof.
  intros H. rewrite <-(app_nil_r enc).
  eapply (Reads_bind lo hi hi rd (λ x r, Ok (f x, r))); [done|]. apply Reads_ret.
Qed.

Lemma Reads_ReadUInt32 n strict x :
  field_ok n → u32_ok x → Reads n (n + 1) (ReadUInt32 n strict) (enc_UInt n (u64 x)) x.
Proof.
  intros Hn Hx. assert (u64_ok x) by (unfold u32_ok, u64_ok in *; lia).
  rewrite u64_small by done. rewrite <-(u32_small x) at 2 by done.
  by apply (Reads_map _ _ (ReadUInt n strict) u32), Reads_ReadUInt.
Qed.

Lemma Reads_ReadInt32 n strict x :
  field_ok n → i32_ok x → Reads n (n + 1) (ReadInt32 n strict) (enc_Int n (i64 x)) x.
Proof.
  intros Hn Hx. unfold i32_ok in Hx. rewrite i64_small by (unfold i64_ok; lia).
  set (f := λ val : Z, (val + 2 ^ 31) mod 2 ^ 32 - 2 ^ 31).
  assert (f x = x) as Hf by (unfold f; rewrite Z.mod_small; lia). rewrite <- Hf at 2.
  apply (Reads_map _ _ (ReadInt n strict) f), Reads_ReadInt; [done|unfold i64_ok; lia|unfold MinInt64; lia].
Qed.

(** ** Repeated, packed and nested fields *)

Lemma len_enc_Bytes n data : field_ok n → 1 ≤ len (enc_Bytes n data).
Proof.
  intros Hn. pose proof (enc_key_bounds wireType2 n ltac:(by right) Hn).
  unfold enc_Bytes. len_lia.
Qed.

Lemma enc_repeated_cons {A} (enc : A → bytes) n a data :
  enc_repeated enc n (a :: data) = enc_Bytes n (enc a) ++ enc_repeated enc n data.
Proof. done. Qed.

Lemma length_enc_repeated {A} (enc : A → bytes) n data :
  field_ok n → (length data ≤ length (enc_repeated enc n data))%nat.
Proof.
  intros Hn. induction data as [|a data IH]; [simpl; lia|].
  rewrite enc_repeated_cons. cbn [length].
  pose proof (len_enc_Bytes n (enc a) Hn) as H. unfold len in H. rewrite length_app. lia.
Qed.

Section repeated.
Context {A : Type} (rd : Reader → res (A * Reader)) (enc : A → bytes) (n : Z).
Context (Hn : field_ok n).

Lemma repeated_loop_reads data fuel pre tail beyond :
  Forall (λ a, PReads rd (enc_bytes (enc a)) a) data →
  (length data < fuel)%nat → starts_from (n + 1) tail →
  let buf := pre ++ enc_repeated enc n data ++ tail ++ beyond in
  len buf < 2 ^ 63 →
  repeated_loop fuel rd n (rd_at pre (len (pre ++ enc_repeated enc n data ++ tail)) buf)
  = Ok (data, rd_at (pre ++ enc_repeated enc n data)
                    (len (pre ++ enc_repeated enc n data ++ tail)) buf).
Proof.
  intros Hdata. revert fuel pre. induction Hdata as [|a data Ha Hdata IH]; intros fuel pre Hfuel Ht buf Hlen.
  - subst buf. change (enc_repeated enc n []) with (@nil Z) in *. cbn [app] in *. rewrite app_nil_r.
    destruct fuel as [|fuel]; [simpl in Hfuel; lia|]. cbn [repeated_loop]. cbn [r_index r_end].
    destruct (Z.ltb_spec (len pre) (len (pre ++ tail))); [|done].
    destruct (check_missing pre n wireType2 tail beyond Ht) as (err & Hc & Hs).
    rewrite <-len_app in Hc. by rewrite Hc, Hs.
  - subst buf. rewrite enc_repeated_cons in *. set (rest := enc_repeated enc n data) in *.
    destruct fuel as [|fuel]; [simpl in Hfuel; lia|]. cbn [repeated_loop]. cbn [r_index r_end].
    pose proof (len_enc_Bytes n (enc a) Hn).
    destruct (Z.ltb_spec (len pre) (len (pre ++ (enc_Bytes n (enc a) ++ rest) ++ tail))); [|len_lia].
    unfold enc_Bytes in *. rewrite <-!app_assoc in *.
    rewrite check_own by (done || (by right) || len_lia).
    specialize (Ha (pre ++ enc_key wireType2 n) (rest ++ tail ++ beyond)).
    rewrite <-!app_assoc in Ha. rewrite Ha by len_lia. cbn [mbind res_bind].
    specialize (IH fuel (pre ++ enc_key wireType2 n ++ enc_bytes (enc a))).
    rewrite <-!app_assoc in IH. rewrite IH; [done|simpl in Hfuel; lia|done|len_lia].
Qed.

Lemma Reads_repeated data :
  Forall (λ a, PReads rd (enc_bytes (enc a)) a) data →
  Reads n (n + 1) (read_repeated rd n) (enc_repeated enc n data) data.
Proof.
  intros Hdata. split.
  - intros tail Ht. destruct data as [|a data]; [cbn|rewrite enc_repeated_cons].
    { eapply starts_from_mono; [|done]. lia. }
    unfold enc_Bytes. rewrite <-!app_assoc. apply starts_from_key; [done|by right].
  - intros pre tail beyond Hlen Ht. unfold read_repeated.
    apply repeated_loop_reads; [done| |done|done].
    pose proof (length_enc_repeated enc n data Hn). cbn [r_data]. rewrite !length_app. lia.
Qed.
End repeated.

Lemma Reads_ReadBytesArray n data :
  field_ok n → Reads n (n + 1) (ReadBytesArray n) (enc_repeated id n data) data.
Proof.
  intros Hn. apply Reads_repeated; [done|]. apply Forall_true. intros. apply PReads_readBytes.
Qed.

Lemma Reads_ReadStrings `{Norm, !NormLaws} n data :
  field_ok n → Forall string_ok data →
  Reads n (n + 1) (ReadStrings n) (enc_repeated NFC_String n data) data.
Proof.
  intros Hn Hd. apply Reads_repeated; [done|]. eapply Forall_impl; [done|].
  intros s Hs. rewrite NFC_normal by apply Hs. by apply PReads_readString.
Qed.

(** A nested message, decoded by a reader that ends with it. *)
Lemma PReads_nested {A} lo hi (dec : Reader → res (A * Reader)) enc a :
  Reads lo hi dec enc a → PReads (read_nested dec) (enc_bytes enc) a.
Proof.
  intros [_ Hdec] pre post e Hlen He. unfold read_nested, enc_bytes in *.
  rewrite <-app_assoc in *. destruct (len_u64 enc) as [Hu Hi]; [len_lia|]. rewrite Hu in *.
  rewrite (PReads_readUInt (len enc)) by (unfold u64_ok; len_lia). cbn [mbind res_bind].
  cbn [r_index r_data]. rewrite Hi, i64_small by (unfold i64_ok; len_lia).
  specialize (Hdec (pre ++ PutUvarint (len enc)) [] post ltac:(len_lia) ltac:(by left)).
  rewrite <-!app_assoc in Hdec. cbn [app] in Hdec. rewrite app_nil_r in Hdec.
  rewrite <-len_app, <-app_assoc. rewrite Hdec. done.
Qed.

Lemma Reads_ReadDecodable {A} lo hi n zero (dec : Reader → res (A * Reader)) strict enc a :
  field_ok n → Reads lo hi dec enc a →
  Reads n (n + 1) (ReadDecodable n zero dec strict) (enc_Bytes n enc) a.
Proof. intros. eapply Reads_field; [done|by right|]. by eapply PReads_nested. Qed.

Lemma Reads_ReadDecodables {A} lo hi n (dec : Reader → res (A * Reader)) (enc : A → bytes) data :
  field_ok n → Forall (λ a, Reads lo hi dec (enc a) a) data →
  Reads n (n + 1) (ReadDecodables n dec) (enc_repeated enc n data) data.
Proof.
  intros Hn Hd. apply Reads_repeated; [done|]. eapply Forall_impl; [done|].
  intros a. apply PReads_nested.
Qed.

Section packed.
Context {A : Type} (rd : Reader → res (A * Reader)) (enc : A → bytes) (n : Z).
Context (Hn : field_ok n).

Lemma packed_loop_reads data fuel pre post e :
  Forall (λ a, PReads rd (enc a) a ∧ 1 ≤ len (enc a)) data → (length data ≤ fuel)%nat →
  let buf := pre ++ concat (enc <$> data) ++ post in
  len buf < 2 ^ 63 → len (pre ++ concat (enc <$> data)) ≤ e →
  packed_loop fuel rd (len (pre ++ concat (enc <$> data))) (rd_at pre e buf)
  = Ok (data, rd_at (pre ++ concat (enc <$> data)) e buf).
Proof.
  intros Hdata. revert fuel pre.
  induction Hdata as [|a data [Ha Hpos] Hdata IH]; intros fuel pre Hfuel buf Hlen He;
    subst buf; cbn [fmap list_fmap concat app] in *.
  - rewrite app_nil_r. destruct fuel; cbn [packed_loop r_index];
      (destruct (Z.ltb_spec (len pre) (len pre)); [lia|done]).
  - change (list_fmap A bytes enc data) with (enc <$> data) in *.
    destruct fuel as [|fuel]; [simpl in Hfuel; lia|]. cbn [packed_loop r_index].
    destruct (Z.ltb_spec (len pre) (len (pre ++ enc a ++ concat (enc <$> data)))); [|len_lia].
    rewrite <-!app_assoc in *. rewrite Ha by len_lia. cbn [mbind res_bind].
    specialize (IH fuel (pre ++ enc a)). rewrite <-!app_assoc in IH.
    rewrite IH; [done|simpl in Hfuel; lia|len_lia|len_lia].
Qed.

Lemma Reads_packed data :
  Forall (λ a, PReads rd (enc a) a ∧ 1 ≤ len (enc a)) data →
  Reads n (n + 1) (read_packed rd n) (enc_packed enc n data) data.
Proof.
  intros Hdata. split.
  - intros tail Ht. unfold enc_packed. destruct data as [|a data]; simpl.
    { eapply starts_from_mono; [|done]. lia. }
    unfold enc_Bytes. rewrite <-!app_assoc. apply starts_from_key; [done|by right].
  - intros pre tail beyond Hlen Ht. unfold read_packed, enc_packed in *. destruct data as [|a data].
    { destruct (check_missing pre n wireType2 tail beyond Ht) as (err & Hc & Hs).
      cbn [app]. rewrite len_app, Hc, Hs. by rewrite app_nil_r. }
    set (payload := concat (enc <$> (a :: data))) in *.
    assert (length (a :: data) ≤ length payload)%nat as Hpay.
    { subst payload. clear -Hdata. induction Hdata as [|x l [_ Hx] _ IH]; [simpl; lia|].
      rewrite fmap_cons. cbn [concat length]. rewrite length_app. unfold len in Hx. lia. }
    pose proof (enc_key_bounds wireType2 n ltac:(by right) Hn).
    unfold enc_Bytes, enc_bytes in *. rewrite <-!app_assoc in *.
    rewrite check_own by (done || (by right) || len_lia).
    destruct (len_u64 payload) as [Hu Hi]; [len_lia|]. rewrite Hu in *.
    pose proof (PReads_readUInt (len payload) ltac:(unfold u64_ok; len_lia)
      (pre ++ enc_key wireType2 n) (payload ++ tail ++ beyond)) as Hrd.
    rewrite <-!app_assoc in Hrd. rewrite Hrd by len_lia. cbn [mbind res_bind r_index r_data].
    rewrite Hi, <-len_app, i64_small by (unfold i64_ok; len_lia).
    pose proof (packed_loop_reads (a :: data)
      (S (length (pre ++ enc_key wireType2 n ++ PutUvarint (len payload) ++ payload ++ tail ++ beyond)))
      (pre ++ enc_key wireType2 n ++ PutUvarint (len payload)) (tail ++ beyond)
      (len (pre ++ enc_key wireType2 n ++ PutUvarint (len payload) ++ payload ++ tail))
      Hdata) as Hl.
    cbv zeta in Hl. fold payload in Hl. rewrite <-!app_assoc in Hl. rewrite <-!app_assoc.
    apply Hl; [rewrite !length_app; lia|len_lia|len_lia].
Qed.
End packed.

Lemma Reads_ReadUInts n data :
  field_ok n → Forall u64_ok data →
  Reads n (n + 1) (ReadUInts n) (enc_packed PutUvarint n data) data.
Proof.
  intros Hn Hd. apply Reads_packed; [done|]. eapply Forall_impl; [done|].
  intros x Hx. split; [by apply PReads_readUInt|by apply PutUvarint_bounds].
Qed.

Lemma Reads_ReadInts n data :
  field_ok n → Forall (λ x, i64_ok x ∧ x ≠ MinInt64) data →
  Reads n (n + 1) (ReadInts n) (enc_packed PutVarint n data) data.
Proof.
  intros Hn Hd. apply Reads_packed; [done|]. eapply Forall_impl; [done|].
  intros x [Hx Hm]. split; [by apply PReads_readInt|]. rewrite zigzag by done.
  apply PutUvarint_bounds. unfold i64_ok, u64_ok in *. case_match; zbool; lia.
Qed.

Lemma Reads_ReadBools n data :
  field_ok n →
  Reads n (n + 1) (ReadBools n) (enc_packed (λ b : bool, [if b then 1 else 0]) n data) data.
Proof.
  intros Hn. apply Reads_packed; [done|]. apply Forall_true.
  intros b. split; [apply PReads_readBool|]. len_lia.
Qed.

(** ** Whole messages *)

(** The generated [Decode]: [DecodeFromReader] on a fresh reader. *)
Definition Decode {A} (dec : Reader → res (A * Reader)) (data : bytes) : res A :=
  '(a, _) ← dec (NewReader data); Ok a.

(** The generated [DecodeStrict]: all the bytes must be read. *)
Definition DecodeStrict {A} (dec : Reader → res (A * Reader)) (data : bytes) : res A :=
  '(a, r) ← dec (NewReader data);
  if HasUnreadBytes r then Err ErrUnreadBytes else Ok a.

Section message.
Context {A : Type} (lo hi : Z) (dec : Reader → res (A * Reader)) (enc : bytes) (a : A).
Context (Hdec : Reads lo hi dec enc a) (Hlen : len enc < 2 ^ 63).

Lemma Reads_NewReader : dec (NewReader enc) = Ok (a, mkReader (len enc) (len enc) enc).
Proof.
  destruct Hdec as [_ H]. specialize (H [] [] []). cbn [app] in H.
  rewrite !app_nil_r in H. by apply H; [|left].
Qed.

Lemma Decode_Encode : Decode dec enc = Ok a.
Proof. unfold Decode. by rewrite Reads_NewReader. Qed.

Lemma DecodeStrict_Encode : DecodeStrict dec enc = Ok a.
Proof.
  unfold DecodeStrict. rewrite Reads_NewReader. cbn [mbind res_bind].
  unfold HasUnreadBytes. cbn [r_index r_end]. by rewrite Z.eqb_refl.
Qed.
End message.

(** ** Arbitrary input: no panic, no endless loop *)

Definition reader_ok (r : Reader) : Prop :=
  bytes_ok (r_data r) ∧ 0 ≤ r_index r ≤ len (r_data r) ∧ len (r_data r) < 2 ^ 63.

(** The reader moved forward by at least [d] bytes of the same buffer. *)
Definition advanced (d : Z) (r r' : Reader) : Prop :=
  r_data r' = r_data r ∧ r_end r' = r_end r ∧
  r_index r + d ≤ r_index r' ≤ len (r_data r).

Definition returns {A} (P : A → Prop) (x : res A) : Prop :=
  match x with Ok a => P a | Err _ => True | Panic => False | OutOfFuel => False end.

Definition Total {A} (d : Z) (rd : Reader → res (A * Reader)) : Prop :=
  ∀ r, reader_ok r → returns (λ '(_, r'), advanced d r r') (rd r).

Lemma reader_ok_advanced d r r' : 0 ≤ d → reader_ok r → advanced d r r' → reader_ok r'.
Proof.
  intros Hd (? & ? & ?) (Hdata & _ & ?). unfold reader_ok. rewrite Hdata. split_and!; try done; lia.
Qed.

Lemma returns_mono {A} (P Q : A → Prop) x : (∀ a, P a → Q a) → returns P x → returns Q x.
Proof. destruct x; simpl; auto. Qed.

Lemma returns_bind {A B} (P : A → Prop) (Q : B → Prop) x (f : A → res B) :
  returns P x → (∀ a, P a → returns Q (f a)) → returns Q (x ≫= f).
Proof. destruct x; simpl; auto. Qed.

Lemma advanced_trans d1 d2 r r1 r2 :
  advanced d1 r r1 → advanced d2 r1 r2 → advanced (d1 + d2) r r2.
Proof. intros (Ha & Hb & ?) (Hc & Hd & ?). unfold advanced. rewrite Hc, Hd, Ha, Hb in *. split_and!; (done || lia). Qed.

Lemma advanced_mono d d' r r' : d' ≤ d → advanced d r r' → advanced d' r r'.
Proof. intros ? (? & ? & ?). split_and!; (done || lia). Qed.

Lemma Total_mono {A} d d' (rd : Reader → res (A * Reader)) : d' ≤ d → Total d rd → Total d' rd.
Proof.
  intros ? H r Hr. eapply returns_mono; [|by apply H]. intros [a r']. by apply advanced_mono.
Qed.

Lemma Total_ret {A} (a : A) : Total 0 (λ r, Ok (a, r)).
Proof. intros r (? & ? & ?). simpl. split_and!; (done || lia). Qed.

Lemma Total_bind {A B} d1 d2 rd (k : A → Reader → res (B * Reader)) :
  0 ≤ d1 → Total d1 rd → (∀ a, Total d2 (k a)) →
  Total (d1 + d2) (λ r, '(x, r) ← rd r; k x r).
Proof.
  intros Hd H1 H2 r Hr. eapply returns_bind; [by apply H1|]. intros [a r1] Hr1.
  eapply returns_mono; [|apply H2; by eapply reader_ok_advanced].
  intros [b r2]. by apply advanced_trans.
Qed.

Lemma Total_bind0 {A B} rd (k : A → Reader → res (B * Reader)) :
  Total 0 rd → (∀ a, Total 0 (k a)) → Total 0 (λ r, '(x, r) ← rd r; k x r).
Proof. intros. change 0 with (0 + 0). by apply Total_bind. Qed.

Lemma readUint_total data offset :
  bytes_ok data → 0 ≤ offset ≤ len data →
  returns (λ '(v, m), u64_ok v ∧ 1 ≤ m ∧ offset + m ≤ len data) (readUint data offset).
Proof.
  intros Hd Hoff. destruct (readUint data offset) as [[v m]|e| |] eqn:E; simpl; try done.
  - pose proof (readUint_canonical _ _ _ _ Hd (proj1 Hoff) E) as (Hv & -> & post & Hdrop).
    pose proof (PutUvarint_bounds v Hv). split_and!; [done|lia|].
    apply (f_equal length) in Hdrop. rewrite length_drop, length_app in Hdrop.
    unfold len in *. lia.
  - unfold readUint in E. cbn [readUint_loop] in E. by repeat (case_match; try done).
  - unfold readUint in E. cbn [readUint_loop] in E. by repeat (case_match; try done).
Qed.

Lemma Total_readUInt : Total 1 readUInt.
Proof.
  intros r Hr. unfold readUInt.
  eapply returns_bind; [apply readUint_total; apply Hr|].
  intros [v m] (_ & ? & ?). simpl. split_and!; (done || simpl; lia).
Qed.

Lemma readUInt_u64 r v r' : reader_ok r → readUInt r = Ok (v, r') → u64_ok v.
Proof.
  intros Hr. unfold readUInt. pose proof (readUint_total (r_data r) (r_index r) (proj1 Hr) (proj1 (proj2 Hr))) as H.
  destruct (readUint _ _) as [[w m]|e| |]; simpl in *; try done. intros [= <- <-]. apply H.
Qed.

Lemma Total_readInt : Total 1 readInt.
Proof.
  unfold readInt. change 1 with (1 + 0). apply Total_bind; [lia|apply Total_readUInt|].
  intros n. case_match; apply Total_ret.
Qed.

Lemma Total_readBytes : Total 1 readBytes.
Proof.
  intros r Hr. unfold readBytes. destruct (readUInt r) as [[size r1]|e| |] eqn:E;
    pose proof (Total_readUInt r Hr) as Ht; rewrite E in Ht; try done. simpl in Ht |- *.
  pose proof (readUInt_u64 _ _ _ Hr E) as [Hs0 Hs].
  pose proof (reader_ok_advanced 1 r r1 ltac:(lia) Hr Ht) as (_ & Hi & Hl).
  rewrite u64_small by (unfold u64_ok; lia).
  destruct (Z.ltb_spec (len (r_data r1) - r_index r1) size); [done|].
  rewrite i64_small by (unfold i64_ok; lia). unfold slice. rewrite decide_True by lia. simpl.
  destruct Ht as (Hd & He & ?). rewrite Hd in *. split_and!; (done || simpl; lia).
Qed.

Lemma Total_readString `{Norm} : Total 1 readString.
Proof.
  intros r Hr. unfold readString. eapply returns_bind; [by apply Total_readBytes|].
  intros [s r'] H'. by repeat (case_match; try done).
Qed.

Lemma Total_check n wt r : reader_ok r → returns (advanced 1 r) (check n wt r).
Proof.
  intros Hr. unfold check, peekKey. case_match; [done|].
  eapply (returns_bind (λ '(_, m), 1 ≤ m ∧ r_index r + m ≤ len (r_data r))).
  { eapply returns_bind; [apply readUint_total; apply Hr|]. intros [v m] (_ & ? & ?). done. }
  intros [key m] [? ?]. eapply (returns_bind (λ _, True)).
  { unfold readKey. by case_match. }
  intros [n' wt'] _. repeat (case_match; [done|]). split_and!; (done || simpl; lia).
Qed.

Lemma Total_read_field {A} wt (zero : A) rd n strict :
  Total 1 rd → Total 0 (read_field wt zero rd n strict).
Proof.
  intros H r Hr. unfold read_field. pose proof (Total_check n wt r Hr) as Hc.
  destruct (check n wt r) as [r1|e| |]; simpl in Hc; try done.
  - eapply returns_mono; [|apply H; eapply (reader_ok_advanced 1); (done || lia)].
    intros [a r2] Ha. eapply advanced_mono; [|eapply advanced_trans; done]. lia.
  - case_match; [done|]. case_match; [done|]. by apply Total_ret.
Qed.

Lemma Total_repeated_loop {A} (rd : Reader → res (A * Reader)) n fuel r :
  Total 1 rd → reader_ok r → len (r_data r) - r_index r < Z.of_nat fuel →
  returns (λ '(_, r'), advanced 0 r r') (repeated_loop fuel rd n r).
Proof.
  intros Hrd. revert r. induction fuel as [|fuel IH]; intros r Hr Hf.
  { destruct Hr as (_ & ? & _). lia. }
  cbn [repeated_loop]. case_match; [|by apply Total_ret].
  pose proof (Total_check n wireType2 r Hr) as Hc.
  destruct (check n wireType2 r) as [r1|e| |]; simpl in Hc; try done.
  2:{ case_match; [done|]. by apply Total_ret. }
  assert (reader_ok r1) by (eapply (reader_ok_advanced 1); (done || lia)).
  eapply returns_bind; [by apply Hrd|]. intros [a r2] Ha.
  pose proof (advanced_trans _ _ _ _ _ Hc Ha) as H2.
  eapply returns_bind.
  { apply (IH r2).
    - eapply (reader_ok_advanced 2); [lia| |done]. done.
    - destruct H2 as (Hd & _ & ?). rewrite Hd. lia. }
  intros [l r3] Hl. eapply advanced_mono; [|eapply advanced_trans; done]. lia.
Qed.

Lemma Total_read_repeated {A} (rd : Reader → res (A * Reader)) n :
  Total 1 rd → Total 0 (read_repeated rd n).
Proof.
  intros H r Hr. apply Total_repeated_loop; [done|done|].
  destruct Hr as (_ & ? & _). unfold len in *. lia.
Qed.

Lemma Total_packed_loop {A} (rd : Reader → res (A * Reader)) end_ fuel r :
  Total 1 rd → reader_ok r → len (r_data r) - r_index r < Z.of_nat fuel →
  returns (λ '(_, r'), advanced 0 r r') (packed_loop fuel rd end_ r).
Proof.
  intros Hrd. revert r. induction fuel as [|fuel IH]; intros r Hr Hf.
  { destruct Hr as (_ & ? & _). lia. }
  cbn [packed_loop]. case_match; [|by apply Total_ret].
  eapply returns_bind; [by apply Hrd|]. intros [a r2] Ha.
  eapply returns_bind.
  { apply (IH r2); [eapply (reader_ok_advanced 1); (done || lia)|].
    destruct Ha as (Hd & _ & ?). rewrite Hd. lia. }
  intros [l r3] Hl. eapply advanced_mono; [|eapply advanced_trans; done]. lia.
Qed.

Lemma Total_read_packed {A} (rd : Reader → res (A * Reader)) n :
  Total 1 rd → Total 0 (read_packed rd n).
Proof.
  intros H r Hr. unfold read_packed. pose proof (Total_check n wireType2 r Hr) as Hc.
  destruct (check n wireType2 r) as [r1|e| |]; simpl in Hc; try done.
  2:{ case_match; [done|]. by apply Total_ret. }
  assert (reader_ok r1) as Hr1 by (eapply (reader_ok_advanced 1); (done || lia)).
  eapply returns_bind; [by apply Total_readUInt|]. intros [size r2] H2.
  eapply returns_mono; [|apply Total_packed_loop; [done|..]].
  - intros [l r3] H3. eapply advanced_mono; [|eapply advanced_trans; [done|eapply advanced_trans; done]]. lia.
  - eapply (reader_ok_advanced 1); [lia|done|done].
  - destruct (reader_ok_advanced 1 r1 r2 ltac:(lia) Hr1 H2) as (_ & ? & _). unfold len in *. lia.
Qed.

Lemma Total_nested {A} (dec : Reader → res (A * Reader)) :
  Total 0 dec → Total 1 (read_nested dec).
Proof.
  intros Hdec r Hr. unfold read_nested.
  eapply returns_bind; [by apply Total_readUInt|]. intros [size r1] H1.
  pose proof (reader_ok_advanced 1 r r1 ltac:(lia) Hr H1) as Hr1.
  eapply returns_bind; [by apply Hdec|]. intros [a r2] H2.
  destruct H1 as (Hd1 & He1 & ?), H2 as (Hd2 & _ & ?). simpl in *. rewrite Hd1 in *.
  split_and!; (done || simpl; lia).
Qed.

Lemma Total_ReadUInt n strict : Total 0 (ReadUInt n strict).
Proof. apply Total_read_field, Total_readUInt. Qed.
Lemma Total_ReadUInt32 n strict : Total 0 (ReadUInt32 n strict).
Proof. apply Total_bind0; [apply Total_ReadUInt|intros; apply Total_ret]. Qed.
Lemma Total_ReadInt n strict : Total 0 (ReadInt n strict).
Proof. apply Total_read_field, Total_readInt. Qed.
Lemma Total_ReadInt32 n strict : Total 0 (ReadInt32 n strict).
Proof. apply Total_bind0; [apply Total_ReadInt|intros; apply Total_ret]. Qed.
Lemma Total_ReadBytes n strict : Total 0 (ReadBytes n strict).
Proof. apply Total_read_field, Total_readBytes. Qed.
Lemma Total_ReadString `{Norm} n strict : Total 0 (ReadString n strict).
Proof. apply Total_read_field, Total_readString. Qed.
Lemma Total_ReadBytesArray n : Total 0 (ReadBytesArray n).
Proof. apply Total_read_repeated, Total_readBytes. Qed.
Lemma Total_ReadStrings `{Norm} n : Total 0 (ReadStrings n).
Proof. apply Total_read_repeated, Total_readString. Qed.
Lemma Total_ReadUInts n : Total 0 (ReadUInts n).
Proof. apply Total_read_packed, Total_readUInt. Qed.
Lemma Total_ReadDecodable {A} n zero (dec : Reader → res (A * Reader)) strict :
  Total 0 dec → Total 0 (ReadDecodable n zero dec strict).
Proof. intros. by apply Total_read_field, Total_nested. Qed.
Lemma Total_ReadDecodables {A} n (dec : Reader → res (A * Reader)) :
  Total 0 dec → Total 0 (ReadDecodables n dec).
Proof. intros. by apply Total_read_repeated, Total_nested. Qed.

#[export] Hint Resolve Total_ReadUInt Total_ReadUInt32 Total_ReadInt Total_ReadInt32 Total_ReadBytes
  Total_ReadString Total_ReadBytesArray Total_ReadStrings Total_ReadUInts
  Total_ReadDecodable Total_ReadDecodables Total_ret : go.

(** Proves [Total 0] of a decoder, one field at a time. *)
Ltac solve_total :=
  intros; repeat first
    [ progress auto with go
    | apply Total_bind0; [auto with go|intros] ].

Lemma NewReader_ok data : bytes_ok data → len data < 2 ^ 63 → reader_ok (NewReader data).
Proof. intros. unfold reader_ok, NewReader. simpl. pose proof (len_nonneg data). split_and!; (done || lia). Qed.

Lemma Total_DecodeStrict {A} (dec : Reader → res (A * Reader)) data :
  Total 0 dec → bytes_ok data → len data < 2 ^ 63 →
  returns (λ _, True) (DecodeStrict dec data).
Proof.
  intros H Hd Hl. unfold DecodeStrict. eapply returns_bind; [by apply H, NewReader_ok|].
  intros [a r] _. by case_match.
Qed.

Lemma Total_Decode {A} (dec : Reader → res (A * Reader)) data :
  Total 0 dec → bytes_ok data → len data < 2 ^ 63 →
  returns (λ _, True) (Decode dec data).
Proof.
  intros H Hd Hl. unfold Decode. eapply returns_bind; [by apply H, NewReader_ok|]. by intros [a r] _.
Qed.

(** ** What is accepted is what the writer would have written *)

(** Between [r] and [r'] stand exactly the bytes [e]. *)
Definition consumed (r r' : Reader) (e : bytes) : Prop :=
  r_data r' = r_data r ∧ r_end r' = r_end r ∧
  ∃ pre post, r_data r = pre ++ e ++ post ∧ r_index r = len pre ∧ r_index r' = len (pre ++ e).

Definition Canon {A} (rd : Reader → res (A * Reader)) (enc : A → bytes) : Prop :=
  ∀ r a r', reader_ok r → rd r = Ok (a, r') → consumed r r' (enc a).

Lemma consumed_trans r r1 r2 e1 e2 :
  consumed r r1 e1 → consumed r1 r2 e2 → consumed r r2 (e1 ++ e2).
Proof.
  intros (Hd1 & He1 & pre & post & Hb & Hi & Hi1) (Hd2 & He2 & pre2 & post2 & Hb2 & Hi2 & Hi3).
  unfold consumed. rewrite Hd2, He2, Hd1, He1. split_and!; [done..|].
  exists pre, post2. rewrite Hd1, Hb, app_assoc in Hb2.
  assert (pre ++ e1 = pre2 ∧ post = e2 ++ post2) as [<- ->].
  { apply app_inj_1; [|done]. unfold len in *. lia. }
  rewrite Hb, <-app_assoc, Hi, Hi3, <-app_assoc. done.
Qed.

Lemma consumed_nil r : reader_ok r → consumed r r [].
Proof.
  intros (_ & ? & _). split_and!; [done..|].
  exists (take (Z.to_nat (r_index r)) (r_data r)), (drop (Z.to_nat (r_index r)) (r_data r)).
  rewrite app_nil_r. cbn [app]. rewrite take_drop. unfold len in *. rewrite length_take.
  split_and!; (done || lia).
Qed.

Lemma reader_ok_consumed r r' e : reader_ok r → consumed r r' e → reader_ok r'.
Proof.
  intros (? & ? & ?) (Hd & _ & pre & post & Hb & _ & Hi). unfold reader_ok. rewrite Hd, Hi.
  split_and!; try done; rewrite ?Hb; len_lia.
Qed.

Lemma drop_split (data : bytes) i e post :
  0 ≤ i ≤ len data → drop (Z.to_nat i) data = e ++ post →
  data = take (Z.to_nat i) data ++ e ++ post ∧ i = len (take (Z.to_nat i) data).
Proof.
  intros Hi Hdrop. rewrite <-Hdrop, take_drop. split; [done|].
  unfold len in *. rewrite length_take. lia.
Qed.

Lemma Canon_readUInt : Canon readUInt PutUvarint.
Proof.
  intros r a r' (Hd & Hi & Hl). unfold readUInt.
  destruct (readUint _ _) as [[v m]|e| |] eqn:E; try done. simpl. intros [= <- <-].
  apply readUint_canonical in E as (Hv & -> & post & Hdrop); [|done|lia].
  apply drop_split in Hdrop as [Hb Hlen]; [|done]. split_and!; [done..|].
  eexists _, post. split_and!; [done|done|]. simpl. rewrite len_app. lia.
Qed.

Lemma Canon_readBytes : Canon readBytes enc_bytes.
Proof.
  intros r a r' Hr. unfold readBytes.
  destruct (readUInt r) as [[size r1]|e| |] eqn:E; try done. cbn [mbind res_bind].
  pose proof (readUInt_u64 _ _ _ Hr E) as [Hs0 Hs].
  apply Canon_readUInt in E; [|done]. pose proof (reader_ok_consumed _ _ _ Hr E) as (_ & Hi & Hl).
  rewrite u64_small by (unfold u64_ok; lia).
  destruct (Z.ltb_spec (len (r_data r1) - r_index r1) size); [done|].
  rewrite i64_small by (unfold i64_ok; lia). unfold slice. rewrite decide_True by lia.
  cbn [mbind res_bind]. intros [= <- <-].
  replace (Z.to_nat (r_index r1 + size - r_index r1)) with (Z.to_nat size) by lia.
  set (a := take (Z.to_nat size) (drop (Z.to_nat (r_index r1)) (r_data r1))).
  assert (len a = size) as Ha.
  { subst a. unfold len in *. rewrite length_take, length_drop. lia. }
  unfold enc_bytes. rewrite Ha, u64_small by done. eapply consumed_trans; [done|].
  destruct (drop_split (r_data r1) (r_index r1) a
    (drop (Z.to_nat size) (drop (Z.to_nat (r_index r1)) (r_data r1)))) as [Hb Hlen].
  { done. }
  { subst a. by rewrite take_drop. }
  split_and!; [done..|]. eexists _, _. split_and!; [exact Hb|done|].
  simpl. rewrite len_app. lia.
Qed.

Lemma Canon_readString `{Norm, !NormLaws} : Canon readString (λ s, enc_bytes (NFC_String s)).
Proof.
  intros r a r' Hr. unfold readString.
  destruct (readBytes r) as [[s r1]|e| |] eqn:E; try done. cbn [mbind res_bind].
  destruct (utf8_valid s); [|done]. destruct (NFC_IsNormal s) eqn:Hn; [|done].
  intros [= <- <-]. rewrite NFC_normal by done. by apply Canon_readBytes.
Qed.

Lemma consumed_check n wt r r' :
  field_ok n → wire_ok wt → reader_ok r → check n wt r = Ok r' → consumed r r' (enc_key wt n).
Proof.
  intros Hn Hwt (Hd & Hi & Hl). unfold check, peekKey. case_match; [done|].
  destruct (readUint _ _) as [[v m]|e| |] eqn:E; try done. cbn [mbind res_bind].
  apply readUint_canonical in E as ([Hv0 Hv] & -> & post & Hdrop); [|done|lia].
  unfold readKey. case_match; [done|]. cbn [mbind res_bind].
  destruct (Z.eqb_spec (Z.shiftr (i64 v) 3) n) as [Hk|]; [|done].
  destruct (Z.eqb_spec (Z.land (i64 v) 7) wt) as [Hw|]; [|done].
  intros [= <-]. apply drop_split in Hdrop as [Hb Hlen]; [|done].
  assert (v = n * 8 + wt) as Hval.
  { change 7 with (Z.ones 3) in Hw. rewrite Z.land_ones in Hw by lia.
    rewrite Z.shiftr_div_pow2 in Hk by lia. change (2 ^ 3) with 8 in *.
    pose proof (Z.div_mod (i64 v) 8 ltac:(lia)).
    assert (i64 v = n * 8 + wt) as Hiv by lia.
    unfold i64 in Hiv. unfold field_ok, wire_ok, wireType0, wireType2 in *.
    pose proof (Z.div_mod (v + 2 ^ 63) (2 ^ 64) ltac:(lia)).
    pose proof (Z.mod_pos_bound (v + 2 ^ 63) (2 ^ 64) ltac:(lia)). nia. }
  split_and!; [done..|]. unfold enc_key, getKey. rewrite getKey_value, <-Hval by done.
  eexists _, post. split_and!; [done|done|]. simpl. rewrite len_app. lia.
Qed.

(** Strict reading of one field; the non-strict form accepts a missing field,
    which the writer always writes. *)
Lemma Canon_read_field {A} wt (zero : A) rd enc n :
  field_ok n → wire_ok wt → Canon rd enc →
  Canon (read_field wt zero rd n true) (λ a, enc_key wt n ++ enc a).
Proof.
  intros Hn Hwt Hrd r a r' Hr. unfold read_field.
  destruct (check n wt r) as [r1|e| |] eqn:E; try done; [|by case_match].
  intros H. apply consumed_check in E; [|done..].
  eapply consumed_trans; [done|]. eapply Hrd; [|done]. by eapply reader_ok_consumed.
Qed.

Lemma Canon_repeated {A} (rd : Reader → res (A * Reader)) enc n :
  field_ok n → Canon rd (λ a, enc_bytes (enc a)) →
  Canon (read_repeated rd n) (enc_repeated enc n).
Proof.
  intros Hn Hrd r l r' Hr. unfold read_repeated. generalize (S (length (r_data r))). intros fuel.
  revert r l r' Hr. induction fuel as [|fuel IH]; intros r l r' Hr; cbn [repeated_loop].
  { case_match; [done|]. intros [= <- <-]. by apply consumed_nil. }
  case_match; [|intros [= <- <-]; by apply consumed_nil].
  destruct (check n wireType2 r) as [r1|e| |] eqn:E; try done.
  2:{ case_match; [done|]. intros [= <- <-]. by apply consumed_nil. }
  apply consumed_check in E; [|done|by right|done].
  pose proof (reader_ok_consumed _ _ _ Hr E) as Hr1.
  destruct (rd r1) as [[a r2]|e| |] eqn:E2; try done. cbn [mbind res_bind].
  apply Hrd in E2; [|done]. pose proof (reader_ok_consumed _ _ _ Hr1 E2) as Hr2.
  destruct (repeated_loop fuel rd n r2) as [[l' r3]|e| |] eqn:E3; try done. cbn [mbind res_bind].
  intros [= <- <-]. apply IH in E3; [|done]. rewrite enc_repeated_cons. unfold enc_Bytes.
  eapply consumed_trans; [|done]. by eapply consumed_trans.
Qed.

Lemma Canon_bind {A B} rd (k : A → Reader → res (B * Reader)) enc1 (enc2 : A → B → bytes) r b r' :
  Canon rd enc1 → (∀ a, Canon (k a) (enc2 a)) → reader_ok r →
  ('(x, r) ← rd r; k x r) = Ok (b, r') →
  ∃ a, consumed r r' (enc1 a ++ enc2 a b).
Proof.
  intros H1 H2 Hr. destruct (rd r) as [[a r1]|e| |] eqn:E; try done. cbn [mbind res_bind].
  intros H. exists a. apply H1 in E; [|done].
  eapply consumed_trans; [done|]. eapply H2; [|done]. by eapply reader_ok_consumed.
Qed.

Section canon_fields.
Context (n : Z) (Hn : field_ok n).

Lemma Canon_ReadUInt : Canon (ReadUInt n true) (enc_UInt n).
Proof. apply Canon_read_field; [done|by left|apply Canon_readUInt]. Qed.

Lemma Canon_ReadBytes : Canon (ReadBytes n true) (enc_Bytes n).
Proof. apply Canon_read_field; [done|by right|apply Canon_readBytes]. Qed.

Lemma Canon_ReadString `{Norm, !NormLaws} :
  Canon (ReadString n true) (λ s, enc_Bytes n (NFC_String s)).
Proof. apply (Canon_read_field _ _ _ (λ s, enc_bytes (NFC_String s))); [done|by right|apply Canon_readString]. Qed.

Lemma Canon_ReadBytesArray : Canon (ReadBytesArray n) (enc_repeated id n).
Proof. apply (Canon_repeated readBytes id); [done|apply Canon_readBytes]. Qed.
End canon_fields.

(** A strictly decoded message that consumed [e] is [e]. *)
Lemma consumed_all data e r :
  consumed (NewReader data) r e → HasUnreadBytes r = false → e = data.
Proof.
  intros (Hd & He & pre & post & Hb & Hi & Hi'). simpl in *. unfold HasUnreadBytes.
  rewrite negb_false_iff, Z.eqb_eq, He, Hi'. simpl. rewrite Hb, !len_app. intros Hlen.
  assert (len pre = 0) by done. assert (len post = 0) as Hp by lia.
  destruct pre; [|len_lia]. destruct post; [|len_lia]. by rewrite app_nil_r.
Qed.

(** ** Behaviours the contract excludes *)

(** The least [int64] is written as the largest code, which the reader turns
    into zero: [res+1] wraps around. *)
Lemma readInt_MinInt64 :
  readInt (NewReader (PutVarint MinInt64)) = Ok (0, mkReader 10 10 (PutVarint MinInt64)).
Proof. vm_compute. reflexivity. Qed.

(** A truncated boolean field is a panic, not an error. *)
Lemma ReadBool_truncated strict : ReadBool 1 strict (NewReader (enc_key wireType0 1)) = Panic.
Proof. by destruct strict. Qed.
