(* ===== verification/Message.v ===== *)
(** * Message: the interface of the generated codecs

    [Message A] holds what the generator emits for a struct: [Encode] and
    [DecodeFromReader], where the flag selects [DecodeStrictFromReader].
    [MessageLaws A] is what a client may rely on: a well-formed message is read
    back, at the top level and nested.  Types and instances are in the files
    of the packages that declare them. *)

From S2P Require Import Prelude Codec CodecSpec.

Class Message (A : Type) := {
  Encode : A → bytes;
  DecodeFromReader : bool → Reader → res (A * Reader);
  msg_ok : A → Prop;
}.

Class MessageLaws (A : Type) `{Message A} := {
  Message_reads :
    ∃ hi, ∀ strict a, msg_ok a → Reads 1 hi (DecodeFromReader strict) (Encode a) a;
}.

(** The generated [Decode] and [DecodeStrict] methods. *)
Definition Message_Decode `{Message A} (data : bytes) : res A :=
  Decode (DecodeFromReader false) data.
Definition Message_DecodeStrict `{Message A} (data : bytes) : res A :=
  DecodeStrict (DecodeFromReader true) data.

(** The generated [MustDecode] panics on an error. *)
Definition Message_MustDecode `{Message A} (data : bytes) : res A :=
  match Message_Decode data with Err _ => Panic | x => x end.

Section laws.
Context `{MessageLaws A}.

Lemma Message_Decode_Encode (a : A) :
  msg_ok a → len (Encode a) < 2 ^ 63 → Message_Decode (Encode a) = Ok a.
Proof.
  intros Ha Hl. destruct Message_reads as [hi Hr]. eapply Decode_Encode; [by apply Hr|done].
Qed.

Lemma Message_DecodeStrict_Encode (a : A) :
  msg_ok a → len (Encode a) < 2 ^ 63 → Message_DecodeStrict (Encode a) = Ok a.
Proof.
  intros Ha Hl. destruct Message_reads as [hi Hr].
  eapply DecodeStrict_Encode; [by apply Hr|done].
Qed.

(** Well-formed messages have distinct encodings. *)
Lemma Message_Encode_inj (a b : A) :
  msg_ok a → msg_ok b → len (Encode a) < 2 ^ 63 → Encode a = Encode b → a = b.
Proof.
  intros Ha Hb Hl He. pose proof (Message_Decode_Encode a Ha Hl) as H1.
  rewrite He in H1. rewrite Message_Decode_Encode in H1; [congruence|done|by rewrite <-He].
Qed.
End laws.

(** ** Automation for the instances *)

Lemma Reads_seq {A B} n m hi rd (k : A → Reader → res (B * Reader)) enc1 enc2 a b :
  Reads n (n + 1) rd enc1 a → Reads m hi (k a) enc2 b → n + 1 ≤ m →
  Reads n hi (λ r, '(x, r) ← rd r; k x r) (enc1 ++ enc2) b.
Proof. intros H1 H2 Hm. eapply Reads_bind; [done|]. by eapply Reads_mono. Qed.

Lemma Reads_nil {A} lo hi (rd : Reader → res (A * Reader)) enc a :
  Reads lo hi rd (enc ++ []) a → Reads lo hi rd enc a.
Proof. by rewrite app_nil_r. Qed.

#[global] Arguments WriteBytes : simpl never.
#[global] Arguments WriteBytesArray : simpl never.
#[global] Arguments WriteString : simpl never.
#[global] Arguments WriteStrings : simpl never.
#[global] Arguments WriteBool : simpl never.
#[global] Arguments WriteUInt : simpl never.
#[global] Arguments WriteUInt32 : simpl never.
#[global] Arguments WriteInt : simpl never.
#[global] Arguments WriteInt32 : simpl never.
#[global] Arguments WriteBools : simpl never.
#[global] Arguments WriteUInts : simpl never.
#[global] Arguments WriteUInt32s : simpl never.
#[global] Arguments WriteInts : simpl never.
#[global] Arguments WriteEncodable : simpl never.
#[global] Arguments ReadUInt : simpl never.
#[global] Arguments ReadUInt32 : simpl never.
#[global] Arguments ReadInt : simpl never.
#[global] Arguments ReadInt32 : simpl never.
#[global] Arguments ReadBool : simpl never.
#[global] Arguments ReadBytes : simpl never.
#[global] Arguments ReadString : simpl never.
#[global] Arguments ReadBytesArray : simpl never.
#[global] Arguments ReadStrings : simpl never.
#[global] Arguments ReadUInts : simpl never.
#[global] Arguments ReadDecodable : simpl never.
#[global] Arguments ReadDecodables : simpl never.

Create HintDb reads.
#[export] Hint Constants Opaque : reads.
#[export] Hint Resolve Reads_ReadUInt Reads_ReadUInt32 Reads_ReadInt32 Reads_ReadBool Reads_ReadBytes
  Reads_ReadString Reads_ReadBytesArray Reads_ReadStrings Reads_ReadUInts : reads.
#[export] Hint Extern 1 (field_ok _) => by vm_compute : reads.
#[export] Hint Extern 1 (Reads _ _ (ReadDecodables _ _) _ _) =>
  eapply Reads_ReadDecodables; [by vm_compute|eapply Forall_impl; [done|intros; eauto with reads]] : reads.
#[export] Hint Extern 1 (Reads _ _ (ReadDecodable _ _ _ _) _ _) =>
  eapply Reads_ReadDecodable; [by vm_compute|eauto with reads] : reads.

Ltac reads_fields :=
  first [ apply Reads_ret
        | eapply Reads_seq; [by eauto with reads|reads_fields|by vm_compute] ].

(** One field per [Reads_seq]; the last step rebuilds the record.  The goal is
    [Reads] of an unfolded decoder on an unfolded encoder, with the
    well-formedness conditions as hypothesis. *)
Ltac solve_reads :=
  repeat match goal with
  | H : _ ∧ _ |- _ => destruct H
  | H : ∃ _, _ |- _ => destruct H
  end;
  cbn in *; subst; unfold Result; cbn [fmap option_fmap option_map];
  autorewrite with writer; cbn [w_result NewWriter app];
  apply Reads_nil; rewrite <-?app_assoc;
  reads_fields.
