(* ===== verification/Crypto.v ===== *)
(** * Crypto: hashing and aggregation bits of pkg/crypto

    The theorems about hashed structures hold for any hash function with
    32-byte outputs: [Hasher] is the interface and [HashLaws] what it promises.
    [sha256] is the function crypto.go uses, executable, with its instance of
    the interface.  Ed25519 and BLS12-381 come from libraries outside the
    repository and are the parameters [Ed25519] and [BLS]; the code around
    them, aggregation bits and weighted thresholds, is modelled here. *)

From S2P Require Import Prelude Collection.

Definition HashLengh : Z := 32.
Definition EdPublicKeyLength : Z := 32.
Definition EdSignatureLength : Z := 64.
Definition BLSPublicKeyLength : Z := 48.
Definition BLSSignatureLength : Z := 96.

(** ** Hashing *)

Class Hasher := { Hash : bytes → bytes }.

Class HashLaws `{Hasher} := {
  Hash_len : ∀ key, len (Hash key) = HashLengh;
  Hash_ok : ∀ key, bytes_ok (Hash key);
}.

(** Two different inputs with the same hash. *)
Definition collision `{Hasher} (x y : bytes) : Prop := x ≠ y ∧ Hash x = Hash y.

(** No two of the given inputs collide. *)
Definition collision_free `{Hasher} (l : list bytes) : Prop := ∀ x y, x ∈ l → y ∈ l → ¬ collision x y.

Lemma collision_free_eq `{Hasher} l x y : collision_free l → x ∈ l → y ∈ l → Hash x = Hash y → x = y.
Proof.
  intros Hf Hx Hy E. destruct (decide (x = y)) as [|Hne]; [done|]. by destruct (Hf x y Hx Hy).
Qed.

Lemma collision_free_subset `{Hasher} l k : l ⊆ k → collision_free k → collision_free l.
Proof. intros Hs Hf x y Hx Hy. apply Hf; by apply Hs. Qed.

Lemma collision_free_NoDup `{Hasher} l : NoDup (Hash <$> remove_dups l) → collision_free l.
Proof.
  intros Hnd x y Hx%elem_of_remove_dups Hy%elem_of_remove_dups [Hne E]. apply Hne.
  apply list_elem_of_lookup in Hx as [i Hi], Hy as [j Hj].
  assert (i = j) as ->; [|congruence]. eapply NoDup_lookup; [exact Hnd|rewrite list_lookup_fmap, Hi; done|].
  rewrite list_lookup_fmap, Hj. cbn. by rewrite E.
Qed.

Definition GetAddress `{Hasher} (publicKey : bytes) : res bytes :=
  let publicKeyHash := Hash publicKey in slice publicKeyHash 0 20.

Lemma GetAddress_Ok `{HashLaws} pk : GetAddress pk = Ok (take 20 (Hash pk)).
Proof.
  unfold GetAddress, slice. rewrite Hash_len. unfold HashLengh. by rewrite decide_True by lia.
Qed.

(** ** crypto/sha256 *)

Module SHA256.

Definition rotr (x n : Z) : Z := Z.lor (Z.shiftr x n) (u32 (Z.shiftl x (32 - n))).

(** The constants are the first 32 fractional bits of the cube roots of the
    first 64 primes and of the square roots of the first eight. *)
Definition primes : list Z :=
  filter (λ p, forallb (λ d, negb (p mod d =? 0)) (seqZ 2 (p - 2))) (seqZ 2 310).

Fixpoint root3 (bits : nat) (r x : Z) : Z :=
  match bits with
  | O => r
  | S n => let r' := r + 2 ^ Z.of_nat n in root3 n (if r' ^ 3 <=? x then r' else r) x
  end.

Definition K : list Z :=
  Eval vm_compute in (λ p, u32 (root3 36 0 (p * 2 ^ 96))) <$> take 64 primes.

Definition H0 : list Z :=
  Eval vm_compute in (λ p, u32 (Z.sqrt (p * 2 ^ 64))) <$> take 8 primes.

Fixpoint words (l : bytes) : list Z :=
  match l with
  | a :: b :: c :: d :: l => (a * 2 ^ 24 + b * 2 ^ 16 + c * 2 ^ 8 + d) :: words l
  | _ => []
  end.

(** The last sixteen words, most recent first. *)
Definition extend (w : list Z) : Z :=
  let w15 := nth 14 w 0 in
  let w2 := nth 1 w 0 in
  let s0 := Z.lxor (Z.lxor (rotr w15 7) (rotr w15 18)) (Z.shiftr w15 3) in
  let s1 := Z.lxor (Z.lxor (rotr w2 17) (rotr w2 19)) (Z.shiftr w2 10) in
  u32 (nth 15 w 0 + s0 + nth 6 w 0 + s1).

Fixpoint schedule (n : nat) (w : list Z) : list Z :=
  match n with O => w | S n => schedule n (extend w :: w) end.

Definition round (s : list Z) (kw : Z) : list Z :=
  match s with
  | [a; b; c; d; e; f; g; h] =>
      let S1 := Z.lxor (Z.lxor (rotr e 6) (rotr e 11)) (rotr e 25) in
      let ch := Z.lxor (Z.land e f) (Z.land (0xffffffff - e) g) in
      let t1 := h + S1 + ch + kw in
      let S0 := Z.lxor (Z.lxor (rotr a 2) (rotr a 13)) (rotr a 22) in
      let maj := Z.lxor (Z.lxor (Z.land a b) (Z.land a c)) (Z.land b c) in
      [u32 (t1 + (S0 + maj)); a; b; c; u32 (d + t1); e; f; g]
  | _ => s
  end.

Definition compress (s : list Z) (block : bytes) : list Z :=
  let w := reverse (schedule 48 (reverse (words block))) in
  zip_with (λ a b, u32 (a + b)) s (foldl round s (zip_with Z.add K w)).

Definition pad (m : bytes) : bytes :=
  m ++ [0x80] ++ replicate (Z.to_nat ((55 - len m) mod 64)) 0 ++ Bytes.FromUint64 (u64 (8 * len m)).

Fixpoint blocks (fuel : nat) (s : list Z) (m : bytes) : list Z :=
  match fuel, m with
  | S fuel, _ :: _ => blocks fuel (compress s (take 64 m)) (drop 64 m)
  | _, _ => s
  end.

Definition digest (m : bytes) : bytes :=
  let p := pad m in concat (Bytes.FromUint32 <$> blocks (length p) H0 p).

(** FIPS 180-4 test vectors: the empty string and "abc". *)
Example digest_empty :
  take 8 (digest []) = [0xe3; 0xb0; 0xc4; 0x42; 0x98; 0xfc; 0x1c; 0x14].
Proof. vm_compute. reflexivity. Qed.

Example digest_abc :
  digest [0x61; 0x62; 0x63] =
  [0xba; 0x78; 0x16; 0xbf; 0x8f; 0x01; 0xcf; 0xea; 0x41; 0x41; 0x40; 0xde; 0x5d; 0xae; 0x22; 0x23;
   0xb0; 0x03; 0x61; 0xa3; 0x96; 0x17; 0x7a; 0x9c; 0xb4; 0x10; 0xff; 0x61; 0xf2; 0x00; 0x15; 0xad].
Proof. vm_compute. reflexivity. Qed.

Lemma length_round s kw : length s = 8%nat → length (round s kw) = 8%nat.
Proof. by do 9 (destruct s as [|? s]; [done|]). Qed.

Lemma length_foldl_round l s : length s = 8%nat → length (foldl round s l) = 8%nat.
Proof.
  revert s. induction l as [|kw l IH]; intros s Hs; [done|]. cbn [foldl]. by apply IH, length_round.
Qed.

Lemma length_blocks fuel s m : length s = 8%nat → length (blocks fuel s m) = 8%nat.
Proof.
  revert s m. induction fuel as [|fuel IH]; intros s m Hs; [done|]. cbn [blocks].
  destruct m as [|b m]; [done|]. apply IH. unfold compress.
  rewrite length_zip_with, length_foldl_round; lia.
Qed.
End SHA256.

Definition sha256 : Hasher := {| Hash := SHA256.digest |}.

Lemma sha256_laws : HashLaws (H := sha256).
Proof.
  split; intros key; cbn [Hash sha256]; unfold SHA256.digest.
  - pose proof (SHA256.length_blocks (length (SHA256.pad key)) SHA256.H0 (SHA256.pad key) eq_refl) as Hl.
    unfold HashLengh, len. rewrite length_concat.
    set (l := SHA256.blocks _ _ _) in *. clearbody l.
    do 9 (destruct l as [|? l]; [done|]). done.
  - set (l := SHA256.blocks _ _ _). clearbody l. induction l as [|x l IH]; [constructor|].
    rewrite fmap_cons. cbn [concat]. apply Forall_app. split; [|done]. apply Bytes.be_put_ok.
Qed.

(** A cheap hash function with the same length, to evaluate witnesses. *)
Definition toy_digest (key : bytes) : bytes :=
  let d := foldl (λ acc b, (acc * 257 + b + 1) mod 2 ^ 61) (len key) key in
  Bytes.FromUint64 d ++ Bytes.FromUint64 (len key) ++ replicate 16 7.

Definition toy_hash : Hasher := {| Hash := toy_digest |}.

Lemma toy_hash_laws : HashLaws (H := toy_hash).
Proof.
  split; intros key; cbn [Hash toy_hash]; unfold toy_digest.
  - unfold HashLengh. rewrite !len_app. unfold len. unfold Bytes.FromUint64.
    by rewrite !Bytes.length_be_put.
  - rewrite !Forall_app. split_and!; [apply Bytes.be_put_ok..|]. by repeat constructor.
Qed.

(** ** bls.go *)

(** github.com/supranational/blst: [BLS_Verify msg signature publicKey],
    [BLS_Aggregate signatures] on compressed points, and
    [BLS_FastAggregateVerify signature keys msg]. *)
Class BLS := {
  BLS_Verify : bytes → bytes → bytes → bool;
  BLS_Aggregate : list bytes → bytes;
  BLS_FastAggregateVerify : bytes → list bytes → bytes → bool;
}.

(** The correctness of the scheme: the aggregate of at least one valid
    signature verifies against the keys, in any order. *)
Class BLSLaws `{BLS} := {
  BLS_aggregate_verifies : ∀ msg (l : list (bytes * bytes)) keys,
    l ≠ [] → Forall (λ '(pk, sig), BLS_Verify msg sig pk = true) l → keys ≡ₚ l.*1 →
    BLS_FastAggregateVerify (BLS_Aggregate (l.*2)) keys msg = true;
}.

Module Bits.

Definition write (i : Z) (val : bool) (original : bytes) : res bytes :=
  let byteIndex := i / 8 in
  let bitIndex := i mod 8 in
  b ← index original byteIndex;
  let b' := if val then Z.lor b (Z.shiftl 1 bitIndex)
            else Z.land b (255 - Z.shiftl 1 bitIndex) in
  Ok (<[Z.to_nat byteIndex := b']> original).

Definition read (b : bytes) (i : Z) : res bool :=
  let byteIndex := i / 8 in
  let bitIndex := i mod 8 in
  x ← index b byteIndex;
  Ok (Z.shiftr x bitIndex mod 2 =? 1).

(** The bit as a mathematical object; [read] and [write] agree with it. *)
Definition bit (b : bytes) (i : Z) : bool :=
  match idx b (i / 8) with Some x => Z.testbit x (i mod 8) | None => false end.

Lemma read_bit b i : 0 ≤ i < 8 * len b → read b i = Ok (bit b i).
Proof.
  intros Hi. unfold read, bit, index.
  assert (0 ≤ i / 8 < len b) as Hr.
  { split; [apply Z.div_pos; lia|apply Z.div_lt_upper_bound; lia]. }
  apply idx_is_Some in Hr as [x Hx]. rewrite Hx. simpl. f_equal.
  by rewrite Z.testbit_odd, Zodd_mod.
Qed.

Lemma bit_index (b : bytes) i : 0 ≤ i < 8 * len b → 0 ≤ i / 8 < len b.
Proof. intros. split; [apply Z.div_pos; lia|apply Z.div_lt_upper_bound; lia]. Qed.

Lemma write_true b i :
  0 ≤ i < 8 * len b →
  ∃ b', write i true b = Ok b' ∧ len b' = len b ∧
    ∀ j, 0 ≤ j → bit b' j = (i =? j) || bit b j.
Proof.
  intros Hi. unfold write, index. pose proof (bit_index b i Hi) as Hr.
  destruct (proj2 (idx_is_Some b (i / 8)) Hr) as [x Hx]. rewrite Hx. cbn [mbind res_bind].
  eexists. split; [done|]. split; [unfold len; by rewrite length_insert|].
  intros j Hj. unfold bit. rewrite !idx_nonneg in * by (apply Z.div_pos; lia).
  pose proof (Z.mod_pos_bound i 8 ltac:(lia)). pose proof (Z.mod_pos_bound j 8 ltac:(lia)).
  pose proof (Z.div_mod i 8 ltac:(lia)). pose proof (Z.div_mod j 8 ltac:(lia)).
  assert (0 ≤ j / 8) by (apply Z.div_pos; lia).
  destruct (decide (j / 8 = i / 8)) as [Hq|Hq].
  - rewrite Hq, list_lookup_insert_eq by (unfold len in *; lia). rewrite Hx, Z.lor_spec.
    destruct (Z.eqb_spec i j) as [->|Hne].
    + rewrite Z.shiftl_spec, Z.sub_diag by lia. change (Z.testbit 1 0) with true.
      by rewrite orb_true_r.
    + rewrite Z.shiftl_spec by lia. replace (Z.testbit 1 (j mod 8 - i mod 8)) with false;
        [by rewrite orb_false_r|].
      destruct (decide (j mod 8 < i mod 8)); [by rewrite Z.testbit_neg_r by lia|].
      rewrite Z.bits_above_log2; [done|lia|]. change (Z.log2 1) with 0. lia.
  - rewrite list_lookup_insert_ne by lia.
    destruct (Z.eqb_spec i j) as [->|]; [done|]. done.
Qed.

(** [make(Bits, n)]. *)
Lemma bit_zero n i : bit (replicate n 0) i = false.
Proof.
  unfold bit, idx. case_decide; [|done]. destruct (replicate n 0 !! _) as [x|] eqn:E; [|done].
  apply lookup_replicate in E as [-> _]. apply Z.bits_0.
Qed.
End Bits.

Section bls.
Context `{BLS}.

(** A [BLSPublicKeySignaturePair] is a pair of the public key and the
    signature. *)
Fixpoint aggregation_bits (keysList : list bytes) (pairs : list (bytes * bytes)) (bits : bytes)
    : res bytes :=
  match pairs with
  | [] => Ok bits
  | (pk, _) :: pairs =>
      let keyIndex := Bytes.FindIndex keysList pk in
      bits ← (if 0 <=? keyIndex then Bits.write keyIndex true bits else Ok bits);
      aggregation_bits keysList pairs bits
  end.

Definition BLSCreateAggSig (keysList : list bytes) (pubKeySignaturePairs : list (bytes * bytes))
    : res (bytes * bytes) :=
  let bits := replicate (Z.to_nat ((len keysList + 7) / 8)) 0 in
  aggregationBits ← aggregation_bits keysList pubKeySignaturePairs bits;
  Ok (aggregationBits, BLS_Aggregate (pubKeySignaturePairs.*2)).

(** The keys whose bit is set, with the sum of their weights. *)
Fixpoint select_keys (i : Z) (keysList : list bytes) (aggregationBits : bytes) : res (list bytes) :=
  match keysList with
  | [] => Ok []
  | k :: keysList =>
      b ← Bits.read aggregationBits i;
      keys ← select_keys (i + 1) keysList aggregationBits;
      Ok (if (b : bool) then k :: keys else keys)
  end.

Definition BLSVerifyAggSig (keysList : list bytes) (aggregationBits signature message : bytes)
    : res bool :=
  keys ← select_keys 0 keysList aggregationBits;
  Ok (BLS_FastAggregateVerify signature keys message).

Fixpoint select_weighted (i : Z) (keysList : list bytes) (weights : list Z)
    (aggregationBits : bytes) (weightSum : Z) : res (list bytes * Z) :=
  match keysList with
  | [] => Ok ([], weightSum)
  | k :: keysList =>
      b ← Bits.read aggregationBits i;
      if (b : bool) then
        w ← index weights i;
        '(keys, weightSum) ← select_weighted (i + 1) keysList weights aggregationBits
                               (u64 (weightSum + w));
        Ok (k :: keys, weightSum)
      else select_weighted (i + 1) keysList weights aggregationBits weightSum
  end.

Definition BLSVerifyWeightedAggSig (keysList : list bytes) (aggregationBits signature : bytes)
    (weights : list Z) (threshold : Z) (message : bytes) : res bool :=
  '(keys, weightSum) ← select_weighted 0 keysList weights aggregationBits 0;
  if weightSum <? threshold then Ok false
  else Ok (BLS_FastAggregateVerify signature keys message).

(** *** Lemmas *)

Lemma FindIndex_from_found i (keys : list bytes) pk :
  0 ≤ i → pk ∈ keys →
  ∃ j : nat, Bytes.FindIndex_from i keys pk = i + Z.of_nat j ∧ keys !! j = Some pk.
Proof.
  intros Hi Hpk. revert i Hi. induction keys as [|k keys IH]; intros i Hi; [by apply not_elem_of_nil in Hpk|].
  cbn [Bytes.FindIndex_from]. unfold bytes_equal. case_bool_decide as E.
  { exists O. split; [lia|]. simpl. by rewrite E. }
  apply elem_of_cons in Hpk as [->|Hpk]; [done|].
  destruct (IH Hpk (i + 1) ltac:(lia)) as (j & -> & Hj). exists (S j). split; [lia|done].
Qed.

(** With distinct keys the index determines the key. *)
Lemma FindIndex_found (keys : list bytes) pk (j : nat) :
  NoDup keys → pk ∈ keys → Bytes.FindIndex keys pk = Z.of_nat j ↔ keys !! j = Some pk.
Proof.
  intros Hnd Hpk. destruct (FindIndex_from_found 0 keys pk ltac:(lia) Hpk) as (j' & Hj & Hk).
  unfold Bytes.FindIndex. rewrite Hj. split.
  - intros. by replace j with j' by lia.
  - intros Hk'. rewrite (NoDup_lookup keys j j' pk); [lia|done..].
Qed.

Lemma aggregation_bits_spec keys pairs bits :
  NoDup keys → (∀ p, p ∈ pairs → p.1 ∈ keys) → len keys ≤ 8 * len bits →
  ∃ bits', aggregation_bits keys pairs bits = Ok bits' ∧ len bits' = len bits ∧
    ∀ j k, keys !! j = Some k →
      Bits.bit bits' (Z.of_nat j) = bool_decide (k ∈ pairs.*1) || Bits.bit bits (Z.of_nat j).
Proof.
  intros Hnd. revert bits. induction pairs as [|[pk sig] pairs IH]; intros bits Hin Hlen.
  { exists bits. split_and!; [done..|]. intros j k _. rewrite bool_decide_eq_false_2; [done|apply not_elem_of_nil]. }
  cbn [aggregation_bits]. assert (pk ∈ keys) as Hpk by (apply (Hin (pk, sig)); left).
  destruct (FindIndex_from_found 0 keys pk ltac:(lia) Hpk) as (i & Hi & Hki).
  unfold Bytes.FindIndex. rewrite Hi, Z.add_0_l. destruct (Z.leb_spec 0 (Z.of_nat i)); [|lia].
  pose proof (lookup_lt_Some _ _ _ Hki) as Hlt.
  destruct (Bits.write_true bits (Z.of_nat i)) as (b1 & -> & Hl1 & Hb1); [unfold len in *; lia|].
  cbn [mbind res_bind]. destruct (IH b1) as (b2 & -> & Hl2 & Hb2); [|lia|].
  { intros p Hp. apply Hin. by right. }
  exists b2. split_and!; [done|lia|]. intros j k Hk. rewrite (Hb2 j k Hk), Hb1 by lia.
  rewrite fmap_cons. cbn [fst]. destruct (Z.eqb_spec (Z.of_nat i) (Z.of_nat j)) as [E|E].
  - assert (i = j) as -> by lia. assert (k = pk) as -> by congruence.
    rewrite (bool_decide_eq_true_2 (pk ∈ pk :: _)) by left. by rewrite orb_true_r.
  - rewrite orb_false_l. f_equal. apply bool_decide_ext. rewrite elem_of_cons.
    split; [by right|]. intros [->|?]; [|done]. exfalso. apply E. f_equal.
    by eapply NoDup_lookup.
Qed.

Lemma select_keys_spec i keys bits :
  0 ≤ i → i + len keys ≤ 8 * len bits →
  ∃ l, select_keys i keys bits = Ok l ∧ l `sublist_of` keys ∧
    ∀ k, k ∈ l ↔ ∃ j : nat, keys !! j = Some k ∧ Bits.bit bits (i + Z.of_nat j) = true.
Proof.
  revert i. induction keys as [|k0 keys IH]; intros i Hi Hlen; cbn [select_keys].
  { exists []. split_and!; [done|done|]. intros k. rewrite elem_of_nil. split; [done|]. by intros (j & ? & _). }
  rewrite len_cons in Hlen. pose proof (len_nonneg keys).
  rewrite Bits.read_bit by lia. cbn [mbind res_bind].
  destruct (IH (i + 1)) as (l & -> & Hsub & Hl); [lia|lia|]. cbn [mbind res_bind].
  eexists. split; [done|]. split.
  { destruct (Bits.bit bits i); by constructor. }
  intros k. assert (k ∈ l ↔ ∃ j : nat, (k0 :: keys) !! S j = Some k ∧ Bits.bit bits (i + Z.of_nat (S j)) = true) as Hl'.
  { rewrite Hl. apply exist_proper. intros j. cbn [lookup list_lookup].
    by replace (i + Z.of_nat (S j)) with (i + 1 + Z.of_nat j) by lia. }
  destruct (Bits.bit bits i) eqn:Hb; rewrite ?elem_of_cons, Hl'; split.
  - intros [->|(j & ?)]; [exists O|by exists (S j)]. split; [done|]. by rewrite Z.add_0_r.
  - intros ([|j] & Hk & Hbj); [left; by inversion Hk|right; by exists j].
  - intros (j & ?). by exists (S j).
  - intros ([|j] & Hk & Hbj); [rewrite Z.add_0_r in Hbj; congruence|by exists j].
Qed.

(** The weighted loop selects the same keys and sums their weights, modulo
    [2^64]. *)
Lemma select_weighted_keys i keys weights bits acc :
  0 ≤ i → i + len keys ≤ 8 * len bits → i + len keys ≤ len weights →
  ∃ l sum, select_keys i keys bits = Ok l ∧
    select_weighted i keys weights bits acc = Ok (l, sum).
Proof.
  revert i acc. induction keys as [|k keys IH]; intros i acc Hi Hb Hw;
    cbn [select_keys select_weighted]; [by eexists _, _|].
  rewrite len_cons in *. pose proof (len_nonneg keys). rewrite Bits.read_bit by lia.
  cbn [mbind res_bind]. destruct (Bits.bit bits i).
  - destruct (proj2 (idx_is_Some weights i)) as [w Hwi]; [lia|]. unfold index. rewrite Hwi.
    cbn [mbind res_bind].
    destruct (IH (i + 1) (u64 (acc + w))) as (l & sum & -> & ->); [lia..|]. by eexists _, _.
  - destruct (IH (i + 1) acc) as (l & sum & -> & ->); [lia..|]. by eexists _, _.
Qed.

(** Aggregating valid signatures of distinct listed keys succeeds, and selects
    exactly the signers again. *)
Lemma BLSCreateAggSig_selects keys pairs :
  NoDup keys → NoDup (pairs.*1) → (∀ p, p ∈ pairs → p.1 ∈ keys) →
  ∃ bits l, BLSCreateAggSig keys pairs = Ok (bits, BLS_Aggregate (pairs.*2)) ∧
    len keys ≤ 8 * len bits ∧ select_keys 0 keys bits = Ok l ∧ l ≡ₚ pairs.*1.
Proof.
  intros Hnd Hndp Hin. unfold BLSCreateAggSig. pose proof (len_nonneg keys).
  set (zeros := replicate (Z.to_nat ((len keys + 7) / 8)) 0).
  assert (len keys ≤ 8 * len zeros) as Hz.
  { unfold zeros, len at 2. rewrite length_replicate.
    pose proof (Z.div_mod (len keys + 7) 8 ltac:(lia)). pose proof (Z.mod_pos_bound (len keys + 7) 8 ltac:(lia)).
    lia. }
  destruct (aggregation_bits_spec keys pairs zeros Hnd Hin Hz) as (bits & -> & Hl & Hbits).
  destruct (select_keys_spec 0 keys bits) as (l & Hsel & Hsub & Hmem); [lia|lia|].
  exists bits, l. cbn [mbind res_bind]. split_and!; [done|lia|done|].
  apply NoDup_Permutation; [eapply sublist_NoDup; [exact Hnd|exact Hsub]|done|]. intros k. rewrite Hmem. split.
  - intros (j & Hk & Hb). rewrite Z.add_0_l, (Hbits j k Hk) in Hb. unfold zeros in Hb.
    rewrite Bits.bit_zero, orb_false_r in Hb. by apply bool_decide_eq_true in Hb.
  - intros Hk. apply list_elem_of_fmap in Hk as ([pk sig] & -> & Hp).
    pose proof (Hin _ Hp) as Hpk. apply list_elem_of_lookup in Hpk as [j Hj].
    exists j. split; [done|]. rewrite Z.add_0_l, (Hbits j _ Hj). apply orb_true_intro. left.
    apply bool_decide_eq_true_2. apply list_elem_of_fmap. by exists (pk, sig).
Qed.
End bls.
