(* ===== verification/RMT.v ===== *)
(** * RMT: the regular Merkle tree of pkg/trie/rmt

    [CalculateRoot] is the reference definition of the root; [Append] maintains
    the root incrementally through the append path.  The theorems: the root
    commits to the list of values (two lists with one root exhibit a hash
    collision), and [Append] computes the root and the append path that the
    reference defines.

    [math.Log2] on a float64 is modelled by the exact logarithm; on the sizes
    in question (far below [2^50]) rounding does not cross an integer. *)

From S2P Require Import Prelude Collection Varint Codec CodecSpec Message Crypto.

(** ** proof_codec.go and rmt_codec.go *)

Record Proof := mkProof {
  pr_Size : Z;
  pr_Idxs : list Z;
  pr_SiblingHashes : list bytes;
}.

Definition Proof_Encode (e : Proof) : bytes :=
  Result (NewWriter
    |> WriteUInt 1 (pr_Size e)
    |> WriteUInts 2 (pr_Idxs e)
    |> WriteBytesArray 3 (pr_SiblingHashes e)).

Definition Proof_DecodeFromReader (strict : bool) (r : Reader) : res (Proof * Reader) :=
  '(Size_, r) ← ReadUInt 1 strict r;
  '(Idxs_, r) ← ReadUInts 2 r;
  '(SiblingHashes_, r) ← ReadBytesArray 3 r;
  Ok (mkProof Size_ Idxs_ SiblingHashes_, r).

Definition Proof_ok (e : Proof) : Prop :=
  u64_ok (pr_Size e) ∧ Forall u64_ok (pr_Idxs e).

Lemma Proof_reads strict e :
  Proof_ok e → Reads 1 4 (Proof_DecodeFromReader strict) (Proof_Encode e) e.
Proof.
  intros Hok. destruct e. unfold Proof_ok, Proof_DecodeFromReader, Proof_Encode in *. solve_reads.
Qed.

#[export] Hint Resolve Proof_reads : reads.

Lemma Proof_total strict : Total 0 (Proof_DecodeFromReader strict).
Proof. unfold Proof_DecodeFromReader. solve_total. Qed.
#[export] Hint Resolve Proof_total : go.

#[export] Instance Proof_Message : Message Proof :=
  { Encode := Proof_Encode; DecodeFromReader := Proof_DecodeFromReader; msg_ok := Proof_ok }.
#[export] Instance Proof_MessageLaws : MessageLaws Proof.
Proof. split. eexists. intros. by apply Proof_reads. Qed.

Record info := mkinfo {
  in_root : bytes;
  in_appendPath : list bytes;
  in_size : Z;
}.

Definition info_Encode (e : info) : bytes :=
  Result (NewWriter
    |> WriteBytes 1 (in_root e)
    |> WriteBytesArray 2 (in_appendPath e)
    |> WriteUInt 3 (in_size e)).

Definition info_DecodeFromReader (strict : bool) (r : Reader) : res (info * Reader) :=
  '(root_, r) ← ReadBytes 1 strict r;
  '(appendPath_, r) ← ReadBytesArray 2 r;
  '(size_, r) ← ReadUInt 3 strict r;
  Ok (mkinfo root_ appendPath_ size_, r).

Definition info_ok (e : info) : Prop :=
  u64_ok (in_size e).

Lemma info_reads strict e :
  info_ok e → Reads 1 4 (info_DecodeFromReader strict) (info_Encode e) e.
Proof.
  intros Hok. destruct e. unfold info_ok, info_DecodeFromReader, info_Encode in *. solve_reads.
Qed.

#[export] Hint Resolve info_reads : reads.

Lemma info_total strict : Total 0 (info_DecodeFromReader strict).
Proof. unfold info_DecodeFromReader. solve_total. Qed.
#[export] Hint Resolve info_total : go.

#[export] Instance info_Message : Message info :=
  { Encode := info_Encode; DecodeFromReader := info_DecodeFromReader; msg_ok := info_ok }.
#[export] Instance info_MessageLaws : MessageLaws info.
Proof. split. eexists. intros. by apply info_reads. Qed.

(** ** util.go and root.go *)

Section rmt.
Context `{Hasher}.

Definition leafPrefix : Z := 0x00.
Definition branchPrefix : Z := 0x01.
Definition emptyHash : bytes := Hash [].

Definition leafHash (msg : bytes) : bytes := Hash (leafPrefix :: msg).
Definition branchHash (msg : bytes) : bytes := Hash (branchPrefix :: msg).

(** [math.Ceil(math.Log2(size))] is [Z.log2_up], for [size] at least one and as
    long as the float logarithm is exact enough, below about [2^50].  For
    zero the logarithm is minus infinity, whose conversion to [uint64] is left to
    the platform; [2^63] is the result on amd64. *)
Definition getHeight (size : Z) : Z := (if size =? 0 then 2 ^ 63 else Z.log2_up size) + 1.

(** The two halves are computed by two goroutines that only share their input;
    the order does not matter.  Each half is shorter, so the length of the data
    bounds the depth. *)
Fixpoint calculateRoot (fuel : nat) (data : list bytes) : bytes :=
  match data with
  | [] => emptyHash
  | [x] => leafHash x
  | _ =>
      match fuel with
      | O => []
      | S fuel =>
          let divider := Z.to_nat (2 ^ Z.log2 (len data - 1)) in
          branchHash (calculateRoot fuel (take divider data)
                      ++ calculateRoot fuel (drop divider data))
      end
  end.

Definition CalculateRoot (data : list bytes) : bytes := calculateRoot (length data) data.

Record RootWithAppendPath := mkRootWithAppendPath {
  Root : bytes;
  AppendPath : list bytes;
  rwa_Size : Z;
}.

(** The index kept is the one of the last non-zero byte. *)
Definition last_nonzero (res : bytes) : Z :=
  foldl (λ index '(i, v), if negb (v =? 0) then Z.of_nat i else index) 0 (imap pair res).

Definition intToBytesWithoutLeadingZero (key : Z) : bytes :=
  let res := Bytes.FromUint64 key in
  drop (Z.to_nat (last_nonzero res)) res.

Definition bytesToBoolsWithSize (key : bytes) (size : Z) : res (list bool) :=
  let r := Bytes.ToBools key in
  slice r (len r - size) (len r).

(** Zero has no logarithm: the conversion of minus infinity to [int] gives a
    size that no slice has. *)
Definition intToBinary (key : Z) : res (list bool) :=
  if key =? 0 then Panic
  else bytesToBoolsWithSize (intToBytesWithoutLeadingZero key) (Z.log2 key + 1).

Definition bit_at (size h : Z) : bool := Z.land (Z.shiftr size h) 1 =? 1.

(** The hashing loop shared by [Append] and [CalculateRootFromAppendPath]:
    one element of the append path for each set bit. *)
Fixpoint path_loop (layers : list Z) (size : Z) (appendPath : list bytes) (count : Z)
    (currentHash : bytes) : res bytes :=
  match layers with
  | [] => Ok currentHash
  | h :: layers =>
      if bit_at size h then
        siblingHash ← index appendPath count;
        path_loop layers size appendPath (count + 1) (branchHash (siblingHash ++ currentHash))
      else path_loop layers size appendPath count currentHash
  end.

(** The number of trailing ones below [height]. *)
Fixpoint subTreeIndex_loop (fuel : nat) (height size subTreeIndex : Z) : Z :=
  match fuel with
  | O => subTreeIndex
  | S fuel =>
      if (subTreeIndex <? height) && bit_at size subTreeIndex
      then subTreeIndex_loop fuel height size (subTreeIndex + 1) else subTreeIndex
  end.
Definition subTreeIndex (height size : Z) : Z :=
  subTreeIndex_loop (Z.to_nat height) height size 0.

Definition fold_path (path : list bytes) (currentHash : bytes) : bytes :=
  foldl (λ current sibling, branchHash (sibling ++ current)) currentHash path.

(** The second loop folds the whole append path. *)
Definition CalculateRootFromAppendPath (value : bytes) (appendPath : list bytes) (size : Z)
    : res RootWithAppendPath :=
  let newLeafHash := leafHash value in
  binaryKeys ← intToBinary size;
  newRoot ← path_loop (seqZ 0 (len binaryKeys)) size appendPath 0 newLeafHash;
  let height := getHeight size in
  let sub := subTreeIndex height size in
  splicedPath ← slice appendPath sub (len appendPath);
  let currentHash := fold_path appendPath newLeafHash in
  Ok (mkRootWithAppendPath newRoot (currentHash :: splicedPath) (u64 (size + 1))).

Definition getRootFromPath (paths : list bytes) : res bytes :=
  match paths with
  | [] => Panic
  | h :: paths => Ok (fold_path paths h)
  end.

(** The loop of [CalculateRootFromRightWitness]; it has no bound of its own. *)
Fixpoint right_witness_loop (fuel : nat) (nodeIndex layerIndex incrementalIdx : Z)
    (incrementalIdxInit : bool) (appendPath rightWitness : list bytes) (currentHash : bytes)
    : res bytes :=
  match appendPath, rightWitness with
  | [], [] => Ok currentHash
  | _, _ =>
      match fuel with
      | O => OutOfFuel
      | S fuel =>
          let pow := u64 (Z.shiftl 1 layerIndex) in
          let '(incrementalIdx, incrementalIdxInit, appendPath, currentHash) :=
            match appendPath with
            | leftHash :: rest =>
                if bit_at nodeIndex layerIndex then
                  if negb incrementalIdxInit
                  then (u64 (incrementalIdx + pow), true, appendPath, currentHash)
                  else (incrementalIdx, incrementalIdxInit, rest, branchHash (leftHash ++ currentHash))
                else (incrementalIdx, incrementalIdxInit, appendPath, currentHash)
            | [] => (incrementalIdx, incrementalIdxInit, appendPath, currentHash)
            end in
          let '(incrementalIdx, rightWitness, currentHash) :=
            match rightWitness with
            | rightHash :: rest =>
                if bit_at incrementalIdx layerIndex
                then (u64 (incrementalIdx + pow), rest, branchHash (currentHash ++ rightHash))
                else (incrementalIdx, rightWitness, currentHash)
            | [] => (incrementalIdx, rightWitness, currentHash)
            end in
          right_witness_loop fuel nodeIndex (layerIndex + 1) incrementalIdx incrementalIdxInit
            appendPath rightWitness currentHash
      end
  end.

Definition CalculateRootFromRightWitness (fuel : nat) (nodeIndex : Z)
    (appendPath rightWitness : list bytes) : res bytes :=
  match appendPath, rightWitness with
  | [], _ => getRootFromPath rightWitness
  | _, [] => getRootFromPath appendPath
  | firstAppendPath :: appendPath, firstRightWitness :: rightWitness =>
      right_witness_loop fuel nodeIndex 0 nodeIndex false appendPath rightWitness
        (branchHash (firstAppendPath ++ firstRightWitness))
  end.

Definition VerifyRightWitness (fuel : nat) (nodeIndex : Z) (appendPath rightWitness : list bytes)
    (root : bytes) : res bool :=
  calculatedRoot ← CalculateRootFromRightWitness fuel nodeIndex appendPath rightWitness;
  Ok (bytes_equal calculatedRoot root).

(** ** rmt.go *)

Record nodeLocation := mkNodeLocation { nodeIndex : Z; layerIndex : Z }.

Definition newNodeLocationFromKey (key : bytes) : res nodeLocation :=
  l ← slice key 0 8;
  n ← slice key 8 (len key);
  layerIndex ← Bytes.ToUint64 l;
  nodeIndex ← Bytes.ToUint64 n;
  Ok (mkNodeLocation nodeIndex layerIndex).

Definition location_key (l : nodeLocation) : bytes :=
  Bytes.JoinSize 16 [Bytes.FromUint64 (layerIndex l); Bytes.FromUint64 (nodeIndex l)].

Definition storePrefixInfo : Z := 0.
Definition storePrefixHashToLoc : Z := 1.

(** The [Database] interface as a finite map. *)
Abbreviation Database := (gmap bytes bytes).

Record RegularMerkleTree := mkTree {
  t_root : bytes;
  t_appendPath : list bytes;
  t_size : Z;
  t_db : Database;
}.

Definition NewRegularMerkleTree (db : Database) : RegularMerkleTree := mkTree emptyHash [] 0 db.

Definition getHash (db : Database) (loc : nodeLocation) : option bytes :=
  db !! (storePrefixHashToLoc :: location_key loc).

Definition getLocation (db : Database) (hash : bytes) : res nodeLocation :=
  locKey ← ok_or (db !! (storePrefixHashToLoc :: hash)) (Errorf "location for hash does not exist");
  newNodeLocationFromKey locKey.

Definition saveNode (hash : bytes) (loc : nodeLocation) (db : Database) : Database :=
  <[storePrefixHashToLoc :: location_key loc := hash]>
    (<[storePrefixHashToLoc :: hash := location_key loc]> db).

(** The key that is deleted lacks the prefix. *)
Definition replaceNode (hash : bytes) (loc : nodeLocation) (db : Database) : res Database :=
  prevValue ← ok_or (getHash db loc) (Errorf "hash does not exist");
  Ok (saveNode hash loc (delete prevValue db)).

Definition saveInfo (t : RegularMerkleTree) : RegularMerkleTree :=
  let infoByte := info_Encode (mkinfo (t_root t) (t_appendPath t) (t_size t)) in
  mkTree (t_root t) (t_appendPath t) (t_size t) (<[[storePrefixInfo] := infoByte]> (t_db t)).

Definition loadInfo (db : Database) : res RegularMerkleTree :=
  infoByte ← ok_or (db !! [storePrefixInfo]) (Errorf "tree information does not exist");
  i ← Decode (info_DecodeFromReader false) infoByte;
  Ok (mkTree (in_root i) (in_appendPath i) (in_size i) db).

Definition NewRegularMerkleTreeWithPastData (db : Database) : res RegularMerkleTree := loadInfo db.

Fixpoint append_loop (layers : list Z) (height size : Z) (appendPath : list bytes) (count : Z)
    (currentHash : bytes) (db : Database) : res (bytes * Database) :=
  match layers with
  | [] => Ok (currentHash, db)
  | h :: layers =>
      if bit_at size h then
        appendHash ← index appendPath count;
        appendLoc ← getLocation db appendHash;
        let nextLoc := mkNodeLocation (Z.shiftr (nodeIndex appendLoc) 1)
                                      (u64 (layerIndex appendLoc + 1)) in
        let currentHash := branchHash (appendHash ++ currentHash) in
        db ← (if layerIndex nextLoc =? u64 (height - 1) then replaceNode currentHash nextLoc db
              else Ok (saveNode currentHash nextLoc db));
        append_loop layers height size appendPath (count + 1) currentHash db
      else append_loop layers height size appendPath count currentHash db
  end.

Definition Append (value : bytes) (d : RegularMerkleTree) : res RegularMerkleTree :=
  let newLeafHash := leafHash value in
  let nodeLoc := mkNodeLocation (t_size d) 0 in
  let db := saveNode newLeafHash nodeLoc (t_db d) in
  if t_size d =? 0 then
    Ok (mkTree newLeafHash (t_appendPath d ++ [newLeafHash]) (t_size d + 1) db)
  else
    let height := getHeight (t_size d) in
    '(currentHash, db) ← append_loop (seqZ 0 height) height (t_size d) (t_appendPath d) 0
                           newLeafHash db;
    let sub := subTreeIndex height (t_size d) in
    bottomPath ← slice (t_appendPath d) 0 sub;
    topPath ← slice (t_appendPath d) sub (len (t_appendPath d));
    let bottomHash := fold_path bottomPath newLeafHash in
    Ok (saveInfo (mkTree currentHash (bottomHash :: topPath) (u64 (t_size d + 1)) db)).

(** Appending a list of values. *)
Fixpoint append_all (values : list bytes) (d : RegularMerkleTree) : res RegularMerkleTree :=
  match values with
  | [] => Ok d
  | v :: values => d ← Append v d; append_all values d
  end.
End rmt.

(** ** The reference root *)

Section root_lemmas.
Context `{HashLaws}.
Implicit Types data a b : list bytes.

(** The left half is the largest power of two below the length. *)
Definition divider (n : Z) : nat := Z.to_nat (2 ^ Z.log2 (n - 1)).

Lemma divider_bounds n : 2 ≤ n → 1 ≤ Z.of_nat (divider n) < n.
Proof.
  intros Hn. unfold divider. pose proof (Z.log2_spec (n - 1) ltac:(lia)).
  pose proof (Z.log2_nonneg (n - 1)). pose proof (Z.pow_pos_nonneg 2 (Z.log2 (n - 1))). lia.
Qed.

Lemma calculateRoot_step fuel data :
  2 ≤ len data →
  calculateRoot (S fuel) data
  = branchHash (calculateRoot fuel (take (divider (len data)) data)
                ++ calculateRoot fuel (drop (divider (len data)) data)).
Proof. destruct data as [|x [|y data]]; [done|done|]. intros _. reflexivity. Qed.

Lemma calculateRoot_fuel fuel data :
  (length data ≤ fuel)%nat → calculateRoot fuel data = CalculateRoot data.
Proof.
  unfold CalculateRoot.
  assert (∀ n fuel1 fuel2 data, (length data ≤ n)%nat → (length data ≤ fuel1)%nat →
    (length data ≤ fuel2)%nat → calculateRoot fuel1 data = calculateRoot fuel2 data) as Hgen.
  { clear. induction n as [|n IH]; intros fuel1 fuel2 data Hn H1 H2.
    { destruct data; [by destruct fuel1, fuel2|simpl in *; lia]. }
    destruct (decide (len data < 2)) as [Hs|Hs].
    { destruct data as [|x [|y data]]; [by destruct fuel1, fuel2..|]. rewrite !len_cons in Hs.
      pose proof (len_nonneg data). lia. }
    destruct fuel1 as [|fuel1]; [unfold len in *; lia|]. destruct fuel2 as [|fuel2]; [unfold len in *; lia|].
    rewrite !calculateRoot_step by lia.
    pose proof (divider_bounds (len data) ltac:(lia)). unfold len in *.
    f_equal. f_equal; apply IH; rewrite ?length_take, ?length_drop; lia. }
  intros. by apply (Hgen (length data)).
Qed.

Lemma CalculateRoot_branch data :
  2 ≤ len data →
  CalculateRoot data
  = branchHash (CalculateRoot (take (divider (len data)) data)
                ++ CalculateRoot (drop (divider (len data)) data)).
Proof.
  intros Hl. unfold CalculateRoot at 1. destruct (length data) as [|n] eqn:En; [unfold len in *; lia|].
  rewrite calculateRoot_step by done. pose proof (divider_bounds (len data) Hl). unfold len in *.
  rewrite !calculateRoot_fuel by (rewrite ?length_take, ?length_drop; lia). done.
Qed.

Lemma len_CalculateRoot data : len (CalculateRoot data) = HashLengh.
Proof.
  destruct (decide (2 ≤ len data)) as [Hl|Hl].
  - rewrite CalculateRoot_branch by done. apply Hash_len.
  - destruct data as [|x [|y data]]; [apply Hash_len..|]. rewrite !len_cons in Hl.
    pose proof (len_nonneg data). lia.
Qed.

(** Everything that is hashed for the root of a list. *)
Fixpoint root_messages (fuel : nat) (data : list bytes) : list bytes :=
  match data with
  | [] => [[]]
  | [x] => [leafPrefix :: x]
  | _ =>
      match fuel with
      | O => []
      | S fuel =>
          let l := take (divider (len data)) data in
          let r := drop (divider (len data)) data in
          (branchPrefix :: CalculateRoot l ++ CalculateRoot r) :: root_messages fuel l ++ root_messages fuel r
      end
  end.

(** The three shapes of the hashed input. *)
Lemma CalculateRoot_shape data :
  (data = [] ∧ CalculateRoot data = Hash []) ∨
  (∃ x, data = [x] ∧ CalculateRoot data = Hash (leafPrefix :: x)) ∨
  (2 ≤ len data ∧ CalculateRoot data = Hash (branchPrefix ::
     CalculateRoot (take (divider (len data)) data) ++ CalculateRoot (drop (divider (len data)) data))).
Proof.
  destruct data as [|x [|y data]]; [by left|right; left; by exists x|right; right].
  assert (2 ≤ len (x :: y :: data)) as Hl by (rewrite !len_cons; pose proof (len_nonneg data); lia).
  split; [done|]. by apply CalculateRoot_branch.
Qed.

(** The input of the last hash. *)
Definition root_message (data : list bytes) : bytes :=
  match data with
  | [] => []
  | [x] => leafPrefix :: x
  | _ => branchPrefix :: CalculateRoot (take (divider (len data)) data) ++ CalculateRoot (drop (divider (len data)) data)
  end.

Lemma CalculateRoot_message data : CalculateRoot data = Hash (root_message data).
Proof.
  destruct data as [|x [|y data]]; [done..|].
  apply CalculateRoot_branch. rewrite !len_cons. pose proof (len_nonneg data). lia.
Qed.

Lemma root_message_in n data : (length data ≤ n)%nat → root_message data ∈ root_messages n data.
Proof. destruct data as [|x [|y data]]; destruct n; cbn; try lia; left. Qed.

(** The root commits to the list: without a collision among what is hashed, two
    lists with the same root are equal.  The lengths need not be known. *)
Lemma CalculateRoot_binding_fuel n m a b :
  (length a ≤ n)%nat → (length b ≤ m)%nat → collision_free (root_messages n a ++ root_messages m b) →
  CalculateRoot a = CalculateRoot b → a = b.
Proof.
  revert m a b. induction n as [|n IH]; intros m a b Hn Hm Hfree Heq.
  all: assert (root_message a = root_message b) as Em
    by (apply (collision_free_eq _ _ _ Hfree); [apply elem_of_app; left; by apply root_message_in|
        apply elem_of_app; right; by apply root_message_in|by rewrite <-!CalculateRoot_message]).
  all: destruct a as [|x [|x' a]], b as [|y [|y' b]]; try done; try (cbn in Hn; lia); try (cbn in Em; congruence).
  cbn in Hm. destruct m as [|m]; [lia|]. set (a0 := x :: x' :: a) in *. set (b0 := y :: y' :: b) in *.
  assert (2 ≤ len a0) as Ha by (unfold a0; rewrite !len_cons; pose proof (len_nonneg a); lia).
  assert (2 ≤ len b0) as Hb by (unfold b0; rewrite !len_cons; pose proof (len_nonneg b); lia).
  change (root_message a0) with (branchPrefix :: CalculateRoot (take (divider (len a0)) a0) ++ CalculateRoot (drop (divider (len a0)) a0)) in Em.
  change (root_message b0) with (branchPrefix :: CalculateRoot (take (divider (len b0)) b0) ++ CalculateRoot (drop (divider (len b0)) b0)) in Em.
  injection Em as Em. apply app_inj_1 in Em as [El Er].
  2: { pose proof (len_CalculateRoot (take (divider (len a0)) a0)). pose proof (len_CalculateRoot (take (divider (len b0)) b0)).
       unfold len in *. lia. }
  pose proof (divider_bounds (len a0) Ha). pose proof (divider_bounds (len b0) Hb).
  assert (length a0 ≤ S n)%nat by done. assert (length b0 ≤ S m)%nat by (unfold b0; cbn; lia).
  change (root_messages (S n) a0) with ((branchPrefix :: CalculateRoot (take (divider (len a0)) a0) ++ CalculateRoot (drop (divider (len a0)) a0))
    :: root_messages n (take (divider (len a0)) a0) ++ root_messages n (drop (divider (len a0)) a0)) in Hfree.
  change (root_messages (S m) b0) with ((branchPrefix :: CalculateRoot (take (divider (len b0)) b0) ++ CalculateRoot (drop (divider (len b0)) b0))
    :: root_messages m (take (divider (len b0)) b0) ++ root_messages m (drop (divider (len b0)) b0)) in Hfree.
  unfold len in *. apply IH with (m := m) in El, Er; [|try (rewrite ?length_take, ?length_drop; lia);
    (eapply collision_free_subset; [|exact Hfree]; set_solver)..].
  by rewrite <-(take_drop (divider (Z.of_nat (length a0))) a0), El, Er, take_drop.
Qed.
End root_lemmas.

(** ** The append path *)

Section append_path.
Context `{HashLaws}.
Implicit Types data L R p : list bytes.

(** The append path of a list: the roots of the perfect subtrees, one for each
    set bit of the length, the smallest first. *)
Inductive path_of : list bytes → list bytes → Prop :=
| path_nil : path_of [] []
| path_cons k L R p :
    0 ≤ k → len L = 2 ^ k → len R < 2 ^ k → path_of R p →
    path_of (L ++ R) (p ++ [CalculateRoot L]).

Lemma fold_path_app p q h : fold_path (p ++ q) h = fold_path q (fold_path p h).
Proof. apply foldl_app. Qed.

(** [L ++ R] splits at [2^k] when [R] is not empty. *)
Lemma divider_app k L R :
  0 ≤ k → len L = 2 ^ k → 0 < len R ≤ 2 ^ k → divider (len (L ++ R)) = length L.
Proof.
  intros Hk HL HR. assert (0 < 2 ^ k) by (apply Z.pow_pos_nonneg; lia).
  unfold divider. rewrite (Z.log2_unique _ k); [unfold len in *; lia|lia|].
  rewrite len_app, Z.pow_succ_r by lia. lia.
Qed.

Lemma CalculateRoot_split k L R :
  0 ≤ k → len L = 2 ^ k → 0 < len R ≤ 2 ^ k →
  CalculateRoot (L ++ R) = branchHash (CalculateRoot L ++ CalculateRoot R).
Proof.
  intros Hk HL HR. assert (0 < 2 ^ k) by (apply Z.pow_pos_nonneg; lia).
  rewrite CalculateRoot_branch by (rewrite len_app; lia).
  by rewrite (divider_app k), take_app_length, drop_app_length.
Qed.

(** Folding a new leaf into the path gives the root of the extended list. *)
Lemma fold_path_root data p v :
  path_of data p → fold_path p (leafHash v) = CalculateRoot (data ++ [v]).
Proof.
  induction 1 as [|k L R p Hk HL HR Hp IH]; [done|].
  rewrite fold_path_app, IH, <-app_assoc. symmetry. apply (CalculateRoot_split k); [done|done|].
  rewrite len_app. change (len [v]) with 1. pose proof (len_nonneg R). lia.
Qed.

(** *** Bits of the size *)

Lemma bit_at_testbit n h : 0 ≤ h → bit_at n h = Z.testbit n h.
Proof.
  intros Hh. unfold bit_at. change 1 with (Z.ones 1) at 1. rewrite Z.land_ones by lia.
  change (2 ^ 1) with 2. by rewrite Z.testbit_odd, Zodd_mod.
Qed.

Definition ones_in (n : Z) (layers : list Z) : list Z := filter (λ h, bit_at n h = true) layers.

Lemma path_loop_fold layers n pre p h :
  length (ones_in n layers) = length p →
  path_loop layers n (pre ++ p) (len pre) h = Ok (fold_path p h).
Proof.
  revert pre p h. induction layers as [|l layers IH]; intros pre p h Hlen.
  { destruct p; [done|simpl in Hlen; lia]. }
  cbn [path_loop]. unfold ones_in in Hlen. rewrite filter_cons in Hlen.
  destruct (bit_at n l) eqn:Hb.
  - rewrite decide_True in Hlen by done. destruct p as [|x p]; [simpl in Hlen; lia|].
    unfold index. rewrite idx_app_len. cbn [mbind res_bind].
    specialize (IH (pre ++ [x]) p (branchHash (x ++ h))).
    rewrite <-app_assoc, len_app in IH. apply IH. simpl in Hlen. unfold ones_in. lia.
  - rewrite decide_False in Hlen by done. by apply IH.
Qed.

Lemma ones_in_ext n m layers :
  (∀ h, h ∈ layers → bit_at n h = bit_at m h) → ones_in n layers = ones_in m layers.
Proof.
  induction layers as [|l layers IH]; intros Hb; [done|]. unfold ones_in in *.
  rewrite !filter_cons, (Hb l) by left. rewrite IH; [done|]. intros. apply Hb. by right.
Qed.

Lemma ones_in_none layers : (∀ h, h ∈ layers → 0 ≤ h) → ones_in 0 layers = [].
Proof.
  intros Hl. induction layers as [|l layers IH]; [done|]. unfold ones_in in *.
  rewrite filter_cons, decide_False; [apply IH; intros; apply Hl; by right|].
  rewrite bit_at_testbit, Z.bits_0; [done|apply Hl; left].
Qed.

(** The bits of [2^k + m] for [m] below [2^k]. *)
Lemma testbit_top k m i :
  0 ≤ k → 0 ≤ m < 2 ^ k → 0 ≤ i → Z.testbit (2 ^ k + m) i = (i =? k) || Z.testbit m i.
Proof.
  intros Hk Hm Hi. replace (2 ^ k + m) with (m + 1 * 2 ^ k) by lia.
  rewrite <-lor_shiftl_add by lia. rewrite Z.lor_spec, orb_comm. f_equal.
  rewrite Z.shiftl_spec by lia. destruct (Z.eqb_spec i k) as [->|Hne]; [by rewrite Z.sub_diag|].
  destruct (decide (i < k)); [by rewrite Z.testbit_neg_r by lia|].
  rewrite Z.bits_above_log2; [done|lia|]. change (Z.log2 1) with 0. lia.
Qed.

Lemma ones_in_top k m height :
  0 ≤ k < height → 0 ≤ m < 2 ^ k →
  length (ones_in (2 ^ k + m) (seqZ 0 height)) = S (length (ones_in m (seqZ 0 k))).
Proof.
  intros Hk Hm. replace height with (k + (1 + (height - k - 1))) by lia.
  rewrite (seqZ_app 0 k) by lia. rewrite (seqZ_app (0 + k) 1) by lia.
  unfold ones_in at 1. rewrite !filter_app, !length_app.
  change (filter (λ h, bit_at (2 ^ k + m) h = true)) with (ones_in (2 ^ k + m)).
  rewrite (ones_in_ext (2 ^ k + m) m (seqZ 0 k)).
  2:{ intros h Hh%elem_of_seqZ. rewrite !bit_at_testbit, testbit_top by lia.
      by destruct (Z.eqb_spec h k); [lia|]. }
  rewrite (ones_in_ext (2 ^ k + m) (-1) (seqZ (0 + k) 1)).
  2:{ intros h Hh%elem_of_seqZ. rewrite !bit_at_testbit, testbit_top by lia.
      destruct (Z.eqb_spec h k); [|lia]. by rewrite Z.bits_m1 by lia. }
  rewrite (ones_in_ext (2 ^ k + m) 0 (seqZ (0 + k + 1) _)).
  2:{ intros h Hh%elem_of_seqZ. rewrite !bit_at_testbit, testbit_top by lia.
      destruct (Z.eqb_spec h k); [lia|]. rewrite Z.bits_0, orb_false_l.
      destruct (decide (m = 0)) as [->|]; [apply Z.bits_0|].
      apply Z.bits_above_log2; [lia|]. apply Z.log2_lt_pow2; [lia|].
      eapply Z.lt_le_trans; [apply Hm|]. apply Z.pow_le_mono_r; lia. }
  rewrite ones_in_none by (intros h Hh%elem_of_seqZ; lia).
  change (seqZ (0 + k) 1) with [Z.of_nat 0 + (0 + k)]. unfold ones_in at 2. rewrite filter_cons, decide_True.
  - simpl. lia.
  - by rewrite bit_at_testbit, Z.bits_m1 by lia.
Qed.

Lemma ones_in_path data p height :
  path_of data p → 0 ≤ height → len data < 2 ^ height →
  length (ones_in (len data) (seqZ 0 height)) = length p.
Proof.
  intros Hp. revert height. induction Hp as [|k L R p Hk HL HR Hp IH]; intros height Hh Hlt.
  { change (len []) with 0. by rewrite ones_in_none by (intros h Hx%elem_of_seqZ; lia). }
  rewrite len_app, HL in *. pose proof (len_nonneg R).
  assert (k < height) by (apply (Z.pow_lt_mono_r_iff 2); lia).
  rewrite ones_in_top, IH by lia. rewrite length_app. simpl. lia.
Qed.

(** [t] is the number of trailing ones of [n]. *)
Definition trailing (n t : Z) : Prop := 0 ≤ t ∧ n mod 2 ^ (t + 1) = 2 ^ t - 1.

Lemma subTreeIndex_loop_trailing fuel height n t i :
  trailing n t → 0 ≤ i ≤ t → t ≤ height → t - i ≤ Z.of_nat fuel →
  subTreeIndex_loop fuel height n i = t.
Proof.
  intros [Ht Hmod]. assert (∀ j, 0 ≤ j ≤ t → bit_at n j = (j <? t)) as Hbit.
  { intros j Hj. rewrite bit_at_testbit by lia. rewrite <-(Z.mod_pow2_bits_low n (t + 1)) by lia.
    rewrite Hmod. change (2 ^ t - 1) with (Z.pred (2 ^ t)).
    by rewrite <-Z.ones_equiv, Z.testbit_ones_nonneg by lia. }
  revert i. induction fuel as [|fuel IH]; intros i Hi Hh Hf; cbn [subTreeIndex_loop]; [lia|].
  rewrite Hbit by lia. destruct (Z.ltb_spec i t).
  - destruct (Z.ltb_spec i height); [|lia]. simpl. apply IH; lia.
  - rewrite andb_false_r. lia.
Qed.

Lemma trailing_unique n t k : trailing n t → 0 ≤ k → n = 2 ^ k - 1 → t = k.
Proof.
  intros [Ht Hmod] Hk ->. destruct (Z.lt_trichotomy t k) as [Hlt|[Heq|Hgt]]; [|done|].
  - replace (2 ^ k - 1) with (Z.ones k) in Hmod by (rewrite Z.ones_equiv; lia).
    rewrite Z.ones_mod_pow2, Z.ones_equiv in Hmod by lia.
    rewrite Z.pow_add_r in Hmod by lia. change (2 ^ 1) with 2 in Hmod.
    assert (0 < 2 ^ t) by (apply Z.pow_pos_nonneg; lia). lia.
  - assert (2 ^ k < 2 ^ t) by (apply Z.pow_lt_mono_r; lia).
    assert (0 < 2 ^ k) by (apply Z.pow_pos_nonneg; lia).
    pose proof (Z.mod_le (2 ^ k - 1) (2 ^ (t + 1)) ltac:(lia) ltac:(apply Z.pow_pos_nonneg; lia)). lia.
Qed.

(** The trailing ones of [2^k + m] for [m] below [2^k]: those of [m], and one
    more when [m] is all ones. *)
Lemma trailing_below k m t :
  0 ≤ k → 0 ≤ m → m + 1 < 2 ^ k → trailing m t → trailing (2 ^ k + m) t.
Proof.
  intros Hk Hm Hlt [Ht Hmod]. assert (0 < 2 ^ t) by (apply Z.pow_pos_nonneg; lia).
  assert (t < k) as Htk.
  { destruct (decide (t < k)) as [|Hge]; [done|exfalso].
    assert (2 ^ k ≤ 2 ^ t) by (apply Z.pow_le_mono_r; lia).
    pose proof (Z.mod_le m (2 ^ (t + 1)) ltac:(lia) ltac:(apply Z.pow_pos_nonneg; lia)). lia. }
  split; [done|]. replace (2 ^ k + m) with (m + 2 ^ (k - (t + 1)) * 2 ^ (t + 1)).
  - rewrite Z.mod_add; [done|]. assert (0 < 2 ^ (t + 1)) by (apply Z.pow_pos_nonneg; lia). lia.
  - rewrite <-Z.pow_add_r by lia. replace (k - (t + 1) + (t + 1)) with k by lia. lia.
Qed.

Lemma trailing_full k m : 0 ≤ k → m + 1 = 2 ^ k → trailing (2 ^ k + m) (k + 1).
Proof.
  intros Hk Hm. assert (0 < 2 ^ k) by (apply Z.pow_pos_nonneg; lia).
  split; [lia|]. rewrite Z.mod_small; rewrite !Z.pow_add_r by lia; change (2 ^ 1) with 2; lia.
Qed.

(** The path of a list whose length is a power of two is its root. *)
Lemma path_of_pow2 data p k :
  path_of data p → 0 ≤ k → len data = 2 ^ k → p = [CalculateRoot data].
Proof.
  intros Hp Hk Hlen. assert (0 < 2 ^ k) by (apply Z.pow_pos_nonneg; lia).
  inversion Hp as [|j L R q Hj HL HR Hq E1 E2]; subst; [change (len []) with 0 in Hlen; lia|].
  rewrite len_app, HL in Hlen. pose proof (len_nonneg R).
  assert (len R = 0) as HR0.
  { destruct (decide (j = k)) as [->|Hne]; [lia|exfalso].
    destruct (decide (j < k)).
    - assert (2 ^ (j + 1) ≤ 2 ^ k) by (apply Z.pow_le_mono_r; lia).
      rewrite Z.pow_add_r in * by lia. change (2 ^ 1) with 2 in *. lia.
    - assert (2 ^ (k + 1) ≤ 2 ^ j) by (apply Z.pow_le_mono_r; lia).
      rewrite Z.pow_add_r in * by lia. change (2 ^ 1) with 2 in *. lia. }
  destruct R as [|r R]; [|rewrite len_cons in HR0; pose proof (len_nonneg R); lia].
  inversion Hq as [|j' L' R' q' ? HL' ? ? E1 E2]; subst; [by rewrite app_nil_r|].
  apply app_nil in E1 as [-> ->]. change (len []) with 0 in HL'.
  assert (0 < 2 ^ j') by (apply Z.pow_pos_nonneg; lia). lia.
Qed.

(** Merging the new leaf with one subtree per trailing one gives the append
    path of the extended list. *)
Lemma path_of_snoc data p v :
  path_of data p →
  ∃ t, trailing (len data) t ∧ t ≤ len p ∧
    path_of (data ++ [v]) (fold_path (take (Z.to_nat t) p) (leafHash v) :: drop (Z.to_nat t) p).
Proof.
  intros Hp. induction Hp as [|k L R p Hk HL HR Hp IH].
  { exists 0. split; [done|]. split; [done|]. apply (path_cons 0 [v] [] []); try done. apply path_nil. }
  destruct IH as (t & Htr & Htp & Hpath). pose proof Htr as [Ht0 Hmod].
  assert (0 < 2 ^ k) by (apply Z.pow_pos_nonneg; lia). pose proof (len_nonneg R).
  pose proof (len_nonneg p). rewrite !len_app, HL. change (len [CalculateRoot L]) with 1.
  destruct (decide (len R + 1 < 2 ^ k)) as [Hlt|Hge].
  - exists t. split; [by apply trailing_below|split; [lia|]].
    rewrite take_app_le, drop_app_le by (unfold len in *; lia).
    rewrite app_comm_cons, <-app_assoc. apply (path_cons k); [done|done| |done].
    rewrite len_app. change (len [v]) with 1. lia.
  - assert (t = k) as -> by (eapply trailing_unique; [done|done|lia]).
    assert (len (R ++ [v]) = 2 ^ k) as HRv by (rewrite len_app; change (len [v]) with 1; lia).
    pose proof (path_of_pow2 _ _ k Hpath Hk HRv) as Heq.
    assert (len p = k) as Hpk.
    { assert (drop (Z.to_nat k) p = []) as Hd by congruence.
      apply (f_equal length) in Hd. rewrite length_drop in Hd. unfold len in *. simpl in Hd. lia. }
    exists (k + 1). split; [apply trailing_full; lia|split; [lia|]].
    rewrite take_ge, drop_ge by (rewrite length_app; unfold len in *; simpl; lia).
    rewrite (fold_path_root (L ++ R)) by (by apply (path_cons k)).
    rewrite <-(app_nil_r ((L ++ R) ++ [v])) at 1.
    apply (path_cons (k + 1) ((L ++ R) ++ [v]) [] []); [lia| | |apply path_nil].
    + rewrite !len_app, HL. change (len [v]) with 1. rewrite Z.pow_add_r by lia.
      change (2 ^ 1) with 2. lia.
    + change (len []) with 0. apply Z.pow_pos_nonneg; lia.
Qed.

(** ** [Append] refines the reference *)

Definition tree_ok (data : list bytes) (d : RegularMerkleTree) : Prop :=
  path_of data (t_appendPath d) ∧ t_root d = CalculateRoot data ∧ t_size d = len data.

Lemma NewRegularMerkleTree_ok db : tree_ok [] (NewRegularMerkleTree db).
Proof. split_and!; [constructor|done|done]. Qed.

(** The hashes of the loop do not depend on the database. *)
Lemma append_loop_hash layers height size p count h db h' db' :
  append_loop layers height size p count h db = Ok (h', db') →
  path_loop layers size p count h = Ok h'.
Proof.
  revert count h db. induction layers as [|l layers IH]; intros count h db; cbn [append_loop path_loop].
  { by intros [= -> _]. }
  destruct (bit_at size l); [|apply IH].
  destruct (index p count) as [x|e| |]; try done. cbn [mbind res_bind].
  destruct (getLocation db x) as [loc|e| |]; try done. cbn [mbind res_bind].
  case_match; [|apply IH].
  match goal with |- context [replaceNode ?a ?b ?c] => destruct (replaceNode a b c) end; try done.
  apply IH.
Qed.

Lemma getHeight_eq n : 0 < n → getHeight n = Z.log2_up n + 1.
Proof. intros Hn. unfold getHeight. by destruct (Z.eqb_spec n 0); [lia|]. Qed.

Lemma getHeight_pow n : 0 < n → n < 2 ^ getHeight n ∧ 0 ≤ getHeight n.
Proof.
  intros Hn. rewrite getHeight_eq by done. pose proof (Z.log2_up_nonneg n). split; [|lia].
  destruct (decide (n = 1)) as [->|]; [done|]. pose proof (Z.log2_up_spec n ltac:(lia)).
  rewrite Z.pow_add_r by lia. change (2 ^ 1) with 2. lia.
Qed.

Lemma trailing_height n t : 0 < n → trailing n t → t ≤ getHeight n.
Proof.
  intros Hn [Ht Hmod]. pose proof (getHeight_pow n Hn) as [Hlt Hh].
  destruct (decide (t ≤ getHeight n)) as [|Hgt]; [done|exfalso].
  assert (2 ^ getHeight n < 2 ^ t) by (apply Z.pow_lt_mono_r; lia).
  pose proof (Z.mod_le n (2 ^ (t + 1)) ltac:(lia) ltac:(apply Z.pow_pos_nonneg; lia)). lia.
Qed.

Lemma Append_tree_ok data d v d' :
  tree_ok data d → len data + 1 < 2 ^ 64 → Append v d = Ok d' → tree_ok (data ++ [v]) d'.
Proof.
  intros (Hp & Hroot & Hsize) H64. unfold Append. rewrite Hsize. pose proof (len_nonneg data).
  destruct (Z.eqb_spec (len data) 0) as [E|E].
  { destruct data as [|x data]; [|rewrite len_cons in E; pose proof (len_nonneg data); lia].
    inversion Hp as [E2|? L R ? ? HL ? ? E1 E2]; subst.
    - intros [= <-]. split_and!; [|done|done]. apply (path_cons 0 [v] [] []); try done. apply path_nil.
    - apply app_nil in E1 as [-> ->]. change (len []) with 0 in HL.
      assert (0 < 2 ^ k) by (apply Z.pow_pos_nonneg; lia). lia. }
  pose proof (getHeight_pow (len data) ltac:(lia)) as [Hlt Hh].
  destruct (append_loop _ _ _ _ _ _ _) as [[h db]|e| |] eqn:Hloop; try done. cbn [mbind res_bind].
  apply append_loop_hash in Hloop.
  pose proof (path_loop_fold (seqZ 0 (getHeight (len data))) (len data) [] (t_appendPath d) (leafHash v)) as Hf.
  cbn [app] in Hf. change (len []) with 0 in Hf. rewrite Hf in Hloop by (by apply ones_in_path).
  injection Hloop as <-.
  destruct (path_of_snoc data _ v Hp) as (t & Htr & Htp & Hpath).
  assert (subTreeIndex (getHeight (len data)) (len data) = t) as ->.
  { apply subTreeIndex_loop_trailing; [done|destruct Htr; lia|apply trailing_height; [lia|done]|].
    pose proof (trailing_height (len data) t ltac:(lia) Htr). lia. }
  destruct Htr as [Ht0 _]. unfold slice. rewrite !decide_True by lia. cbn [mbind res_bind].
  intros [= <-]. unfold tree_ok, saveInfo. cbn [t_appendPath t_root t_size].
  rewrite Z.sub_0_r, drop_0, (take_ge (drop _ _)) by (rewrite length_drop; unfold len in *; lia).
  split_and!; [done|by apply fold_path_root|].
  rewrite len_app, u64_small by (unfold u64_ok; lia). done.
Qed.

End append_path.

(** ** Properties *)

(** C27: the root of [CalculateRoot] commits to the list of values: two lists of
    whatever lengths with the same root are equal, provided no two of the inputs
    hashed in computing the two roots collide. *)
Theorem CalculateRoot_binding `{HashLaws} (a b : list bytes) :
  collision_free (root_messages (length a) a ++ root_messages (length b) b) →
  CalculateRoot a = CalculateRoot b → a = b.
Proof. by apply CalculateRoot_binding_fuel. Qed.

Lemma CalculateRoot_binding_witness :
  collision_free (H := toy_hash) (root_messages (H := toy_hash) 3 [[1]; [2]; [3]] ++ root_messages (H := toy_hash) 3 [[1]; [2]; [4]]) ∧
  CalculateRoot (H := toy_hash) [[1]; [2]; [3]] ≠ CalculateRoot (H := toy_hash) [[1]; [2]; [4]].
Proof.
  assert (collision_free (H := toy_hash) (root_messages (H := toy_hash) 3 [[1]; [2]; [3]] ++ root_messages (H := toy_hash) 3 [[1]; [2]; [4]])) as Hf
    by (apply collision_free_NoDup, (bool_decide_unpack _); vm_compute; exact I).
  split; [exact Hf|]. intros E.
  pose proof (CalculateRoot_binding (H := toy_hash) (H0 := toy_hash_laws) [[1]; [2]; [3]] [[1]; [2]; [4]] Hf E). done.
Defined.

(** [CalculateRootFromAppendPath] on two values and their append path
    returns the right root, but its new append path starts with a hash over
    the whole tree where [Append] keeps the new leaf: the second loop runs
    over the whole append path instead of its first [subTreeIndex]
    elements. *)
Theorem CalculateRootFromAppendPath_wrong_path `{HashLaws} (a b v : bytes) :
  let R := CalculateRoot [a; b] in
  CalculateRootFromAppendPath v [R] 2
  = Ok (mkRootWithAppendPath (CalculateRoot [a; b; v]) [CalculateRoot [a; b; v]; R] 3)
  ∧ path_of [a; b; v] [leafHash v; R].
Proof.
  split; [reflexivity|].
  apply (path_cons 1 [a; b] [v] [leafHash v]); [done|done|done|].
  apply (path_cons 0 [v] [] []); [done|done|done|apply path_nil].
Qed.

Lemma CalculateRootFromAppendPath_wrong_path_witness :
  path_of (H := toy_hash) [[1]; [2]; [3]]
    [leafHash (H := toy_hash) [3]; CalculateRoot (H := toy_hash) [[1]; [2]]].
Proof.
  apply (CalculateRootFromAppendPath_wrong_path (H := toy_hash) (H0 := toy_hash_laws) [1] [2] [3]).
Defined.

(** [CalculateRootFromAppendPath] panics on every size whose bytes hold
    two non-zero ones, such as 257: the leading-zero trimming keeps only the
    bytes from the last non-zero one. *)
Theorem CalculateRootFromAppendPath_panics `{Hasher} value appendPath :
  CalculateRootFromAppendPath value appendPath 257 = Panic.
Proof. reflexivity. Qed.

Lemma right_witness_stuck `{Hasher} fuel a l b r h layer :
  right_witness_loop fuel 0 layer 0 false (a :: l) (b :: r) h = OutOfFuel.
Proof.
  revert layer. induction fuel as [|fuel IH]; intros layer; [done|].
  assert (bit_at 0 layer = false) as Hb by (unfold bit_at; by rewrite Z.shiftr_0_l).
  cbn [right_witness_loop]. rewrite !Hb. apply IH.
Qed.

(** [CalculateRootFromRightWitness], and with it [VerifyRightWitness],
    never returns on some inputs: with node index zero, two or more hashes on
    each side leave its loop without progress whatever number of rounds is
    allowed. *)
Theorem VerifyRightWitness_diverges `{Hasher} fuel a b l c d r root :
  VerifyRightWitness fuel 0 (a :: b :: l) (c :: d :: r) root = OutOfFuel.
Proof. unfold VerifyRightWitness. cbn. by rewrite right_witness_stuck. Qed.
