(* ===== verification/RMTAppend.v ===== *)
(** * RMTAppend: [Append] succeeds and refines the reference root

    [Append] reads the location of every hash of the append path back from the
    database, where the locations and the hashes of the nodes are stored.  This
    file proves that the database always holds what is read: along any sequence
    of appended values [Append] returns a tree, never an error, although equal
    subtrees overwrite each other's location.

    - [located db off data p]: the append path [p] of [data], with the location
      of each element up to the choice between two siblings;
    - [saved off X db db']: the hashes whose location changed from [db] to [db']
      are those of ends of [X], which starts at leaf [off];
    - [climb]: the loop of [Append] over the append path. *)

From S2P Require Import Prelude Collection Varint Codec CodecSpec Message Crypto RMT.

(** ** The store of nodes *)

#[export] Instance nodeLocation_eq_dec : EqDecision nodeLocation.
Proof. solve_decision. Defined.

Section store.
Context `{HashLaws}.
Implicit Types db : gmap bytes bytes.

Lemma ToUint64_FromUint64 v : u64_ok v → Bytes.ToUint64 (Bytes.FromUint64 v) = Ok v.
Proof.
  intros Hv. unfold Bytes.ToUint64, Bytes.FromUint64.
  rewrite decide_True by (unfold len; rewrite Bytes.length_be_put; lia).
  rewrite take_ge by (rewrite Bytes.length_be_put; lia).
  rewrite Bytes.be_get_put by apply Hv. f_equal. apply Z.mod_small, Hv.
Qed.

Lemma location_key_app l :
  location_key l = Bytes.FromUint64 (layerIndex l) ++ Bytes.FromUint64 (nodeIndex l).
Proof.
  unfold location_key, Bytes.JoinSize, Bytes.FromUint64. cbn [concat]. rewrite app_nil_r.
  rewrite take_app_le by (rewrite length_app, !Bytes.length_be_put; lia).
  by rewrite take_ge by (rewrite length_app, !Bytes.length_be_put; lia).
Qed.

Lemma len_location_key l : len (location_key l) = 16.
Proof. rewrite location_key_app. unfold len, Bytes.FromUint64. by rewrite length_app, !Bytes.length_be_put. Qed.

(** A stored location reads back. *)
Lemma newNodeLocationFromKey_key l :
  u64_ok (nodeIndex l) → u64_ok (layerIndex l) → newNodeLocationFromKey (location_key l) = Ok l.
Proof.
  intros Hn Hl. unfold newNodeLocationFromKey, slice. rewrite len_location_key.
  rewrite !decide_True by lia. cbn [mbind res_bind]. rewrite location_key_app.
  set (a := Bytes.FromUint64 (layerIndex l)). set (b := Bytes.FromUint64 (nodeIndex l)).
  assert (length a = 8%nat ∧ length b = 8%nat) as [Ea Eb] by (split; apply Bytes.length_be_put).
  replace (take (Z.to_nat (8 - 0)) (drop (Z.to_nat 0) (a ++ b))) with a
    by (rewrite drop_0, take_app_le, take_ge by lia; done).
  replace (take (Z.to_nat (16 - 8)) (drop (Z.to_nat 8) (a ++ b))) with b
    by (rewrite drop_app_ge, Ea, drop_0, take_ge by lia; done).
  unfold a, b. rewrite !ToUint64_FromUint64 by done. by destruct l.
Qed.

Definition loc_ok (l : nodeLocation) : Prop := u64_ok (nodeIndex l) ∧ u64_ok (layerIndex l).

Lemma location_key_inj l l' : loc_ok l → loc_ok l' → location_key l = location_key l' → l = l'.
Proof.
  intros [] [] E. pose proof (newNodeLocationFromKey_key l) as E1. rewrite E in E1.
  rewrite newNodeLocationFromKey_key in E1 by done. by injection E1 as ->.
Qed.

(** The location kept for a hash. *)
Definition loc_at (db : gmap bytes bytes) (h : bytes) : option bytes := db !! (storePrefixHashToLoc :: h).

Lemma getLocation_at db h l :
  loc_at db h = Some (location_key l) → u64_ok (nodeIndex l) → u64_ok (layerIndex l) →
  getLocation db h = Ok l.
Proof.
  intros Hl ? ?. unfold getLocation. unfold loc_at in Hl. rewrite Hl. cbn. by apply newNodeLocationFromKey_key.
Qed.

(** A node is stored at the location. *)
Definition has_node (db : gmap bytes bytes) (l : nodeLocation) : Prop :=
  ∃ x, getHash db l = Some x ∧ len x = HashLengh.

(** What saving a node changes: the location of its hash and the hash at its
    location. *)
Record writes (h : bytes) (l : nodeLocation) (db db' : gmap bytes bytes) : Prop := {
  writes_at : loc_at db' h = Some (location_key l);
  writes_other h' : len h' = HashLengh → h' ≠ h → loc_at db' h' = loc_at db h';
  writes_node : getHash db' l = Some h;
  writes_node_other l' : loc_ok l → loc_ok l' → l' ≠ l → getHash db' l' = getHash db l';
  writes_keeps l' : has_node db l' → has_node db' l';
}.

Lemma saveNode_writes h l db : len h = HashLengh → writes h l db (saveNode h l db).
Proof.
  intros Hh. unfold HashLengh in *. pose proof (len_location_key l) as Hkl. unfold saveNode.
  split; unfold loc_at, has_node, getHash.
  - rewrite lookup_insert_ne, lookup_insert; [by rewrite decide_True|].
    intros E. injection E as E. rewrite <-E, Hkl in Hh. done.
  - intros h' Hh' Hne. rewrite !lookup_insert_ne; [done|congruence|].
    intros E. injection E as E. rewrite <-E, Hkl in Hh'. done.
  - by rewrite lookup_insert, decide_True by done.
  - intros l' Hl Hl' Hne. rewrite !lookup_insert_ne; [done|..]; intros E; apply (f_equal (drop 1)) in E.
    + pose proof (len_location_key l') as E'. change (h = location_key l') in E. rewrite <-E, Hh in E'. done.
    + exact (Hne (location_key_inj _ _ Hl' Hl (eq_sym E))).
  - intros l' (x & Hx & Hlx). rewrite lookup_insert. case_decide; [by exists h|].
    rewrite lookup_insert_ne; [by exists x|]. intros E. injection E as E.
    pose proof (len_location_key l') as E'. rewrite <-E, Hh in E'. done.
Qed.

(** The key deleted is a hash, which is the key of nothing. *)
Lemma replaceNode_writes h l db :
  len h = HashLengh → has_node db l → ∃ db', replaceNode h l db = Ok db' ∧ writes h l db db'.
Proof.
  intros Hh (x & Hx & Hlx). exists (saveNode h l (delete x db)).
  split; [unfold replaceNode; by rewrite Hx|].
  assert (∀ y, len y ≠ 31 → delete x db !! (storePrefixHashToLoc :: y) = db !! (storePrefixHashToLoc :: y)) as Hd.
  { intros y Hy. apply lookup_delete_ne. intros ->. rewrite len_cons in Hlx. unfold HashLengh in Hlx. lia. }
  destruct (saveNode_writes h l (delete x db) Hh) as [H1 H2 H3 H4 H5]. unfold HashLengh in *.
  split; [done| |done| |].
  - intros h' Hh' Hne. rewrite H2 by done. unfold loc_at. apply Hd. unfold HashLengh in *. lia.
  - intros l' Hl Hl' Hne. rewrite H4 by done. unfold getHash. apply Hd. rewrite len_location_key. done.
  - intros l' (y & Hy & Hly). apply H5. exists y. split; [|done]. unfold getHash in *.
    rewrite Hd; [done|]. rewrite len_location_key. done.
Qed.
End store.

(** ** The loop of [Append] over the append path *)

Section climb.
Context `{HashLaws}.
Implicit Types db : gmap bytes bytes.
Implicit Types data L R X P S p : list bytes.

(** One round: the parent of [x] and the current hash is hashed and stored. *)
Definition climb_step (height : Z) (x h : bytes) (db : gmap bytes bytes) : res (bytes * gmap bytes bytes) :=
  appendLoc ← getLocation db x;
  let nextLoc := mkNodeLocation (Z.shiftr (nodeIndex appendLoc) 1) (u64 (layerIndex appendLoc + 1)) in
  let h := branchHash (x ++ h) in
  db ← (if layerIndex nextLoc =? u64 (height - 1) then replaceNode h nextLoc db
        else Ok (saveNode h nextLoc db));
  Ok (h, db).

Fixpoint climb (height : Z) (p : list bytes) (h : bytes) (db : gmap bytes bytes)
    : res (bytes * gmap bytes bytes) :=
  match p with
  | [] => Ok (h, db)
  | x :: p => '(h, db) ← climb_step height x h db; climb height p h db
  end.

Lemma append_loop_climb layers height n pre p h db :
  length (ones_in n layers) = length p →
  append_loop layers height n (pre ++ p) (len pre) h db = climb height p h db.
Proof.
  revert pre p h db. induction layers as [|l layers IH]; intros pre p h db Hlen.
  { destruct p; [done|simpl in Hlen; lia]. }
  cbn [append_loop]. unfold ones_in in Hlen. rewrite filter_cons in Hlen.
  destruct (bit_at n l) eqn:Hb.
  - rewrite decide_True in Hlen by done. destruct p as [|x p]; [simpl in Hlen; lia|].
    unfold index. rewrite idx_app_len. cbn [mbind res_bind climb]. unfold climb_step.
    destruct (getLocation db x); try done. cbn [mbind res_bind].
    match goal with |- context [if ?b then ?x else ?y] => destruct (if b then x else y) end; try done.
    cbn [mbind res_bind]. specialize (IH (pre ++ [x]) p).
    rewrite <-app_assoc, len_app in IH. apply IH. simpl in Hlen. unfold ones_in. lia.
  - rewrite decide_False in Hlen by done. by apply IH.
Qed.

Lemma climb_snoc height p x h db h' db' :
  climb height p h db = Ok (h', db') → climb height (p ++ [x]) h db = climb_step height x h' db'.
Proof.
  revert h db. induction p as [|y p IH]; intros h db; cbn [app climb].
  - intros [= <- <-]. by destruct (climb_step height x h db) as [[]| | |].
  - destruct (climb_step height y h db) as [[]| | |]; try done. apply IH.
Qed.

(** *** Invariants *)

(** Without a collision the roots of different segments differ. *)
Definition segment X data : Prop := ∃ P Q, data = P ++ X ++ Q.
Definition distinct_roots data : Prop :=
  ∀ A B, segment A data → segment B data → CalculateRoot A = CalculateRoot B → A = B.

Lemma segment_trans A B C : segment A B → segment B C → segment A C.
Proof.
  intros (P & Q & ->) (P' & Q' & ->). exists (P' ++ P), (Q ++ Q'). by rewrite <-!app_assoc.
Qed.
Lemma segment_self A : segment A A.
Proof. exists [], []. by rewrite app_nil_r. Qed.
Lemma segment_l A B : segment A (A ++ B).
Proof. by exists [], B. Qed.
Lemma segment_r A B : segment B (A ++ B).
Proof. exists A, []. by rewrite app_nil_r. Qed.
Lemma distinct_roots_segment A X : segment A X → distinct_roots X → distinct_roots A.
Proof. intros HA HX B C HB HC. apply HX; by eapply segment_trans. Qed.

Lemma len_segment A X : segment A X → len A ≤ len X.
Proof.
  intros (P & Q & ->). rewrite !len_app. pose proof (len_nonneg P). pose proof (len_nonneg Q). lia.
Qed.

(** The location stored for a hash of layer [k] is the node over leaf [off] or
    its sibling. *)
Definition at_layer db (off k : Z) (h : bytes) : Prop :=
  ∃ i, u64_ok i ∧ i / 2 = off / 2 ^ (k + 1) ∧ loc_at db h = Some (location_key (mkNodeLocation i k)).

(** The append path of [data], whose first leaf is [off], with its locations. *)
Inductive located db : Z → list bytes → list bytes → Prop :=
| located_nil off : located db off [] []
| located_cons off k L R p :
    0 ≤ k → len L = 2 ^ k → len R < 2 ^ k → at_layer db off k (CalculateRoot L) →
    located db (off + 2 ^ k) R p → located db off (L ++ R) (p ++ [CalculateRoot L]).

Lemma located_path_of db off data p : located db off data p → path_of data p.
Proof. induction 1 as [|off k L R p]; [apply path_nil|by apply (path_cons k)]. Qed.

(** The locations that changed belong to ends of [X], which starts at leaf
    [off]. *)
Definition saved (off : Z) X db db' : Prop :=
  ∀ h, len h = HashLengh → loc_at db' h = loc_at db h ∨
    ∃ P S k, X = P ++ S ∧ h = CalculateRoot S ∧ 0 ≤ k ∧ 2 ^ k < 2 * len S ∧ len S ≤ 2 ^ k ∧
      loc_at db' h = Some (location_key (mkNodeLocation ((off + len P) / 2 ^ k) k)).

Lemma saved_refl off X db : saved off X db db.
Proof. intros h _. by left. Qed.

Lemma saved_trans off X db1 db2 db3 : saved off X db1 db2 → saved off X db2 db3 → saved off X db1 db3.
Proof.
  intros H1 H2 h Hh. destruct (H2 h Hh) as [->|(P & S & k & ?)]; [by apply H1|].
  right. by exists P, S, k.
Qed.

Lemma saved_app off L X db db' : saved (off + len L) X db db' → saved off (L ++ X) db db'.
Proof.
  intros Hs h Hh. destruct (Hs h Hh) as [|(P & S & k & -> & ? & ? & ? & ? & Hl)]; [by left|].
  right. exists (L ++ P), S, k. rewrite <-app_assoc, len_app, Z.add_assoc. by split_and!.
Qed.

(** Saving the node over all of [X]. *)
Lemma writes_saved off X k db db' :
  0 ≤ k → 2 ^ k < 2 * len X → len X ≤ 2 ^ k →
  writes (CalculateRoot X) (mkNodeLocation (off / 2 ^ k) k) db db' → saved off X db db'.
Proof.
  intros Hk Hlo Hhi [Hat Hother _ _ _] h Hh. destruct (decide (h = CalculateRoot X)) as [->|Hne].
  - right. exists [], X, k. change (len []) with 0. rewrite Z.add_0_r. by split_and!.
  - left. by apply Hother.
Qed.

(** An element of the append path keeps its location up to the sibling: only an
    equal subtree right beside it can overwrite it. *)
Lemma at_layer_saved db db' off0 Pre L R v k :
  let off := off0 + len Pre in
  let X := Pre ++ (L ++ R) ++ [v] in
  at_layer db off k (CalculateRoot L) → saved off0 X db db' → distinct_roots X →
  0 ≤ k → len L = 2 ^ k → len R < 2 ^ k → off mod 2 ^ (k + 1) = 0 → 0 ≤ off0 → off0 + len X ≤ 2 ^ 64 →
  at_layer db' off k (CalculateRoot L).
Proof.
  intros off X (i & Hi & Hi2 & Hloc) Hs Hd Hk HL HR Hoff Hoff0 H64.
  destruct (Hs (CalculateRoot L) (len_CalculateRoot L)) as [E|(P & S & k' & EX & ES & Hk' & Hlo & Hhi & E)].
  { exists i. by rewrite E. }
  assert (L = S) as <-.
  { apply Hd; [|rewrite EX; apply segment_r|done]. exists Pre, (R ++ [v]). unfold X. by rewrite <-app_assoc. }
  assert (0 < 2 ^ k) by (apply Z.pow_pos_nonneg; lia).
  assert (k' = k) as ->.
  { rewrite HL in *. assert (2 ^ k' < 2 ^ (k + 1)) by (rewrite Z.pow_add_r by lia; lia).
    assert (k' < k + 1) by (apply (Z.pow_lt_mono_r_iff 2); lia).
    assert (k ≤ k') by (apply (Z.pow_le_mono_r_iff 2); lia). lia. }
  pose proof (f_equal len EX) as El. unfold X in *. rewrite !len_app, HL in *. change (len [v]) with 1 in *.
  pose proof (len_nonneg R). pose proof (len_nonneg Pre).
  assert (off0 + len P = off + (len R + 1)) as Es by (unfold off; lia).
  assert (((off + (len R + 1)) / 2 ^ k) / 2 = off / 2 ^ (k + 1)) as Eq.
  { rewrite Z.div_div by lia. replace (2 ^ k * 2) with (2 ^ (k + 1)) by (rewrite Z.pow_add_r; lia).
    apply Z.div_exact in Hoff; [|lia]. symmetry. apply (Z.div_unique _ _ _ (len R + 1)); [|lia].
    left. rewrite Z.pow_add_r by lia. lia. }
  exists ((off + (len R + 1)) / 2 ^ k). rewrite E, Es. split_and!; [|done|done].
  assert (0 ≤ off) by lia. split; [apply Z.div_pos; lia|].
  apply Z.le_lt_trans with (off + (len R + 1)); [apply Z.div_le_upper_bound; nia|unfold off; lia].
Qed.

Lemma located_saved db db' off0 Pre off data p v K :
  located db off data p → off = off0 + len Pre → 0 ≤ K → len data < 2 ^ K → off mod 2 ^ K = 0 →
  saved off0 (Pre ++ data ++ [v]) db db' → distinct_roots (Pre ++ data ++ [v]) →
  0 ≤ off0 → off0 + len (Pre ++ data ++ [v]) ≤ 2 ^ 64 → located db' off data p.
Proof.
  intros Hl. revert Pre K. induction Hl as [|off k L R p Hk HL HR Hat Hl IH]; intros Pre K Eoff HK Hlt Hmod Hs Hd Hoff0 H64.
  { apply located_nil. }
  assert (0 < 2 ^ k) by (apply Z.pow_pos_nonneg; lia).
  rewrite len_app in Hlt. pose proof (len_nonneg R).
  assert (k < K) by (apply (Z.pow_lt_mono_r_iff 2); lia).
  assert (off mod 2 ^ (k + 1) = 0) as Hm.
  { apply Z.mod_divide; [lia|]. apply Z.mod_divide in Hmod; [|lia]. eapply Z.divide_trans; [|exact Hmod].
    exists (2 ^ (K - (k + 1))). rewrite <-Z.pow_add_r by lia. f_equal. lia. }
  subst off. apply (located_cons _ _ k); [done..| |].
  - by eapply at_layer_saved.
  - apply (IH (Pre ++ L) k); [rewrite len_app; lia|done|done| |..].
    2-5: by rewrite <-!app_assoc in *.
    rewrite Z.add_mod, Z.mod_same, Z.add_0_r, Z.mod_mod by lia.
    apply Z.mod_divide; [lia|]. apply Z.mod_divide in Hm; [|lia]. eapply Z.divide_trans; [|exact Hm].
    exists 2. rewrite Z.pow_add_r by lia. lia.
Qed.

(** Saving the root of a list leaves the path of its proper segments. *)
Lemma located_writes db db' X l off data p :
  located db off data p → writes (CalculateRoot X) l db db' → distinct_roots X →
  segment data X → len data < len X → located db' off data p.
Proof.
  intros Hl Hw Hd. assert (∀ A, segment A X → len A < len X → CalculateRoot A ≠ CalculateRoot X) as Hne.
  { intros A HA Hlt E. apply Hd in E; [subst; lia|done|apply segment_self]. }
  induction Hl as [|off k L R p Hk HL HR (i & Hi & Hi2 & Hloc) Hl IH]; intros Hseg Hlt; [apply located_nil|].
  rewrite len_app in Hlt. pose proof (len_nonneg R). pose proof (len_nonneg L).
  assert (segment L X) by (eapply segment_trans; [apply segment_l|done]).
  assert (segment R X) by (eapply segment_trans; [apply segment_r|done]).
  assert (0 < 2 ^ k) by (apply Z.pow_pos_nonneg; lia).
  assert (len R < len X) by lia.
  apply (located_cons _ _ k); [done..| |by apply IH]. exists i. split_and!; [done|done|].
  rewrite (writes_other _ _ _ _ Hw); [done|apply len_CalculateRoot|].
  apply Hne; [done|lia].
Qed.

Lemma climb_step_ok height x h db off k :
  at_layer db off k x → 0 ≤ k < 64 → 1 ≤ height < 2 ^ 64 →
  (k + 1 = height - 1 → has_node db (mkNodeLocation (off / 2 ^ (k + 1)) (k + 1))) →
  ∃ db', climb_step height x h db = Ok (branchHash (x ++ h), db') ∧
    writes (branchHash (x ++ h)) (mkNodeLocation (off / 2 ^ (k + 1)) (k + 1)) db db'.
Proof.
  intros (i & Hi & Hi2 & Hloc) Hk Hh Htop. unfold climb_step.
  rewrite (getLocation_at _ _ _ Hloc) by (cbn; first [done|unfold u64_ok; lia]). cbn [mbind res_bind nodeIndex layerIndex].
  rewrite Z.shiftr_div_pow2 by lia. change (2 ^ 1) with 2. rewrite Hi2.
  rewrite !u64_small by (unfold u64_ok; lia).
  assert (len (branchHash (x ++ h)) = HashLengh) as Hl by apply Hash_len.
  destruct (Z.eqb_spec (k + 1) (height - 1)) as [E|E].
  - destruct (replaceNode_writes _ _ db Hl (Htop E)) as (db' & -> & Hw). by exists db'.
  - eexists. split; [reflexivity|]. by apply saveNode_writes.
Qed.

(** [S] is the end of [X] below the node [i] of layer [l], which has a right
    child. *)
Definition last_node (off : Z) X (l i : Z) S : Prop :=
  ∃ P, X = P ++ S ∧ off + len P = i * 2 ^ l ∧ 1 ≤ l ∧ 2 ^ (l - 1) < len S ≤ 2 ^ l.

Lemma last_node_app off L X l i S : last_node (off + len L) X l i S → last_node off (L ++ X) l i S.
Proof.
  intros (P & -> & Hp & Hl & HS). exists (L ++ P). rewrite <-app_assoc, len_app, Z.add_assoc. done.
Qed.

Lemma last_node_single off v l i S : ¬ last_node off [v] l i S.
Proof.
  intros (P & E & _ & Hl & HS). apply (f_equal len) in E. rewrite len_app in E. change (len [v]) with 1 in E.
  pose proof (len_nonneg P). pose proof (Z.pow_pos_nonneg 2 (l - 1)). lia.
Qed.

(** The nodes at the end of the list: the one over all of it and those of the
    part to the right of the largest subtree. *)
Lemma last_node_cons off k L R v l i S :
  0 ≤ k → len L = 2 ^ k → len R < 2 ^ k → off mod 2 ^ (k + 1) = 0 →
  last_node off ((L ++ R) ++ [v]) l i S →
  (l = k + 1 ∧ i = off / 2 ^ (k + 1) ∧ S = (L ++ R) ++ [v]) ∨ last_node (off + 2 ^ k) (R ++ [v]) l i S.
Proof.
  intros Hk HL HR Hoff (P & E & Hp & Hl & HS). pose proof (f_equal len E) as Elen.
  rewrite !len_app, HL in Elen. change (len [v]) with 1 in Elen.
  pose proof (len_nonneg P). pose proof (len_nonneg R). assert (0 < 2 ^ k) by (apply Z.pow_pos_nonneg; lia).
  assert (2 ^ (k + 1) = 2 * 2 ^ k) as Ek by (rewrite Z.pow_add_r by lia; lia).
  apply Z.div_exact in Hoff; [|lia]. set (o := off / 2 ^ (k + 1)) in *.
  destruct (decide (2 ^ k ≤ len P)) as [Hge|Hlt].
  { right. rewrite <-app_assoc in E. exists (drop (length L) P).
    assert (length L ≤ length P)%nat by (unfold len in *; lia).
    split_and!; [|unfold len in *; rewrite length_drop; lia|lia..].
    apply (f_equal (drop (length L))) in E. rewrite drop_app_length, drop_app_le in E by done. done. }
  left. destruct (decide (k + 1 ≤ l)) as [Hle|Hgt].
  - assert (∃ m, 2 ^ l = m * 2 ^ (k + 1)) as [m Em].
    { exists (2 ^ (l - (k + 1))). rewrite <-Z.pow_add_r by lia. f_equal. lia. }
    assert (len P = (i * m - o) * 2 ^ (k + 1)) as HPm.
    { replace (len P) with (i * 2 ^ l - off) by lia. rewrite Em, Hoff at 1. ring. }
    assert (len P = 0) as HP by (rewrite <-(Z.mod_small (len P) (2 ^ (k + 1))), HPm by lia; apply Z.mod_mul; lia).
    destruct P as [|x P]; [|rewrite len_cons in HP; pose proof (len_nonneg P); lia]. cbn [app] in E.
    assert (2 ^ (l - 1) < 2 ^ (k + 1)) by lia. assert (l - 1 < k + 1) by (apply (Z.pow_lt_mono_r_iff 2); lia).
    assert (l = k + 1) as -> by lia. split_and!; [done| |done]. nia.
  - exfalso. assert (∃ m, 2 ^ k = m * 2 ^ l) as [m Em].
    { exists (2 ^ (k - l)). rewrite <-Z.pow_add_r by lia. f_equal. lia. }
    assert (0 < 2 ^ l) by (apply Z.pow_pos_nonneg; lia).
    assert (len P = (i - o * 2 * m) * 2 ^ l) as HP.
    { replace (len P) with (i * 2 ^ l - off) by lia. rewrite Hoff, Ek, Em at 1. ring. }
    assert (i - o * 2 * m ≤ m - 1) by nia. nia.
Qed.

(** What the loop leaves in the database. *)
Record climbed (off : Z) data p v db db' : Prop := {
  climbed_saved : saved off (data ++ [v]) db db';
  climbed_keeps l : has_node db l → has_node db' l;
  climbed_top k : 0 ≤ k → 2 ^ k ≤ len data < 2 ^ (k + 1) →
    has_node db' (mkNodeLocation (off / 2 ^ (k + 1)) (k + 1));
  climbed_nodes l i : loc_ok (mkNodeLocation i l) →
    (∃ S, last_node off (data ++ [v]) l i S ∧ getHash db' (mkNodeLocation i l) = Some (CalculateRoot S)) ∨
    ((∀ S, ¬ last_node off (data ++ [v]) l i S) ∧
     getHash db' (mkNodeLocation i l) = getHash db (mkNodeLocation i l));
  climbed_path : ∃ t, trailing (len data) t ∧ t ≤ len p ∧
    located db' off (data ++ [v]) (fold_path (take (Z.to_nat t) p) (leafHash v) :: drop (Z.to_nat t) p);
}.

Lemma climbed_nil off v db :
  0 ≤ off < 2 ^ 64 → loc_at db (leafHash v) = Some (location_key (mkNodeLocation off 0)) →
  climbed off [] [] v db db.
Proof.
  intros Hoff Hloc. split; [apply saved_refl|done| | |].
  - intros k Hk. change (len []) with 0. pose proof (Z.pow_pos_nonneg 2 k ltac:(lia) Hk). lia.
  - intros l i _. right. split; [|done]. intros S. apply last_node_single.
  - exists 0. split; [done|]. split; [done|]. apply (located_cons _ off 0 [v] [] []); [done..| |apply located_nil].
    exists off. split_and!; [unfold u64_ok; lia|done|done].
Qed.

Lemma climbed_cons_nodes off k L R v db db1 db2 l i :
  0 ≤ k < 64 → len L = 2 ^ k → len R < 2 ^ k → off mod 2 ^ (k + 1) = 0 → 0 ≤ off < 2 ^ 64 →
  writes (CalculateRoot ((L ++ R) ++ [v])) (mkNodeLocation (off / 2 ^ (k + 1)) (k + 1)) db1 db2 →
  loc_ok (mkNodeLocation i l) →
  ((∃ S, last_node (off + 2 ^ k) (R ++ [v]) l i S ∧ getHash db1 (mkNodeLocation i l) = Some (CalculateRoot S)) ∨
   ((∀ S, ¬ last_node (off + 2 ^ k) (R ++ [v]) l i S) ∧
    getHash db1 (mkNodeLocation i l) = getHash db (mkNodeLocation i l))) →
  (∃ S, last_node off ((L ++ R) ++ [v]) l i S ∧ getHash db2 (mkNodeLocation i l) = Some (CalculateRoot S)) ∨
  ((∀ S, ¬ last_node off ((L ++ R) ++ [v]) l i S) ∧
   getHash db2 (mkNodeLocation i l) = getHash db (mkNodeLocation i l)).
Proof.
  intros Hk HL HR Hmod Hoff Hw Hok Hnodes. pose proof (len_nonneg R).
  assert (0 < 2 ^ k) by (apply Z.pow_pos_nonneg; lia).
  assert (2 ^ (k + 1) = 2 * 2 ^ k) as Ek by (rewrite Z.pow_add_r by lia; lia).
  assert (loc_ok (mkNodeLocation (off / 2 ^ (k + 1)) (k + 1))) as Hok'.
  { split; cbn; [|unfold u64_ok; lia]. split; [apply Z.div_pos; lia|].
    apply Z.le_lt_trans with off; [|lia]. apply Z.div_le_upper_bound; nia. }
  destruct (decide (mkNodeLocation i l = mkNodeLocation (off / 2 ^ (k + 1)) (k + 1))) as [E|Hne].
  { left. exists ((L ++ R) ++ [v]). rewrite E. split; [|apply Hw]. injection E as -> ->.
    exists []. change (len []) with 0. rewrite !len_app, HL. change (len [v]) with 1.
    replace (k + 1 - 1) with k by lia. split_and!; [done| |lia..]. apply Z.div_exact in Hmod; lia. }
  rewrite (writes_node_other _ _ _ _ Hw) by done.
  destruct Hnodes as [(S & HS & E)|[HS E]].
  - left. exists S. split; [|done]. rewrite <-app_assoc. apply last_node_app. by rewrite HL.
  - right. split; [|done]. intros S Hlast. eapply last_node_cons in Hlast; [|apply Hk|done..].
    destruct Hlast as [(-> & -> & _)|Hlast]; [done|by eapply HS].
Qed.

(** The path of the extended list, after the round of the largest subtree. *)
Lemma climbed_cons_path off k L R p v db db' :
  0 ≤ k → len L = 2 ^ k → len R < 2 ^ k → 0 ≤ off < 2 ^ 64 → located db (off + 2 ^ k) R p →
  distinct_roots ((L ++ R) ++ [v]) → at_layer db off k (CalculateRoot L) →
  writes (CalculateRoot ((L ++ R) ++ [v])) (mkNodeLocation (off / 2 ^ (k + 1)) (k + 1)) db db' →
  (∃ t, trailing (len R) t ∧ t ≤ len p ∧
    located db (off + 2 ^ k) (R ++ [v]) (fold_path (take (Z.to_nat t) p) (leafHash v) :: drop (Z.to_nat t) p)) →
  ∃ t, trailing (len (L ++ R)) t ∧ t ≤ len (p ++ [CalculateRoot L]) ∧
    located db' off ((L ++ R) ++ [v]) (fold_path (take (Z.to_nat t) (p ++ [CalculateRoot L])) (leafHash v)
                                       :: drop (Z.to_nat t) (p ++ [CalculateRoot L])).
Proof.
  intros Hk HL HR Hoff Hloc Hd Hat Hw (t & Htr & Htp & Hpath). pose proof Htr as [Ht0 _].
  assert (0 < 2 ^ k) by (apply Z.pow_pos_nonneg; lia). pose proof (len_nonneg R). pose proof (len_nonneg p).
  assert (len (R ++ [v]) = len R + 1) as HRv by (rewrite len_app; done).
  rewrite !len_app, HL. change (len [CalculateRoot L]) with 1.
  destruct (decide (len R + 1 < 2 ^ k)) as [Hlt|Hge].
  - exists t. split; [by apply trailing_below|split; [lia|]].
    rewrite take_app_le, drop_app_le by (unfold len in *; lia). rewrite app_comm_cons, <-app_assoc in *.
    assert (len (L ++ R ++ [v]) = 2 ^ k + len R + 1) as HX by (rewrite len_app; lia).
    assert (∀ A, segment A (L ++ R ++ [v]) → len A < len (L ++ R ++ [v]) →
      CalculateRoot A ≠ CalculateRoot (L ++ R ++ [v])) as Hne.
    { intros A HA Hlen E. apply Hd in E; [subst; lia|done|apply segment_self]. }
    apply (located_cons _ off k); [done..|lia| |].
    + destruct Hat as (i & Hi & Hi2 & Hl). exists i. split_and!; [done..|].
      rewrite (writes_other _ _ _ _ Hw); [done|apply len_CalculateRoot|apply Hne; [apply segment_l|lia]].
    + eapply located_writes; [done..|apply segment_r|lia].
  - assert (t = k) as -> by (eapply trailing_unique; [done|done|lia]).
    pose proof (path_of_pow2 _ _ k (located_path_of _ _ _ _ Hpath) Hk ltac:(lia)) as Heq.
    assert (len p = k) as Hpk.
    { assert (drop (Z.to_nat k) p = []) as Hdr by congruence.
      apply (f_equal length) in Hdr. rewrite length_drop in Hdr. unfold len in *. simpl in Hdr. lia. }
    exists (k + 1). split; [apply trailing_full; lia|split; [lia|]].
    rewrite take_ge, drop_ge by (rewrite length_app; unfold len in *; simpl; lia).
    rewrite (fold_path_root (L ++ R)) by (apply (path_cons k); [done..|by eapply located_path_of]).
    rewrite <-(app_nil_r ((L ++ R) ++ [v])) at 1.
    assert (0 < 2 ^ (k + 1)) by (apply Z.pow_pos_nonneg; lia).
    apply (located_cons _ off (k + 1) ((L ++ R) ++ [v]) [] []); [lia| |done| |apply located_nil].
    + rewrite <-app_assoc, len_app, HL, HRv, Z.pow_add_r by lia. change (2 ^ 1) with 2. lia.
    + exists (off / 2 ^ (k + 1)). split_and!; [| |apply Hw].
      * split; [apply Z.div_pos; lia|]. apply Z.le_lt_trans with off; [|lia]. apply Z.div_le_upper_bound; nia.
      * rewrite Z.div_div by lia. by rewrite (Z.pow_add_r 2 (k + 1)) by lia.
Qed.

Lemma climb_ok height p db off data v K :
  located db off data p → distinct_roots (data ++ [v]) →
  0 ≤ off → off + len data + 1 ≤ 2 ^ 64 → 0 ≤ K → len data < 2 ^ K → off mod 2 ^ K = 0 →
  1 ≤ height < 2 ^ 64 → len data ≤ 2 ^ (height - 1) →
  (∀ k, 0 ≤ k → k + 1 = height - 1 → 2 ^ k ≤ len data < 2 ^ (k + 1) →
     has_node db (mkNodeLocation (off / 2 ^ (k + 1)) (k + 1))) →
  loc_at db (leafHash v) = Some (location_key (mkNodeLocation (off + len data) 0)) →
  ∃ db', climb height p (leafHash v) db = Ok (CalculateRoot (data ++ [v]), db') ∧
    climbed off data p v db db'.
Proof.
  intros Hl. revert K. induction Hl as [off|off k L R p Hk HL HR Hat Hl IH];
    intros K Hd Hoff H64 HK Hlt Hmod Hh Hlen Htop Hleaf.
  { exists db. split; [done|]. apply climbed_nil; [change (len []) with 0 in *; lia|].
    by rewrite Z.add_0_r in Hleaf. }
  assert (0 < 2 ^ k) by (apply Z.pow_pos_nonneg; lia). pose proof (len_nonneg R).
  rewrite len_app, HL in *.
  assert (k < K) by (apply (Z.pow_lt_mono_r_iff 2); lia).
  assert (k < 64) by (apply (Z.pow_lt_mono_r_iff 2); lia).
  assert (∀ j, 0 ≤ j ≤ K → off mod 2 ^ j = 0) as Hmods.
  { intros j Hj. apply Z.mod_divide; [pose proof (Z.pow_pos_nonneg 2 j); lia|].
    apply Z.mod_divide in Hmod; [|lia]. eapply Z.divide_trans; [|exact Hmod].
    exists (2 ^ (K - j)). rewrite <-Z.pow_add_r by lia. f_equal. lia. }
  destruct (IH k) as (db1 & Hclimb & Hdone); try done; try lia.
  { eapply distinct_roots_segment; [|exact Hd]. rewrite <-app_assoc. apply segment_r. }
  { rewrite Z.add_mod, Z.mod_same, Hmods by lia. done. }
  { intros k2 Hk2 E2 Hle. exfalso.
    assert (k2 < k) by (apply (Z.pow_lt_mono_r_iff 2); lia). pose proof (Z.pow_pos_nonneg 2 k2).
    assert (2 ^ (height - 1) ≤ 2 ^ k) by (apply Z.pow_le_mono_r; lia). lia. }
  { by rewrite <-Z.add_assoc. }
  destruct Hdone as [Hsav Hkeep Hnode Hnodes Hpath].
  assert (saved off ((L ++ R) ++ [v]) db db1) as Hsav1 by (rewrite <-app_assoc; apply saved_app; by rewrite HL).
  assert (at_layer db1 off k (CalculateRoot L)) as Hat1.
  { pose proof (at_layer_saved db db1 off [] L R v k) as Ha. cbn [app] in Ha.
    change (len []) with 0 in Ha. rewrite Z.add_0_r in Ha. apply Ha; try done; [apply Hmods; lia|].
    rewrite !len_app, HL. change (len [v]) with 1. lia. }
  destruct (climb_step_ok height (CalculateRoot L) (CalculateRoot (R ++ [v])) db1 off k) as (db2 & Hstep & Hw);
    [done|lia|done|intros E; apply Hkeep, Htop; [done|done|]|].
  { rewrite Z.pow_add_r by lia. lia. }
  assert (branchHash (CalculateRoot L ++ CalculateRoot (R ++ [v])) = CalculateRoot ((L ++ R) ++ [v])) as Eh.
  { rewrite <-app_assoc. symmetry. apply (CalculateRoot_split k); [done|done|].
    rewrite len_app. change (len [v]) with 1. lia. }
  rewrite Eh in *. exists db2. split; [by rewrite (climb_snoc _ _ _ _ _ _ _ Hclimb)|].
  assert (located db1 (off + 2 ^ k) R p) as Hl1.
  { eapply (located_saved db db1 (off + 2 ^ k) []); [exact Hl|change (len []) with 0; lia|exact Hk|done| |done|..].
    - rewrite Z.add_mod, Z.mod_same, Hmods by lia. done.
    - eapply distinct_roots_segment; [|exact Hd]. rewrite <-app_assoc. apply segment_r.
    - lia.
    - cbn [app]. rewrite len_app. change (len [v]) with 1. lia. }
  split.
  - eapply saved_trans; [exact Hsav1|]. eapply (writes_saved _ _ (k + 1)); [lia|..|exact Hw].
    all: rewrite !len_app, HL, Z.pow_add_r by lia; change (len [v]) with 1; change (2 ^ 1) with 2; lia.
  - intros l Hn. by apply Hw, Hkeep.
  - intros k0 Hk0 Hb. rewrite len_app, HL in Hb. assert (k0 = k) as ->; [|exists (CalculateRoot ((L ++ R) ++ [v])); split; [apply Hw|apply len_CalculateRoot]].
    assert (2 ^ k0 < 2 ^ (k + 1)) by (rewrite Z.pow_add_r by lia; lia).
    assert (k0 < k + 1) by (apply (Z.pow_lt_mono_r_iff 2); lia).
    assert (k < k0 + 1) by (apply (Z.pow_lt_mono_r_iff 2); lia). lia.
  - intros l i Hok. apply (climbed_cons_nodes off k L R v db db1 db2);
      [lia|done|done|apply Hmods; lia|lia|done|done|by apply Hnodes].
  - apply (climbed_cons_path off k L R p v db1 db2); try done. lia.
Qed.
End climb.

(** ** Append *)

Section append.
Context `{HashLaws}.
Implicit Types data : list bytes.

(** The leaves below node [i] of layer [l], and the nodes of a tree of [n]
    leaves: the leaves, and the nodes that have a right child. *)
Definition block data (l i : Z) : list bytes := take (Z.to_nat (2 ^ l)) (drop (Z.to_nat (i * 2 ^ l)) data).
Definition node_in (n l i : Z) : Prop :=
  0 ≤ i ∧ ((l = 0 ∧ i < n) ∨ (1 ≤ l ∧ i * 2 ^ l + 2 ^ (l - 1) < n)).

Lemma block_app data Y l i :
  0 ≤ l → 0 ≤ i → (i + 1) * 2 ^ l ≤ len data → block (data ++ Y) l i = block data l i.
Proof.
  intros Hl Hi Hle. unfold block, len in *. assert (0 < 2 ^ l) by (apply Z.pow_pos_nonneg; lia).
  rewrite drop_app_le, take_app_le; [done|rewrite length_drop; nia|nia].
Qed.

Lemma block_end data l i : len data ≤ (i + 1) * 2 ^ l → block data l i = drop (Z.to_nat (i * 2 ^ l)) data.
Proof. intros Hle. unfold block, len in *. apply take_ge. rewrite length_drop. nia. Qed.

Lemma node_in_ok n l i : n ≤ 2 ^ 64 → node_in n l i → loc_ok (mkNodeLocation i l).
Proof.
  intros Hn [Hi [[-> Hlt]|[Hl Hlt]]]; [split; cbn; unfold u64_ok; lia|].
  assert (0 < 2 ^ (l - 1)) by (apply Z.pow_pos_nonneg; lia). assert (0 < 2 ^ l) by (apply Z.pow_pos_nonneg; lia).
  assert (2 ^ (l - 1) < 2 ^ 64) by nia. assert (l - 1 < 64) by (apply (Z.pow_lt_mono_r_iff 2); lia).
  split; cbn; unfold u64_ok; nia.
Qed.

(** The state of a tree that holds [data]: every node is stored, and the
    location of the hash of a value is that of an equal value. *)
Record tree_inv data (d : RegularMerkleTree) : Prop := {
  inv_ok : tree_ok data d;
  inv_located : located (t_db d) 0 data (t_appendPath d);
  inv_nodes l i : node_in (len data) l i →
    getHash (t_db d) (mkNodeLocation i l) = Some (CalculateRoot (block data l i));
  inv_leaf v : v ∈ data → ∃ j, data !! j = Some v ∧
    loc_at (t_db d) (leafHash v) = Some (location_key (mkNodeLocation (Z.of_nat j) 0));
}.

Lemma inv_top data d k :
  tree_inv data d → 0 ≤ k → 2 ^ k < len data → has_node (t_db d) (mkNodeLocation 0 (k + 1)).
Proof.
  intros Hinv Hk Hlt. eexists. split; [apply Hinv|apply len_CalculateRoot].
  split; [done|right]. replace (k + 1 - 1) with k by lia. lia.
Qed.

(** Storing the leaf and then the nodes of the loop keeps the two parts of the
    invariant. *)
Lemma append_nodes data d p v db db' :
  tree_inv data d → len data + 1 < 2 ^ 64 →
  writes (leafHash v) (mkNodeLocation (len data) 0) (t_db d) db → climbed 0 data p v db db' →
  ∀ l i, node_in (len (data ++ [v])) l i →
    getHash db' (mkNodeLocation i l) = Some (CalculateRoot (block (data ++ [v]) l i)).
Proof.
  intros Hinv H64 Hw Hc l i Hin. set (X := data ++ [v]) in *.
  assert (len X = len data + 1) as HX by (unfold X; by rewrite len_app).
  assert (loc_ok (mkNodeLocation i l)) as Hok by (apply (node_in_ok (len X)); [lia|done]).
  assert (loc_ok (mkNodeLocation (len data) 0)) as Hok0
    by (pose proof (len_nonneg data); split; cbn; unfold u64_ok; lia).
  destruct Hin as [Hi [[-> Hlt]|[Hl Hlt]]].
  - destruct (climbed_nodes _ _ _ _ _ _ Hc 0 i Hok) as [(S & (P & _ & _ & ? & _) & _)|[_ ->]]; [lia|].
    destruct (decide (i = len data)) as [->|Hne].
    + rewrite (writes_node _ _ _ _ Hw), block_end by lia. rewrite Z.mul_1_r. unfold X, len.
      by rewrite Nat2Z.id, drop_app_length.
    + rewrite (writes_node_other _ _ _ _ Hw) by (done || congruence).
      unfold X. rewrite block_app by lia. apply Hinv. split; [done|left; lia].
  - assert (0 < 2 ^ (l - 1)) by (apply Z.pow_pos_nonneg; lia).
    assert (2 ^ l = 2 * 2 ^ (l - 1)) as El by (rewrite <-Z.pow_succ_r by lia; f_equal; lia).
    destruct (climbed_nodes _ _ _ _ _ _ Hc l i Hok) as [(S & (P & EX & HP & _ & HS) & ->)|[Hno E]].
    + fold X in EX. pose proof (f_equal len EX) as EL. rewrite len_app, HX in EL.
      rewrite block_end by lia. f_equal. f_equal. rewrite EX.
      replace (Z.to_nat (i * 2 ^ l)) with (length P) by (unfold len in *; lia). by rewrite drop_app_length.
    + destruct (decide ((i + 1) * 2 ^ l ≤ len data)) as [Hle|Hgt].
      * rewrite E, (writes_node_other _ _ _ _ Hw) by (done || (intros [=]; lia)).
        unfold X. rewrite block_app by lia. apply Hinv. split; [done|right; lia].
      * exfalso. apply (Hno (drop (Z.to_nat (i * 2 ^ l)) X)). exists (take (Z.to_nat (i * 2 ^ l)) X).
        fold X. rewrite take_drop. unfold len in *. rewrite length_take, length_drop. split_and!; [done|nia..].
Qed.

Lemma append_leaf data d v db db' :
  tree_inv data d → distinct_roots (data ++ [v]) →
  writes (leafHash v) (mkNodeLocation (len data) 0) (t_db d) db → saved 0 (data ++ [v]) db db' →
  ∀ u, u ∈ data ++ [v] → ∃ j, (data ++ [v]) !! j = Some u ∧
    loc_at db' (leafHash u) = Some (location_key (mkNodeLocation (Z.of_nat j) 0)).
Proof.
  intros Hinv Hd Hw Hs u Hu. pose proof (Hash_len (leafPrefix :: u)) as Hlen.
  destruct (Hs (leafHash u) Hlen) as [->|(P & S & k & EX & ES & Hk & Hlo & Hhi & ->)].
  - destruct (decide (leafHash u = leafHash v)) as [E|Hne].
    + exists (length data). rewrite E, (writes_at _ _ _ _ Hw), lookup_app_r, Nat.sub_diag by lia.
      split; [|done]. cbn. f_equal. change (CalculateRoot [u] = CalculateRoot [v]) in E.
      apply Hd in E; [by injection E|apply list_elem_of_split in Hu as (A & B & ->); by exists A, B|apply segment_r].
    + rewrite (writes_other _ _ _ _ Hw) by done. destruct (inv_leaf _ _ Hinv u) as (j & Hj & E).
      { apply elem_of_app in Hu as [|Hu]; [done|]. apply list_elem_of_singleton in Hu. by subst. }
      exists j. split; [|done]. by apply lookup_app_l_Some.
  - assert ([u] = S) as <-.
    { apply Hd; [|rewrite EX; apply segment_r|done].
      apply list_elem_of_split in Hu as (A & B & ->). by exists A, B. }
    change (len [u]) with 1 in *. assert (k = 0) as ->.
    { assert (k < 1) by (apply (Z.pow_lt_mono_r_iff 2); lia). lia. }
    exists (length P). rewrite EX, lookup_app_r, Nat.sub_diag by lia. split; [done|].
    by rewrite Z.div_1_r.
Qed.

(** Storing the tree information touches no node. *)
Lemma loc_at_info db x h : loc_at (<[[storePrefixInfo] := x]> db) h = loc_at db h.
Proof. unfold loc_at. by rewrite lookup_insert_ne. Qed.

Lemma located_ext db db' off data p :
  (∀ h, loc_at db' h = loc_at db h) → located db off data p → located db' off data p.
Proof.
  intros Heq. induction 1 as [|off k L R p Hk HL HR (i & Hi & Hi2 & Hloc) Hl IH]; [apply located_nil|].
  apply (located_cons _ _ k); [done..| |done]. exists i. by rewrite Heq.
Qed.

Lemma getHash_info db x l : getHash (<[[storePrefixInfo] := x]> db) l = getHash db l.
Proof. unfold getHash. by rewrite lookup_insert_ne. Qed.

Lemma tree_inv_new db : tree_inv [] (NewRegularMerkleTree db).
Proof.
  split; [apply NewRegularMerkleTree_ok|apply located_nil| |by intros v ?%elem_of_nil].
  intros l i [Hi [[_ Hlt]|[Hl Hlt]]]; change (len []) with 0 in *; [lia|].
  pose proof (Z.pow_pos_nonneg 2 l). pose proof (Z.pow_pos_nonneg 2 (l - 1)). nia.
Qed.

Lemma Append_first d v :
  tree_inv [] d → ∃ d', Append v d = Ok d' ∧ tree_inv [v] d'.
Proof.
  intros [Hok Hloc _ _]. pose proof Hok as (Hp & _ & Hsize). unfold Append. rewrite Hsize. change (len []) with 0 in *.
  eexists. split; [reflexivity|].
  assert (t_appendPath d = []) as Hnil.
  { inversion Hp as [E|k L R p ? HL ? ? E]; [done|]. apply app_nil in E as [-> ->].
    change (len []) with 0 in HL. pose proof (Z.pow_pos_nonneg 2 k). lia. }
  pose proof (saveNode_writes (leafHash v) (mkNodeLocation 0 0) (t_db d) (Hash_len _)) as Hw.
  split; cbn [t_db t_appendPath].
  - apply (Append_tree_ok [] d v); [done|done|]. unfold Append. by rewrite Hsize.
  - rewrite Hnil. apply (located_cons _ 0 0 [v] [] []); [done..| |apply located_nil].
    exists 0. split_and!; [done|done|apply Hw].
  - intros l i [Hi [[-> Hlt]|[Hl Hlt]]]; change (len [v]) with 1 in *.
    + assert (i = 0) as -> by lia. apply Hw.
    + pose proof (Z.pow_pos_nonneg 2 l). pose proof (Z.pow_pos_nonneg 2 (l - 1)). nia.
  - intros u ->%list_elem_of_singleton. exists 0%nat. split; [done|apply Hw].
Qed.

(** The leaf is stored before the loop runs. *)
Lemma leaf_located data d v db :
  tree_inv data d → distinct_roots (data ++ [v]) → len data + 1 < 2 ^ 64 →
  writes (leafHash v) (mkNodeLocation (len data) 0) (t_db d) db →
  saved 0 (data ++ [v]) (t_db d) db ∧ located db 0 data (t_appendPath d).
Proof.
  intros Hinv Hd H64 Hw. pose proof (len_nonneg data).
  assert (saved 0 (data ++ [v]) (t_db d) db).
  { apply saved_app, (writes_saved _ [v] 0); [done..|]. rewrite Z.div_1_r. exact Hw. }
  split; [done|].
  apply (located_saved (t_db d) db 0 [] 0 data _ v 64); try done; [apply Hinv|lia|].
  cbn [app]. rewrite len_app. change (len [v]) with 1. lia.
Qed.

(** The height of the tree and the node that is replaced at the top. *)
Lemma climb_append data d v db :
  tree_inv data d → distinct_roots (data ++ [v]) → 0 < len data → len data + 1 < 2 ^ 64 →
  writes (leafHash v) (mkNodeLocation (len data) 0) (t_db d) db →
  let height := getHeight (len data) in
  ∃ db', append_loop (seqZ 0 height) height (len data) (t_appendPath d) 0 (leafHash v) db
         = Ok (CalculateRoot (data ++ [v]), db') ∧ climbed 0 data (t_appendPath d) v db db'.
Proof.
  intros Hinv Hd Hpos H64 Hw height. destruct (leaf_located data d v db Hinv Hd H64 Hw) as (_ & Hloc).
  pose proof Hinv as [(Hp & _) _ _ _]. pose proof (getHeight_pow (len data) Hpos) as [Hlt Hh].
  pose proof (Z.log2_up_nonneg (len data)).
  destruct (climb_ok height (t_appendPath d) db 0 data v 64 Hloc Hd) as (db' & Hclimb & Hdone);
    [lia..|done| | | |apply Hw|].
  { unfold height; rewrite getHeight_eq by done. assert (Z.log2_up (len data) ≤ 64); [|lia]. apply Z.log2_up_le_pow2; lia. }
  { unfold height; rewrite getHeight_eq by done. replace (Z.log2_up (len data) + 1 - 1) with (Z.log2_up (len data)) by lia.
    destruct (decide (len data = 1)) as [->|]; [done|]. apply Z.log2_up_spec. lia. }
  { intros k Hk E Hb. rewrite Z.div_0_l by (pose proof (Z.pow_pos_nonneg 2 (k + 1)); lia).
    apply Hw, (inv_top data); [done|done|]. unfold height in E. rewrite getHeight_eq in E by done.
    destruct (decide (len data = 1)) as [E1|]; [rewrite E1 in E; cbn in E; lia|].
    pose proof (Z.log2_up_spec (len data) ltac:(lia)) as [Hs _].
    replace k with (Z.pred (Z.log2_up (len data))) by lia. done. }
  exists db'. split; [|done].
  pose proof (append_loop_climb (seqZ 0 height) height (len data) [] (t_appendPath d) (leafHash v) db) as Hloop.
  cbn [app] in Hloop. change (len []) with 0 in Hloop. rewrite Hloop by (by apply ones_in_path). done.
Qed.

Lemma Append_inv data d v :
  tree_inv data d → distinct_roots (data ++ [v]) → len data + 1 < 2 ^ 64 →
  ∃ d', Append v d = Ok d' ∧ tree_inv (data ++ [v]) d'.
Proof.
  intros Hinv Hd H64. pose proof (len_nonneg data).
  destruct (decide (len data = 0)) as [E0|E0].
  { destruct data as [|x data]; [|rewrite len_cons in E0; pose proof (len_nonneg data); lia].
    by apply Append_first. }
  pose proof Hinv as [Hok _ _ _]. pose proof Hok as (_ & _ & Hsize).
  pose proof (saveNode_writes (leafHash v) (mkNodeLocation (len data) 0) (t_db d) (Hash_len _)) as Hw.
  set (db := saveNode _ _ _) in Hw.
  destruct (climb_append data d v db Hinv Hd ltac:(lia) H64 Hw) as (db' & Hloop & Hc).
  pose proof (climbed_path _ _ _ _ _ _ Hc) as (t & Htr & Htp & Hpath).
  assert (∃ d' x, Append v d = Ok d' ∧ t_db d' = <[[storePrefixInfo] := x]> db' ∧
    t_appendPath d' = fold_path (take (Z.to_nat t) (t_appendPath d)) (leafHash v) :: drop (Z.to_nat t) (t_appendPath d))
    as (d' & x & Happ & Hdb & Hpath').
  { unfold Append. rewrite Hsize. fold db. destruct (Z.eqb_spec (len data) 0); [lia|].
    rewrite Hloop. cbn [mbind res_bind].
    assert (subTreeIndex (getHeight (len data)) (len data) = t) as ->.
    { pose proof (trailing_height (len data) t ltac:(lia) Htr).
      apply subTreeIndex_loop_trailing; [done|destruct Htr; lia|done|lia]. }
    destruct Htr as [Ht0 _]. unfold slice. rewrite !decide_True by lia. cbn [mbind res_bind].
    rewrite Z.sub_0_r, drop_0, (take_ge (drop _ _)) by (rewrite length_drop; unfold len in *; lia).
    do 2 eexists. split_and!; reflexivity. }
  exists d'. split; [done|]. split; [by eapply Append_tree_ok|..]; rewrite ?Hdb, ?Hpath'.
  - by eapply located_ext; [apply loc_at_info|].
  - intros l i Hin. rewrite getHash_info. by eapply append_nodes.
  - intros u Hu. rewrite loc_at_info. eapply append_leaf; [done..|apply Hc|done].
Qed.

Lemma append_all_inv values data d :
  tree_inv data d → distinct_roots (data ++ values) → len data + len values < 2 ^ 64 →
  ∃ d', append_all values d = Ok d' ∧ tree_inv (data ++ values) d'.
Proof.
  revert data d. induction values as [|v values IH]; intros data d Hinv Hd H64; cbn [append_all].
  { exists d. by rewrite app_nil_r. }
  rewrite len_cons in H64. pose proof (len_nonneg values).
  assert (data ++ v :: values = (data ++ [v]) ++ values) as E by (by rewrite <-app_assoc).
  destruct (Append_inv data d v Hinv) as (d1 & -> & Hinv1); [|lia|].
  { eapply distinct_roots_segment; [|exact Hd]. rewrite E. apply segment_l. }
  cbn [mbind res_bind]. rewrite E in *. apply IH; [done|done|].
  rewrite len_app. change (len [v]) with 1. lia.
Qed.

(** Everything that is hashed for the roots of the segments of a list. *)
Definition segments data : list (list bytes) :=
  i ← seq 0 (S (length data)); j ← seq 0 (S (length data)); [take j (drop i data)].
Definition segment_messages data : list bytes :=
  s ← segments data; root_messages (length s) s.

Lemma segments_spec A data : segment A data → A ∈ segments data.
Proof.
  intros (P & Q & ->). unfold segments. apply list_elem_of_bind. exists (length P).
  rewrite !length_app. split; [|apply elem_of_seq; lia].
  apply list_elem_of_bind. exists (length A). split; [|apply elem_of_seq; lia].
  rewrite drop_app_length, take_app_length. set_solver.
Qed.

Lemma collision_free_distinct_roots data : collision_free (segment_messages data) → distinct_roots data.
Proof.
  intros Hf A B HA%segments_spec HB%segments_spec.
  apply (CalculateRoot_binding_fuel (length A) (length B)); [done..|].
  eapply collision_free_subset; [|exact Hf]. intros x [Hx|Hx]%elem_of_app.
  all: apply list_elem_of_bind; eexists; split; [exact Hx|done].
Qed.
End append.

(** ** Properties *)

(** C28: Appending values one at a time to an empty tree, over whatever
    database, always succeeds and yields the tree that the reference defines:
    the root is [CalculateRoot] of all the values, the append path holds the
    roots of the perfect subtrees, and the size is the number of values.  Equal
    values are allowed, though equal subtrees share one location in the
    database; only the hashes of different segments must differ. *)
Theorem Append_refines_CalculateRoot `{HashLaws} db values :
  collision_free (segment_messages values) → len values < 2 ^ 64 →
  ∃ d, append_all values (NewRegularMerkleTree db) = Ok d ∧
    t_root d = CalculateRoot values ∧ path_of values (t_appendPath d) ∧ t_size d = len values.
Proof.
  intros Hf H64. destruct (append_all_inv values [] _ (tree_inv_new db)) as (d & Hall & [(? & ? & ?) _ _ _]);
    [by apply collision_free_distinct_roots|done|]. by exists d.
Qed.

Lemma Append_refines_CalculateRoot_witness :
  let values := [[1]; [2]; [1]; [2]; [3]; [2]; [1]] in
  ∃ d, append_all (H := toy_hash) values (NewRegularMerkleTree (H := toy_hash) ∅) = Ok d ∧
    t_root d = CalculateRoot (H := toy_hash) values.
Proof.
  intros values.
  destruct (Append_refines_CalculateRoot (H := toy_hash) (H0 := toy_hash_laws) ∅ values) as (d & Hd & Hr & _);
    [apply collision_free_NoDup, (bool_decide_unpack _); vm_compute; exact I|reflexivity|].
  exists d. split; [exact Hd|exact Hr].
Defined.
