(* ===== verification/RMTProof.v ===== *)
(** * RMTProof: proofs of the regular Merkle tree (pkg/trie/rmt)

    The rest of util.go, rmt.go, root.go and verify.go: the numbering of nodes by
    binary strings, generation and verification of proofs, right witnesses and
    updates.  A node of layer [l] and position [i] in a tree of height [h] has
    the index [2^(h-l) + i], so the root has index 2. *)

From S2P Require Import Prelude Collection Varint Codec CodecSpec Message Crypto RMT.

(** ** strconv *)

(** Binary strings as the codes of their characters. *)
Definition char_0 : Z := 48.
Definition char_1 : Z := 49.
Definition char_minus : Z := 45.
Definition char_plus : Z := 43.

Fixpoint pos_digits (p : positive) : bytes :=
  match p with
  | xH => [char_1]
  | xO p => pos_digits p ++ [char_0]
  | xI p => pos_digits p ++ [char_1]
  end.

(** [strconv.FormatInt(v, 2)]. *)
Definition FormatInt (v : Z) : bytes :=
  match v with
  | Z0 => [char_0]
  | Zpos p => pos_digits p
  | Zneg p => char_minus :: pos_digits p
  end.

Definition ErrSyntax : error := Errorf "invalid syntax".
Definition ErrRange : error := Errorf "value out of range".

Fixpoint parse_digits (acc : Z) (s : bytes) : res Z :=
  match s with
  | [] => Ok acc
  | c :: s =>
      if c =? char_0 then parse_digits (2 * acc) s
      else if c =? char_1 then parse_digits (2 * acc + 1) s
      else Err ErrSyntax
  end.

(** [strconv.ParseInt(s, 2, bitSize)]. *)
Definition ParseInt (s : bytes) (bitSize : Z) : res Z :=
  let '(neg, digits) :=
    match s with
    | c :: rest => if c =? char_plus then (false, rest) else if c =? char_minus then (true, rest) else (false, s)
    | [] => (false, s)
    end in
  if bool_decide (digits = []) then Err ErrSyntax
  else
    un ← parse_digits 0 digits;
    let cutoff := 2 ^ (bitSize - 1) in
    if negb neg && (cutoff <=? un) then Err ErrRange
    else if neg && (cutoff <? un) then Err ErrRange
    else Ok (if neg then - un else un).

(** ** util.go *)

Definition rootIndex : Z := 2.

Section util.
Context `{Hasher}.

(** [math.Floor] and [math.Ceil] of the half, exact below [2^53]. *)
Fixpoint layer_loop (n : nat) (max r : Z) : Z :=
  match n with
  | O => max
  | S n =>
      let even := Z.rem r 2 =? 0 in
      let r := r + max mod 2 in
      let max := if even then max / 2 else (max + 1) / 2 in
      layer_loop n max r
  end.

Definition getLayerStructure (size : Z) : list Z :=
  (λ layer, layer_loop (Z.to_nat layer) size 0) <$> seqZ 0 (getHeight size).

(** [len(strconv.FormatInt(int64(idx), 2))]. *)
Definition bin_size (idx : Z) : Z := len (FormatInt (i64 idx)).

Definition areSameLayer (idx1 idx2 : Z) : bool := bin_size idx1 =? bin_size idx2.
Definition length_ (idx : Z) : Z := bin_size idx.
Definition areSiblings (idx1 idx2 : Z) : bool := Z.lxor idx1 idx2 =? 1.

(** The padding loop does nothing when [int(length)] is not above the length of
    the string, in particular when the difference wrapped around. *)
Definition location_index (l : nodeLocation) (height : Z) : res Z :=
  let length := u64 (height - layerIndex l) in
  if length <=? 0 then Err (Errorf "invalid height or layer index")
  else
    let numStr := FormatInt (i64 (nodeIndex l)) in
    let numStr := replicate (Z.to_nat (i64 length - len numStr)) char_0 ++ numStr in
    r ← ParseInt (char_1 :: numStr) 32;
    Ok (u64 r).

Definition newNodeLocation (index height : Z) : res nodeLocation :=
  let numStr := FormatInt (i64 index) in
  match numStr with
  | [] => Panic
  | c :: nodeIndexBinaryStr =>
      if negb (c =? char_1) then Err (Errorf "index must start from 1")
      else
        nodeIndex ← ParseInt nodeIndexBinaryStr 32;
        let layerIndex := i64 height - len nodeIndexBinaryStr in
        if layerIndex <? 0 then Err (Errorf "invalid height or layer index")
        else Ok (mkNodeLocation (u64 nodeIndex) (u64 layerIndex))
  end.

(** The descent to the first layer that has the sibling, which ends at layer
    zero. *)
Fixpoint sibling_loop (layer : nat) (structure : list Z) (siblingNodeIndex : Z) : res (Z * Z) :=
  count ← index structure (Z.of_nat layer);
  match layer with
  | O => Ok (siblingNodeIndex, 0)
  | S below =>
      if u64 count <=? siblingNodeIndex
      then sibling_loop below structure (u64 (Z.shiftl siblingNodeIndex 1))
      else Ok (siblingNodeIndex, Z.of_nat layer)
  end.

Definition getRightSiblingInfo (nodeIndex layerIndex size : Z) : res (option nodeLocation) :=
  let structure := getLayerStructure size in
  let siblingNodeIndex := u64 (u64 (Z.shiftl (Z.shiftr nodeIndex 1) 1) + u64 (nodeIndex + 1) mod 2) in
  '(siblingNodeIndex, siblingLayerIndex) ← sibling_loop (Z.to_nat layerIndex) structure siblingNodeIndex;
  if size <=? siblingNodeIndex then Ok None
  else Ok (Some (mkNodeLocation siblingNodeIndex siblingLayerIndex)).

(** *** Sorted indexes: deeper layers first, and left to right in a layer *)

Definition indexes_less (a b : Z) : bool :=
  if bin_size a =? bin_size b then a <? b else b <? a.
Definition indexes_sort (idxs : list Z) : list Z := sort_slice indexes_less idxs.

Fixpoint findInsertIndex_loop (fuel : nat) (arr : list Z) (idx low high : Z) : res Z :=
  if 1 + low <? high then
    match fuel with
    | O => OutOfFuel
    | S fuel =>
        let middle := low + Z.shiftr (high - low) 1 in
        middleVal ← index arr middle;
        if middleVal =? idx then Ok middle
        else if bin_size idx =? bin_size middleVal then
          if idx <? middleVal then findInsertIndex_loop fuel arr idx low middle
          else findInsertIndex_loop fuel arr idx middle high
        else
          if middleVal <? idx then findInsertIndex_loop fuel arr idx low middle
          else findInsertIndex_loop fuel arr idx middle high
    end
  else Ok high.
Definition findInsertIndex (arr : list Z) (idx : Z) : res Z :=
  findInsertIndex_loop (S (length arr)) arr idx (-1) (len arr).

Definition indexes_insert (idx : Z) (original : list Z) : res (list Z) :=
  i ← findInsertIndex original idx;
  if len original <=? i then Ok (original ++ [idx])
  else
    x ← index original i;
    if negb (x =? idx)
    then Ok (take (Z.to_nat i) original ++ idx :: drop (Z.to_nat i) original)
    else Ok original.

Definition indexes_remove (val : Z) (idxs : list Z) : list Z := filter (λ idx, idx ≠ val) idxs.

Fixpoint findIndex_from (i : Z) (idxs : list Z) (val : Z) : Z :=
  match idxs with
  | [] => -1
  | x :: idxs => if x =? val then i else findIndex_from (i + 1) idxs val
  end.
Definition indexes_findIndex (idxs : list Z) (val : Z) : Z := findIndex_from 0 idxs val.

Definition isLeft (index : Z) : bool := Z.land index 1 =? 0.

(** Every round replaces an index by a shorter one: the number of binary digits
    bounds the rounds. *)
Definition digits_bound (idxs : list Z) : nat :=
  S (sum_list ((λ idx, Z.to_nat (Z.log2 idx + 1)) <$> idxs)).

(** *** calculatePathNodes *)

(** The loop over the sorted indexes.  The hash of a node without sibling goes
    to [parentCache], every other parent to [result].  Hashes have no spare
    capacity, so the [append] of two of them copies. *)
Fixpoint path_nodes_loop (fuel : nat) (size height : Z) (result parentCache : gmap Z bytes)
    (copiedSiblings : list bytes) (sortedIndexes : list Z) : res (gmap Z bytes) :=
  match sortedIndexes with
  | [] => Ok result
  | idx :: rest =>
      if idx =? rootIndex then Ok result
      else
        match fuel with
        | O => OutOfFuel
        | S fuel =>
            currentHash ← ok_or (match result !! idx with Some h => Some h | None => parentCache !! idx end)
                                (Errorf "invalid state. Hash for index should exist");
            let parentIdx := Z.shiftr idx 1 in
            currentLoc ← newNodeLocation idx height;
            siblingLoc ← getRightSiblingInfo (nodeIndex currentLoc) (layerIndex currentLoc) size;
            match siblingLoc with
            | Some siblingLoc =>
                siblingIdx ← location_index siblingLoc height;
                '(siblingHash, copiedSiblings) ←
                  match result !! siblingIdx with
                  | Some siblingHash => Ok (siblingHash, copiedSiblings)
                  | None =>
                      match copiedSiblings with
                      | siblingHash :: copiedSiblings => Ok (siblingHash, copiedSiblings)
                      | [] => Panic
                      end
                  end;
                let parentHash :=
                  if isLeft idx then branchHash (currentHash ++ siblingHash)
                  else branchHash (siblingHash ++ currentHash) in
                let conflict :=
                  match result !! parentIdx with
                  | Some existingParentHash => negb (bytes_equal existingParentHash parentHash)
                  | None => false
                  end in
                if (conflict : bool) then Err (Errorf "invalid query hashes")
                else
                  sortedIndexes ← indexes_insert parentIdx rest;
                  path_nodes_loop fuel size height (<[parentIdx := parentHash]> result) parentCache
                    copiedSiblings sortedIndexes
            | None =>
                sortedIndexes ← indexes_insert parentIdx rest;
                path_nodes_loop fuel size height result (<[parentIdx := currentHash]> parentCache)
                  copiedSiblings sortedIndexes
            end
        end
  end.

Fixpoint collect_queries (idxs : list Z) (queryHashes : list bytes) (sortedIndexes : list Z)
    (result : gmap Z bytes) : list Z * gmap Z bytes :=
  match idxs, queryHashes with
  | idx :: idxs, query :: queryHashes =>
      if idx =? 0 then collect_queries idxs queryHashes sortedIndexes result
      else collect_queries idxs queryHashes (sortedIndexes ++ [idx]) (<[idx := query]> result)
  | _, _ => (sortedIndexes, result)
  end.

Definition calculatePathNodes (queryHashes : list bytes) (size : Z) (idxs : list Z)
    (siblingHashes : list bytes) : res (gmap Z bytes) :=
  if negb (len queryHashes =? len idxs) then
    Err (Errorf "size of queryHashes and indexes does not match")
  else if len queryHashes =? 0 then Err (Errorf "queryHashes and indexes cannot be empty")
  else
    let '(sortedIndexes, result) := collect_queries idxs queryHashes [] ∅ in
    path_nodes_loop (digits_bound idxs) size (getHeight size) result ∅ siblingHashes
      (indexes_sort sortedIndexes).

(** ** verify.go and root.go *)

Definition VerifyProof (queryHashes : list bytes) (proof : Proof) (rootHash : bytes) : res bool :=
  if pr_Size proof =? 0 then Ok false
  else
    match calculatePathNodes queryHashes (pr_Size proof) (pr_Idxs proof) (pr_SiblingHashes proof) with
    | Ok calculatedTree =>
        match calculatedTree !! rootIndex with
        | Some calculatedRoot => Ok (bytes_equal calculatedRoot rootHash)
        | None => Ok false
        end
    | Err _ => Ok false
    | Panic => Panic
    | OutOfFuel => OutOfFuel
    end.

Definition CalculateRootFromUpdateData (updateData : list bytes) (proof : Proof) : res bytes :=
  if (pr_Size proof =? 0) || (len (pr_Idxs proof) =? 0) then
    Err (Errorf "invalid proof. size and index must not be empty")
  else if negb (len updateData =? len (pr_Idxs proof)) then
    Err (Errorf "invalid proof. Size of UpdateData must equal to indexes")
  else
    let updateHashes := leafHash <$> updateData in
    calculatedTree ← calculatePathNodes updateHashes (pr_Size proof) (pr_Idxs proof) (pr_SiblingHashes proof);
    ok_or (calculatedTree !! rootIndex) (Errorf "invalid path calculated").

(** ** rmt.go *)

(** An unknown hash gets index zero; a stored value that is not a location
    panics. *)
Fixpoint getIndexes (d : RegularMerkleTree) (height : Z) (queryHashes : list bytes) : res (list Z) :=
  match queryHashes with
  | [] => Ok []
  | query :: queryHashes =>
      i ← match getLocation (t_db d) query with
          | Ok loc => location_index loc height
          | Err _ => Ok 0
          | Panic => Panic
          | OutOfFuel => OutOfFuel
          end;
      res ← getIndexes d height queryHashes;
      Ok (i :: res)
  end.

Fixpoint sibling_hashes_loop (fuel : nat) (d : RegularMerkleTree) (height : Z) (originalIdxs : list Z)
    (sortedIdxs : list Z) (siblingHashes : list bytes) : res (list bytes) :=
  match sortedIdxs with
  | [] => Ok siblingHashes
  | currentIdx :: rest =>
      let parentIdx := Z.shiftr currentIdx 1 in
      match fuel with
      | O => OutOfFuel
      | S fuel =>
          if isLeft currentIdx &&
             match rest with
             | next :: _ => areSameLayer currentIdx next && areSiblings currentIdx next
             | [] => false
             end
          then
            sortedIdxs ← indexes_insert parentIdx (drop 1 rest);
            sibling_hashes_loop fuel d height originalIdxs sortedIdxs siblingHashes
          else if currentIdx =? rootIndex then Ok siblingHashes
          else
            currentLoc ← newNodeLocation currentIdx height;
            siblingLoc ← getRightSiblingInfo (nodeIndex currentLoc) (layerIndex currentLoc) (t_size d);
            siblingHashes ←
              match siblingLoc with
              | Some siblingLoc =>
                  siblingIdx ← location_index siblingLoc height;
                  if -1 <? indexes_findIndex originalIdxs siblingIdx then Ok siblingHashes
                  else
                    siblingHash ← ok_or (getHash (t_db d) siblingLoc) (Errorf "sibling does not exist");
                    Ok (siblingHashes ++ [siblingHash])
              | None => Ok siblingHashes
              end;
            sortedIdxs ← indexes_insert parentIdx (indexes_remove currentIdx sortedIdxs);
            sibling_hashes_loop fuel d height originalIdxs sortedIdxs siblingHashes
      end
  end.

Definition getSiblingHashes (d : RegularMerkleTree) (idxs : list Z) : res (list bytes) :=
  let sortedIdxs := filter (λ idx, idx ≠ 0) idxs in
  let height := getHeight (t_size d) in
  sibling_hashes_loop (S (digits_bound idxs)) d height idxs (indexes_sort sortedIdxs) [].

Definition GenerateProof (d : RegularMerkleTree) (queryHashes : list bytes) : res Proof :=
  if t_size d =? 0 then Ok (mkProof 0 [] [])
  else
    idxs ← getIndexes d (getHeight (t_size d)) queryHashes;
    siblingHashes ← getSiblingHashes d idxs;
    Ok (mkProof (t_size d) idxs siblingHashes).

Fixpoint witness_loop (layers : list Z) (d : RegularMerkleTree) (leftTreeLastIndex incrementalIdx : Z)
    (rightWitness : list bytes) : res (list bytes) :=
  match layers with
  | [] => Ok rightWitness
  | layerIdx :: layers =>
      if negb (bit_at incrementalIdx layerIdx)
      then witness_loop layers d leftTreeLastIndex incrementalIdx rightWitness
      else
        let nodeIdx := Z.shiftr leftTreeLastIndex layerIdx in
        siblingLoc ← getRightSiblingInfo nodeIdx layerIdx (t_size d);
        match siblingLoc with
        | None => Ok rightWitness
        | Some siblingLoc =>
            siblingHash ← ok_or (getHash (t_db d) siblingLoc) (Errorf "sibling does not exist");
            witness_loop layers d leftTreeLastIndex (u64 (incrementalIdx + Z.shiftl 1 layerIdx))
              (rightWitness ++ [siblingHash])
        end
  end.

Definition GenerateRightWitness (d : RegularMerkleTree) (nodeIndex : Z) : res (list bytes) :=
  if t_size d <? nodeIndex then Err (Errorf "index out of range")
  else if t_size d =? 0 then Ok []
  else if nodeIndex =? 0 then Ok (t_appendPath d)
  else
    witness_loop (seqZ 0 (getHeight (t_size d))) d (nodeIndex - 1) nodeIndex [].

(** The nodes are saved in the order in which Go ranges over the map, which is
    not specified: [range] lists the entries in some order. *)
Fixpoint save_nodes (entries : list (Z * bytes)) (height : Z) (db : gmap bytes bytes) : res (gmap bytes bytes) :=
  match entries with
  | [] => Ok db
  | (idx, hashedData) :: entries =>
      loc ← newNodeLocation idx height;
      save_nodes entries height (saveNode hashedData loc db)
  end.

(** The append path of the tree is left as it is.  On an error the model returns
    no tree; the code has then stored some of the nodes. *)
Definition Update (range : gmap Z bytes → list (Z * bytes)) (d : RegularMerkleTree) (idxs : list Z)
    (updateData : list bytes) : res RegularMerkleTree :=
  let height := getHeight (t_size d) in
  if existsb (λ idx, negb (length_ idx =? u64 (height + 1))) idxs then Err (Errorf "index must be at leaf")
  else
    let updateHashes := leafHash <$> updateData in
    siblingHashes ← getSiblingHashes d idxs;
    calculatedTree ← calculatePathNodes updateHashes (t_size d) idxs siblingHashes;
    db ← save_nodes (range calculatedTree) height (t_db d);
    nextRoot ← ok_or (calculatedTree !! rootIndex) (Errorf "root must exist");
    Ok (saveInfo (mkTree nextRoot (t_appendPath d) (t_size d) db)).
End util.
