(* ===== verification/RMTProofSpec.v ===== *)
(** * RMTProofSpec: what the proofs of the regular Merkle tree show

    - digits: the numbering of nodes by binary strings;
    - layers: [getLayerStructure] counts the nodes that have a right child, and
      [getRightSiblingInfo] finds the sibling of a node;
    - [proof_chain]: the run of [VerifyProof] on one query, as a chain of hashes
      from the node to the root. *)

From S2P Require Import Prelude Collection Varint Codec CodecSpec Message Crypto RMT RMTAppend RMTProof.

(** ** Digits *)

Ltac divlia := Z.div_mod_to_equations; lia.

(** The [m] low digits of [i]. *)
Fixpoint width (m : nat) (i : Z) : bytes :=
  match m with
  | O => []
  | S m => width m (i / 2) ++ [if Z.odd i then char_1 else char_0]
  end.

Lemma length_width m i : length (width m i) = m.
Proof.
  revert i. induction m as [|m IH]; intros i; [done|]. cbn [width]. rewrite length_app, IH. simpl. lia.
Qed.

Lemma pow_S m : 2 ^ Z.of_nat (S m) = 2 * 2 ^ Z.of_nat m.
Proof. rewrite Nat2Z.inj_succ, Z.pow_succ_r by lia. done. Qed.

Lemma half_bound m i : 0 ≤ i < 2 ^ Z.of_nat (S m) → 0 ≤ i / 2 < 2 ^ Z.of_nat m.
Proof. rewrite pow_S. divlia. Qed.

Lemma pos_digits_width m p i :
  0 ≤ i < 2 ^ Z.of_nat m → Zpos p = 2 ^ Z.of_nat m + i → pos_digits p = char_1 :: width m i.
Proof.
  revert p i. induction m as [|m IH]; intros p i Hi Hp.
  { change (2 ^ Z.of_nat 0) with 1 in *. assert (p = xH) as -> by lia. done. }
  pose proof (half_bound m i Hi). rewrite pow_S in *. assert (0 < 2 ^ Z.of_nat m) by (apply Z.pow_pos_nonneg; lia).
  cbn [width]. destruct p as [p|p|]; [| |lia]; cbn [pos_digits]; rewrite (IH p (i / 2)) by divlia.
  - replace (Z.odd i) with true; [done|]. rewrite Zodd_mod. symmetry. apply Z.eqb_eq. divlia.
  - replace (Z.odd i) with false; [done|]. rewrite Zodd_mod. symmetry. apply Z.eqb_neq. divlia.
Qed.

Lemma FormatInt_node m i :
  0 ≤ i < 2 ^ Z.of_nat m → FormatInt (2 ^ Z.of_nat m + i) = char_1 :: width m i.
Proof.
  intros Hi. destruct (2 ^ Z.of_nat m + i) as [|p|p] eqn:E; [lia| |lia]. cbn [FormatInt].
  by apply pos_digits_width.
Qed.

Lemma width_0 m : width m 0 = replicate m char_0.
Proof.
  induction m as [|m IH]; [done|]. cbn [width]. change (0 / 2) with 0. rewrite IH. symmetry.
  rewrite replicate_S_end. done.
Qed.

(** Leading zeros. *)
Lemma width_high a j i :
  0 ≤ i < 2 ^ Z.of_nat j → width (a + S j) (2 ^ Z.of_nat j + i) = replicate a char_0 ++ char_1 :: width j i.
Proof.
  revert i. induction j as [|j IH]; intros i Hi.
  { change (2 ^ Z.of_nat 0) with 1 in *. assert (i = 0) as -> by lia. rewrite Nat.add_1_r. cbn [width].
    change ((1 + 0) / 2) with 0. by rewrite width_0. }
  rewrite Nat.add_succ_r. cbn [width]. pose proof (half_bound j i Hi). rewrite pow_S in *.
  replace ((2 * 2 ^ Z.of_nat j + i) / 2) with (2 ^ Z.of_nat j + i / 2) by divlia. rewrite IH by done.
  rewrite Z.odd_add, Z.odd_mul. cbn [Z.odd andb xorb]. rewrite <-app_assoc. done.
Qed.

Lemma FormatInt_pad m i :
  (1 ≤ m)%nat → 0 ≤ i < 2 ^ Z.of_nat m →
  replicate (Z.to_nat (Z.of_nat m - len (FormatInt i))) char_0 ++ FormatInt i = width m i.
Proof.
  intros Hm Hi. destruct (decide (i = 0)) as [->|Hne].
  { cbn [FormatInt]. change (len [char_0]) with 1. rewrite width_0.
    replace m with (S (Z.to_nat (Z.of_nat m - 1))) at 2 by lia. by rewrite replicate_S_end. }
  set (j := Z.to_nat (Z.log2 i)). pose proof (Z.log2_nonneg i). pose proof (Z.log2_spec i ltac:(lia)) as [Hlo Hhi].
  assert (2 ^ Z.of_nat j = 2 ^ Z.log2 i) as Ej by (unfold j; f_equal; lia).
  rewrite Z.pow_succ_r in Hhi by lia.
  assert (Z.log2 i < Z.of_nat m) by (apply Z.log2_lt_pow2; lia).
  replace i with (2 ^ Z.of_nat j + (i - 2 ^ Z.of_nat j)) at 1 2 3 by lia.
  rewrite FormatInt_node by lia. rewrite len_cons. unfold len. rewrite length_width.
  replace m with ((m - S j) + S j)%nat at 2 by lia. rewrite width_high by lia. f_equal. f_equal. lia.
Qed.

Lemma parse_digits_app acc s t :
  parse_digits acc (s ++ t) = a ← parse_digits acc s; parse_digits a t.
Proof.
  revert acc. induction s as [|c s IH]; intros acc; [done|]. cbn [app parse_digits].
  destruct (c =? char_0); [apply IH|]. destruct (c =? char_1); [apply IH|done].
Qed.

Lemma parse_width m i acc :
  0 ≤ i < 2 ^ Z.of_nat m → parse_digits acc (width m i) = Ok (acc * 2 ^ Z.of_nat m + i).
Proof.
  revert i acc. induction m as [|m IH]; intros i acc Hi.
  { change (2 ^ Z.of_nat 0) with 1 in *. cbn. f_equal. lia. }
  cbn [width]. pose proof (half_bound m i Hi). rewrite parse_digits_app, IH by done. cbn [mbind res_bind].
  rewrite pow_S in *. pose proof (Z.div_mod i 2 ltac:(lia)) as Hdm. pose proof (Zodd_mod i) as Ho.
  pose proof (Z.mod_pos_bound i 2 ltac:(lia)).
  destruct (Z.odd i); cbn; f_equal; symmetry in Ho.
  - apply Z.eqb_eq in Ho. lia.
  - apply Z.eqb_neq in Ho. lia.
Qed.

Lemma width_first m i : (1 ≤ m)%nat → ∃ c s, width m i = c :: s ∧ (c = char_0 ∨ c = char_1).
Proof.
  revert i. induction m as [|m IH]; intros i Hm; [lia|]. cbn [width]. destruct m as [|m].
  - cbn. destruct (Z.odd i); eauto.
  - destruct (IH (i / 2)) as (c & s & -> & Hc); [lia|]. eauto.
Qed.

Lemma ParseInt_width m i :
  (1 ≤ m)%nat → 0 ≤ i < 2 ^ Z.of_nat m → i < 2 ^ 31 → ParseInt (width m i) 32 = Ok i.
Proof.
  intros Hm Hi H31. pose proof (parse_width m i 0 Hi) as Hp. destruct (width_first m i Hm) as (c & s & E & Hc).
  unfold ParseInt. rewrite E in *.
  assert (c =? char_plus = false) as -> by (by destruct Hc as [-> | ->]).
  assert (c =? char_minus = false) as -> by (by destruct Hc as [-> | ->]).
  rewrite bool_decide_false by done. rewrite Hp. cbn [mbind res_bind negb andb].
  change (32 - 1) with 31. destruct (Z.leb_spec (2 ^ 31) (0 * 2 ^ Z.of_nat m + i)); [lia|]. done.
Qed.

(** The index of node [i] of layer [l] in a tree of height [h]. *)
Definition node_idx (h l i : Z) : Z := 2 ^ (h - l) + i.

Lemma i64_nonneg x : 0 ≤ x < 2 ^ 63 → i64 x = x.
Proof. intros Hx. unfold i64. rewrite Z.mod_small; lia. Qed.

Lemma newNodeLocation_idx h l i :
  h < 2 ^ 63 → 0 ≤ l → 1 ≤ h - l ≤ 31 → 0 ≤ i < 2 ^ (h - l) →
  newNodeLocation (node_idx h l i) h = Ok (mkNodeLocation i l).
Proof.
  intros Hh Hl Hm Hi. unfold newNodeLocation, node_idx.
  assert (2 ^ (h - l) ≤ 2 ^ 31) by (apply Z.pow_le_mono_r; lia).
  rewrite i64_nonneg by lia. set (m := Z.to_nat (h - l)).
  replace (h - l) with (Z.of_nat m) in * by lia. rewrite FormatInt_node by done.
  cbn [negb]. rewrite Z.eqb_refl. cbn [negb]. rewrite ParseInt_width by lia. cbn [mbind res_bind].
  unfold len. rewrite length_width, i64_nonneg by lia. destruct (Z.ltb_spec (h - Z.of_nat m) 0); [lia|].
  rewrite !u64_small by (unfold u64_ok; lia). f_equal. f_equal. lia.
Qed.

Lemma location_index_idx h l i :
  h < 2 ^ 63 → 0 ≤ l → 1 ≤ h - l ≤ 30 → 0 ≤ i < 2 ^ (h - l) →
  location_index (mkNodeLocation i l) h = Ok (node_idx h l i).
Proof.
  intros Hh Hl Hm Hi. unfold location_index, node_idx. cbn [nodeIndex layerIndex].
  assert (2 ^ (h - l) ≤ 2 ^ 30) by (apply Z.pow_le_mono_r; lia).
  rewrite u64_small by (unfold u64_ok; lia). destruct (Z.leb_spec (h - l) 0); [lia|].
  rewrite !i64_nonneg by lia. set (m := Z.to_nat (h - l)). replace (h - l) with (Z.of_nat m) in * by lia.
  rewrite FormatInt_pad by lia.
  pose proof (width_high 0 m i Hi) as Hw. cbn [replicate app Nat.add] in Hw. rewrite <-Hw.
  rewrite ParseInt_width; [|lia|rewrite pow_S; lia|lia]. cbn [mbind res_bind].
  by rewrite u64_small by (unfold u64_ok; lia).
Qed.

(** ** Layers *)

(** The number of nodes of a layer: those whose right half is not empty. *)
Definition layer_count (n : Z) (l : nat) : Z :=
  match l with
  | O => n
  | S l => ((n - 1) / 2 ^ Z.of_nat l + 1) / 2
  end.

(** The parity of [r] tells the last digit that was dropped, which decides how to
    round. *)
Lemma layer_loop_count n j steps max r :
  0 < n → max = ((n - 1) / 2 ^ Z.of_nat j + 1) / 2 → 0 ≤ r → r mod 2 = 1 - (n - 1) / 2 ^ Z.of_nat j mod 2 →
  layer_loop steps max r = ((n - 1) / 2 ^ Z.of_nat (j + steps) + 1) / 2.
Proof.
  revert j max r. induction steps as [|steps IH]; intros j max r Hn Hmax Hr Hp; cbn [layer_loop].
  { by rewrite Nat.add_0_r. }
  rewrite Nat.add_succ_r, <-Nat.add_succ_l.
  assert ((n - 1) / 2 ^ Z.of_nat (S j) = (n - 1) / 2 ^ Z.of_nat j / 2) as Ec.
  { rewrite pow_S, (Z.mul_comm 2), Z.div_div; [done|pose proof (Z.pow_pos_nonneg 2 (Z.of_nat j)); lia|lia]. }
  assert (0 ≤ (n - 1) / 2 ^ Z.of_nat j) by (apply Z.div_pos; [lia|apply Z.pow_pos_nonneg; lia]).
  set (c := (n - 1) / 2 ^ Z.of_nat j) in *. rewrite Z.rem_mod_nonneg by lia.
  apply IH; [done|rewrite Ec; clearbody c|clearbody c|rewrite Ec; clearbody c]; subst max.
  - destruct (Z.eqb_spec (r mod 2) 0); divlia.
  - divlia.
  - divlia.
Qed.

Lemma layer_loop_layer n l : 0 < n → layer_loop l n 0 = layer_count n l.
Proof.
  intros Hn. destruct l as [|l]; [done|]. cbn [layer_loop layer_count].
  change (Z.rem 0 2 =? 0) with true. cbn [andb].
  rewrite (layer_loop_count n 0); [done|done| | |]; change (2 ^ Z.of_nat 0) with 1; rewrite ?Z.div_1_r.
  - f_equal. lia.
  - divlia.
  - divlia.
Qed.

Lemma layer_count_spec n l i :
  0 < n → i < layer_count n (S l) ↔ i * 2 ^ Z.of_nat (S l) + 2 ^ Z.of_nat l < n.
Proof.
  intros Hn. cbn [layer_count]. rewrite pow_S. assert (0 < 2 ^ Z.of_nat l) by (apply Z.pow_pos_nonneg; lia).
  set (X := 2 ^ Z.of_nat l) in *. clearbody X.
  transitivity (2 * i + 1 ≤ (n - 1) / X); [generalize ((n - 1) / X); intros c; split; intros; divlia|].
  split; intros Hle.
  - pose proof (Z.mul_div_le (n - 1) X ltac:(lia)). nia.
  - apply Z.div_le_lower_bound; nia.
Qed.

Lemma getLayerStructure_at n l :
  0 < n → 0 ≤ l < getHeight n → index (getLayerStructure n) l = Ok (layer_count n (Z.to_nat l)).
Proof.
  intros Hn Hl. unfold index, idx, getLayerStructure. rewrite decide_True by lia.
  rewrite list_lookup_fmap, lookup_seqZ_lt by lia. cbn [fmap option_fmap option_map].
  rewrite layer_loop_layer by done. do 2 f_equal. lia.
Qed.

Lemma layer_pow n l : 0 < n → l < getHeight n → 2 ^ l < 2 * n.
Proof.
  intros Hn Hl. rewrite getHeight_eq in Hl by done.
  apply Z.le_lt_trans with (2 ^ Z.log2_up n); [apply Z.pow_le_mono_r; lia|].
  destruct (decide (n = 1)) as [->|]; [done|]. pose proof (Z.log2_up_spec n ltac:(lia)) as [Hlo _].
  pose proof (Z.log2_up_pos n ltac:(lia)). replace (Z.log2_up n) with (Z.succ (Z.pred (Z.log2_up n))) by lia.
  rewrite Z.pow_succ_r by lia. lia.
Qed.

(** ** Siblings *)

Section siblings.
Context (data : list bytes).
Let n := len data.
Hypothesis Hn : 0 < n < 2 ^ 62.

(** A block without a right half is its left half. *)
Lemma block_left l s :
  1 ≤ l → 0 ≤ s → n ≤ s * 2 ^ l + 2 ^ (l - 1) → block data l s = block data (l - 1) (2 * s).
Proof.
  intros Hl Hs Hle. assert (0 < 2 ^ (l - 1)) by (apply Z.pow_pos_nonneg; lia).
  assert (2 ^ l = 2 * 2 ^ (l - 1)) as El by (rewrite <-Z.pow_succ_r by lia; f_equal; lia).
  rewrite !block_end by (subst n; nia). f_equal. f_equal. rewrite El. ring.
Qed.

Lemma sibling_loop_spec l s :
  Z.of_nat l < getHeight n → 0 ≤ s → s * 2 ^ Z.of_nat l < 2 ^ 63 →
  ∃ s' l', sibling_loop l (getLayerStructure n) s = Ok (s', l') ∧ 0 ≤ l' ≤ Z.of_nat l ∧
    s' = s * 2 ^ (Z.of_nat l - l') ∧ block data (Z.of_nat l) s = block data l' s' ∧
    (s * 2 ^ Z.of_nat l < n → node_in n l' s') ∧ (n ≤ s * 2 ^ Z.of_nat l → n ≤ s').
Proof.
  revert s. induction l as [|l IH]; intros s Hl Hs H63; cbn [sibling_loop].
  { rewrite getLayerStructure_at by lia. cbn [mbind res_bind]. exists s, 0. change (2 ^ Z.of_nat 0) with 1 in *.
    split_and!; [done|lia|lia|by rewrite Z.mul_1_r|done| |lia]. intros. split; [done|left; lia]. }
  rewrite getLayerStructure_at by lia. cbn [mbind res_bind]. rewrite Nat2Z.id.
  assert (0 < 2 ^ Z.of_nat l) by (apply Z.pow_pos_nonneg; lia).
  pose proof (layer_count_spec n l s ltac:(lia)) as Hc.
  assert (0 ≤ layer_count n (S l) ≤ n) as Hb.
  { cbn [layer_count]. pose proof (Z.div_pos (n - 1) (2 ^ Z.of_nat l) ltac:(lia) ltac:(lia)).
    pose proof (Z.div_le_upper_bound (n - 1) (2 ^ Z.of_nat l) (n - 1) ltac:(lia) ltac:(nia)). divlia. }
  rewrite (u64_small (layer_count _ _)) by (unfold u64_ok; lia). rewrite pow_S in *.
  destruct (Z.leb_spec (layer_count n (S l)) s) as [Hge|Hlt].
  - rewrite Z.shiftl_mul_pow2 by lia. change (2 ^ 1) with 2. rewrite u64_small by (unfold u64_ok; nia).
    destruct (IH (s * 2)) as (s' & l' & Hloop & Hl' & Es & Hbl & Hin & Hout); [lia|lia|nia|].
    exists s', l'. rewrite Hloop. split_and!; [done|lia|lia| |..].
    + rewrite Es. replace (Z.of_nat (S l) - l') with (Z.succ (Z.of_nat l - l')) by lia.
      rewrite Z.pow_succ_r by lia. ring.
    + rewrite <-Hbl, block_left by (rewrite ?pow_S; replace (Z.of_nat (S l) - 1) with (Z.of_nat l) by lia; lia).
      f_equal; lia.
    + intros. apply Hin. nia.
    + intros. apply Hout. nia.
  - exists s, (Z.of_nat (S l)). rewrite Z.sub_diag, Z.mul_1_r. split_and!; [done|lia|lia|done|done| |].
    + intros _. split; [done|right]. replace (Z.of_nat (S l) - 1) with (Z.of_nat l) by lia. rewrite pow_S. lia.
    + intros. lia.
Qed.

Definition sibling (i : Z) : Z := if Z.even i then i + 1 else i - 1.

Lemma getRightSiblingInfo_spec l i :
  0 ≤ l < getHeight n → 0 ≤ i → i * 2 ^ l < n →
  (sibling i * 2 ^ l < n →
   ∃ s' l', getRightSiblingInfo i l n = Ok (Some (mkNodeLocation s' l')) ∧ 0 ≤ l' ≤ l ∧
     s' = sibling i * 2 ^ (l - l') ∧ block data l (sibling i) = block data l' s' ∧ node_in n l' s') ∧
  (n ≤ sibling i * 2 ^ l → getRightSiblingInfo i l n = Ok None).
Proof.
  intros Hl Hi Hin. assert (0 < 2 ^ l) by (apply Z.pow_pos_nonneg; lia).
  pose proof (Zeven_mod i) as Hev. assert (i < 2 ^ 62) by nia.
  assert (0 ≤ sibling i ≤ i + 1) as Hs.
  { unfold sibling. destruct (Z.even i); [lia|]. symmetry in Hev. apply Z.eqb_neq in Hev. divlia. }
  assert (u64 (u64 (Z.shiftl (Z.shiftr i 1) 1) + u64 (i + 1) mod 2) = sibling i) as Es.
  { rewrite Z.shiftr_div_pow2, Z.shiftl_mul_pow2 by lia. change (2 ^ 1) with 2. pose proof (Z.mod_pos_bound (i + 1) 2).
    rewrite (u64_small (i + 1)), (u64_small (i / 2 * 2)), u64_small by (unfold u64_ok; divlia).
    unfold sibling. destruct (Z.even i); symmetry in Hev; [apply Z.eqb_eq in Hev|apply Z.eqb_neq in Hev]; divlia. }
  destruct (sibling_loop_spec (Z.to_nat l) (sibling i)) as (s' & l' & Hloop & Hl' & Es' & Hbl & Hsome & Hnone).
  { lia. } { lia. } { rewrite Z2Nat.id by lia. pose proof (layer_pow n l ltac:(lia) ltac:(lia)). nia. }
  rewrite Z2Nat.id in * by lia. unfold getRightSiblingInfo. rewrite Es, Hloop. cbn [mbind res_bind].
  split; intros Hb.
  - exists s', l'. specialize (Hsome Hb). split; [|done]. destruct (Z.leb_spec n s'); [|done]. exfalso.
    assert (0 < 2 ^ l') by (apply Z.pow_pos_nonneg; lia).
    destruct Hsome as [? [[-> ?]|[? ?]]]; [lia|]. pose proof (Z.pow_pos_nonneg 2 (l' - 1)). nia.
  - specialize (Hnone Hb). by destruct (Z.leb_spec n s'); [|lia].
Qed.
End siblings.

(** ** The run of [VerifyProof] on one query *)

(** The node has no sibling: it is a left child and the tree ends before its
    right sibling. *)
Definition lone (n l i : Z) : bool := Z.even i && (n <=? (i + 1) * 2 ^ l).

(** The hashes from node [i] of layer [l], whose hash is [c], up to the root, and
    the inputs that are hashed. *)
Fixpoint proof_chain `{Hasher} (steps : nat) (n l i : Z) (c : bytes) (siblings : list bytes)
    : res (bytes * list bytes) :=
  match steps with
  | O => Ok (c, [])
  | S steps =>
      if lone n l i then proof_chain steps n (l + 1) (i / 2) c siblings
      else
        match siblings with
        | [] => Panic
        | s :: siblings =>
            let m := if Z.even i then c ++ s else s ++ c in
            '(r, ms) ← proof_chain steps n (l + 1) (i / 2) (branchHash m) siblings;
            Ok (r, (branchPrefix :: m) :: ms)
        end
  end.

Lemma lone_sibling n l i :
  0 ≤ i → 0 ≤ l → i * 2 ^ l < n →
  if lone n l i then n ≤ sibling i * 2 ^ l else sibling i * 2 ^ l < n.
Proof.
  intros Hi Hl Hin. assert (0 < 2 ^ l) by (apply Z.pow_pos_nonneg; lia). unfold lone, sibling.
  destruct (Z.even i); cbn [andb]; [|nia]. destruct (Z.leb_spec n ((i + 1) * 2 ^ l)); lia.
Qed.

Lemma sibling_ne i : sibling i ≠ i.
Proof. unfold sibling. destruct (Z.even i); lia. Qed.

Lemma node_idx_inj h l i l' i' :
  l ≤ h → l' ≤ h → 0 ≤ i < 2 ^ (h - l) → 0 ≤ i' < 2 ^ (h - l') → node_idx h l i = node_idx h l' i' →
  l = l' ∧ i = i'.
Proof.
  unfold node_idx. intros Hl Hl' Hi Hi' E.
  assert (h - l = h - l') as El; [|rewrite El in *; lia].
  rewrite <-(Z.log2_unique (2 ^ (h - l) + i) (h - l)) by (rewrite ?Z.pow_succ_r by lia; lia).
  rewrite E. apply Z.log2_unique; rewrite ?Z.pow_succ_r by lia; lia.
Qed.

Lemma node_idx_parent h l i : l + 1 ≤ h → Z.shiftr (node_idx h l i) 1 = node_idx h (l + 1) (i / 2).
Proof.
  intros Hl. unfold node_idx. rewrite Z.shiftr_div_pow2 by lia. change (2 ^ 1) with 2.
  replace (2 ^ (h - l)) with (2 ^ (h - (l + 1)) * 2); [rewrite Z.div_add_l by lia; done|].
  rewrite Z.mul_comm, <-Z.pow_succ_r by lia. f_equal. lia.
Qed.

(** A position in a tree of [n] leaves is below the width of its layer. *)
Lemma position_bound n l i :
  0 < n → 0 ≤ l < getHeight n → 0 ≤ i → i * 2 ^ l < n → i < 2 ^ (getHeight n - l) ∧ i < 2 ^ (getHeight n - 1 - l).
Proof.
  intros Hn Hl Hi Hin. assert (0 < 2 ^ l) by (apply Z.pow_pos_nonneg; lia).
  assert (n ≤ 2 ^ (getHeight n - 1)).
  { rewrite getHeight_eq by done. replace (Z.log2_up n + 1 - 1) with (Z.log2_up n) by lia.
    destruct (decide (n = 1)) as [->|]; [done|]. apply Z.log2_up_spec. lia. }
  assert (2 ^ (getHeight n - 1) = 2 ^ (getHeight n - 1 - l) * 2 ^ l) as E1
    by (rewrite <-Z.pow_add_r by lia; f_equal; lia).
  assert (i < 2 ^ (getHeight n - 1 - l)) by nia. split; [|done].
  apply Z.lt_le_trans with (2 ^ (getHeight n - 1 - l)); [done|]. apply Z.pow_le_mono_r; lia.
Qed.

Section single.
Context `{HashLaws} (data : list bytes).
Let n := len data.
Let h := getHeight n.
Hypothesis Hn : 0 < n.
Hypothesis Hh : h ≤ 30.

Lemma size_bound : n < 2 ^ 62.
Proof.
  pose proof (getHeight_pow n Hn) as [Hlt _]. fold h in Hlt.
  apply Z.lt_le_trans with (2 ^ h); [done|]. apply Z.pow_le_mono_r; lia.
Qed.

(** The keys of the map of results lie below the current node. *)
Definition keys_below (l i : Z) (result : gmap Z bytes) : Prop :=
  ∀ k x, result !! k = Some x → ∃ lk ik, k = node_idx h lk ik ∧ 0 ≤ ik < 2 ^ (h - lk) ∧ 0 ≤ lk ≤ l ∧
    ik / 2 ^ (l - lk) = i.

Lemma keys_below_parent l i result :
  keys_below l i result → keys_below (l + 1) (i / 2) result.
Proof.
  intros Hk k x (lk & ik & -> & Hik & Hlk & E)%Hk. exists lk, ik. split_and!; [done|lia..|].
  assert (0 < 2 ^ (l - lk)) by (apply Z.pow_pos_nonneg; lia).
  replace (l + 1 - lk) with (l - lk + 1) by lia. rewrite Z.pow_add_r by lia. change (2 ^ 1) with 2.
  rewrite <-Z.div_div by lia. by rewrite E.
Qed.

(** Neither the sibling nor the parent of the node is among them. *)
Lemma keys_below_sibling l i result s' l' :
  keys_below l i result → l < h → 0 ≤ l' ≤ l → s' = sibling i * 2 ^ (l - l') →
  0 ≤ s' < 2 ^ (h - l') → result !! node_idx h l' s' = None.
Proof.
  intros Hk Hl Hl' Es Hs. destruct (result !! _) as [x|] eqn:E; [exfalso|done].
  apply Hk in E as (lk & ik & E & Hik & Hlk & Ei).
  apply node_idx_inj in E as [<- <-]; [|lia..].
  rewrite Es, Z.div_mul in Ei by (pose proof (Z.pow_pos_nonneg 2 (l - l')); lia). by apply (sibling_ne i).
Qed.

Lemma keys_below_above l i result :
  keys_below l i result → l + 1 < h → 0 ≤ i / 2 < 2 ^ (h - (l + 1)) →
  result !! node_idx h (l + 1) (i / 2) = None.
Proof.
  intros Hk Hl Hi. destruct (result !! _) as [x|] eqn:E; [exfalso|done].
  apply Hk in E as (lk & ik & E & Hik & Hlk & Ei). apply node_idx_inj in E as [? ?]; lia.
Qed.

Lemma node_in_bound l' s' : node_in n l' s' → 0 ≤ l' < h → 0 ≤ s' < 2 ^ (h - l').
Proof.
  intros [Hs Hin] Hl. split; [done|]. apply (position_bound n l' s'); [done|done|done|].
  destruct Hin as [[-> ?]|[? ?]]; [lia|]. pose proof (Z.pow_pos_nonneg 2 (l' - 1)). lia.
Qed.

Lemma indexes_insert_nil x : indexes_insert x [] = Ok [x].
Proof. done. Qed.

Lemma isLeft_idx l i : l < h → isLeft (node_idx h l i) = Z.even i.
Proof.
  intros Hl. unfold isLeft, node_idx. change 1 with (Z.ones 1) at 1. rewrite Z.land_ones by lia. change (2 ^ 1) with 2.
  rewrite Zeven_mod. replace (2 ^ (h - l)) with (2 ^ (h - l - 1) * 2).
  - by rewrite Z.add_comm, Z.mod_add by lia.
  - rewrite Z.mul_comm, <-Z.pow_succ_r by lia. f_equal. lia.
Qed.

Lemma node_idx_root l i :
  0 ≤ l < h → 0 ≤ i → i * 2 ^ l < n → (node_idx h l i =? rootIndex) = (l =? h - 1).
Proof.
  intros Hl Hi Hin. destruct (position_bound n l i Hn Hl Hi Hin) as [_ Hb1]. fold h in Hb1.
  unfold rootIndex, node_idx. destruct (Z.eqb_spec l (h - 1)) as [->|Hne].
  - replace (h - 1 - (h - 1)) with 0 in Hb1 by lia. replace (h - (h - 1)) with 1 by lia.
    apply Z.eqb_eq. lia.
  - assert (2 ^ 2 ≤ 2 ^ (h - l)) by (apply Z.pow_le_mono_r; lia). apply Z.eqb_neq. lia.
Qed.

Lemma position_parent l i : 0 ≤ l → 0 ≤ i → i * 2 ^ l < n → 0 ≤ i / 2 ∧ i / 2 * 2 ^ (l + 1) < n.
Proof.
  intros Hl Hi Hin. assert (0 < 2 ^ l) by (apply Z.pow_pos_nonneg; lia).
  rewrite Z.pow_add_r by lia. change (2 ^ 1) with 2. split; [divlia|].
  assert (i / 2 * 2 ≤ i) by divlia. nia.
Qed.

(** The last step to the root always has a sibling. *)
Lemma lone_last l i : 0 ≤ i → 0 ≤ l → i * 2 ^ l < n → l + 1 = h - 1 → lone n l i = false.
Proof.
  intros Hi Hl Hin El. destruct (position_bound n l i Hn ltac:(unfold h in *; lia) Hi Hin) as [_ Hb].
  fold h in Hb. replace (h - 1 - l) with 1 in Hb by lia. change (2 ^ 1) with 2 in Hb.
  assert (2 ^ l < n) as Hlt.
  { unfold h in El. rewrite getHeight_eq in El by done. destruct (decide (n = 1)) as [E1|]; [rewrite E1 in El; cbn in El; lia|].
    pose proof (Z.log2_up_spec n ltac:(lia)) as [Hlo _]. by replace l with (Z.pred (Z.log2_up n)) by lia. }
  unfold lone. destruct (Z.even i) eqn:Ev; [|done]. cbn [andb]. apply Z.leb_gt.
  assert (i = 0) as ->; [|lia]. rewrite Zeven_mod in Ev. apply Z.eqb_eq in Ev. divlia.
Qed.

Lemma path_nodes_single steps fuel l i c result cache siblings :
  l + Z.of_nat steps = h - 1 → 0 ≤ l → 0 ≤ i → i * 2 ^ l < n → (steps ≤ fuel)%nat → keys_below l i result →
  match result !! node_idx h l i with Some x => Some x | None => cache !! node_idx h l i end = Some c →
  (steps = 0%nat → result !! rootIndex = Some c) →
  match proof_chain steps n l i c siblings with
  | Ok (r, _) => ∃ tree, path_nodes_loop fuel n h result cache siblings [node_idx h l i] = Ok tree ∧
                   tree !! rootIndex = Some r
  | _ => path_nodes_loop fuel n h result cache siblings [node_idx h l i] = Panic
  end.
Proof.
  revert fuel l i c result cache siblings.
  induction steps as [|steps IH]; intros fuel l i c result cache siblings Hst Hl Hi Hin Hf Hkeys Hc Hroot.
  { destruct fuel as [|fuel]; cbn [path_nodes_loop proof_chain]; rewrite node_idx_root by lia.
    all: destruct (Z.eqb_spec l (h - 1)); [|lia]; exists result; split; [done|by apply Hroot]. }
  destruct fuel as [|fuel]; [lia|]. cbn [path_nodes_loop proof_chain].
  rewrite node_idx_root by lia. destruct (Z.eqb_spec l (h - 1)); [lia|].
  rewrite Hc. cbn [ok_or mbind res_bind].
  destruct (position_bound n l i Hn ltac:(lia) Hi Hin) as [Hb _]. fold h in Hb.
  rewrite newNodeLocation_idx by lia. cbn [mbind res_bind nodeIndex layerIndex].
  destruct (position_parent l i Hl Hi Hin) as [Hpi Hpin].
  destruct (position_bound n (l + 1) (i / 2) Hn ltac:(unfold h in *; lia) Hpi Hpin) as [Hpb _]. fold h in Hpb.
  pose proof size_bound. rewrite node_idx_parent, isLeft_idx by lia.
  destruct (getRightSiblingInfo_spec data ltac:(fold n; lia) l i ltac:(unfold h, n in *; lia) Hi Hin) as [Hsome Hnone].
  fold n in Hsome, Hnone. pose proof (lone_sibling n l i Hi Hl Hin) as Hlone. destruct (lone n l i) eqn:El.
  - rewrite Hnone by done. cbn [mbind res_bind]. rewrite indexes_insert_nil. cbn [mbind res_bind].
    apply IH; try lia; [by apply keys_below_parent| |].
    + rewrite keys_below_above by (done || lia). by rewrite lookup_insert, decide_True by done.
    + intros ->. rewrite lone_last in El by lia. done.
  - destruct (Hsome Hlone) as (s' & l' & -> & Hl' & Es & _ & Hnode). cbn [mbind res_bind].
    pose proof (node_in_bound l' s' Hnode ltac:(lia)) as Hsb.
    rewrite location_index_idx by lia. cbn [mbind res_bind].
    rewrite (keys_below_sibling l i result s' l' Hkeys ltac:(lia) Hl' Es Hsb).
    rewrite (keys_below_above l i result Hkeys) by lia.
    destruct siblings as [|s siblings]; [done|]. cbn [mbind res_bind]. rewrite indexes_insert_nil. cbn [mbind res_bind].
    assert ((if Z.even i then branchHash (c ++ s) else branchHash (s ++ c))
            = branchHash (if Z.even i then c ++ s else s ++ c)) as -> by (by destruct (Z.even i)).
    set (m := if Z.even i then c ++ s else s ++ c).
    specialize (IH fuel (l + 1) (i / 2) (branchHash m)
      (<[node_idx h (l + 1) (i / 2) := branchHash m]> result) cache siblings).
    assert (keys_below (l + 1) (i / 2) (<[node_idx h (l + 1) (i / 2) := branchHash m]> result)) as Hk'.
    { intros k x. rewrite lookup_insert. case_decide as E; [intros _|by apply keys_below_parent].
      exists (l + 1), (i / 2). rewrite Z.sub_diag, Z.div_1_r. split_and!; [done|lia..]. }
    specialize (IH ltac:(lia) ltac:(lia) Hpi Hpin ltac:(lia) Hk').
    rewrite lookup_insert, decide_True in IH by done. specialize (IH eq_refl).
    assert (steps = 0%nat → <[node_idx h (l + 1) (i / 2) := branchHash m]> result !! rootIndex = Some (branchHash m)) as Hr.
    { intros ->. rewrite lookup_insert, decide_True; [done|].
      apply Z.eqb_eq. rewrite node_idx_root by lia. apply Z.eqb_eq. lia. }
    specialize (IH Hr).
    by destruct (proof_chain steps n (l + 1) (i / 2) (branchHash m) siblings) as [[r ms]|e| |].
Qed.

Lemma VerifyProof_chain l i q siblings root :
  0 ≤ l < h → 0 ≤ i → i * 2 ^ l < n →
  match proof_chain (Z.to_nat (h - 1 - l)) n l i q siblings with
  | Ok (r, _) => VerifyProof [q] (mkProof n [node_idx h l i] siblings) root = Ok (bytes_equal r root)
  | _ => VerifyProof [q] (mkProof n [node_idx h l i] siblings) root = Panic
  end.
Proof.
  intros Hl Hi Hin. destruct (position_bound n l i Hn Hl Hi Hin) as [Hb _]. fold h in Hb.
  assert (0 < node_idx h l i) as Hpos by (unfold node_idx; lia).
  opose proof* (path_nodes_single (Z.to_nat (h - 1 - l)) (digits_bound [node_idx h l i]) l i q
    {[node_idx h l i := q]} ∅ siblings) as Hrun; [lia|lia|done|done| | |by rewrite lookup_singleton_eq| |].
  { unfold digits_bound, node_idx. cbn. rewrite (Z.log2_unique _ (h - l)) by (rewrite ?Z.pow_succ_r by lia; lia). lia. }
  { intros k x [<- <-]%lookup_singleton_Some. exists l, i. rewrite Z.sub_diag, Z.div_1_r. split_and!; [done|lia..]. }
  { intros E. apply lookup_singleton_Some. split; [|done]. apply Z.eqb_eq. rewrite node_idx_root by lia. apply Z.eqb_eq. lia. }
  assert (VerifyProof [q] (mkProof n [node_idx h l i] siblings) root =
    match path_nodes_loop (digits_bound [node_idx h l i]) n h {[node_idx h l i := q]} ∅ siblings [node_idx h l i] with
    | Ok tree => match tree !! rootIndex with Some r => Ok (bytes_equal r root) | None => Ok false end
    | Err _ => Ok false | Panic => Panic | OutOfFuel => OutOfFuel end) as ->.
  { unfold VerifyProof, calculatePathNodes. cbn [pr_Size pr_Idxs pr_SiblingHashes].
    destruct (Z.eqb_spec n 0); [lia|]. change (len [q] =? len [node_idx h l i]) with true.
    change (len [q] =? 0) with false. cbn [negb collect_queries].
    destruct (Z.eqb_spec (node_idx h l i) 0); [lia|]. cbn [app]. by rewrite insert_empty. }
  destruct (proof_chain _ _ _ _ _ _) as [[r ms]|e| |]; [destruct Hrun as (tree & -> & ->)|rewrite Hrun..]; done.
Qed.

(** ** Blocks and their parents *)

Lemma len_block l i : 0 ≤ l → 0 ≤ i → len (block data l i) = Z.min (2 ^ l) (Z.max 0 (n - i * 2 ^ l)).
Proof.
  intros Hl Hi. assert (0 < 2 ^ l) by (apply Z.pow_pos_nonneg; lia). unfold block, n, len.
  rewrite length_take, length_drop. assert (0 ≤ i * 2 ^ l) by nia. lia.
Qed.

Lemma block_split l j :
  0 ≤ l → 0 ≤ j → block data (l + 1) j = block data l (2 * j) ++ block data l (2 * j + 1).
Proof.
  intros Hl Hj. unfold block. assert (0 < 2 ^ l) by (apply Z.pow_pos_nonneg; lia).
  rewrite Z.pow_add_r by lia. change (2 ^ 1) with 2.
  assert (0 ≤ j * 2 ^ l) by nia.
  replace (Z.to_nat (2 ^ l * 2)) with (Z.to_nat (2 ^ l) + Z.to_nat (2 ^ l))%nat by lia.
  rewrite <-take_take_drop. f_equal; [f_equal; f_equal; lia|]. rewrite drop_drop. do 2 f_equal. lia.
Qed.

Lemma lone_block l i :
  0 ≤ l → 0 ≤ i → lone n l i = true → block data (l + 1) (i / 2) = block data l i.
Proof.
  intros Hl Hi [Ev Hle]%andb_true_iff. rewrite Zeven_mod in Ev. apply Z.eqb_eq in Ev. apply Z.leb_le in Hle.
  rewrite block_split by divlia. replace (2 * (i / 2)) with i by divlia.
  assert (len (block data l (i + 1)) = 0) as E by (rewrite len_block by lia; pose proof (Z.pow_pos_nonneg 2 l); lia).
  destruct (block data l (i + 1)) as [|x b]; [apply app_nil_r|]. rewrite len_cons in E. pose proof (len_nonneg b). lia.
Qed.

(** The left child is a perfect tree and the right child is not empty. *)
Lemma not_lone_block l i (j := i / 2) :
  0 ≤ l → 0 ≤ i → i * 2 ^ l < n → lone n l i = false →
  0 ≤ j ∧ len (block data l (2 * j)) = 2 ^ l ∧ 0 < len (block data l (2 * j + 1)) ≤ 2 ^ l.
Proof.
  intros Hl Hi Hin Hlone. assert (0 < 2 ^ l) by (apply Z.pow_pos_nonneg; lia). assert (0 ≤ j) by (unfold j; divlia).
  assert ((2 * j + 1) * 2 ^ l < n).
  { unfold lone in Hlone. pose proof (Zeven_mod i) as Ev. destruct (Z.even i); cbn [andb] in Hlone.
    - apply Z.leb_gt in Hlone. symmetry in Ev. apply Z.eqb_eq in Ev. replace (2 * j) with i by (unfold j; divlia). done.
    - symmetry in Ev. apply Z.eqb_neq in Ev. replace (2 * j + 1) with i by (unfold j; divlia). done. }
  rewrite !len_block by lia. lia.
Qed.

Lemma CalculateRoot_parent l i :
  0 ≤ l → 0 ≤ i → i * 2 ^ l < n → lone n l i = false →
  CalculateRoot (block data (l + 1) (i / 2)) =
    branchHash (CalculateRoot (block data l (2 * (i / 2))) ++ CalculateRoot (block data l (2 * (i / 2) + 1))).
Proof.
  intros Hl Hi Hin Hlone. destruct (not_lone_block l i Hl Hi Hin Hlone) as (Hj & HL & HR).
  rewrite block_split by lia. by apply (CalculateRoot_split l).
Qed.

(** *** What is hashed for the root *)

Definition messages (X : list bytes) : list bytes := root_messages (length X) X.

Lemma root_messages_step fuel X :
  2 ≤ len X → root_messages (S fuel) X =
    (branchPrefix :: CalculateRoot (take (divider (len X)) X) ++ CalculateRoot (drop (divider (len X)) X))
    :: root_messages fuel (take (divider (len X)) X) ++ root_messages fuel (drop (divider (len X)) X).
Proof. destruct X as [|x [|y X]]; done. Qed.

Lemma root_messages_fuel fuel X : (length X ≤ fuel)%nat → root_messages fuel X = messages X.
Proof.
  unfold messages. remember (length X) as m eqn:Em. revert fuel X Em.
  induction (lt_wf m) as [m _ IH]. intros fuel X Em Hf.
  destruct (decide (2 ≤ len X)) as [Hl|Hl].
  2: { destruct X as [|x [|y X]]; [by destruct fuel, m..|]. rewrite !len_cons in Hl. pose proof (len_nonneg X). lia. }
  destruct fuel as [|fuel]; [unfold len in *; lia|]. destruct m as [|m]; [unfold len in *; lia|].
  rewrite !root_messages_step by done. pose proof (divider_bounds (len X) Hl) as Hd. unfold len in *.
  f_equal. set (d := divider (Z.of_nat (length X))) in *.
  assert (length (take d X) = d ∧ length (drop d X) = length X - d)%nat as [E1 E2]
    by (rewrite length_take, length_drop; lia).
  rewrite (IH d ltac:(lia) fuel (take d X)), (IH d ltac:(lia) m (take d X)) by lia.
  by rewrite (IH (length X - d)%nat ltac:(lia) fuel (drop d X)), (IH (length X - d)%nat ltac:(lia) m (drop d X)) by lia.
Qed.

Lemma messages_split k L R :
  0 ≤ k → len L = 2 ^ k → 0 < len R ≤ 2 ^ k →
  messages (L ++ R) = (branchPrefix :: CalculateRoot L ++ CalculateRoot R) :: messages L ++ messages R.
Proof.
  intros Hk HL HR. assert (0 < 2 ^ k) by (apply Z.pow_pos_nonneg; lia).
  unfold messages at 1. destruct (length (L ++ R)) as [|m] eqn:Em; [unfold len in *; rewrite length_app in Em; lia|].
  rewrite root_messages_step by (rewrite len_app; lia).
  rewrite (divider_app k), take_app_length, drop_app_length by done.
  rewrite length_app in Em. unfold len in *. by rewrite !root_messages_fuel by lia.
Qed.

(** The only node of the top layer is over all of the list. *)
Lemma block_top l i : l = h - 1 → 0 ≤ l → 0 ≤ i → i * 2 ^ l < n → block data l i = data.
Proof.
  intros -> Hl Hi Hin. destruct (position_bound n (h - 1) i Hn ltac:(unfold h in *; lia) Hi Hin) as [_ Hb].
  fold h in Hb. rewrite Z.sub_diag in Hb. assert (i = 0) as -> by (change (2 ^ 0) with 1 in Hb; lia).
  assert (n ≤ 2 ^ (h - 1)).
  { unfold h. rewrite getHeight_eq by done. replace (Z.log2_up n + 1 - 1) with (Z.log2_up n) by lia.
    destruct (decide (n = 1)) as [->|]; [done|]. apply Z.log2_up_spec. lia. }
  rewrite block_end by (fold n; lia). done.
Qed.

(** The messages of a block are among those of the whole list. *)
Lemma block_messages steps l i :
  l + Z.of_nat steps = h - 1 → 0 ≤ l → 0 ≤ i → i * 2 ^ l < n → messages (block data l i) ⊆ messages data.
Proof.
  revert l i. induction steps as [|steps IH]; intros l i Hst Hl Hi Hin; [by rewrite block_top by lia|].
  destruct (position_parent l i Hl Hi Hin) as [Hpi Hpin].
  etransitivity; [|apply (IH (l + 1) (i / 2)); lia]. destruct (lone n l i) eqn:El; [by rewrite lone_block|].
  destruct (not_lone_block l i Hl Hi Hin El) as (Hj & HL & HR).
  rewrite block_split, (messages_split l) by lia.
  assert (i = 2 * (i / 2) ∨ i = 2 * (i / 2) + 1) as [E|E] by divlia; rewrite E at 1; set_solver.
Qed.

(** The chain reaches the root of the list only from the root of the block. *)
Lemma proof_chain_sound steps l i c siblings ms :
  l + Z.of_nat steps = h - 1 → 0 ≤ l → 0 ≤ i → i * 2 ^ l < n → len c = HashLengh →
  collision_free (messages data ++ ms) →
  proof_chain steps n l i c siblings = Ok (CalculateRoot data, ms) → c = CalculateRoot (block data l i).
Proof.
  revert l i c siblings ms. induction steps as [|steps IH]; intros l i c siblings ms Hst Hl Hi Hin Hc Hf; cbn [proof_chain].
  { intros [= -> <-]. by rewrite block_top by lia. }
  destruct (position_parent l i Hl Hi Hin) as [Hpi Hpin]. destruct (lone n l i) eqn:El.
  { intros Hrun. apply IH in Hrun; [|lia|lia|done..]. by rewrite Hrun, lone_block. }
  destruct siblings as [|s siblings]; [done|]. set (m := if Z.even i then c ++ s else s ++ c).
  destruct (proof_chain steps _ _ _ _ _) as [[r ms']|e| |] eqn:Hrun; try done. cbn [mbind res_bind]. intros [= -> <-].
  apply IH in Hrun; [|lia|lia|done|done|apply Hash_len|eapply collision_free_subset; [|exact Hf]; set_solver].
  rewrite CalculateRoot_parent in Hrun by done. set (j := i / 2) in *.
  destruct (not_lone_block l i Hl Hi Hin El) as (Hj & HL & HR). fold j in Hj, HL, HR.
  assert (m = CalculateRoot (block data l (2 * j)) ++ CalculateRoot (block data l (2 * j + 1))) as Em.
  { unfold branchHash in Hrun. apply (collision_free_eq _ _ _ Hf) in Hrun; [by injection Hrun|set_solver|].
    apply elem_of_app. left. apply (block_messages steps (l + 1) j); [lia..|].
    rewrite block_split, (messages_split l) by lia. set_solver. }
  pose proof (len_CalculateRoot (block data l (2 * j))) as H1. pose proof (len_CalculateRoot (block data l (2 * j + 1))) as H2.
  unfold m in Em. pose proof (Zeven_mod i) as Ev. unfold len in *. destruct (Z.even i); symmetry in Ev.
  - apply Z.eqb_eq in Ev. apply app_inj_1 in Em as [-> _]; [|lia]. f_equal. f_equal. unfold j. divlia.
  - apply Z.eqb_neq in Ev. apply app_inj_2 in Em as [_ ->]; [|lia]. f_equal. f_equal. unfold j. divlia.
Qed.

(** The siblings that lead to the root. *)
Fixpoint sibling_roots (steps : nat) (l i : Z) : list bytes :=
  match steps with
  | O => []
  | S steps =>
      if lone n l i then sibling_roots steps (l + 1) (i / 2)
      else CalculateRoot (block data l (sibling i)) :: sibling_roots steps (l + 1) (i / 2)
  end.

Lemma proof_chain_complete steps l i :
  l + Z.of_nat steps = h - 1 → 0 ≤ l → 0 ≤ i → i * 2 ^ l < n →
  ∃ ms, proof_chain steps n l i (CalculateRoot (block data l i)) (sibling_roots steps l i)
        = Ok (CalculateRoot data, ms).
Proof.
  revert l i. induction steps as [|steps IH]; intros l i Hst Hl Hi Hin; cbn [proof_chain sibling_roots].
  { exists []. by rewrite block_top by lia. }
  destruct (position_parent l i Hl Hi Hin) as [Hpi Hpin].
  destruct (IH (l + 1) (i / 2)) as [ms Hms]; [lia..|]. destruct (lone n l i) eqn:El.
  { exists ms. by rewrite <-lone_block. }
  rewrite CalculateRoot_parent in Hms by done.
  assert ((if Z.even i then CalculateRoot (block data l i) ++ CalculateRoot (block data l (sibling i))
           else CalculateRoot (block data l (sibling i)) ++ CalculateRoot (block data l i))
    = CalculateRoot (block data l (2 * (i / 2))) ++ CalculateRoot (block data l (2 * (i / 2) + 1))) as ->.
  { unfold sibling. pose proof (Zeven_mod i) as Ev. destruct (Z.even i); symmetry in Ev.
    - apply Z.eqb_eq in Ev. by replace (2 * (i / 2)) with i by divlia.
    - apply Z.eqb_neq in Ev. replace (2 * (i / 2)) with (i - 1) by divlia. by replace (i - 1 + 1) with i by lia. }
  rewrite Hms. cbn [mbind res_bind]. by eexists.
Qed.

(** *** The siblings collected by [GenerateProof] *)

Lemma sibling_hashes_single d steps fuel l i original acc :
  tree_inv data d → l + Z.of_nat steps = h - 1 → 0 ≤ l → 0 ≤ i → i * 2 ^ l < n → (steps < fuel)%nat →
  keys_below l i {[original := []]} →
  sibling_hashes_loop fuel d h [original] [node_idx h l i] acc = Ok (acc ++ sibling_roots steps l i).
Proof.
  intros Hinv. assert (t_size d = n) as Hsize by apply Hinv.
  revert fuel l i acc. induction steps as [|steps IH]; intros fuel l i acc Hst Hl Hi Hin Hf Hkeys;
    (destruct fuel as [|fuel]; [lia|]); cbn [sibling_hashes_loop sibling_roots]; rewrite andb_false_r, node_idx_root by lia.
  { destruct (Z.eqb_spec l (h - 1)); [|lia]. by rewrite app_nil_r. }
  destruct (Z.eqb_spec l (h - 1)); [lia|].
  destruct (position_bound n l i Hn ltac:(lia) Hi Hin) as [Hb _]. fold h in Hb.
  rewrite newNodeLocation_idx by lia. cbn [mbind res_bind nodeIndex layerIndex].
  destruct (position_parent l i Hl Hi Hin) as [Hpi Hpin]. pose proof size_bound.
  rewrite node_idx_parent, Hsize by lia.
  assert (indexes_remove (node_idx h l i) [node_idx h l i] = []) as ->.
  { unfold indexes_remove. rewrite filter_cons_False by auto. done. }
  rewrite indexes_insert_nil.
  destruct (getRightSiblingInfo_spec data ltac:(fold n; lia) l i ltac:(unfold h, n in *; lia) Hi Hin) as [Hsome Hnone].
  fold n in Hsome, Hnone. pose proof (lone_sibling n l i Hi Hl Hin) as Hlone. destruct (lone n l i) eqn:El.
  - rewrite Hnone by done. cbn [mbind res_bind]. apply IH; [lia..|]. by apply keys_below_parent.
  - destruct (Hsome Hlone) as (s' & l' & -> & Hl' & Es & Hbl & Hnode). cbn [mbind res_bind].
    pose proof (node_in_bound l' s' Hnode ltac:(lia)) as Hsb. rewrite location_index_idx by lia. cbn [mbind res_bind].
    pose proof (keys_below_sibling l i _ s' l' Hkeys ltac:(lia) Hl' Es Hsb) as Hne%lookup_singleton_None.
    unfold indexes_findIndex. cbn [findIndex_from]. destruct (Z.eqb_spec original (node_idx h l' s')); [done|].
    change (-1 <? -1) with false. rewrite (inv_nodes _ _ Hinv) by done. cbn [ok_or mbind res_bind].
    rewrite IH; [|lia..|by apply keys_below_parent]. by rewrite <-app_assoc, Hbl.
Qed.

Lemma getSiblingHashes_leaf d i :
  tree_inv data d → 0 ≤ i < n → getSiblingHashes d [node_idx h 0 i] = Ok (sibling_roots (Z.to_nat (h - 1)) 0 i).
Proof.
  intros Hinv Hi. assert (t_size d = n) as Hsize by apply Hinv.
  assert (1 ≤ h) by (unfold h; rewrite getHeight_eq by done; pose proof (Z.log2_up_nonneg n); lia).
  destruct (position_bound n 0 i Hn ltac:(unfold h in *; lia) ltac:(lia) ltac:(lia)) as [Hb _]. fold h in Hb.
  assert (0 < node_idx h 0 i) by (unfold node_idx; lia).
  unfold getSiblingHashes. rewrite Hsize. fold h. rewrite filter_cons_True by lia. cbn [filter list_filter].
  apply (sibling_hashes_single d (Z.to_nat (h - 1)) _ 0 i _ []); [done|lia..| |].
  - unfold digits_bound, node_idx. cbn. rewrite (Z.log2_unique _ (h - 0)) by (rewrite ?Z.pow_succ_r by lia; lia). lia.
  - intros k x [<- <-]%lookup_singleton_Some. exists 0, i. rewrite Z.sub_diag, Z.div_1_r. split_and!; [done|lia..].
Qed.

Lemma GenerateProof_leaf d v :
  tree_inv data d → v ∈ data → ∃ j, data !! j = Some v ∧
    GenerateProof d [leafHash v]
    = Ok (mkProof n [node_idx h 0 (Z.of_nat j)] (sibling_roots (Z.to_nat (h - 1)) 0 (Z.of_nat j))).
Proof.
  intros Hinv Hv. assert (t_size d = n) as Hsize by apply Hinv.
  assert (1 ≤ h) by (unfold h; rewrite getHeight_eq by done; pose proof (Z.log2_up_nonneg n); lia).
  destruct (inv_leaf _ _ Hinv v Hv) as (j & Hj & Hloc). exists j. split; [done|].
  assert (Z.of_nat j < n) by (unfold n, len; apply lookup_lt_Some in Hj; lia). pose proof size_bound.
  destruct (position_bound n 0 (Z.of_nat j) Hn ltac:(unfold h in *; lia) ltac:(lia) ltac:(lia)) as [Hb _]. fold h in Hb.
  unfold GenerateProof. rewrite Hsize. fold h. destruct (Z.eqb_spec n 0); [lia|]. cbn [getIndexes].
  rewrite (getLocation_at _ _ _ Hloc) by (cbn; unfold u64_ok; lia).
  rewrite location_index_idx by lia. cbn [mbind res_bind]. by rewrite getSiblingHashes_leaf by (done || lia).
Qed.
End single.

(** ** The loops end *)

Definition digits (x : Z) : nat := Z.to_nat (Z.log2 x + 1).
Definition measure (l : list Z) : nat := sum_list (digits <$> l).

Lemma measure_cons x l : measure (x :: l) = (digits x + measure l)%nat.
Proof. done. Qed.
Lemma measure_app l k : measure (l ++ k) = (measure l + measure k)%nat.
Proof. induction l as [|x l IH]; [done|]. cbn [app]. rewrite !measure_cons, IH. lia. Qed.

Lemma digits_half x : 2 ≤ x → digits x = S (digits (Z.shiftr x 1)).
Proof.
  intros Hx. unfold digits. rewrite Z.log2_shiftr by lia. pose proof (Z.log2_le_mono 2 x Hx) as Hl.
  change (Z.log2 2) with 1 in Hl. lia.
Qed.

(** The binary search stays inside the list and halves the range. *)
Lemma findInsertIndex_loop_ends fuel arr x low high :
  -1 ≤ low < high → high ≤ len arr → high - low ≤ Z.of_nat fuel →
  ∃ i, findInsertIndex_loop fuel arr x low high = Ok i ∧ 0 ≤ i ≤ len arr.
Proof.
  revert low high. induction fuel as [|fuel IH]; intros low high Hlow Hhigh Hf; cbn [findInsertIndex_loop].
  { destruct (Z.ltb_spec (1 + low) high); [lia|]. exists high. split; [done|lia]. }
  destruct (Z.ltb_spec (1 + low) high); [|exists high; split; [done|lia]].
  set (middle := low + Z.shiftr (high - low) 1).
  assert (low < middle < high) by (unfold middle; rewrite Z.shiftr_div_pow2 by lia; change (2 ^ 1) with 2; divlia).
  assert (is_Some (arr !! Z.to_nat middle)) as [y Hy] by (apply lookup_lt_is_Some; unfold len in *; lia).
  unfold index, idx. rewrite decide_True by lia. rewrite Hy. cbn [mbind res_bind].
  repeat case_match; first [exists middle; split; [done|lia]|apply IH; lia].
Qed.

Lemma indexes_insert_ends x l :
  ∃ k, indexes_insert x l = Ok k ∧ (measure k ≤ digits x + measure l)%nat ∧ ∀ y, y ∈ k → y = x ∨ y ∈ l.
Proof.
  unfold indexes_insert, findInsertIndex. pose proof (len_nonneg l).
  destruct (findInsertIndex_loop_ends (S (length l)) l x (-1) (len l)) as (i & -> & Hi); [lia|lia|unfold len; lia|].
  cbn [mbind res_bind]. destruct (Z.leb_spec (len l) i).
  { exists (l ++ [x]). rewrite measure_app, measure_cons. cbn. split_and!; [done|lia|set_solver]. }
  assert (is_Some (l !! Z.to_nat i)) as [y Hy] by (apply lookup_lt_is_Some; unfold len in *; lia).
  unfold index, idx. rewrite decide_True by lia. rewrite Hy. cbn [mbind res_bind].
  destruct (Z.eqb_spec y x); cbn [negb]; eexists; (split; [reflexivity|]).
  { split; [lia|set_solver]. }
  rewrite measure_app, measure_cons.
  rewrite <-(take_drop (Z.to_nat i) l) at 3. rewrite measure_app. split; [lia|].
  intros z Hz. rewrite <-(take_drop (Z.to_nat i) l). set_solver.
Qed.

(** A node whose location is computed has at least two digits. *)
Lemma newNodeLocation_digits x height loc : u64_ok x → newNodeLocation x height = Ok loc → 2 ≤ x.
Proof.
  intros Hx. unfold newNodeLocation. destruct (decide (2 ≤ x)) as [|Hlt]; [done|].
  assert (x = 0 ∨ x = 1) as [-> | ->] by (unfold u64_ok in Hx; lia); done.
Qed.

Definition ends {A} (r : res A) : Prop := r ≠ OutOfFuel.

Lemma ends_bind {A B} (m : res A) (f : A → res B) : ends m → (∀ a, m = Ok a → ends (f a)) → ends (m ≫= f).
Proof. unfold ends. destruct m; cbn; auto. Qed.

Lemma ends_ok_or {A} (o : option A) e : ends (ok_or o e).
Proof. by destruct o. Qed.
Lemma ends_index {A} (l : list A) i : ends (index l i).
Proof. unfold index. by case_match. Qed.

Lemma parse_digits_ends acc s : ends (parse_digits acc s).
Proof. revert acc. induction s as [|c s IH]; intros acc; cbn [parse_digits]; [done|]. repeat case_match; by try apply IH. Qed.

Lemma ParseInt_ends s b : ends (ParseInt s b).
Proof.
  unfold ParseInt. destruct (match s with [] => _ | _ => _ end) as [neg ds]. case_match; [done|].
  apply ends_bind; [apply parse_digits_ends|]. intros. by repeat case_match.
Qed.

Lemma newNodeLocation_ends x height : ends (newNodeLocation x height).
Proof.
  unfold newNodeLocation. case_match; [done|]. case_match; [done|].
  apply ends_bind; [apply ParseInt_ends|]. intros. by repeat case_match.
Qed.

Lemma location_index_ends loc height : ends (location_index loc height).
Proof. unfold location_index. case_match; [done|]. by apply ends_bind; [apply ParseInt_ends|]. Qed.

Lemma getRightSiblingInfo_ends i l n : ends (getRightSiblingInfo i l n).
Proof.
  unfold getRightSiblingInfo. apply ends_bind; [|intros [] _; by case_match].
  generalize (getLayerStructure n) as st. intros st.
  generalize (u64 (u64 (Z.shiftl (Z.shiftr i 1) 1) + u64 (i + 1) mod 2)) as s. intros s.
  revert s. induction (Z.to_nat l) as [|k IH]; intros s; cbn [sibling_loop].
  all: apply ends_bind; [apply ends_index|]; intros; repeat case_match; by try apply IH.
Qed.

#[local] Hint Resolve ends_ok_or newNodeLocation_ends location_index_ends getRightSiblingInfo_ends : core.

Section terminates.
Context `{Hasher}.

Lemma path_nodes_loop_ends fuel size height result cache siblings idxs :
  Forall u64_ok idxs → (measure idxs ≤ fuel)%nat →
  ends (path_nodes_loop fuel size height result cache siblings idxs).
Proof.
  revert result cache siblings idxs. induction fuel as [|fuel IH]; intros result cache siblings idxs Hok Hm.
  { destruct idxs as [|x idxs]; [done|]. rewrite measure_cons in Hm.
    unfold digits in Hm. pose proof (Z.log2_nonneg x). lia. }
  destruct idxs as [|x idxs]; [done|]. apply Forall_cons in Hok as [Hx Hok]. rewrite measure_cons in Hm.
  cbn [path_nodes_loop]. case_match; [done|]. apply ends_bind; [done|intros c _].
  apply ends_bind; [done|intros loc Hloc]. pose proof (newNodeLocation_digits _ _ _ Hx Hloc) as H2.
  rewrite (digits_half x) in Hm by done.
  destruct (indexes_insert_ends (Z.shiftr x 1) idxs) as (k & Ek & Hk & Hin).
  assert (Forall u64_ok k) as Hokk.
  { apply Forall_forall. intros y [->|Hy]%Hin; [|by rewrite Forall_forall in Hok; apply Hok].
    rewrite Z.shiftr_div_pow2 by lia. change (2 ^ 1) with 2. unfold u64_ok in *. divlia. }
  apply ends_bind; [done|intros sib _]. destruct sib as [sib|].
  2: { rewrite Ek. cbn [mbind res_bind]. apply IH; [done|lia]. }
  apply ends_bind; [done|intros si _]. apply ends_bind; [by repeat case_match|intros [sh sibs] _].
  case_match; [done|]. rewrite Ek. cbn [mbind res_bind]. apply IH; [done|lia].
Qed.

Lemma measure_filter (P : Z → Prop) `{∀ x, Decision (P x)} l : (measure (filter P l) ≤ measure l)%nat.
Proof.
  induction l as [|x l IH]; [done|]. rewrite filter_cons. case_decide; rewrite ?measure_cons; lia.
Qed.

Lemma sibling_hashes_loop_ends fuel d height original idxs acc :
  Forall (λ x, 1 ≤ x < 2 ^ 64) idxs → (measure idxs < fuel)%nat →
  ends (sibling_hashes_loop fuel d height original idxs acc).
Proof.
  revert idxs acc. induction fuel as [|fuel IH]; intros idxs acc Hok Hm; [lia|].
  destruct idxs as [|x idxs]; [done|]. pose proof Hok as [Hx Hok']%Forall_cons. rewrite measure_cons in Hm.
  assert (∀ rest acc, (measure rest ≤ measure idxs)%nat → Forall (λ x, 1 ≤ x < 2 ^ 64) rest → 2 ≤ x →
    ends (sortedIdxs ← indexes_insert (Z.shiftr x 1) rest;
          sibling_hashes_loop fuel d height original sortedIdxs acc)) as Hstep.
  { intros rest acc' Hrest Hokr H2. rewrite (digits_half x) in Hm by done.
    destruct (indexes_insert_ends (Z.shiftr x 1) rest) as (k & -> & Hk & Hin). cbn [mbind res_bind].
    apply IH; [|lia]. apply Forall_forall. intros y [->|Hy]%Hin; [|by rewrite Forall_forall in Hokr; apply Hokr].
    rewrite Z.shiftr_div_pow2 by lia. change (2 ^ 1) with 2. divlia. }
  cbn [sibling_hashes_loop].
  match goal with |- context [if ?b && ?c then _ else _] => destruct (b && c) eqn:Hpair end; [|destruct (x =? rootIndex); [done|]].
  - apply andb_true_iff in Hpair as [Hleft _].
    apply Hstep; [|by apply Forall_drop|by destruct (decide (x = 1)) as [->|]; [|lia]].
    destruct idxs as [|y idxs]; [done|]. cbn [drop]. rewrite drop_0, measure_cons. lia.
  - apply ends_bind; [done|intros loc Hloc]. apply newNodeLocation_digits in Hloc; [|unfold u64_ok; lia].
    apply ends_bind; [done|intros sib _]. apply ends_bind.
    { destruct sib as [sib|]; [|done]. apply ends_bind; [done|intros si _]. destruct (_ <? _); [done|]. apply ends_bind; [apply ends_ok_or|done]. }
    intros acc' _. unfold indexes_remove. rewrite filter_cons_False by auto.
    apply Hstep; [apply measure_filter| |done]. apply Forall_forall. intros y [_ Hy]%list_elem_of_filter.
    rewrite Forall_forall in Hok'. by apply Hok'.
Qed.

Lemma measure_sort l : measure (indexes_sort l) = measure l.
Proof.
  unfold measure, indexes_sort. by rewrite sort_slice_Permutation.
Qed.

Lemma collect_queries_spec idxs queryHashes sorted result sorted' result' :
  collect_queries idxs queryHashes sorted result = (sorted', result') →
  (measure sorted' ≤ measure sorted + measure idxs)%nat ∧ ∀ x, x ∈ sorted' → x ∈ sorted ∨ x ∈ idxs.
Proof.
  revert queryHashes sorted result. induction idxs as [|x idxs IH]; intros qs sorted result; cbn [collect_queries].
  { intros [= <- <-]. split; [lia|by left]. }
  destruct qs as [|q qs]; [intros [= <- <-]; split; [lia|by left]|]. rewrite measure_cons.
  destruct (x =? 0); intros [Hm Hin]%IH.
  - split; [lia|]. intros y [|]%Hin; [by left|right; by right].
  - rewrite measure_app, measure_cons in Hm. cbn in Hm. split; [lia|].
    intros y [[|Hy%list_elem_of_singleton]%elem_of_app|]%Hin; [by left|right; subst; left|right; by right].
Qed.

Lemma calculatePathNodes_ends queryHashes size idxs siblings :
  Forall u64_ok idxs → ends (calculatePathNodes queryHashes size idxs siblings).
Proof.
  intros Hok. unfold calculatePathNodes. destruct (negb _); [done|]. destruct (_ =? 0); [done|].
  destruct (collect_queries idxs queryHashes [] ∅) as [sorted result] eqn:E.
  apply collect_queries_spec in E as [Hm Hin]. apply path_nodes_loop_ends.
  - apply Forall_forall. intros x Hx%elem_of_sort_slice. apply Hin in Hx as [Hx|Hx]; [by apply elem_of_nil in Hx|].
    rewrite Forall_forall in Hok. by apply Hok.
  - rewrite measure_sort. change (measure []) with 0%nat in Hm.
    change (digits_bound idxs) with (S (measure idxs)). lia.
Qed.

Lemma getSiblingHashes_ends d idxs : Forall u64_ok idxs → ends (getSiblingHashes d idxs).
Proof.
  intros Hok. unfold getSiblingHashes. apply sibling_hashes_loop_ends.
  - apply Forall_forall. intros x [Hne Hx]%elem_of_sort_slice%list_elem_of_filter.
    rewrite Forall_forall in Hok. specialize (Hok x Hx). unfold u64_ok in Hok. lia.
  - rewrite measure_sort. pose proof (measure_filter (λ idx, idx ≠ 0) idxs).
    change (digits_bound idxs) with (S (measure idxs)). lia.
Qed.
End terminates.

(** ** Properties *)

Lemma getHeight_small n : 0 < n ≤ 2 ^ 29 → getHeight n ≤ 30.
Proof. intros Hn. rewrite getHeight_eq by lia. assert (Z.log2_up n ≤ 29); [apply Z.log2_up_le_pow2; lia|lia]. Qed.

(** What is hashed when the proof of one query is verified. *)
Definition chain_messages `{Hasher} (n l i : Z) (q : bytes) (siblings : list bytes) : list bytes :=
  match proof_chain (Z.to_nat (getHeight n - 1 - l)) n l i q siblings with Ok (_, ms) => ms | _ => [] end.

(** C29: an accepted proof of one node tells the truth: when [VerifyProof] accepts a
    hash for node [i] of layer [l], against the root and the size of a list of
    values, the hash is the root of the values below that node, in layer zero
    the hash of value [i].  The query must be 32 bytes long and the node must lie
    in the tree, both of which [VerifyProof] does not check, and the inputs hashed
    for the list and in [VerifyProof] must not collide.  Sizes up to [2^29] are
    those whose leaf indexes the code can parse. *)
Theorem VerifyProof_single_sound `{HashLaws} data l i q siblings :
  0 < len data ≤ 2 ^ 29 → 0 ≤ l < getHeight (len data) → 0 ≤ i → i * 2 ^ l < len data →
  len q = HashLengh →
  collision_free (messages data ++ chain_messages (len data) l i q siblings) →
  VerifyProof [q] (mkProof (len data) [2 ^ (getHeight (len data) - l) + i] siblings) (CalculateRoot data) = Ok true →
  q = CalculateRoot (block data l i).
Proof.
  intros Hn Hl Hi Hin Hq Hf Hv. pose proof (getHeight_small _ Hn) as Hh.
  pose proof (VerifyProof_chain data ltac:(lia) Hh l i q siblings (CalculateRoot data) Hl Hi Hin) as Hc.
  unfold node_idx in Hc. rewrite Hv in Hc. unfold chain_messages in Hf.
  destruct (proof_chain _ _ _ _ _ _) as [[r ms]|e| |] eqn:Hrun; try done.
  injection Hc as Hr. symmetry in Hr. apply bool_decide_eq_true in Hr as ->.
  eapply (proof_chain_sound data ltac:(lia) Hh); [|lia|done|done|done|exact Hf|exact Hrun]. lia.
Qed.

(** The length of a query matters: [VerifyProof] accepts the empty query for the
    first leaf of any two values, with both leaf hashes as one sibling. *)
Theorem VerifyProof_accepts_empty_query `{HashLaws} a b :
  VerifyProof [[]] (mkProof 2 [4] [leafHash a ++ leafHash b]) (CalculateRoot [a; b]) = Ok true.
Proof.
  assert (getHeight (len [a; b]) = 2) as Eh by reflexivity.
  pose proof (VerifyProof_chain [a; b] ltac:(done) ltac:(by rewrite Eh) 0 0 [] [leafHash a ++ leafHash b] (CalculateRoot [a; b])) as Hc.
  rewrite Eh in Hc. specialize (Hc ltac:(lia) ltac:(lia) ltac:(done)). change (node_idx 2 0 0) with 4 in Hc. change (len [a; b]) with 2 in Hc.
  cbn in Hc |- *. rewrite Hc. unfold bytes_equal. by rewrite bool_decide_true.
Qed.

(** C30: a proof generated for a value of the tree verifies.  For a tree to which
    values were appended, [GenerateProof] of the hash of any of them succeeds,
    names the position of an equal value, and [VerifyProof] accepts it against
    the root of the tree, as long as the inputs hashed for the tree do not collide
    and there are at most [2^29] values, whose leaf indexes the code can parse. *)
Theorem GenerateProof_verifies `{HashLaws} db values v :
  collision_free (segment_messages values) → len values ≤ 2 ^ 29 → v ∈ values →
  ∃ d p j, append_all values (NewRegularMerkleTree db) = Ok d ∧
    GenerateProof d [leafHash v] = Ok p ∧ values !! j = Some v ∧
    pr_Idxs p = [2 ^ getHeight (len values) + Z.of_nat j] ∧
    VerifyProof [leafHash v] p (t_root d) = Ok true.
Proof.
  intros Hf H29 Hv.
  assert (0 < len values) as Hpos by (destruct values as [|x values]; [by apply elem_of_nil in Hv|unfold len; simpl; lia]).
  destruct (append_all_inv values [] _ (tree_inv_new db)) as (d & Hall & Hinv);
    [by apply collision_free_distinct_roots|change (len []) with 0; lia|]. cbn [app] in Hinv.
  pose proof (getHeight_small (len values) ltac:(lia)) as Hh.
  destruct (GenerateProof_leaf values Hpos Hh d v Hinv Hv) as (j & Hj & Hgen).
  eexists d, _, j. split_and!; [done|exact Hgen|done|unfold node_idx; cbn; by rewrite Z.sub_0_r|].
  assert (t_root d = CalculateRoot values) as -> by apply Hinv.
  assert (Z.of_nat j < len values) by (unfold len; apply lookup_lt_Some in Hj; lia).
  assert (1 ≤ getHeight (len values)) by (rewrite getHeight_eq by done; pose proof (Z.log2_up_nonneg (len values)); lia).
  pose proof (VerifyProof_chain values Hpos Hh 0 (Z.of_nat j) (leafHash v)
    (sibling_roots values (Z.to_nat (getHeight (len values) - 1)) 0 (Z.of_nat j)) (CalculateRoot values)) as Hc.
  destruct (proof_chain_complete values Hpos Hh (Z.to_nat (getHeight (len values) - 1)) 0 (Z.of_nat j)) as [ms Hms]; [lia..|].
  assert (block values 0 (Z.of_nat j) = [v]) as Hb.
  { unfold block. rewrite Z.mul_1_r, Nat2Z.id, (drop_S _ v j) by done. done. }
  rewrite Hb in Hms. change (CalculateRoot [v]) with (leafHash v) in Hms. rewrite Z.sub_0_r, Hms in Hc.
  rewrite Hc by lia. by apply f_equal, bool_decide_eq_true.
Qed.

(** With more than one query [VerifyProof] accepts any hash for a leaf of some
    trees.  In a tree of three values the third leaf has no sibling, and its
    parent, which is not a node of the tree, can be queried with the hash of the
    leaf: the hash claimed for the leaf is put aside for the parent and never
    compared. *)
Theorem VerifyProof_accepts_forged `{Hasher} (a b c forged : bytes) :
  VerifyProof [forged; leafHash c] (mkProof 3 [10; 5] [CalculateRoot [a; b]]) (CalculateRoot [a; b; c]) = Ok true.
Proof.
  assert (match calculatePathNodes [forged; leafHash c] 3 [10; 5] [CalculateRoot [a; b]] with
          | Ok tree => tree !! rootIndex | _ => None end = Some (CalculateRoot [a; b; c])) as E
    by (vm_compute; reflexivity).
  unfold VerifyProof. cbn [pr_Size pr_Idxs pr_SiblingHashes]. change (3 =? 0) with false.
  destruct (calculatePathNodes _ _ _ _) as [tree| | |]; try done. rewrite E.
  by apply f_equal, bool_decide_eq_true.
Qed.

(** An update is lost by the next value.  [Update] stores the new root and the
    nodes but leaves the append path, so the root after the next [Append] is
    that of the values before the update. *)
Theorem Update_lost_by_Append `{HashLaws} data range d idxs updateData d1 v d2 :
  tree_ok data d → len data + 1 < 2 ^ 64 →
  Update range d idxs updateData = Ok d1 → Append v d1 = Ok d2 → t_root d2 = CalculateRoot (data ++ [v]).
Proof.
  intros (Hp & _ & Hsize) H64 Hu Ha.
  assert (t_appendPath d1 = t_appendPath d ∧ t_size d1 = t_size d) as [E1 E2].
  { unfold Update in Hu. destruct (existsb _ _); [done|].
    destruct (getSiblingHashes d idxs) as [s| | |]; try done. cbn [mbind res_bind] in Hu.
    destruct (calculatePathNodes _ _ _ _) as [tree| | |]; try done. cbn [mbind res_bind] in Hu.
    destruct (save_nodes _ _ _) as [db| | |]; try done. cbn [mbind res_bind] in Hu.
    destruct (tree !! rootIndex); [|done]. by injection Hu as <-. }
  assert (Append v d1 = Append v (mkTree (CalculateRoot data) (t_appendPath d) (t_size d) (t_db d1))) as E
    by (unfold Append; by rewrite E1, E2).
  rewrite E in Ha. by apply (Append_tree_ok data) in Ha as (_ & -> & _).
Qed.

(** The loops of the proofs end: the bounds of the model on the rounds of
    [calculatePathNodes], and with it [VerifyProof], and of [getSiblingHashes]
    suffice for every list of indexes. *)
Theorem proof_loops_end `{Hasher} queryHashes proof root d :
  Forall u64_ok (pr_Idxs proof) →
  VerifyProof queryHashes proof root ≠ OutOfFuel ∧ getSiblingHashes d (pr_Idxs proof) ≠ OutOfFuel.
Proof.
  intros Hok. split; [|by apply getSiblingHashes_ends]. unfold VerifyProof. destruct (_ =? 0); [done|].
  pose proof (calculatePathNodes_ends queryHashes (pr_Size proof) (pr_Idxs proof) (pr_SiblingHashes proof) Hok) as He.
  destruct (calculatePathNodes _ _ _ _); [by case_match|done..].
Qed.

(** [VerifyProof] panics on a proof with too few sibling hashes. *)
Theorem VerifyProof_panics_on_missing_sibling `{Hasher} q root :
  VerifyProof [q] (mkProof 2 [4] []) root = Panic.
Proof. reflexivity. Qed.

(** *** Examples *)

Definition sample_values : list bytes := [[1]; [2]; [1]; [4]; [5]].

Lemma sample_values_distinct : collision_free (H := toy_hash) (segment_messages (H := toy_hash) sample_values).
Proof. apply collision_free_NoDup, (bool_decide_unpack _). vm_compute. exact I. Qed.

Lemma sample_values_tree :
  ∃ d, append_all (H := toy_hash) sample_values (NewRegularMerkleTree (H := toy_hash) ∅) = Ok d ∧
    tree_ok (H := toy_hash) sample_values d.
Proof.
  destruct (append_all_inv (H := toy_hash) (H0 := toy_hash_laws) sample_values [] _ (tree_inv_new (H := toy_hash) ∅))
    as (d & Hd & Hinv); [exact (collision_free_distinct_roots (H := toy_hash) (H0 := toy_hash_laws) _ sample_values_distinct)|done|].
  exists d. split; [exact Hd|apply Hinv].
Qed.

Definition proved_values : list bytes := [[1]; [2]; [3]; [4]; [5]; [6]; [7]].
Definition proved_siblings : list bytes :=
  [CalculateRoot (H := toy_hash) [[5]; [6]]; CalculateRoot (H := toy_hash) [[1]; [2]; [3]; [4]]].
Definition proved_hash : bytes := leafHash (H := toy_hash) [7].

Lemma proved_accepted :
  VerifyProof (H := toy_hash) [proved_hash]
    (mkProof (len proved_values) [2 ^ (getHeight (len proved_values) - 0) + 6] proved_siblings)
    (CalculateRoot (H := toy_hash) proved_values) = Ok true.
Proof. vm_compute. reflexivity. Qed.

Lemma proved_distinct :
  collision_free (H := toy_hash) (messages (H := toy_hash) proved_values
    ++ chain_messages (H := toy_hash) (len proved_values) 0 6 proved_hash proved_siblings).
Proof. apply collision_free_NoDup, (bool_decide_unpack _). vm_compute. exact I. Qed.

Lemma proved_hash_len : len proved_hash = HashLengh.
Proof. vm_compute. reflexivity. Qed.

Lemma VerifyProof_single_sound_witness :
  proved_hash = CalculateRoot (H := toy_hash) (block proved_values 0 6).
Proof.
  apply (VerifyProof_single_sound (H := toy_hash) (H0 := toy_hash_laws) proved_values 0 6 proved_hash proved_siblings);
    [done|done|done|done|exact proved_hash_len|exact proved_distinct|exact proved_accepted].
Defined.

Lemma GenerateProof_verifies_witness :
  ∃ d p j, append_all (H := toy_hash) sample_values (NewRegularMerkleTree (H := toy_hash) ∅) = Ok d ∧
    GenerateProof d [leafHash (H := toy_hash) [1]] = Ok p ∧ sample_values !! j = Some [1] ∧
    pr_Idxs p = [2 ^ getHeight (len sample_values) + Z.of_nat j] ∧
    VerifyProof (H := toy_hash) [leafHash (H := toy_hash) [1]] p (t_root d) = Ok true.
Proof.
  apply (GenerateProof_verifies (H := toy_hash) (H0 := toy_hash_laws) ∅ sample_values [1]);
    [exact sample_values_distinct|done|left].
Defined.

Lemma Update_lost_by_Append_witness :
  ∃ d d1 d2, Update (H := toy_hash) map_to_list d [16] [[9]] = Ok d1 ∧ Append (H := toy_hash) [6] d1 = Ok d2 ∧
    t_root d2 = CalculateRoot (H := toy_hash) (sample_values ++ [[6]]).
Proof.
  destruct sample_values_tree as (d & Hd & Hok).
  assert (is_ok (d ← append_all (H := toy_hash) sample_values (NewRegularMerkleTree (H := toy_hash) ∅);
                 d1 ← Update (H := toy_hash) map_to_list d [16] [[9]]; Append (H := toy_hash) [6] d1) = true) as Hrun
    by (vm_compute; reflexivity).
  rewrite Hd in Hrun. cbn [mbind res_bind] in Hrun.
  destruct (Update (H := toy_hash) map_to_list d [16] [[9]]) as [d1| | |] eqn:E1; try discriminate Hrun.
  cbn [mbind res_bind] in Hrun.
  destruct (Append (H := toy_hash) [6] d1) as [d2| | |] eqn:E2; try discriminate Hrun.
  exists d, d1, d2. split; [exact E1|]. split; [exact E2|].
  apply (Update_lost_by_Append (H := toy_hash) (H0 := toy_hash_laws) sample_values map_to_list d [16] [[9]] d1 [6] d2);
    [exact Hok|done|exact E1|exact E2].
Defined.

Lemma proof_loops_end_witness :
  VerifyProof (H := toy_hash) [[1]; [2]] (mkProof 3 [8; 9] []) [] ≠ OutOfFuel.
Proof.
  apply (proof_loops_end (H := toy_hash) [[1]; [2]] (mkProof 3 [8; 9] []) [] (NewRegularMerkleTree (H := toy_hash) ∅)).
  by repeat constructor.
Defined.
