(* ===== verification/BlockTypes.v ===== *)
(** * BlockTypes: transactions and blocks

    The structs of pkg/blockchain that are encoded, their generated codecs and
    the operations of transaction.go and block.go. *)

From S2P Require Import Prelude Codec CodecSpec Message.

(** ** transaction_codec.go *)

Record Transaction := mkTransaction {
  tx_ID : bytes;
  tx_size : Z;
  tx_Module : bytes;
  tx_Command : bytes;
  tx_Nonce : Z;
  tx_Fee : Z;
  tx_SenderPublicKey : bytes;
  tx_Params : bytes;
  tx_Signatures : list bytes;
}.

Definition Transaction_Encode `{Norm} (e : Transaction) : bytes :=
  Result (NewWriter
    |> WriteString 1 (tx_Module e)
    |> WriteString 2 (tx_Command e)
    |> WriteUInt 3 (tx_Nonce e)
    |> WriteUInt 4 (tx_Fee e)
    |> WriteBytes 5 (tx_SenderPublicKey e)
    |> WriteBytes 6 (tx_Params e)
    |> WriteBytesArray 7 (tx_Signatures e)).

Definition Transaction_DecodeFromReader `{Norm} (strict : bool) (r : Reader) : res (Transaction * Reader) :=
  '(Module_, r) ← ReadString 1 strict r;
  '(Command_, r) ← ReadString 2 strict r;
  '(Nonce_, r) ← ReadUInt 3 strict r;
  '(Fee_, r) ← ReadUInt 4 strict r;
  '(SenderPublicKey_, r) ← ReadBytes 5 strict r;
  '(Params_, r) ← ReadBytes 6 strict r;
  '(Signatures_, r) ← ReadBytesArray 7 r;
  Ok (mkTransaction [] 0 Module_ Command_ Nonce_ Fee_ SenderPublicKey_ Params_ Signatures_, r).

Definition Transaction_ok `{Norm} (e : Transaction) : Prop :=
  tx_ID e = [] ∧ tx_size e = 0 ∧ string_ok (tx_Module e) ∧ string_ok (tx_Command e) ∧
  u64_ok (tx_Nonce e) ∧ u64_ok (tx_Fee e).

Lemma Transaction_reads `{Norm, !NormLaws} strict e :
  Transaction_ok e → Reads 1 8 (Transaction_DecodeFromReader strict) (Transaction_Encode e) e.
Proof.
  intros Hok. destruct e. unfold Transaction_ok, Transaction_DecodeFromReader, Transaction_Encode in *. solve_reads.
Qed.

#[export] Hint Resolve Transaction_reads : reads.

Lemma Transaction_total `{Norm} strict : Total 0 (Transaction_DecodeFromReader strict).
Proof. unfold Transaction_DecodeFromReader. solve_total. Qed.
#[export] Hint Resolve Transaction_total : go.

#[export] Instance Transaction_Message `{Norm} : Message Transaction :=
  { Encode := Transaction_Encode; DecodeFromReader := Transaction_DecodeFromReader; msg_ok := Transaction_ok }.
#[export] Instance Transaction_MessageLaws `{Norm, !NormLaws} : MessageLaws Transaction.
Proof. split. eexists. intros. by apply Transaction_reads. Qed.

Record SigningTransaction := mkSigningTransaction {
  stx_Module : bytes;
  stx_Command : bytes;
  stx_Nonce : Z;
  stx_Fee : Z;
  stx_SenderPublicKey : bytes;
  stx_Params : bytes;
}.

Definition SigningTransaction_Encode `{Norm} (e : SigningTransaction) : bytes :=
  Result (NewWriter
    |> WriteString 1 (stx_Module e)
    |> WriteString 2 (stx_Command e)
    |> WriteUInt 3 (stx_Nonce e)
    |> WriteUInt 4 (stx_Fee e)
    |> WriteBytes 5 (stx_SenderPublicKey e)
    |> WriteBytes 6 (stx_Params e)).

Definition SigningTransaction_DecodeFromReader `{Norm} (strict : bool) (r : Reader) : res (SigningTransaction * Reader) :=
  '(Module_, r) ← ReadString 1 strict r;
  '(Command_, r) ← ReadString 2 strict r;
  '(Nonce_, r) ← ReadUInt 3 strict r;
  '(Fee_, r) ← ReadUInt 4 strict r;
  '(SenderPublicKey_, r) ← ReadBytes 5 strict r;
  '(Params_, r) ← ReadBytes 6 strict r;
  Ok (mkSigningTransaction Module_ Command_ Nonce_ Fee_ SenderPublicKey_ Params_, r).

Definition SigningTransaction_ok `{Norm} (e : SigningTransaction) : Prop :=
  string_ok (stx_Module e) ∧ string_ok (stx_Command e) ∧ u64_ok (stx_Nonce e) ∧ u64_ok (stx_Fee e).

Lemma SigningTransaction_reads `{Norm, !NormLaws} strict e :
  SigningTransaction_ok e → Reads 1 7 (SigningTransaction_DecodeFromReader strict) (SigningTransaction_Encode e) e.
Proof.
  intros Hok. destruct e. unfold SigningTransaction_ok, SigningTransaction_DecodeFromReader, SigningTransaction_Encode in *. solve_reads.
Qed.

#[export] Hint Resolve SigningTransaction_reads : reads.

Lemma SigningTransaction_total `{Norm} strict : Total 0 (SigningTransaction_DecodeFromReader strict).
Proof. unfold SigningTransaction_DecodeFromReader. solve_total. Qed.
#[export] Hint Resolve SigningTransaction_total : go.

#[export] Instance SigningTransaction_Message `{Norm} : Message SigningTransaction :=
  { Encode := SigningTransaction_Encode; DecodeFromReader := SigningTransaction_DecodeFromReader; msg_ok := SigningTransaction_ok }.
#[export] Instance SigningTransaction_MessageLaws `{Norm, !NormLaws} : MessageLaws SigningTransaction.
Proof. split. eexists. intros. by apply SigningTransaction_reads. Qed.

(** ** block_codec.go *)

Record RawBlock := mkRawBlock {
  rb_Header : bytes;
  rb_Transactions : list bytes;
  rb_Assets : list bytes;
}.

Definition RawBlock_Encode (e : RawBlock) : bytes :=
  Result (NewWriter
    |> WriteBytes 1 (rb_Header e)
    |> WriteBytesArray 2 (rb_Transactions e)
    |> WriteBytesArray 3 (rb_Assets e)).

Definition RawBlock_DecodeFromReader (strict : bool) (r : Reader) : res (RawBlock * Reader) :=
  '(Header_, r) ← ReadBytes 1 strict r;
  '(Transactions_, r) ← ReadBytesArray 2 r;
  '(Assets_, r) ← ReadBytesArray 3 r;
  Ok (mkRawBlock Header_ Transactions_ Assets_, r).

Definition RawBlock_ok (e : RawBlock) : Prop :=
  True.

Lemma RawBlock_reads strict e :
  RawBlock_ok e → Reads 1 4 (RawBlock_DecodeFromReader strict) (RawBlock_Encode e) e.
Proof.
  intros Hok. destruct e. unfold RawBlock_ok, RawBlock_DecodeFromReader, RawBlock_Encode in *. solve_reads.
Qed.

#[export] Hint Resolve RawBlock_reads : reads.

Lemma RawBlock_total strict : Total 0 (RawBlock_DecodeFromReader strict).
Proof. unfold RawBlock_DecodeFromReader. solve_total. Qed.
#[export] Hint Resolve RawBlock_total : go.

#[export] Instance RawBlock_Message : Message RawBlock :=
  { Encode := RawBlock_Encode; DecodeFromReader := RawBlock_DecodeFromReader; msg_ok := RawBlock_ok }.
#[export] Instance RawBlock_MessageLaws : MessageLaws RawBlock.
Proof. split. eexists. intros. by apply RawBlock_reads. Qed.

Record AggregateCommit := mkAggregateCommit {
  ac_Height : Z;
  ac_AggregationBits : bytes;
  ac_CertificateSignature : bytes;
}.

Definition AggregateCommit_Encode (e : AggregateCommit) : bytes :=
  Result (NewWriter
    |> WriteUInt32 1 (ac_Height e)
    |> WriteBytes 2 (ac_AggregationBits e)
    |> WriteBytes 3 (ac_CertificateSignature e)).

Definition AggregateCommit_DecodeFromReader (strict : bool) (r : Reader) : res (AggregateCommit * Reader) :=
  '(Height_, r) ← ReadUInt32 1 strict r;
  '(AggregationBits_, r) ← ReadBytes 2 strict r;
  '(CertificateSignature_, r) ← ReadBytes 3 strict r;
  Ok (mkAggregateCommit Height_ AggregationBits_ CertificateSignature_, r).

Definition AggregateCommit_zero : AggregateCommit := mkAggregateCommit 0 [] [].

Definition AggregateCommit_ok (e : AggregateCommit) : Prop :=
  u32_ok (ac_Height e).

Lemma AggregateCommit_reads strict e :
  AggregateCommit_ok e → Reads 1 4 (AggregateCommit_DecodeFromReader strict) (AggregateCommit_Encode e) e.
Proof.
  intros Hok. destruct e. unfold AggregateCommit_ok, AggregateCommit_DecodeFromReader, AggregateCommit_Encode in *. solve_reads.
Qed.

#[export] Hint Resolve AggregateCommit_reads : reads.

Lemma AggregateCommit_total strict : Total 0 (AggregateCommit_DecodeFromReader strict).
Proof. unfold AggregateCommit_DecodeFromReader. solve_total. Qed.
#[export] Hint Resolve AggregateCommit_total : go.

#[export] Instance AggregateCommit_Message : Message AggregateCommit :=
  { Encode := AggregateCommit_Encode; DecodeFromReader := AggregateCommit_DecodeFromReader; msg_ok := AggregateCommit_ok }.
#[export] Instance AggregateCommit_MessageLaws : MessageLaws AggregateCommit.
Proof. split. eexists. intros. by apply AggregateCommit_reads. Qed.

Record BlockHeader := mkBlockHeader {
  bh_ID : bytes;
  bh_Version : Z;
  bh_Timestamp : Z;
  bh_Height : Z;
  bh_PreviousBlockID : bytes;
  bh_GeneratorAddress : bytes;
  bh_TransactionRoot : bytes;
  bh_AssetRoot : bytes;
  bh_EventRoot : bytes;
  bh_StateRoot : bytes;
  bh_MaxHeightPrevoted : Z;
  bh_MaxHeightGenerated : Z;
  bh_ImpliesMaxPrevotes : bool;
  bh_ValidatorsHash : bytes;
  bh_AggregateCommit : option AggregateCommit;
  bh_Signature : bytes;
}.

Definition BlockHeader_Encode (e : BlockHeader) : bytes :=
  Result (NewWriter
    |> WriteUInt32 1 (bh_Version e)
    |> WriteUInt32 2 (bh_Timestamp e)
    |> WriteUInt32 3 (bh_Height e)
    |> WriteBytes 4 (bh_PreviousBlockID e)
    |> WriteBytes 5 (bh_GeneratorAddress e)
    |> WriteBytes 6 (bh_TransactionRoot e)
    |> WriteBytes 7 (bh_AssetRoot e)
    |> WriteBytes 8 (bh_EventRoot e)
    |> WriteBytes 9 (bh_StateRoot e)
    |> WriteUInt32 10 (bh_MaxHeightPrevoted e)
    |> WriteUInt32 11 (bh_MaxHeightGenerated e)
    |> WriteBool 12 (bh_ImpliesMaxPrevotes e)
    |> WriteBytes 13 (bh_ValidatorsHash e)
    |> WriteEncodable 14 (AggregateCommit_Encode <$> bh_AggregateCommit e)
    |> WriteBytes 15 (bh_Signature e)).

Definition BlockHeader_DecodeFromReader (strict : bool) (r : Reader) : res (BlockHeader * Reader) :=
  '(Version_, r) ← ReadUInt32 1 strict r;
  '(Timestamp_, r) ← ReadUInt32 2 strict r;
  '(Height_, r) ← ReadUInt32 3 strict r;
  '(PreviousBlockID_, r) ← ReadBytes 4 strict r;
  '(GeneratorAddress_, r) ← ReadBytes 5 strict r;
  '(TransactionRoot_, r) ← ReadBytes 6 strict r;
  '(AssetRoot_, r) ← ReadBytes 7 strict r;
  '(EventRoot_, r) ← ReadBytes 8 strict r;
  '(StateRoot_, r) ← ReadBytes 9 strict r;
  '(MaxHeightPrevoted_, r) ← ReadUInt32 10 strict r;
  '(MaxHeightGenerated_, r) ← ReadUInt32 11 strict r;
  '(ImpliesMaxPrevotes_, r) ← ReadBool 12 strict r;
  '(ValidatorsHash_, r) ← ReadBytes 13 strict r;
  '(AggregateCommit_, r) ← ReadDecodable 14 AggregateCommit_zero (AggregateCommit_DecodeFromReader false) strict r;
  '(Signature_, r) ← ReadBytes 15 strict r;
  Ok (mkBlockHeader [] Version_ Timestamp_ Height_ PreviousBlockID_ GeneratorAddress_
    TransactionRoot_ AssetRoot_ EventRoot_ StateRoot_ MaxHeightPrevoted_ MaxHeightGenerated_
    ImpliesMaxPrevotes_ ValidatorsHash_ (Some AggregateCommit_) Signature_, r).

Definition BlockHeader_zero : BlockHeader := mkBlockHeader [] 0 0 0 [] [] [] [] [] [] 0 0 false [] None [].

Definition BlockHeader_ok (e : BlockHeader) : Prop :=
  bh_ID e = [] ∧ u32_ok (bh_Version e) ∧ u32_ok (bh_Timestamp e) ∧ u32_ok (bh_Height e) ∧
  u32_ok (bh_MaxHeightPrevoted e) ∧ u32_ok (bh_MaxHeightGenerated e) ∧
  (∃ c, bh_AggregateCommit e = Some c ∧ AggregateCommit_ok c).

Lemma BlockHeader_reads strict e :
  BlockHeader_ok e → Reads 1 16 (BlockHeader_DecodeFromReader strict) (BlockHeader_Encode e) e.
Proof.
  intros Hok. destruct e. unfold BlockHeader_ok, BlockHeader_DecodeFromReader, BlockHeader_Encode in *. solve_reads.
Qed.

#[export] Hint Resolve BlockHeader_reads : reads.

#[export] Instance BlockHeader_Message : Message BlockHeader :=
  { Encode := BlockHeader_Encode; DecodeFromReader := BlockHeader_DecodeFromReader; msg_ok := BlockHeader_ok }.
#[export] Instance BlockHeader_MessageLaws : MessageLaws BlockHeader.
Proof. split. eexists. intros. by apply BlockHeader_reads. Qed.

Record BlockAsset := mkBlockAsset {
  ba_Module : bytes;
  ba_Data : bytes;
}.

Definition BlockAsset_Encode `{Norm} (e : BlockAsset) : bytes :=
  Result (NewWriter
    |> WriteString 1 (ba_Module e)
    |> WriteBytes 2 (ba_Data e)).

Definition BlockAsset_DecodeFromReader `{Norm} (strict : bool) (r : Reader) : res (BlockAsset * Reader) :=
  '(Module_, r) ← ReadString 1 strict r;
  '(Data_, r) ← ReadBytes 2 strict r;
  Ok (mkBlockAsset Module_ Data_, r).

Definition BlockAsset_ok `{Norm} (e : BlockAsset) : Prop :=
  string_ok (ba_Module e).

Lemma BlockAsset_reads `{Norm, !NormLaws} strict e :
  BlockAsset_ok e → Reads 1 3 (BlockAsset_DecodeFromReader strict) (BlockAsset_Encode e) e.
Proof.
  intros Hok. destruct e. unfold BlockAsset_ok, BlockAsset_DecodeFromReader, BlockAsset_Encode in *. solve_reads.
Qed.

#[export] Hint Resolve BlockAsset_reads : reads.

Lemma BlockAsset_total `{Norm} strict : Total 0 (BlockAsset_DecodeFromReader strict).
Proof. unfold BlockAsset_DecodeFromReader. solve_total. Qed.
#[export] Hint Resolve BlockAsset_total : go.

#[export] Instance BlockAsset_Message `{Norm} : Message BlockAsset :=
  { Encode := BlockAsset_Encode; DecodeFromReader := BlockAsset_DecodeFromReader; msg_ok := BlockAsset_ok }.
#[export] Instance BlockAsset_MessageLaws `{Norm, !NormLaws} : MessageLaws BlockAsset.
Proof. split. eexists. intros. by apply BlockAsset_reads. Qed.

Record Block := mkBlock {
  b_Header : option BlockHeader;
  b_Transactions : list Transaction;
  b_Assets : list BlockAsset;
}.

Definition Block_Encode `{Norm} (e : Block) : bytes :=
  Result (NewWriter
    |> WriteEncodable 1 (BlockHeader_Encode <$> b_Header e)
    |> (λ w, foldl (λ w val, WriteEncodable 2 (Some (Transaction_Encode val)) w) w (b_Transactions e))
    |> (λ w, foldl (λ w val, WriteEncodable 3 (Some (BlockAsset_Encode val)) w) w (b_Assets e))).

Definition Block_DecodeFromReader `{Norm} (strict : bool) (r : Reader) : res (Block * Reader) :=
  '(Header_, r) ← ReadDecodable 1 BlockHeader_zero (BlockHeader_DecodeFromReader false) strict r;
  '(Transactions_, r) ← ReadDecodables 2 (Transaction_DecodeFromReader false) r;
  '(Assets_, r) ← ReadDecodables 3 (BlockAsset_DecodeFromReader false) r;
  Ok (mkBlock (Some Header_) Transactions_ Assets_, r).

Definition Block_ok `{Norm} (e : Block) : Prop :=
  (∃ c, b_Header e = Some c ∧ BlockHeader_ok c) ∧ Forall Transaction_ok (b_Transactions e) ∧
  Forall BlockAsset_ok (b_Assets e).

Lemma Block_reads `{Norm, !NormLaws} strict e :
  Block_ok e → Reads 1 4 (Block_DecodeFromReader strict) (Block_Encode e) e.
Proof.
  intros Hok. destruct e. unfold Block_ok, Block_DecodeFromReader, Block_Encode in *. solve_reads.
Qed.

#[export] Hint Resolve Block_reads : reads.

#[export] Instance Block_Message `{Norm} : Message Block :=
  { Encode := Block_Encode; DecodeFromReader := Block_DecodeFromReader; msg_ok := Block_ok }.
#[export] Instance Block_MessageLaws `{Norm, !NormLaws} : MessageLaws Block.
Proof. split. eexists. intros. by apply Block_reads. Qed.

Record signingBlockHeader := mksigningBlockHeader {
  sbh_Version : Z;
  sbh_Timestamp : Z;
  sbh_Height : Z;
  sbh_PreviousBlockID : bytes;
  sbh_GeneratorAddress : bytes;
  sbh_TransactionRoot : bytes;
  sbh_AssetRoot : bytes;
  sbh_EventRoot : bytes;
  sbh_StateRoot : bytes;
  sbh_MaxHeightPrevoted : Z;
  sbh_MaxHeightGenerated : Z;
  sbh_ImpliesMaxPrevotes : bool;
  sbh_ValidatorsHash : bytes;
  sbh_AggregateCommit : option AggregateCommit;
}.

Definition signingBlockHeader_Encode (e : signingBlockHeader) : bytes :=
  Result (NewWriter
    |> WriteUInt32 1 (sbh_Version e)
    |> WriteUInt32 2 (sbh_Timestamp e)
    |> WriteUInt32 3 (sbh_Height e)
    |> WriteBytes 4 (sbh_PreviousBlockID e)
    |> WriteBytes 5 (sbh_GeneratorAddress e)
    |> WriteBytes 6 (sbh_TransactionRoot e)
    |> WriteBytes 7 (sbh_AssetRoot e)
    |> WriteBytes 8 (sbh_EventRoot e)
    |> WriteBytes 9 (sbh_StateRoot e)
    |> WriteUInt32 10 (sbh_MaxHeightPrevoted e)
    |> WriteUInt32 11 (sbh_MaxHeightGenerated e)
    |> WriteBool 12 (sbh_ImpliesMaxPrevotes e)
    |> WriteBytes 13 (sbh_ValidatorsHash e)
    |> WriteEncodable 14 (AggregateCommit_Encode <$> sbh_AggregateCommit e)).

Definition signingBlockHeader_DecodeFromReader (strict : bool) (r : Reader) : res (signingBlockHeader * Reader) :=
  '(Version_, r) ← ReadUInt32 1 strict r;
  '(Timestamp_, r) ← ReadUInt32 2 strict r;
  '(Height_, r) ← ReadUInt32 3 strict r;
  '(PreviousBlockID_, r) ← ReadBytes 4 strict r;
  '(GeneratorAddress_, r) ← ReadBytes 5 strict r;
  '(TransactionRoot_, r) ← ReadBytes 6 strict r;
  '(AssetRoot_, r) ← ReadBytes 7 strict r;
  '(EventRoot_, r) ← ReadBytes 8 strict r;
  '(StateRoot_, r) ← ReadBytes 9 strict r;
  '(MaxHeightPrevoted_, r) ← ReadUInt32 10 strict r;
  '(MaxHeightGenerated_, r) ← ReadUInt32 11 strict r;
  '(ImpliesMaxPrevotes_, r) ← ReadBool 12 strict r;
  '(ValidatorsHash_, r) ← ReadBytes 13 strict r;
  '(AggregateCommit_, r) ← ReadDecodable 14 AggregateCommit_zero (AggregateCommit_DecodeFromReader false) strict r;
  Ok (mksigningBlockHeader Version_ Timestamp_ Height_ PreviousBlockID_ GeneratorAddress_
    TransactionRoot_ AssetRoot_ EventRoot_ StateRoot_ MaxHeightPrevoted_ MaxHeightGenerated_
    ImpliesMaxPrevotes_ ValidatorsHash_ (Some AggregateCommit_), r).

Definition signingBlockHeader_ok (e : signingBlockHeader) : Prop :=
  u32_ok (sbh_Version e) ∧ u32_ok (sbh_Timestamp e) ∧ u32_ok (sbh_Height e) ∧
  u32_ok (sbh_MaxHeightPrevoted e) ∧ u32_ok (sbh_MaxHeightGenerated e) ∧
  (∃ c, sbh_AggregateCommit e = Some c ∧ AggregateCommit_ok c).

Lemma signingBlockHeader_reads strict e :
  signingBlockHeader_ok e → Reads 1 15 (signingBlockHeader_DecodeFromReader strict) (signingBlockHeader_Encode e) e.
Proof.
  intros Hok. destruct e. unfold signingBlockHeader_ok, signingBlockHeader_DecodeFromReader, signingBlockHeader_Encode in *. solve_reads.
Qed.

#[export] Hint Resolve signingBlockHeader_reads : reads.

#[export] Instance signingBlockHeader_Message : Message signingBlockHeader :=
  { Encode := signingBlockHeader_Encode; DecodeFromReader := signingBlockHeader_DecodeFromReader; msg_ok := signingBlockHeader_ok }.
#[export] Instance signingBlockHeader_MessageLaws : MessageLaws signingBlockHeader.
Proof. split. eexists. intros. by apply signingBlockHeader_reads. Qed.

