(* ===== verification/Block.v ===== *)
(** * Block: transactions, blocks and assets of pkg/blockchain

    The operations of transaction.go, block.go, genesis.go and signature.go on
    the types of BlockTypes.v.  Theorems: a transaction has one accepted
    encoding, a block that is encoded is read back, and the roots a validated
    header carries determine the payload. *)

From S2P Require Import Prelude Collection Varint Codec CodecSpec Message Crypto BlockTypes RMT.

(** golang.org/x/crypto/ed25519. *)
Class Ed25519 := {
  Sign : bytes → bytes → bytes;
  Verify : bytes → bytes → bytes → bool;
}.

(** ** transaction.go *)

Definition MaxTransactionParamsSize : Z := 14 * 1024.

(** [^[a-zA-Z0-9]*$]. *)
Definition alphanumeric (c : Z) : bool :=
  ((0x61 <=? c) && (c <=? 0x7a)) || ((0x41 <=? c) && (c <=? 0x5a)) || ((0x30 <=? c) && (c <=? 0x39)).
Definition alphanumericRegex (s : bytes) : bool := forallb alphanumeric s.

Definition TagBlockHeader : bytes := [0x4c; 0x53; 0x4b; 0x5f; 0x42; 0x48; 0x5f].
Definition TagTransaction : bytes := [0x4c; 0x53; 0x4b; 0x5f; 0x54; 0x58; 0x5f].

Section operations.
Context `{Norm, Hasher}.

Definition Transaction_Init (t : Transaction) : Transaction :=
  let txBytes := Transaction_Encode t in
  mkTransaction (Hash txBytes) (len txBytes) (tx_Module t) (tx_Command t) (tx_Nonce t) (tx_Fee t)
    (tx_SenderPublicKey t) (tx_Params t) (tx_Signatures t).

Definition NewTransaction (value : bytes) : res Transaction :=
  tx ← DecodeStrict (Transaction_DecodeFromReader true) value;
  Ok (Transaction_Init tx).

Definition SenderAddress (t : Transaction) : res bytes := GetAddress (tx_SenderPublicKey t).

Definition Transaction_SigningBytes (t : Transaction) : bytes :=
  SigningTransaction_Encode (mkSigningTransaction (tx_Module t) (tx_Command t) (tx_Nonce t)
    (tx_Fee t) (tx_SenderPublicKey t) (tx_Params t)).

Definition GetSignature `{Ed25519} (chainID privateKey : bytes) (t : Transaction) : bytes :=
  Sign privateKey (Hash (Bytes.Join [TagTransaction; chainID; Transaction_SigningBytes t])).

Definition Transaction_Validate (t : Transaction) : res () :=
  if negb (alphanumericRegex (tx_Module t)) then Err (Errorf "module does not satisfy alphanumeric")
  else if negb (alphanumericRegex (tx_Command t)) then
    Err (Errorf "command does not satisfy alphanumeric")
  else if MaxTransactionParamsSize <? len (tx_Params t) then
    Err (Errorf "params size exceeds maximum")
  else if negb (len (tx_SenderPublicKey t) =? EdPublicKeyLength) then
    Err (Errorf "senderPublicKey must have length of 32")
  else if len (tx_Signatures t) =? 0 then Err (Errorf "signatures must have length at least 1")
  else if negb (forallb (λ sig, len sig =? EdSignatureLength) (tx_Signatures t)) then
    Err (Errorf "signatures must have length of 64")
  else Ok ().

(** ** block.go *)

Definition AddressLength : Z := 20.

Definition AggregateCommit_Empty (c : AggregateCommit) : bool :=
  (len (ac_AggregationBits c) =? 0) && (len (ac_CertificateSignature c) =? 0).

Definition BlockHeader_signingBlockHeader (b : BlockHeader) : signingBlockHeader :=
  mksigningBlockHeader (bh_Version b) (bh_Timestamp b) (bh_Height b) (bh_PreviousBlockID b)
    (bh_GeneratorAddress b) (bh_TransactionRoot b) (bh_AssetRoot b) (bh_EventRoot b)
    (bh_StateRoot b) (bh_MaxHeightPrevoted b) (bh_MaxHeightGenerated b)
    (bh_ImpliesMaxPrevotes b) (bh_ValidatorsHash b) (bh_AggregateCommit b).

Definition BlockHeader_SigningBytes (b : BlockHeader) : bytes :=
  signingBlockHeader_Encode (BlockHeader_signingBlockHeader b).

Definition set_bh_ID (id : bytes) (b : BlockHeader) : BlockHeader :=
  mkBlockHeader id (bh_Version b) (bh_Timestamp b) (bh_Height b) (bh_PreviousBlockID b)
    (bh_GeneratorAddress b) (bh_TransactionRoot b) (bh_AssetRoot b) (bh_EventRoot b)
    (bh_StateRoot b) (bh_MaxHeightPrevoted b) (bh_MaxHeightGenerated b)
    (bh_ImpliesMaxPrevotes b) (bh_ValidatorsHash b) (bh_AggregateCommit b) (bh_Signature b).

Definition set_bh_Signature (signature : bytes) (b : BlockHeader) : BlockHeader :=
  mkBlockHeader (bh_ID b) (bh_Version b) (bh_Timestamp b) (bh_Height b) (bh_PreviousBlockID b)
    (bh_GeneratorAddress b) (bh_TransactionRoot b) (bh_AssetRoot b) (bh_EventRoot b)
    (bh_StateRoot b) (bh_MaxHeightPrevoted b) (bh_MaxHeightGenerated b)
    (bh_ImpliesMaxPrevotes b) (bh_ValidatorsHash b) (bh_AggregateCommit b) signature.

Definition BlockHeader_Init (b : BlockHeader) : BlockHeader :=
  set_bh_ID (Hash (BlockHeader_Encode b)) b.

Definition signingBlockHeader_Sign `{Ed25519} (chainID privateKey : bytes) (s : signingBlockHeader)
    : bytes :=
  Sign privateKey (Hash (Bytes.Join [TagBlockHeader; chainID; signingBlockHeader_Encode s])).

Definition BlockHeader_Sign `{Ed25519} (chainID privateKey : bytes) (b : BlockHeader) : BlockHeader :=
  BlockHeader_Init (set_bh_Signature
    (signingBlockHeader_Sign chainID privateKey (BlockHeader_signingBlockHeader b)) b).

Definition ValidateBlockSignature `{Ed25519} (publicKey signature chainID signingBytes : bytes)
    : bool :=
  Verify publicKey (Hash (Bytes.Join [TagBlockHeader; chainID; signingBytes])) signature.

Definition BlockHeader_VerifySignature `{Ed25519} (chainID publicKey : bytes) (b : BlockHeader)
    : bool :=
  ValidateBlockSignature publicKey (bh_Signature b) chainID (BlockHeader_SigningBytes b).

(** The header is decoded leniently. *)
Definition NewBlockHeader (value : bytes) : res BlockHeader :=
  header ← Decode (BlockHeader_DecodeFromReader false) value;
  Ok (BlockHeader_Init header).

Definition NewBlockAsset (val : bytes) : res BlockAsset :=
  DecodeStrict (BlockAsset_DecodeFromReader true) val.

Fixpoint map_res {A B} (f : A → res B) (l : list A) : res (list B) :=
  match l with
  | [] => Ok []
  | x :: l => y ← f x; ys ← map_res f l; Ok (y :: ys)
  end.

Definition NewBlock (val : bytes) : res Block :=
  raw ← DecodeStrict (RawBlock_DecodeFromReader true) val;
  header ← NewBlockHeader (rb_Header raw);
  assets ← map_res NewBlockAsset (rb_Assets raw);
  txs ← map_res NewTransaction (rb_Transactions raw);
  Ok (mkBlock (Some header) txs assets).

Definition Block_Init (b : Block) : Block :=
  mkBlock (BlockHeader_Init <$> b_Header b) (Transaction_Init <$> b_Transactions b) (b_Assets b).

Definition BlockHeader_Validate (b : BlockHeader) : res () :=
  if negb (len (bh_PreviousBlockID b) =? HashLengh) then
    Err (Errorf "previous block id must be 32 bytes")
  else if negb (len (bh_GeneratorAddress b) =? AddressLength) then
    Err (Errorf "generator address must be 20 bytes")
  else if negb (len (bh_Signature b) =? EdSignatureLength) then
    Err (Errorf "block signature must not be empty")
  else Ok ().

Definition BlockHeader_ValidateGenesis (b : BlockHeader) : res () :=
  if negb (bh_Version b =? 0) then Err (Errorf "genesis block version must be 0")
  else if negb (bytes_equal (bh_TransactionRoot b) emptyHash) then
    Err (Errorf "genesis block transaction root must be empty hash")
  else if negb (bytes_equal (bh_GeneratorAddress b) (replicate (Z.to_nat AddressLength) 0)) then
    Err (Errorf "genesis block generator address must be zero address")
  else if negb (len (bh_Signature b) =? 0) then
    Err (Errorf "genesis block signature must be empty")
  else Ok ().

Definition BlockAssets_Sort (a : list BlockAsset) : list BlockAsset :=
  sort_slice (λ x y, bytes_ltb (ba_Module x) (ba_Module y)) a.

(** [seen] is the module map. *)
Fixpoint assets_loop (seen : list bytes) (copied a : list BlockAsset) : res () :=
  match a, copied with
  | [], _ => Ok ()
  | asset :: a, c :: copied =>
      if negb (bytes_equal (ba_Module c) (ba_Module asset)) then
        Err (Errorf "assets must be sorted by module")
      else if bool_decide (ba_Module asset ∈ seen) then
        Err (Errorf "assets module must be unique")
      else assets_loop (ba_Module asset :: seen) copied a
  | _ :: _, [] => Panic
  end.

Definition BlockAssets_Valid (a : list BlockAsset) : res () :=
  assets_loop [] (BlockAssets_Sort a) a.

Fixpoint BlockAssets_GetAsset (module : bytes) (a : list BlockAsset) : option bytes :=
  match a with
  | [] => None
  | asset :: a =>
      if bytes_equal (ba_Module asset) module then Some (ba_Data asset)
      else BlockAssets_GetAsset module a
  end.

Fixpoint BlockAssets_SetAsset (module data : bytes) (a : list BlockAsset) : list BlockAsset :=
  match a with
  | [] => [mkBlockAsset module data]
  | asset :: a =>
      if bytes_equal (ba_Module asset) module then mkBlockAsset (ba_Module asset) data :: a
      else asset :: BlockAssets_SetAsset module data a
  end.

Definition BlockAssets_GetRoot (a : list BlockAsset) : bytes :=
  CalculateRoot (BlockAsset_Encode <$> a).

(** A nil header is dereferenced. *)
Definition Block_Validate (b : Block) : res () :=
  match b_Header b with
  | None => Panic
  | Some header =>
      _ ← BlockHeader_Validate header;
      let txIDs := tx_ID <$> b_Transactions b in
      let transactionRoot := CalculateRoot txIDs in
      if negb (bytes_equal (bh_TransactionRoot header) transactionRoot) then
        Err (Errorf "transaction root must match the payload")
      else
        _ ← BlockAssets_Valid (b_Assets b);
        if negb (bytes_equal (bh_AssetRoot header) (BlockAssets_GetRoot (b_Assets b))) then
          Err (Errorf "assets root must match the assets")
        else Ok ()
  end.

Definition Block_ValidateGenesis (b : Block) : res () :=
  match b_Header b with
  | None => Panic
  | Some header =>
      _ ← BlockHeader_ValidateGenesis header;
      if negb (len (b_Transactions b) =? 0) then Err (Errorf "genesis block payload must be 0")
      else
        _ ← BlockAssets_Valid (b_Assets b);
        if negb (bytes_equal (bh_AssetRoot header) (BlockAssets_GetRoot (b_Assets b))) then
          Err (Errorf "asset root must match the assets")
        else Ok ()
  end.

(** ** genesis.go *)

Definition GenesisBlockVersion : Z := 0.

Definition NewGenesisBlock (height timestamp : Z) (previoudBlockID : bytes)
    (assets : list BlockAsset) : Block :=
  let assets := BlockAssets_Sort assets in
  let assetRoot := BlockAssets_GetRoot assets in
  mkBlock (Some (mkBlockHeader [] GenesisBlockVersion timestamp height previoudBlockID
    (replicate (Z.to_nat AddressLength) 0) (Hash []) assetRoot [] [] height 0 false []
    (Some (mkAggregateCommit 0 [] [])) [])) [] assets.
End operations.

(** ** Lemmas *)

(** Inverts one field of a strict decoder and chains what it consumed. *)
Ltac canon_field Hc L :=
  match goal with
  | |- mbind _ ?x = _ → _ =>
      let a := fresh "a" in let r := fresh "r" in let E := fresh "E" in
      destruct x as [[a r]| | |] eqn:E; try done; cbn [mbind res_bind];
      apply L in E; [|first [typeclasses eauto|by eapply reader_ok_consumed|by vm_compute]..];
      eapply consumed_trans in E; [|exact Hc]; clear Hc; rename E into Hc
  end.

Section lemmas.
Context `{NormLaws, HashLaws}.

Lemma Canon_Transaction : Canon (Transaction_DecodeFromReader true) Transaction_Encode.
Proof.
  intros r tx r' Hr. unfold Transaction_DecodeFromReader.
  pose proof (consumed_nil r Hr) as Hc.
  canon_field Hc (Canon_ReadString 1). canon_field Hc (Canon_ReadString 2).
  canon_field Hc (Canon_ReadUInt 3). canon_field Hc (Canon_ReadUInt 4).
  canon_field Hc (Canon_ReadBytes 5). canon_field Hc (Canon_ReadBytes 6).
  canon_field Hc (Canon_ReadBytesArray 7). intros [= <- <-].
  unfold Transaction_Encode, Result. cbn [tx_Module tx_Command tx_Nonce tx_Fee tx_SenderPublicKey
    tx_Params tx_Signatures]. autorewrite with writer. cbn [w_result NewWriter app].
  rewrite <-?app_assoc in *. done.
Qed.

Lemma DecodeStrict_canon {A} (dec : Reader → res (A * Reader)) enc data a :
  Canon dec enc → bytes_ok data → len data < 2 ^ 63 → DecodeStrict dec data = Ok a → enc a = data.
Proof.
  intros Hc Hd Hl. unfold DecodeStrict.
  destruct (dec (NewReader data)) as [[b r]| | |] eqn:E; try done. cbn [mbind res_bind].
  destruct (HasUnreadBytes r) eqn:Hu; [done|]. intros [= <-].
  apply Hc in E; [|by apply NewReader_ok]. by eapply consumed_all.
Qed.

Lemma Transaction_Encode_Init t : Transaction_Encode (Transaction_Init t) = Transaction_Encode t.
Proof. done. Qed.

Lemma NewTransaction_inv value tx :
  bytes_ok value → len value < 2 ^ 63 → NewTransaction value = Ok tx →
  Transaction_Encode tx = value ∧ tx_ID tx = Hash value ∧ tx_size tx = len value.
Proof.
  intros Hv Hl. unfold NewTransaction.
  destruct (DecodeStrict _ value) as [t| | |] eqn:E; try done. cbn [mbind res_bind].
  intros [= <-]. apply (DecodeStrict_canon _ _ _ _ Canon_Transaction Hv Hl) in E.
  rewrite Transaction_Encode_Init. unfold Transaction_Init. cbn [tx_ID tx_size]. by rewrite E.
Qed.

Lemma NewTransaction_Encode t :
  Transaction_ok t → len (Transaction_Encode t) < 2 ^ 63 →
  NewTransaction (Transaction_Encode t) = Ok (Transaction_Init t).
Proof.
  intros Ht Hl. unfold NewTransaction.
  by rewrite (DecodeStrict_Encode 1 8 _ _ t) by (done || by apply Transaction_reads).
Qed.

Lemma NewBlockHeader_Encode h :
  BlockHeader_ok h → len (BlockHeader_Encode h) < 2 ^ 63 →
  NewBlockHeader (BlockHeader_Encode h) = Ok (BlockHeader_Init h).
Proof.
  intros Hh Hl. unfold NewBlockHeader.
  by rewrite (Decode_Encode 1 16 _ _ h) by (done || by apply BlockHeader_reads).
Qed.

Lemma NewBlockAsset_Encode a :
  BlockAsset_ok a → len (BlockAsset_Encode a) < 2 ^ 63 → NewBlockAsset (BlockAsset_Encode a) = Ok a.
Proof. intros Ha Hl. by apply (DecodeStrict_Encode 1 3 _ _ a); [apply BlockAsset_reads|]. Qed.

Lemma map_res_Ok {A B} (f : A → res B) (l : list A) (k : list B) :
  Forall2 (λ x y, f x = Ok y) l k → map_res f l = Ok k.
Proof. induction 1 as [|x y l k Hf _ IH]; [done|]. cbn [map_res]. by rewrite Hf, IH. Qed.

(** A block is written the way the raw envelope of its encoded parts is. *)
Definition raw_of (h : BlockHeader) (b : Block) : RawBlock :=
  mkRawBlock (BlockHeader_Encode h) (Transaction_Encode <$> b_Transactions b)
    (BlockAsset_Encode <$> b_Assets b).

Lemma enc_repeated_fmap {A} (enc : A → bytes) n l :
  enc_repeated enc n l = enc_repeated id n (enc <$> l).
Proof. unfold enc_repeated. by rewrite <-list_fmap_compose. Qed.

Lemma Block_Encode_raw h b :
  b_Header b = Some h → Block_Encode b = RawBlock_Encode (raw_of h b).
Proof.
  intros Hh. unfold Block_Encode, RawBlock_Encode, Result, raw_of. rewrite Hh.
  cbn [rb_Header rb_Transactions rb_Assets fmap option_fmap option_map].
  autorewrite with writer. by rewrite !(enc_repeated_fmap Transaction_Encode),
    !(enc_repeated_fmap BlockAsset_Encode).
Qed.

Lemma len_enc_Bytes_ge n data : len data ≤ len (enc_Bytes n data).
Proof. unfold enc_Bytes, enc_bytes. len_lia. Qed.

Lemma len_enc_repeated_ge {A} (enc : A → bytes) n l x :
  x ∈ l → len (enc x) ≤ len (enc_repeated enc n l).
Proof.
  induction 1 as [x l|x y l _ IH]; rewrite enc_repeated_cons, len_app.
  - pose proof (len_enc_Bytes_ge n (enc x)). pose proof (len_nonneg (enc_repeated enc n l)). lia.
  - pose proof (len_nonneg (enc_Bytes n (enc y))). lia.
Qed.

Lemma len_Block_parts h b :
  b_Header b = Some h →
  len (BlockHeader_Encode h) ≤ len (Block_Encode b) ∧
  (∀ t, t ∈ b_Transactions b → len (Transaction_Encode t) ≤ len (Block_Encode b)) ∧
  (∀ a, a ∈ b_Assets b → len (BlockAsset_Encode a) ≤ len (Block_Encode b)).
Proof.
  intros Hh. unfold Block_Encode, Result. rewrite Hh. cbn [fmap option_fmap option_map].
  autorewrite with writer. cbn [w_result NewWriter app]. rewrite !len_app.
  pose proof (len_enc_Bytes_ge 1 (BlockHeader_Encode h)).
  pose proof (len_nonneg (enc_repeated Transaction_Encode 2 (b_Transactions b))).
  pose proof (len_nonneg (enc_repeated BlockAsset_Encode 3 (b_Assets b))).
  pose proof (len_nonneg (enc_Bytes 1 (BlockHeader_Encode h))).
  split_and!; [lia| |]; intros x Hx.
  - pose proof (len_enc_repeated_ge Transaction_Encode 2 _ x Hx). lia.
  - pose proof (len_enc_repeated_ge BlockAsset_Encode 3 _ x Hx). lia.
Qed.

Lemma map_res_fmap {A B C} (f : B → res C) (g : A → B) (k : A → C) (l : list A) :
  (∀ x, x ∈ l → f (g x) = Ok (k x)) → map_res f (g <$> l) = Ok (k <$> l).
Proof.
  intros Hf. apply map_res_Ok. induction l as [|x l IH]; [constructor|].
  rewrite !fmap_cons. constructor; [apply Hf; left|]. apply IH. intros. apply Hf. by right.
Qed.

Lemma NewBlock_Encode h b :
  b_Header b = Some h → Block_ok b → len (Block_Encode b) < 2 ^ 63 →
  NewBlock (Block_Encode b) = Ok (Block_Init b).
Proof.
  intros Hh (Hhdr & Htx & Has) Hl.
  assert (BlockHeader_ok h) as Hhok by (destruct Hhdr as (c & Hc & ?); congruence).
  pose proof (len_Block_parts h b Hh) as (Hlh & Hlt & Hla).
  rewrite Forall_forall in Htx. rewrite Forall_forall in Has. unfold NewBlock.
  pose proof (Block_Encode_raw h b Hh) as Hraw. rewrite Hraw at 1.
  rewrite (DecodeStrict_Encode 1 4 _ _ (raw_of h b))
    by (by apply RawBlock_reads || by rewrite <-Hraw).
  cbn [mbind res_bind raw_of rb_Header rb_Assets rb_Transactions].
  rewrite NewBlockHeader_Encode by (done || lia). cbn [mbind res_bind].
  rewrite (map_res_fmap NewBlockAsset BlockAsset_Encode id).
  2:{ intros a Ha. apply (NewBlockAsset_Encode a); [by apply Has|]. specialize (Hla a Ha). lia. }
  cbn [mbind res_bind]. rewrite (map_res_fmap NewTransaction Transaction_Encode Transaction_Init).
  2:{ intros t Ht. apply NewTransaction_Encode; [by apply Htx|]. specialize (Hlt t Ht). lia. }
  cbn [mbind res_bind]. unfold Block_Init. rewrite Hh. by rewrite list_fmap_id.
Qed.
End lemmas.

Section assets.
Implicit Types a : list BlockAsset.

Definition module_lt (x y : BlockAsset) : Prop := bytes_ltb (ba_Module x) (ba_Module y) = true.

Lemma assets_loop_Ok seen copied a :
  assets_loop seen copied a = Ok () ↔
  ba_Module <$> a = take (length a) (ba_Module <$> copied) ∧ NoDup (ba_Module <$> a) ∧
  Forall (λ x, ba_Module x ∉ seen) a.
Proof.
  revert seen copied. induction a as [|x a IH]; intros seen copied.
  { split; [|by destruct copied]. intros _. split_and!; [done|constructor|constructor]. }
  destruct copied as [|c copied]; cbn [assets_loop].
  { split; [done|]. by intros [? _]. }
  rewrite !fmap_cons, NoDup_cons, Forall_cons. cbn [length take].
  unfold bytes_equal. case_bool_decide as E1; cbn [negb].
  2:{ split; [done|]. intros [E _]. congruence. }
  case_bool_decide as E2.
  { split; [done|]. by intros (_ & _ & ? & _). }
  rewrite IH. split.
  - intros (Heq & ? & Hf). split_and!; [by rewrite E1, Heq| |done|done|].
    + intros Hin. apply list_elem_of_fmap in Hin as (y & Hy & Hya).
      rewrite Forall_forall in Hf. apply (Hf y Hya). rewrite <-Hy. left.
    + eapply Forall_impl; [done|]. intros y Hy Hys. apply Hy. by right.
  - intros (Heq & [Hni Hnd] & _ & Hf). injection Heq as _ Heq. split_and!; [done|done|].
    rewrite Forall_forall in Hf |- *. intros y Hy. rewrite not_elem_of_cons. split; [|by apply Hf].
    intros E. apply Hni. rewrite <-E. by apply list_elem_of_fmap_2.
Qed.

Lemma fmap_sorted_eq a b :
  StronglySorted (no_inversion (λ x y, bytes_ltb (ba_Module x) (ba_Module y))) a →
  ba_Module <$> a = ba_Module <$> b →
  StronglySorted (no_inversion (λ x y, bytes_ltb (ba_Module x) (ba_Module y))) b.
Proof.
  intros Ha. revert b. induction Ha as [|x a Ha IH Hx]; intros [|y b] Heq; try done; [constructor|].
  rewrite !fmap_cons in Heq. injection Heq as Hxy Hab. constructor; [by apply IH|].
  rewrite Forall_forall in Hx |- *. intros z Hz. unfold no_inversion in *. rewrite <-Hxy.
  assert (ba_Module z ∈ ba_Module <$> a) as (w & -> & Hw)%list_elem_of_fmap.
  { rewrite Hab. by apply list_elem_of_fmap_2. }
  by apply Hx.
Qed.

(** The asset check accepts exactly the lists that are strictly increasing in
    the module name. *)
Lemma BlockAssets_Valid_sorted a : BlockAssets_Valid a = Ok () ↔ StronglySorted module_lt a.
Proof.
  unfold BlockAssets_Valid, BlockAssets_Sort. rewrite assets_loop_Ok.
  set (less := λ x y : BlockAsset, bytes_ltb (ba_Module x) (ba_Module y)).
  assert (less_ok less) as Hless by apply less_ok_key.
  assert (length a = length (ba_Module <$> sort_slice less a)) as Hlen
    by (by rewrite length_fmap, length_sort_slice).
  rewrite Hlen, take_ge by done. split.
  - intros (Heq & Hnd & _).
    assert (StronglySorted (no_inversion less) a) as Hs.
    { eapply fmap_sorted_eq; [apply (sort_slice_sorted less a Hless)|done]. }
    clear Hlen Heq. induction Hs as [|x a Hs IH Hx]; [constructor|].
    rewrite fmap_cons in Hnd. apply NoDup_cons in Hnd as [Hni Hnd].
    constructor; [by apply IH|]. rewrite Forall_forall in Hx |- *. intros y Hy.
    unfold module_lt. destruct (bytes_ltb (ba_Module x) (ba_Module y)) eqn:E; [done|].
    exfalso. apply Hni. rewrite (bytes_ltb_total _ _ E (Hx y Hy)). by apply list_elem_of_fmap_2.
  - intros Hs. assert (NoDup (ba_Module <$> a)) as Hnd.
    { clear Hlen. induction Hs as [|x a Hs IH Hx]; [constructor|]. rewrite fmap_cons, NoDup_cons.
      split; [|done]. intros (y & E & Hy)%list_elem_of_fmap. rewrite Forall_forall in Hx.
      specialize (Hx y Hy). unfold module_lt in Hx. rewrite E, bytes_ltb_irrefl in Hx. done. }
    split_and!; [|done|apply Forall_true; intros; apply not_elem_of_nil].
    f_equal. apply (sorted_perm_unique (no_inversion less)).
    + intros x y Hx Hy H1 H2. unfold no_inversion, less in *.
      apply list_elem_of_lookup in Hx as [i Hi], Hy as [j Hj].
      assert (ba_Module x = ba_Module y) as E by (by apply bytes_ltb_total).
      assert (i = j) as -> by (eapply NoDup_lookup; [exact Hnd|rewrite list_lookup_fmap, Hi; done|
        rewrite list_lookup_fmap, Hj; cbn; by rewrite E]).
      congruence.
    + clear Hlen Hnd. induction Hs as [|x a Hs IH Hx]; [constructor|]. constructor; [done|].
      eapply Forall_impl; [done|]. intros y Hy. by apply bytes_ltb_asym.
    + by apply sort_slice_sorted.
    + symmetry. apply sort_slice_Permutation.
Qed.

Lemma GetAsset_SetAsset module module' data a :
  BlockAssets_GetAsset module' (BlockAssets_SetAsset module data a)
  = if bytes_equal module module' then Some data else BlockAssets_GetAsset module' a.
Proof.
  unfold bytes_equal. induction a as [|x a IH]; cbn [BlockAssets_SetAsset].
  { cbn [BlockAssets_GetAsset ba_Module ba_Data]. unfold bytes_equal. by case_bool_decide. }
  unfold bytes_equal.
  destruct (decide (ba_Module x = module)) as [E1|E1];
    [rewrite (bool_decide_eq_true_2 _ E1)|rewrite (bool_decide_eq_false_2 _ E1)];
    cbn [BlockAssets_GetAsset ba_Module ba_Data]; unfold bytes_equal.
  - rewrite E1. by case_bool_decide.
  - rewrite IH. case_bool_decide as E2; [|done].
    rewrite bool_decide_eq_false_2; [done|congruence].
Qed.
End assets.

Section validate.
Context `{NormLaws, HashLaws}.

Lemma Block_Validate_roots b :
  Block_Validate b = Ok () →
  ∃ h, b_Header b = Some h ∧ BlockHeader_Validate h = Ok () ∧
    bh_TransactionRoot h = CalculateRoot (tx_ID <$> b_Transactions b) ∧
    bh_AssetRoot h = CalculateRoot (BlockAsset_Encode <$> b_Assets b) ∧
    StronglySorted module_lt (b_Assets b).
Proof.
  unfold Block_Validate. destruct (b_Header b) as [h|]; [|done].
  destruct (BlockHeader_Validate h) as [[]| | |] eqn:Ev; try done. cbn [mbind res_bind].
  unfold bytes_equal. case_bool_decide as E1; [|done]. cbn [negb].
  destruct (BlockAssets_Valid (b_Assets b)) as [[]| | |] eqn:Ea; try done. cbn [mbind res_bind].
  case_bool_decide as E2; [|done]. intros _. exists h.
  split_and!; [done|done|done|exact E2|]. by apply BlockAssets_Valid_sorted.
Qed.

(** Initialised transactions with the same identifiers are equal, unless their
    encodings collide. *)
Lemma tx_IDs_inj (l k : list Transaction) :
  Forall (λ t, ∃ t0, Transaction_ok t0 ∧ len (Transaction_Encode t0) < 2 ^ 63 ∧ t = Transaction_Init t0) l →
  Forall (λ t, ∃ t0, Transaction_ok t0 ∧ len (Transaction_Encode t0) < 2 ^ 63 ∧ t = Transaction_Init t0) k →
  collision_free ((Transaction_Encode <$> l) ++ (Transaction_Encode <$> k)) →
  tx_ID <$> l = tx_ID <$> k → l = k.
Proof.
  intros Hl. revert k. induction Hl as [|t l (t0 & Ht0 & Hs0 & ->) Hl IH]; intros [|u k] Hk Hfree Heq; try done.
  apply Forall_cons in Hk as [(u0 & Hu0 & Hsu & ->) Hk]. rewrite !fmap_cons in Heq, Hfree.
  injection Heq as Hid Heq. f_equal.
  - f_equal. apply Message_Encode_inj; [done..|]. apply (collision_free_eq _ _ _ Hfree); [left| |exact Hid].
    apply elem_of_app. right. left.
  - apply IH; [done| |done]. eapply collision_free_subset; [|exact Hfree]. set_solver.
Qed.

Lemma BlockAssets_Encode_inj (l k : list BlockAsset) :
  Forall (λ a, BlockAsset_ok a ∧ len (BlockAsset_Encode a) < 2 ^ 63) l →
  Forall (λ a, BlockAsset_ok a ∧ len (BlockAsset_Encode a) < 2 ^ 63) k →
  BlockAsset_Encode <$> l = BlockAsset_Encode <$> k → l = k.
Proof.
  intros Hl. revert k. induction Hl as [|a l [Ha Hs] Hl IH]; intros [|b k] Hk Heq; try done.
  apply Forall_cons in Hk as [[Hb _] Hk]. rewrite !fmap_cons in Heq.
  pose proof (f_equal (hd []) Heq : BlockAsset_Encode a = BlockAsset_Encode b) as Hab.
  f_equal; [|apply IH; [done|exact (f_equal tail Heq)]].
  apply (Message_Encode_inj a b); [exact Ha|exact Hb|exact Hs|exact Hab].
Qed.
End validate.

(** ** Properties *)

(** Text that is already normalised: the instance used by the witnesses. *)
Definition ascii_norm : Norm := {| NFC_String := λ s, s; NFC_IsNormal := λ _, true |}.

Lemma ascii_norm_laws : NormLaws (H := ascii_norm).
Proof. by split. Qed.

Definition sample_tx : Transaction :=
  mkTransaction [] 0 [0x74; 0x6f; 0x6b; 0x65; 0x6e] [0x74; 0x78] 300 1000000 (replicate 32 5)
    [1; 2; 3] [replicate 64 9; replicate 64 8].

Definition sample_header : BlockHeader :=
  mkBlockHeader [] 2 1600000000 7 (replicate 32 1) (replicate 20 2) (replicate 32 3)
    (replicate 32 4) (replicate 32 5) (replicate 32 6) 5 4 true (replicate 32 7)
    (Some (mkAggregateCommit 3 [1] [2; 3])) (replicate 64 8).

Definition sample_block : Block :=
  mkBlock (Some sample_header) [sample_tx; sample_tx] [mkBlockAsset [0x61] [1]; mkBlockAsset [0x62] []].

Lemma sample_tx_ok : Transaction_ok (H := ascii_norm) sample_tx.
Proof. by repeat split. Qed.

Lemma sample_header_ok : BlockHeader_ok sample_header.
Proof.
  unfold BlockHeader_ok, u32_ok. split_and!; try done.
  exists (mkAggregateCommit 3 [1] [2; 3]). by split.
Qed.

Lemma sample_block_ok : Block_ok (H := ascii_norm) sample_block.
Proof.
  split; [eexists; split; [reflexivity|apply sample_header_ok]|]. split.
  - repeat (apply Forall_cons; split; [apply sample_tx_ok|]). constructor.
  - by repeat constructor.
Qed.

(** C34: transactions are not malleable: bytes that [NewTransaction] accepts are
    exactly the encoding of the transaction it returns, whose identifier is
    their hash and whose size is their length. *)
Theorem NewTransaction_canonical `{NormLaws, HashLaws} value tx :
  bytes_ok value → len value < 2 ^ 63 → NewTransaction value = Ok tx →
  Transaction_Encode tx = value ∧ tx_ID tx = Hash value ∧ tx_size tx = len value.
Proof. apply NewTransaction_inv. Qed.

Lemma NewTransaction_canonical_witness :
  let value := Transaction_Encode (H := ascii_norm) sample_tx in
  let tx := Transaction_Init (H := ascii_norm) (H0 := toy_hash) sample_tx in
  NewTransaction (H := ascii_norm) (H0 := toy_hash) value = Ok tx ∧
  Transaction_Encode (H := ascii_norm) tx = value.
Proof.
  intros value tx.
  assert (NewTransaction (H := ascii_norm) (H0 := toy_hash) value = Ok tx) as E by (vm_compute; reflexivity).
  split; [exact E|].
  apply (NewTransaction_canonical (H := ascii_norm) (H0 := ascii_norm_laws) (H1 := toy_hash)
    (H2 := toy_hash_laws) value tx); [|vm_compute; reflexivity|exact E].
  subst value. vm_compute. repeat (constructor; [by split|]). constructor.
Defined.

(** A block that is encoded is read back: [NewBlock] on the encoding of a
    well-formed block returns that block with the identifiers of its header
    and transactions filled in. *)
Theorem NewBlock_roundtrip `{NormLaws, HashLaws} b :
  Block_ok b → len (Block_Encode b) < 2 ^ 63 → NewBlock (Block_Encode b) = Ok (Block_Init b).
Proof.
  intros Hok Hl. destruct (proj1 Hok) as (h & Hh & _). by eapply NewBlock_Encode.
Qed.

Lemma NewBlock_roundtrip_witness :
  NewBlock (H := ascii_norm) (H0 := toy_hash) (Block_Encode (H := ascii_norm) sample_block)
  = Ok (Block_Init (H := ascii_norm) (H0 := toy_hash) sample_block).
Proof.
  apply (NewBlock_roundtrip (H := ascii_norm) (H0 := ascii_norm_laws) (H1 := toy_hash)
    (H2 := toy_hash_laws) sample_block); [apply sample_block_ok|vm_compute; reflexivity].
Defined.

(** Decoding a transaction never panics and never loops: on every byte
    string [NewTransaction] returns a transaction or an error. *)
Theorem NewTransaction_total `{Norm, Hasher} value :
  bytes_ok value → len value < 2 ^ 63 →
  (∃ tx, NewTransaction value = Ok tx) ∨ (∃ e, NewTransaction value = Err e).
Proof.
  intros Hv Hl. unfold NewTransaction.
  pose proof (Total_DecodeStrict _ value (Transaction_total true) Hv Hl) as Ht.
  destruct (DecodeStrict _ value) as [t|e| |]; try done; cbn; eauto.
Qed.

Lemma NewTransaction_total_witness :
  (∃ tx, NewTransaction (H := ascii_norm) (H0 := toy_hash) [10; 200; 1] = Ok tx) ∨
  (∃ e, NewTransaction (H := ascii_norm) (H0 := toy_hash) [10; 200; 1] = Err e).
Proof.
  apply (NewTransaction_total (H := ascii_norm) (H0 := toy_hash) [10; 200; 1]); [|vm_compute; reflexivity].
  repeat (constructor; [by split|]). constructor.
Defined.

(** What is hashed for the identifiers and the roots of a block. *)
Definition payload_messages `{Norm, Hasher} (b : Block) : list bytes :=
  let ids := tx_ID <$> b_Transactions b in
  let assets := BlockAsset_Encode <$> b_Assets b in
  (Transaction_Encode <$> b_Transactions b) ++ root_messages (length ids) ids ++ root_messages (length assets) assets.

(** C35: a validated header determines its payload: two validated blocks of
    initialised transactions whose headers carry the same transaction root and
    asset root have the same transactions and assets, provided no two of the
    inputs hashed for their identifiers and roots collide. *)
Theorem Block_Validate_commits `{NormLaws, HashLaws} b1 b2 h1 h2 :
  let inited := Forall (λ t, ∃ t0, Transaction_ok t0 ∧ len (Transaction_Encode t0) < 2 ^ 63 ∧
                                   t = Transaction_Init t0) in
  let assets_ok := Forall (λ a, BlockAsset_ok a ∧ len (BlockAsset_Encode a) < 2 ^ 63) in
  Block_Validate b1 = Ok () → Block_Validate b2 = Ok () →
  b_Header b1 = Some h1 → b_Header b2 = Some h2 →
  inited (b_Transactions b1) → inited (b_Transactions b2) →
  assets_ok (b_Assets b1) → assets_ok (b_Assets b2) →
  collision_free (payload_messages b1 ++ payload_messages b2) →
  bh_TransactionRoot h1 = bh_TransactionRoot h2 → bh_AssetRoot h1 = bh_AssetRoot h2 →
  b_Transactions b1 = b_Transactions b2 ∧ b_Assets b1 = b_Assets b2.
Proof.
  intros inited assets_ok Hv1 Hv2 Hh1 Hh2 Ht1 Ht2 Ha1 Ha2 Hfree Htr Har.
  apply Block_Validate_roots in Hv1 as (h & Hh & _ & Er1 & Ea1 & _); assert (h = h1) as -> by congruence.
  apply Block_Validate_roots in Hv2 as (h & Hh' & _ & Er2 & Ea2 & _); assert (h = h2) as -> by congruence.
  rewrite Er1, Er2 in Htr. rewrite Ea1, Ea2 in Har.
  apply (CalculateRoot_binding_fuel _ _ _ _ (le_n _) (le_n _)) in Htr;
    [|eapply collision_free_subset; [|exact Hfree]; unfold payload_messages; set_solver].
  apply (CalculateRoot_binding_fuel _ _ _ _ (le_n _) (le_n _)) in Har;
    [|eapply collision_free_subset; [|exact Hfree]; unfold payload_messages; set_solver].
  apply tx_IDs_inj in Htr; [|done..|eapply collision_free_subset; [|exact Hfree]; unfold payload_messages; set_solver].
  split; [done|]. by apply BlockAssets_Encode_inj.
Qed.

Definition sealed_block : Block :=
  let b := Block_Init (H := ascii_norm) (H0 := toy_hash) sample_block in
  mkBlock (Some (mkBlockHeader [] 2 1600000000 7 (replicate 32 1) (replicate 20 2)
    (CalculateRoot (H := toy_hash) (tx_ID <$> b_Transactions b))
    (BlockAssets_GetRoot (H := ascii_norm) (H0 := toy_hash) (b_Assets b)) (replicate 32 5)
    (replicate 32 6) 5 4 true (replicate 32 7) (Some (mkAggregateCommit 3 [1] [2; 3]))
    (replicate 64 8))) (b_Transactions b) (b_Assets b).

Lemma Block_Validate_commits_witness :
  Block_Validate (H := ascii_norm) (H0 := toy_hash) sealed_block = Ok () ∧
  b_Transactions sealed_block = b_Transactions sealed_block ∧ b_Assets sealed_block = b_Assets sealed_block.
Proof.
  assert (Block_Validate (H := ascii_norm) (H0 := toy_hash) sealed_block = Ok ()) as E
    by (vm_compute; reflexivity).
  split; [exact E|].
  eapply (Block_Validate_commits (H := ascii_norm) (H0 := ascii_norm_laws) (H1 := toy_hash)
    (H2 := toy_hash_laws) sealed_block sealed_block); [exact E|exact E|reflexivity|reflexivity|..].
  1, 2: repeat (apply Forall_cons; split; [exists sample_tx; split; [apply sample_tx_ok|];
    split; [vm_compute; reflexivity|reflexivity]|]); constructor.
  1, 2: by repeat constructor.
  1: apply collision_free_NoDup, (bool_decide_unpack _); vm_compute; exact I.
  all: reflexivity.
Defined.
