(* ===== verification/DB.v ===== *)
(** * DB: the key-value store of pkg/db

    The storage engine is github.com/cockroachdb/pebble, outside the
    repository: [Pebble] is its interface, with the documented laws in
    [PebbleLaws] and a finite map as instance.  The iteration functions of
    iterator.go are modelled on the ordered entries an iterator visits. *)

From S2P Require Import Prelude Collection.

Class Pebble (S : Type) := {
  p_get : S → bytes → option bytes;
  p_set : bytes → bytes → S → S;
  p_del : bytes → S → S;
  p_entries : S → list (bytes * bytes);
}.

Definition key_lt (x y : bytes * bytes) : Prop := bytes_ltb x.1 y.1 = true.

(** Reads see the last write; iteration visits the entries in key order. *)
Class PebbleLaws (S : Type) `{Pebble S} := {
  p_get_set : ∀ s k v k', p_get (p_set k v s) k' = if bytes_equal k k' then Some v else p_get s k';
  p_get_del : ∀ s k k', p_get (p_del k s) k' = if bytes_equal k k' then None else p_get s k';
  p_entries_sorted : ∀ s, StronglySorted key_lt (p_entries s);
  p_entries_get : ∀ s k v, (k, v) ∈ p_entries s ↔ p_get s k = Some v;
}.

(** ** db.go *)

(** The loop runs from the last byte to the first: on the reversed key. *)
Fixpoint upperBound_loop (rev_end : bytes) : option bytes :=
  match rev_end with
  | [] => None
  | b :: rest => let b := u8 (b + 1) in if negb (b =? 0) then Some (b :: rest) else upperBound_loop rest
  end.

(** [None] is nil: no upper bound. *)
Definition upperBound (b : bytes) : option bytes := reverse <$> upperBound_loop (reverse b).

(** ** iterator.go *)

(** The loops over an iterator: the entries still to be visited, the test that
    breaks, and the limit, checked after an entry has been taken. *)
Fixpoint iter_loop (stop : bytes → bool) (limit count : Z) (l : list (bytes * bytes))
    : list (bytes * bytes) :=
  match l with
  | [] => []
  | (key, value) :: l =>
      if stop key then []
      else (key, value) ::
        (let count := count + 1 in
         if negb (limit =? -1) && (limit <=? count) then [] else iter_loop stop limit count l)
  end.

(** [SeekGE] and [SeekLT] position the iterator; [SeekLT] of nil is before
    every key. *)
Definition SeekGE (start : bytes) (entries : list (bytes * bytes)) : list (bytes * bytes) :=
  filter (λ e, bytes_leb start e.1 = true) entries.
Definition SeekLT (key : bytes) (entries : list (bytes * bytes)) : list (bytes * bytes) :=
  reverse (filter (λ e, bytes_ltb e.1 key = true) entries).

Definition iterateRange (entries : list (bytes * bytes)) (start end_ : bytes) (limit : Z)
    (reversed : bool) : list (bytes * bytes) :=
  if negb reversed then iter_loop (λ key, bytes_ltb end_ key) limit 0 (SeekGE start entries)
  else iter_loop (λ key, bytes_ltb key start) limit 0
         (SeekLT (default [] (upperBound end_)) entries).

(** The iterator is bounded by the prefix and its upper bound. *)
Definition in_bounds (prefix key : bytes) : bool :=
  bytes_leb prefix key &&
  match upperBound prefix with Some u => bytes_ltb key u | None => true end.

Definition iteratePrefix (entries : list (bytes * bytes)) (prefix : bytes) (limit : Z)
    (reversed : bool) : list (bytes * bytes) :=
  let inside := filter (λ e, in_bounds prefix e.1 = true) entries in
  iter_loop (λ _, false) limit 0 (if reversed then reverse inside else inside).

Definition iterateKeyPrefix (entries : list (bytes * bytes)) (prefix : bytes) (limit : Z)
    (reversed : bool) : list bytes :=
  (iteratePrefix entries prefix limit reversed).*1.

(** batch.go: a batch records writes, [Write] applies them in order. *)
Inductive batch_op := BSet (key value : bytes) | BDel (key : bytes).
Abbreviation Batch := (list batch_op).

Definition Batch_Set (key value : bytes) (b : Batch) : Batch := b ++ [BSet key value].
Definition Batch_Del (key : bytes) (b : Batch) : Batch := b ++ [BDel key].

Section db.
Context {S : Type} `{Pebble S}.

Definition Get (db : S) (key : bytes) : option bytes := p_get db key.
Definition Exist (db : S) (key : bytes) : bool := bool_decide (is_Some (Get db key)).
Definition Set_ (key value : bytes) (db : S) : S := p_set key value db.
Definition Del (key : bytes) (db : S) : S := p_del key db.
Definition Iterate (db : S) (prefix : bytes) (limit : Z) (reversed : bool) : list (bytes * bytes) :=
  iteratePrefix (p_entries db) prefix limit reversed.
Definition IterateKey (db : S) (prefix : bytes) (limit : Z) (reversed : bool) : list bytes :=
  iterateKeyPrefix (p_entries db) prefix limit reversed.
Definition IterateRange (db : S) (start end_ : bytes) (limit : Z) (reversed : bool)
    : list (bytes * bytes) :=
  iterateRange (p_entries db) start end_ limit reversed.

Definition apply_op (db : S) (op : batch_op) : S :=
  match op with BSet k v => p_set k v db | BDel k => p_del k db end.
Definition Write (batch : Batch) (db : S) : S := foldl apply_op db batch.
End db.

(** ** Lemmas *)

(** Without a limit, a loop whose test stays true once it is true keeps the
    entries on which it is false. *)
Lemma iter_loop_all stop count l :
  StronglySorted (λ x y : bytes * bytes, stop x.1 = true → stop y.1 = true) l →
  iter_loop stop (-1) count l = filter (λ e, stop e.1 = false) l.
Proof.
  intros Hs. revert count. induction Hs as [|[k v] l Hs IH Hk]; intros count; [done|].
  cbn [iter_loop]. rewrite filter_cons. cbn [fst]. destruct (stop k) eqn:E.
  - rewrite decide_False by done. symmetry.
    destruct (filter _ l) as [|e f] eqn:Ef; [done|exfalso].
    assert (e ∈ filter (λ e, stop e.1 = false) l) as [He Hin]%list_elem_of_filter by (rewrite Ef; left).
    rewrite Forall_forall in Hk. specialize (Hk e Hin E). congruence.
  - rewrite decide_True by done. cbn. by rewrite IH.
Qed.

Lemma iter_loop_limit_1 stop l :
  iter_loop stop 1 0 l = match l with e :: _ => if stop e.1 then [] else [e] | [] => [] end.
Proof. destruct l as [|[k v] l]; [done|]. cbn [iter_loop fst]. by destruct (stop k). Qed.

Section upperBound.
Implicit Types e k : bytes.

(** [e] is the last key below [e]'s upper bound that does not extend it:
    below the bound are the keys up to [e] and the extensions of [e]. *)
Lemma bytes_ltb_cons x y e k :
  bytes_ltb (x :: e) (y :: k) = (x <? y) || (x =? y) && bytes_ltb e k.
Proof.
  unfold bytes_ltb. cbn [bytes_compare].
  destruct (Z.compare_spec x y); subst.
  - by rewrite Z.ltb_irrefl, Z.eqb_refl.
  - by rewrite (proj2 (Z.ltb_lt _ _) H).
  - destruct (Z.ltb_spec x y); [lia|]. destruct (Z.eqb_spec x y); [lia|done].
Qed.

Lemma bytes_ltb_nil_r k : bytes_ltb k [] = false.
Proof. by destruct k. Qed.

(** The bound keeps a prefix of [e], increments one byte and drops the trailing
    [0xff] bytes. *)
Lemma upperBound_shape e u :
  bytes_ok e → upperBound e = Some u →
  ∃ p b n, e = p ++ b :: replicate n 255 ∧ u = p ++ [b + 1] ∧ 0 ≤ b < 255.
Proof.
  intros Hok. unfold upperBound. destruct (upperBound_loop (reverse e)) as [r|] eqn:E; [|done].
  intros [= <-]. rewrite <-(reverse_involutive e).
  assert (bytes_ok (reverse e)) as Hr by (by apply Forall_reverse).
  revert r E Hr. generalize (reverse e). clear. intros l. induction l as [|b l IH]; intros r E Hr; [done|].
  apply Forall_cons in Hr as [Hb Hl]. cbn [upperBound_loop] in E. unfold byte_ok in Hb.
  destruct (decide (b = 255)) as [->|Hne].
  - destruct (IH r E Hl) as (p & c & n & Hp & Hu & Hc). exists p, c, (S n).
    rewrite reverse_cons, Hp, <-app_assoc. split_and!; [|done|lia..]. f_equal. simpl. f_equal.
    by rewrite <-replicate_S_end.
  - unfold u8 in E. rewrite Z.mod_small in E by lia. destruct (Z.eqb_spec (b + 1) 0); [lia|].
    injection E as <-. exists (reverse l), b, 0%nat. rewrite !reverse_cons. split_and!; done || lia.
Qed.

Lemma upperBound_None e : bytes_ok e → upperBound e = None → ∃ n, e = replicate n 255.
Proof.
  intros Hok. unfold upperBound. destruct (upperBound_loop (reverse e)) as [r|] eqn:E; [done|].
  intros _. rewrite <-(reverse_involutive e).
  assert (bytes_ok (reverse e)) as Hr by (by apply Forall_reverse).
  revert E Hr. generalize (reverse e). clear. intros l. induction l as [|b l IH]; intros E Hr; [by exists O|].
  apply Forall_cons in Hr as [Hb Hl]. cbn [upperBound_loop] in E. unfold byte_ok in Hb.
  destruct (decide (b = 255)) as [->|Hne].
  - destruct (IH E Hl) as [n Hn]. exists (S n). by rewrite reverse_cons, Hn, <-replicate_S_end.
  - unfold u8 in E. rewrite Z.mod_small in E by lia. destruct (Z.eqb_spec (b + 1) 0); [lia|done].
Qed.

Lemma prefix_or_le_ff n k :
  bytes_ok k → bytes_leb k (replicate n 255) = true ∨ replicate n 255 `prefix_of` k.
Proof.
  revert k. induction n as [|n IH]; intros k Hk; [right; apply prefix_nil|].
  destruct k as [|x k]; [by left|]. apply Forall_cons in Hk as [Hx Hk]. unfold byte_ok in Hx.
  cbn [replicate]. rewrite bytes_leb_ltb, bytes_ltb_cons.
  destruct (decide (x = 255)) as [->|Hne].
  - rewrite Z.ltb_irrefl, Z.eqb_refl. cbn [orb andb]. rewrite <-bytes_leb_ltb.
    destruct (IH k Hk) as [?|?]; [by left|right; by apply prefix_cons].
  - left. destruct (Z.ltb_spec 255 x); [lia|]. destruct (Z.eqb_spec 255 x); [lia|]. done.
Qed.

Lemma ltb_upperBound e u k :
  bytes_ok e → bytes_ok k → upperBound e = Some u →
  bytes_ltb k u = true ↔ bytes_leb k e = true ∨ e `prefix_of` k.
Proof.
  intros He Hk Hu. apply upperBound_shape in Hu as (p & b & n & -> & -> & Hb); [|done].
  clear He. revert k Hk. induction p as [|x p IH]; intros k Hk; cbn [app].
  - destruct k as [|y k]; [split; [by left|done]|].
    apply Forall_cons in Hk as [Hy Hk]. rewrite bytes_leb_ltb, !bytes_ltb_cons, bytes_ltb_nil_r, andb_false_r, orb_false_r.
    destruct (Z.lt_trichotomy y b) as [Hlt|[->|Hgt]].
    + split; [|intros _; zbool; lia]. intros _. left.
      destruct (Z.ltb_spec b y); [lia|]. destruct (Z.eqb_spec b y); [lia|done].
    + split; [|intros _; zbool; lia]. intros _. rewrite Z.ltb_irrefl, Z.eqb_refl. cbn [orb andb].
      rewrite <-bytes_leb_ltb. destruct (prefix_or_le_ff n k Hk) as [?|?]; [by left|right].
      by apply prefix_cons.
    + split; [zbool; lia|]. intros [Hle|Hpre].
      * destruct (Z.ltb_spec b y); [done|lia].
      * apply prefix_cons_inv_1 in Hpre. lia.
  - destruct k as [|y k]; [split; [by left|done]|].
    apply Forall_cons in Hk as [Hy Hk]. rewrite bytes_leb_ltb, !bytes_ltb_cons.
    destruct (Z.lt_trichotomy y x) as [Hlt|[->|Hgt]].
    + split; [|intros _; apply orb_true_intro; left; by apply Z.ltb_lt]. intros _. left.
      destruct (Z.ltb_spec x y); [lia|]. destruct (Z.eqb_spec x y); [lia|done].
    + rewrite Z.ltb_irrefl, Z.eqb_refl. cbn [orb andb]. rewrite IH, <-bytes_leb_ltb by done.
      split; (intros [?|?]; [by left|right]); [by apply prefix_cons|by eapply prefix_cons_inv_2].
    + destruct (Z.ltb_spec y x); [lia|]. destruct (Z.eqb_spec y x); [lia|]. cbn [orb andb].
      split; [done|]. intros [Hle|Hpre].
      * destruct (Z.ltb_spec x y); [done|lia].
      * apply prefix_cons_inv_1 in Hpre. lia.
Qed.
End upperBound.

Section iterate.
Context {S : Type} `{PebbleLaws S}.
Implicit Types (db : S) (k v start : bytes).

Lemma StronglySorted_filter {A} (R : A → A → Prop) (P : A → Prop) `{!∀ x, Decision (P x)} l :
  StronglySorted R l → StronglySorted R (filter P l).
Proof.
  induction 1 as [|x l Hl IH Hx]; [constructor|]. rewrite filter_cons. case_decide; [|done].
  constructor; [done|]. rewrite Forall_forall in Hx |- *. intros y [_ Hy]%list_elem_of_filter. auto.
Qed.

Lemma StronglySorted_snoc {A} (R : A → A → Prop) l x :
  StronglySorted R l → Forall (λ y, R y x) l → StronglySorted R (l ++ [x]).
Proof.
  induction 1 as [|y l Hl IH Hy]; intros Hx; [by repeat constructor|].
  apply Forall_cons in Hx as [Hyx Hx]. cbn. constructor; [by apply IH|].
  apply Forall_app. split; [done|]. by repeat constructor.
Qed.

Lemma StronglySorted_reverse {A} (R : A → A → Prop) l :
  StronglySorted R l → StronglySorted (flip R) (reverse l).
Proof.
  induction 1 as [|x l Hl IH Hx]; [constructor|]. rewrite reverse_cons.
  apply StronglySorted_snoc; [done|]. by apply Forall_reverse.
Qed.

(** Ascending iteration: the entries of the closed range, in order. *)
Lemma IterateRange_asc db start end_ :
  IterateRange db start end_ (-1) false
  = filter (λ e, bytes_ltb end_ e.1 = false) (filter (λ e, bytes_leb start e.1 = true) (p_entries db)).
Proof.
  unfold IterateRange, iterateRange, SeekGE. cbn [negb]. apply iter_loop_all.
  eapply StronglySorted_weaken; [|apply StronglySorted_filter, p_entries_sorted].
  intros x y Hxy Hx. unfold key_lt in Hxy. by eapply bytes_ltb_trans.
Qed.

(** Descending iteration starts below the upper bound of the end. *)
Lemma IterateRange_desc db start end_ :
  IterateRange db start end_ (-1) true
  = filter (λ e, bytes_ltb e.1 start = false)
      (reverse (filter (λ e, bytes_ltb e.1 (default [] (upperBound end_)) = true) (p_entries db))).
Proof.
  unfold IterateRange, iterateRange, SeekLT. cbn [negb]. apply iter_loop_all.
  eapply StronglySorted_weaken; [|apply StronglySorted_reverse, StronglySorted_filter, p_entries_sorted].
  intros x y Hxy Hx. unfold key_lt, flip in Hxy. by eapply bytes_ltb_trans.
Qed.

Lemma elem_IterateRange_asc db start end_ k v :
  (k, v) ∈ IterateRange db start end_ (-1) false ↔
  p_get db k = Some v ∧ bytes_leb start k = true ∧ bytes_leb k end_ = true.
Proof.
  rewrite IterateRange_asc, !list_elem_of_filter, p_entries_get. cbn [fst].
  rewrite (bytes_leb_ltb k), negb_true_iff. tauto.
Qed.

Lemma elem_IterateRange_desc db start end_ u k v :
  bytes_ok end_ → bytes_ok k → upperBound end_ = Some u →
  (k, v) ∈ IterateRange db start end_ (-1) true ↔
  p_get db k = Some v ∧ bytes_leb start k = true ∧ (bytes_leb k end_ = true ∨ end_ `prefix_of` k).
Proof.
  intros He Hk Hu. rewrite IterateRange_desc, list_elem_of_filter, elem_of_reverse,
    list_elem_of_filter, p_entries_get, Hu. cbn [fst default].
  rewrite (bytes_leb_ltb start), negb_true_iff, <-(ltb_upperBound end_ u k) by done. tauto.
Qed.
End iterate.

(** ** The finite-map instance *)

(** Batches are written in order. *)
Lemma Write_app {S : Type} `{Pebble S} (a b : Batch) (db : S) : Write (a ++ b) db = Write b (Write a db).
Proof. apply foldl_app. Qed.

Section gmap_pebble.
Definition map_entries (m : gmap bytes bytes) : list (bytes * bytes) :=
  sort_slice (λ x y, bytes_ltb x.1 y.1) (map_to_list m).

#[export] Instance gmap_pebble : Pebble (gmap bytes bytes) := {
  p_get := λ m k, m !! k;
  p_set := λ k v m, <[k := v]> m;
  p_del := λ k m, delete k m;
  p_entries := map_entries;
}.

#[export] Instance gmap_pebble_laws : PebbleLaws (gmap bytes bytes).
Proof.
  split; cbn; intros s.
  - intros k v k'. unfold bytes_equal. case_bool_decide as E; [subst; apply lookup_insert_eq|by apply lookup_insert_ne].
  - intros k k'. unfold bytes_equal. case_bool_decide as E; [subst; apply lookup_delete_eq|by apply lookup_delete_ne].
  - unfold map_entries. set (less := λ x y : bytes * bytes, bytes_ltb x.1 y.1).
    assert (less_ok less) as Hless by apply less_ok_key.
    pose proof (sort_slice_sorted less (map_to_list s) Hless) as Hs.
    assert (NoDup (sort_slice less (map_to_list s)).*1) as Hnd.
    { rewrite sort_slice_Permutation. apply NoDup_fst_map_to_list. }
    induction Hs as [|x l Hl IH Hx]; [constructor|]. rewrite fmap_cons in Hnd.
    apply NoDup_cons in Hnd as [Hni Hnd]. constructor; [by apply IH|].
    rewrite Forall_forall in Hx |- *. intros y Hy. unfold key_lt.
    destruct (bytes_ltb x.1 y.1) eqn:E; [done|]. exfalso. apply Hni.
    rewrite (bytes_ltb_total _ _ E (Hx y Hy)). by apply list_elem_of_fmap_2.
  - intros k v. unfold map_entries. by rewrite elem_of_sort_slice, elem_of_map_to_list.
Qed.
End gmap_pebble.
