(* ===== verification/DiffDB.v ===== *)
(** * DiffDB: the cached, revertible state store of pkg/db/diffdb

    A [Database] is a view with a key prefix over a cache that several views
    share: caches live in a heap and a view holds a pointer, as the Go structs
    do.  The abstract state is the function [view]: what a reader of the
    persisted store and the cache sees.  Theorems: every operation refines the
    same operation on the abstract state, [Commit] writes the abstract state to
    the store, [RevertDiff] undoes it, and a restored snapshot is what was
    saved. *)

From S2P Require Import Prelude Collection Codec CodecSpec Message DB.

(** ** diff_codec.go *)

Record KV := mkKV {
  kv_Key : bytes;
  kv_Value : bytes;
}.

Definition KV_Encode (e : KV) : bytes :=
  Result (NewWriter
    |> WriteBytes 1 (kv_Key e)
    |> WriteBytes 2 (kv_Value e)).

Definition KV_DecodeFromReader (strict : bool) (r : Reader) : res (KV * Reader) :=
  '(Key_, r) ← ReadBytes 1 strict r;
  '(Value_, r) ← ReadBytes 2 strict r;
  Ok (mkKV Key_ Value_, r).

Definition KV_ok (e : KV) : Prop :=
  True.

Lemma KV_reads strict e :
  KV_ok e → Reads 1 3 (KV_DecodeFromReader strict) (KV_Encode e) e.
Proof.
  intros Hok. destruct e. unfold KV_ok, KV_DecodeFromReader, KV_Encode in *. solve_reads.
Qed.

#[export] Hint Resolve KV_reads : reads.

Lemma KV_total strict : Total 0 (KV_DecodeFromReader strict).
Proof. unfold KV_DecodeFromReader. solve_total. Qed.
#[export] Hint Resolve KV_total : go.

#[export] Instance KV_Message : Message KV :=
  { Encode := KV_Encode; DecodeFromReader := KV_DecodeFromReader; msg_ok := KV_ok }.
#[export] Instance KV_MessageLaws : MessageLaws KV.
Proof. split. eexists. intros. by apply KV_reads. Qed.

Record Diff := mkDiff {
  df_Added : list bytes;
  df_Updated : list KV;
  df_Deleted : list KV;
}.

Definition Diff_Encode (e : Diff) : bytes :=
  Result (NewWriter
    |> WriteBytesArray 1 (df_Added e)
    |> (λ w, foldl (λ w val, WriteEncodable 2 (Some (KV_Encode val)) w) w (df_Updated e))
    |> (λ w, foldl (λ w val, WriteEncodable 3 (Some (KV_Encode val)) w) w (df_Deleted e))).

Definition Diff_DecodeFromReader (strict : bool) (r : Reader) : res (Diff * Reader) :=
  '(Added_, r) ← ReadBytesArray 1 r;
  '(Updated_, r) ← ReadDecodables 2 (KV_DecodeFromReader false) r;
  '(Deleted_, r) ← ReadDecodables 3 (KV_DecodeFromReader false) r;
  Ok (mkDiff Added_ Updated_ Deleted_, r).

Definition Diff_ok (e : Diff) : Prop :=
  Forall KV_ok (df_Updated e) ∧ Forall KV_ok (df_Deleted e).

Lemma Diff_reads strict e :
  Diff_ok e → Reads 1 4 (Diff_DecodeFromReader strict) (Diff_Encode e) e.
Proof.
  intros Hok. destruct e. unfold Diff_ok, Diff_DecodeFromReader, Diff_Encode in *. solve_reads.
Qed.

#[export] Hint Resolve Diff_reads : reads.

Lemma Diff_total strict : Total 0 (Diff_DecodeFromReader strict).
Proof. unfold Diff_DecodeFromReader. solve_total. Qed.
#[export] Hint Resolve Diff_total : go.

#[export] Instance Diff_Message : Message Diff :=
  { Encode := Diff_Encode; DecodeFromReader := Diff_DecodeFromReader; msg_ok := Diff_ok }.
#[export] Instance Diff_MessageLaws : MessageLaws Diff.
Proof. split. eexists. intros. by apply Diff_reads. Qed.

(** ** cachedb.go *)

Record cacheValue := mkCacheValue {
  cv_init : option bytes;
  cv_value : bytes;
  cv_dirty : bool;
  cv_deleted : bool;
}.

Definition cacheValue_copy (c : cacheValue) : cacheValue :=
  mkCacheValue (cv_init c) (cv_value c) (cv_dirty c) (cv_deleted c).

Abbreviation cacheDB := (gmap bytes cacheValue).

Definition newCacheDB : cacheDB := ∅.

Definition c_add (key value : bytes) (c : cacheDB) : cacheDB :=
  <[key := mkCacheValue None value false false]> c.

Definition c_cache (key value : bytes) (c : cacheDB) : cacheDB :=
  <[key := mkCacheValue (Some value) value false false]> c.

Definition c_set (key value : bytes) (c : cacheDB) : res cacheDB :=
  match c !! key with
  | None => Panic
  | Some original => Ok (<[key := mkCacheValue (cv_init original) value true false]> c)
  end.

(** The three results: value, exist, deleted. *)
Definition c_get (key : bytes) (c : cacheDB) : option bytes * bool * bool :=
  match c !! key with
  | None => (None, false, false)
  | Some original =>
      if cv_deleted original then (None, false, true) else (Some (cv_value original), true, false)
  end.

Definition c_del (key : bytes) (c : cacheDB) : cacheDB :=
  match c !! key with
  | None => c
  | Some original =>
      match cv_init original with
      | None => delete key c
      | Some _ => <[key := mkCacheValue (cv_init original) (cv_value original) (cv_dirty original) true]> c
      end
  end.

Definition c_existAny (key : bytes) (c : cacheDB) : bool := bool_decide (is_Some (c !! key)).

(** The order of iteration over a Go map is unspecified; the callers sort. *)
Definition c_withPrefix (prefix : bytes) (prefixLength : nat) (c : cacheDB) : list (bytes * bytes) :=
  omap (λ '(key, value),
    if cv_deleted value then None
    else if bool_decide (prefix `prefix_of` key) then Some (drop prefixLength key, cv_value value)
    else None) (map_to_list c).

Definition c_dataBetween (start end_ : bytes) (prefixLength : nat) (c : cacheDB)
    : list (bytes * bytes) :=
  omap (λ '(key, value),
    if cv_deleted value then None
    else if bytes_leb start key && bytes_leb key end_ then Some (drop prefixLength key, cv_value value)
    else None) (map_to_list c).

Definition c_copy (c : cacheDB) : cacheDB := cacheValue_copy <$> c.

(** One step of the commit loop: the writer and the three lists. *)
Definition commit_step (acc : Batch * Diff) (kv : bytes * cacheValue) : Batch * Diff :=
  let '(writer, diff) := acc in
  let '(keyBytes, value) := kv in
  match cv_init value with
  | None => (Batch_Set keyBytes (cv_value value) writer,
             mkDiff (df_Added diff ++ [keyBytes]) (df_Updated diff) (df_Deleted diff))
  | Some init =>
      if cv_deleted value then
        (Batch_Del keyBytes writer,
         mkDiff (df_Added diff) (df_Updated diff) (df_Deleted diff ++ [mkKV keyBytes init]))
      else if cv_dirty value then
        (Batch_Set keyBytes (cv_value value) writer,
         mkDiff (df_Added diff) (df_Updated diff ++ [mkKV keyBytes init]) (df_Deleted diff))
      else acc
  end.

(** [order] is the order in which the runtime visits the map. *)
Definition c_commit (order : list (bytes * cacheValue)) (writer : Batch) : Batch * Diff :=
  foldl commit_step (writer, mkDiff [] [] []) order.

(** ** db.go *)

(** Caches are heap objects; a pointer is an index. *)
Abbreviation heap := (list cacheDB).

Record Database := mkDatabase {
  d_prefix : bytes;
  d_prefixLength : nat;
  d_cache : nat;
  d_snapshots : gmap Z nat;
  d_snapshotCount : Z;
}.

Definition deref (h : heap) (p : nat) : cacheDB := default ∅ (h !! p).
Definition store_at (p : nat) (c : cacheDB) (h : heap) : heap := <[p := c]> h.
Definition alloc (c : cacheDB) (h : heap) : nat * heap := (length h, h ++ [c]).

Definition New (prefix : bytes) (h : heap) : Database * heap :=
  let '(p, h) := alloc newCacheDB h in
  (mkDatabase prefix (length prefix) p ∅ 0, h).

Definition WithPrefix (prefix : bytes) (s : Database) : Database :=
  let nextPrefix := Bytes.Join [d_prefix s; prefix] in
  mkDatabase nextPrefix (length nextPrefix) (d_cache s) ∅ 0.

Definition getKey (s : Database) (key : bytes) : bytes :=
  Bytes.JoinSize (Z.of_nat (d_prefixLength s) + len key) [d_prefix s; key].

Section database.
Context {S : Type} `{Pebble S} (store : S).

Definition ensureCache (key : bytes) (c : cacheDB) : bool * cacheDB :=
  match p_get store key with
  | None => (false, c)
  | Some val => (true, c_cache key val c)
  end.

Definition Database_Get (s : Database) (key : bytes) (h : heap) : option bytes * heap :=
  let c := deref h (d_cache s) in
  let '(val, exists_, deleted) := c_get (getKey s key) c in
  if exists_ : bool then (val, h)
  else if deleted : bool then (None, h)
  else
    match p_get store (getKey s key) with
    | None => (None, h)
    | Some val => (Some val, store_at (d_cache s) (c_cache (getKey s key) val c) h)
    end.

Definition Database_Has (s : Database) (key : bytes) (h : heap) : bool * heap :=
  let '(val, h) := Database_Get s key h in (bool_decide (is_Some val), h).

Definition Database_Set (s : Database) (key value : bytes) (h : heap) : res heap :=
  let c := deref h (d_cache s) in
  let prefixedKey := getKey s key in
  if c_existAny prefixedKey c then
    c ← c_set prefixedKey value c;
    Ok (store_at (d_cache s) c h)
  else
    let '(dataExist, c) := ensureCache prefixedKey c in
    if dataExist : bool then
      c ← c_set prefixedKey value c;
      Ok (store_at (d_cache s) c h)
    else Ok (store_at (d_cache s) (c_add prefixedKey value c) h).

Definition Database_Del (s : Database) (key : bytes) (h : heap) : heap :=
  let c := deref h (d_cache s) in
  let prefixedKey := getKey s key in
  let c := if negb (c_existAny prefixedKey c) then (ensureCache prefixedKey c).2 else c in
  store_at (d_cache s) (c_del prefixedKey c) h.

(** The loop over the stored entries caches those that are new and collects a
    copy of the cached value, which is nil for the new ones. *)
Fixpoint stored_loop (prefixLength : nat) (kv : list (bytes * bytes)) (c : cacheDB)
    : list (bytes * bytes) * cacheDB :=
  match kv with
  | [] => ([], c)
  | (key, value) :: kv =>
      let '(val, exists_, deleted) := c_get key c in
      if deleted : bool then stored_loop prefixLength kv c
      else
        let c := if exists_ : bool then c else c_cache key value c in
        let '(rest, c) := stored_loop prefixLength kv c in
        ((drop prefixLength key, default [] val) :: rest, c)
  end.

Definition mergeSortLimit (cached stored : list (bytes * bytes)) (reversed : bool) (limit : Z)
    : list (bytes * bytes) :=
  let result := cached ++ filter (λ data, data.1 ∉ cached.*1) stored in
  let result :=
    sort_slice (λ x y, if reversed then bytes_ltb y.1 x.1 else bytes_ltb x.1 y.1) result in
  if (-1 <? limit) && (limit <? len result) then take (Z.to_nat limit) result else result.

Definition Database_Range (s : Database) (start end_ : bytes) (limit : Z) (reversed : bool)
    (h : heap) : list (bytes * bytes) * heap :=
  let c := deref h (d_cache s) in
  let prefixedStart := getKey s start in
  let prefixedEnd := getKey s end_ in
  let kv := IterateRange store prefixedStart prefixedEnd limit reversed in
  let '(storedValue, c) := stored_loop (d_prefixLength s) kv c in
  let cachedValue := c_dataBetween prefixedStart prefixedEnd (d_prefixLength s) c in
  (mergeSortLimit cachedValue storedValue reversed limit, store_at (d_cache s) c h).

(** The cached entries are selected by the prefix without the one of the view. *)
Definition Database_Iterate (s : Database) (prefix : bytes) (limit : Z) (reversed : bool)
    (h : heap) : list (bytes * bytes) * heap :=
  let c := deref h (d_cache s) in
  let prefixedKey := getKey s prefix in
  let kv := Iterate store prefixedKey limit reversed in
  let '(storedValue, c) := stored_loop (d_prefixLength s) kv c in
  let cachedValue := c_withPrefix prefix (d_prefixLength s) c in
  (mergeSortLimit cachedValue storedValue reversed limit, store_at (d_cache s) c h).

Definition Database_Commit (s : Database) (order : list (bytes * cacheValue)) (batch : Batch)
    : Batch * Diff :=
  c_commit order batch.

Definition RevertDiff (batch : Batch) (diff : Diff) : Batch :=
  let batch := foldl (λ b added, Batch_Del added b) batch (df_Added diff) in
  let batch := foldl (λ b kv, Batch_Set (kv_Key kv) (kv_Value kv) b) batch (df_Deleted diff) in
  foldl (λ b kv, Batch_Set (kv_Key kv) (kv_Value kv) b) batch (df_Updated diff).
End database.

Definition Snapshot (s : Database) (h : heap) : Z * Database * heap :=
  let '(p, h) := alloc (c_copy (deref h (d_cache s))) h in
  let id := d_snapshotCount s in
  (id, mkDatabase (d_prefix s) (d_prefixLength s) (d_cache s) (<[id := p]> (d_snapshots s))
         (d_snapshotCount s + 1), h).

Definition DeleteSnapshot (id : Z) (s : Database) : Database :=
  mkDatabase (d_prefix s) (d_prefixLength s) (d_cache s) (delete id (d_snapshots s))
    (d_snapshotCount s).

Definition RestoreSnapshot (id : Z) (s : Database) : res Database :=
  match d_snapshots s !! id with
  | None => Err (Errorf "snapshot does not exist")
  | Some snapshot =>
      Ok (mkDatabase (d_prefix s) (d_prefixLength s) snapshot (delete id (d_snapshots s))
            (d_snapshotCount s))
  end.

(** ** util.go *)

Section util.
Context {S : Type} `{Pebble S} (store : S) `{Message A}.

Definition GetDecodable (s : Database) (key : bytes) (h : heap) : res A * heap :=
  let '(val, h) := Database_Get store s key h in
  (match val with
   | None => Err (Errorf "requested key does not exist")
   | Some resultBytes => Message_Decode resultBytes
   end, h).

(** The error of [GetDecodable] never is [ErrNotFound]. *)
Definition GetDecodableOrDefault (zero : A) (s : Database) (key : bytes) (h : heap) : res A * heap :=
  let '(r, h) := GetDecodable s key h in
  (match r with
   | Err e => if bool_decide (e = ErrDataNotFound) then Ok zero else Err e
   | x => x
   end, h).

Definition SetEncodable (s : Database) (key : bytes) (value : A) (h : heap) : res heap :=
  Database_Set store s key (Encode value) h.
End util.

(** ** The abstract state *)

Section refinement.
Context {S : Type} `{PebbleLaws S} (store : S).
Implicit Types (c : cacheDB) (h : heap) (s : Database) (k key value : bytes).

(** What a reader sees. *)
Definition view c k : option bytes :=
  match c !! k with
  | Some cv => if cv_deleted cv then None else Some (cv_value cv)
  | None => p_get store k
  end.

(** The invariant of the cache: [init] is the persisted value, an entry without
    it is new and not deleted, and a clean entry holds the persisted value. *)
Definition entry_ok k (cv : cacheValue) : Prop :=
  match cv_init cv with
  | None => p_get store k = None ∧ cv_deleted cv = false
  | Some i => p_get store k = Some i ∧
              (cv_dirty cv = false → cv_deleted cv = false → cv_value cv = i)
  end.
Definition cache_ok c : Prop := ∀ k cv, c !! k = Some cv → entry_ok k cv.

Definition wf s h : Prop := d_prefixLength s = length (d_prefix s) ∧ (d_cache s < length h)%nat.

(** Only the cache at [p] changes. *)
Definition frame (p : nat) h h' : Prop :=
  length h' = length h ∧ ∀ q, q ≠ p → deref h' q = deref h q.

Definition update k (v : option bytes) (m : bytes → option bytes) : bytes → option bytes :=
  λ k', if bytes_equal k k' then v else m k'.

Lemma deref_store_at h p c : (p < length h)%nat → deref (store_at p c h) p = c.
Proof. intros Hp. unfold deref, store_at. by rewrite list_lookup_insert_eq. Qed.

Lemma frame_store_at h p c : frame p h (store_at p c h).
Proof.
  unfold frame, store_at. split; [by rewrite length_insert|]. intros q Hq.
  unfold deref. by rewrite list_lookup_insert_ne.
Qed.

Lemma frame_refl p h : frame p h h.
Proof. by split. Qed.

Lemma frame_trans p h h1 h2 : frame p h h1 → frame p h1 h2 → frame p h h2.
Proof. intros [L1 F1] [L2 F2]. split; [congruence|]. intros q Hq. by rewrite F2, F1. Qed.

Lemma getKey_app s key : d_prefixLength s = length (d_prefix s) → getKey s key = d_prefix s ++ key.
Proof.
  intros Hp. unfold getKey, Bytes.JoinSize. rewrite Hp. cbn [concat]. rewrite app_nil_r.
  apply take_app_length'. rewrite length_app. unfold len. lia.
Qed.

Lemma newCacheDB_ok : cache_ok newCacheDB.
Proof. intros k cv Hk. unfold newCacheDB in Hk. by rewrite lookup_empty in Hk. Qed.

Lemma view_newCacheDB k : view newCacheDB k = p_get store k.
Proof. unfold view, newCacheDB. by rewrite lookup_empty. Qed.

(** *** Cache operations *)

Lemma cache_ok_insert c k cv : cache_ok c → entry_ok k cv → cache_ok (<[k := cv]> c).
Proof.
  intros Hc Hcv k' cv' Hk. apply lookup_insert_Some in Hk as [[<- <-]|[_ Hk]]; [done|by apply Hc].
Qed.

Lemma view_insert c k cv k' :
  view (<[k := cv]> c) k'
  = update k (if cv_deleted cv then None else Some (cv_value cv)) (view c) k'.
Proof.
  unfold view, update, bytes_equal. case_bool_decide as E.
  - subst. by rewrite lookup_insert_eq.
  - by rewrite lookup_insert_ne.
Qed.

Lemma c_cache_ok c k v :
  cache_ok c → p_get store k = Some v → c !! k = None →
  cache_ok (c_cache k v c) ∧ ∀ k', view (c_cache k v c) k' = view c k'.
Proof.
  intros Hc Hs Hk. split; [by apply cache_ok_insert|]. intros k'. unfold c_cache.
  rewrite view_insert. unfold update, bytes_equal. case_bool_decide as E; [|done].
  subst. unfold view. cbn. by rewrite Hk, Hs.
Qed.

Lemma c_set_ok c k v :
  cache_ok c → is_Some (c !! k) →
  ∃ c', c_set k v c = Ok c' ∧ cache_ok c' ∧ ∀ k', view c' k' = update k (Some v) (view c) k'.
Proof.
  intros Hc [cv Hcv]. unfold c_set. rewrite Hcv. eexists. split; [done|]. split.
  - apply cache_ok_insert; [done|]. specialize (Hc k cv Hcv). unfold entry_ok in *. cbn.
    destruct (cv_init cv); [|by destruct Hc]. split; [apply Hc|done].
  - intros k'. by rewrite view_insert.
Qed.

Lemma c_del_ok c k :
  cache_ok c → (c !! k = None → p_get store k = None) →
  cache_ok (c_del k c) ∧ ∀ k', view (c_del k c) k' = update k None (view c) k'.
Proof.
  intros Hc Hnone. unfold c_del. destruct (c !! k) as [cv|] eqn:Hcv.
  - pose proof (Hc k cv Hcv) as He. unfold entry_ok in He. destruct (cv_init cv) as [i|] eqn:Hi.
    + split; [|intros k'; by rewrite view_insert]. apply cache_ok_insert; [done|].
      unfold entry_ok. cbn. rewrite ?Hi. split; [apply He|done].
    + split.
      * intros k' cv' [_ Hk]%lookup_delete_Some. by apply Hc.
      * intros k'. unfold view, update, bytes_equal. case_bool_decide as E.
        -- subst. rewrite lookup_delete_eq. apply He.
        -- by rewrite lookup_delete_ne.
  - split; [done|]. intros k'. unfold update, bytes_equal. case_bool_decide as E; [|done].
    subst. unfold view. rewrite Hcv. auto.
Qed.

(** *** Database operations *)

Lemma Get_refines s h key :
  wf s h → cache_ok (deref h (d_cache s)) →
  ∃ h', Database_Get store s key h = (view (deref h (d_cache s)) (d_prefix s ++ key), h') ∧
    frame (d_cache s) h h' ∧ cache_ok (deref h' (d_cache s)) ∧
    ∀ k, view (deref h' (d_cache s)) k = view (deref h (d_cache s)) k.
Proof.
  intros [Hp Hc] Hok. unfold Database_Get, c_get. rewrite getKey_app by done.
  set (c := deref h (d_cache s)) in *. unfold view at 1.
  destruct (c !! (d_prefix s ++ key)) as [cv|] eqn:Hcv.
  - destruct (cv_deleted cv); exists h; (split_and!; [done|apply frame_refl|done|done]).
  - destruct (p_get store (d_prefix s ++ key)) as [v|] eqn:Hs.
    + eexists. split; [done|]. split; [apply frame_store_at|]. rewrite deref_store_at by done.
      by apply c_cache_ok.
    + exists h. split_and!; [done|apply frame_refl|done|done].
Qed.

Lemma Set_refines s h key value :
  wf s h → cache_ok (deref h (d_cache s)) →
  ∃ h', Database_Set store s key value h = Ok h' ∧ frame (d_cache s) h h' ∧
    cache_ok (deref h' (d_cache s)) ∧
    ∀ k, view (deref h' (d_cache s)) k
         = update (d_prefix s ++ key) (Some value) (view (deref h (d_cache s))) k.
Proof.
  intros [Hp Hc] Hok. unfold Database_Set, c_existAny, ensureCache. rewrite getKey_app by done.
  set (c := deref h (d_cache s)) in *. set (pk := d_prefix s ++ key).
  case_bool_decide as Hex.
  { destruct (c_set_ok c pk value Hok Hex) as (c' & -> & Hok' & Hv). cbn [mbind res_bind].
    eexists. split; [done|]. split; [apply frame_store_at|]. by rewrite deref_store_at. }
  assert (c !! pk = None) as Hnone by (by apply eq_None_not_Some).
  destruct (p_get store pk) as [v|] eqn:Hs.
  - destruct (c_cache_ok c pk v Hok Hs Hnone) as [Hok1 Hv1].
    destruct (c_set_ok (c_cache pk v c) pk value Hok1) as (c' & -> & Hok' & Hv).
    { unfold c_cache. rewrite lookup_insert_eq. eauto. }
    cbn [mbind res_bind]. eexists. split; [done|]. split; [apply frame_store_at|].
    rewrite deref_store_at by done. split; [done|]. intros k. rewrite Hv. unfold update.
    by rewrite Hv1.
  - eexists. split; [done|]. split; [apply frame_store_at|]. rewrite deref_store_at by done.
    split; [by apply cache_ok_insert|]. intros k. unfold c_add. by rewrite view_insert.
Qed.

Lemma Del_refines s h key :
  wf s h → cache_ok (deref h (d_cache s)) →
  let h' := Database_Del store s key h in
  frame (d_cache s) h h' ∧ cache_ok (deref h' (d_cache s)) ∧
  ∀ k, view (deref h' (d_cache s)) k
       = update (d_prefix s ++ key) None (view (deref h (d_cache s))) k.
Proof.
  intros [Hp Hc] Hok. unfold Database_Del, c_existAny, ensureCache. rewrite getKey_app by done.
  set (c := deref h (d_cache s)) in *. set (pk := d_prefix s ++ key).
  split; [apply frame_store_at|]. rewrite deref_store_at by done.
  case_bool_decide as Hex; cbn [negb].
  { apply c_del_ok; [done|]. intros Hn. rewrite Hn in Hex. by apply is_Some_None in Hex. }
  assert (c !! pk = None) as Hnone by (by apply eq_None_not_Some).
  destruct (p_get store pk) as [v|] eqn:Hs; cbn [snd].
  - destruct (c_cache_ok c pk v Hok Hs Hnone) as [Hok1 Hv1].
    destruct (c_del_ok (c_cache pk v c) pk Hok1) as [Hok2 Hv2].
    { unfold c_cache. rewrite lookup_insert_eq. done. }
    split; [done|]. intros k. rewrite Hv2. unfold update. by rewrite Hv1.
  - by apply c_del_ok.
Qed.

(** ** Commit and revert *)

Definition op_key (op : batch_op) : bytes := match op with BSet k _ => k | BDel k => k end.
Definition op_val (op : batch_op) : option bytes := match op with BSet _ v => Some v | BDel _ => None end.

Lemma apply_op_get (s : S) op k :
  p_get (apply_op s op) k = update (op_key op) (op_val op) (p_get s) k.
Proof. destruct op; cbn; [apply p_get_set|apply p_get_del]. Qed.

(** A batch whose operations on [k] agree leaves their value; a batch without
    any leaves [k] alone. *)
Lemma Write_get (b : Batch) (s : S) k r :
  (∀ op, op ∈ b → op_key op = k → op_val op = r) →
  p_get (Write b s) k = if bool_decide (k ∈ op_key <$> b) then r else p_get s k.
Proof.
  unfold Write. revert s. induction b as [|op b IH]; intros s Hb.
  { rewrite bool_decide_eq_false_2; [done|]. apply not_elem_of_nil. }
  cbn [foldl]. rewrite IH by (intros op' Hop; apply Hb; by right). rewrite apply_op_get, fmap_cons.
  unfold update, bytes_equal. destruct (decide (op_key op = k)) as [E|E].
  - rewrite (bool_decide_eq_true_2 (op_key op = k)) by done.
    rewrite (bool_decide_eq_true_2 (k ∈ op_key op :: _)) by (rewrite E; left).
    rewrite (Hb op) by (done || left). by case_bool_decide.
  - rewrite (bool_decide_eq_false_2 (op_key op = k)) by done.
    rewrite (bool_decide_ext (k ∈ op_key op :: _) (k ∈ op_key <$> b)); [done|].
    rewrite elem_of_cons. split; [by intros [->|]|by right].
Qed.

Definition entry_ops (e : bytes * cacheValue) : Batch :=
  match cv_init e.2 with
  | None => [BSet e.1 (cv_value e.2)]
  | Some _ => if cv_deleted e.2 then [BDel e.1]
              else if cv_dirty e.2 then [BSet e.1 (cv_value e.2)] else []
  end.
Definition entry_added (e : bytes * cacheValue) : list bytes :=
  match cv_init e.2 with None => [e.1] | Some _ => [] end.
Definition entry_deleted (e : bytes * cacheValue) : list KV :=
  match cv_init e.2 with
  | None => []
  | Some i => if cv_deleted e.2 then [mkKV e.1 i] else []
  end.
Definition entry_updated (e : bytes * cacheValue) : list KV :=
  match cv_init e.2 with
  | None => []
  | Some i => if cv_deleted e.2 then [] else if cv_dirty e.2 then [mkKV e.1 i] else []
  end.

Lemma c_commit_spec order w :
  c_commit order w = (w ++ (order ≫= entry_ops),
    mkDiff (order ≫= entry_added) (order ≫= entry_updated) (order ≫= entry_deleted)).
Proof.
  unfold c_commit.
  assert (∀ w a u d, foldl commit_step (w, mkDiff a u d) order
    = (w ++ (order ≫= entry_ops), mkDiff (a ++ (order ≫= entry_added))
         (u ++ (order ≫= entry_updated)) (d ++ (order ≫= entry_deleted)))) as Hgen.
  { induction order as [|[k cv] order IH]; intros w' a u d; cbn [foldl mbind list_bind].
    { by rewrite !app_nil_r. }
    unfold commit_step at 2. unfold entry_ops, entry_added, entry_updated, entry_deleted. cbn [fst snd].
    destruct (cv_init cv); [destruct (cv_deleted cv); [|destruct (cv_dirty cv)]|];
      unfold Batch_Set, Batch_Del; cbn [df_Added df_Updated df_Deleted app];
      rewrite IH, <-?app_assoc; done. }
  by rewrite Hgen.
Qed.

Section commit.
Context (c : cacheDB) (order : list (bytes * cacheValue)).
Context (Hok : cache_ok c) (Horder : order ≡ₚ map_to_list c).

Lemma order_lookup k cv : (k, cv) ∈ order ↔ c !! k = Some cv.
Proof. by rewrite Horder, elem_of_map_to_list. Qed.

Lemma elem_of_ops op :
  op ∈ order ≫= entry_ops ↔ ∃ k cv, c !! k = Some cv ∧ op ∈ entry_ops (k, cv).
Proof.
  rewrite list_elem_of_bind. split.
  - intros ([k cv] & Hop & Hin). exists k, cv. by rewrite <-order_lookup.
  - intros (k & cv & Hin & Hop). exists (k, cv). by rewrite order_lookup.
Qed.

(** Committing writes the abstract state. *)
Lemma commit_view k : p_get (Write (order ≫= entry_ops) store) k = view c k.
Proof.
  rewrite (Write_get _ _ k (view c k)).
  - case_bool_decide as Hin; [done|]. unfold view. destruct (c !! k) as [cv|] eqn:Hcv; [|done].
    pose proof (Hok k cv Hcv) as He. unfold entry_ok in He.
    assert (entry_ops (k, cv) = []) as Hnil.
    { destruct (entry_ops (k, cv)) as [|op l] eqn:E; [done|]. exfalso. apply Hin.
      apply list_elem_of_fmap. exists op. split.
      - unfold entry_ops in E. cbn in E. repeat case_match; by simplify_eq.
      - apply elem_of_ops. exists k, cv. split; [done|]. rewrite E. left. }
    unfold entry_ops in Hnil. cbn in Hnil. destruct (cv_init cv); [|done].
    destruct (cv_deleted cv) eqn:Ed; [done|]. destruct (cv_dirty cv) eqn:Edi; [done|].
    destruct He as [-> Hv]. by rewrite Hv.
  - intros op (k' & cv & Hcv & Hop)%elem_of_ops Hk. unfold view, entry_ops in *. cbn in Hop.
    pose proof (Hok k' cv Hcv) as He. unfold entry_ok in He.
    destruct (cv_init cv); [destruct (cv_deleted cv) eqn:Ed; [|destruct (cv_dirty cv)]|];
      try (by apply not_elem_of_nil in Hop); apply list_elem_of_singleton in Hop; subst; cbn in *.
    + by rewrite Hcv, Ed.
    + by rewrite Hcv, Ed.
    + destruct He as [_ Hd]. by rewrite Hcv, Hd.
Qed.

Definition revert_ops : Batch :=
  (BDel <$> (order ≫= entry_added)) ++
  ((λ kv, BSet (kv_Key kv) (kv_Value kv)) <$> (order ≫= entry_deleted)) ++
  ((λ kv, BSet (kv_Key kv) (kv_Value kv)) <$> (order ≫= entry_updated)).

Lemma elem_of_revert_ops op :
  op ∈ revert_ops ↔ ∃ k cv, c !! k = Some cv ∧ entry_ops (k, cv) ≠ [] ∧
    op = match cv_init cv with None => BDel k | Some i => BSet k i end.
Proof.
  unfold revert_ops. rewrite !elem_of_app, !list_elem_of_fmap.
  setoid_rewrite list_elem_of_bind. unfold entry_ops, entry_added, entry_deleted, entry_updated. cbn.
  split.
  - intros [(x & -> & [k cv] & Hx & Hin)|[(x & -> & [k cv] & Hx & Hin)|(x & -> & [k cv] & Hx & Hin)]];
      apply order_lookup in Hin; exists k, cv; cbn in *; (split; [done|]);
      repeat case_match; try (by apply not_elem_of_nil in Hx);
      apply list_elem_of_singleton in Hx; by subst.
  - intros (k & cv & Hcv%order_lookup & Hne & ->).
    destruct (cv_init cv) as [i|] eqn:Hi; [destruct (cv_deleted cv) eqn:Hd|].
    + right; left. exists (mkKV k i). split; [done|]. exists (k, cv). cbn.
      rewrite Hi, Hd. split; [left|done].
    + right; right. destruct (cv_dirty cv) eqn:Hdi; [|done].
      exists (mkKV k i). split; [done|]. exists (k, cv). cbn. rewrite Hi, Hd, Hdi. split; [left|done].
    + left. exists k. split; [done|]. exists (k, cv). cbn. rewrite Hi. split; [left|done].
Qed.

(** Reverting restores every persisted value. *)
Lemma revert_get k :
  p_get (Write revert_ops (Write (order ≫= entry_ops) store)) k = p_get store k.
Proof.
  rewrite (Write_get revert_ops _ k (p_get store k)).
  - case_bool_decide as Hin; [done|]. rewrite commit_view. unfold view.
    destruct (c !! k) as [cv|] eqn:Hcv; [|done].
    pose proof (Hok k cv Hcv) as He. unfold entry_ok in He.
    assert (entry_ops (k, cv) = []) as Hnil.
    { destruct (entry_ops (k, cv)) as [|op l] eqn:E; [done|]. exfalso. apply Hin.
      apply list_elem_of_fmap. exists (match cv_init cv with None => BDel k | Some i => BSet k i end).
      split; [by destruct (cv_init cv)|]. apply elem_of_revert_ops. exists k, cv. by rewrite E. }
    unfold entry_ops in Hnil. cbn in Hnil. destruct (cv_init cv); [|done].
    destruct (cv_deleted cv) eqn:Ed; [done|]. destruct (cv_dirty cv) eqn:Edi; [done|].
    destruct He as [-> Hv]. by rewrite Hv.
  - intros op (k' & cv & Hcv & _ & ->)%elem_of_revert_ops Hk.
    pose proof (Hok k' cv Hcv) as He. unfold entry_ok in He.
    destruct (cv_init cv) as [i|]; cbn in *; subst; symmetry; apply He.
Qed.

Lemma RevertDiff_ops batch :
  RevertDiff batch (c_commit order []).2 = batch ++ revert_ops.
Proof.
  rewrite c_commit_spec. unfold RevertDiff, revert_ops. cbn [snd df_Added df_Deleted df_Updated].
  assert (∀ {A} (f : A → batch_op) (l : list A) b,
    foldl (λ b x, b ++ [f x]) b l = b ++ (f <$> l)) as Hf.
  { intros A f l. induction l as [|x l IH]; intros b; cbn; [by rewrite app_nil_r|].
    by rewrite IH, <-app_assoc. }
  unfold Batch_Del, Batch_Set. by rewrite !Hf, <-!app_assoc.
Qed.
End commit.

(** ** Ranges *)

Definition in_range (a b K : bytes) : Prop := bytes_leb a K = true ∧ bytes_leb K b = true.

Lemma bytes_leb_app (q a b : bytes) : bytes_leb (q ++ a) (q ++ b) = bytes_leb a b.
Proof.
  unfold bytes_leb. induction q as [|x q IH]; [done|]. cbn [app bytes_compare].
  by rewrite Z.compare_refl.
Qed.

Lemma bytes_ltb_app (q a b : bytes) : bytes_ltb (q ++ a) (q ++ b) = bytes_ltb a b.
Proof.
  unfold bytes_ltb. induction q as [|x q IH]; [done|]. cbn [app bytes_compare].
  by rewrite Z.compare_refl.
Qed.

(** Between two keys with a prefix all keys have it. *)
Lemma in_range_prefix (q a b K : bytes) : in_range (q ++ a) (q ++ b) K → ∃ x, K = q ++ x.
Proof.
  unfold in_range. revert K. induction q as [|y q IH]; intros K [H1 H2]; [by exists K|].
  destruct K as [|z K]; [done|]. cbn [app] in *. rewrite !bytes_leb_ltb, !bytes_ltb_cons in *.
  rewrite negb_true_iff, orb_false_iff in *. destruct H1 as [H1 H1'], H2 as [H2 H2'].
  apply Z.ltb_ge in H1, H2. assert (y = z) as -> by lia.
  rewrite Z.eqb_refl, andb_true_l in *.
  destruct (IH K) as [x ->]; [by rewrite !bytes_leb_ltb, H1', H2'|by exists x].
Qed.

(** The stored entries are cached, which readers do not notice. *)
Lemma stored_loop_ok n kv c :
  cache_ok c → (∀ k v, (k, v) ∈ kv → p_get store k = Some v) →
  ∃ rest c', stored_loop n kv c = (rest, c') ∧ cache_ok c' ∧ (∀ k, view c' k = view c k) ∧
    (∀ k, k ∈ kv.*1 → is_Some (c' !! k)) ∧ (∀ k, is_Some (c !! k) → is_Some (c' !! k)) ∧
    ∀ x, x ∈ rest.*1 → ∃ k, x = drop n k ∧ k ∈ kv.*1 ∧ is_Some (view c k).
Proof.
  revert c. induction kv as [|[k v] kv IH]; intros c Hok Hkv.
  { exists [], c. split_and!; try done; intros ? Hx; by apply not_elem_of_nil in Hx. }
  assert (p_get store k = Some v) as Hs by (apply Hkv; left).
  assert (∀ k v, (k, v) ∈ kv → p_get store k = Some v) as Hkv' by (intros; apply Hkv; by right).
  cbn [stored_loop]. unfold c_get. destruct (c !! k) as [cv|] eqn:Hck.
  - destruct (cv_deleted cv) eqn:Hd.
    + destruct (IH c Hok Hkv') as (rest & c' & -> & Hok' & Hv & Hin & Hmono & Hrest).
      exists rest, c'. split_and!; try done.
      * intros k' [->|Hk']%elem_of_cons; [apply Hmono; cbn; rewrite Hck; eauto|by apply Hin].
      * intros x Hx. destruct (Hrest x Hx) as (k' & ? & ? & ?). exists k'. split_and!; [done|by right|done].
    + destruct (IH c Hok Hkv') as (rest & c' & -> & Hok' & Hv & Hin & Hmono & Hrest).
      eexists _, c'. split; [done|]. split_and!; try done.
      * intros k' [->|Hk']%elem_of_cons; [apply Hmono; cbn; rewrite Hck; eauto|by apply Hin].
      * intros x [->|Hx]%elem_of_cons.
        -- exists k. split_and!; [done|left|]. unfold view. rewrite Hck, Hd. eauto.
        -- destruct (Hrest x Hx) as (k' & ? & ? & ?). exists k'. split_and!; [done|by right|done].
  - destruct (c_cache_ok c k v Hok Hs Hck) as [Hok1 Hv1].
    destruct (IH (c_cache k v c) Hok1 Hkv') as (rest & c' & -> & Hok' & Hv & Hin & Hmono & Hrest).
    eexists _, c'. split; [done|]. split_and!; try done.
    + intros k'. by rewrite Hv, Hv1.
    + intros k' [->|Hk']%elem_of_cons; [|by apply Hin]. apply Hmono. unfold c_cache. cbn.
      rewrite lookup_insert_eq. eauto.
    + intros k' Hk'. apply Hmono. unfold c_cache. destruct (decide (k = k')) as [->|];
        [rewrite lookup_insert_eq; eauto|by rewrite lookup_insert_ne].
    + intros x [->|Hx]%elem_of_cons.
      * exists k. split_and!; [done|left|]. unfold view. rewrite Hck, Hs. eauto.
      * destruct (Hrest x Hx) as (k' & ? & ? & ?). exists k'. split_and!; [done|by right|by rewrite <-Hv1].
Qed.

Lemma elem_of_dataBetween q a b c x v :
  (x, v) ∈ c_dataBetween (q ++ a) (q ++ b) (length q) c ↔
  in_range (q ++ a) (q ++ b) (q ++ x) ∧ is_Some (c !! (q ++ x)) ∧ view c (q ++ x) = Some v.
Proof.
  unfold c_dataBetween. rewrite list_elem_of_omap. split.
  - intros ([K cv] & Hin & Heq). apply elem_of_map_to_list in Hin.
    destruct (cv_deleted cv) eqn:Hd; [done|].
    destruct (_ && _) eqn:Hr; [|done]. apply andb_true_iff in Hr. injection Heq as <- <-.
    destruct (in_range_prefix q a b K Hr) as [y ->]. rewrite drop_app_length.
    split_and!; [exact Hr|eauto|]. unfold view. by rewrite Hin, Hd.
  - intros ([Hr1 Hr2] & [cv Hcv] & Hv). exists (q ++ x, cv). split; [by apply elem_of_map_to_list|].
    unfold view in Hv. rewrite Hcv in Hv. destruct (cv_deleted cv); [done|].
    rewrite Hr1, Hr2, drop_app_length. cbn. congruence.
Qed.

Lemma NoDup_dataBetween q a b c : NoDup (c_dataBetween (q ++ a) (q ++ b) (length q) c).*1.
Proof.
  unfold c_dataBetween. pose proof (NoDup_fst_map_to_list c) as Hnd.
  induction (map_to_list c) as [|[K cv] l IH]; [constructor|].
  rewrite fmap_cons in Hnd. apply NoDup_cons in Hnd as [Hni Hnd]. cbn [omap list_omap].
  destruct (cv_deleted cv); [by apply IH|]. destruct (_ && _) eqn:Hr; [|by apply IH].
  rewrite fmap_cons. apply NoDup_cons. split; [|by apply IH].
  intros ([y w] & Hy & Hin)%list_elem_of_fmap. apply list_elem_of_omap in Hin as ([K' cv'] & Hin & Heq).
  destruct (cv_deleted cv'); [done|].
  destruct (bytes_leb (q ++ a) K' && bytes_leb K' (q ++ b)) eqn:Hr'; [|done].
  apply andb_true_iff in Hr, Hr'. injection Heq as <- <-.
  destruct (in_range_prefix q a b K Hr) as [z ->], (in_range_prefix q a b K' Hr') as [z' ->].
  cbn in Hy. rewrite !drop_app_length in Hy. subst z'. apply Hni.
  apply list_elem_of_fmap. by exists (q ++ z, cv').
Qed.

(** The order of the result. *)
Definition range_less (reversed : bool) (x y : bytes * bytes) : bool :=
  if reversed then bytes_ltb y.1 x.1 else bytes_ltb x.1 y.1.

Lemma range_less_ok reversed : less_ok (range_less reversed).
Proof. destruct reversed; [apply less_ok_key_desc|apply less_ok_key]. Qed.

(** What the persisted keys must satisfy for a descending range: the end has an
    upper bound and is not a proper prefix of a key. *)
Definition desc_ok (e : bytes) : Prop :=
  bytes_ok e ∧ is_Some (upperBound e) ∧
  ∀ K, is_Some (p_get store K) → bytes_ok K ∧ (e `prefix_of` K → K = e).

Lemma elem_IterateRange a b reversed K v :
  (reversed = true → desc_ok b) →
  (K, v) ∈ IterateRange store a b (-1) reversed ↔ p_get store K = Some v ∧ in_range a b K.
Proof.
  intros Hd. unfold in_range. destruct reversed.
  - destruct (Hd eq_refl) as (Hb & [u Hu] & Hkeys). split.
    + intros Hin. assert (p_get store K = Some v) as Hs.
      { rewrite IterateRange_desc in Hin. apply list_elem_of_filter in Hin as [_ Hin].
        by apply elem_of_reverse, list_elem_of_filter in Hin as [_ Hin%p_entries_get]. }
      destruct (Hkeys K) as [HK Hpre]; [eauto|].
      apply (elem_IterateRange_desc store a b u K v Hb HK Hu) in Hin as (_ & ? & [?|Hp]); [done|].
      rewrite (Hpre Hp) in *. split_and!; [done|done|]. by rewrite bytes_leb_ltb, bytes_ltb_irrefl.
    + intros (Hs & H1 & H2). destruct (Hkeys K) as [HK _]; [eauto|].
      apply (elem_IterateRange_desc store a b u K v Hb HK Hu). tauto.
  - apply elem_IterateRange_asc.
Qed.

(** The merged result when every stored entry that matters has been cached. *)
Lemma mergeSort_cached cached stored reversed :
  NoDup cached.*1 → (∀ x, x ∈ stored.*1 → x ∈ cached.*1) →
  mergeSortLimit cached stored reversed (-1) = sort_slice (range_less reversed) cached.
Proof.
  intros Hnd Hsub. unfold mergeSortLimit. cbn [Z.ltb Z.compare andb].
  replace (filter (λ data, data.1 ∉ cached.*1) stored) with (@nil (bytes * bytes));
    [by rewrite app_nil_r|].
  symmetry. destruct (filter _ stored) as [|e f] eqn:Ef; [done|exfalso].
  assert (e ∈ filter (λ data, data.1 ∉ cached.*1) stored) as [He Hin]%list_elem_of_filter
    by (rewrite Ef; left).
  apply He, Hsub. by apply list_elem_of_fmap_2.
Qed.

(** Without a limit, [Range] returns the entries of the abstract state in the
    range, sorted, and the state seen by readers does not change. *)
Lemma Range_refines s h a b reversed :
  wf s h → cache_ok (deref h (d_cache s)) → (reversed = true → desc_ok (d_prefix s ++ b)) →
  ∃ l h', Database_Range store s a b (-1) reversed h = (l, h') ∧
    frame (d_cache s) h h' ∧ cache_ok (deref h' (d_cache s)) ∧
    (∀ k, view (deref h' (d_cache s)) k = view (deref h (d_cache s)) k) ∧
    StronglySorted (no_inversion (range_less reversed)) l ∧ NoDup l.*1 ∧
    ∀ x v, (x, v) ∈ l ↔ in_range a b x ∧ view (deref h (d_cache s)) (d_prefix s ++ x) = Some v.
Proof.
  intros [Hp Hc] Hok Hd. unfold Database_Range. rewrite !getKey_app, Hp by done.
  set (q := d_prefix s) in *. set (c := deref h (d_cache s)) in *.
  pose proof (λ K v, elem_IterateRange (q ++ a) (q ++ b) reversed K v Hd) as Hkv.
  destruct (stored_loop_ok (length q) (IterateRange store (q ++ a) (q ++ b) (-1) reversed) c Hok)
    as (rest & c' & -> & Hok' & Hv & Hin & Hmono & Hrest).
  { intros k v Hk. by apply Hkv in Hk as [? _]. }
  set (cached := c_dataBetween (q ++ a) (q ++ b) (length q) c').
  assert (∀ x v, (x, v) ∈ cached ↔ in_range a b x ∧ view c (q ++ x) = Some v) as Hcached.
  { intros x v. unfold cached. rewrite elem_of_dataBetween, Hv. unfold in_range.
    rewrite !bytes_leb_app. split; [tauto|]. intros [Hr Hvx]. split_and!; [apply Hr|apply Hr| |done].
    unfold view in Hvx. destruct (c !! (q ++ x)) as [cv|] eqn:E; [apply Hmono; rewrite E; eauto|].
    apply Hin. apply list_elem_of_fmap. exists (q ++ x, v). split; [done|]. apply Hkv.
    split; [done|]. unfold in_range. by rewrite !bytes_leb_app. }
  eexists _, _. split; [done|]. split; [apply frame_store_at|]. rewrite deref_store_at by done.
  split; [done|]. split; [done|]. rewrite mergeSort_cached.
  - split; [apply sort_slice_sorted, range_less_ok|]. split.
    + rewrite sort_slice_Permutation. apply NoDup_dataBetween.
    + intros x v. by rewrite elem_of_sort_slice.
  - apply NoDup_dataBetween.
  - intros x Hx. destruct (Hrest x Hx) as (K & -> & HK & [v Hvk]).
    apply list_elem_of_fmap in HK as ([K' w] & -> & HK). apply Hkv in HK as [_ Hr].
    destruct (in_range_prefix q a b _ Hr) as [y Hy]. cbn [fst] in *. subst K'.
    rewrite drop_app_length. apply list_elem_of_fmap. exists (y, v). split; [done|]. apply Hcached.
    split; [|done]. unfold in_range in *. by rewrite !bytes_leb_app in Hr.
Qed.

Lemma iter_loop_1 stop l count : iter_loop stop 1 0 l = take 1 (iter_loop stop (-1) count l).
Proof.
  destruct l as [|[k v] l]; [done|]. cbn [iter_loop]. by destruct (stop k).
Qed.

Lemma IterateRange_1 a b reversed :
  IterateRange store a b 1 reversed = take 1 (IterateRange store a b (-1) reversed).
Proof. unfold IterateRange, iterateRange. destruct reversed; apply iter_loop_1. Qed.

Lemma IterateRange_sorted a b :
  StronglySorted (λ x y, bytes_leb y.1 x.1 = true) (IterateRange store a b (-1) true).
Proof.
  rewrite IterateRange_desc. apply StronglySorted_filter.
  eapply StronglySorted_weaken; [|apply StronglySorted_reverse, StronglySorted_filter, p_entries_sorted].
  intros x y Hxy. unfold flip, key_lt in Hxy. rewrite bytes_leb_ltb. by rewrite (bytes_ltb_asym _ _ Hxy).
Qed.

Lemma mergeSort_1 cached stored :
  NoDup cached.*1 → (∀ x, x ∈ stored.*1 → x ∈ cached.*1) →
  mergeSortLimit cached stored true 1 = take 1 (sort_slice (range_less true) cached).
Proof.
  intros Hnd Hsub. rewrite <-(mergeSort_cached cached stored true Hnd Hsub).
  unfold mergeSortLimit. cbn [Z.ltb Z.compare andb]. set (l := sort_slice _ _).
  destruct (Z.ltb_spec 1 (len l)) as [Hlt|Hle]; [done|]. change (-1 <? -1) with false. cbn [andb].
  rewrite take_ge; [done|]. unfold len in *. lia.
Qed.

(** Every deleted persisted key of the range has a larger visible one. *)
Definition no_hidden_top (q a b : bytes) c : Prop :=
  ∀ K, in_range (q ++ a) (q ++ b) K → is_Some (p_get store K) → view c K = None →
  ∃ y, in_range a b y ∧ is_Some (view c (q ++ y)) ∧ bytes_ltb K (q ++ y) = true.

Lemma head_sorted_max (l : list (bytes * bytes)) :
  match take 1 (sort_slice (range_less true) l) with
  | [] => l = []
  | e :: t => t = [] ∧ e ∈ l ∧ ∀ e', e' ∈ l → bytes_leb e'.1 e.1 = true
  end.
Proof.
  pose proof (sort_slice_sorted (range_less true) l (range_less_ok true)) as Hs.
  pose proof (sort_slice_Permutation (range_less true) l) as Hp.
  destruct (sort_slice (range_less true) l) as [|e t]; cbn.
  - by apply Permutation_nil_l in Hp.
  - split; [done|]. split; [rewrite <-Hp; left|]. intros e' He'. rewrite <-Hp in He'.
    apply elem_of_cons in He' as [->|He']; [by rewrite bytes_leb_ltb, bytes_ltb_irrefl|].
    inversion Hs as [|? ? ? Hx]; subst. rewrite Forall_forall in Hx. specialize (Hx e' He').
    unfold no_inversion, range_less in Hx. by rewrite bytes_leb_ltb, Hx.
Qed.

Lemma bytes_leb_trans (x y z : bytes) :
  bytes_leb x y = true → bytes_leb y z = true → bytes_leb x z = true.
Proof.
  rewrite !bytes_leb_ltb, !negb_true_iff. intros H1 H2. by eapply bytes_ltb_cotrans.
Qed.

(** With limit one, descending, [Range] returns the entry with the largest key
    of the range. *)
Lemma Range_top s h a b :
  wf s h → cache_ok (deref h (d_cache s)) → desc_ok (d_prefix s ++ b) →
  no_hidden_top (d_prefix s) a b (deref h (d_cache s)) →
  ∃ l h', Database_Range store s a b 1 true h = (l, h') ∧
    frame (d_cache s) h h' ∧ cache_ok (deref h' (d_cache s)) ∧
    (∀ k, view (deref h' (d_cache s)) k = view (deref h (d_cache s)) k) ∧
    match l with
    | [] => ∀ y, in_range a b y → view (deref h (d_cache s)) (d_prefix s ++ y) = None
    | e :: t => t = [] ∧ in_range a b e.1 ∧ view (deref h (d_cache s)) (d_prefix s ++ e.1) = Some e.2 ∧
        ∀ y, in_range a b y → is_Some (view (deref h (d_cache s)) (d_prefix s ++ y)) → bytes_leb y e.1 = true
    end.
Proof.
  intros [Hp Hc] Hok Hd Htop. unfold Database_Range. rewrite !getKey_app, Hp, IterateRange_1 by done.
  set (q := d_prefix s) in *. set (c := deref h (d_cache s)) in *.
  set (full := IterateRange store (q ++ a) (q ++ b) (-1) true).
  assert (∀ K v, (K, v) ∈ full ↔ p_get store K = Some v ∧ in_range (q ++ a) (q ++ b) K) as Hkv
    by (intros; by apply elem_IterateRange).
  destruct (stored_loop_ok (length q) (take 1 full) c Hok)
    as (rest & c' & -> & Hok' & Hv & Hin & Hmono & Hrest).
  { intros k v (i & Hi & _)%elem_of_take. by apply list_elem_of_lookup_2, Hkv in Hi as [? _]. }
  set (cached := c_dataBetween (q ++ a) (q ++ b) (length q) c').
  assert (∀ x v, (x, v) ∈ cached ↔ in_range a b x ∧ is_Some (c' !! (q ++ x)) ∧ view c (q ++ x) = Some v)
    as Hcached.
  { intros x v. unfold cached. rewrite elem_of_dataBetween, Hv. unfold in_range. by rewrite !bytes_leb_app. }
  eexists _, _. split; [done|]. split; [apply frame_store_at|]. rewrite deref_store_at by done.
  split; [done|]. split; [done|].
  rewrite mergeSort_1; [|apply NoDup_dataBetween|].
  2:{ intros x Hx. destruct (Hrest x Hx) as (K & -> & HK & [v Hvk]).
      pose proof (Hin K HK) as HKc. apply list_elem_of_fmap in HK as ([K' w] & -> & HK).
      apply elem_of_take in HK as (i & Hi & _). apply list_elem_of_lookup_2, Hkv in Hi as [_ Hr].
      destruct (in_range_prefix q a b _ Hr) as [y Hy]. cbn [fst] in *. subst K'.
      rewrite drop_app_length. apply list_elem_of_fmap. exists (y, v). split; [done|].
      apply elem_of_dataBetween. by rewrite Hv. }
  (** Every visible entry is at most a cached visible one. *)
  assert (∀ y, in_range a b y → is_Some (view c (q ++ y)) →
    ∃ x v, (x, v) ∈ cached ∧ bytes_leb y x = true) as Hmax.
  { intros y Hy [v Hvy]. destruct (c' !! (q ++ y)) eqn:Ecy.
    { exists y, v. split; [apply Hcached; rewrite Ecy; eauto|by rewrite bytes_leb_ltb, bytes_ltb_irrefl]. }
    assert (∀ z w, in_range a b z → view c (q ++ z) = Some w → c' !! (q ++ z) = None →
      (q ++ z, w) ∈ full) as Hfull.
    { intros z w Hz Hvz Hn. apply Hkv. rewrite <-Hv in Hvz. unfold view in Hvz. rewrite Hn in Hvz.
      split; [done|]. unfold in_range. by rewrite !bytes_leb_app. }
    pose proof (Hfull y v Hy Hvy Ecy) as Hyf. unfold full in Hyf, Hfull.
    pose proof (IterateRange_sorted (q ++ a) (q ++ b)) as Hs. fold full in Hs, Hyf, Hfull.
    destruct full as [|[T w] t] eqn:Ef; [by apply not_elem_of_nil in Hyf|].
    inversion Hs as [|? ? _ Ht]; subst. rewrite Forall_forall in Ht.
    assert (∀ e, e ∈ (T, w) :: t → bytes_leb e.1 T = true) as HT.
    { intros e [->|He]%elem_of_cons; [by rewrite bytes_leb_ltb, bytes_ltb_irrefl|by apply Ht]. }
    destruct (Hkv T w) as [HTw _]. destruct (HTw ltac:(left)) as [HTs HTr].
    destruct (in_range_prefix q a b T HTr) as [x ->].
    assert (is_Some (c' !! (q ++ x))) as HTc by (apply Hin; left).
    assert (in_range a b x) as Hx by (unfold in_range in *; by rewrite !bytes_leb_app in HTr).
    destruct (view c (q ++ x)) as [vx|] eqn:Evx.
    - exists x, vx. split; [by apply Hcached|]. specialize (HT _ Hyf). cbn in HT.
      by rewrite bytes_leb_app in HT.
    - destruct (Htop (q ++ x) HTr) as (z & Hz & [vz Hvz] & Hlt); [eauto|done|].
      destruct (c' !! (q ++ z)) eqn:Ecz.
      + exists z, vz. split; [apply Hcached; rewrite Ecz; eauto|].
        specialize (HT _ Hyf). cbn in HT. rewrite bytes_leb_app in HT. rewrite bytes_ltb_app in Hlt.
        eapply bytes_leb_trans; [exact HT|]. by rewrite bytes_leb_ltb, (bytes_ltb_asym _ _ Hlt).
      + specialize (HT _ (Hfull z vz Hz Hvz Ecz)). cbn in HT.
        rewrite bytes_leb_ltb, Hlt in HT. done. }
  pose proof (head_sorted_max cached) as Hhead.
  destruct (take 1 (sort_slice (range_less true) cached)) as [|e t].
  - intros y Hy. destruct (view c (q ++ y)) eqn:E; [|done]. exfalso.
    destruct (Hmax y Hy) as (x & v & Hx & _); [eauto|]. rewrite Hhead in Hx. by apply not_elem_of_nil in Hx.
  - destruct Hhead as (-> & He & Hle). destruct e as [x v]. cbn [fst snd] in *.
    apply Hcached in He as (Hx & _ & Hvx). split_and!; [done|done|done|].
    intros y Hy Hsy. destruct (Hmax y Hy Hsy) as (z & w & Hz & Hyz).
    eapply bytes_leb_trans; [done|]. apply (Hle _ Hz).
Qed.

(** ** Sequences of operations through several views *)

Lemma WithPrefix_wf prefix s h : wf s h → wf (WithPrefix prefix s) h.
Proof. intros [Hp Hc]. by split. Qed.

Lemma d_prefix_WithPrefix prefix s : d_prefix (WithPrefix prefix s) = d_prefix s ++ prefix.
Proof. unfold WithPrefix, Bytes.Join. cbn. by rewrite app_nil_r. Qed.

Lemma update_ext k v (m m' : bytes → option bytes) k' :
  (∀ k, m k = m' k) → update k v m k' = update k v m' k'.
Proof. intros Hm. unfold update. by rewrite Hm. Qed.
End refinement.

(** An operation issued through the view with the given prefix. *)
Inductive view_op :=
| OpGet (prefix key : bytes)
| OpHas (prefix key : bytes)
| OpSet (prefix key value : bytes)
| OpDel (prefix key : bytes).

(** The implementation: each operation derives its view with [WithPrefix]; all
    of them share the cache of [s].  The results of the reads are collected. *)
Fixpoint run {S : Type} `{Pebble S} (store : S) (s : Database) (ops : list view_op) (h : heap)
    : res (list (option bytes) * heap) :=
  match ops with
  | [] => Ok ([], h)
  | OpGet p k :: ops =>
      let '(v, h) := Database_Get store (WithPrefix p s) k h in
      '(out, h) ← run store s ops h;
      Ok (v :: out, h)
  | OpHas p k :: ops =>
      let '(b, h) := Database_Has store (WithPrefix p s) k h in
      '(out, h) ← run store s ops h;
      Ok ((if b : bool then Some [1] else None) :: out, h)
  | OpSet p k v :: ops =>
      h ← Database_Set store (WithPrefix p s) k v h;
      run store s ops h
  | OpDel p k :: ops => run store s ops (Database_Del store (WithPrefix p s) k h)
  end.

(** The specification: one map from full keys to values. *)
Fixpoint run_spec (q : bytes) (ops : list view_op) (m : bytes → option bytes)
    : list (option bytes) * (bytes → option bytes) :=
  match ops with
  | [] => ([], m)
  | OpGet p k :: ops => let '(out, m') := run_spec q ops m in (m (q ++ p ++ k) :: out, m')
  | OpHas p k :: ops =>
      let '(out, m') := run_spec q ops m in
      ((if bool_decide (is_Some (m (q ++ p ++ k))) then Some [1] else None) :: out, m')
  | OpSet p k v :: ops => run_spec q ops (update (q ++ p ++ k) (Some v) m)
  | OpDel p k :: ops => run_spec q ops (update (q ++ p ++ k) None m)
  end.

Section sequences.
Context {S : Type} `{PebbleLaws S} (store : S).

Lemma run_refines_spec ops s h m :
  wf s h → cache_ok store (deref h (d_cache s)) →
  (∀ k, view store (deref h (d_cache s)) k = m k) →
  ∃ h', run store s ops h = Ok ((run_spec (d_prefix s) ops m).1, h') ∧
    frame (d_cache s) h h' ∧ cache_ok store (deref h' (d_cache s)) ∧
    ∀ k, view store (deref h' (d_cache s)) k = (run_spec (d_prefix s) ops m).2 k.
Proof.
  revert h m. induction ops as [|[p k|p k|p k v|p k] ops IH]; intros h m Hwf Hok Hm;
    cbn [run run_spec].
  { exists h. split_and!; [done|apply frame_refl|done|done]. }
  all: pose proof (WithPrefix_wf p s h Hwf) as Hwf'.
  - destruct (Get_refines store (WithPrefix p s) h k Hwf' Hok) as (h1 & -> & Hf & Hok1 & Hv1).
    destruct (IH h1 m) as (h2 & -> & Hf2 & Hok2 & Hv2); [|done|intros; by rewrite Hv1|].
    { destruct Hwf, Hf as [Hl _]. split; [done|]. by rewrite Hl. }
    rewrite d_prefix_WithPrefix, <-app_assoc. cbn [mbind res_bind].
    destruct (run_spec (d_prefix s) ops m) as [out m'] eqn:E. exists h2. cbn [fst snd d_cache WithPrefix].
    rewrite Hm. split_and!; [done|by eapply frame_trans|done|done].
  - unfold Database_Has.
    destruct (Get_refines store (WithPrefix p s) h k Hwf' Hok) as (h1 & -> & Hf & Hok1 & Hv1).
    destruct (IH h1 m) as (h2 & -> & Hf2 & Hok2 & Hv2); [|done|intros; by rewrite Hv1|].
    { destruct Hwf, Hf as [Hl _]. split; [done|]. by rewrite Hl. }
    rewrite d_prefix_WithPrefix, <-app_assoc. cbn [mbind res_bind].
    destruct (run_spec (d_prefix s) ops m) as [out m'] eqn:E. exists h2. cbn [fst snd d_cache WithPrefix].
    rewrite Hm. split_and!; [done|by eapply frame_trans|done|done].
  - destruct (Set_refines store (WithPrefix p s) h k v Hwf' Hok) as (h1 & -> & Hf & Hok1 & Hv1).
    cbn [mbind res_bind].
    destruct (IH h1 (update (d_prefix s ++ p ++ k) (Some v) m)) as (h2 & -> & Hf2 & Hok2 & Hv2).
    { destruct Hwf, Hf as [Hl _]. split; [done|]. by rewrite Hl. }
    { done. }
    { intros k'. rewrite Hv1, d_prefix_WithPrefix, <-app_assoc. by apply update_ext. }
    exists h2. split_and!; [done|by eapply frame_trans|done|done].
  - destruct (Del_refines store (WithPrefix p s) h k Hwf' Hok) as (Hf & Hok1 & Hv1).
    destruct (IH (Database_Del store (WithPrefix p s) k h) (update (d_prefix s ++ p ++ k) None m))
      as (h2 & -> & Hf2 & Hok2 & Hv2).
    { destruct Hwf, Hf as [Hl _]. split; [done|]. by rewrite Hl. }
    { done. }
    { intros k'. rewrite Hv1, d_prefix_WithPrefix, <-app_assoc. by apply update_ext. }
    exists h2. split_and!; [done|by eapply frame_trans|done|done].
Qed.

(** ** Snapshots *)

Lemma c_copy_id c : c_copy c = c.
Proof.
  unfold c_copy. rewrite <-(map_fmap_id c) at 2. apply map_fmap_ext. intros k [? ? ? ?] _. done.
Qed.

Lemma deref_alloc c h : deref (h ++ [c]) (length h) = c.
Proof. unfold deref. by rewrite list_lookup_middle. Qed.

Lemma deref_alloc_old c h p : (p < length h)%nat → deref (h ++ [c]) p = deref h p.
Proof. intros Hp. unfold deref. by rewrite lookup_app_l. Qed.

Lemma Snapshot_restores s h id s1 h1 h2 :
  wf s h → Snapshot s h = (id, s1, h1) → frame (d_cache s) h1 h2 →
  ∃ s2, RestoreSnapshot id s1 = Ok s2 ∧ d_prefix s2 = d_prefix s ∧
    deref h2 (d_cache s2) = deref h (d_cache s) ∧ wf s2 h2.
Proof.
  intros [Hp Hc] HS [Hlen Hframe]. unfold Snapshot, alloc in HS. injection HS as <- <- <-.
  rewrite length_app in Hlen. cbn in Hlen.
  unfold RestoreSnapshot. cbn [d_snapshots d_prefix d_prefixLength d_snapshotCount].
  rewrite lookup_insert_eq. eexists. split; [done|]. cbn [d_prefix d_cache].
  split; [done|]. split; [|split; cbn; [done|lia]].
  rewrite Hframe by lia. by rewrite deref_alloc, c_copy_id.
Qed.
End sequences.

(** ** Properties *)

(** C13: the cached store refines a plain map.  For any sequence of reads, writes
    and deletions issued through any views derived with [WithPrefix] from one
    store, nothing panics, every read returns what a single map from full keys
    to values returns, and at the end readers see exactly that map.  The map
    starts as the contents of the persisted store. *)
Theorem Database_refines_map {S : Type} `{PebbleLaws S} (store : S) prefix h0 ops :
  let '(s, h) := New prefix h0 in
  let '(out, m) := run_spec prefix ops (p_get store) in
  ∃ h', run store s ops h = Ok (out, h') ∧ frame (d_cache s) h h' ∧
    cache_ok store (deref h' (d_cache s)) ∧ ∀ k, view store (deref h' (d_cache s)) k = m k.
Proof.
  unfold New, alloc. destruct (run_spec prefix ops (p_get store)) as [out m] eqn:E.
  destruct (run_refines_spec store ops (mkDatabase prefix (length prefix) (length h0) ∅ 0)
    (h0 ++ [newCacheDB]) (p_get store)) as (h' & Hrun & Hf & Hok & Hv).
  - split; [done|]. cbn. rewrite length_app. cbn. lia.
  - cbn. rewrite deref_alloc. apply newCacheDB_ok.
  - cbn. rewrite deref_alloc. apply view_newCacheDB.
  - cbn [d_prefix] in *. rewrite E in *. by exists h'.
Qed.

Definition sample_store : gmap bytes bytes :=
  <[[1; 1] := [10]]> (<[[1; 2] := [20]]> (<[[1; 2; 7] := [27]]> (<[[2; 1] := [30]]> ∅))).

Lemma Database_refines_map_witness :
  let ops := [OpSet [2] [5] [50]; OpDel [2] [1]; OpGet [] [2; 5]; OpGet [2] [1]] in
  ∃ h', run sample_store (New [] []).1 ops (New [] []).2 = Ok ([Some [50]; None], h').
Proof.
  intros ops. pose proof (Database_refines_map sample_store [] [] ops) as (h' & Hrun & _).
  by exists h'.
Defined.

(** C14: [Commit] and [RevertDiff] are inverse.  Whatever order the runtime visits
    the cache in, the committed batch turns the persisted store into what
    readers of the cache saw; the recorded diff survives encoding and decoding;
    and applying [RevertDiff] of the decoded diff afterwards restores every
    persisted value. *)
Theorem Commit_then_RevertDiff {S : Type} `{PebbleLaws S} (store : S) s c order :
  cache_ok store c → order ≡ₚ map_to_list c →
  let '(batch, diff) := Database_Commit s order [] in
  len (Diff_Encode diff) < 2 ^ 63 →
  (∀ k, p_get (Write batch store) k = view store c k) ∧
  ∃ diff', Message_Decode (Diff_Encode diff) = Ok diff' ∧
    ∀ k, p_get (Write (RevertDiff [] diff') (Write batch store)) k = p_get store k.
Proof.
  intros Hok Horder. unfold Database_Commit.
  destruct (c_commit order []) as [batch diff] eqn:E. intros Hl.
  pose proof (RevertDiff_ops order []) as Hrev. rewrite E in Hrev.
  pose proof (c_commit_spec order []) as Hspec. rewrite E in Hspec.
  injection Hspec as -> Hdiff. cbn [app snd] in *. split; [by apply commit_view|].
  exists diff. split.
  - assert (Diff_ok diff) as Hd by (split; apply Forall_true; done).
    exact (Message_Decode_Encode diff Hd Hl).
  - intros k. rewrite Hrev. by apply (revert_get store c).
Qed.

Definition sample_cache : cacheDB :=
  <[[1; 1] := mkCacheValue (Some [10]) [11] true false]>
    (<[[1; 2] := mkCacheValue (Some [20]) [20] false true]>
      (<[[9] := mkCacheValue None [90] false false]> ∅)).

Lemma sample_cache_ok : cache_ok sample_store sample_cache.
Proof. by apply map_Forall_insert_2; [|apply map_Forall_insert_2; [|apply map_Forall_insert_2]]. Qed.

Lemma Commit_then_RevertDiff_witness :
  let '(batch, diff) := Database_Commit (New [] []).1 (map_to_list sample_cache) [] in
  p_get (Write (RevertDiff [] diff) (Write batch sample_store)) [1; 2] = Some [20].
Proof.
  pose proof (Commit_then_RevertDiff sample_store (New [] []).1 sample_cache
    (map_to_list sample_cache) sample_cache_ok (reflexivity _)) as H.
  destruct (Database_Commit _ _ _) as [batch diff] eqn:E.
  assert (len (Diff_Encode diff) < 2 ^ 63) as Hl.
  { injection E as <- <-. vm_compute. reflexivity. }
  destruct (H Hl) as (_ & diff' & Hd & Hr).
  assert (diff' = diff) as ->.
  { injection E as <- <-. revert Hd. vm_compute. congruence. }
  rewrite Hr. reflexivity.
Defined.

(** A restored snapshot is what was saved.  If a snapshot is taken, any
    operations then run through the view and its sub-views, and the snapshot is
    restored, then the restored view reads exactly what was visible when the
    snapshot was taken. *)
Theorem RestoreSnapshot_restores {S : Type} `{PebbleLaws S} (store : S) s h ops :
  wf s h → cache_ok store (deref h (d_cache s)) →
  let '(id, s1, h1) := Snapshot s h in
  ∃ out h2 s2, run store s1 ops h1 = Ok (out, h2) ∧ RestoreSnapshot id s1 = Ok s2 ∧
    ∀ key, (Database_Get store s2 key h2).1 = view store (deref h (d_cache s)) (d_prefix s ++ key).
Proof.
  intros Hwf Hok. destruct (Snapshot s h) as [[id s1] h1] eqn:ES.
  assert (d_cache s1 = d_cache s ∧ wf s1 h1 ∧ deref h1 (d_cache s) = deref h (d_cache s)) as (Hc1 & Hwf1 & Hd1).
  { destruct Hwf as [Hp Hc]. unfold Snapshot, alloc in ES. injection ES as <- <- <-. split; [done|].
    split; [split; [done|cbn; rewrite length_app; cbn; lia]|by apply deref_alloc_old]. }
  destruct (run_refines_spec store ops s1 h1 (view store (deref h1 (d_cache s1))))
    as (h2 & Hrun & Hf & _ & _); [done|by rewrite Hc1, Hd1|done|].
  rewrite Hc1 in Hf. destruct (Snapshot_restores s h id s1 h1 h2 Hwf ES Hf)
    as (s2 & Hres & Hp2 & Hd2 & Hwf2).
  eexists _, h2, s2. split; [exact Hrun|]. split; [done|]. intros key.
  destruct (Get_refines store s2 h2 key Hwf2) as (h3 & -> & _); [by rewrite Hd2|].
  cbn [fst]. by rewrite Hd2, Hp2.
Qed.

Lemma RestoreSnapshot_restores_witness :
  let '(s, h) := New [1] [] in
  let '(id, s1, h1) := Snapshot s h in
  ∃ out h2 s2, run sample_store s1 [OpSet [] [2] [99]; OpDel [] [1]] h1 = Ok (out, h2) ∧
    RestoreSnapshot id s1 = Ok s2 ∧ (Database_Get sample_store s2 [2] h2).1 = Some [20].
Proof.
  pose proof (RestoreSnapshot_restores sample_store (New [1] []).1 (New [1] []).2
    [OpSet [] [2] [99]; OpDel [] [1]]) as H.
  destruct H as (out & h2 & s2 & H1 & H2 & H3).
  - split; [reflexivity|]. cbn. lia.
  - apply newCacheDB_ok.
  - exists out, h2, s2. split; [exact H1|]. split; [exact H2|]. rewrite H3. reflexivity.
Defined.

(** An unlimited [Range] returns the abstract state.  The result holds
    exactly the visible keys of the range, without the prefix of the view and
    with their visible values, each once and in the requested order; the state
    seen by readers does not change.  For a descending range the persisted keys
    must not extend the end key. *)
Theorem Range_returns_view {S : Type} `{PebbleLaws S} (store : S) s h a b reversed :
  wf s h → cache_ok store (deref h (d_cache s)) →
  (reversed = true → desc_ok store (d_prefix s ++ b)) →
  ∃ l h', Database_Range store s a b (-1) reversed h = (l, h') ∧
    (∀ x v, (x, v) ∈ l ↔
      in_range a b x ∧ view store (deref h (d_cache s)) (d_prefix s ++ x) = Some v) ∧
    StronglySorted (no_inversion (range_less reversed)) l ∧ NoDup l.*1 ∧
    ∀ k, view store (deref h' (d_cache s)) k = view store (deref h (d_cache s)) k.
Proof.
  intros Hwf Hok Hd. destruct (Range_refines store s h a b reversed Hwf Hok Hd)
    as (l & h' & ? & _ & _ & ? & ? & ? & ?). by exists l, h'.
Qed.

Lemma Range_returns_view_witness :
  ∃ l h', Database_Range sample_store (New [1] []).1 [1] [2] (-1) false (New [1] []).2 = (l, h') ∧
    ([1], [10]) ∈ l.
Proof.
  destruct (Range_returns_view sample_store (New [1] []).1 (New [1] []).2 [1] [2] false)
    as (l & h' & E & Hl & _).
  - split; [reflexivity|cbn; lia].
  - apply newCacheDB_ok.
  - discriminate.
  - exists l, h'. split; [exact E|]. apply Hl. by repeat split.
Defined.

(** A descending [Range] returns keys outside its range when a persisted key
    extends the end key, and gives them an empty value: the iteration starts
    below the upper bound of the end.  Here the range from 1 to 2 under prefix
    1 returns the key (2, 7), which is above its end. *)
Theorem Range_desc_outside :
  (Database_Range sample_store (New [1] []).1 [1] [2] (-1) true (New [1] []).2).1
  = [([2; 7], []); ([2], [20]); ([1], [10])].
Proof. vm_compute. reflexivity. Qed.

(** [Iterate] on a view with a prefix returns the persisted keys with empty
    values: the cached entries are selected with a prefix that lacks the one of
    the view. *)
Theorem Iterate_loses_values :
  (Database_Iterate sample_store (New [1] []).1 [2] (-1) false (New [1] []).2).1
  = [([2], []); ([2; 7], [])].
Proof. vm_compute. reflexivity. Qed.

(** [GetDecodableOrDefault] never returns the default: on a missing key it
    returns an error, because [GetDecodable] does not report [ErrNotFound]. *)
Theorem GetDecodableOrDefault_no_default {S : Type} `{PebbleLaws S} (store : S) `{Message A}
    (zero : A) s key h :
  wf s h → cache_ok store (deref h (d_cache s)) →
  view store (deref h (d_cache s)) (d_prefix s ++ key) = None →
  ∃ e, (GetDecodableOrDefault store zero s key h).1 = Err e.
Proof.
  intros Hwf Hok Hv. unfold GetDecodableOrDefault, GetDecodable.
  destruct (Get_refines store s h key Hwf Hok) as (h' & -> & _). rewrite Hv. cbn. eauto.
Qed.

Lemma GetDecodableOrDefault_no_default_witness :
  ∃ e, (GetDecodableOrDefault (A := KV) sample_store (mkKV [] []) (New [1] []).1 [5] (New [1] []).2).1
       = Err e.
Proof.
  apply (GetDecodableOrDefault_no_default (A := KV) sample_store (mkKV [] []) (New [1] []).1 [5]
    (New [1] []).2); [split; [reflexivity|cbn; lia]|apply newCacheDB_ok|reflexivity].
Defined.

(** After [RestoreSnapshot] a view derived earlier with [WithPrefix] still
    writes to the abandoned cache: its writes are not visible through the
    restored view, although both views shared a cache before. *)
Theorem WithPrefix_stale_after_restore :
  let '(s, h) := New [] [] in
  let sub := WithPrefix [1] s in
  let '(id, s1, h1) := Snapshot s h in
  ∃ s2 h2, RestoreSnapshot id s1 = Ok s2 ∧ Database_Set sample_store sub [3] [33] h1 = Ok h2 ∧
    (Database_Get sample_store sub [3] h2).1 = Some [33] ∧
    (Database_Get sample_store s2 [1; 3] h2).1 = None.
Proof. eexists _, _. split_and!; [reflexivity|reflexivity|reflexivity|reflexivity]. Qed.
