(* ===== verification/ForkChoice.v ===== *)
(** * ForkChoice: contradicting headers, block slots and the fork choice rule

    pkg/consensus/contradiction, pkg/consensus/validator/block_slot.go and
    pkg/consensus/forkchoice, with the order in which execute.go asks the fork
    choice questions. *)

From S2P Require Import Prelude Collection Crypto BlockTypes.

(** ** contradiction.go *)

(** The [BFTPartialBlockHeader] interface. *)
Record BFTPartialBlockHeader := mkPartial {
  pb_Height : Z;
  pb_GeneratorAddress : bytes;
  pb_MaxHeightGenerated : Z;
  pb_MaxHeightPrevoted : Z;
}.

Definition NewBFTBlockHeader (header : BlockHeader) : BFTPartialBlockHeader :=
  mkPartial (bh_Height header) (bh_GeneratorAddress header) (bh_MaxHeightGenerated header)
    (bh_MaxHeightPrevoted header).

Definition AreDistinctHeadersContradicting (b1 b2 : BFTPartialBlockHeader) : bool :=
  let higherMaxHeightPreviouslyForged := pb_MaxHeightGenerated b2 <? pb_MaxHeightGenerated b1 in
  let sameMaxHeightPreviouslyForged := pb_MaxHeightGenerated b1 =? pb_MaxHeightGenerated b2 in
  let higherMaxHeightPrevoted := pb_MaxHeightPrevoted b2 <? pb_MaxHeightPrevoted b1 in
  let sameMaxHeightPrevoted := pb_MaxHeightPrevoted b1 =? pb_MaxHeightPrevoted b2 in
  let higherHeight := pb_Height b2 <? pb_Height b1 in
  let '(earlierBlock, laterBlock) :=
    if higherMaxHeightPreviouslyForged
       || (sameMaxHeightPreviouslyForged && higherMaxHeightPrevoted)
       || (sameMaxHeightPreviouslyForged && sameMaxHeightPrevoted && higherHeight)
    then (b2, b1) else (b1, b2) in
  if negb (bytes_equal (pb_GeneratorAddress earlierBlock) (pb_GeneratorAddress laterBlock)) then false
  else if (pb_MaxHeightPrevoted earlierBlock =? pb_MaxHeightPrevoted laterBlock)
          && (pb_Height laterBlock <=? pb_Height earlierBlock) then true
  else if pb_MaxHeightGenerated laterBlock <? pb_Height earlierBlock then true
  else if pb_MaxHeightPrevoted laterBlock <? pb_MaxHeightPrevoted earlierBlock then true
  else false.

(** ** block_slot.go *)

Record BlockSlot := mkBlockSlot { genesisTimestamp : Z; blockTime : Z }.

(** The float64 quotient of two uint32 is exact enough for its floor to be the
    integer quotient. *)
Definition GetSlotNumber (a : BlockSlot) (unixTime : Z) : Z :=
  let elapsed := u32 (unixTime - genesisTimestamp a) in elapsed / blockTime a.

Definition GetSlotTime (a : BlockSlot) (slot : Z) : Z :=
  let offset := slot * blockTime a in u32 (genesisTimestamp a + u32 offset).

(** ** fork_choice.go *)

Record forkChoice := mkForkChoice {
  lastHeader : BlockHeader;
  currentHeader : BlockHeader;
  slot : BlockSlot;
  lastBlockReceivedAt : option Z;
  currentBlockReceivedAt : Z;
}.

(** [now] is [time.Now()]; times are Unix seconds. *)
Definition NewForkChoice (last current : BlockHeader) (slot : BlockSlot) (lastReceived : option Z)
    (now : Z) : forkChoice :=
  mkForkChoice last current slot lastReceived now.

Section fork_choice.
Implicit Types c : forkChoice.

Definition IsValidBlock c : bool :=
  (u32 (bh_Height (lastHeader c) + 1) =? bh_Height (currentHeader c))
  && bytes_equal (bh_ID (lastHeader c)) (bh_PreviousBlockID (currentHeader c)).

Definition IsIdenticalBlock c : bool := bytes_equal (bh_ID (lastHeader c)) (bh_ID (currentHeader c)).

Definition isDuplicateBlock c : bool :=
  (bh_Height (lastHeader c) =? bh_Height (currentHeader c))
  && (bh_MaxHeightPrevoted (lastHeader c) =? bh_MaxHeightPrevoted (currentHeader c))
  && bytes_equal (bh_PreviousBlockID (lastHeader c)) (bh_PreviousBlockID (currentHeader c)).

Definition IsDoubleForging c : bool :=
  isDuplicateBlock c
  && bytes_equal (bh_GeneratorAddress (lastHeader c)) (bh_GeneratorAddress (currentHeader c)).

Definition receivedBlockWithinForgingSlot c : bool :=
  GetSlotNumber (slot c) (u32 (currentBlockReceivedAt c))
  =? GetSlotNumber (slot c) (bh_Timestamp (currentHeader c)).

Definition receivedLastBlockWithinForgingSlot c : bool :=
  match lastBlockReceivedAt c with
  | None => true
  | Some t => GetSlotNumber (slot c) (u32 t) =? GetSlotNumber (slot c) (bh_Timestamp (lastHeader c))
  end.

Definition IsTieBreak c : bool :=
  isDuplicateBlock c
  && (GetSlotNumber (slot c) (bh_Timestamp (lastHeader c))
      <? GetSlotNumber (slot c) (bh_Timestamp (currentHeader c)))
  && negb (receivedLastBlockWithinForgingSlot c)
  && receivedBlockWithinForgingSlot c.
End fork_choice.

Definition IsDifferentChain (lastMaxHeightPrevoted maxHeightPrevoted lastHeight height : Z) : bool :=
  (lastMaxHeightPrevoted <? maxHeightPrevoted)
  || ((lastHeight <? height) && (lastMaxHeightPrevoted =? maxHeightPrevoted)).

Definition forkChoice_IsDifferentChain (c : forkChoice) : bool :=
  IsDifferentChain (bh_MaxHeightPrevoted (lastHeader c)) (bh_MaxHeightPrevoted (currentHeader c))
    (bh_Height (lastHeader c)) (bh_Height (currentHeader c)).

(** The questions [process] of execute.go asks, in its order. *)
Inductive fork_choice_case :=
| IdenticalBlock | ValidBlock | DoubleForging | TieBreak | DifferentChain | Discarding.

Definition fork_choice (c : forkChoice) : fork_choice_case :=
  if IsIdenticalBlock c then IdenticalBlock
  else if IsValidBlock c then ValidBlock
  else if IsDoubleForging c then DoubleForging
  else if IsTieBreak c then TieBreak
  else if forkChoice_IsDifferentChain c then DifferentChain
  else Discarding.

(** ** Properties *)

Ltac split_bools :=
  repeat match goal with
  | |- context [?a <? ?b] => destruct (Z.ltb_spec a b)
  | |- context [?a <=? ?b] => destruct (Z.leb_spec a b)
  | |- context [?a =? ?b] => destruct (Z.eqb_spec a b)
  end.

Lemma bytes_equal_sym (a b : bytes) : bytes_equal a b = bytes_equal b a.
Proof. unfold bytes_equal. by apply bool_decide_ext. Qed.

(** Whether two headers contradict each other does not depend on the order
    in which they are given. *)
Theorem AreDistinctHeadersContradicting_sym b1 b2 :
  AreDistinctHeadersContradicting b1 b2 = AreDistinctHeadersContradicting b2 b1.
Proof.
  unfold AreDistinctHeadersContradicting.
  split_bools; try lia; cbn [orb andb negb];
    rewrite ?(bytes_equal_sym (pb_GeneratorAddress b2) (pb_GeneratorAddress b1)); split_bools;
    try lia; by destruct (bytes_equal _ _).
Qed.

(** [b2] may follow [b1] for an honest validator: it was generated later, with
    the height of [b1] reported, on a chain that is at least as good. *)
Definition justified (b1 b2 : BFTPartialBlockHeader) : Prop :=
  pb_Height b1 ≤ pb_MaxHeightGenerated b2 ∧ pb_MaxHeightPrevoted b1 ≤ pb_MaxHeightPrevoted b2 ∧
  (pb_MaxHeightPrevoted b1 = pb_MaxHeightPrevoted b2 → pb_Height b1 < pb_Height b2).

(** Two headers whose reported previous height is below their own height
    contradict each other exactly when they come from one generator and neither
    is justified after the other. *)
Theorem AreDistinctHeadersContradicting_spec b1 b2 :
  pb_MaxHeightGenerated b1 < pb_Height b1 → pb_MaxHeightGenerated b2 < pb_Height b2 →
  AreDistinctHeadersContradicting b1 b2 = true ↔
  pb_GeneratorAddress b1 = pb_GeneratorAddress b2 ∧ ¬ justified b1 b2 ∧ ¬ justified b2 b1.
Proof.
  intros H1 H2. unfold AreDistinctHeadersContradicting, justified.
  split_bools; cbn [orb andb negb]; unfold bytes_equal; case_bool_decide; cbn [negb];
    split_bools; split; try done; (intros (? & ? & ?) || intros _); split_and?; try done;
    (lia || congruence).
Qed.

Lemma AreDistinctHeadersContradicting_spec_witness :
  AreDistinctHeadersContradicting (mkPartial 10 [1] 5 3) (mkPartial 11 [1] 5 3) = true ↔
  [1] = [1] ∧ ¬ justified (mkPartial 10 [1] 5 3) (mkPartial 11 [1] 5 3)
          ∧ ¬ justified (mkPartial 11 [1] 5 3) (mkPartial 10 [1] 5 3).
Proof.
  apply (AreDistinctHeadersContradicting_spec (mkPartial 10 [1] 5 3) (mkPartial 11 [1] 5 3)); cbn; lia.
Defined.

(** The chain preference is a strict total order on the pair of prevoted
    height and height: no chain is preferred to itself, the preference is
    transitive, and of two chains that differ in the pair exactly one is
    preferred, so two nodes never each switch to the chain of the other. *)
Theorem IsDifferentChain_order p1 h1 p2 h2 p3 h3 :
  IsDifferentChain p1 p1 h1 h1 = false ∧
  (IsDifferentChain p1 p2 h1 h2 && IsDifferentChain p2 p3 h2 h3 = true →
   IsDifferentChain p1 p3 h1 h3 = true) ∧
  ((p1, h1) ≠ (p2, h2) ↔ xorb (IsDifferentChain p1 p2 h1 h2) (IsDifferentChain p2 p1 h2 h1) = true).
Proof.
  unfold IsDifferentChain. split_and!.
  - split_bools; lia || done.
  - split_bools; cbn; lia || done.
  - split_bools; cbn; split; try done; try lia; first
      [ intros Hne; exfalso; apply Hne; f_equal; lia
      | intros _ E; injection E as E1 E2; lia ].
Qed.

(** The cases of the fork choice exclude each other where the order of the
    questions must not matter: with heights below the largest uint32, a block
    that extends the chain is never a duplicate, hence neither double forging
    nor a tie break, and a duplicate is never a different chain. *)
Theorem fork_choice_exclusive c :
  (IsValidBlock c = true → u32_ok (bh_Height (lastHeader c)) →
   isDuplicateBlock c = false ∧ IsDoubleForging c = false ∧ IsTieBreak c = false) ∧
  (isDuplicateBlock c = true → forkChoice_IsDifferentChain c = false).
Proof.
  split.
  - intros Hv Hu. assert (isDuplicateBlock c = false) as Hd.
    { unfold IsValidBlock in Hv. apply andb_true_iff in Hv as [Hh _]. apply Z.eqb_eq in Hh.
      unfold isDuplicateBlock. rewrite <-Hh. destruct (Z.eqb_spec (bh_Height (lastHeader c))
        (u32 (bh_Height (lastHeader c) + 1))) as [E|]; [exfalso|done].
      unfold u32, u32_ok in *. destruct (decide (bh_Height (lastHeader c) + 1 < 2 ^ 32)) as [Hlt|Hge].
      - rewrite Z.mod_small in E; lia.
      - replace (bh_Height (lastHeader c) + 1) with (2 ^ 32) in E by lia.
        rewrite Z.mod_same in E; lia. }
    unfold IsDoubleForging, IsTieBreak. by rewrite Hd.
  - unfold isDuplicateBlock, forkChoice_IsDifferentChain, IsDifferentChain. intros Hd.
    apply andb_true_iff in Hd as [[Hh Hp]%andb_true_iff _]. apply Z.eqb_eq in Hh, Hp.
    rewrite Hh, Hp. by rewrite !Z.ltb_irrefl.
Qed.

Definition sample_fork : forkChoice :=
  let h id height prev := mkBlockHeader id 2 100 height prev [] [] [] [] [] 0 0 false [] None [] in
  mkForkChoice (h [1] 5 [0]) (h [2] 6 [1]) (mkBlockSlot 0 10) None 100.

Lemma fork_choice_exclusive_witness : isDuplicateBlock sample_fork = false.
Proof. apply (fork_choice_exclusive sample_fork); [reflexivity|done]. Defined.

(** [GetSlotNumber] inverts [GetSlotTime] as long as the time of the slot fits
    in a uint32. *)
Theorem GetSlotNumber_GetSlotTime a n :
  0 < blockTime a → 0 ≤ genesisTimestamp a → 0 ≤ n →
  genesisTimestamp a + n * blockTime a < 2 ^ 32 →
  GetSlotNumber a (GetSlotTime a n) = n.
Proof.
  intros Hb Hg Hn Hfit. unfold GetSlotNumber, GetSlotTime.
  rewrite (u32_small (n * blockTime a)) by (unfold u32_ok; nia).
  rewrite (u32_small (genesisTimestamp a + n * blockTime a)) by (unfold u32_ok; nia).
  replace (genesisTimestamp a + n * blockTime a - genesisTimestamp a) with (n * blockTime a) by lia.
  rewrite u32_small by (unfold u32_ok; nia). apply Z.div_mul. lia.
Qed.

Lemma GetSlotNumber_GetSlotTime_witness :
  GetSlotNumber (mkBlockSlot 1600000000 10) (GetSlotTime (mkBlockSlot 1600000000 10) 12345) = 12345.
Proof. apply (GetSlotNumber_GetSlotTime (mkBlockSlot 1600000000 10) 12345); cbn; lia. Defined.
