(* ===== verification/BFTTypes.v ===== *)
(** * BFTTypes: the stored structs of pkg/consensus/liskbft and
    pkg/consensus/validator, with their generated codecs, and the hash of a set
    of validators. *)

From S2P Require Import Prelude Collection Codec CodecSpec Message Crypto.

(** ** liskbft/validator_codec.go *)

Record ActiveValidator := mkActiveValidator {
  av_address : bytes;
  av_minActiveHeight : Z;
  av_largestHeightPrecommit : Z;
}.

Definition ActiveValidator_Encode (e : ActiveValidator) : bytes :=
  Result (NewWriter
    |> WriteBytes 1 (av_address e)
    |> WriteUInt32 2 (av_minActiveHeight e)
    |> WriteUInt32 3 (av_largestHeightPrecommit e)).

Definition ActiveValidator_DecodeFromReader (strict : bool) (r : Reader) : res (ActiveValidator * Reader) :=
  '(address_, r) ← ReadBytes 1 strict r;
  '(minActiveHeight_, r) ← ReadUInt32 2 strict r;
  '(largestHeightPrecommit_, r) ← ReadUInt32 3 strict r;
  Ok (mkActiveValidator address_ minActiveHeight_ largestHeightPrecommit_, r).

Definition ActiveValidator_ok (e : ActiveValidator) : Prop :=
  u32_ok (av_minActiveHeight e) ∧ u32_ok (av_largestHeightPrecommit e).

Lemma ActiveValidator_reads strict e :
  ActiveValidator_ok e → Reads 1 4 (ActiveValidator_DecodeFromReader strict) (ActiveValidator_Encode e) e.
Proof.
  intros Hok. destruct e. unfold ActiveValidator_ok, ActiveValidator_DecodeFromReader, ActiveValidator_Encode in *. solve_reads.
Qed.

#[export] Hint Resolve ActiveValidator_reads : reads.

Lemma ActiveValidator_total strict : Total 0 (ActiveValidator_DecodeFromReader strict).
Proof. unfold ActiveValidator_DecodeFromReader. solve_total. Qed.
#[export] Hint Resolve ActiveValidator_total : go.

#[export] Instance ActiveValidator_Message : Message ActiveValidator :=
  { Encode := ActiveValidator_Encode; DecodeFromReader := ActiveValidator_DecodeFromReader; msg_ok := ActiveValidator_ok }.
#[export] Instance ActiveValidator_MessageLaws : MessageLaws ActiveValidator.
Proof. split. eexists. intros. by apply ActiveValidator_reads. Qed.

Record BFTValidator := mkBFTValidator {
  bv_address : bytes;
  bv_bftWeight : Z;
  bv_blsKey : bytes;
}.

Definition BFTValidator_Encode (e : BFTValidator) : bytes :=
  Result (NewWriter
    |> WriteBytes 1 (bv_address e)
    |> WriteUInt 2 (bv_bftWeight e)
    |> WriteBytes 3 (bv_blsKey e)).

Definition BFTValidator_DecodeFromReader (strict : bool) (r : Reader) : res (BFTValidator * Reader) :=
  '(address_, r) ← ReadBytes 1 strict r;
  '(bftWeight_, r) ← ReadUInt 2 strict r;
  '(blsKey_, r) ← ReadBytes 3 strict r;
  Ok (mkBFTValidator address_ bftWeight_ blsKey_, r).

Definition BFTValidator_ok (e : BFTValidator) : Prop :=
  u64_ok (bv_bftWeight e).

Lemma BFTValidator_reads strict e :
  BFTValidator_ok e → Reads 1 4 (BFTValidator_DecodeFromReader strict) (BFTValidator_Encode e) e.
Proof.
  intros Hok. destruct e. unfold BFTValidator_ok, BFTValidator_DecodeFromReader, BFTValidator_Encode in *. solve_reads.
Qed.

#[export] Hint Resolve BFTValidator_reads : reads.

Lemma BFTValidator_total strict : Total 0 (BFTValidator_DecodeFromReader strict).
Proof. unfold BFTValidator_DecodeFromReader. solve_total. Qed.
#[export] Hint Resolve BFTValidator_total : go.

#[export] Instance BFTValidator_Message : Message BFTValidator :=
  { Encode := BFTValidator_Encode; DecodeFromReader := BFTValidator_DecodeFromReader; msg_ok := BFTValidator_ok }.
#[export] Instance BFTValidator_MessageLaws : MessageLaws BFTValidator.
Proof. split. eexists. intros. by apply BFTValidator_reads. Qed.

Record BFTParams := mkBFTParams {
  bp_prevoteThreshold : Z;
  bp_precommitThreshold : Z;
  bp_certificateThreshold : Z;
  bp_validators : list BFTValidator;
  bp_validatorsHash : bytes;
}.

Definition BFTParams_Encode (e : BFTParams) : bytes :=
  Result (NewWriter
    |> WriteUInt 1 (bp_prevoteThreshold e)
    |> WriteUInt 2 (bp_precommitThreshold e)
    |> WriteUInt 3 (bp_certificateThreshold e)
    |> (λ w, foldl (λ w val, WriteEncodable 4 (Some (BFTValidator_Encode val)) w) w (bp_validators e))
    |> WriteBytes 5 (bp_validatorsHash e)).

Definition BFTParams_DecodeFromReader (strict : bool) (r : Reader) : res (BFTParams * Reader) :=
  '(prevoteThreshold_, r) ← ReadUInt 1 strict r;
  '(precommitThreshold_, r) ← ReadUInt 2 strict r;
  '(certificateThreshold_, r) ← ReadUInt 3 strict r;
  '(validators_, r) ← ReadDecodables 4 (BFTValidator_DecodeFromReader false) r;
  '(validatorsHash_, r) ← ReadBytes 5 strict r;
  Ok (mkBFTParams prevoteThreshold_ precommitThreshold_ certificateThreshold_ validators_
    validatorsHash_, r).

Definition BFTParams_ok (e : BFTParams) : Prop :=
  u64_ok (bp_prevoteThreshold e) ∧ u64_ok (bp_precommitThreshold e) ∧
  u64_ok (bp_certificateThreshold e) ∧ Forall BFTValidator_ok (bp_validators e).

Lemma BFTParams_reads strict e :
  BFTParams_ok e → Reads 1 6 (BFTParams_DecodeFromReader strict) (BFTParams_Encode e) e.
Proof.
  intros Hok. destruct e. unfold BFTParams_ok, BFTParams_DecodeFromReader, BFTParams_Encode in *. solve_reads.
Qed.

#[export] Hint Resolve BFTParams_reads : reads.

Lemma BFTParams_total strict : Total 0 (BFTParams_DecodeFromReader strict).
Proof. unfold BFTParams_DecodeFromReader. solve_total. Qed.
#[export] Hint Resolve BFTParams_total : go.

#[export] Instance BFTParams_Message : Message BFTParams :=
  { Encode := BFTParams_Encode; DecodeFromReader := BFTParams_DecodeFromReader; msg_ok := BFTParams_ok }.
#[export] Instance BFTParams_MessageLaws : MessageLaws BFTParams.
Proof. split. eexists. intros. by apply BFTParams_reads. Qed.

Record BFTBlockHeader := mkBFTBlockHeader {
  bb_height : Z;
  bb_generatorAddress : bytes;
  bb_maxHeightGenerated : Z;
  bb_maxHeightPrevoted : Z;
  bb_prevoteWeight : Z;
  bb_precommitWeight : Z;
}.

Definition BFTBlockHeader_Encode (e : BFTBlockHeader) : bytes :=
  Result (NewWriter
    |> WriteUInt32 1 (bb_height e)
    |> WriteBytes 2 (bb_generatorAddress e)
    |> WriteUInt32 3 (bb_maxHeightGenerated e)
    |> WriteUInt32 4 (bb_maxHeightPrevoted e)
    |> WriteUInt 5 (bb_prevoteWeight e)
    |> WriteUInt 6 (bb_precommitWeight e)).

Definition BFTBlockHeader_DecodeFromReader (strict : bool) (r : Reader) : res (BFTBlockHeader * Reader) :=
  '(height_, r) ← ReadUInt32 1 strict r;
  '(generatorAddress_, r) ← ReadBytes 2 strict r;
  '(maxHeightGenerated_, r) ← ReadUInt32 3 strict r;
  '(maxHeightPrevoted_, r) ← ReadUInt32 4 strict r;
  '(prevoteWeight_, r) ← ReadUInt 5 strict r;
  '(precommitWeight_, r) ← ReadUInt 6 strict r;
  Ok (mkBFTBlockHeader height_ generatorAddress_ maxHeightGenerated_ maxHeightPrevoted_
    prevoteWeight_ precommitWeight_, r).

Definition BFTBlockHeader_ok (e : BFTBlockHeader) : Prop :=
  u32_ok (bb_height e) ∧ u32_ok (bb_maxHeightGenerated e) ∧ u32_ok (bb_maxHeightPrevoted e) ∧
  u64_ok (bb_prevoteWeight e) ∧ u64_ok (bb_precommitWeight e).

Lemma BFTBlockHeader_reads strict e :
  BFTBlockHeader_ok e → Reads 1 7 (BFTBlockHeader_DecodeFromReader strict) (BFTBlockHeader_Encode e) e.
Proof.
  intros Hok. destruct e. unfold BFTBlockHeader_ok, BFTBlockHeader_DecodeFromReader, BFTBlockHeader_Encode in *. solve_reads.
Qed.

#[export] Hint Resolve BFTBlockHeader_reads : reads.

Lemma BFTBlockHeader_total strict : Total 0 (BFTBlockHeader_DecodeFromReader strict).
Proof. unfold BFTBlockHeader_DecodeFromReader. solve_total. Qed.
#[export] Hint Resolve BFTBlockHeader_total : go.

#[export] Instance BFTBlockHeader_Message : Message BFTBlockHeader :=
  { Encode := BFTBlockHeader_Encode; DecodeFromReader := BFTBlockHeader_DecodeFromReader; msg_ok := BFTBlockHeader_ok }.
#[export] Instance BFTBlockHeader_MessageLaws : MessageLaws BFTBlockHeader.
Proof. split. eexists. intros. by apply BFTBlockHeader_reads. Qed.

Record BFTVotes := mkBFTVotes {
  vt_maxHeightPrevoted : Z;
  vt_maxHeightPrecommited : Z;
  vt_maxHeightCertified : Z;
  vt_blockBFTInfos : list BFTBlockHeader;
  vt_activeValidatorsVoteInfo : list ActiveValidator;
}.

Definition BFTVotes_Encode (e : BFTVotes) : bytes :=
  Result (NewWriter
    |> WriteUInt32 1 (vt_maxHeightPrevoted e)
    |> WriteUInt32 2 (vt_maxHeightPrecommited e)
    |> WriteUInt32 3 (vt_maxHeightCertified e)
    |> (λ w, foldl (λ w val, WriteEncodable 5 (Some (BFTBlockHeader_Encode val)) w) w (vt_blockBFTInfos e))
    |> (λ w, foldl (λ w val, WriteEncodable 6 (Some (ActiveValidator_Encode val)) w) w (vt_activeValidatorsVoteInfo e))).

Definition BFTVotes_DecodeFromReader (strict : bool) (r : Reader) : res (BFTVotes * Reader) :=
  '(maxHeightPrevoted_, r) ← ReadUInt32 1 strict r;
  '(maxHeightPrecommited_, r) ← ReadUInt32 2 strict r;
  '(maxHeightCertified_, r) ← ReadUInt32 3 strict r;
  '(blockBFTInfos_, r) ← ReadDecodables 5 (BFTBlockHeader_DecodeFromReader false) r;
  '(activeValidatorsVoteInfo_, r) ← ReadDecodables 6 (ActiveValidator_DecodeFromReader false) r;
  Ok (mkBFTVotes maxHeightPrevoted_ maxHeightPrecommited_ maxHeightCertified_ blockBFTInfos_
    activeValidatorsVoteInfo_, r).

Definition BFTVotes_ok (e : BFTVotes) : Prop :=
  u32_ok (vt_maxHeightPrevoted e) ∧ u32_ok (vt_maxHeightPrecommited e) ∧
  u32_ok (vt_maxHeightCertified e) ∧ Forall BFTBlockHeader_ok (vt_blockBFTInfos e) ∧
  Forall ActiveValidator_ok (vt_activeValidatorsVoteInfo e).

Lemma BFTVotes_reads strict e :
  BFTVotes_ok e → Reads 1 7 (BFTVotes_DecodeFromReader strict) (BFTVotes_Encode e) e.
Proof.
  intros Hok. destruct e. unfold BFTVotes_ok, BFTVotes_DecodeFromReader, BFTVotes_Encode in *. solve_reads.
Qed.

#[export] Hint Resolve BFTVotes_reads : reads.

Lemma BFTVotes_total strict : Total 0 (BFTVotes_DecodeFromReader strict).
Proof. unfold BFTVotes_DecodeFromReader. solve_total. Qed.
#[export] Hint Resolve BFTVotes_total : go.

#[export] Instance BFTVotes_Message : Message BFTVotes :=
  { Encode := BFTVotes_Encode; DecodeFromReader := BFTVotes_DecodeFromReader; msg_ok := BFTVotes_ok }.
#[export] Instance BFTVotes_MessageLaws : MessageLaws BFTVotes.
Proof. split. eexists. intros. by apply BFTVotes_reads. Qed.

Record HashValidator := mkHashValidator {
  hv_BLSKey : bytes;
  hv_BFTWeight : Z;
}.

Definition HashValidator_Encode (e : HashValidator) : bytes :=
  Result (NewWriter
    |> WriteBytes 1 (hv_BLSKey e)
    |> WriteUInt 2 (hv_BFTWeight e)).

Definition HashValidator_DecodeFromReader (strict : bool) (r : Reader) : res (HashValidator * Reader) :=
  '(BLSKey_, r) ← ReadBytes 1 strict r;
  '(BFTWeight_, r) ← ReadUInt 2 strict r;
  Ok (mkHashValidator BLSKey_ BFTWeight_, r).

Definition HashValidator_ok (e : HashValidator) : Prop :=
  u64_ok (hv_BFTWeight e).

Lemma HashValidator_reads strict e :
  HashValidator_ok e → Reads 1 3 (HashValidator_DecodeFromReader strict) (HashValidator_Encode e) e.
Proof.
  intros Hok. destruct e. unfold HashValidator_ok, HashValidator_DecodeFromReader, HashValidator_Encode in *. solve_reads.
Qed.

#[export] Hint Resolve HashValidator_reads : reads.

Lemma HashValidator_total strict : Total 0 (HashValidator_DecodeFromReader strict).
Proof. unfold HashValidator_DecodeFromReader. solve_total. Qed.
#[export] Hint Resolve HashValidator_total : go.

#[export] Instance HashValidator_Message : Message HashValidator :=
  { Encode := HashValidator_Encode; DecodeFromReader := HashValidator_DecodeFromReader; msg_ok := HashValidator_ok }.
#[export] Instance HashValidator_MessageLaws : MessageLaws HashValidator.
Proof. split. eexists. intros. by apply HashValidator_reads. Qed.

Record HashingValidators := mkHashingValidators {
  hvs_ActiveValidators : list HashValidator;
  hvs_CertificateThreshold : Z;
}.

Definition HashingValidators_Encode (e : HashingValidators) : bytes :=
  Result (NewWriter
    |> (λ w, foldl (λ w val, WriteEncodable 1 (Some (HashValidator_Encode val)) w) w (hvs_ActiveValidators e))
    |> WriteUInt 2 (hvs_CertificateThreshold e)).

Definition HashingValidators_DecodeFromReader (strict : bool) (r : Reader) : res (HashingValidators * Reader) :=
  '(ActiveValidators_, r) ← ReadDecodables 1 (HashValidator_DecodeFromReader false) r;
  '(CertificateThreshold_, r) ← ReadUInt 2 strict r;
  Ok (mkHashingValidators ActiveValidators_ CertificateThreshold_, r).

Definition HashingValidators_ok (e : HashingValidators) : Prop :=
  Forall HashValidator_ok (hvs_ActiveValidators e) ∧ u64_ok (hvs_CertificateThreshold e).

Lemma HashingValidators_reads strict e :
  HashingValidators_ok e → Reads 1 3 (HashingValidators_DecodeFromReader strict) (HashingValidators_Encode e) e.
Proof.
  intros Hok. destruct e. unfold HashingValidators_ok, HashingValidators_DecodeFromReader, HashingValidators_Encode in *. solve_reads.
Qed.

#[export] Hint Resolve HashingValidators_reads : reads.

Lemma HashingValidators_total strict : Total 0 (HashingValidators_DecodeFromReader strict).
Proof. unfold HashingValidators_DecodeFromReader. solve_total. Qed.
#[export] Hint Resolve HashingValidators_total : go.

#[export] Instance HashingValidators_Message : Message HashingValidators :=
  { Encode := HashingValidators_Encode; DecodeFromReader := HashingValidators_DecodeFromReader; msg_ok := HashingValidators_ok }.
#[export] Instance HashingValidators_MessageLaws : MessageLaws HashingValidators.
Proof. split. eexists. intros. by apply HashingValidators_reads. Qed.

Record Generator := mkGenerator {
  gn_address : bytes;
  gn_generatorKey : bytes;
}.

Definition Generator_Encode (e : Generator) : bytes :=
  Result (NewWriter
    |> WriteBytes 1 (gn_address e)
    |> WriteBytes 2 (gn_generatorKey e)).

Definition Generator_DecodeFromReader (strict : bool) (r : Reader) : res (Generator * Reader) :=
  '(address_, r) ← ReadBytes 1 strict r;
  '(generatorKey_, r) ← ReadBytes 2 strict r;
  Ok (mkGenerator address_ generatorKey_, r).

Definition Generator_ok (e : Generator) : Prop :=
  True.

Lemma Generator_reads strict e :
  Generator_ok e → Reads 1 3 (Generator_DecodeFromReader strict) (Generator_Encode e) e.
Proof.
  intros Hok. destruct e. unfold Generator_ok, Generator_DecodeFromReader, Generator_Encode in *. solve_reads.
Qed.

#[export] Hint Resolve Generator_reads : reads.

Lemma Generator_total strict : Total 0 (Generator_DecodeFromReader strict).
Proof. unfold Generator_DecodeFromReader. solve_total. Qed.
#[export] Hint Resolve Generator_total : go.

#[export] Instance Generator_Message : Message Generator :=
  { Encode := Generator_Encode; DecodeFromReader := Generator_DecodeFromReader; msg_ok := Generator_ok }.
#[export] Instance Generator_MessageLaws : MessageLaws Generator.
Proof. split. eexists. intros. by apply Generator_reads. Qed.

Record GeneratorKeys := mkGeneratorKeys {
  gk_Generators : list Generator;
}.

Definition GeneratorKeys_Encode (e : GeneratorKeys) : bytes :=
  Result (NewWriter
    |> (λ w, foldl (λ w val, WriteEncodable 1 (Some (Generator_Encode val)) w) w (gk_Generators e))).

Definition GeneratorKeys_DecodeFromReader (strict : bool) (r : Reader) : res (GeneratorKeys * Reader) :=
  '(Generators_, r) ← ReadDecodables 1 (Generator_DecodeFromReader false) r;
  Ok (mkGeneratorKeys Generators_, r).

Definition GeneratorKeys_ok (e : GeneratorKeys) : Prop :=
  Forall Generator_ok (gk_Generators e).

Lemma GeneratorKeys_reads strict e :
  GeneratorKeys_ok e → Reads 1 2 (GeneratorKeys_DecodeFromReader strict) (GeneratorKeys_Encode e) e.
Proof.
  intros Hok. destruct e. unfold GeneratorKeys_ok, GeneratorKeys_DecodeFromReader, GeneratorKeys_Encode in *. solve_reads.
Qed.

#[export] Hint Resolve GeneratorKeys_reads : reads.

Lemma GeneratorKeys_total strict : Total 0 (GeneratorKeys_DecodeFromReader strict).
Proof. unfold GeneratorKeys_DecodeFromReader. solve_total. Qed.
#[export] Hint Resolve GeneratorKeys_total : go.

#[export] Instance GeneratorKeys_Message : Message GeneratorKeys :=
  { Encode := GeneratorKeys_Encode; DecodeFromReader := GeneratorKeys_DecodeFromReader; msg_ok := GeneratorKeys_ok }.
#[export] Instance GeneratorKeys_MessageLaws : MessageLaws GeneratorKeys.
Proof. split. eexists. intros. by apply GeneratorKeys_reads. Qed.

(** ** liskbft/schema_codec.go *)

Record GetValidatorInfoResponse := mkGetValidatorInfoResponse {
  gvi_MaxHeightPrevoted : Z;
}.

Definition GetValidatorInfoResponse_Encode (e : GetValidatorInfoResponse) : bytes :=
  Result (NewWriter
    |> WriteUInt32 1 (gvi_MaxHeightPrevoted e)).

Definition GetValidatorInfoResponse_DecodeFromReader (strict : bool) (r : Reader) : res (GetValidatorInfoResponse * Reader) :=
  '(MaxHeightPrevoted_, r) ← ReadUInt32 1 strict r;
  Ok (mkGetValidatorInfoResponse MaxHeightPrevoted_, r).

Definition GetValidatorInfoResponse_ok (e : GetValidatorInfoResponse) : Prop :=
  u32_ok (gvi_MaxHeightPrevoted e).

Lemma GetValidatorInfoResponse_reads strict e :
  GetValidatorInfoResponse_ok e → Reads 1 2 (GetValidatorInfoResponse_DecodeFromReader strict) (GetValidatorInfoResponse_Encode e) e.
Proof.
  intros Hok. destruct e. unfold GetValidatorInfoResponse_ok, GetValidatorInfoResponse_DecodeFromReader, GetValidatorInfoResponse_Encode in *. solve_reads.
Qed.

#[export] Hint Resolve GetValidatorInfoResponse_reads : reads.

Lemma GetValidatorInfoResponse_total strict : Total 0 (GetValidatorInfoResponse_DecodeFromReader strict).
Proof. unfold GetValidatorInfoResponse_DecodeFromReader. solve_total. Qed.
#[export] Hint Resolve GetValidatorInfoResponse_total : go.

#[export] Instance GetValidatorInfoResponse_Message : Message GetValidatorInfoResponse :=
  { Encode := GetValidatorInfoResponse_Encode; DecodeFromReader := GetValidatorInfoResponse_DecodeFromReader; msg_ok := GetValidatorInfoResponse_ok }.
#[export] Instance GetValidatorInfoResponse_MessageLaws : MessageLaws GetValidatorInfoResponse.
Proof. split. eexists. intros. by apply GetValidatorInfoResponse_reads. Qed.

Record IsBFTComplientRequest := mkIsBFTComplientRequest {
  bcr_GeneratorPublicKey : bytes;
  bcr_Height : Z;
  bcr_MaxHeightGenerated : Z;
  bcr_MaxHeightPrevoted : Z;
}.

Definition IsBFTComplientRequest_Encode (e : IsBFTComplientRequest) : bytes :=
  Result (NewWriter
    |> WriteBytes 1 (bcr_GeneratorPublicKey e)
    |> WriteUInt32 2 (bcr_Height e)
    |> WriteUInt32 3 (bcr_MaxHeightGenerated e)
    |> WriteUInt32 4 (bcr_MaxHeightPrevoted e)).

Definition IsBFTComplientRequest_DecodeFromReader (strict : bool) (r : Reader) : res (IsBFTComplientRequest * Reader) :=
  '(GeneratorPublicKey_, r) ← ReadBytes 1 strict r;
  '(Height_, r) ← ReadUInt32 2 strict r;
  '(MaxHeightGenerated_, r) ← ReadUInt32 3 strict r;
  '(MaxHeightPrevoted_, r) ← ReadUInt32 4 strict r;
  Ok (mkIsBFTComplientRequest GeneratorPublicKey_ Height_ MaxHeightGenerated_ MaxHeightPrevoted_, r).

Definition IsBFTComplientRequest_ok (e : IsBFTComplientRequest) : Prop :=
  u32_ok (bcr_Height e) ∧ u32_ok (bcr_MaxHeightGenerated e) ∧ u32_ok (bcr_MaxHeightPrevoted e).

Lemma IsBFTComplientRequest_reads strict e :
  IsBFTComplientRequest_ok e → Reads 1 5 (IsBFTComplientRequest_DecodeFromReader strict) (IsBFTComplientRequest_Encode e) e.
Proof.
  intros Hok. destruct e. unfold IsBFTComplientRequest_ok, IsBFTComplientRequest_DecodeFromReader, IsBFTComplientRequest_Encode in *. solve_reads.
Qed.

#[export] Hint Resolve IsBFTComplientRequest_reads : reads.

Lemma IsBFTComplientRequest_total strict : Total 0 (IsBFTComplientRequest_DecodeFromReader strict).
Proof. unfold IsBFTComplientRequest_DecodeFromReader. solve_total. Qed.
#[export] Hint Resolve IsBFTComplientRequest_total : go.

#[export] Instance IsBFTComplientRequest_Message : Message IsBFTComplientRequest :=
  { Encode := IsBFTComplientRequest_Encode; DecodeFromReader := IsBFTComplientRequest_DecodeFromReader; msg_ok := IsBFTComplientRequest_ok }.
#[export] Instance IsBFTComplientRequest_MessageLaws : MessageLaws IsBFTComplientRequest.
Proof. split. eexists. intros. by apply IsBFTComplientRequest_reads. Qed.

Record IsBFTComplientResponse := mkIsBFTComplientResponse {
  bcs_Valid : bool;
}.

Definition IsBFTComplientResponse_Encode (e : IsBFTComplientResponse) : bytes :=
  Result (NewWriter
    |> WriteBool 1 (bcs_Valid e)).

Definition IsBFTComplientResponse_DecodeFromReader (strict : bool) (r : Reader) : res (IsBFTComplientResponse * Reader) :=
  '(Valid_, r) ← ReadBool 1 strict r;
  Ok (mkIsBFTComplientResponse Valid_, r).

Definition IsBFTComplientResponse_ok (e : IsBFTComplientResponse) : Prop :=
  True.

Lemma IsBFTComplientResponse_reads strict e :
  IsBFTComplientResponse_ok e → Reads 1 2 (IsBFTComplientResponse_DecodeFromReader strict) (IsBFTComplientResponse_Encode e) e.
Proof.
  intros Hok. destruct e. unfold IsBFTComplientResponse_ok, IsBFTComplientResponse_DecodeFromReader, IsBFTComplientResponse_Encode in *. solve_reads.
Qed.

#[export] Hint Resolve IsBFTComplientResponse_reads : reads.

#[export] Instance IsBFTComplientResponse_Message : Message IsBFTComplientResponse :=
  { Encode := IsBFTComplientResponse_Encode; DecodeFromReader := IsBFTComplientResponse_DecodeFromReader; msg_ok := IsBFTComplientResponse_ok }.
#[export] Instance IsBFTComplientResponse_MessageLaws : MessageLaws IsBFTComplientResponse.
Proof. split. eexists. intros. by apply IsBFTComplientResponse_reads. Qed.

(** ** validator/validators_hash_codec.go *)

Record hashValidator := mkhashValidator {
  vhv_blsKey : bytes;
  vhv_bftWeight : Z;
}.

Definition hashValidator_Encode (e : hashValidator) : bytes :=
  Result (NewWriter
    |> WriteBytes 1 (vhv_blsKey e)
    |> WriteUInt 2 (vhv_bftWeight e)).

Definition hashValidator_DecodeFromReader (strict : bool) (r : Reader) : res (hashValidator * Reader) :=
  '(blsKey_, r) ← ReadBytes 1 strict r;
  '(bftWeight_, r) ← ReadUInt 2 strict r;
  Ok (mkhashValidator blsKey_ bftWeight_, r).

Definition hashValidator_ok (e : hashValidator) : Prop :=
  u64_ok (vhv_bftWeight e).

Lemma hashValidator_reads strict e :
  hashValidator_ok e → Reads 1 3 (hashValidator_DecodeFromReader strict) (hashValidator_Encode e) e.
Proof.
  intros Hok. destruct e. unfold hashValidator_ok, hashValidator_DecodeFromReader, hashValidator_Encode in *. solve_reads.
Qed.

#[export] Hint Resolve hashValidator_reads : reads.

Lemma hashValidator_total strict : Total 0 (hashValidator_DecodeFromReader strict).
Proof. unfold hashValidator_DecodeFromReader. solve_total. Qed.
#[export] Hint Resolve hashValidator_total : go.

#[export] Instance hashValidator_Message : Message hashValidator :=
  { Encode := hashValidator_Encode; DecodeFromReader := hashValidator_DecodeFromReader; msg_ok := hashValidator_ok }.
#[export] Instance hashValidator_MessageLaws : MessageLaws hashValidator.
Proof. split. eexists. intros. by apply hashValidator_reads. Qed.

Record validatrorsHashData := mkvalidatrorsHashData {
  vhd_activeValidators : list hashValidator;
  vhd_certificateThreshold : Z;
}.

Definition validatrorsHashData_Encode (e : validatrorsHashData) : bytes :=
  Result (NewWriter
    |> (λ w, foldl (λ w val, WriteEncodable 1 (Some (hashValidator_Encode val)) w) w (vhd_activeValidators e))
    |> WriteUInt 2 (vhd_certificateThreshold e)).

Definition validatrorsHashData_DecodeFromReader (strict : bool) (r : Reader) : res (validatrorsHashData * Reader) :=
  '(activeValidators_, r) ← ReadDecodables 1 (hashValidator_DecodeFromReader false) r;
  '(certificateThreshold_, r) ← ReadUInt 2 strict r;
  Ok (mkvalidatrorsHashData activeValidators_ certificateThreshold_, r).

Definition validatrorsHashData_ok (e : validatrorsHashData) : Prop :=
  Forall hashValidator_ok (vhd_activeValidators e) ∧ u64_ok (vhd_certificateThreshold e).

Lemma validatrorsHashData_reads strict e :
  validatrorsHashData_ok e → Reads 1 3 (validatrorsHashData_DecodeFromReader strict) (validatrorsHashData_Encode e) e.
Proof.
  intros Hok. destruct e. unfold validatrorsHashData_ok, validatrorsHashData_DecodeFromReader, validatrorsHashData_Encode in *. solve_reads.
Qed.

#[export] Hint Resolve validatrorsHashData_reads : reads.

Lemma validatrorsHashData_total strict : Total 0 (validatrorsHashData_DecodeFromReader strict).
Proof. unfold validatrorsHashData_DecodeFromReader. solve_total. Qed.
#[export] Hint Resolve validatrorsHashData_total : go.

#[export] Instance validatrorsHashData_Message : Message validatrorsHashData :=
  { Encode := validatrorsHashData_Encode; DecodeFromReader := validatrorsHashData_DecodeFromReader; msg_ok := validatrorsHashData_ok }.
#[export] Instance validatrorsHashData_MessageLaws : MessageLaws validatrorsHashData.
Proof. split. eexists. intros. by apply validatrorsHashData_reads. Qed.

(** ** validator/validators_hash.go *)

(** The [HashValidator] interface gives a BLS key and a weight. *)
Definition ComputeValidatorsHash `{Hasher} (validators : list hashValidator)
    (certificateThreshold : Z) : bytes :=
  let hashingValidators :=
    sort_slice (λ x y, bytes_ltb (vhv_blsKey x) (vhv_blsKey y)) validators in
  Hash (validatrorsHashData_Encode (mkvalidatrorsHashData hashingValidators certificateThreshold)).

(** The validators hash does not depend on the order in which the validators
    are given, as long as their BLS keys are distinct. *)
Theorem ComputeValidatorsHash_order `{Hasher} l k threshold :
  NoDup (vhv_blsKey <$> l) → l ≡ₚ k →
  ComputeValidatorsHash l threshold = ComputeValidatorsHash k threshold.
Proof.
  intros Hnd Hp. unfold ComputeValidatorsHash. do 3 f_equal.
  set (less := λ x y, bytes_ltb (vhv_blsKey x) (vhv_blsKey y)).
  assert (less_ok less) as Hless by apply less_ok_key.
  apply (sorted_perm_unique (no_inversion less)); [|by apply sort_slice_sorted..|].
  - intros x y Hx%elem_of_sort_slice Hy%elem_of_sort_slice H1 H2.
    apply list_elem_of_lookup in Hx as [i Hi], Hy as [j Hj].
    assert (vhv_blsKey x = vhv_blsKey y) as E by (by apply bytes_ltb_total).
    assert (i = j) as -> by (eapply NoDup_lookup; [exact Hnd|rewrite list_lookup_fmap, Hi; done|
      rewrite list_lookup_fmap, Hj; cbn; by rewrite E]).
    congruence.
  - by rewrite !sort_slice_Permutation.
Qed.

Lemma ComputeValidatorsHash_order_witness :
  ComputeValidatorsHash (H := toy_hash) [mkhashValidator [1] 5; mkhashValidator [2] 7] 9
  = ComputeValidatorsHash (H := toy_hash) [mkhashValidator [2] 7; mkhashValidator [1] 5] 9.
Proof.
  apply (ComputeValidatorsHash_order (H := toy_hash)); [|apply Permutation_swap].
  cbn. apply NoDup_cons. split; [|apply NoDup_singleton]. by intros ?%list_elem_of_singleton.
Defined.
