(* ===== verification/Votes.v ===== *)
(** * Votes: the vote counting of pkg/consensus/liskbft (validator.go)

    [BFTVotes] tracks the latest headers of the chain with the weight of the
    prevotes and precommits each of them received, and the heights up to which
    the chain is prevoted, precommitted and certified. *)

From S2P Require Import Prelude Collection Crypto BlockTypes ForkChoice BFTTypes.

(** ** Lists of validators *)

Definition ActiveValidators_sort (c : list ActiveValidator) : list ActiveValidator :=
  sort_slice (λ x y, bytes_ltb (av_address y) (av_address x)) c.

Fixpoint ActiveValidators_get (address : bytes) (c : list ActiveValidator) : option ActiveValidator :=
  match c with
  | [] => None
  | validator :: c =>
      if bytes_equal (av_address validator) address then Some validator
      else ActiveValidators_get address c
  end.

Definition NewValidator (address : bytes) (bftWeight : Z) (blsKey : bytes) : BFTValidator :=
  mkBFTValidator address bftWeight blsKey.

Fixpoint BFTValidators_Get (address : bytes) (vs : list BFTValidator) : option BFTValidator :=
  match vs with
  | [] => None
  | state :: vs =>
      if bytes_equal (bv_address state) address then Some state else BFTValidators_Get address vs
  end.

Fixpoint BFTValidators_Find (address : bytes) (vs : list BFTValidator) : option BFTValidator :=
  match vs with
  | [] => None
  | v :: vs => if bytes_equal (bv_address v) address then Some v else BFTValidators_Find address vs
  end.

(** Addresses and weights are compared, BLS keys are not. *)
Definition BFTValidators_Equal (vs validators : list BFTValidator) : bool :=
  if negb (len vs =? len validators) then false
  else forallb (λ '(v, w), bytes_equal (bv_address v) (bv_address w)
                           && (bv_bftWeight v =? bv_bftWeight w)) (zip vs validators).

Definition BFTValidators_Sort (vs : list BFTValidator) : list BFTValidator :=
  sort_slice (λ x y, bytes_ltb (bv_address y) (bv_address x)) vs.

Definition latest (b : list BFTBlockHeader) : res BFTBlockHeader := index b 0.

Definition NewGenerator (address generatorKey : bytes) : Generator :=
  mkGenerator address generatorKey.

(** An empty list divides by zero; the remainder of a negative slot is an
    index out of range. *)
Definition AtTimestamp (slot : BlockSlot) (vs : list Generator) (timestamp : Z) : res Generator :=
  if len vs =? 0 then Panic
  else index vs (Z.rem (GetSlotNumber slot timestamp) (len vs)).

(** ** Field updates *)

Definition set_infos (infos : list BFTBlockHeader) (v : BFTVotes) : BFTVotes :=
  mkBFTVotes (vt_maxHeightPrevoted v) (vt_maxHeightPrecommited v) (vt_maxHeightCertified v)
    infos (vt_activeValidatorsVoteInfo v).

Definition set_active (active : list ActiveValidator) (v : BFTVotes) : BFTVotes :=
  mkBFTVotes (vt_maxHeightPrevoted v) (vt_maxHeightPrecommited v) (vt_maxHeightCertified v)
    (vt_blockBFTInfos v) active.

Definition set_maxHeightPrevoted (h : Z) (v : BFTVotes) : BFTVotes :=
  mkBFTVotes h (vt_maxHeightPrecommited v) (vt_maxHeightCertified v) (vt_blockBFTInfos v)
    (vt_activeValidatorsVoteInfo v).

Definition set_maxHeightPrecommited (h : Z) (v : BFTVotes) : BFTVotes :=
  mkBFTVotes (vt_maxHeightPrevoted v) h (vt_maxHeightCertified v) (vt_blockBFTInfos v)
    (vt_activeValidatorsVoteInfo v).

Definition set_maxHeightCertified (h : Z) (v : BFTVotes) : BFTVotes :=
  mkBFTVotes (vt_maxHeightPrevoted v) (vt_maxHeightPrecommited v) h (vt_blockBFTInfos v)
    (vt_activeValidatorsVoteInfo v).

Definition add_prevote (w : Z) (b : BFTBlockHeader) : BFTBlockHeader :=
  mkBFTBlockHeader (bb_height b) (bb_generatorAddress b) (bb_maxHeightGenerated b)
    (bb_maxHeightPrevoted b) (u64 (bb_prevoteWeight b + w)) (bb_precommitWeight b).

Definition add_precommit (w : Z) (b : BFTBlockHeader) : BFTBlockHeader :=
  mkBFTBlockHeader (bb_height b) (bb_generatorAddress b) (bb_maxHeightGenerated b)
    (bb_maxHeightPrevoted b) (bb_prevoteWeight b) (u64 (bb_precommitWeight b + w)).

Definition partial (b : BFTBlockHeader) : BFTPartialBlockHeader :=
  mkPartial (bb_height b) (bb_generatorAddress b) (bb_maxHeightGenerated b) (bb_maxHeightPrevoted b).

(** ** insertBlockBFTInfo, getHeightNotPrevoted, contradicting *)

Definition new_info (header : BlockHeader) : BFTBlockHeader :=
  mkBFTBlockHeader (bh_Height header) (bh_GeneratorAddress header) (bh_MaxHeightGenerated header)
    (bh_MaxHeightPrevoted header) 0 0.

Definition insertBlockBFTInfo (header : BlockHeader) (maxLength : Z) (v : BFTVotes) : res BFTVotes :=
  n ← Ints.Min [len (vt_blockBFTInfos v) + 1; maxLength];
  if n <? 1 then Panic
  else Ok (set_infos (take (Z.to_nat n) (new_info header :: vt_blockBFTInfos v)) v).

Fixpoint notPrevoted_loop (fuel : nat) (infos : list BFTBlockHeader) (newBlockBFTInfo : BFTBlockHeader)
    (heightPreviousBlock : Z) : res Z :=
  match fuel with
  | O => OutOfFuel
  | S fuel =>
      let currentHeight := bb_height newBlockBFTInfo in
      if currentHeight - heightPreviousBlock <? len infos then
        blockBFTInfo ← index infos (u32 (currentHeight - heightPreviousBlock));
        if negb (bytes_equal (bb_generatorAddress blockBFTInfo) (bb_generatorAddress newBlockBFTInfo))
           || (heightPreviousBlock <=? bb_maxHeightGenerated blockBFTInfo)
        then Ok heightPreviousBlock
        else notPrevoted_loop fuel infos newBlockBFTInfo (bb_maxHeightGenerated blockBFTInfo)
      else
        oldest ← index infos (len infos - 1);
        Ok (u32 (bb_height oldest - 1))
  end.

(** The height of the previous block decreases in each round, so the loop runs
    at most once per tracked header. *)
Definition getHeightNotPrevoted (v : BFTVotes) : res Z :=
  match vt_blockBFTInfos v with
  | [] => Panic
  | newBlockBFTInfo :: _ =>
      notPrevoted_loop (S (length (vt_blockBFTInfos v))) (vt_blockBFTInfos v) newBlockBFTInfo
        (bb_maxHeightGenerated newBlockBFTInfo)
  end.

Fixpoint contradicting_loop (infos : list BFTBlockHeader) (header : BFTPartialBlockHeader) : bool :=
  match infos with
  | [] => false
  | bftBlock :: infos =>
      if bytes_equal (bb_generatorAddress bftBlock) (pb_GeneratorAddress header)
      then AreDistinctHeadersContradicting (partial bftBlock) header
      else contradicting_loop infos header
  end.

Definition contradicting (v : BFTVotes) (header : BFTPartialBlockHeader) : bool :=
  contradicting_loop (vt_blockBFTInfos v) header.

(** ** The updates that read BFT parameters *)

(** What the votes need of [bftParamsCache]. *)
Class ParamsSource (C : Type) := GetParameters : Z → C → res (BFTParams * C).

Section updates.
Context {C : Type} `{ParamsSource C}.

(** The first active validator with the address, as [get]. *)
Fixpoint set_largestHeightPrecommit (address : bytes) (height : Z) (active : list ActiveValidator)
    : list ActiveValidator :=
  match active with
  | [] => []
  | a :: active =>
      if bytes_equal (av_address a) address
      then mkActiveValidator (av_address a) (av_minActiveHeight a) height :: active
      else a :: set_largestHeightPrecommit address height active
  end.

Fixpoint precommit_loop (generator : bytes) (minPrecommitHeight : Z) (hasPrecommitted : bool)
    (infos : list BFTBlockHeader) (active : list ActiveValidator) (c : C)
    : res (list BFTBlockHeader * list ActiveValidator * C) :=
  match infos with
  | [] => Ok ([], active, c)
  | blockBFTInfo :: rest =>
      if bb_height blockBFTInfo <? minPrecommitHeight then Ok (blockBFTInfo :: rest, active, c)
      else
        '(params, c) ← GetParameters (bb_height blockBFTInfo) c;
        if bp_prevoteThreshold params <=? bb_prevoteWeight blockBFTInfo then
          match BFTValidators_Get generator (bp_validators params) with
          | None => Err (Errorf "invalid state. Validator does not exist in BFT parameters")
          | Some bftValidator =>
              let active :=
                if hasPrecommitted then active
                else set_largestHeightPrecommit generator (bb_height blockBFTInfo) active in
              '(rest, active, c) ← precommit_loop generator minPrecommitHeight true rest active c;
              Ok (add_precommit (bv_bftWeight bftValidator) blockBFTInfo :: rest, active, c)
          end
        else
          '(rest, active, c) ← precommit_loop generator minPrecommitHeight hasPrecommitted rest active c;
          Ok (blockBFTInfo :: rest, active, c)
  end.

Fixpoint prevote_loop (generator : bytes) (minPrevoteHeight : Z) (infos : list BFTBlockHeader) (c : C)
    : res (list BFTBlockHeader * C) :=
  match infos with
  | [] => Ok ([], c)
  | blockBFTInfo :: rest =>
      if bb_height blockBFTInfo <? minPrevoteHeight then Ok (blockBFTInfo :: rest, c)
      else
        '(params, c) ← GetParameters (bb_height blockBFTInfo) c;
        match BFTValidators_Get generator (bp_validators params) with
        | None => Err (Errorf "invalid state. Validator does not exist in BFT parameters")
        | Some bftValidator =>
            '(rest, c) ← prevote_loop generator minPrevoteHeight rest c;
            Ok (add_prevote (bv_bftWeight bftValidator) blockBFTInfo :: rest, c)
        end
  end.

Definition updatePrevotesPrecommits (v : BFTVotes) (c : C) : res (BFTVotes * C) :=
  match vt_blockBFTInfos v with
  | [] => Ok (v, c)
  | newBlockBFTInfo :: _ =>
      if bb_height newBlockBFTInfo <=? bb_maxHeightGenerated newBlockBFTInfo then Ok (v, c)
      else
        match ActiveValidators_get (bb_generatorAddress newBlockBFTInfo)
                (vt_activeValidatorsVoteInfo v) with
        | None => Ok (v, c)
        | Some validatorInfo =>
            heightNotPrevoted ← getHeightNotPrevoted v;
            minPrecommitHeight ← Ints.Max [av_minActiveHeight validatorInfo;
              u32 (heightNotPrevoted + 1); u32 (av_largestHeightPrecommit validatorInfo + 1)];
            '(infos, active, c) ← precommit_loop (bb_generatorAddress newBlockBFTInfo)
              minPrecommitHeight false (vt_blockBFTInfos v) (vt_activeValidatorsVoteInfo v) c;
            minPrevoteHeight ← Ints.Max [u32 (bb_maxHeightGenerated newBlockBFTInfo + 1);
              av_minActiveHeight validatorInfo];
            '(infos, c) ← prevote_loop (bb_generatorAddress newBlockBFTInfo) minPrevoteHeight infos c;
            Ok (set_active active (set_infos infos v), c)
        end
  end.

Fixpoint prevoted_loop (infos : list BFTBlockHeader) (v : BFTVotes) (c : C) : res (BFTVotes * C) :=
  match infos with
  | [] => Ok (v, c)
  | blockBFTInfo :: infos =>
      '(params, c) ← GetParameters (bb_height blockBFTInfo) c;
      if bp_prevoteThreshold params <=? bb_prevoteWeight blockBFTInfo
      then Ok (set_maxHeightPrevoted (bb_height blockBFTInfo) v, c)
      else prevoted_loop infos v c
  end.

Definition updateMaxHeightPrevoted (v : BFTVotes) (c : C) : res (BFTVotes * C) :=
  prevoted_loop (vt_blockBFTInfos v) v c.

Fixpoint precommitted_loop (infos : list BFTBlockHeader) (v : BFTVotes) (c : C) : res (BFTVotes * C) :=
  match infos with
  | [] => Ok (v, c)
  | blockBFTInfo :: infos =>
      '(params, c) ← GetParameters (bb_height blockBFTInfo) c;
      if bp_precommitThreshold params <=? bb_precommitWeight blockBFTInfo
      then Ok (set_maxHeightPrecommited (bb_height blockBFTInfo) v, c)
      else precommitted_loop infos v c
  end.

Definition updateMaxHeightPrecommitted (v : BFTVotes) (c : C) : res (BFTVotes * C) :=
  precommitted_loop (vt_blockBFTInfos v) v c.
End updates.

(** A header without aggregate commit dereferences nil. *)
Definition updateMaxHeightCertified (header : BlockHeader) (v : BFTVotes) : res BFTVotes :=
  match bh_AggregateCommit header with
  | None => Panic
  | Some commit =>
      if (len (ac_AggregationBits commit) =? 0) && (len (ac_CertificateSignature commit) =? 0)
      then Ok v
      else Ok (set_maxHeightCertified (ac_Height commit) v)
  end.

(** The updates of [BeforeTransactionsExecute] after the header is inserted. *)
Definition update_votes {C} `{ParamsSource C} (header : BlockHeader) (v : BFTVotes) (c : C)
    : res (BFTVotes * C) :=
  '(v, c) ← updatePrevotesPrecommits v c;
  '(v, c) ← updateMaxHeightPrevoted v c;
  '(v, c) ← updateMaxHeightPrecommitted v c;
  v ← updateMaxHeightCertified header v;
  Ok (v, c).

(** ** The states of the module *)

(** The votes [InitGenesisState] stores. *)
Definition genesis_votes (height : Z) : BFTVotes := mkBFTVotes height height height [] [].

(** The active validators [SetBFTParameters] stores.  Its guard has rejected
    validators without weight, which the loop skips. *)
Definition next_active (nextHeight : Z) (validators : list BFTValidator)
    (currentActiveValidators : list ActiveValidator) : list ActiveValidator :=
  ActiveValidators_sort ((λ validator,
    match ActiveValidators_get (bv_address validator) currentActiveValidators with
    | Some originalConsenter => originalConsenter
    | None => mkActiveValidator (bv_address validator) nextHeight (u32 (nextHeight - 1))
    end) <$> validators).
