(* ===== verification/VotesSpec.v ===== *)
(** * VotesSpec: what the vote counting guarantees

    The theory of Votes.v: the effect of each update, the invariant that ties
    the counted weights to sets of distinct validators, and its preservation
    by blocks and by changes of the BFT parameters. *)

From S2P Require Import Prelude Collection Crypto BlockTypes ForkChoice BFTTypes Votes.

(** ** Weights of sets of validators *)

Fixpoint total_weight (vs : list BFTValidator) : Z :=
  match vs with [] => 0 | v :: vs => bv_bftWeight v + total_weight vs end.

Definition weight_in (vs : list BFTValidator) (a : bytes) : Z :=
  match BFTValidators_Get a vs with Some v => bv_bftWeight v | None => 0 end.

#[global] Arguments weight_in : simpl never.

Fixpoint voters_weight (vs : list BFTValidator) (l : list bytes) : Z :=
  match l with [] => 0 | a :: l => weight_in vs a + voters_weight vs l end.

Definition weights_ok (vs : list BFTValidator) : Prop := Forall (λ v, 0 ≤ bv_bftWeight v) vs.

Lemma weight_in_nonneg vs a : weights_ok vs → 0 ≤ weight_in vs a.
Proof.
  unfold weight_in. induction 1 as [|v vs Hv Hvs IH]; cbn; [done|].
  by destruct (bytes_equal _ _).
Qed.

Lemma voters_weight_nonneg vs l : weights_ok vs → 0 ≤ voters_weight vs l.
Proof. intros Hw. induction l; cbn; [done|]. pose proof (weight_in_nonneg vs a Hw). lia. Qed.

Lemma voters_weight_app vs l k : voters_weight vs (l ++ k) = voters_weight vs l + voters_weight vs k.
Proof. induction l; cbn; lia. Qed.

Lemma voters_weight_perm vs l k : l ≡ₚ k → voters_weight vs l = voters_weight vs k.
Proof. induction 1; cbn; lia. Qed.

Lemma voters_weight_cons v vs l :
  weights_ok (v :: vs) → NoDup l →
  voters_weight (v :: vs) l ≤ bv_bftWeight v + voters_weight vs l ∧
  (bv_address v ∉ l → voters_weight (v :: vs) l = voters_weight vs l).
Proof.
  intros [Hv Hw]%Forall_cons. induction 1 as [|a l Ha Hl [IH1 IH2]]; cbn; [lia|].
  pose proof (weight_in_nonneg vs a Hw) as Ha0. unfold weight_in at 1 3. cbn [BFTValidators_Get].
  unfold bytes_equal. case_bool_decide as E.
  - subst a. rewrite IH2 by done. split; [lia|]. intros []. by left.
  - fold (weight_in vs a). split; [lia|]. intros Hn. rewrite IH2; [done|]. intros Hin. apply Hn. by right.
Qed.

(** Distinct voters never weigh more than all validators. *)
Lemma voters_weight_le vs l : weights_ok vs → NoDup l → voters_weight vs l ≤ total_weight vs.
Proof.
  intros Hw Hl. induction vs as [|v vs IH]; cbn.
  - induction Hl; cbn; [done|]. unfold weight_in at 1. cbn. lia.
  - pose proof (proj1 (voters_weight_cons v vs l Hw Hl)). apply Forall_cons in Hw as [_ Hw].
    specialize (IH Hw). lia.
Qed.

(** Two sets of voters overlap in what exceeds the total. *)
Lemma quorum_overlap vs l k :
  weights_ok vs → NoDup l → NoDup k →
  voters_weight vs l + voters_weight vs k - total_weight vs
    ≤ voters_weight vs (filter (λ a, a ∈ k) l).
Proof.
  intros Hw Hl Hk.
  assert (filter (λ a, a ∈ k) l ++ filter (λ a, a ∉ k) l ≡ₚ l) as Hp.
  { clear. induction l as [|a l IH]; [done|]. rewrite !filter_cons.
    destruct (decide (a ∈ k)), (decide (a ∉ k)); try done.
    - cbn. by rewrite IH.
    - rewrite <-Permutation_middle. by rewrite IH. }
  pose proof (voters_weight_perm vs _ _ Hp) as E. rewrite voters_weight_app in E.
  assert (NoDup (filter (λ a, a ∉ k) l ++ k)) as Hnd.
  { apply NoDup_app. split_and!; [by apply NoDup_filter| |done].
    intros a [? _]%list_elem_of_filter. done. }
  pose proof (voters_weight_le vs _ Hw Hnd) as Hle. rewrite voters_weight_app in Hle. lia.
Qed.

(** ** The interface to the parameters *)

(** [P] gives the parameters of each height; [R] is the invariant of the source. *)
Class ParamsLaws (C : Type) `{ParamsSource C} (P : Z → option BFTParams) (R : C → Prop) :=
  GetParameters_law : ∀ h c p, R c → P h = Some p → ∃ c', GetParameters h c = Ok (p, c') ∧ R c'.

(** A source that is the function itself. *)
#[export] Instance fun_params : ParamsSource (Z → option BFTParams) := λ h P,
  match P h with Some p => Ok (p, P) | None => Err ErrBFTParamsNotFound end.

#[export] Instance fun_params_laws P : ParamsLaws (Z → option BFTParams) P (λ c, c = P).
Proof. intros h c p -> Hp. unfold GetParameters, fun_params. rewrite Hp. eauto. Qed.

Definition validators_at (P : Z → option BFTParams) (h : Z) : list BFTValidator :=
  match P h with Some p => bp_validators p | None => [] end.
Definition prevote_threshold (P : Z → option BFTParams) (h : Z) : Z :=
  match P h with Some p => bp_prevoteThreshold p | None => 0 end.
Definition precommit_threshold (P : Z → option BFTParams) (h : Z) : Z :=
  match P h with Some p => bp_precommitThreshold p | None => 0 end.

Definition is_validator (P : Z → option BFTParams) (h : Z) (a : bytes) : Prop :=
  is_Some (BFTValidators_Get a (validators_at P h)).

Definition params_ok (p : BFTParams) : Prop :=
  weights_ok (bp_validators p) ∧ total_weight (bp_validators p) < 2 ^ 64 ∧
  0 < bp_prevoteThreshold p ∧ 0 < bp_precommitThreshold p.

(** ** The effect of the loops *)

(** Heights go down by one along the list. *)
Fixpoint consecutive (infos : list BFTBlockHeader) : Prop :=
  match infos with
  | b :: ((b' :: _) as rest) => bb_height b = bb_height b' + 1 ∧ consecutive rest
  | _ => True
  end.

Lemma consecutive_lookup infos i b0 b :
  consecutive infos → infos !! 0%nat = Some b0 → infos !! i = Some b →
  bb_height b = bb_height b0 - Z.of_nat i.
Proof.
  revert i b0. induction infos as [|x infos IH]; intros i b0 Hc H0 Hi; [done|].
  injection H0 as <-. destruct i as [|i]; [injection Hi as ->; lia|].
  destruct infos as [|y infos]; [done|]. destruct Hc as [Hxy Hc].
  rewrite (IH i y Hc eq_refl Hi), Hxy. lia.
Qed.

Lemma consecutive_tail b infos : consecutive (b :: infos) → consecutive infos.
Proof. destruct infos; [done|]. by intros [_ ?]. Qed.

Lemma consecutive_le b infos x : consecutive (b :: infos) → x ∈ infos → bb_height x < bb_height b.
Proof.
  intros Hc [i Hi]%list_elem_of_lookup.
  pose proof (consecutive_lookup (b :: infos) (S i) b x Hc eq_refl Hi). lia.
Qed.

Lemma consecutive_map (f : BFTBlockHeader → BFTBlockHeader) infos :
  (∀ b, bb_height (f b) = bb_height b) → consecutive infos → consecutive (f <$> infos).
Proof.
  intros Hf. induction infos as [|b [|b' infos] IH]; [done|done|].
  intros [Hb Hc]. split; [by rewrite !Hf|by apply IH].
Qed.

Lemma consecutive_take n infos : consecutive infos → consecutive (take n infos).
Proof.
  revert n. induction infos as [|b [|b' infos] IH]; intros [|[|n]] Hc; try done.
  destruct Hc as [Hb Hc]. split; [done|]. by apply (IH (S n)).
Qed.

(** What one block adds to a tracked header. *)
Definition prevoted_by (P : Z → option BFTParams) (g : bytes) (m : Z) (b : BFTBlockHeader) : BFTBlockHeader :=
  if m <=? bb_height b then add_prevote (weight_in (validators_at P (bb_height b)) g) b else b.

Definition prevote_quorum (P : Z → option BFTParams) (b : BFTBlockHeader) : bool :=
  prevote_threshold P (bb_height b) <=? bb_prevoteWeight b.
Definition precommit_quorum (P : Z → option BFTParams) (b : BFTBlockHeader) : bool :=
  precommit_threshold P (bb_height b) <=? bb_precommitWeight b.

Definition precommits (P : Z → option BFTParams) (m : Z) (b : BFTBlockHeader) : bool :=
  (m <=? bb_height b) && prevote_quorum P b.

Definition precommitted_by (P : Z → option BFTParams) (g : bytes) (m : Z) (b : BFTBlockHeader) : BFTBlockHeader :=
  if precommits P m b then add_precommit (weight_in (validators_at P (bb_height b)) g) b else b.

Lemma fmap_below {A} (f : A → A) (l : list A) : (∀ x, x ∈ l → f x = x) → f <$> l = l.
Proof.
  induction l as [|x l IH]; intros Hf; [done|]. cbn. rewrite Hf by left. f_equal.
  apply IH. intros y Hy. apply Hf. by right.
Qed.

Section effect.
Context {C : Type} `{ParamsLaws C P R}.
Implicit Types (infos : list BFTBlockHeader) (c : C).

Definition tracked infos : Prop := ∀ b, b ∈ infos → is_Some (P (bb_height b)).

Lemma prevote_loop_spec g m infos c :
  R c → consecutive infos → tracked infos →
  (∀ b, b ∈ infos → m ≤ bb_height b → is_validator P (bb_height b) g) →
  ∃ c', prevote_loop g m infos c = Ok (prevoted_by P g m <$> infos, c') ∧ R c'.
Proof.
  revert c. induction infos as [|b infos IH]; intros c Hc Hcons Ht Hv; cbn [prevote_loop]; [eauto|].
  rewrite fmap_cons. unfold prevoted_by at 1.
  destruct (Z.ltb_spec (bb_height b) m) as [Hlt|Hge].
  - rewrite (proj2 (Z.leb_gt _ _)) by done. exists c. split; [|done]. do 3 f_equal. symmetry.
    apply fmap_below. intros x Hx. pose proof (consecutive_le b infos x Hcons Hx).
    unfold prevoted_by. by rewrite (proj2 (Z.leb_gt _ _)) by lia.
  - destruct (Ht b ltac:(left)) as [p Hp]. destruct (Hv b ltac:(left) Hge) as [bv Hbv].
    destruct (GetParameters_law (bb_height b) c p Hc Hp) as (c1 & -> & Hc1). cbn [mbind res_bind].
    unfold weight_in at 1. rewrite Hbv. unfold validators_at in Hbv. rewrite Hp in Hbv. rewrite Hbv.
    destruct (IH c1) as (c2 & -> & Hc2); [done|by eapply consecutive_tail|..].
    { intros x Hx. apply Ht. by right. }
    { intros x Hx. apply Hv. by right. }
    cbn [mbind res_bind]. rewrite (proj2 (Z.leb_le _ _)) by done. eauto.
Qed.

(** The first header that gets a precommit determines the recorded height. *)
Definition first_precommit m infos : option BFTBlockHeader := head (filter (λ b, precommits P m b) infos).

Definition record_precommit g m infos (active : list ActiveValidator) : list ActiveValidator :=
  match first_precommit m infos with
  | Some b => set_largestHeightPrecommit g (bb_height b) active
  | None => active
  end.

Lemma precommit_loop_spec g m has infos active c :
  R c → consecutive infos → tracked infos →
  (∀ b, b ∈ infos → m ≤ bb_height b → is_validator P (bb_height b) g) →
  ∃ c', precommit_loop g m has infos active c
      = Ok (precommitted_by P g m <$> infos,
            if has then active else record_precommit g m infos active, c') ∧ R c'.
Proof.
  unfold record_precommit, first_precommit.
  revert has active c. induction infos as [|b infos IH]; intros has active c Hc Hcons Ht Hv;
    cbn [precommit_loop].
  { exists c. by destruct has. }
  rewrite fmap_cons, filter_cons. unfold precommitted_by at 1.
  destruct (Z.ltb_spec (bb_height b) m) as [Hlt|Hge].
  - assert (precommits P m b = false) as -> by (unfold precommits; by rewrite (proj2 (Z.leb_gt _ _))).
    rewrite decide_False by tauto.
    assert (∀ x, x ∈ infos → precommits P m x = false) as Hno.
    { intros x Hx. pose proof (consecutive_le b infos x Hcons Hx). unfold precommits.
      by rewrite (proj2 (Z.leb_gt _ _)) by lia. }
    exists c. split; [|done]. repeat f_equal.
    + symmetry. apply fmap_below. intros x Hx. unfold precommitted_by. by rewrite Hno.
    + destruct has; [done|]. destruct (filter _ infos) as [|x f] eqn:E; [done|].
      assert (x ∈ filter (λ b, precommits P m b) infos) as [Hp Hx]%list_elem_of_filter
        by (rewrite E; left). by rewrite Hno in Hp.
  - destruct (Ht b ltac:(left)) as [p Hp]. destruct (Hv b ltac:(left) Hge) as [bv Hbv].
    destruct (GetParameters_law (bb_height b) c p Hc Hp) as (c1 & -> & Hc1). cbn [mbind res_bind].
    assert (precommits P m b = (bp_prevoteThreshold p <=? bb_prevoteWeight b)) as ->.
    { unfold precommits, prevote_quorum, prevote_threshold. by rewrite (proj2 (Z.leb_le m _)), Hp. }
    assert (∀ has active, ∃ c', precommit_loop g m has infos active c1
      = Ok (precommitted_by P g m <$> infos, if has then active else
          match head (filter (λ b, precommits P m b) infos) with
          | Some b => set_largestHeightPrecommit g (bb_height b) active | None => active end, c') ∧ R c')
      as IH'.
    { intros has' active'. apply IH; [done|by eapply consecutive_tail|..].
      - intros x Hx. apply Ht. by right.
      - intros x Hx. apply Hv. by right. }
    unfold weight_in at 1. rewrite Hbv. unfold validators_at in Hbv. rewrite Hp in Hbv.
    destruct (bp_prevoteThreshold p <=? bb_prevoteWeight b).
    + rewrite Hbv. destruct (IH' true (if has then active else
        set_largestHeightPrecommit g (bb_height b) active)) as (c2 & -> & Hc2).
      cbn [mbind res_bind]. rewrite decide_True by done. eexists. split; [|exact Hc2]. by destruct has.
    + destruct (IH' has active) as (c2 & -> & Hc2). cbn [mbind res_bind].
      rewrite decide_False by (cbn; tauto). eauto.
Qed.

Definition first_height (q : BFTBlockHeader → bool) infos (d : Z) : Z :=
  match filter q infos with b :: _ => bb_height b | [] => d end.

Lemma prevoted_loop_spec infos v c :
  R c → tracked infos →
  ∃ c', prevoted_loop infos v c
    = Ok (set_maxHeightPrevoted (first_height (prevote_quorum P) infos (vt_maxHeightPrevoted v)) v, c')
    ∧ R c'.
Proof.
  unfold first_height.
  revert c. induction infos as [|b infos IH]; intros c Hc Ht; cbn [prevoted_loop].
  { exists c. by destruct v. }
  destruct (Ht b ltac:(left)) as [p Hp].
  destruct (GetParameters_law (bb_height b) c p Hc Hp) as (c1 & -> & Hc1). cbn [mbind res_bind].
  assert (prevote_quorum P b = (bp_prevoteThreshold p <=? bb_prevoteWeight b)) as Hq
    by (unfold prevote_quorum, prevote_threshold; by rewrite Hp).
  rewrite filter_cons. destruct (bp_prevoteThreshold p <=? bb_prevoteWeight b).
  - rewrite decide_True by (by rewrite Hq). eauto.
  - rewrite decide_False by (rewrite Hq; tauto). apply IH; [done|]. intros x Hx. apply Ht. by right.
Qed.

Lemma precommitted_loop_spec infos v c :
  R c → tracked infos →
  ∃ c', precommitted_loop infos v c
    = Ok (set_maxHeightPrecommited
            (first_height (precommit_quorum P) infos (vt_maxHeightPrecommited v)) v, c') ∧ R c'.
Proof.
  unfold first_height.
  revert c. induction infos as [|b infos IH]; intros c Hc Ht; cbn [precommitted_loop].
  { exists c. by destruct v. }
  destruct (Ht b ltac:(left)) as [p Hp].
  destruct (GetParameters_law (bb_height b) c p Hc Hp) as (c1 & -> & Hc1). cbn [mbind res_bind].
  assert (precommit_quorum P b = (bp_precommitThreshold p <=? bb_precommitWeight b)) as Hq
    by (unfold precommit_quorum, precommit_threshold; by rewrite Hp).
  rewrite filter_cons. destruct (bp_precommitThreshold p <=? bb_precommitWeight b).
  - rewrite decide_True by (by rewrite Hq). eauto.
  - rewrite decide_False by (rewrite Hq; tauto). apply IH; [done|]. intros x Hx. apply Ht. by right.
Qed.
End effect.

(** ** The votes a header implies *)

(** A tracked block of [a] implies a prevote for height [h]. *)
Definition implies_vote (infos : list BFTBlockHeader) (a : bytes) (h : Z) : Prop :=
  ∃ b, b ∈ infos ∧ bb_generatorAddress b = a ∧ bb_maxHeightGenerated b < h ≤ bb_height b.

(** Blocks of one generator acknowledge each other. *)
Definition separated (infos : list BFTBlockHeader) : Prop :=
  ∀ i j b b', (i < j)%nat → infos !! i = Some b → infos !! j = Some b' →
  bb_generatorAddress b = bb_generatorAddress b' → bb_height b' ≤ bb_maxHeightGenerated b.

Lemma separated_height infos b b' :
  consecutive infos → separated infos → b ∈ infos → b' ∈ infos →
  bb_generatorAddress b = bb_generatorAddress b' → bb_height b' < bb_height b →
  bb_height b' ≤ bb_maxHeightGenerated b.
Proof.
  intros Hc Hs [i Hi]%list_elem_of_lookup [j Hj]%list_elem_of_lookup Hg Hlt.
  destruct (infos !! 0%nat) as [b0|] eqn:E0; [|by destruct infos].
  pose proof (consecutive_lookup infos i b0 b Hc E0 Hi).
  pose proof (consecutive_lookup infos j b0 b' Hc E0 Hj).
  eapply Hs; [|done..]. lia.
Qed.

Lemma consecutive_inj infos b b' :
  consecutive infos → b ∈ infos → b' ∈ infos → bb_height b = bb_height b' → b = b'.
Proof.
  intros Hc [i Hi]%list_elem_of_lookup [j Hj]%list_elem_of_lookup E.
  destruct (infos !! 0%nat) as [b0|] eqn:E0; [|by destruct infos].
  pose proof (consecutive_lookup infos i b0 b Hc E0 Hi).
  pose proof (consecutive_lookup infos j b0 b' Hc E0 Hj).
  replace j with i in Hj by lia. congruence.
Qed.

(** The votes of two blocks of one generator are disjoint. *)
Lemma implied_unique infos b b' h :
  consecutive infos → separated infos → b ∈ infos → b' ∈ infos →
  bb_generatorAddress b = bb_generatorAddress b' →
  bb_maxHeightGenerated b < h ≤ bb_height b → bb_maxHeightGenerated b' < h ≤ bb_height b' → b = b'.
Proof.
  intros Hc Hs Hb Hb' Hg H1 H2.
  destruct (Z.lt_trichotomy (bb_height b) (bb_height b')) as [Hlt|[Heq|Hlt]].
  - pose proof (separated_height infos b' b Hc Hs Hb' Hb (eq_sym Hg) Hlt). lia.
  - by eapply consecutive_inj.
  - pose proof (separated_height infos b b' Hc Hs Hb Hb' Hg Hlt). lia.
Qed.

Section notPrevoted.
Context (infos : list BFTBlockHeader) (b0 : BFTBlockHeader) (rest : list BFTBlockHeader).
Context (Hinfos : infos = b0 :: rest) (Hcons : consecutive infos) (Hsep : separated infos).
Context (Hheights : ∀ b, b ∈ infos → 1 ≤ bb_height b < 2 ^ 32).
Context (Hgenerated : ∀ b, b ∈ infos → 0 ≤ bb_maxHeightGenerated b).

Abbreviation g := (bb_generatorAddress b0).
Abbreviation top := (bb_height b0).
(** The height below the tracked ones. *)
Abbreviation bottom := (top - len infos).

Lemma at_height x : bottom < x ≤ top → ∃ b, index infos (u32 (top - x)) = Ok b ∧ b ∈ infos ∧ bb_height b = x.
Proof using Hcons Hheights Hinfos.
  intros Hx. assert (1 ≤ top < 2 ^ 32) as HH by (apply Hheights; rewrite Hinfos; left).
  assert (0 ≤ bottom) as Hbot.
  { unfold len. destruct (lookup_lt_is_Some_2 infos (pred (length infos))) as [b Hb];
      [rewrite Hinfos; cbn; lia|].
    pose proof (consecutive_lookup infos _ b0 b Hcons ltac:(by rewrite Hinfos) Hb) as E.
    apply list_elem_of_lookup_2, Hheights in Hb. revert E Hb. rewrite Hinfos. cbn. lia. }
  rewrite u32_small by (unfold u32_ok; lia). unfold index. rewrite idx_nonneg by lia.
  destruct (lookup_lt_is_Some_2 infos (Z.to_nat (top - x))) as [b Hb]; [unfold len in *; lia|].
  rewrite Hb. exists b. split; [done|]. split; [by eapply list_elem_of_lookup_2|].
  rewrite (consecutive_lookup infos _ b0 b Hcons ltac:(by rewrite Hinfos) Hb). lia.
Qed.

Definition not_prevoted_spec (r : Z) : Prop :=
  bottom ≤ r < top ∧ (∀ x, r < x ≤ top → implies_vote infos g x) ∧ (bottom < r → ¬ implies_vote infos g r).

Lemma notPrevoted_loop_spec fuel prev :
  (Z.to_nat (prev - bottom) < fuel)%nat → 0 ≤ prev < top →
  (∀ x, prev < x ≤ top → implies_vote infos g x) →
  (∀ b, b ∈ infos → bb_generatorAddress b = g → prev < bb_height b → prev ≤ bb_maxHeightGenerated b) →
  ∃ r, notPrevoted_loop fuel infos b0 prev = Ok r ∧ not_prevoted_spec r.
Proof using Hcons Hgenerated Hheights Hinfos Hsep.
  revert prev. induction fuel as [|fuel IH]; intros prev Hfuel Hprev Hcov Habove; [lia|].
  cbn [notPrevoted_loop]. destruct (Z.ltb_spec (top - prev) (len infos)) as [Hlt|Hge].
  - destruct (at_height prev ltac:(lia)) as (b & -> & Hb & Hbh). cbn [mbind res_bind].
    unfold bytes_equal. case_bool_decide as Hg; cbn [negb orb].
    + destruct (Z.leb_spec prev (bb_maxHeightGenerated b)) as [Hle|Hgt].
      * exists prev. split; [done|]. split; [lia|]. split; [done|]. intros _ (b' & Hb' & Hg' & Hr).
        destruct (decide (bb_height b' = prev)) as [E|Hne].
        -- rewrite (consecutive_inj infos b' b Hcons Hb' Hb ltac:(lia)) in Hr. lia.
        -- specialize (Habove b' Hb' Hg'). lia.
      * apply IH; [lia|pose proof (Hgenerated b Hb); lia|..].
        -- intros x Hx. destruct (decide (prev < x)); [apply Hcov; lia|]. exists b.
           split; [done|]. split; [done|]. lia.
        -- intros b' Hb' Hg' Hr. destruct (decide (prev < bb_height b')).
           { specialize (Habove b' Hb' Hg'). lia. }
           destruct (decide (bb_height b' = prev)) as [E|Hne].
           { rewrite (consecutive_inj infos b' b Hcons Hb' Hb ltac:(lia)). lia. }
           pose proof (separated_height infos b b' Hcons Hsep Hb Hb' ltac:(congruence)). lia.
    + exists prev. split; [done|]. split; [lia|]. split; [done|]. intros _ (b' & Hb' & Hg' & Hr).
      destruct (decide (bb_height b' = prev)) as [E|Hne].
      * apply Hg. rewrite <-(consecutive_inj infos b' b Hcons Hb' Hb ltac:(lia)). done.
      * specialize (Habove b' Hb' Hg'). lia.
  - assert (0 < len infos) by (rewrite Hinfos; len_lia).
    assert (1 ≤ top < 2 ^ 32) as HH by (apply Hheights; rewrite Hinfos; left).
    destruct (at_height (bottom + 1) ltac:(lia)) as (b & Hidx & Hb & Hbh).
    replace (top - (bottom + 1)) with (len infos - 1) in Hidx by lia.
    rewrite u32_small in Hidx by (pose proof (Hheights b Hb); unfold u32_ok; lia).
    rewrite Hidx. cbn [mbind res_bind]. pose proof (Hheights b Hb).
    rewrite u32_small by (unfold u32_ok; lia). rewrite Hbh. exists (bottom + 1 - 1). split; [done|].
    split; [lia|]. split; [|lia]. intros x Hx. apply Hcov. lia.
Qed.
End notPrevoted.

Lemma getHeightNotPrevoted_Ok v b0 rest :
  vt_blockBFTInfos v = b0 :: rest →
  consecutive (vt_blockBFTInfos v) → separated (vt_blockBFTInfos v) →
  (∀ b, b ∈ vt_blockBFTInfos v → 1 ≤ bb_height b < 2 ^ 32) →
  (∀ b, b ∈ vt_blockBFTInfos v → 0 ≤ bb_maxHeightGenerated b) →
  bb_maxHeightGenerated b0 < bb_height b0 →
  ∃ r, getHeightNotPrevoted v = Ok r ∧ not_prevoted_spec (vt_blockBFTInfos v) b0 r.
Proof.
  intros Hi Hc Hs Hh Hg Hlt. unfold getHeightNotPrevoted.
  assert (b0 ∈ vt_blockBFTInfos v) as Hin by (rewrite Hi; left).
  replace (match vt_blockBFTInfos v with [] => _ | _ => _ end) with
    (notPrevoted_loop (S (length (vt_blockBFTInfos v))) (vt_blockBFTInfos v) b0 (bb_maxHeightGenerated b0))
    by (by rewrite Hi).
  eapply notPrevoted_loop_spec; try done.
  - pose proof (Hg b0 Hin). unfold len. lia.
  - by split; [apply Hg|].
  - intros x Hx. by exists b0.
  - intros b Hb Hgen Hbh. destruct (decide (bb_height b = bb_height b0)) as [E|Hne].
    + by rewrite (consecutive_inj _ b b0 Hc Hb Hin E).
    + assert (bb_height b < bb_height b0).
      { rewrite Hi in Hb, Hc. apply elem_of_cons in Hb as [->|Hb]; [done|]. by eapply consecutive_le. }
      pose proof (separated_height _ b0 b Hc Hs Hin Hb (eq_sym Hgen)). lia.
Qed.

(** ** The loops keep heights and widths *)

Section shape.
Context {C : Type} `{ParamsSource C}.

Lemma add_prevote_ok w b : BFTBlockHeader_ok b → BFTBlockHeader_ok (add_prevote w b).
Proof. intros (? & ? & ? & ? & ?). split_and!; cbn; auto using u64_range. Qed.

Lemma add_precommit_ok w b : BFTBlockHeader_ok b → BFTBlockHeader_ok (add_precommit w b).
Proof. intros (? & ? & ? & ? & ?). split_and!; cbn; auto using u64_range. Qed.

Lemma prevote_loop_shape g m infos c l c' :
  prevote_loop g m infos c = Ok (l, c') →
  bb_height <$> l = bb_height <$> infos ∧ (Forall BFTBlockHeader_ok infos → Forall BFTBlockHeader_ok l).
Proof.
  revert c l c'. induction infos as [|b infos IH]; intros c l c'; cbn [prevote_loop]; [by intros [= <- <-]|].
  destruct (_ <? _); [by intros [= <- <-]|].
  destruct (GetParameters _ _) as [[p c1]| | |]; try done. cbn [mbind res_bind].
  destruct (BFTValidators_Get _ _); [|done]. destruct (prevote_loop _ _ _ _) as [[l1 c2]| | |] eqn:E; try done.
  cbn [mbind res_bind]. intros [= <- <-]. apply IH in E as [Eh Eok]. split; [cbn; by f_equal|].
  intros [Hb Hi]%Forall_cons. constructor; [by apply add_prevote_ok|by apply Eok].
Qed.

Lemma set_largest_ok g h active :
  u32_ok h → Forall ActiveValidator_ok active → Forall ActiveValidator_ok (set_largestHeightPrecommit g h active).
Proof.
  intros Hh. induction 1 as [|a active Ha Hact IH]; cbn; [constructor|]. destruct (bytes_equal _ _); [|by constructor].
  constructor; [|done]. by destruct Ha.
Qed.

Lemma precommit_loop_shape g m has infos active c l a c' :
  precommit_loop g m has infos active c = Ok (l, a, c') →
  bb_height <$> l = bb_height <$> infos ∧
  (Forall BFTBlockHeader_ok infos → Forall ActiveValidator_ok active →
   Forall BFTBlockHeader_ok l ∧ Forall ActiveValidator_ok a).
Proof.
  revert has active c l a c'. induction infos as [|b infos IH]; intros has active c l a c'; cbn [precommit_loop];
    [by intros [= <- <- <-]|].
  destruct (_ <? _); [by intros [= <- <- <-]|].
  destruct (GetParameters _ _) as [[p c1]| | |]; try done. cbn [mbind res_bind].
  destruct (_ <=? _); [destruct (BFTValidators_Get _ _); [|done]|];
    (destruct (precommit_loop _ _ _ _ _ _) as [[[l1 a1] c2]| | |] eqn:E; try done);
    cbn [mbind res_bind]; intros [= <- <- <-]; apply IH in E as [Eh Eok]; (split; [cbn; by f_equal|]);
    intros [Hb Hi]%Forall_cons Ha.
  - destruct Eok as [? ?]; [done| |].
    { destruct has; [done|]. apply set_largest_ok; [apply Hb|done]. }
    split; [|done]. constructor; [by apply add_precommit_ok|done].
  - destruct Eok as [? ?]; [done..|]. split; [by constructor|done].
Qed.

(** What a quorum height update may do. *)
Lemma prevoted_loop_shape infos v c v' c' :
  prevoted_loop infos v c = Ok (v', c') →
  v' = v ∨ ∃ b, b ∈ infos ∧ v' = set_maxHeightPrevoted (bb_height b) v.
Proof.
  revert c. induction infos as [|b infos IH]; intros c; cbn [prevoted_loop]; [intros [= <- <-]; by left|].
  destruct (GetParameters _ _) as [[p c1]| | |]; try done. cbn [mbind res_bind].
  destruct (_ <=? _); [intros [= <- <-]; right; exists b; by split; [left|]|].
  intros [->|(x & Hx & ->)]%IH; [by left|]. right. exists x. by split; [right|].
Qed.

Lemma precommitted_loop_shape infos v c v' c' :
  precommitted_loop infos v c = Ok (v', c') →
  v' = v ∨ ∃ b, b ∈ infos ∧ v' = set_maxHeightPrecommited (bb_height b) v.
Proof.
  revert c. induction infos as [|b infos IH]; intros c; cbn [precommitted_loop]; [intros [= <- <-]; by left|].
  destruct (GetParameters _ _) as [[p c1]| | |]; try done. cbn [mbind res_bind].
  destruct (_ <=? _); [intros [= <- <-]; right; exists b; by split; [left|]|].
  intros [->|(x & Hx & ->)]%IH; [by left|]. right. exists x. by split; [right|].
Qed.

Lemma updatePrevotesPrecommits_shape v c v' c' :
  updatePrevotesPrecommits v c = Ok (v', c') →
  bb_height <$> vt_blockBFTInfos v' = bb_height <$> vt_blockBFTInfos v ∧ (BFTVotes_ok v → BFTVotes_ok v').
Proof.
  unfold updatePrevotesPrecommits. destruct (vt_blockBFTInfos v) as [|b0 rest] eqn:Ei; [intros [= <- <-]; by rewrite Ei|].
  destruct (_ <=? _); [intros [= <- <-]; by rewrite Ei|].
  destruct (ActiveValidators_get _ _); [|intros [= <- <-]; by rewrite Ei].
  destruct (getHeightNotPrevoted v); try done. cbn [mbind res_bind]. rewrite Ints.Max_3. cbn [mbind res_bind].
  destruct (precommit_loop _ _ _ _ _ c) as [[[l1 a1] c1]| | |] eqn:E1; try done. cbn [mbind res_bind].
  rewrite Ints.Max_2. cbn [mbind res_bind].
  destruct (prevote_loop _ _ _ c1) as [[l2 c2]| | |] eqn:E2; try done. cbn [mbind res_bind]. intros [= <- <-].
  apply precommit_loop_shape in E1 as [Eh1 Eok1]. apply prevote_loop_shape in E2 as [Eh2 Eok2].
  cbn [vt_blockBFTInfos set_active set_infos]. split; [by rewrite Eh2|].
  intros (? & ? & ? & Hi & Ha). rewrite Ei in Hi. destruct (Eok1 Hi Ha). split_and!; cbn; auto.
Qed.

Lemma update_votes_shape header v c v' c' :
  update_votes header v c = Ok (v', c') →
  bb_height <$> vt_blockBFTInfos v' = bb_height <$> vt_blockBFTInfos v ∧
  (BFTVotes_ok v → (∀ commit, bh_AggregateCommit header = Some commit → u32_ok (ac_Height commit)) → BFTVotes_ok v').
Proof.
  unfold update_votes. destruct (updatePrevotesPrecommits v c) as [[v1 c1]| | |] eqn:E1; try done. cbn [mbind res_bind].
  unfold updateMaxHeightPrevoted. destruct (prevoted_loop _ v1 c1) as [[v2 c2]| | |] eqn:E2; try done. cbn [mbind res_bind].
  unfold updateMaxHeightPrecommitted. destruct (precommitted_loop _ v2 c2) as [[v3 c3]| | |] eqn:E3; try done. cbn [mbind res_bind].
  unfold updateMaxHeightCertified. destruct (bh_AggregateCommit header) as [commit|]; [|done].
  apply updatePrevotesPrecommits_shape in E1 as [Eh Eok].
  assert (vt_blockBFTInfos v2 = vt_blockBFTInfos v1 ∧ (BFTVotes_ok v1 → BFTVotes_ok v2)) as [Ei2 Eok2].
  { apply prevoted_loop_shape in E2 as [->|(b & Hb & ->)]; [done|]. split; [done|].
    intros (? & ? & ? & Hi & ?). rewrite Forall_forall in Hi. split_and!; cbn; try done; [apply (Hi b Hb)|by rewrite Forall_forall]. }
  assert (vt_blockBFTInfos v3 = vt_blockBFTInfos v2 ∧ (BFTVotes_ok v2 → BFTVotes_ok v3)) as [Ei3 Eok3].
  { apply precommitted_loop_shape in E3 as [->|(b & Hb & ->)]; [done|]. split; [done|].
    intros (? & ? & ? & Hi & ?). rewrite Forall_forall in Hi. split_and!; cbn; try done; [apply (Hi b Hb)|by rewrite Forall_forall]. }
  destruct (_ && _); cbn [mbind res_bind]; intros [= <- <-]; cbn; rewrite Ei3, Ei2; (split; [done|]); intros Hok Hc.
  - auto.
  - destruct (Eok3 (Eok2 (Eok Hok))) as (? & ? & ? & ? & ?). split_and!; cbn; auto.
Qed.
End shape.

(** ** Independence of the source *)

(** Two sources of the same parameters give the same votes. *)
Section sources.
Context {C1 C2 : Type} `{S1 : ParamsSource C1, S2 : ParamsSource C2}.
Context (P : Z → option BFTParams) (R1 : C1 → Prop) (R2 : C2 → Prop).
Context {L1 : ParamsLaws C1 P R1} {L2 : ParamsLaws C2 P R2}.

Definition agree {A} (r1 : res (A * C1)) (r2 : res (A * C2)) : Prop :=
  ∀ a c, r1 = Ok (a, c) → R1 c ∧ ∃ c', r2 = Ok (a, c') ∧ R2 c'.

Lemma agree_ret {A} (a : A) c1 c2 : R1 c1 → R2 c2 → agree (Ok (a, c1)) (Ok (a, c2)).
Proof. intros H1 H2 x c [= <- <-]. eauto. Qed.

Lemma agree_bind {A B} (r1 : res (A * C1)) (r2 : res (A * C2)) (f1 : A * C1 → res (B * C1))
    (f2 : A * C2 → res (B * C2)) :
  agree r1 r2 → (∀ a c1 c2, R1 c1 → R2 c2 → agree (f1 (a, c1)) (f2 (a, c2))) →
  agree (r1 ≫= f1) (r2 ≫= f2).
Proof.
  intros Hr Hf b c E. destruct r1 as [[a c1]| | |]; try done. destruct (Hr a c1 eq_refl) as [H1 (c2 & -> & H2)].
  by eapply Hf.
Qed.

Lemma agree_fail {A} (r1 : res (A * C1)) r2 : (∀ a, r1 ≠ Ok a) → agree r1 r2.
Proof. intros Hf a c E. by destruct (Hf _ E). Qed.

Lemma agree_GetParameters h c1 c2 :
  is_Some (P h) → R1 c1 → R2 c2 → agree (GetParameters h c1) (GetParameters h c2).
Proof using L1 L2.
  intros [p Hp] H1 H2 q c E. destruct (L1 h c1 p H1 Hp) as (c1' & E1 & H1').
  destruct (L2 h c2 p H2 Hp) as (c2' & E2 & H2'). rewrite E in E1. injection E1 as -> ->. eauto.
Qed.

Lemma tracked_tail b infos : tracked (P := P) (b :: infos) → is_Some (P (bb_height b)) ∧ tracked (P := P) infos.
Proof. intros Ht. split; [apply Ht; left|]. intros x Hx. apply Ht. by right. Qed.

Lemma agree_prevote_loop g m infos c1 c2 :
  tracked (P := P) infos → R1 c1 → R2 c2 → agree (prevote_loop g m infos c1) (prevote_loop g m infos c2).
Proof using L1 L2.
  revert c1 c2. induction infos as [|b infos IH]; intros c1 c2 Ht H1 H2; cbn [prevote_loop]; [by apply agree_ret|].
  destruct (tracked_tail _ _ Ht) as [Hb Ht']. destruct (_ <? _); [by apply agree_ret|].
  apply agree_bind; [by apply agree_GetParameters|]. intros p c1' c2' H1' H2'. cbn.
  destruct (BFTValidators_Get _ _); [|by apply agree_fail].
  apply agree_bind; [by apply IH|]. intros. by apply agree_ret.
Qed.

Lemma agree_precommit_loop g m has infos active c1 c2 :
  tracked (P := P) infos → R1 c1 → R2 c2 →
  agree (precommit_loop g m has infos active c1) (precommit_loop g m has infos active c2).
Proof using L1 L2.
  revert has active c1 c2. induction infos as [|b infos IH]; intros has active c1 c2 Ht H1 H2;
    cbn [precommit_loop]; [by apply agree_ret|].
  destruct (tracked_tail _ _ Ht) as [Hb Ht']. destruct (_ <? _); [by apply agree_ret|].
  apply agree_bind; [by apply agree_GetParameters|]. intros p c1' c2' H1' H2'. cbn.
  destruct (_ <=? _); [destruct (BFTValidators_Get _ _); [|by apply agree_fail]|].
  - apply agree_bind; [by apply IH|]. intros [? ?] ? ? ? ?. by apply agree_ret.
  - apply agree_bind; [by apply IH|]. intros [? ?] ? ? ? ?. by apply agree_ret.
Qed.

Lemma agree_prevoted_loop infos v c1 c2 :
  tracked (P := P) infos → R1 c1 → R2 c2 → agree (prevoted_loop infos v c1) (prevoted_loop infos v c2).
Proof using L1 L2.
  revert c1 c2. induction infos as [|b infos IH]; intros c1 c2 Ht H1 H2; cbn [prevoted_loop]; [by apply agree_ret|].
  destruct (tracked_tail _ _ Ht) as [Hb Ht'].
  apply agree_bind; [by apply agree_GetParameters|]. intros p c1' c2' H1' H2'. cbn.
  destruct (_ <=? _); [by apply agree_ret|by apply IH].
Qed.

Lemma agree_precommitted_loop infos v c1 c2 :
  tracked (P := P) infos → R1 c1 → R2 c2 → agree (precommitted_loop infos v c1) (precommitted_loop infos v c2).
Proof using L1 L2.
  revert c1 c2. induction infos as [|b infos IH]; intros c1 c2 Ht H1 H2; cbn [precommitted_loop]; [by apply agree_ret|].
  destruct (tracked_tail _ _ Ht) as [Hb Ht'].
  apply agree_bind; [by apply agree_GetParameters|]. intros p c1' c2' H1' H2'. cbn.
  destruct (_ <=? _); [by apply agree_ret|by apply IH].
Qed.

Lemma agree_updatePrevotesPrecommits v c1 c2 :
  tracked (P := P) (vt_blockBFTInfos v) → R1 c1 → R2 c2 →
  agree (updatePrevotesPrecommits v c1) (updatePrevotesPrecommits v c2).
Proof using L1 L2.
  intros Ht H1 H2. unfold updatePrevotesPrecommits.
  destruct (vt_blockBFTInfos v) as [|b0 rest] eqn:Ei; [by apply agree_ret|].
  destruct (_ <=? _); [by apply agree_ret|]. destruct (ActiveValidators_get _ _); [|by apply agree_ret].
  destruct (getHeightNotPrevoted v); try by apply agree_fail. cbn [mbind res_bind].
  rewrite Ints.Max_3. cbn [mbind res_bind].
  intros x c E.
  destruct (precommit_loop _ _ _ (b0 :: rest) _ c1) as [[[l act] c1']| | |] eqn:E1; try done.
  destruct (agree_precommit_loop _ _ _ _ _ c1 c2 Ht H1 H2 _ _ E1) as [H1' (c2' & E2 & H2')]. rewrite E2.
  cbn [mbind res_bind] in *. rewrite Ints.Max_2 in E |- *. cbn [mbind res_bind] in *.
  revert x c E. apply agree_bind; [|intros; by apply agree_ret]. apply agree_prevote_loop; [|done..].
  apply precommit_loop_shape in E1 as [Eh _]. intros b Hb.
  apply (list_elem_of_fmap_2 bb_height) in Hb. rewrite Eh in Hb. apply list_elem_of_fmap in Hb as (y & -> & Hy).
  by apply Ht.
Qed.

Lemma tracked_heights infos infos' :
  bb_height <$> infos' = bb_height <$> infos → tracked (P := P) infos → tracked (P := P) infos'.
Proof.
  intros Eh Ht b Hb. apply (list_elem_of_fmap_2 bb_height) in Hb. rewrite Eh in Hb.
  apply list_elem_of_fmap in Hb as (y & -> & Hy). by apply Ht.
Qed.

Lemma agree_update_votes header v c1 c2 :
  tracked (P := P) (vt_blockBFTInfos v) → R1 c1 → R2 c2 →
  agree (update_votes header v c1) (update_votes header v c2).
Proof using L1 L2.
  intros Ht H1 H2 x c E. unfold update_votes in *.
  destruct (updatePrevotesPrecommits v c1) as [[v1 c1']| | |] eqn:E1; try done. cbn [mbind res_bind] in E.
  destruct (agree_updatePrevotesPrecommits v c1 c2 Ht H1 H2 _ _ E1) as [H1' (c2' & -> & H2')]. cbn [mbind res_bind].
  assert (tracked (P := P) (vt_blockBFTInfos v1)) as Ht1.
  { apply updatePrevotesPrecommits_shape in E1 as [Eh _]. by eapply tracked_heights. }
  unfold updateMaxHeightPrevoted in *. destruct (prevoted_loop _ v1 c1') as [[v2 d1]| | |] eqn:E2; try done.
  destruct (agree_prevoted_loop _ v1 c1' c2' Ht1 H1' H2' _ _ E2) as [D1 (d2 & -> & D2)]. cbn [mbind res_bind] in *.
  assert (tracked (P := P) (vt_blockBFTInfos v2)) as Ht2
    by (by apply prevoted_loop_shape in E2 as [->|(b & _ & ->)]).
  revert x c E. apply agree_bind; [by apply agree_precommitted_loop|]. intros v3 e1 e2 F1 F2.
  cbn. destruct (updateMaxHeightCertified header v3); try by apply agree_fail. by apply agree_ret.
Qed.
End sources.
