(* ===== verification/VotesInv.v ===== *)
(** * VotesInv: the invariant of the vote counting

    The weights counted for a tracked header are the weights of sets of
    distinct validators whose tracked blocks imply the votes.  Blocks and
    changes of the parameters preserve this, the prevoted and precommitted
    heights never decrease, and a verified header is always processed. *)

From S2P Require Import Prelude Collection Crypto BlockTypes ForkChoice BFTTypes Votes VotesSpec.

(** The height of the last block, as [SetBFTParameters] computes it. *)
Definition current (v : BFTVotes) : Z :=
  match vt_blockBFTInfos v with b :: _ => bb_height b | [] => vt_maxHeightPrevoted v end.

(** [voters h] are the validators whose votes for height [h] were counted. *)
Definition counted (P : Z → option BFTParams) (infos : list BFTBlockHeader)
    (weight : BFTBlockHeader → Z) (voters : Z → list bytes) : Prop :=
  ∀ b, b ∈ infos →
  NoDup (voters (bb_height b)) ∧
  (∀ a, a ∈ voters (bb_height b) →
     is_validator P (bb_height b) a ∧ implies_vote infos a (bb_height b)) ∧
  weight b = voters_weight (validators_at P (bb_height b)) (voters (bb_height b)).

Record active_ok (P : Z → option BFTParams) (v : BFTVotes) (pc : Z → list bytes) (a : bytes)
    (av : ActiveValidator) : Prop := {
  act_min : 0 ≤ av_minActiveHeight av;
  act_largest : 0 ≤ av_largestHeightPrecommit av ≤ current v;
  act_validator : ∀ h, av_minActiveHeight av ≤ h → is_Some (P h) → is_validator P h a;
  act_precommits : ∀ b, b ∈ vt_blockBFTInfos v → a ∈ pc (bb_height b) →
    bb_height b ≤ av_largestHeightPrecommit av ∨ bb_height b < av_minActiveHeight av;
}.

(** [m] is the height of a header with quorum if that header is tracked. *)
Definition reached (q : BFTBlockHeader → bool) (infos : list BFTBlockHeader) (m : Z) : Prop :=
  ∀ b, b ∈ infos → bb_height b = m → q b = true.
(** No tracked header above [m] has a quorum. *)
Definition highest (q : BFTBlockHeader → bool) (infos : list BFTBlockHeader) (m : Z) : Prop :=
  ∀ b, b ∈ infos → q b = true → bb_height b ≤ m.

Record votes_inv (P : Z → option BFTParams) (v : BFTVotes) (pv pc : Z → list bytes) : Prop := {
  inv_consecutive : consecutive (vt_blockBFTInfos v);
  inv_separated : separated (vt_blockBFTInfos v);
  inv_height : ∀ b, b ∈ vt_blockBFTInfos v → 1 ≤ bb_height b;
  inv_generated : ∀ b, b ∈ vt_blockBFTInfos v → 0 ≤ bb_maxHeightGenerated b;
  inv_mhp : ∀ b, b ∈ vt_blockBFTInfos v → bb_maxHeightPrevoted b ≤ vt_maxHeightPrevoted v;
  inv_current : 0 ≤ current v < MaxUint32;
  inv_params : ∀ h p, P h = Some p → params_ok p;
  inv_tracked : ∀ b, b ∈ vt_blockBFTInfos v → is_Some (P (bb_height b));
  inv_future : ∀ h, current v < h → P h = P (current v + 1);
  inv_prevotes : counted P (vt_blockBFTInfos v) bb_prevoteWeight pv;
  inv_precommits : counted P (vt_blockBFTInfos v) bb_precommitWeight pc;
  inv_justified : ∀ b, b ∈ vt_blockBFTInfos v → pc (bb_height b) ≠ [] → prevote_quorum P b = true;
  inv_active : ∀ a av, ActiveValidators_get a (vt_activeValidatorsVoteInfo v) = Some av →
    active_ok P v pc a av;
  inv_prevoted : reached (prevote_quorum P) (vt_blockBFTInfos v) (vt_maxHeightPrevoted v);
  inv_precommitted : reached (precommit_quorum P) (vt_blockBFTInfos v) (vt_maxHeightPrecommited v);
  inv_order : vt_maxHeightPrecommited v ≤ vt_maxHeightPrevoted v ≤ current v;
}.

Definition votes_tight (P : Z → option BFTParams) (v : BFTVotes) : Prop :=
  highest (prevote_quorum P) (vt_blockBFTInfos v) (vt_maxHeightPrevoted v) ∧
  highest (precommit_quorum P) (vt_blockBFTInfos v) (vt_maxHeightPrecommited v).

(** ** Quorum heights *)

(** The first header that satisfies [q] is the highest one. *)
Lemma head_filter_spec (q : BFTBlockHeader → bool) infos :
  consecutive infos →
  match head (filter q infos) with
  | None => ∀ b, b ∈ infos → q b = false
  | Some b => b ∈ infos ∧ q b = true ∧ ∀ b', b' ∈ infos → q b' = true → bb_height b' ≤ bb_height b
  end.
Proof.
  intros Hc. induction infos as [|x infos IH]; [by intros ? ?%not_elem_of_nil|].
  specialize (IH (consecutive_tail _ _ Hc)). rewrite filter_cons. destruct (q x) eqn:Hx.
  - rewrite decide_True by done. cbn. split; [left|]. split; [done|].
    intros b' [->|Hb']%elem_of_cons _; [lia|]. pose proof (consecutive_le x infos b' Hc Hb'). lia.
  - rewrite decide_False by tauto. destruct (head (filter q infos)) as [y|].
    + destruct IH as (Hy & Hqy & Hmax). split; [by right|]. split; [done|].
      intros b' [->|Hb']%elem_of_cons Hq; [congruence|by apply Hmax].
    + intros b [->|Hb]%elem_of_cons; [done|by apply IH].
Qed.

Lemma first_height_spec q infos m :
  consecutive infos → reached q infos m →
  (∀ b, b ∈ infos → bb_height b < m → ∃ b', b' ∈ infos ∧ bb_height b' = m) →
  let m' := first_height q infos m in
  m ≤ m' ∧ reached q infos m' ∧ highest q infos m' ∧ (m' = m ∨ ∃ b, b ∈ infos ∧ bb_height b = m').
Proof.
  intros Hc Hr Hin. unfold first_height. pose proof (head_filter_spec q infos Hc) as Hf.
  destruct (filter q infos) as [|b f]; cbn in *.
  - split_and!; [done|done| |by left]. intros b Hb Hq. by rewrite Hf in Hq.
  - destruct Hf as (Hb & Hq & Hmax). split_and!.
    + destruct (decide (bb_height b < m)) as [Hlt|]; [|lia].
      destruct (Hin b Hb Hlt) as (b' & Hb' & <-). apply Hmax; [done|]. by apply Hr.
    + intros b' Hb' E. by rewrite (consecutive_inj infos b' b).
    + intros b' Hb' Hq'. by apply Hmax.
    + right. eauto.
Qed.

(** ** Inserting a header *)

Definition header_ok (v : BFTVotes) (header : BlockHeader) : Prop :=
  bh_Height header = current v + 1 ∧ bh_Height header < MaxUint32 ∧
  u32_ok (bh_MaxHeightGenerated header) ∧
  bh_MaxHeightPrevoted header = vt_maxHeightPrevoted v ∧
  contradicting v (NewBFTBlockHeader header) = false ∧
  is_Some (bh_AggregateCommit header).

(** A header that extends the chain and does not contradict an older header of
    its generator acknowledges it. *)
Lemma not_contradicting_acknowledges b header :
  bb_generatorAddress b = bh_GeneratorAddress header →
  bb_height b < bh_Height header → bb_maxHeightPrevoted b ≤ bh_MaxHeightPrevoted header →
  AreDistinctHeadersContradicting (partial b) (NewBFTBlockHeader header) = false →
  bb_height b ≤ bh_MaxHeightGenerated header.
Proof.
  intros Hg Hh Hp. unfold AreDistinctHeadersContradicting, partial, NewBFTBlockHeader.
  cbn [pb_Height pb_GeneratorAddress pb_MaxHeightGenerated pb_MaxHeightPrevoted].
  rewrite Hg. split_bools; cbn [orb andb negb]; unfold bytes_equal; rewrite ?bool_decide_true by done;
    cbn [negb]; split_bools; cbn; intros Hc; cbn in *; (lia || done).
Qed.

Lemma contradicting_loop_latest infos hd :
  contradicting_loop infos hd = false → ∀ b, b ∈ infos → bb_generatorAddress b = pb_GeneratorAddress hd →
  ∃ i j b', infos !! i = Some b' ∧ infos !! j = Some b ∧ (i ≤ j)%nat ∧
    bb_generatorAddress b' = pb_GeneratorAddress hd ∧ AreDistinctHeadersContradicting (partial b') hd = false.
Proof.
  induction infos as [|x infos IH]; intros Hn b Hb Hg; [by apply not_elem_of_nil in Hb|].
  cbn in Hn. unfold bytes_equal in Hn. case_bool_decide as Ex.
  - apply list_elem_of_lookup in Hb as [j Hj]. exists 0%nat, j, x. split_and!; [done..|lia|done|done].
  - apply elem_of_cons in Hb as [->|Hb]; [done|].
    destruct (IH Hn b Hb Hg) as (i & j & b' & Hi & Hj & Hij & Hr). exists (S i), (S j), b'.
    split_and!; [done..|lia|apply Hr|apply Hr].
Qed.

Lemma header_acknowledges P v pv pc header b :
  votes_inv P v pv pc → header_ok v header → b ∈ vt_blockBFTInfos v →
  bb_generatorAddress b = bh_GeneratorAddress header → bb_height b ≤ bh_MaxHeightGenerated header.
Proof.
  intros Hinv (Hh & _ & _ & Hp & Hcon & _) Hb Hg.
  destruct (contradicting_loop_latest _ _ Hcon b Hb Hg) as (i & j & b' & Hi & Hj & Hij & Hg' & Hc).
  destruct (vt_blockBFTInfos v) as [|b0 rest] eqn:E; [by apply not_elem_of_nil in Hb|].
  pose proof (inv_consecutive _ _ _ _ Hinv) as Hcons. rewrite E in Hcons.
  pose proof (consecutive_lookup _ i b0 b' Hcons eq_refl Hi).
  pose proof (consecutive_lookup _ j b0 b Hcons eq_refl Hj).
  assert (current v = bb_height b0) as Hcur by (unfold current; by rewrite E).
  assert (bb_height b' ≤ bh_MaxHeightGenerated header); [|lia].
  apply not_contradicting_acknowledges; [done|lia| |done].
  rewrite Hp. apply (inv_mhp _ _ _ _ Hinv). rewrite E. by eapply list_elem_of_lookup_2.
Qed.

Definition at_new (h : Z) (voters : Z → list bytes) : Z → list bytes :=
  λ x, if decide (x = h) then [] else voters x.

Lemma insertBlockBFTInfo_Ok header maxLength v :
  1 ≤ maxLength → ∃ k, insertBlockBFTInfo header maxLength v
    = Ok (set_infos (new_info header :: take k (vt_blockBFTInfos v)) v).
Proof.
  intros Hm. unfold insertBlockBFTInfo. rewrite Ints.Min_2. cbn [mbind res_bind].
  pose proof (len_nonneg (vt_blockBFTInfos v)).
  destruct (Z.ltb_spec ((len (vt_blockBFTInfos v) + 1) `min` maxLength) 1); [lia|].
  destruct (Z.to_nat ((len (vt_blockBFTInfos v) + 1) `min` maxLength)) as [|k] eqn:E; [lia|]. by exists k.
Qed.

Lemma consecutive_cons x infos k :
  consecutive infos → (∀ b rest, infos = b :: rest → bb_height x = bb_height b + 1) →
  consecutive (x :: take k infos).
Proof.
  intros Hc Hx. destruct infos as [|b rest]; [by destruct k|]. destruct k as [|k]; [done|].
  split; [by eapply Hx|]. by apply (consecutive_take (S k)).
Qed.

(** A vote for a header that stays tracked comes from a block that stays. *)
Lemma implies_vote_insert x infos k a b :
  consecutive infos → b ∈ take k infos → implies_vote infos a (bb_height b) →
  implies_vote (x :: take k infos) a (bb_height b).
Proof.
  intros Hc (i & Hi & Hk)%elem_of_take (b' & [j Hj]%list_elem_of_lookup & Hg & Hr).
  destruct infos as [|b0 rest]; [done|].
  pose proof (consecutive_lookup _ i b0 b Hc eq_refl Hi).
  pose proof (consecutive_lookup _ j b0 b' Hc eq_refl Hj).
  exists b'. split; [|done]. right. apply elem_of_take. exists j. split; [done|lia].
Qed.

Lemma counted_insert P infos weight voters x k :
  consecutive infos → (∀ b, b ∈ infos → bb_height b < bb_height x) → weight x = 0 →
  counted P infos weight voters →
  counted P (x :: take k infos) weight (at_new (bb_height x) voters).
Proof.
  intros Hc Hlt H0 Hcount b [->|Hb]%elem_of_cons; unfold at_new.
  - rewrite decide_True by done. split; [constructor|]. split; [|done].
    by intros a ?%not_elem_of_nil.
  - pose proof Hb as (i & Hi & _)%elem_of_take. apply list_elem_of_lookup_2 in Hi.
    rewrite decide_False by (specialize (Hlt b Hi); lia).
    destruct (Hcount b Hi) as (Hnd & Hvot & Hw). split; [done|]. split; [|done].
    intros a Ha. destruct (Hvot a Ha) as [? ?]. split; [done|]. by apply implies_vote_insert.
Qed.

Section insert.
Context (P : Z → option BFTParams) (v : BFTVotes) (pv pc : Z → list bytes) (header : BlockHeader).
Context (Hinv : votes_inv P v pv pc) (Hhd : header_ok v header) (k : nat).
Context (Hparams : is_Some (P (bh_Height header))).

Abbreviation x := (new_info header).
Abbreviation v1 := (set_infos (x :: take k (vt_blockBFTInfos v)) v).

Lemma elem_take b : b ∈ take k (vt_blockBFTInfos v) → b ∈ vt_blockBFTInfos v.
Proof. intros (i & Hi & _)%elem_of_take. by eapply list_elem_of_lookup_2. Qed.

Lemma old_below b : b ∈ vt_blockBFTInfos v → bb_height b < bh_Height header.
Proof using Hhd Hinv.
  intros Hb. destruct Hhd as [Hh _]. pose proof (inv_consecutive _ _ _ _ Hinv) as Hc.
  unfold current in Hh. destruct (vt_blockBFTInfos v) as [|b0 rest]; [by apply not_elem_of_nil in Hb|].
  apply elem_of_cons in Hb as [->|Hb]; [lia|]. pose proof (consecutive_le b0 rest b Hc Hb). lia.
Qed.

Lemma insert_separated : separated (vt_blockBFTInfos v1).
Proof using Hhd Hinv.
  cbn. intros [|i] [|j] b b' Hij Hi Hj Hg; [lia| |lia|].
  - injection Hi as <-. cbn in *. apply (header_acknowledges P v pv pc); [done|done| |done].
    apply elem_take. by eapply list_elem_of_lookup_2.
  - cbn in Hi, Hj. apply lookup_take_Some in Hi as [Hi _], Hj as [Hj _].
    eapply (inv_separated _ _ _ _ Hinv i j); [lia|done..].
Qed.

Lemma prevote_quorum_new : prevote_quorum P x = false ∧ precommit_quorum P x = false.
Proof using Hinv Hparams.
  unfold prevote_quorum, precommit_quorum, prevote_threshold, precommit_threshold.
  destruct Hparams as [p Hp]. cbn [bb_height new_info bb_prevoteWeight bb_precommitWeight].
  rewrite Hp. destruct (inv_params _ _ _ _ Hinv _ _ Hp) as (_ & _ & ? & ?). zbool. lia.
Qed.

Lemma insert_inv :
  votes_inv P v1 (at_new (bh_Height header) pv) (at_new (bh_Height header) pc).
Proof using Hhd Hinv Hparams.
  pose proof Hhd as (Hh & Hu & Hmg & Hmp & _ & _). pose proof (inv_current _ _ _ _ Hinv).
  pose proof (inv_order _ _ _ _ Hinv). pose proof prevote_quorum_new as [Hq1 Hq2].
  assert (current v1 = current v + 1) as Hcur by done.
  split; cbn [vt_blockBFTInfos vt_maxHeightPrevoted vt_maxHeightPrecommited
    vt_activeValidatorsVoteInfo set_infos].
  - apply consecutive_cons; [apply Hinv|]. intros b rest E. cbn. rewrite Hh. unfold current. by rewrite E.
  - apply insert_separated.
  - intros b [->|Hb%elem_take]%elem_of_cons; [cbn; lia|]. by apply (inv_height _ _ _ _ Hinv).
  - intros b [->|Hb%elem_take]%elem_of_cons; [cbn; apply Hmg|]. by apply (inv_generated _ _ _ _ Hinv).
  - intros b [->|Hb%elem_take]%elem_of_cons; [cbn; lia|]. by apply (inv_mhp _ _ _ _ Hinv).
  - rewrite Hcur. lia.
  - apply Hinv.
  - intros b [->|Hb%elem_take]%elem_of_cons; [done|]. by apply (inv_tracked _ _ _ _ Hinv).
  - rewrite Hcur. intros h Hlt. rewrite (inv_future _ _ _ _ Hinv h) by lia.
    by rewrite (inv_future _ _ _ _ Hinv (current v + 1 + 1)) by lia.
  - apply counted_insert; [apply Hinv|apply old_below|done|apply Hinv].
  - apply counted_insert; [apply Hinv|apply old_below|done|apply Hinv].
  - intros b [->|Hb%elem_take]%elem_of_cons; unfold at_new; [by rewrite decide_True|].
    rewrite decide_False by (pose proof (old_below b Hb); lia). by apply (inv_justified _ _ _ _ Hinv).
  - intros a av Ha. destruct (inv_active _ _ _ _ Hinv a av Ha) as [H1 H2 H3 H4].
    split; [done|rewrite Hcur; lia|done|]. intros b [->|Hb%elem_take]%elem_of_cons; unfold at_new.
    + rewrite decide_True by done. by intros ?%not_elem_of_nil.
    + rewrite decide_False by (pose proof (old_below b Hb); lia). by apply H4.
  - intros b [->|Hb%elem_take]%elem_of_cons; [cbn; lia|]. by apply (inv_prevoted _ _ _ _ Hinv).
  - intros b [->|Hb%elem_take]%elem_of_cons; [cbn; lia|]. by apply (inv_precommitted _ _ _ _ Hinv).
  - rewrite Hcur. lia.
Qed.
End insert.

(** ** Counting the votes of a block *)

Definition same_header (f : BFTBlockHeader → BFTBlockHeader) : Prop :=
  ∀ b, bb_height (f b) = bb_height b ∧ bb_generatorAddress (f b) = bb_generatorAddress b ∧
       bb_maxHeightGenerated (f b) = bb_maxHeightGenerated b ∧
       bb_maxHeightPrevoted (f b) = bb_maxHeightPrevoted b.

Lemma same_header_prevoted P g m : same_header (prevoted_by P g m).
Proof. intros b. unfold prevoted_by. by destruct (_ <=? _). Qed.

Lemma same_header_precommitted P g m : same_header (precommitted_by P g m).
Proof. intros b. unfold precommitted_by. by destruct (precommits _ _ _). Qed.

Lemma implies_vote_map f infos a h :
  same_header f → implies_vote (f <$> infos) a h ↔ implies_vote infos a h.
Proof.
  intros Hf. split.
  - intros (b & (b' & -> & Hb)%list_elem_of_fmap & Hg & Hr). exists b'.
    destruct (Hf b') as (E1 & E2 & E3 & _). rewrite E1, E3 in Hr. rewrite E2 in Hg. done.
  - intros (b & Hb & Hg & Hr). exists (f b). destruct (Hf b) as (E1 & E2 & E3 & _).
    rewrite E1, E2, E3. split; [by apply list_elem_of_fmap_2|done].
Qed.

Lemma separated_map f infos : same_header f → separated infos → separated (f <$> infos).
Proof.
  intros Hf Hs i j b b' Hij Hi Hj Hg. rewrite list_lookup_fmap in Hi, Hj.
  destruct (infos !! i) as [x|] eqn:Ei; [|done]. destruct (infos !! j) as [y|] eqn:Ej; [|done].
  injection Hi as <-. injection Hj as <-. destruct (Hf x) as (_ & E2 & E3 & _), (Hf y) as (F1 & F2 & _).
  rewrite E3, F1. rewrite E2, F2 in Hg. by eapply Hs.
Qed.

Definition add_voter (sel : Z → bool) (g : bytes) (voters : Z → list bytes) : Z → list bytes :=
  λ h, if sel h then g :: voters h else voters h.

Lemma validators_at_ok P h :
  (∀ h p, P h = Some p → params_ok p) →
  weights_ok (validators_at P h) ∧ total_weight (validators_at P h) < 2 ^ 64.
Proof.
  intros Hp. unfold validators_at. destruct (P h) as [p|] eqn:E; [|split; [constructor|done]].
  destruct (Hp h p E) as (? & ? & _). done.
Qed.

Lemma counted_add P infos weight voters f sel g :
  (∀ h p, P h = Some p → params_ok p) → same_header f → counted P infos weight voters →
  (∀ b, b ∈ infos → sel (bb_height b) = true →
     is_validator P (bb_height b) g ∧ implies_vote infos g (bb_height b) ∧ g ∉ voters (bb_height b)) →
  (∀ b, b ∈ infos → weight (f b) = if sel (bb_height b)
     then u64 (weight b + weight_in (validators_at P (bb_height b)) g) else weight b) →
  counted P (f <$> infos) weight (add_voter sel g voters).
Proof.
  intros Hp Hf Hc Hsel Hw b (x & -> & Hx)%list_elem_of_fmap. destruct (Hf x) as [E _]. rewrite E.
  destruct (Hc x Hx) as (Hnd & Hvot & Hwx). rewrite (Hw x Hx). specialize (Hsel x Hx).
  unfold add_voter. destruct (sel (bb_height x)).
  - destruct (Hsel eq_refl) as (Hval & Himp & Hg).
    assert (NoDup (g :: voters (bb_height x))) as Hnd' by (by constructor).
    split; [done|]. split.
    + intros a [->|Ha]%elem_of_cons; rewrite implies_vote_map by done; [done|by apply Hvot].
    + destruct (validators_at_ok P (bb_height x) Hp) as [Hwok Htot].
      pose proof (voters_weight_le _ _ Hwok Hnd'). pose proof (voters_weight_nonneg _ (g :: voters (bb_height x)) Hwok).
      cbn [voters_weight] in *. rewrite Hwx, u64_small by (unfold u64_ok; lia). lia.
  - split; [done|]. split; [|done]. intros a Ha. rewrite implies_vote_map by done. by apply Hvot.
Qed.

Lemma counted_mono P infos weight voters f sel g b :
  (∀ h p, P h = Some p → params_ok p) → same_header f →
  counted P infos weight voters → counted P (f <$> infos) weight (add_voter sel g voters) →
  b ∈ infos → weight b ≤ weight (f b).
Proof.
  intros Hp Hf Hc Hc' Hb. destruct (Hc b Hb) as (_ & _ & E1).
  destruct (Hc' (f b)) as (_ & _ & E2); [by apply list_elem_of_fmap_2|].
  destruct (Hf b) as [Eh _]. rewrite Eh in E2. rewrite E1, E2.
  destruct (validators_at_ok P (bb_height b) Hp) as [Hwok _].
  pose proof (weight_in_nonneg _ g Hwok). unfold add_voter. destruct (sel _); cbn; lia.
Qed.

Lemma get_set_largest a g h active :
  ActiveValidators_get a (set_largestHeightPrecommit g h active)
  = if bytes_equal g a
    then (λ av, mkActiveValidator (av_address av) (av_minActiveHeight av) h) <$> ActiveValidators_get a active
    else ActiveValidators_get a active.
Proof.
  unfold bytes_equal. induction active as [|x active IH]; cbn; [by case_bool_decide|].
  unfold bytes_equal. destruct (decide (av_address x = g)) as [E1|E1].
  - rewrite (bool_decide_true (av_address x = g)) by done. cbn. unfold bytes_equal. rewrite E1.
    destruct (decide (g = a)); [rewrite !bool_decide_true by done; cbn; by rewrite E1|by rewrite !bool_decide_false].
  - rewrite (bool_decide_false (av_address x = g)) by done. cbn. unfold bytes_equal. rewrite IH.
    destruct (decide (av_address x = a)) as [E2|E2]; [|by rewrite (bool_decide_false (av_address x = a))].
    rewrite (bool_decide_true (av_address x = a)) by done.
    by rewrite bool_decide_false by congruence.
Qed.

Lemma counted_take P infos weight voters k :
  consecutive infos → counted P infos weight voters → counted P (take k infos) weight voters.
Proof.
  intros Hc Hcount b Hb. pose proof Hb as (i & Hi & Hk)%elem_of_take.
  destruct (Hcount b) as (Hnd & Hvot & Hw); [by eapply list_elem_of_lookup_2|].
  split; [done|]. split; [|done]. intros a Ha. destruct (Hvot a Ha) as [Hv Himp]. split; [done|].
  destruct Himp as (b' & [j Hj]%list_elem_of_lookup & Hg & Hr).
  destruct infos as [|b0 rest]; [done|].
  pose proof (consecutive_lookup _ i b0 b Hc eq_refl Hi).
  pose proof (consecutive_lookup _ j b0 b' Hc eq_refl Hj).
  exists b'. split; [|done]. apply elem_of_take. exists j. split; [done|lia].
Qed.

Section vote.
Context (P : Z → option BFTParams) (v : BFTVotes) (pv pc : Z → list bytes).
Context (b0 : BFTBlockHeader) (rest : list BFTBlockHeader) (av : ActiveValidator) (r : Z).
Context (Hinv : votes_inv P v pv pc) (Hinfos : vt_blockBFTInfos v = b0 :: rest).
(** The counted prevotes come from older blocks. *)
Context (Hnew : pv (bb_height b0) = []) (Hrest : counted P rest bb_prevoteWeight pv).
Context (Hav : ActiveValidators_get (bb_generatorAddress b0) (vt_activeValidatorsVoteInfo v) = Some av).
Context (Hr : not_prevoted_spec (vt_blockBFTInfos v) b0 r).

Abbreviation infos := (vt_blockBFTInfos v).
Abbreviation g := (bb_generatorAddress b0).
Abbreviation m1 := (av_minActiveHeight av `max` ((r + 1) `max` (av_largestHeightPrecommit av + 1))).
Abbreviation m2 := ((bb_maxHeightGenerated b0 + 1) `max` av_minActiveHeight av).

Definition precommitted_at (h : Z) : bool :=
  existsb (λ b, (bb_height b =? h) && precommits P m1 b) infos.
Abbreviation pv' := (add_voter (λ h, m2 <=? h) g pv).
Abbreviation pc' := (add_voter precommitted_at g pc).
Abbreviation f1 := (precommitted_by P g m1).
Abbreviation f2 := (prevoted_by P g m2).

Lemma precommitted_at_tracked b : b ∈ infos → precommitted_at (bb_height b) = precommits P m1 b.
Proof using Hinv.
  intros Hb. unfold precommitted_at. apply eq_true_iff_eq. rewrite existsb_exists. split.
  - intros (x & Hx%list_elem_of_In & [E%Z.eqb_eq Hp]%andb_true_iff).
    by rewrite (consecutive_inj _ b x (inv_consecutive _ _ _ _ Hinv) Hb Hx).
  - intros Hp. exists b. split; [by apply list_elem_of_In|]. by rewrite Z.eqb_refl.
Qed.

Lemma active_g : active_ok P v pc g av.
Proof using Hav Hinv. by apply (inv_active _ _ _ _ Hinv). Qed.

Lemma top_height b : b ∈ infos → bb_height b ≤ bb_height b0.
Proof using Hinfos Hinv.
  pose proof (inv_consecutive _ _ _ _ Hinv) as Hc. rewrite Hinfos in Hc |- *.
  intros [->|Hb]%elem_of_cons; [lia|]. pose proof (consecutive_le b0 rest b Hc Hb). lia.
Qed.

Lemma validator_g b m : b ∈ infos → av_minActiveHeight av ≤ m → m ≤ bb_height b → is_validator P (bb_height b) g.
Proof using Hav Hinv.
  intros Hb Hm Hle. apply (act_validator _ _ _ _ _ active_g); [lia|]. by apply (inv_tracked _ _ _ _ Hinv).
Qed.

Lemma vote_precommits : counted P (f1 <$> infos) bb_precommitWeight pc'.
Proof using Hav Hinfos Hinv Hr.
  apply counted_add; [apply Hinv|apply same_header_precommitted|apply Hinv|..].
  - intros b Hb. rewrite precommitted_at_tracked by done. unfold precommits.
    intros [Hm%Z.leb_le _]%andb_true_iff. split; [eapply validator_g; [done| |done]; lia|]. split.
    + apply Hr. pose proof (top_height b Hb). lia.
    + intros Hin. destruct (act_precommits _ _ _ _ _ active_g b Hb Hin); lia.
  - intros b Hb. rewrite precommitted_at_tracked by done. unfold precommitted_by.
    by destruct (precommits P m1 b).
Qed.

Lemma vote_fresh b : b ∈ infos → m2 ≤ bb_height b → g ∉ pv (bb_height b).
Proof using Hinfos Hinv Hnew Hrest.
  intros Hb Hm Hin. pose proof Hb as Hb'. rewrite Hinfos in Hb'. apply elem_of_cons in Hb' as [->|Hb'].
  - rewrite Hnew in Hin. by apply not_elem_of_nil in Hin.
  - destruct (Hrest b Hb') as (_ & Hvot & _). destruct (Hvot g Hin) as [_ (b' & Hb2 & Hg & Hr2)].
    assert (b0 ∈ infos) as Hb0 by (rewrite Hinfos; left).
    assert (b' ∈ infos) as Hb3 by (rewrite Hinfos; by right).
    pose proof (inv_consecutive _ _ _ _ Hinv) as Hc.
    pose proof (separated_height _ b0 b' Hc (inv_separated _ _ _ _ Hinv) Hb0 Hb3 (eq_sym Hg)) as Hle.
    rewrite Hinfos in Hc. pose proof (consecutive_le b0 rest b' Hc Hb2). lia.
Qed.

Lemma counted_same weight voters f l :
  same_header f → (∀ b, weight (f b) = weight b) → counted P l weight voters → counted P (f <$> l) weight voters.
Proof.
  intros Hf Hw Hc b (x & -> & Hx)%list_elem_of_fmap. destruct (Hf x) as [E _]. rewrite E, Hw.
  destruct (Hc x Hx) as (? & Hv & ?). split; [done|]. split; [|done].
  intros a Ha. rewrite implies_vote_map by done. by apply Hv.
Qed.

Lemma vote_prevotes : counted P (f2 <$> (f1 <$> infos)) bb_prevoteWeight pv'.
Proof using Hav Hinfos Hinv Hnew Hrest.
  assert (same_header f1) as Hf1 by apply same_header_precommitted.
  apply counted_add; [apply Hinv|apply same_header_prevoted| |..].
  - apply counted_same; [done| |apply Hinv]. intros b. unfold precommitted_by. by destruct (precommits _ _ _).
  - intros b' (b & -> & Hb)%list_elem_of_fmap. destruct (Hf1 b) as [E _]. rewrite E.
    intros Hm%Z.leb_le. split; [eapply validator_g; [done| |done]; lia|].
    split; [|by apply vote_fresh]. apply implies_vote_map; [done|]. exists b0.
    split; [rewrite Hinfos; left|]. split; [done|]. pose proof (top_height b Hb). lia.
  - intros b _. unfold prevoted_by. by destruct (m2 <=? bb_height b).
Qed.

Abbreviation v2 := (set_active (record_precommit (P := P) g m1 infos (vt_activeValidatorsVoteInfo v))
                     (set_infos (f2 <$> (f1 <$> infos)) v)).

Lemma same_header_f : same_header (λ b, f2 (f1 b)).
Proof.
  intros b. destruct (same_header_prevoted P g m2 (f1 b)) as (-> & -> & -> & ->).
  apply same_header_precommitted.
Qed.

Lemma vote_elem b : b ∈ f2 <$> (f1 <$> infos) → ∃ x, b = f2 (f1 x) ∧ x ∈ infos ∧ bb_height b = bb_height x.
Proof.
  intros (y & -> & (x & -> & Hx)%list_elem_of_fmap)%list_elem_of_fmap. exists x.
  split; [done|]. split; [done|]. apply same_header_f.
Qed.

Lemma vote_quorum b :
  b ∈ infos → (prevote_quorum P b = true → prevote_quorum P (f2 (f1 b)) = true) ∧
              (precommit_quorum P b = true → precommit_quorum P (f2 (f1 b)) = true).
Proof using Hav Hinfos Hinv Hnew Hr Hrest.
  intros Hb. destruct (same_header_f b) as [E _].
  assert (bb_prevoteWeight (f1 b) = bb_prevoteWeight b) as E1
    by (unfold precommitted_by; by destruct (precommits _ _ _)).
  assert (bb_precommitWeight (f2 (f1 b)) = bb_precommitWeight (f1 b)) as E2
    by (unfold prevoted_by; by destruct (_ <=? _)).
  unfold prevote_quorum, precommit_quorum. rewrite E, E2, !Z.leb_le. split; intros Hq.
  - etrans; [exact Hq|]. rewrite <-E1.
    apply (counted_mono P (f1 <$> infos) _ pv f2 (λ h, m2 <=? h) g); [apply Hinv|apply same_header_prevoted| | |].
    + apply counted_same; [apply same_header_precommitted| |apply Hinv].
      intros x. unfold precommitted_by. by destruct (precommits _ _ _).
    + apply vote_prevotes.
    + by apply list_elem_of_fmap_2.
  - etrans; [exact Hq|].
    apply (counted_mono P infos _ pc f1 precommitted_at g); [apply Hinv|apply same_header_precommitted| | |done].
    + apply Hinv.
    + apply vote_precommits.
Qed.

Lemma vote_active a av' :
  ActiveValidators_get a (record_precommit (P := P) g m1 infos (vt_activeValidatorsVoteInfo v)) = Some av' →
  active_ok P v2 pc' a av'.
Proof using Hav Hinfos Hinv Hr.
  intros Ha. assert (current v2 = current v) as Hcur.
  { unfold current. cbn [vt_blockBFTInfos set_active set_infos]. rewrite Hinfos. cbn. apply same_header_f. }
  assert (∀ b, b ∈ infos → a ∈ pc' (bb_height b) → a ∈ pc (bb_height b) ∨ (a = g ∧ precommits P m1 b = true)) as Hcase.
  { intros b Hb. unfold add_voter. rewrite precommitted_at_tracked by done.
    destruct (precommits P m1 b); [|by left]. intros [->|?]%elem_of_cons; [by right|by left]. }
  pose proof (head_filter_spec (precommits P m1) infos (inv_consecutive _ _ _ _ Hinv)) as Hfirst.
  unfold record_precommit, first_precommit in Ha.
  destruct (head (filter (precommits P m1) infos)) as [b1|].
  - rewrite get_set_largest in Ha. unfold bytes_equal in Ha. case_bool_decide as E.
    + subst a. rewrite Hav in Ha. injection Ha as <-. destruct active_g as [H1 H2 H3 H4].
      destruct Hfirst as (Hb1 & Hp1 & Hmax). pose proof Hp1 as [Hm1%Z.leb_le _]%andb_true_iff.
      split; cbn [av_minActiveHeight av_largestHeightPrecommit]; [done| |done|].
      * rewrite Hcur. unfold current. rewrite Hinfos. pose proof (top_height b1 Hb1).
        pose proof (inv_height _ _ _ _ Hinv b1 Hb1). lia.
      * intros b (x & -> & Hx & Eh)%vote_elem. rewrite Eh. intros [Hin|[_ Hp]]%Hcase; [|left; by apply Hmax|done].
        destruct (H4 x Hx Hin); lia.
    + destruct (inv_active _ _ _ _ Hinv a av' Ha) as [H1 H2 H3 H4]. split; [done|by rewrite Hcur|done|].
      intros b (x & -> & Hx & Eh)%vote_elem. rewrite Eh. intros [Hin|[-> _]]%Hcase; [by apply H4|done|done].
  - destruct (inv_active _ _ _ _ Hinv a av' Ha) as [H1 H2 H3 H4]. split; [done|by rewrite Hcur|done|].
    intros b (x & -> & Hx & Eh)%vote_elem. rewrite Eh. intros [Hin|[_ Hp]]%Hcase; [by apply H4| |done].
    by rewrite Hfirst in Hp.
Qed.

Lemma vote_inv : votes_inv P v2 pv' pc'.
Proof using Hav Hinfos Hinv Hnew Hr Hrest.
  assert (current v2 = current v) as Hcur.
  { unfold current. cbn [vt_blockBFTInfos set_active set_infos]. rewrite Hinfos. cbn. apply same_header_f. }
  assert (same_header f1) as Hf1 by apply same_header_precommitted.
  assert (same_header f2) as Hf2 by apply same_header_prevoted.
  split; rewrite ?Hcur; cbn [vt_blockBFTInfos vt_maxHeightPrevoted vt_maxHeightPrecommited
    vt_activeValidatorsVoteInfo set_infos set_active]; try apply Hinv.
  - apply consecutive_map; [apply Hf2|]. apply consecutive_map; [apply Hf1|apply Hinv].
  - apply separated_map; [done|]. apply separated_map; [done|apply Hinv].
  - intros b (x & -> & Hx & ->)%vote_elem. by apply (inv_height _ _ _ _ Hinv).
  - intros b (x & -> & Hx & _)%vote_elem. destruct (same_header_f x) as (_ & _ & -> & _).
    by apply (inv_generated _ _ _ _ Hinv).
  - intros b (x & -> & Hx & _)%vote_elem. destruct (same_header_f x) as (_ & _ & _ & ->).
    by apply (inv_mhp _ _ _ _ Hinv).
  - intros b (x & -> & Hx & ->)%vote_elem. by apply (inv_tracked _ _ _ _ Hinv).
  - apply vote_prevotes.
  - apply counted_same; [done| |apply vote_precommits]. intros b. unfold prevoted_by. by destruct (_ <=? _).
  - intros b (x & -> & Hx & ->)%vote_elem. unfold add_voter. rewrite precommitted_at_tracked by done.
    intros Hne. apply vote_quorum; [done|]. destruct (precommits P m1 x) eqn:Ep.
    + by apply andb_true_iff in Ep as [_ ?].
    + by apply (inv_justified _ _ _ _ Hinv).
  - apply vote_active.
  - intros b (x & -> & Hx & ->)%vote_elem E. apply vote_quorum; [done|]. by apply (inv_prevoted _ _ _ _ Hinv).
  - intros b (x & -> & Hx & ->)%vote_elem E. apply vote_quorum; [done|]. by apply (inv_precommitted _ _ _ _ Hinv).
Qed.
End vote.

(** ** Processing a block *)

Lemma consecutive_between infos b b0 rest m :
  infos = b0 :: rest → consecutive infos → b ∈ infos → bb_height b < m → m ≤ bb_height b0 →
  ∃ b', b' ∈ infos ∧ bb_height b' = m.
Proof.
  intros Hi Hc [i Hb]%list_elem_of_lookup Hlt Hle.
  pose proof (consecutive_lookup infos i b0 b Hc ltac:(by rewrite Hi) Hb) as E.
  destruct (lookup_lt_is_Some_2 infos (Z.to_nat (bb_height b0 - m))) as [b' Hb'].
  { apply lookup_lt_Some in Hb. lia. }
  exists b'. split; [by eapply list_elem_of_lookup_2|].
  rewrite (consecutive_lookup infos _ b0 b' Hc ltac:(by rewrite Hi) Hb'). lia.
Qed.

Section process.
Context {C : Type} `{ParamsLaws C P R}.
Implicit Types (v : BFTVotes) (c : C).

Lemma updatePrevotesPrecommits_inv v c pv pc b0 rest :
  votes_inv P v pv pc → R c → vt_blockBFTInfos v = b0 :: rest →
  pv (bb_height b0) = [] → counted P rest bb_prevoteWeight pv →
  ∃ v' c' pv' pc', updatePrevotesPrecommits v c = Ok (v', c') ∧ R c' ∧ votes_inv P v' pv' pc' ∧
    vt_blockBFTInfos v' ≠ [] ∧ current v' = current v ∧
    vt_maxHeightPrevoted v' = vt_maxHeightPrevoted v ∧
    vt_maxHeightPrecommited v' = vt_maxHeightPrecommited v.
Proof.
  intros Hinv Hc Hi Hnew Hrest. unfold updatePrevotesPrecommits. rewrite Hi.
  assert (vt_blockBFTInfos v ≠ []) by (by rewrite Hi).
  destruct (Z.leb_spec (bb_height b0) (bb_maxHeightGenerated b0)) as [|Hlt]; [by exists v, c, pv, pc|].
  destruct (ActiveValidators_get _ _) as [av|] eqn:Hav; [|by exists v, c, pv, pc].
  assert (b0 ∈ vt_blockBFTInfos v) as Hb0 by (rewrite Hi; left).
  assert (current v = bb_height b0) as Hcur by (unfold current; by rewrite Hi).
  pose proof (inv_current _ _ _ _ Hinv) as Hcr. pose proof (inv_active _ _ _ _ Hinv _ _ Hav) as [A1 A2 A3 A4].
  destruct (getHeightNotPrevoted_Ok v b0 rest) as (r & -> & Hr); [done|apply Hinv|apply Hinv| |apply Hinv|done|].
  { intros b Hb. pose proof (inv_height _ _ _ _ Hinv b Hb).
    pose proof (top_height P v pv pc b0 rest Hinv Hi b Hb). unfold MaxUint32 in *. lia. }
  pose proof Hr as [Hr1 _]. cbn [mbind res_bind]. rewrite Ints.Max_3. cbn [mbind res_bind].
  assert (0 ≤ bb_height b0 - len (vt_blockBFTInfos v)) as Hbot.
  { destruct (lookup_lt_is_Some_2 (vt_blockBFTInfos v) (pred (length (vt_blockBFTInfos v)))) as [b Hb];
      [rewrite Hi; cbn; lia|].
    pose proof (consecutive_lookup _ _ b0 b (inv_consecutive _ _ _ _ Hinv) ltac:(by rewrite Hi) Hb) as E.
    apply list_elem_of_lookup_2, (inv_height _ _ _ _ Hinv) in Hb. revert E Hb. rewrite Hi. unfold len. cbn. lia. }
  pose proof (inv_generated _ _ _ _ Hinv b0 Hb0).
  rewrite !u32_small by (unfold u32_ok, MaxUint32 in *; lia).
  set (m1 := av_minActiveHeight av `max` _).
  destruct (precommit_loop_spec (bb_generatorAddress b0) m1 false (b0 :: rest)
    (vt_activeValidatorsVoteInfo v) c) as (c1 & -> & Hc1); [done|rewrite <-Hi; apply Hinv|..].
  { rewrite <-Hi. exact (inv_tracked _ _ _ _ Hinv). }
  { rewrite <-Hi. intros b Hb Hm. apply A3; [lia|]. by apply (inv_tracked _ _ _ _ Hinv). }
  cbn [mbind res_bind]. rewrite Ints.Max_2. cbn [mbind res_bind].
  set (m2 := (bb_maxHeightGenerated b0 + 1) `max` _).
  destruct (prevote_loop_spec (bb_generatorAddress b0) m2
    (precommitted_by P (bb_generatorAddress b0) m1 <$> b0 :: rest) c1) as (c2 & -> & Hc2); [done|..].
  { apply consecutive_map; [apply same_header_precommitted|]. rewrite <-Hi. apply Hinv. }
  { intros b (x & -> & Hx)%list_elem_of_fmap. destruct (same_header_precommitted P (bb_generatorAddress b0) m1 x) as [-> _].
    apply (inv_tracked _ _ _ _ Hinv). by rewrite Hi. }
  { intros b (x & -> & Hx)%list_elem_of_fmap. destruct (same_header_precommitted P (bb_generatorAddress b0) m1 x) as [-> _].
    intros Hm. apply A3; [lia|]. apply (inv_tracked _ _ _ _ Hinv). by rewrite Hi. }
  cbn [mbind res_bind]. eexists _, c2, _, _. split; [done|]. split; [done|].
  rewrite <-Hi. split; [eapply (vote_inv P v pv pc b0 rest av r); done|].
  split; [by rewrite Hi|]. split; [|done]. rewrite Hcur. unfold current. cbn. rewrite Hi. cbn.
  apply same_header_f.
Qed.

Lemma updateMaxHeightPrevoted_inv v c pv pc :
  votes_inv P v pv pc → R c → vt_blockBFTInfos v ≠ [] →
  ∃ c' m, updateMaxHeightPrevoted v c = Ok (set_maxHeightPrevoted m v, c') ∧ R c' ∧
    votes_inv P (set_maxHeightPrevoted m v) pv pc ∧
    highest (prevote_quorum P) (vt_blockBFTInfos v) m ∧ vt_maxHeightPrevoted v ≤ m.
Proof.
  intros Hinv Hc Hne. destruct (prevoted_loop_spec (vt_blockBFTInfos v) v c Hc) as (c' & E & Hc').
  { exact (inv_tracked _ _ _ _ Hinv). }
  exists c'. eexists. split; [exact E|]. split; [done|]. clear E.
  destruct (vt_blockBFTInfos v) as [|b0 rest] eqn:Ei; [done|].
  assert (current v = bb_height b0) as Hcur by (unfold current; by rewrite Ei).
  pose proof (inv_order _ _ _ _ Hinv) as Ho. pose proof (inv_consecutive _ _ _ _ Hinv) as Hcons.
  destruct (first_height_spec (prevote_quorum P) (vt_blockBFTInfos v) (vt_maxHeightPrevoted v))
    as (Hle & Hreach & Hhigh & Hm); [done|apply Hinv| |].
  { intros b Hb Hlt. eapply consecutive_between; [done|done|done|done|]. lia. }
  rewrite Ei in *. set (m := first_height _ _ _) in *. split; [|done].
  assert (m ≤ current v).
  { destruct Hm as [->|(b & Hb & <-)]; [lia|]. rewrite Hcur.
    apply elem_of_cons in Hb as [->|Hb]; [lia|]. pose proof (consecutive_le b0 rest b Hcons Hb). lia. }
  assert (current (set_maxHeightPrevoted m v) = current v) as Hcur' by (unfold current; cbn; by rewrite Ei).
  destruct Hinv. split; rewrite ?Hcur'; cbn [vt_blockBFTInfos vt_maxHeightPrevoted vt_maxHeightPrecommited
    vt_activeValidatorsVoteInfo set_maxHeightPrevoted]; rewrite ?Ei in *; try done.
  - intros b Hb. specialize (inv_mhp0 b Hb). lia.
  - intros a av Ha. destruct (inv_active0 a av Ha) as [A1 A2 A3 A4]. by split; rewrite ?Hcur'.
  - lia.
Qed.

Lemma updateMaxHeightPrecommitted_inv v c pv pc :
  votes_inv P v pv pc → R c → vt_blockBFTInfos v ≠ [] →
  highest (prevote_quorum P) (vt_blockBFTInfos v) (vt_maxHeightPrevoted v) →
  ∃ c' m, updateMaxHeightPrecommitted v c = Ok (set_maxHeightPrecommited m v, c') ∧ R c' ∧
    votes_inv P (set_maxHeightPrecommited m v) pv pc ∧
    highest (precommit_quorum P) (vt_blockBFTInfos v) m ∧ vt_maxHeightPrecommited v ≤ m.
Proof.
  intros Hinv Hc Hne Hhp. destruct (precommitted_loop_spec (vt_blockBFTInfos v) v c Hc) as (c' & E & Hc').
  { exact (inv_tracked _ _ _ _ Hinv). }
  exists c'. eexists. split; [exact E|]. split; [done|]. clear E.
  destruct (vt_blockBFTInfos v) as [|b0 rest] eqn:Ei; [done|].
  assert (current v = bb_height b0) as Hcur by (unfold current; by rewrite Ei).
  pose proof (inv_order _ _ _ _ Hinv) as Ho. pose proof (inv_consecutive _ _ _ _ Hinv) as Hcons.
  destruct (first_height_spec (precommit_quorum P) (vt_blockBFTInfos v) (vt_maxHeightPrecommited v))
    as (Hle & Hreach & Hhigh & Hm); [done|apply Hinv| |].
  { intros b Hb Hlt. eapply consecutive_between; [done|done|done|done|]. lia. }
  rewrite <-Ei in *. set (m := first_height _ _ _) in *. split; [|done].
  assert (m ≤ vt_maxHeightPrevoted v).
  { destruct Hm as [->|(b & Hb & Em)]; [lia|]. rewrite <-Em. apply Hhp; [done|].
    apply (inv_justified _ _ _ _ Hinv); [done|]. intros Hnil.
    destruct (inv_precommits _ _ _ _ Hinv b Hb) as (_ & _ & Hw). rewrite Hnil in Hw. cbn in Hw.
    pose proof (Hreach b Hb Em) as Hq%Z.leb_le. unfold precommit_threshold in Hq.
    destruct (inv_tracked _ _ _ _ Hinv b Hb) as [p Hp]. rewrite Hp in Hq.
    destruct (inv_params _ _ _ _ Hinv _ _ Hp) as (_ & _ & _ & ?). lia. }
  assert (current (set_maxHeightPrecommited m v) = current v) as Hcur' by done.
  destruct Hinv. split; rewrite ?Hcur'; cbn [vt_blockBFTInfos vt_maxHeightPrevoted vt_maxHeightPrecommited
    vt_activeValidatorsVoteInfo set_maxHeightPrecommited]; try done.
  - intros a av Ha. destruct (inv_active0 a av Ha) as [A1 A2 A3 A4]. by split.
  - lia.
Qed.

Lemma set_maxHeightCertified_inv v pv pc h :
  votes_inv P v pv pc → votes_inv P (set_maxHeightCertified h v) pv pc.
Proof.
  intros [].
  assert (current (set_maxHeightCertified h v) = current v) as Hcur by done.
  split; rewrite ?Hcur; try done.
  intros a av Ha. destruct (inv_active0 a av Ha) as [A1 A2 A3 A4]. by split.
Qed.
End process.
