(* ===== verification/BFTSafety.v ===== *)
(** * BFTSafety: reachable vote states and what they guarantee

    The vote states a chain goes through, from the genesis votes by blocks that
    pass the checks of verifyBlock and by changes of the BFT parameters, and
    the properties of all of them: counted weights belong to distinct
    validators, the heights are monotone, processing never fails, and two
    chains with conflicting quorums expose contradicting headers. *)

From S2P Require Import Prelude Collection Crypto BlockTypes ForkChoice BFTTypes Votes VotesSpec VotesInv.

(** ** One block *)

Lemma process_block {C} `{ParamsLaws C P R} v c pv pc header maxLength :
  votes_inv P v pv pc → R c → header_ok v header → is_Some (P (bh_Height header)) → 1 ≤ maxLength →
  ∃ v1 v' c' pv' pc', insertBlockBFTInfo header maxLength v = Ok v1 ∧
    update_votes header v1 c = Ok (v', c') ∧ R c' ∧ votes_inv P v' pv' pc' ∧ votes_tight P v' ∧
    current v' = bh_Height header ∧ vt_maxHeightPrevoted v ≤ vt_maxHeightPrevoted v' ∧
    vt_maxHeightPrecommited v ≤ vt_maxHeightPrecommited v'.
Proof.
  intros Hinv Hc Hhd Hp Hm. destruct (insertBlockBFTInfo_Ok header maxLength v Hm) as [k Hk].
  pose proof (insert_inv P v pv pc header Hinv Hhd k Hp) as Hinv1. rewrite Hk.
  set (v1 := set_infos _ v) in *. exists v1. unfold update_votes.
  destruct (updatePrevotesPrecommits_inv v1 c _ _ (new_info header) (take k (vt_blockBFTInfos v)) Hinv1)
    as (v2 & c2 & pv2 & pc2 & -> & Hc2 & Hinv2 & Hne2 & Hcur2 & Hmp2 & Hmc2); [done|done|..].
  { unfold at_new. by rewrite decide_True. }
  { intros b Hb. pose proof (old_below P v pv pc header Hinv Hhd b (elem_take v k b Hb)).
    unfold at_new. rewrite decide_False by lia.
    by apply (counted_take P (vt_blockBFTInfos v)); [apply Hinv..|]. }
  cbn [mbind res_bind].
  destruct (updateMaxHeightPrevoted_inv v2 c2 pv2 pc2) as (c3 & m & -> & Hc3 & Hinv3 & Hhigh & Hle); [done..|].
  cbn [mbind res_bind]. set (v3 := set_maxHeightPrevoted m v2) in *.
  destruct (updateMaxHeightPrecommitted_inv v3 c3 pv2 pc2) as (c4 & m' & -> & Hc4 & Hinv4 & Hhigh' & Hle'); [done..|].
  cbn [mbind res_bind]. set (v4 := set_maxHeightPrecommited m' v3) in *.
  assert (current v4 = bh_Height header) as Hcur4.
  { assert (current v4 = current v2) as ->; [|by rewrite Hcur2].
    unfold current. cbn. by destruct (vt_blockBFTInfos v2). }
  change (vt_maxHeightPrevoted v1) with (vt_maxHeightPrevoted v) in Hmp2.
  change (vt_maxHeightPrecommited v1) with (vt_maxHeightPrecommited v) in Hmc2.
  change (vt_maxHeightPrecommited v3) with (vt_maxHeightPrecommited v2) in Hle'.
  assert (vt_maxHeightPrevoted v ≤ vt_maxHeightPrevoted v4) by (cbn; lia).
  assert (vt_maxHeightPrecommited v ≤ vt_maxHeightPrecommited v4) by (cbn; lia).
  destruct Hhd as (_ & _ & _ & _ & _ & [commit Hcommit]). unfold updateMaxHeightCertified. rewrite Hcommit.
  destruct (_ && _); cbn [mbind res_bind]; eexists _, c4, pv2, pc2; (split; [done|]); (split; [done|]);
    (split; [done|]); (split; [done || by apply set_maxHeightCertified_inv|]); done.
Qed.

(** ** Changing the parameters *)

(** New parameters hold from the height after [height]. *)
Definition set_params (height : Z) (p : BFTParams) (P : Z → option BFTParams) : Z → option BFTParams :=
  λ h, if height <? h then Some p else P h.

Definition consenter (nextHeight : Z) (active : list ActiveValidator) (a : bytes) : ActiveValidator :=
  match ActiveValidators_get a active with
  | Some originalConsenter => originalConsenter
  | None => mkActiveValidator a nextHeight (u32 (nextHeight - 1))
  end.

Lemma get_address a active av : ActiveValidators_get a active = Some av → av_address av = a ∧ av ∈ active.
Proof.
  induction active as [|x active IH]; cbn; [done|]. unfold bytes_equal. case_bool_decide as E.
  - intros [= <-]. split; [done|left].
  - intros [? ?]%IH. split; [done|by right].
Qed.

Lemma consenter_address n active a : av_address (consenter n active a) = a.
Proof.
  unfold consenter. destruct (ActiveValidators_get a active) as [av|] eqn:E; [|done].
  by destruct (get_address a active av E).
Qed.

Lemma get_next_active n validators active a av :
  ActiveValidators_get a (next_active n validators active) = Some av →
  av = consenter n active a ∧ is_Some (BFTValidators_Get a validators).
Proof.
  intros [Ea Hin]%get_address. unfold next_active, ActiveValidators_sort in Hin.
  apply elem_of_sort_slice, list_elem_of_fmap in Hin as (bv & -> & Hbv).
  fold (consenter n active (bv_address bv)) in *. rewrite consenter_address in Ea. subst a.
  split; [done|]. clear -Hbv. induction validators as [|x validators IH]; [by apply not_elem_of_nil in Hbv|].
  cbn. unfold bytes_equal. case_bool_decide; [eauto|]. apply IH.
  by apply elem_of_cons in Hbv as [->|].
Qed.

Section set_params.
Context (P : Z → option BFTParams) (v : BFTVotes) (pv pc : Z → list bytes) (p : BFTParams).
Context (Hinv : votes_inv P v pv pc) (Hp : params_ok p).

Abbreviation P' := (set_params (current v) p P).
Abbreviation v' := (set_active (next_active (current v + 1) (bp_validators p)
                                 (vt_activeValidatorsVoteInfo v)) v).

Lemma set_params_old b : b ∈ vt_blockBFTInfos v → P' (bb_height b) = P (bb_height b).
Proof using Hinv.
  intros Hb. unfold set_params. rewrite (proj2 (Z.ltb_ge _ _)); [done|].
  destruct (vt_blockBFTInfos v) as [|b0 rest] eqn:E; [by apply not_elem_of_nil in Hb|].
  unfold current. rewrite E, <-E in *. by eapply (top_height P v pv pc b0 rest).
Qed.

Lemma set_params_counted weight voters :
  counted P (vt_blockBFTInfos v) weight voters → counted P' (vt_blockBFTInfos v) weight voters.
Proof using Hinv.
  intros Hc b Hb. destruct (Hc b Hb) as (Hnd & Hv & Hw). unfold is_validator, validators_at in *.
  rewrite set_params_old by done. done.
Qed.

Lemma set_params_quorum b :
  b ∈ vt_blockBFTInfos v →
  prevote_quorum P' b = prevote_quorum P b ∧ precommit_quorum P' b = precommit_quorum P b.
Proof using Hinv.
  intros Hb. unfold prevote_quorum, precommit_quorum, prevote_threshold, precommit_threshold.
  by rewrite set_params_old.
Qed.

Lemma set_params_active a av :
  ActiveValidators_get a (vt_activeValidatorsVoteInfo v') = Some av → active_ok P' v' pc a av.
Proof using Hinv.
  intros [-> Hval]%get_next_active. pose proof (inv_current _ _ _ _ Hinv).
  assert (∀ h, current v < h → is_validator P' h a) as Hnew.
  { intros h Hh. unfold is_validator, validators_at, set_params. by rewrite (proj2 (Z.ltb_lt _ _)). }
  assert (current v' = current v) as Hcur by done.
  unfold consenter. destruct (ActiveValidators_get a _) as [av|] eqn:E.
  - destruct (inv_active _ _ _ _ Hinv a av E) as [A1 A2 A3 A4]. split; [done|done| |done].
    intros h Hh. destruct (decide (current v < h)) as [|Hle]; [by intros; apply Hnew|].
    assert (P' h = P h) as EP by (unfold set_params; by rewrite (proj2 (Z.ltb_ge _ _)) by lia).
    unfold is_validator, validators_at. rewrite EP. by apply A3.
  - rewrite u32_small by (unfold u32_ok, MaxUint32 in *; lia).
    split; rewrite ?Hcur; cbn [av_minActiveHeight av_largestHeightPrecommit]; [lia|lia| |].
    + intros h Hh _. apply Hnew. lia.
    + intros b Hb _. right. cbn in Hb. destruct (vt_blockBFTInfos v) as [|b0 rest] eqn:Ei;
        [by apply not_elem_of_nil in Hb|].
      rewrite <-Ei in Hb. pose proof (top_height P v pv pc b0 rest Hinv Ei b Hb).
      unfold current. rewrite Ei. lia.
Qed.

Lemma set_params_inv : votes_inv P' v' pv pc.
Proof using Hinv Hp.
  assert (current v' = current v) as Hcur by done.
  split; rewrite ?Hcur; cbn [vt_blockBFTInfos vt_maxHeightPrevoted vt_maxHeightPrecommited set_active];
    try apply Hinv.
  - intros h q. unfold set_params. destruct (_ <? _); [by intros [= <-]|]. apply Hinv.
  - intros b Hb. rewrite set_params_old by done. by apply (inv_tracked _ _ _ _ Hinv).
  - intros h Hh. unfold set_params. by rewrite !(proj2 (Z.ltb_lt _ _)) by lia.
  - apply set_params_counted, Hinv.
  - apply set_params_counted, Hinv.
  - intros b Hb. rewrite (proj1 (set_params_quorum b Hb)). by apply (inv_justified _ _ _ _ Hinv).
  - apply set_params_active.
  - intros b Hb. rewrite (proj1 (set_params_quorum b Hb)). by apply (inv_prevoted _ _ _ _ Hinv).
  - intros b Hb. rewrite (proj2 (set_params_quorum b Hb)). by apply (inv_precommitted _ _ _ _ Hinv).
Qed.

Lemma set_params_tight : votes_tight P v → votes_tight P' v'.
Proof using Hinv.
  intros [H1 H2]. split; intros b Hb; cbn in Hb |- *.
  - rewrite (proj1 (set_params_quorum b Hb)). by apply H1.
  - rewrite (proj2 (set_params_quorum b Hb)). by apply H2.
Qed.
End set_params.

(** ** Reachable states *)

(** The state: the parameters of each height and the votes. *)
Inductive vote_step (maxLength : Z) : (Z → option BFTParams) * BFTVotes → (Z → option BFTParams) * BFTVotes → Prop :=
| step_block P v header v1 v' :
    header_ok v header → is_Some (P (bh_Height header)) →
    insertBlockBFTInfo header maxLength v = Ok v1 → update_votes header v1 P = Ok (v', P) →
    vote_step maxLength (P, v) (P, v')
| step_params P v p :
    params_ok p →
    vote_step maxLength (P, v)
      (set_params (current v) p P,
       set_active (next_active (current v + 1) (bp_validators p) (vt_activeValidatorsVoteInfo v)) v).

Inductive reachable (maxLength : Z) : (Z → option BFTParams) * BFTVotes → Prop :=
| reach_genesis height :
    0 ≤ height < MaxUint32 → reachable maxLength (λ _, None, genesis_votes height)
| reach_step s s' : reachable maxLength s → vote_step maxLength s s' → reachable maxLength s'.

Lemma genesis_inv height :
  0 ≤ height < MaxUint32 → votes_inv (λ _, None) (genesis_votes height) (λ _, []) (λ _, []).
Proof.
  intros Hh. split; cbn; try done; try (by intros b ?%not_elem_of_nil).
  all: unfold current; cbn; lia.
Qed.

Lemma reachable_inv maxLength P v :
  1 ≤ maxLength → reachable maxLength (P, v) →
  (∃ pv pc, votes_inv P v pv pc) ∧ votes_tight P v.
Proof.
  intros Hm. remember (P, v) as s eqn:Es. intros Hr. revert P v Es.
  induction Hr as [height Hh|s s' Hr IH Hs]; intros P v Es.
  - injection Es as <- <-. split; [eexists _, _; by apply genesis_inv|].
    split; intros b ?%not_elem_of_nil; done.
  - destruct Hs as [P0 v0 header v1 v' Hhd Hp Hins Hup|P0 v0 p Hp]; injection Es as <- <-;
      destruct (IH P0 v0 eq_refl) as [(pv & pc & Hinv) Htight].
    + destruct (process_block (R := λ c, c = P0) v0 P0 pv pc header maxLength Hinv eq_refl Hhd Hp Hm)
        as (v1' & v'' & c' & pv' & pc' & Hins' & Hup' & _ & Hinv' & Ht & _).
      rewrite Hins in Hins'. injection Hins' as <-. rewrite Hup in Hup'. injection Hup' as <- <-. eauto.
    + split; [exists pv, pc; by apply set_params_inv|by eapply set_params_tight].
Qed.

(** ** Properties of reachable states *)

(** C7: in every reachable state the prevote weight of a tracked header is
    exactly the weight of a set of pairwise distinct validators of its height,
    each of which has a tracked block that implies a prevote for it: no
    validator is counted twice, and the uint64 sum never wraps. *)
Theorem prevotes_of_distinct_validators maxLength P v b :
  1 ≤ maxLength → reachable maxLength (P, v) → b ∈ vt_blockBFTInfos v →
  ∃ voters, NoDup voters ∧
    (∀ a, a ∈ voters → is_validator P (bb_height b) a ∧ implies_vote (vt_blockBFTInfos v) a (bb_height b)) ∧
    bb_prevoteWeight b = voters_weight (validators_at P (bb_height b)) voters ∧
    bb_prevoteWeight b ≤ total_weight (validators_at P (bb_height b)).
Proof.
  intros Hm Hr Hb. destruct (reachable_inv _ _ _ Hm Hr) as [(pv & pc & Hinv) _].
  destruct (inv_prevotes _ _ _ _ Hinv b Hb) as (Hnd & Hv & Hw). eexists. split_and!; [done..|].
  rewrite Hw. apply voters_weight_le; [|done]. apply validators_at_ok, Hinv.
Qed.

(** C8: the precommit weight of a tracked header is the weight of a set of
    pairwise distinct validators of its height, each with a tracked block that
    implies a prevote for it, and a header without prevote quorum has no
    precommits. *)
Theorem precommits_of_distinct_validators maxLength P v b :
  1 ≤ maxLength → reachable maxLength (P, v) → b ∈ vt_blockBFTInfos v →
  (∃ voters, NoDup voters ∧
    (∀ a, a ∈ voters → is_validator P (bb_height b) a ∧ implies_vote (vt_blockBFTInfos v) a (bb_height b)) ∧
    bb_precommitWeight b = voters_weight (validators_at P (bb_height b)) voters ∧
    bb_precommitWeight b ≤ total_weight (validators_at P (bb_height b))) ∧
  (prevote_quorum P b = false → bb_precommitWeight b = 0).
Proof.
  intros Hm Hr Hb. destruct (reachable_inv _ _ _ Hm Hr) as [(pv & pc & Hinv) _].
  destruct (inv_precommits _ _ _ _ Hinv b Hb) as (Hnd & Hv & Hw). split.
  - eexists. split_and!; [done..|]. rewrite Hw. apply voters_weight_le; [|done].
    apply validators_at_ok, Hinv.
  - intros Hq. rewrite Hw. destruct (pc (bb_height b)) eqn:E; [done|].
    rewrite (inv_justified _ _ _ _ Hinv b Hb) in Hq; [done|]. by rewrite E.
Qed.

(** C10: in every reachable state the precommitted height is at most the prevoted
    height, which is at most the height of the chain; each of the two is the
    largest tracked height with the respective quorum, if any tracked height
    at or above it has one. *)
Theorem quorum_heights_exact maxLength P v :
  1 ≤ maxLength → reachable maxLength (P, v) →
  vt_maxHeightPrecommited v ≤ vt_maxHeightPrevoted v ≤ current v ∧
  (∀ b, b ∈ vt_blockBFTInfos v →
    (prevote_quorum P b = true → bb_height b ≤ vt_maxHeightPrevoted v) ∧
    (bb_height b = vt_maxHeightPrevoted v → prevote_quorum P b = true) ∧
    (precommit_quorum P b = true → bb_height b ≤ vt_maxHeightPrecommited v) ∧
    (bb_height b = vt_maxHeightPrecommited v → precommit_quorum P b = true)).
Proof.
  intros Hm Hr. destruct (reachable_inv _ _ _ Hm Hr) as [(pv & pc & Hinv) [H1 H2]].
  split; [apply Hinv|]. intros b Hb. split_and!; [by apply H1|by apply (inv_prevoted _ _ _ _ Hinv)|
    by apply H2|by apply (inv_precommitted _ _ _ _ Hinv)].
Qed.

(** C9: a header that passes the checks of verifyBlock is always processed:
    inserting it and updating the votes returns without error or panic,
    whatever source gives the parameters, the votes then end at the new height,
    and neither the prevoted nor the precommitted height (finality) decreases. *)
Theorem votes_progress {C} `{ParamsLaws C P R} maxLength v c header :
  1 ≤ maxLength → reachable maxLength (P, v) → R c → header_ok v header →
  is_Some (P (bh_Height header)) →
  ∃ v1 v' c', insertBlockBFTInfo header maxLength v = Ok v1 ∧ update_votes header v1 c = Ok (v', c') ∧
    current v' = bh_Height header ∧
    vt_maxHeightPrevoted v ≤ vt_maxHeightPrevoted v' ∧
    vt_maxHeightPrecommited v ≤ vt_maxHeightPrecommited v'.
Proof.
  intros Hm Hr Hc Hhd Hp. destruct (reachable_inv _ _ _ Hm Hr) as [(pv & pc & Hinv) _].
  destruct (process_block v c pv pc header maxLength Hinv Hc Hhd Hp Hm)
    as (v1 & v' & c' & _ & _ & ? & ? & _ & _ & _ & ? & ? & ?). eauto 10.
Qed.

(** Votes for one height by blocks of two chains contradict each other. *)
Lemma votes_contradict x x' a h :
  bb_generatorAddress x = a → bb_generatorAddress x' = a →
  bb_maxHeightGenerated x < h ≤ bb_height x → bb_maxHeightGenerated x' < h ≤ bb_height x' →
  AreDistinctHeadersContradicting (partial x) (partial x') = true.
Proof.
  intros Hg Hg' H1 H2. unfold AreDistinctHeadersContradicting, partial.
  cbn [pb_Height pb_GeneratorAddress pb_MaxHeightGenerated pb_MaxHeightPrevoted]. rewrite Hg, Hg'.
  split_bools; cbn [orb andb negb]; unfold bytes_equal; rewrite ?bool_decide_true by done;
    cbn [negb]; split_bools; cbn in *; done || lia.
Qed.

(** C1: accountable safety of prevotes: if two chains, with the same validators
    at some height, both collect a prevote quorum for a header at that height,
    then validators whose weight is at least what two quorums exceed the total
    by (more than a third, with the threshold the engine sets) each have a
    block on either chain such that the two blocks are contradicting headers. *)
Theorem conflicting_quorums_expose_contradictions maxLength P v P' v' b b' :
  1 ≤ maxLength → reachable maxLength (P, v) → reachable maxLength (P', v') →
  b ∈ vt_blockBFTInfos v → b' ∈ vt_blockBFTInfos v' → bb_height b = bb_height b' →
  P (bb_height b) = P' (bb_height b) → prevote_quorum P b = true → prevote_quorum P' b' = true →
  ∃ culprits, NoDup culprits ∧
    2 * prevote_threshold P (bb_height b) - total_weight (validators_at P (bb_height b))
      ≤ voters_weight (validators_at P (bb_height b)) culprits ∧
    ∀ a, a ∈ culprits → is_validator P (bb_height b) a ∧
      ∃ x x', x ∈ vt_blockBFTInfos v ∧ x' ∈ vt_blockBFTInfos v' ∧
        bb_height b ≤ bb_height x ∧ bb_height b ≤ bb_height x' ∧
        bb_generatorAddress x = a ∧ bb_generatorAddress x' = a ∧
        AreDistinctHeadersContradicting (partial x) (partial x') = true.
Proof.
  intros Hm Hr Hr' Hb Hb' Hh HP Hq Hq'.
  destruct (reachable_inv _ _ _ Hm Hr) as [(pv & pc & Hinv) _].
  destruct (reachable_inv _ _ _ Hm Hr') as [(pv' & pc' & Hinv') _].
  destruct (inv_prevotes _ _ _ _ Hinv b Hb) as (Hnd & Hv & Hw).
  destruct (inv_prevotes _ _ _ _ Hinv' b' Hb') as (Hnd' & Hv' & Hw').
  apply Z.leb_le in Hq, Hq'. rewrite <-Hh in *. set (h := bb_height b) in *.
  assert (validators_at P' h = validators_at P h) as EV by (unfold validators_at; by rewrite HP).
  assert (prevote_threshold P' h = prevote_threshold P h) as ET by (unfold prevote_threshold; by rewrite HP).
  rewrite EV in Hw'. rewrite ET in Hq'.
  exists (filter (λ a, a ∈ pv' h) (pv h)). split; [by apply NoDup_filter|]. split.
  - destruct (validators_at_ok P h (inv_params _ _ _ _ Hinv)) as [Hok _].
    pose proof (quorum_overlap _ _ _ Hok Hnd Hnd'). lia.
  - intros a [Ha' Ha]%list_elem_of_filter. destruct (Hv a Ha) as [Hval (x & Hx & Hg & Hr1)].
    destruct (Hv' a Ha') as [_ (x' & Hx' & Hg' & Hr2)]. split; [done|]. exists x, x'.
    split_and!; [done..|lia|lia|done|done|]. by eapply votes_contradict.
Qed.

(** On tracked headers as in a reachable state, [getHeightNotPrevoted]
    returns the largest height at or below the new block that the blocks of its
    generator imply no prevote for, or the height below the tracked ones. *)
Theorem getHeightNotPrevoted_exact v b0 rest :
  vt_blockBFTInfos v = b0 :: rest →
  consecutive (vt_blockBFTInfos v) → separated (vt_blockBFTInfos v) →
  (∀ b, b ∈ vt_blockBFTInfos v → 1 ≤ bb_height b < 2 ^ 32) →
  (∀ b, b ∈ vt_blockBFTInfos v → 0 ≤ bb_maxHeightGenerated b) →
  bb_maxHeightGenerated b0 < bb_height b0 →
  ∃ r, getHeightNotPrevoted v = Ok r ∧
    bb_height b0 - len (vt_blockBFTInfos v) ≤ r < bb_height b0 ∧
    (∀ x, r < x ≤ bb_height b0 → implies_vote (vt_blockBFTInfos v) (bb_generatorAddress b0) x) ∧
    (bb_height b0 - len (vt_blockBFTInfos v) < r →
     ¬ implies_vote (vt_blockBFTInfos v) (bb_generatorAddress b0) r).
Proof. intros. by eapply getHeightNotPrevoted_Ok. Qed.

(** ** A chain *)

Definition header_okb (v : BFTVotes) (header : BlockHeader) : bool :=
  (bh_Height header =? current v + 1) && (bh_Height header <? MaxUint32)
  && (0 <=? bh_MaxHeightGenerated header) && (bh_MaxHeightGenerated header <? 2 ^ 32)
  && (bh_MaxHeightPrevoted header =? vt_maxHeightPrevoted v)
  && negb (contradicting v (NewBFTBlockHeader header))
  && match bh_AggregateCommit header with Some _ => true | None => false end.

Lemma header_okb_true v header : header_okb v header = true → header_ok v header.
Proof.
  unfold header_okb, header_ok, u32_ok. rewrite !andb_true_iff. zbool.
  destruct (bh_AggregateCommit header); [|by intros (_ & ?)].
  intros ((((((? & ?) & ?) & ?) & ?) & ?) & _). split_and!; [lia..|done|by eexists].
Qed.

Fixpoint run_headers (maxLength : Z) (P : Z → option BFTParams) (v : BFTVotes) (headers : list BlockHeader)
    : res BFTVotes :=
  match headers with
  | [] => Ok v
  | header :: headers =>
      if header_okb v header && match P (bh_Height header) with Some _ => true | None => false end then
        v1 ← insertBlockBFTInfo header maxLength v;
        '(v', _) ← update_votes header v1 P;
        run_headers maxLength P v' headers
      else Err (Errorf "invalid header")
  end.

Lemma update_votes_fun header v (P c' : Z → option BFTParams) v' maxLength v0 :
  1 ≤ maxLength → reachable maxLength (P, v0) → header_ok v0 header → is_Some (P (bh_Height header)) →
  insertBlockBFTInfo header maxLength v0 = Ok v → update_votes header v P = Ok (v', c') → c' = P.
Proof.
  intros Hm Hr Hhd Hp Hins Hup. destruct (reachable_inv _ _ _ Hm Hr) as [(pv & pc & Hinv) _].
  destruct (process_block (R := λ c, c = P) v0 P pv pc header maxLength Hinv eq_refl Hhd Hp Hm)
    as (v1 & v2 & c2 & _ & _ & Hins' & Hup' & Hc & _). congruence.
Qed.

Lemma run_headers_reachable maxLength P v headers v' :
  1 ≤ maxLength → reachable maxLength (P, v) → run_headers maxLength P v headers = Ok v' →
  reachable maxLength (P, v').
Proof.
  intros Hm. revert v. induction headers as [|header headers IH]; intros v Hr; cbn [run_headers].
  { by intros [= <-]. }
  destruct (header_okb v header) eqn:Hok; [|done]. destruct (P (bh_Height header)) as [p|] eqn:Hp; [|done].
  cbn [andb]. destruct (insertBlockBFTInfo header maxLength v) as [v1| | |] eqn:Hins; try done.
  cbn [mbind res_bind]. destruct (update_votes header v1 P) as [[v2 c']| | |] eqn:Hup; try done.
  cbn [mbind res_bind]. apply IH. apply header_okb_true in Hok.
  assert (c' = P) as -> by (eapply update_votes_fun; eauto).
  eapply reach_step; [exact Hr|]. eapply step_block; eauto.
Qed.

(** Four validators of weight one, each of which generates every fourth block. *)
Definition sample_params : BFTParams :=
  mkBFTParams 3 3 3 [mkBFTValidator [4] 1 [44]; mkBFTValidator [3] 1 [33];
                     mkBFTValidator [2] 1 [22]; mkBFTValidator [1] 1 [11]] [].

Definition sample_P : Z → option BFTParams := set_params 0 sample_params (λ _, None).

Definition sample_start : BFTVotes :=
  set_active (next_active 1 (bp_validators sample_params) []) (genesis_votes 0).

Definition vote_header (height : Z) (generator : bytes) (mhg mhp : Z) : BlockHeader :=
  mkBlockHeader [] 2 0 height [] generator [] [] [] [] mhp mhg false []
    (Some (mkAggregateCommit 0 [] [])) [].

Definition sample_chain (headers : list BlockHeader) : BFTVotes :=
  match run_headers 12 sample_P sample_start headers with Ok v => v | _ => genesis_votes 0 end.

Definition sample_headers : list BlockHeader :=
  [vote_header 1 [1] 0 0; vote_header 2 [2] 0 0; vote_header 3 [3] 0 0; vote_header 4 [4] 0 1;
   vote_header 5 [1] 1 2; vote_header 6 [2] 2 3; vote_header 7 [3] 3 4; vote_header 8 [4] 4 5].
Definition sample_votes : BFTVotes := sample_chain sample_headers.

(** A fork in which the first two validators swap their blocks. *)
Definition forked_votes : BFTVotes :=
  sample_chain [vote_header 1 [2] 0 0; vote_header 2 [1] 0 0; vote_header 3 [3] 0 0].

Lemma sample_params_ok : params_ok sample_params.
Proof. split; [by repeat constructor|]. cbn. lia. Qed.

Lemma sample_chain_reachable headers :
  is_ok (run_headers 12 sample_P sample_start headers) = true →
  reachable 12 (sample_P, sample_chain headers).
Proof.
  intros Hok. unfold sample_chain. destruct (run_headers 12 sample_P sample_start headers) eqn:E; try done.
  eapply run_headers_reachable; [lia| |exact E]. eapply reach_step; [apply (reach_genesis _ 0)|].
  { unfold MaxUint32. lia. }
  apply (step_params 12 (λ _, None) (genesis_votes 0) sample_params), sample_params_ok.
Qed.

Lemma sample_votes_reachable : reachable 12 (sample_P, sample_votes).
Proof. apply sample_chain_reachable. by vm_compute. Qed.

Lemma forked_votes_reachable : reachable 12 (sample_P, forked_votes).
Proof. apply sample_chain_reachable. by vm_compute. Qed.

(** Tracked headers of the samples, newest first. *)
Definition tracked_header (v : BFTVotes) (i : nat) : BFTBlockHeader :=
  default (new_info (vote_header 0 [] 0 0)) (vt_blockBFTInfos v !! i).

Lemma tracked_header_in v i :
  (i < length (vt_blockBFTInfos v))%nat → tracked_header v i ∈ vt_blockBFTInfos v.
Proof.
  intros [b Hb]%lookup_lt_is_Some_2. unfold tracked_header. rewrite Hb. by eapply list_elem_of_lookup_2.
Qed.

Lemma prevotes_of_distinct_validators_witness :
  ∃ voters, NoDup voters ∧ bb_prevoteWeight (tracked_header sample_votes 2)
    = voters_weight (validators_at sample_P (bb_height (tracked_header sample_votes 2))) voters.
Proof.
  destruct (prevotes_of_distinct_validators 12 sample_P sample_votes (tracked_header sample_votes 2))
    as (l & H1 & _ & H2 & _); [lia|exact sample_votes_reachable| |exists l; exact (conj H1 H2)].
  apply tracked_header_in. apply Nat.ltb_lt. by vm_compute.
Defined.

Lemma precommits_of_distinct_validators_witness :
  bb_precommitWeight (tracked_header sample_votes 0) = 0.
Proof.
  apply (precommits_of_distinct_validators 12 sample_P sample_votes (tracked_header sample_votes 0));
    [lia|exact sample_votes_reachable| |by vm_compute].
  apply tracked_header_in. apply Nat.ltb_lt. by vm_compute.
Defined.

Lemma quorum_heights_exact_witness :
  vt_maxHeightPrecommited sample_votes ≤ vt_maxHeightPrevoted sample_votes ≤ current sample_votes.
Proof. apply (quorum_heights_exact 12 sample_P sample_votes); [lia|exact sample_votes_reachable]. Defined.

Lemma votes_progress_witness :
  ∃ v1 v' c', insertBlockBFTInfo (vote_header 9 [1] 5 6) 12 sample_votes = Ok v1 ∧
    update_votes (vote_header 9 [1] 5 6) v1 sample_P = Ok (v', c') ∧ current v' = 9.
Proof.
  destruct (votes_progress (R := λ c, c = sample_P) 12 sample_votes sample_P (vote_header 9 [1] 5 6))
    as (v1 & v' & c' & H1 & H2 & H3 & _);
    [lia|exact sample_votes_reachable|done|apply header_okb_true; by vm_compute|by eexists|].
  exists v1, v', c'. exact (conj H1 (conj H2 H3)).
Defined.

Lemma conflicting_quorums_expose_contradictions_witness :
  ∃ culprits, NoDup culprits ∧ 2 ≤ voters_weight (validators_at sample_P 1) culprits ∧
    ∀ a, a ∈ culprits → ∃ x x', x ∈ vt_blockBFTInfos sample_votes ∧ x' ∈ vt_blockBFTInfos forked_votes ∧
      bb_generatorAddress x = a ∧ bb_generatorAddress x' = a ∧
      AreDistinctHeadersContradicting (partial x) (partial x') = true.
Proof.
  assert (bb_height (tracked_header sample_votes 7) = 1) as E by (by vm_compute).
  destruct (conflicting_quorums_expose_contradictions 12 sample_P sample_votes sample_P forked_votes
    (tracked_header sample_votes 7) (tracked_header forked_votes 2)) as (l & Hnd & Hw & Hl);
    [lia|exact sample_votes_reachable|exact forked_votes_reachable| | |by vm_compute|done|by vm_compute|by vm_compute|].
  1, 2: apply tracked_header_in; apply Nat.ltb_lt; by vm_compute.
  exists l. rewrite E in Hw. split; [done|]. split; [exact Hw|].
  intros a Ha. destruct (Hl a Ha) as (_ & x & x' & H1 & H2 & _ & _ & H3 & H4 & H5). exists x, x'.
  exact (conj H1 (conj H2 (conj H3 (conj H4 H5)))).
Defined.

Lemma getHeightNotPrevoted_exact_witness : ∃ r, getHeightNotPrevoted sample_votes = Ok r ∧ r < 8.
Proof.
  destruct (reachable_inv 12 sample_P sample_votes ltac:(lia) sample_votes_reachable)
    as [(pv & pc & Hinv) _].
  destruct (getHeightNotPrevoted_exact sample_votes (tracked_header sample_votes 0)
    (tail (vt_blockBFTInfos sample_votes))) as (r & Hr & H1 & _);
    [by vm_compute|exact (inv_consecutive _ _ _ _ Hinv)|exact (inv_separated _ _ _ _ Hinv)| |
     exact (inv_generated _ _ _ _ Hinv)|by vm_compute|].
  { intros b Hb. pose proof (inv_height _ _ _ _ Hinv b Hb). split; [done|].
    assert (∃ b0 rest, vt_blockBFTInfos sample_votes = b0 :: rest ∧ bb_height b0 = 8) as (b0 & rest & Ei & E8)
      by (vm_compute; eexists _, _; split; reflexivity).
    pose proof (top_height sample_P sample_votes pv pc b0 rest Hinv Ei b Hb). lia. }
  exists r. split; [exact Hr|]. assert (bb_height (tracked_header sample_votes 0) = 8) as E by (by vm_compute).
  rewrite E in H1. lia.
Defined.
