(* ===== verification/LiskBFT.v ===== *)
(** * LiskBFT: the API and the module of pkg/consensus/liskbft

    api.go, util.go, module.go and the parameters cache of validator.go, on the
    diff database of DiffDB.v.  An operation takes the heap of caches and
    returns the new one; on an error the heap is not returned, since the caller
    drops the database. *)

From S2P Require Import Prelude Collection Codec CodecSpec Message Crypto BlockTypes DB DiffDB ForkChoice BFTTypes Votes.

Definition ModuleID : Z := 11.
Definition storePrefixBFTParams : Z := 0x0000.
Definition storePrefixGeneratorKeys : Z := 0x4000.
Definition storePrefixBFTVotes : Z := 0x8000.
Definition emptyKey : bytes := [].

Definition dbPrefix (storePrefix : Z) : bytes :=
  Bytes.Join [Bytes.FromUint32 ModuleID; Bytes.FromUint16 storePrefix].

Record API := mkAPI { api_moduleID : Z; api_batchSize : Z }.
Record Module_ := mkModule { m_batchSize : Z; m_maxLengthBlock : Z; m_api : API }.

Definition API_init (moduleID batchSize : Z) : API := mkAPI moduleID batchSize.

Definition Module_Init (batchSize : Z) : Module_ :=
  mkModule batchSize (3 * batchSize) (API_init ModuleID batchSize).

Section liskbft.
Context {S : Type} `{Pebble S} `{Hasher} (store : S).
Implicit Types (diffStore paramsStore keysStore s : Database) (h : heap).

Definition with_heap {A} (x : res A * heap) : res (A * heap) :=
  a ← x.1; Ok (a, x.2).

(** ** util.go *)

Definition getBFTParams paramsStore (height : Z) h : res (BFTParams * heap) :=
  let start := Bytes.FromUint32 0 in
  let end_ := Bytes.FromUint32 height in
  let '(kv, h) := Database_Range store paramsStore start end_ 1 true h in
  if negb (len kv =? 1) then Err ErrBFTParamsNotFound
  else
    e ← index kv 0;
    bftParams ← Message_Decode (A := BFTParams) e.2;
    Ok (bftParams, h).

Definition getGeneratorKeys keysStore (height : Z) h : res (GeneratorKeys * heap) :=
  let start := Bytes.FromUint32 0 in
  let end_ := Bytes.FromUint32 height in
  let '(kv, h) := Database_Range store keysStore start end_ 1 true h in
  if negb (len kv =? 1) then Err ErrGeneratorKeysNotFound
  else
    e ← index kv 0;
    keys ← Message_Decode (A := GeneratorKeys) e.2;
    Ok (keys, h).

(** All entries up to the height but the last are deleted. *)
Definition deleteBFTParams paramsStore (height : Z) h : heap :=
  let start := Bytes.FromUint32 0 in
  let end_ := Bytes.FromUint32 height in
  let '(kv, h) := Database_Range store paramsStore start end_ (-1) false h in
  if len kv <=? 1 then h
  else foldl (λ h e, Database_Del store paramsStore e.1 h) h (take (pred (length kv)) kv).

Definition deleteGeneratorKeys keysStore (height : Z) h : heap :=
  let start := Bytes.FromUint32 0 in
  let end_ := Bytes.FromUint32 height in
  let '(kv, h) := Database_Range store keysStore start end_ (-1) false h in
  if len kv <=? 1 then h
  else foldl (λ h e, Database_Del store keysStore e.1 h) h (take (pred (length kv)) kv).

(** ** bftParamsCache *)

Record bftParamsCache := mkParamsCache { paramsStore_ : Database; data : gmap Z BFTParams }.

Definition newBFTParamsCache paramsStore : bftParamsCache := mkParamsCache paramsStore ∅.

(** The first entry at or below the height. *)
Fixpoint find_params (height : Z) (kv : list (bytes * bytes)) : res (option bytes) :=
  match kv with
  | [] => Ok None
  | element :: kv =>
      keyHeight ← Bytes.ToUint32 element.1;
      if keyHeight <=? height then Ok (Some element.2) else find_params height kv
  end.

Fixpoint cache_loop (fuel : nat) (height to : Z) (kv : list (bytes * bytes)) (data : gmap Z BFTParams)
    : res (gmap Z BFTParams) :=
  match fuel with
  | O => OutOfFuel
  | Datatypes.S fuel =>
      if height <=? to then
        value ← find_params height kv;
        match value with
        | None => Err (Errorf "invalid state. BFT parameters should always exist")
        | Some value =>
            params ← Message_Decode (A := BFTParams) value;
            cache_loop fuel (u32 (height + 1)) to kv (<[height := params]> data)
        end
      else Ok data
  end.

(** One round per height and a last one that leaves the loop. *)
Definition cache (c : bftParamsCache) (from to : Z) h : res (bftParamsCache * heap) :=
  let start := Bytes.FromUint32 from in
  let end_ := Bytes.FromUint32 to in
  let '(kv, h) := Database_Range store (paramsStore_ c) start end_ (-1) true h in
  '(kv, h) ← (if 0 <? from then
      '(nextLowest, h) ← getBFTParams (paramsStore_ c) from h;
      Ok (kv ++ [(Bytes.FromUint32 from, Encode nextLowest)], h)
    else Ok (kv, h));
  data ← cache_loop (Z.to_nat (to - from + 2)) from to kv (data c);
  Ok (mkParamsCache (paramsStore_ c) data, h).

Definition bftParamsCache_GetParameters (height : Z) (ch : bftParamsCache * heap)
    : res (BFTParams * (bftParamsCache * heap)) :=
  let '(c, h) := ch in
  match data c !! height with
  | Some cached => Ok (cached, (c, h))
  | None =>
      '(params, h) ← getBFTParams (paramsStore_ c) height h;
      Ok (params, (mkParamsCache (paramsStore_ c) (<[height := params]> (data c)), h))
  end.

#[export] Instance cache_source : ParamsSource (bftParamsCache * heap) := bftParamsCache_GetParameters.

(** ** api.go *)

Definition AreHeadersContradicting (header1 header2 : BlockHeader) : bool :=
  if bytes_equal (bh_ID header1) (bh_ID header2) then false
  else AreDistinctHeadersContradicting (NewBFTBlockHeader header1) (NewBFTBlockHeader header2).

Definition getVotes diffStore h : res (BFTVotes * heap) :=
  with_heap (GetDecodable (A := BFTVotes) store (WithPrefix (dbPrefix storePrefixBFTVotes) diffStore) emptyKey h).

Definition IsHeaderContradictingChain diffStore (header : BlockHeader) h : res (bool * heap) :=
  '(bftVotes, h) ← getVotes diffStore h;
  Ok (contradicting bftVotes (NewBFTBlockHeader header), h).

Definition ExistBFTParameters diffStore (height : Z) h : bool * heap :=
  let paramsStore := WithPrefix (dbPrefix storePrefixBFTParams) diffStore in
  let '(v, h) := Database_Get store paramsStore (Bytes.FromUint32 height) h in
  (bool_decide (is_Some v), h).

Definition GetBFTParameters diffStore (height : Z) h : res (BFTParams * heap) :=
  getBFTParams (WithPrefix (dbPrefix storePrefixBFTParams) diffStore) height h.

Definition GetBFTHeights diffStore h : res ((Z * Z * Z) * heap) :=
  '(bftVotes, h) ← getVotes diffStore h;
  Ok ((vt_maxHeightPrevoted bftVotes, vt_maxHeightPrecommited bftVotes, vt_maxHeightCertified bftVotes), h).

Definition ImpliesMaximalPrevotes diffStore (blockHeader : BlockHeader) h : res (bool * heap) :=
  '(bftVotes, h) ← getVotes diffStore h;
  last ← latest (vt_blockBFTInfos bftVotes);
  let currentHeight := bb_height last in
  if negb (bh_Height blockHeader =? currentHeight) then
    Err (Errorf "reward can be only checked for current height")
  else
    let previousHeight := bh_MaxHeightGenerated blockHeader in
    if bh_Height blockHeader <=? previousHeight then Ok (false, h)
    else if currentHeight <? previousHeight then Err (Errorf "invalid heights")
    else
      let offset := u32 (currentHeight - previousHeight - 1) in
      if len (vt_blockBFTInfos bftVotes) <=? offset then Ok (true, h)
      else
        bftInfo ← index (vt_blockBFTInfos bftVotes) offset;
        Ok (bytes_equal (bb_generatorAddress bftInfo) (bh_GeneratorAddress blockHeader), h).

Definition NextHeightBFTParameters diffStore (height : Z) h : res (Z * heap) :=
  let paramsStore := WithPrefix (dbPrefix storePrefixBFTParams) diffStore in
  let start := Bytes.FromUint32 (u32 (height + 1)) in
  let end_ := Bytes.FromUint32 MaxUint32 in
  let '(kv, h) := Database_Range store paramsStore start end_ 1 false h in
  if negb (len kv =? 1) then Err ErrDataNotFound
  else
    e ← index kv 0;
    n ← Bytes.ToUint32 e.1;
    Ok (n, h).

(** The sum of the weights, in uint64. *)
Fixpoint aggregate (validators : list BFTValidator) (aggregateBFTWeight : Z) : res Z :=
  match validators with
  | [] => Ok aggregateBFTWeight
  | validator :: validators =>
      if bv_bftWeight validator <=? 0 then Err (Errorf "invalid BFT weight")
      else aggregate validators (u64 (aggregateBFTWeight + bv_bftWeight validator))
  end.

Definition currentHeight_of (bftVotes : BFTVotes) : Z :=
  match vt_blockBFTInfos bftVotes with [] => vt_maxHeightPrevoted bftVotes | b :: _ => bb_height b end.

Definition SetBFTParameters (a : API) diffStore (precommitThreshold certificateThreshold : Z)
    (validators : list BFTValidator) h : res heap :=
  if api_batchSize a <? len validators then Err (Errorf "invalid validators size")
  else
    aggregateBFTWeight ← aggregate validators 0;
    if (precommitThreshold <? u64 (aggregateBFTWeight / 3 + 1)) || (aggregateBFTWeight <? precommitThreshold)
    then Err (Errorf "invalid precommit threshold")
    else if (certificateThreshold <? u64 (aggregateBFTWeight / 3 + 1)) || (aggregateBFTWeight <? certificateThreshold)
    then Err (Errorf "invalid precommit threshold")
    else
      let validators := BFTValidators_Sort validators in
      let bftVotesStore := WithPrefix (dbPrefix storePrefixBFTVotes) diffStore in
      '(bftVotes, h) ← getVotes diffStore h;
      let currentHeight := currentHeight_of bftVotes in
      let paramsStore := WithPrefix (dbPrefix storePrefixBFTParams) diffStore in
      '(currentParams, h) ←
        match getBFTParams paramsStore currentHeight h with
        | Ok (p, h) => Ok (Some p, h)
        | Err e => if bool_decide (e = ErrBFTParamsNotFound)
                   then Ok (None, (Database_Range store paramsStore (Bytes.FromUint32 0)
                                     (Bytes.FromUint32 currentHeight) 1 true h).2)
                   else Err e
        | Panic => Panic
        | OutOfFuel => OutOfFuel
        end;
      if match currentParams with
         | Some p => BFTValidators_Equal (bp_validators p) validators
                     && (bp_precommitThreshold p =? precommitThreshold)
                     && (bp_certificateThreshold p =? certificateThreshold)
         | None => false
         end
      then Ok h
      else
        let nextHeight := u32 (currentHeight + 1) in
        let hashValidators := (λ v, mkhashValidator (bv_blsKey v) (bv_bftWeight v)) <$> validators in
        let validatorsHash := ComputeValidatorsHash hashValidators certificateThreshold in
        let params := mkBFTParams (u64 (u64 (aggregateBFTWeight * 2) / 3 + 1)) precommitThreshold
                        certificateThreshold validators validatorsHash in
        h ← SetEncodable store paramsStore (Bytes.FromUint32 nextHeight) params h;
        SetEncodable store bftVotesStore emptyKey
          (set_active (next_active nextHeight validators (vt_activeValidatorsVoteInfo bftVotes)) bftVotes) h.

Definition SetGeneratorKeys diffStore (generators : list Generator) h : res heap :=
  '(bftVotes, h) ← getVotes diffStore h;
  let nextHeight :=
    match vt_blockBFTInfos bftVotes with
    | [] => u32 (vt_maxHeightPrevoted bftVotes + 1)
    | b :: _ => u32 (bb_height b + 1)
    end in
  SetEncodable store (WithPrefix (dbPrefix storePrefixGeneratorKeys) diffStore)
    (Bytes.FromUint32 nextHeight) (mkGeneratorKeys generators) h.

Definition GetGeneratorKeys diffStore (height : Z) h : res (list Generator * heap) :=
  '(keys, h) ← getGeneratorKeys (WithPrefix (dbPrefix storePrefixGeneratorKeys) diffStore) height h;
  Ok (gk_Generators keys, h).

Definition HeaderHasPriority (header : BlockHeader) (height maxHeightPrevoted maxHeightPreviouslyForged : Z) : bool :=
  if bh_Version header =? 0 then (height <=? bh_Height header) && (maxHeightPrevoted <=? bh_Height header)
  else (maxHeightPrevoted <? bh_MaxHeightPrevoted header)
       || ((maxHeightPrevoted =? bh_MaxHeightPrevoted header) && (height <? bh_Height header)).

Definition GetValidator diffStore (address : bytes) (height : Z) h : res (BFTValidator * heap) :=
  '(params, h) ← getBFTParams (WithPrefix (dbPrefix storePrefixBFTParams) diffStore) height h;
  match BFTValidators_Get address (bp_validators params) with
  | Some validator => Ok (validator, h)
  | None => Err (Errorf "address is not validator")
  end.

Definition GetCurrentValidators diffStore h : res (list BFTValidator * heap) :=
  '(bftVotes, h) ← getVotes diffStore h;
  match vt_blockBFTInfos bftVotes with
  | [] => Err ErrBFTParamsNotFound
  | b :: _ =>
      '(params, h) ← getBFTParams (WithPrefix (dbPrefix storePrefixBFTParams) diffStore) (bb_height b) h;
      Ok (bp_validators params, h)
  end.

(** ** module.go *)

Definition InitGenesisState (blockHeader : BlockHeader) diffStore h : res heap :=
  SetEncodable store (WithPrefix (dbPrefix storePrefixBFTVotes) diffStore) emptyKey
    (genesis_votes (bh_Height blockHeader)) h.

Definition BeforeTransactionsExecute (m : Module_) (blockHeader : BlockHeader) diffStore h : res heap :=
  let voteStore := WithPrefix (dbPrefix storePrefixBFTVotes) diffStore in
  let paramsStore := WithPrefix (dbPrefix storePrefixBFTParams) diffStore in
  let paramsCache := newBFTParamsCache paramsStore in
  '(bftVotes, h) ← getVotes diffStore h;
  bftVotes ← insertBlockBFTInfo blockHeader (m_maxLengthBlock m) bftVotes;
  oldest ← index (vt_blockBFTInfos bftVotes) (len (vt_blockBFTInfos bftVotes) - 1);
  newest ← index (vt_blockBFTInfos bftVotes) 0;
  '(paramsCache, h) ← cache paramsCache (bb_height oldest) (bb_height newest) h;
  '(bftVotes, (paramsCache, h)) ← update_votes blockHeader bftVotes (paramsCache, h);
  h ← SetEncodable store voteStore emptyKey bftVotes h;
  oldest ← index (vt_blockBFTInfos bftVotes) (len (vt_blockBFTInfos bftVotes) - 1);
  minHeightBFTParamsRequired ← Ints.Min [bb_height oldest; u32 (vt_maxHeightCertified bftVotes + 1)];
  let h := deleteBFTParams paramsStore minHeightBFTParamsRequired h in
  let keysStore := WithPrefix (dbPrefix storePrefixGeneratorKeys) diffStore in
  Ok (deleteGeneratorKeys keysStore minHeightBFTParamsRequired h).
End liskbft.
