(* ===== verification/BFTStore.v ===== *)
(** * BFTStore: the Lisk-BFT module refines the vote machine

    The states of the diff database that represent an abstract state (the
    parameters of each height and the votes) of BFTSafety.v, and the simulation:
    the module's operations on the database perform the steps of the vote
    machine. *)

From S2P Require Import Prelude Collection Codec CodecSpec Message Crypto BlockTypes DB DiffDB ForkChoice BFTTypes Votes VotesSpec VotesInv BFTSafety LiskBFT.

(** ** Parameters by height *)

(** The entry with the largest height at or below [h]. *)
Definition params_at (M : gmap Z BFTParams) (h : Z) : option BFTParams :=
  snd <$> head (sort_slice (λ x y, y.1 <? x.1) (filter (λ e, e.1 ≤ h) (map_to_list M))).

Definition largest_at (M : gmap Z BFTParams) (h k : Z) (p : BFTParams) : Prop :=
  M !! k = Some p ∧ k ≤ h ∧ ∀ k', is_Some (M !! k') → k' ≤ h → k' ≤ k.

Lemma params_at_spec M h :
  match params_at M h with
  | Some p => ∃ k, largest_at M h k p
  | None => ∀ k, is_Some (M !! k) → h < k
  end.
Proof.
  unfold params_at. set (l := filter (λ e, e.1 ≤ h) (map_to_list M)).
  assert (∀ k p, (k, p) ∈ l ↔ M !! k = Some p ∧ k ≤ h) as Hl.
  { intros k p. unfold l. rewrite list_elem_of_filter, elem_of_map_to_list. cbn. tauto. }
  pose proof (sort_slice_sorted (λ x y : Z * BFTParams, y.1 <? x.1) l (less_ok_Z_desc fst)) as Hs.
  pose proof (λ x, elem_of_sort_slice (λ x y : Z * BFTParams, y.1 <? x.1) x l) as Hin.
  destruct (sort_slice _ l) as [|[k p] rest]; cbn.
  - intros k [p Hp]. destruct (decide (k ≤ h)) as [Hle|]; [|lia]. exfalso.
    assert ((k, p) ∈ l) as Hkp by (by apply Hl). by apply Hin, not_elem_of_nil in Hkp.
  - assert ((k, p) ∈ l) as [Hk Hle]%Hl by (apply Hin; left). exists k. split; [done|]. split; [done|].
    intros k' [p' Hp'] Hle'. assert ((k', p') ∈ (k, p) :: rest) as Hkp by (apply Hin, Hl; done).
    apply elem_of_cons in Hkp as [[= -> ->]|Hkp]; [lia|]. inversion Hs as [|? ? _ Hf]; subst.
    rewrite Forall_forall in Hf. specialize (Hf _ Hkp). unfold no_inversion in Hf. cbn in Hf. zbool. lia.
Qed.

Lemma largest_params M h k p : largest_at M h k p → params_at M h = Some p.
Proof.
  intros (Hk & Hle & Hmax). pose proof (params_at_spec M h) as Hs. destruct (params_at M h) as [p'|].
  - destruct Hs as (k' & Hk' & Hle' & Hmax').
    assert (k = k') as <-.
    { pose proof (Hmax k' ltac:(eauto) Hle'). pose proof (Hmax' k ltac:(eauto) Hle). lia. }
    congruence.
  - specialize (Hs k ltac:(eauto)). lia.
Qed.

Lemma params_at_Some M h p : params_at M h = Some p ↔ ∃ k, largest_at M h k p.
Proof.
  split; [|intros [k Hk]; by eapply largest_params]. intros Hp. pose proof (params_at_spec M h) as Hs.
  by rewrite Hp in Hs.
Qed.

(** The parameters of a height depend on the entries up to it. *)
Lemma params_at_ext M M' h :
  (∀ k p, largest_at M h k p → largest_at M' h k p) → is_Some (params_at M h) → params_at M' h = params_at M h.
Proof.
  intros Hext [p Hp]. rewrite Hp. apply params_at_Some in Hp as [k Hk].
  by eapply largest_params, Hext.
Qed.

(** ** Keys *)

Lemma in_range_FromUint32 a b k :
  u32_ok a → u32_ok b → u32_ok k →
  in_range (Bytes.FromUint32 a) (Bytes.FromUint32 b) (Bytes.FromUint32 k) ↔ a ≤ k ≤ b.
Proof.
  intros Ha Hb Hk. unfold in_range, bytes_leb. rewrite !Bytes.bytes_compare_FromUint32 by done.
  destruct (Z.compare_spec a k), (Z.compare_spec k b); split; intros; split_and?; try done; lia.
Qed.

Lemma bytes_ltb_FromUint32 a b :
  u32_ok a → u32_ok b → bytes_ltb (Bytes.FromUint32 a) (Bytes.FromUint32 b) = (a <? b).
Proof.
  intros Ha Hb. unfold bytes_ltb. rewrite Bytes.bytes_compare_FromUint32 by done. unfold Z.ltb.
  by destruct (a ?= b).
Qed.

Lemma dbPrefix_params : dbPrefix storePrefixBFTParams = [0; 0; 0; 11; 0; 0].
Proof. by vm_compute. Qed.

Lemma dbPrefix_ne p p' y y' :
  (p, p') ∈ [(storePrefixBFTParams, storePrefixBFTVotes); (storePrefixGeneratorKeys, storePrefixBFTVotes);
             (storePrefixGeneratorKeys, storePrefixBFTParams)] →
  dbPrefix p ++ y ≠ dbPrefix p' ++ y'.
Proof.
  intros Hin E. apply elem_of_cons in Hin as [[= -> ->]|Hin]; [done|].
  apply elem_of_cons in Hin as [[= -> ->]|Hin]; [done|].
  apply list_elem_of_singleton in Hin as [= -> ->]. done.
Qed.

Section represents.
Context {S : Type} `{PebbleLaws S} (store : S) (s : Database).

Abbreviation ps := (WithPrefix (dbPrefix storePrefixBFTParams) s).
Abbreviation vs := (WithPrefix (dbPrefix storePrefixBFTVotes) s).
Abbreviation ks := (WithPrefix (dbPrefix storePrefixGeneratorKeys) s).
Abbreviation pp := (d_prefix s ++ dbPrefix storePrefixBFTParams).
Abbreviation seen h := (view store (deref h (d_cache s))).

(** What the keys of the persisted store look like. *)
Definition store_ok : Prop :=
  bytes_ok (d_prefix s) ∧ (∀ K, is_Some (p_get store K) → bytes_ok K) ∧
  ∀ y, is_Some (p_get store (pp ++ y)) → ∃ k, u32_ok k ∧ y = Bytes.FromUint32 k.

Definition cache_state h : Prop := wf s h ∧ cache_ok store (deref h (d_cache s)).

(** The view holds the parameters [M]; persisted entries that are deleted lie
    below an entry at or below [lo]. *)
Record params_rep (h : heap) (M : gmap Z BFTParams) (lo : Z) : Prop := {
  rep_params : ∀ y val, seen h (pp ++ y) = Some val ↔
    ∃ k p, M !! k = Some p ∧ y = Bytes.FromUint32 k ∧ val = Encode p;
  rep_params_ok : ∀ k p, M !! k = Some p → u32_ok k ∧ BFTParams_ok p ∧ len (Encode p) < 2 ^ 63;
  rep_hidden : ∀ k, u32_ok k → is_Some (p_get store (pp ++ Bytes.FromUint32 k)) → M !! k = None →
    ∃ k', is_Some (M !! k') ∧ k < k' ≤ lo;
}.

(** Nothing a reader sees changes. *)
Definition unchanged h h' : Prop := cache_state h' ∧ ∀ k, seen h' k = seen h k.

Lemma params_rep_unchanged h h' M lo : unchanged h h' → params_rep h M lo → params_rep h' M lo.
Proof using.
  intros [_ Hv] [H1 H2 H3]. split; [|done|done]. intros y val. by rewrite Hv.
Qed.

Lemma unchanged_trans h h1 h2 : unchanged h h1 → unchanged h1 h2 → unchanged h h2.
Proof using. intros [H1 V1] [H2 V2]. split; [done|]. intros k. by rewrite V2, V1. Qed.

Lemma cache_state_frame h h' :
  cache_state h → frame (d_cache s) h h' → cache_ok store (deref h' (d_cache s)) → cache_state h'.
Proof using. intros [[Hp Hc] _] [Hl _] Hok. split; [|done]. split; [done|]. by rewrite Hl. Qed.

Lemma ps_prefix : d_prefix ps = pp.
Proof using. apply d_prefix_WithPrefix. Qed.

Lemma desc_ok_params k : store_ok → u32_ok k → desc_ok store (pp ++ Bytes.FromUint32 k).
Proof using.
  intros (Hq & Hb & Hkeys) Hk.
  assert (bytes_ok (pp ++ Bytes.FromUint32 k)) as Hok.
  { apply Forall_app. split; [|exact (Bytes.be_put_ok 4 k)]. apply Forall_app. split; [done|].
    rewrite dbPrefix_params. repeat constructor; lia. }
  split; [done|]. split.
  - apply not_eq_None_Some. intros [n Hn]%upperBound_None; [|done].
    assert (11 ∈ replicate n 255) as [? _]%elem_of_replicate; [|done]. rewrite <-Hn.
    rewrite dbPrefix_params. apply elem_of_app. left. apply elem_of_app. right. do 3 right. left.
  - intros K HK. split; [by apply Hb|]. intros [z ->]. rewrite <-app_assoc in HK.
    destruct (Hkeys _ HK) as (k' & _ & E). apply (f_equal length) in E.
    rewrite length_app in E. unfold Bytes.FromUint32 in E. rewrite !Bytes.length_be_put in E.
    destruct z; [by rewrite app_nil_r|cbn in E; lia].
Qed.

Lemma no_hidden_params h M lo k :
  store_ok → params_rep h M lo → u32_ok k → lo ≤ k →
  no_hidden_top store pp (Bytes.FromUint32 0) (Bytes.FromUint32 k) (deref h (d_cache s)).
Proof using.
  intros (_ & _ & Hkeys) [H1 H2 H3] Hk Hlo K Hr Hs Hn.
  destruct (in_range_prefix _ _ _ _ Hr) as [y ->]. destruct (Hkeys y Hs) as (j & Hj & ->).
  destruct (M !! j) as [p|] eqn:Ej.
  { assert (seen h (pp ++ Bytes.FromUint32 j) = Some (Encode p)) as E by (apply H1; eauto). congruence. }
  destruct (H3 j Hj Hs Ej) as (j' & [p' Hp'] & Hlt). destruct (H2 j' p' Hp') as (Hj' & _).
  exists (Bytes.FromUint32 j'). split_and!.
  - apply in_range_FromUint32; [done|done|done|]. unfold u32_ok in *. lia.
  - exists (Encode p'). apply H1. eauto.
  - rewrite bytes_ltb_app, bytes_ltb_FromUint32 by done. apply Z.ltb_lt. lia.
Qed.

Lemma Decode_params (p : BFTParams) : BFTParams_ok p → len (Encode p) < 2 ^ 63 → Message_Decode (Encode p) = Ok p.
Proof using. intros Hok Hl. exact (Message_Decode_Encode p Hok Hl). Qed.

(** [getBFTParams] returns the parameters of the height. *)
Lemma getBFTParams_rep h M lo k :
  store_ok → cache_state h → params_rep h M lo → u32_ok k → lo ≤ k →
  match params_at M k with
  | Some p => ∃ h', getBFTParams store ps k h = Ok (p, h') ∧ unchanged h h'
  | None => getBFTParams store ps k h = Err ErrBFTParamsNotFound ∧
      unchanged h (Database_Range store ps (Bytes.FromUint32 0) (Bytes.FromUint32 k) 1 true h).2
  end.
Proof using H0.
  intros Hst Hcs Hrep Hk Hlo. pose proof Hcs as [Hwf Hok].
  destruct (Range_top store ps h (Bytes.FromUint32 0) (Bytes.FromUint32 k)) as (l & h' & Hrange & Hf & Hok' & Hv & Hl).
  { by apply WithPrefix_wf. }
  { done. }
  { rewrite ps_prefix. by apply desc_ok_params. }
  { rewrite ps_prefix. by eapply no_hidden_params. }
  assert (unchanged h h') as Hun by (split; [by eapply cache_state_frame|done]).
  unfold getBFTParams. rewrite Hrange. rewrite ps_prefix in Hl. cbn [d_cache WithPrefix] in Hl.
  destruct l as [|[y val] t].
  - pose proof (params_at_spec M k) as Hs. destruct (params_at M k) as [p|]; [exfalso|done].
    destruct Hs as (j & Hj & Hle & _). destruct (rep_params_ok _ _ _ Hrep j p Hj) as [Hju _].
    assert (seen h (pp ++ Bytes.FromUint32 j) = Some (Encode p)) as E
      by (apply (rep_params _ _ _ Hrep); eauto).
    rewrite Hl in E; [done|]. apply in_range_FromUint32; [done|done|done|]. unfold u32_ok in *. lia.
  - destruct Hl as (-> & Hr & Hval & Hmax). cbn [fst snd] in *.
    apply (rep_params _ _ _ Hrep) in Hval as (j & p & Hj & -> & ->).
    destruct (rep_params_ok _ _ _ Hrep j p Hj) as (Hju & Hpok & Hlen).
    apply in_range_FromUint32 in Hr; [|done..].
    assert (largest_at M k j p) as ->%largest_params.
    { split; [done|]. split; [lia|]. intros j' [p' Hp'] Hle. destruct (rep_params_ok _ _ _ Hrep j' p' Hp') as [Hj' _].
      specialize (Hmax (Bytes.FromUint32 j')). rewrite bytes_leb_ltb, bytes_ltb_FromUint32 in Hmax by done.
      apply Z.nlt_ge, Z.ltb_nlt, negb_true_iff, Hmax.
      - apply in_range_FromUint32; [done|done|done|]. unfold u32_ok in *. lia.
      - exists (Encode p'). apply (rep_params _ _ _ Hrep). eauto. }
    exists h'. split; [|done]. change (negb (len [(Bytes.FromUint32 j, Encode p)] =? 1)) with false.
    cbn iota. rewrite index_0. cbn [mbind res_bind snd]. by rewrite Decode_params.
Qed.

(** ** The parameters cache *)

Lemma params_at_gap M k h :
  k ≤ h → (∀ j, is_Some (M !! j) → j ≤ h → j ≤ k) → params_at M h = params_at M k.
Proof using.
  intros Hkh Hgap. pose proof (params_at_spec M k) as Hs. destruct (params_at M k) as [p|].
  - destruct Hs as (j & Hj & Hle & Hmax). apply largest_params with j. split; [done|]. split; [lia|].
    intros j' Hj' Hle'. apply Hmax; [done|]. by apply Hgap.
  - pose proof (params_at_spec M h) as Hs'. destruct (params_at M h) as [p|]; [|done].
    destruct Hs' as (j & Hj & Hle & _). pose proof (Hgap j ltac:(eauto) Hle).
    specialize (Hs j ltac:(eauto)). lia.
Qed.

(** The entries the cache looks through. *)
Definition entries_ok M (kv : list (bytes * bytes)) : Prop :=
  ∀ e, e ∈ kv → ∃ k p, e = (Bytes.FromUint32 k, Encode p) ∧ u32_ok k ∧ BFTParams_ok p ∧
    len (Encode p) < 2 ^ 63 ∧ params_at M k = Some p.

Lemma find_params_spec M kv height k0 :
  entries_ok M kv → StronglySorted (no_inversion (range_less true)) kv →
  Bytes.FromUint32 k0 ∈ kv.*1 → u32_ok k0 → k0 ≤ height →
  ∃ k p, find_params height kv = Ok (Some (Encode p)) ∧ Bytes.FromUint32 k ∈ kv.*1 ∧ u32_ok k ∧
    k ≤ height ∧ BFTParams_ok p ∧ len (Encode p) < 2 ^ 63 ∧ params_at M k = Some p ∧
    ∀ j, Bytes.FromUint32 j ∈ kv.*1 → u32_ok j → j ≤ height → j ≤ k.
Proof using.
  induction kv as [|e kv IH]; intros Hok Hs Hin Hk0 Hle; [by apply not_elem_of_nil in Hin|].
  destruct (Hok e ltac:(left)) as (k & p & -> & Hk & Hpok & Hlen & Hp).
  inversion Hs as [|? ? Hs' Hhd]; subst. rewrite Forall_forall in Hhd.
  cbn [find_params fst snd]. rewrite Bytes.ToUint32_FromUint32 by done. cbn [mbind res_bind].
  destruct (Z.leb_spec k height) as [Hkh|Hgt].
  - exists k, p. split_and!; try done; [left|]. intros j Hj Hju Hjle. rewrite fmap_cons in Hj.
    apply elem_of_cons in Hj as [E|Hj]; [rewrite (Bytes.FromUint32_inj j k Hju Hk E); exact (Z.le_refl k)|].
    apply list_elem_of_fmap in Hj as ([y val] & Ey & Hj). cbn in Ey. subst y.
    specialize (Hhd _ Hj). change (bytes_ltb (Bytes.FromUint32 k) (Bytes.FromUint32 j) = false) in Hhd.
    rewrite bytes_ltb_FromUint32 in Hhd by done. by apply Z.ltb_ge.
  - assert (entries_ok M kv) as Hok' by (intros e He; apply Hok; by right).
    assert (Bytes.FromUint32 k0 ∈ kv.*1) as Hin'.
    { rewrite fmap_cons in Hin. apply elem_of_cons in Hin as [E|?]; [|done].
      pose proof (Bytes.FromUint32_inj k0 k Hk0 Hk E). exfalso. clear -H1 Hle Hgt. lia. }
    destruct (IH Hok' Hs' Hin' Hk0 Hle) as (k1 & p1 & Hf & Hin1 & Hk1 & Hle1 & Hok1 & Hlen1 & Hp1 & Hmax).
    exists k1, p1. split_and!; try done; [by right|]. intros j Hj Hju Hjle. rewrite fmap_cons in Hj.
    apply elem_of_cons in Hj as [E|Hj]; [|by apply Hmax].
    pose proof (Bytes.FromUint32_inj j k Hju Hk E). exfalso. clear -H1 Hjle Hgt. lia.
Qed.

(** Every height from [from] to [to] finds its parameters. *)
Definition covers_heights M kv from to : Prop :=
  entries_ok M kv ∧ StronglySorted (no_inversion (range_less true)) kv ∧
  (∀ k, Bytes.FromUint32 k ∈ kv.*1 → u32_ok k → from ≤ k) ∧
  (∃ k0, Bytes.FromUint32 k0 ∈ kv.*1 ∧ u32_ok k0 ∧ k0 ≤ from) ∧
  (∀ j, is_Some (M !! j) → from ≤ j ≤ to → Bytes.FromUint32 j ∈ kv.*1 ∧ u32_ok j).

Definition data_ok M (data : gmap Z BFTParams) : Prop :=
  ∀ k p, data !! k = Some p → params_at M k = Some p.

Lemma cache_loop_spec M kv from to fuel height data :
  covers_heights M kv from to → 0 ≤ from ≤ height → height ≤ to + 1 → to < MaxUint32 →
  (Z.to_nat (to - height + 1) < fuel)%nat → data_ok M data →
  ∃ data', cache_loop fuel height to kv data = Ok data' ∧ data_ok M data'.
Proof using.
  intros (Hok & Hs & Hfrom & (k0 & Hk0 & Hk0u & Hk0f) & HM) Hf Ht Hto. unfold MaxUint32 in Hto.
  revert height Hf Ht data. induction fuel as [|fuel IH]; intros height Hf Ht data Hfuel Hd; [lia|].
  cbn [cache_loop]. destruct (Z.leb_spec height to) as [Hle|Hgt]; [|by exists data].
  destruct (find_params_spec M kv height k0 Hok Hs Hk0 Hk0u ltac:(lia))
    as (k & p & -> & Hk & Hku & Hkh & Hpok & Hlen & Hp & Hmax).
  cbn [mbind res_bind]. rewrite Decode_params by done. cbn [mbind res_bind].
  rewrite u32_small by (unfold u32_ok; lia). apply IH; [lia|lia|lia|].
  intros j q. rewrite lookup_insert_Some. intros [[<- <-]|[_ Hj]]; [|by apply Hd].
  rewrite <-Hp. apply params_at_gap; [done|]. intros j Hj Hjh.
  destruct (decide (from ≤ j)) as [Hfj|]; [|specialize (Hfrom k Hk Hku); lia].
  destruct (HM j Hj ltac:(lia)) as [? ?]. by apply Hmax.
Qed.

Lemma StronglySorted_snoc_max {A} (R : A → A → Prop) l x :
  StronglySorted R l → (∀ y, y ∈ l → R y x) → StronglySorted R (l ++ [x]).
Proof using.
  induction 1 as [|y l Hl IH Hy]; intros Hx; [repeat constructor|]. cbn. constructor.
  - apply IH. intros z Hz. apply Hx. by right.
  - apply Forall_app. split; [done|]. constructor; [apply Hx; left|done].
Qed.

Lemma range_entries h M lo from to :
  store_ok → cache_state h → params_rep h M lo → u32_ok from → u32_ok to →
  ∃ l h', Database_Range store ps (Bytes.FromUint32 from) (Bytes.FromUint32 to) (-1) true h = (l, h') ∧
    unchanged h h' ∧ StronglySorted (no_inversion (range_less true)) l ∧ entries_ok M l ∧
    (∀ e, e ∈ l → ∃ k p, e = (Bytes.FromUint32 k, Encode p) ∧ M !! k = Some p ∧ from ≤ k ≤ to) ∧
    (∀ k, is_Some (M !! k) → from ≤ k ≤ to → Bytes.FromUint32 k ∈ l.*1 ∧ u32_ok k).
Proof using H0.
  intros Hst Hcs Hrep Hf Ht. pose proof Hcs as [Hwf Hok].
  destruct (Range_refines store ps h (Bytes.FromUint32 from) (Bytes.FromUint32 to) true)
    as (l & h' & Hr & Hfr & Hok' & Hv & Hs & _ & Hin).
  { by apply WithPrefix_wf. }
  { done. }
  { intros _. rewrite ps_prefix. by apply desc_ok_params. }
  rewrite ps_prefix in Hin. cbn [d_cache WithPrefix] in *.
  assert (∀ e, e ∈ l → ∃ k p, e = (Bytes.FromUint32 k, Encode p) ∧ M !! k = Some p ∧ from ≤ k ≤ to) as Hl.
  { intros [y val] [Hy Hval]%Hin. apply (rep_params _ _ _ Hrep) in Hval as (k & p & Hk & -> & ->).
    destruct (rep_params_ok _ _ _ Hrep k p Hk) as [Hku _]. exists k, p. split; [done|]. split; [done|].
    by apply in_range_FromUint32 in Hy. }
  exists l, h'. split; [done|]. split; [split; [by eapply cache_state_frame|done]|].
  split; [done|]. split; [|split; [done|]].
  - intros e He. destruct (Hl e He) as (k & p & -> & Hk & _).
    destruct (rep_params_ok _ _ _ Hrep k p Hk) as (Hku & Hpok & Hlen). exists k, p.
    split_and!; [done..|]. apply largest_params with k. split; [done|]. split; [lia|done].
  - intros k [p Hp] Hr'. destruct (rep_params_ok _ _ _ Hrep k p Hp) as (Hku & _). split; [|done].
    apply list_elem_of_fmap. exists (Bytes.FromUint32 k, Encode p). split; [done|]. apply Hin.
    split; [by apply in_range_FromUint32|]. apply (rep_params _ _ _ Hrep). eauto.
Qed.

Lemma params_at_ok h M lo k p :
  params_rep h M lo → params_at M k = Some p → BFTParams_ok p ∧ len (Encode p) < 2 ^ 63.
Proof using.
  intros Hrep [j (Hj & _)]%params_at_Some. by destruct (rep_params_ok _ _ _ Hrep j p Hj) as (_ & ? & ?).
Qed.

Lemma cache_entries h M lo from to :
  store_ok → cache_state h → params_rep h M lo → u32_ok from → u32_ok to → lo ≤ from → from ≤ to →
  is_Some (params_at M from) →
  ∃ l h1, Database_Range store ps (Bytes.FromUint32 from) (Bytes.FromUint32 to) (-1) true h = (l, h1) ∧
  ∃ kv h2, (if 0 <? from then
      '(nextLowest, h) ← getBFTParams store ps from h1;
      Ok (l ++ [(Bytes.FromUint32 from, Encode nextLowest)], h)
    else Ok (l, h1)) = Ok (kv, h2) ∧ unchanged h h2 ∧ covers_heights M kv from to.
Proof using H0.
  intros Hst Hcs Hrep Hf Ht Hlo Hft [nl Hnl].
  destruct (range_entries h M lo from to Hst Hcs Hrep Hf Ht) as (l & h1 & Hr & Hun & Hs & Hok & Hl & HM).
  exists l, h1. split; [done|].
  assert (∀ k, Bytes.FromUint32 k ∈ l.*1 → u32_ok k → from ≤ k) as Hge.
  { intros k ([y val] & Ey & He)%list_elem_of_fmap Hk. cbn in Ey. subst y.
    destruct (Hl _ He) as (j & p & E & Hj & ?). destruct (rep_params_ok _ _ _ Hrep j p Hj) as [Hju _].
    rewrite (Bytes.FromUint32_inj k j Hk Hju (f_equal fst E)). lia. }
  destruct (Z.ltb_spec 0 from) as [Hpos|Hzero].
  - destruct Hun as [Hcs1 Hv1]. assert (params_rep h1 M lo) as Hrep1 by (by eapply params_rep_unchanged).
    pose proof (getBFTParams_rep h1 M lo from Hst Hcs1 Hrep1 Hf Hlo) as Hg. rewrite Hnl in Hg.
    destruct Hg as (h2 & -> & Hun2). cbn [mbind res_bind]. eexists _, h2. split; [done|].
    destruct (params_at_ok h M lo from nl Hrep Hnl) as [Hnlok Hnllen].
    split; [by eapply unchanged_trans|]. split_and!.
    + intros e [He|He%list_elem_of_singleton]%elem_of_app; [by apply Hok|]. subst e. exists from, nl. done.
    + apply StronglySorted_snoc_max; [done|]. intros e He. destruct (Hl _ He) as (j & p & -> & Hj & ?).
      destruct (rep_params_ok _ _ _ Hrep j p Hj) as [Hju _].
      change (bytes_ltb (Bytes.FromUint32 j) (Bytes.FromUint32 from) = false).
      rewrite bytes_ltb_FromUint32 by done. apply Z.ltb_ge. lia.
    + intros k Hk Hku. rewrite fmap_app in Hk. apply elem_of_app in Hk as [Hk|Hk]; [by apply Hge|].
      apply list_elem_of_singleton in Hk. rewrite (Bytes.FromUint32_inj k from Hku Hf Hk). lia.
    + exists from. split; [|done]. rewrite fmap_app. apply elem_of_app. right. left.
    + intros j Hj Hjr. destruct (HM j Hj Hjr). split; [|done]. rewrite fmap_app. apply elem_of_app. by left.
  - exists l, h1. split; [done|]. split; [done|]. unfold u32_ok in Hf. assert (from = 0) as -> by lia.
    split_and!; [done..| |done]. exists 0. split_and!; [|done|done].
    apply params_at_Some in Hnl as (j & Hj & Hle & _). destruct (rep_params_ok _ _ _ Hrep j nl Hj) as [Hju _].
    unfold u32_ok in Hju. assert (j = 0) as -> by lia. apply HM; [eauto|lia].
Qed.

(** [cache] loads the parameters of the heights it is asked for. *)
Lemma cache_rep h M lo from to :
  store_ok → cache_state h → params_rep h M lo → u32_ok from → lo ≤ from → from ≤ to → to < MaxUint32 →
  is_Some (params_at M from) →
  ∃ c' h', cache store (newBFTParamsCache ps) from to h = Ok (c', h') ∧ unchanged h h' ∧
    paramsStore_ c' = ps ∧ data_ok M (data c').
Proof using H0.
  intros Hst Hcs Hrep Hf Hlo Hft Hto Hp. unfold MaxUint32, u32_ok in *.
  destruct (cache_entries h M lo from to) as (l & h1 & Hr & kv & h2 & Hkv & Hun & Hcov); try done;
    [unfold u32_ok; lia|].
  unfold cache. cbn [paramsStore_ newBFTParamsCache]. rewrite Hr, Hkv. cbn [mbind res_bind].
  destruct (cache_loop_spec M kv from to (Z.to_nat (to - from + 2)) from (data (newBFTParamsCache ps)) Hcov)
    as (data' & -> & Hd); [lia|lia|unfold MaxUint32; lia|lia|by intros k p|].
  cbn [mbind res_bind]. by eexists _, _.
Qed.

(** ** The cache as a source of parameters *)

Definition P_of (M : gmap Z BFTParams) (lo : Z) : Z → option BFTParams :=
  λ k, if (lo <=? k) && (0 <=? k) && (k <? 2 ^ 32) then params_at M k else None.

Definition cache_inv (h0 : heap) (M : gmap Z BFTParams) (ch : bftParamsCache * heap) : Prop :=
  paramsStore_ ch.1 = ps ∧ data_ok M (data ch.1) ∧ unchanged h0 ch.2.

Lemma cache_source_laws h0 M lo :
  store_ok → params_rep h0 M lo →
  @ParamsLaws (bftParamsCache * heap) (cache_source store) (P_of M lo) (cache_inv h0 M).
Proof using H0.
  intros Hst Hrep k [c h] p (Hps & Hd & Hun) Hp. cbn [fst snd] in *.
  unfold P_of in Hp. destruct (Z.leb_spec lo k) as [Hlo|]; [|done]. destruct (Z.leb_spec 0 k); [|done].
  destruct (Z.ltb_spec k (2 ^ 32)); [|done]. cbn [andb] in Hp.
  unfold GetParameters, cache_source, bftParamsCache_GetParameters.
  destruct (data c !! k) as [p'|] eqn:Ek.
  - rewrite (Hd k p' Ek) in Hp. injection Hp as ->. by exists (c, h).
  - assert (params_rep h M lo) as Hrep' by (by eapply params_rep_unchanged).
    pose proof (getBFTParams_rep h M lo k Hst (proj1 Hun) Hrep' ltac:(done) Hlo) as Hg. rewrite Hp in Hg.
    destruct Hg as (h' & Hg & Hun'). rewrite Hps, Hg. cbn [mbind res_bind]. eexists. split; [done|].
    split; [done|]. split; [|by eapply unchanged_trans].
    intros j q. cbn. rewrite lookup_insert_Some. intros [[<- <-]|[_ Hj]]; [done|by apply Hd].
Qed.

(** ** Deleting old parameters *)

Definition kv_keys (q : bytes) (kv : list (bytes * bytes)) : list bytes := (λ e, q ++ e.1) <$> kv.

Lemma fold_del d h kv :
  wf d h → cache_ok store (deref h (d_cache d)) →
  let h' := foldl (λ h e, Database_Del store d e.1 h) h kv in
  frame (d_cache d) h h' ∧ cache_ok store (deref h' (d_cache d)) ∧
  ∀ K, view store (deref h' (d_cache d)) K
       = if bool_decide (K ∈ kv_keys (d_prefix d) kv) then None else view store (deref h (d_cache d)) K.
Proof using H0.
  revert h. induction kv as [|e kv IH]; intros h Hwf Hok; cbn [foldl].
  { split_and!; [apply frame_refl|done|]. intros K. by rewrite bool_decide_false by apply not_elem_of_nil. }
  destruct (Del_refines store d h e.1 Hwf Hok) as (Hf & Hok1 & Hv1). set (h1 := Database_Del _ _ _ _) in *.
  destruct (IH h1) as (Hf2 & Hok2 & Hv2); [|done|].
  { destruct Hwf as [? ?], Hf as [Hl _]. split; [done|]. by rewrite Hl. }
  split_and!; [by eapply frame_trans|done|]. intros K. rewrite Hv2, Hv1. unfold update, bytes_equal, kv_keys.
  rewrite fmap_cons. repeat case_bool_decide; try done; exfalso; rewrite elem_of_cons in *; intuition congruence.
Qed.

Lemma take_all_but_last {A} (l : list A) :
  (if len l <=? 1 then [] else take (pred (length l)) l : list A) = take (pred (length l)) l.
Proof using. destruct l as [|x [|y l]]; [done|done|]. destruct (Z.leb_spec (len (x :: y :: l)) 1); [len_lia|done]. Qed.

(** The entries that are deleted are below one that stays. *)
Lemma sorted_init_last (l : list (bytes * bytes)) e :
  StronglySorted (no_inversion (range_less false)) l → NoDup l.*1 → e ∈ take (pred (length l)) l →
  ∃ x, x ∈ l ∧ (x.1 ∉ (take (pred (length l)) l).*1) ∧ bytes_ltb e.1 x.1 = true.
Proof using.
  intros Hs Hnd He. destruct (decide (l = [])) as [->|Hne]; [by apply not_elem_of_nil in He|].
  destruct (exists_last Hne) as (l' & x & ->). rewrite length_app in *. cbn [length] in *.
  replace (pred (length l' + 1)) with (length l') in * by lia. rewrite take_app_length in *.
  rewrite fmap_app, NoDup_app in Hnd. destruct Hnd as (_ & Hd & _). exists x.
  assert (x.1 ∉ l'.*1) as Hx by (intros Hin; apply (Hd _ Hin); left).
  split_and!; [apply elem_of_app; right; left|done|].
  assert (no_inversion (range_less false) e x) as Hinv.
  { clear -Hs He. induction l' as [|y l' IH]; [by apply not_elem_of_nil in He|]. inversion Hs as [|? ? Hs' Hy]; subst.
    apply elem_of_cons in He as [->|He]; [|by apply IH]. rewrite Forall_forall in Hy. apply Hy.
    apply elem_of_app. right. left. }
  unfold no_inversion, range_less in Hinv. destruct (bytes_ltb e.1 x.1) eqn:E; [done|].
  destruct Hx. rewrite (bytes_ltb_total _ _ Hinv E). by apply list_elem_of_fmap_2.
Qed.

Lemma deleteBFTParams_rep h M lo k :
  cache_state h → params_rep h M lo → u32_ok k →
  let h' := deleteBFTParams store ps k h in
  cache_state h' ∧ (∀ K, (∀ y, K ≠ pp ++ y) → seen h' K = seen h K) ∧
  ∃ M', params_rep h' M' (lo `max` k) ∧ (∀ j, k ≤ j → params_at M' j = params_at M j) ∧
    ∀ j, is_Some (M' !! j) → is_Some (M !! j).
Proof using H0.
  intros Hcs Hrep Hk. unfold deleteBFTParams. pose proof Hcs as [Hwf Hok].
  destruct (Range_refines store ps h (Bytes.FromUint32 0) (Bytes.FromUint32 k) false)
    as (l & h1 & -> & Hfr & Hok1 & Hv1 & Hs & Hnd & Hin); [by apply WithPrefix_wf|done|done|].
  rewrite ps_prefix in Hin. cbn [d_cache WithPrefix] in *.
  replace (if len l <=? 1 then h1 else _)
    with (foldl (λ h e, Database_Del store ps e.1 h) h1 (take (pred (length l)) l))
    by (rewrite <-take_all_but_last; by destruct (len l <=? 1)).
  set (dels := take (pred (length l)) l).
  assert (cache_state h1) as [Hwf1 _] by (by eapply cache_state_frame).
  destruct (fold_del ps h1 dels) as (Hf2 & Hok2 & Hv2); [by apply WithPrefix_wf|done|].
  set (h2 := foldl _ h1 dels) in *. rewrite ps_prefix in Hv2. cbn [d_cache WithPrefix] in *.
  assert (∀ e, e ∈ dels → e ∈ l) as Hsub
    by (intros e (i & Hi & _)%elem_of_take; by eapply list_elem_of_lookup_2).
  assert (∀ e, e ∈ l → ∃ j p, e = (Bytes.FromUint32 j, Encode p) ∧ M !! j = Some p ∧ u32_ok j ∧ j ≤ k) as Hl.
  { intros [y val] [Hy Hval]%Hin. apply (rep_params _ _ _ Hrep) in Hval as (j & p & Hj & -> & ->).
    destruct (rep_params_ok _ _ _ Hrep j p Hj) as [Hju _]. exists j, p. split_and!; [done..|].
    apply in_range_FromUint32 in Hy; [lia|done..]. }
  assert (∀ j p, M !! j = Some p → j ≤ k → (Bytes.FromUint32 j, Encode p) ∈ l) as Hl'.
  { intros j p Hj Hle. destruct (rep_params_ok _ _ _ Hrep j p Hj) as [Hju _]. apply Hin.
    split; [apply in_range_FromUint32; [done|done|done|unfold u32_ok in *; lia]|].
    apply (rep_params _ _ _ Hrep). eauto. }
  set (M' := filter (λ e : Z * BFTParams, Bytes.FromUint32 e.1 ∉ dels.*1) M).
  assert (∀ j p, M' !! j = Some p ↔ M !! j = Some p ∧ Bytes.FromUint32 j ∉ dels.*1) as HM'
    by (intros; unfold M'; by rewrite map_lookup_filter_Some).
  (** A deleted entry has a larger one that stays. *)
  assert (∀ j p, M !! j = Some p → M' !! j = None → ∃ j', is_Some (M' !! j') ∧ j < j' ≤ k) as Hbelow.
  { intros j p Hj Hn. destruct (rep_params_ok _ _ _ Hrep j p Hj) as [Hju _].
    destruct (decide (Bytes.FromUint32 j ∈ dels.*1)) as [Hd|Hd];
      [|assert (M' !! j = Some p) by (by apply HM'); congruence].
    apply list_elem_of_fmap in Hd as (e & Ee & He).
    destruct (sorted_init_last l e Hs Hnd He) as (x & Hx & Hxd & Hlt).
    destruct (Hl x Hx) as (j' & p' & -> & Hj' & Hju' & Hle). cbn [fst] in *.
    rewrite <-Ee, bytes_ltb_FromUint32 in Hlt by done. apply Z.ltb_lt in Hlt. exists j'.
    split; [exists p'; by apply HM'|lia]. }
  split; [eapply cache_state_frame; [split; [exact Hwf1|exact Hok1]|done|done]|]. split.
  { intros K HK. rewrite Hv2, Hv1. rewrite bool_decide_false; [done|].
    intros (e & -> & _)%list_elem_of_fmap. by apply (HK e.1). }
  exists M'. split_and!.
  - split.
    + intros y val. rewrite Hv2, Hv1. case_bool_decide as Hd.
      * split; [done|]. intros (j & p & Hj & -> & _). apply HM' in Hj as [_ []].
        apply list_elem_of_fmap in Hd as (e & E & He). apply app_inv_head in E. rewrite E. by apply list_elem_of_fmap_2.
      * rewrite (rep_params _ _ _ Hrep). split; intros (j & p & Hj & -> & ->); exists j, p; (split; [|done]).
        -- apply HM'. split; [done|]. intros (e & E & He)%list_elem_of_fmap. apply Hd. rewrite E.
           apply list_elem_of_fmap. by exists e.
        -- by apply HM' in Hj as [? _].
    + intros j p [Hj _]%HM'. by apply (rep_params_ok _ _ _ Hrep).
    + intros j Hju Hst Hn. destruct (M !! j) as [p|] eqn:Ej.
      * destruct (Hbelow j p Ej Hn) as (j' & ? & ?). exists j'. split; [done|lia].
      * destruct (rep_hidden _ _ _ Hrep j Hju Hst Ej) as (j1 & [p1 Hj1] & Hlt).
        destruct (M' !! j1) as [q|] eqn:E1; [exists j1; split; [eauto|lia]|].
        destruct (Hbelow j1 p1 Hj1 E1) as (j2 & ? & ?). exists j2. split; [done|lia].
  - intros j Hj. pose proof (params_at_spec M j) as Hsp. destruct (params_at M j) as [p|].
    + destruct Hsp as (i & Hi & Hle & Hmax). apply largest_params with i.
      assert (∀ i', is_Some (M' !! i') → is_Some (M !! i')) as HsubM by (intros i' [q [Hq _]%HM']; eauto).
      split; [|split; [done|intros i' Hi'; by apply Hmax, HsubM]].
      destruct (M' !! i) as [q|] eqn:E; [apply HM' in E as [? _]; congruence|].
      destruct (Hbelow i p Hi E) as (j' & Hj' & Hlt). specialize (Hmax j' (HsubM _ Hj') ltac:(lia)). lia.
    + pose proof (params_at_spec M' j) as Hsp'. destruct (params_at M' j) as [p|]; [exfalso|done].
      destruct Hsp' as (i & [Hi _]%HM' & Hle & _). specialize (Hsp i ltac:(eauto)). lia.
  - intros j [p [Hj _]%HM']. eauto.
Qed.

Lemma deleteGeneratorKeys_rep h k :
  cache_state h →
  let h' := deleteGeneratorKeys store ks k h in
  cache_state h' ∧ ∀ K, (∀ y, K ≠ d_prefix s ++ dbPrefix storePrefixGeneratorKeys ++ y) → seen h' K = seen h K.
Proof using H0.
  intros Hcs. unfold deleteGeneratorKeys. pose proof Hcs as [Hwf Hok].
  destruct (Range_refines store ks h (Bytes.FromUint32 0) (Bytes.FromUint32 k) false)
    as (l & h1 & -> & Hfr & Hok1 & Hv1 & _); [by apply WithPrefix_wf|done|done|].
  cbn [d_cache WithPrefix] in *.
  replace (if len l <=? 1 then h1 else _)
    with (foldl (λ h e, Database_Del store ks e.1 h) h1 (take (pred (length l)) l))
    by (rewrite <-take_all_but_last; by destruct (len l <=? 1)).
  assert (cache_state h1) as [Hwf1 _] by (by eapply cache_state_frame).
  destruct (fold_del ks h1 (take (pred (length l)) l)) as (Hf2 & Hok2 & Hv2); [by apply WithPrefix_wf|done|].
  split; [eapply cache_state_frame; [split; [exact Hwf1|exact Hok1]|done|done]|].
  intros K HK. cbn [d_cache WithPrefix] in Hv2. rewrite Hv2, Hv1. rewrite bool_decide_false; [done|].
  intros (e & -> & _)%list_elem_of_fmap. rewrite d_prefix_WithPrefix, <-app_assoc in HK. by apply (HK e.1).
Qed.

(** ** The abstraction relation *)

(** The lowest tracked height. *)
Definition low (v : BFTVotes) : Z := current v - len (vt_blockBFTInfos v) + 1.

Abbreviation votes_key := (d_prefix s ++ dbPrefix storePrefixBFTVotes).

(** The heap represents the state [(P, v)] of the vote machine: the votes are
    stored, and from the lowest tracked height on (the current one when nothing
    is tracked) the stored parameters are [P]. *)
Record bft_rep (h : heap) (P : Z → option BFTParams) (v : BFTVotes) : Prop := {
  br_state : cache_state h;
  br_votes : seen h votes_key = Some (Encode v);
  br_votes_ok : BFTVotes_ok v;
  br_params : ∃ M lo, params_rep h M lo ∧ lo ≤ low v ∧ lo ≤ current v ∧
    (∀ k, low v `min` current v ≤ k → u32_ok k → P k = params_at M k) ∧
    (∀ k, is_Some (M !! k) → k ≤ current v + 1);
}.

Lemma params_rep_mono h M lo lo' : lo ≤ lo' → params_rep h M lo → params_rep h M lo'.
Proof using.
  intros Hle [H1 H2 H3]. split; [done|done|]. intros k Hk Hs Hn.
  destruct (H3 k Hk Hs Hn) as (k' & ? & ?). exists k'. split; [done|lia].
Qed.

Lemma params_rep_view h h' M lo :
  (∀ y, seen h' (pp ++ y) = seen h (pp ++ y)) → params_rep h M lo → params_rep h' M lo.
Proof using. intros Hv [H1 H2 H3]. split; [|done|done]. intros y val. by rewrite Hv. Qed.

Lemma getVotes_rep h v :
  cache_state h → seen h votes_key = Some (Encode v) → BFTVotes_ok v → len (Encode v) < 2 ^ 63 →
  ∃ h', getVotes store s h = Ok (v, h') ∧ unchanged h h'.
Proof using H0.
  intros Hcs Hv Hok Hlen. pose proof Hcs as [Hwf Hc]. unfold getVotes, with_heap, GetDecodable.
  destruct (Get_refines store vs h emptyKey) as (h' & -> & Hf & Hc' & Hv'); [by apply WithPrefix_wf|done|].
  rewrite d_prefix_WithPrefix. unfold emptyKey. rewrite app_nil_r. cbn [d_cache WithPrefix] in *. rewrite Hv.
  cbn [fst snd]. assert (Message_Decode (Encode v) = Ok v) as -> by exact (Message_Decode_Encode v Hok Hlen).
  cbn [mbind res_bind]. exists h'. split; [done|]. split; [by eapply cache_state_frame|done].
Qed.

Lemma setVotes_rep h (v : BFTVotes) :
  cache_state h →
  ∃ h', SetEncodable store vs emptyKey v h = Ok h' ∧ cache_state h' ∧
    ∀ K, seen h' K = update votes_key (Some (Encode v)) (seen h) K.
Proof using H0.
  intros Hcs. pose proof Hcs as [Hwf Hc]. unfold SetEncodable.
  destruct (Set_refines store vs h emptyKey (Encode v)) as (h' & -> & Hf & Hc' & Hv'); [by apply WithPrefix_wf|done|].
  rewrite d_prefix_WithPrefix in Hv'. unfold emptyKey in Hv'. rewrite app_nil_r in Hv'. cbn [d_cache WithPrefix] in *.
  exists h'. split; [done|]. split; [by eapply cache_state_frame|done].
Qed.

Lemma votes_key_ne y : votes_key ≠ pp ++ y ∧ votes_key ≠ d_prefix s ++ dbPrefix storePrefixGeneratorKeys ++ y.
Proof using.
  split; intros E.
  - rewrite <-app_assoc in E. apply app_inv_head in E. rewrite <-(app_nil_r (dbPrefix storePrefixBFTVotes)) in E.
    symmetry in E. by eapply dbPrefix_ne; [left|exact E].
  - apply app_inv_head in E. rewrite <-(app_nil_r (dbPrefix storePrefixBFTVotes)) in E.
    symmetry in E. by eapply dbPrefix_ne; [right; left|exact E].
Qed.

Lemma params_key_ne y y' : pp ++ y ≠ d_prefix s ++ dbPrefix storePrefixGeneratorKeys ++ y'.
Proof using.
  rewrite <-app_assoc. intros E%app_inv_head. symmetry in E.
  by eapply dbPrefix_ne; [right; right; left|exact E].
Qed.

Lemma oldest_index v :
  consecutive (vt_blockBFTInfos v) → vt_blockBFTInfos v ≠ [] →
  ∃ b, index (vt_blockBFTInfos v) (len (vt_blockBFTInfos v) - 1) = Ok b ∧ b ∈ vt_blockBFTInfos v ∧ bb_height b = low v.
Proof using.
  intros Hc Hne. unfold low, current. destruct (vt_blockBFTInfos v) as [|b0 rest] eqn:E; [done|].
  destruct (lookup_lt_is_Some_2 (b0 :: rest) (length rest)) as [b Hb]; [cbn; lia|].
  exists b. unfold index. rewrite idx_nonneg by len_lia.
  replace (Z.to_nat (len (b0 :: rest) - 1)) with (length rest) by (unfold len; cbn; lia). rewrite Hb.
  split; [done|]. split; [by eapply list_elem_of_lookup_2|].
  rewrite (consecutive_lookup _ _ b0 b Hc eq_refl Hb). unfold len. cbn. lia.
Qed.

(** ** The simulation *)

Definition header_widths (header : BlockHeader) : Prop :=
  ∀ commit, bh_AggregateCommit header = Some commit → u32_ok (ac_Height commit).

Section block.
Context (P : Z → option BFTParams) (v v1 v' : BFTVotes) (header : BlockHeader) (maxLength : Z) (h : heap).
Context (Hst : store_ok) (Hmax : 1 ≤ maxLength) (Hreach : reachable maxLength (P, v)).
Context (Hhd : header_ok v header) (Hwidths : header_widths header) (Hp : is_Some (P (bh_Height header))).
Context (Hins : insertBlockBFTInfo header maxLength v = Ok v1) (Hup : update_votes header v1 P = Ok (v', P)).
Context (Hrep : bft_rep h P v).

Lemma block_infos : ∃ k, v1 = set_infos (new_info header :: take k (vt_blockBFTInfos v)) v.
Proof using Hins Hmax.
  destruct (insertBlockBFTInfo_Ok header maxLength v Hmax) as [k Hk]. exists k. congruence.
Qed.

Lemma block_inv : ∃ pv pc, votes_inv P v1 pv pc.
Proof using Hhd Hins Hmax Hp Hreach.
  destruct (reachable_inv _ _ _ Hmax Hreach) as [(pv & pc & Hinv) _].
  destruct block_infos as [k Ek]. rewrite Ek. eexists _, _. by eapply insert_inv.
Qed.

Lemma block_low : low v ≤ low v1 ≤ bh_Height header ∧ current v1 = bh_Height header ∧ 1 ≤ low v1.
Proof using Hhd Hins Hmax Hp Hreach.
  destruct block_inv as (pv & pc & Hinv1). destruct block_infos as [k Ek]. destruct Hhd as (Hh & _).
  assert (vt_blockBFTInfos v1 = new_info header :: take k (vt_blockBFTInfos v)) as Hi by (by rewrite Ek).
  assert (current v1 = bh_Height header) as Hc by (unfold current; by rewrite Hi).
  assert (len (take k (vt_blockBFTInfos v)) ≤ len (vt_blockBFTInfos v)) by (unfold len; rewrite length_take; lia).
  pose proof (len_nonneg (take k (vt_blockBFTInfos v))).
  assert (low v1 = bh_Height header - len (take k (vt_blockBFTInfos v))) as El
    by (unfold low; rewrite Hc, Hi, len_cons; lia).
  split; [unfold low in *; lia|]. split; [done|].
  destruct (oldest_index v1) as (b & _ & Hb & <-); [apply Hinv1|by rewrite Hi|].
  by apply (inv_height _ _ _ _ Hinv1).
Qed.

Lemma block_votes_ok : BFTVotes_ok v'.
Proof using Hhd Hins Hmax Hreach Hrep Hup Hwidths.
  apply update_votes_shape in Hup as [_ Hok]. apply Hok; [|done]. destruct block_infos as [k Ek]. rewrite Ek.
  destruct (br_votes_ok _ _ _ Hrep) as (H1 & H2 & H3 & H4 & H5). destruct Hhd as (Hh & Hu & Hmg & Hmp & _).
  split_and!; cbn; try done. constructor; [|by apply Forall_take].
  split_and!; cbn; try done; [|by rewrite Hmp]. unfold u32_ok, MaxUint32 in *. split; [|lia].
  destruct (reachable_inv _ _ _ Hmax Hreach) as [(pv & pc & Hinv) _]. pose proof (inv_current _ _ _ _ Hinv). lia.
Qed.

Lemma block_shape : bb_height <$> vt_blockBFTInfos v' = bb_height <$> vt_blockBFTInfos v1.
Proof using Hup. by apply update_votes_shape in Hup as [? _]. Qed.

(** The votes computed with the cache are the ones of the vote machine. *)
Lemma block_votes M lo c2 h2 :
  params_rep h M lo → lo ≤ low v → (∀ k, low v ≤ k → u32_ok k → P k = params_at M k) →
  unchanged h h2 → paramsStore_ c2 = ps → data_ok M (data c2) →
  ∃ c3 h3, update_votes (H := cache_source store) header v1 (c2, h2) = Ok (v', (c3, h3)) ∧ unchanged h h3.
Proof using H0 Hhd Hins Hmax Hp Hreach Hst Hup.
  intros HM Hlo HP Hun Hps Hd. destruct block_inv as (pv & pc & Hinv1). destruct block_low as ((Hl1 & Hl2) & Hc & Hl3).
  assert (params_rep h M (low v)) as HM' by (by eapply params_rep_mono).
  pose proof (cache_source_laws h M (low v) Hst HM') as L2.
  assert (ParamsLaws (Z → option BFTParams) (P_of M (low v)) (λ c, c = P)) as L1.
  { intros k c p -> Hk. unfold P_of in Hk. destruct (_ && _) eqn:E; [|done]. zbool.
    rewrite <-HP in Hk by (unfold u32_ok; lia). exists P. split; [|done]. unfold GetParameters, fun_params. by rewrite Hk. }
  assert (tracked (P := P_of M (low v)) (vt_blockBFTInfos v1)) as Ht.
  { intros b Hb. destruct (vt_blockBFTInfos v1) as [|b0 rest] eqn:Ei; [by apply not_elem_of_nil in Hb|].
    assert (vt_blockBFTInfos v1 ≠ []) as Hne by (by rewrite Ei). rewrite <-Ei in Hb.
    assert (low v1 ≤ bb_height b ≤ bh_Height header) as Hr.
    { split.
      - pose proof Hb as [i Hi]%list_elem_of_lookup.
        pose proof (consecutive_lookup _ i b0 b (inv_consecutive _ _ _ _ Hinv1) ltac:(by rewrite Ei) Hi) as E.
        apply lookup_lt_Some in Hi. unfold low, current, len. rewrite Ei in *. lia.
      - rewrite <-Hc. unfold current. rewrite Ei. by eapply (top_height P v1 pv pc b0 rest). }
    pose proof (inv_tracked _ _ _ _ Hinv1 b Hb) as Hs. destruct Hhd as (_ & Hu & _). unfold MaxUint32 in Hu.
    unfold P_of. rewrite !(proj2 (Z.leb_le _ _)), (proj2 (Z.ltb_lt _ _)) by lia. cbn [andb].
    rewrite <-HP by (unfold u32_ok; lia). done. }
  pose proof (agree_update_votes (S2 := cache_source store) (L1 := L1) (L2 := L2) (P_of M (low v)) (λ c, c = P) (cache_inv h M) header v1 P (c2, h2) Ht eq_refl)
    as Hag. destruct (Hag ltac:(done) v' P Hup) as [_ ([c3 h3] & E & (_ & _ & Hun3))]. eauto.
Qed.

Lemma block_result_low : low v' = low v1 ∧ current v' = bh_Height header ∧ consecutive (vt_blockBFTInfos v') ∧
  vt_blockBFTInfos v' ≠ [].
Proof using Hhd Hins Hmax Hp Hreach Hup.
  pose proof (block_shape) as Eh. destruct block_low as (_ & Hc & _). destruct block_inv as (pv & pc & Hinv1).
  destruct block_infos as [k Ek]. assert (vt_blockBFTInfos v1 ≠ []) as Hne by (by rewrite Ek).
  assert (current v' = current v1) as Hc'.
  { unfold current. destruct (vt_blockBFTInfos v1) as [|b0 r]; [done|].
    destruct (vt_blockBFTInfos v') as [|b1 r1]; [done|]. cbn in Eh. congruence. }
  split_and!.
  - unfold low. rewrite Hc'. apply (f_equal length) in Eh. rewrite !length_fmap in Eh. unfold len. by rewrite Eh.
  - by rewrite Hc'.
  - pose proof (inv_consecutive _ _ _ _ Hinv1) as Hcons. clear -Eh Hcons. revert Eh Hcons.
    generalize (vt_blockBFTInfos v') (vt_blockBFTInfos v1). intros l. induction l as [|x l IH]; [done|].
    intros [|y l0] Eh; [done|]. cbn in Eh. injection Eh as Exy El. destruct l as [|x' l]; [done|].
    destruct l0 as [|y' l0]; [done|]. intros [Hxy Hl]. split; [cbn in El; injection El as E1 _; lia|].
    by apply (IH (y' :: l0)).
  - intros E. rewrite E in Eh. by destruct (vt_blockBFTInfos v1).
Qed.

Lemma block_simulation m :
  m_maxLengthBlock m = maxLength → len (Encode v) < 2 ^ 63 →
  ∃ h', BeforeTransactionsExecute store m header s h = Ok h' ∧ bft_rep h' P v'.
Proof using H0 Hhd Hins Hmax Hp Hreach Hrep Hst Hup Hwidths.
  intros Hm Hlen. destruct (br_params _ _ _ Hrep) as (M & lo & HM & Hlo & _ & HP' & Hbound).
  assert (∀ k, low v ≤ k → u32_ok k → P k = params_at M k) as HP by (intros; apply HP'; [lia|done]).
  destruct block_low as ((Hl1 & Hl2) & Hc1 & Hl3). destruct block_inv as (pv & pc & Hinv1).
  destruct block_result_low as (Hlow' & Hcur' & Hcons' & Hne'). pose proof Hhd as (Hh & Hu & _). unfold MaxUint32 in Hu.
  unfold BeforeTransactionsExecute.
  destruct (getVotes_rep h v (br_state _ _ _ Hrep) (br_votes _ _ _ Hrep) (br_votes_ok _ _ _ Hrep) Hlen) as (h1 & -> & Hun1).
  cbn [mbind res_bind]. rewrite Hm, Hins. cbn [mbind res_bind].
  assert (vt_blockBFTInfos v1 ≠ []) as Hne1 by (destruct block_infos as [k Ek]; by rewrite Ek).
  destruct (oldest_index v1 (inv_consecutive _ _ _ _ Hinv1) Hne1) as (bo & -> & Hbo & Ebo). cbn [mbind res_bind].
  assert (index (vt_blockBFTInfos v1) 0 = Ok (new_info header)) as -> by (destruct block_infos as [k Ek]; by rewrite Ek).
  cbn [mbind res_bind bb_height new_info].
  assert (params_rep h1 M lo) as HM1 by (by eapply params_rep_unchanged).
  destruct (cache_rep h1 M lo (bb_height bo) (bh_Height header)) as (c2 & h2 & -> & Hun2 & Hps & Hd);
    [done|apply Hun1|done|unfold u32_ok; lia|lia|lia|unfold MaxUint32; lia| |].
  { rewrite <-HP by (unfold u32_ok; lia). by apply (inv_tracked _ _ _ _ Hinv1). }
  cbn [mbind res_bind].
  destruct (block_votes M lo c2 h2 HM Hlo HP (unchanged_trans _ _ _ Hun1 Hun2) Hps Hd) as (c3 & h3 & -> & Hun3).
  cbn [mbind res_bind]. destruct (setVotes_rep h3 v' (proj1 Hun3)) as (h4 & -> & Hcs4 & Hv4). cbn [mbind res_bind].
  destruct (oldest_index v' Hcons' Hne') as (bo' & -> & Hbo' & Ebo'). cbn [mbind res_bind]. rewrite Ints.Min_2.
  cbn [mbind res_bind]. rewrite Ebo', Hlow'. pose proof (u32_range (vt_maxHeightCertified v' + 1)) as Hcr.
  set (mr := low v1 `min` _). assert (u32_ok mr) as Hmr by (unfold mr, u32_ok in *; lia).
  assert (params_rep h4 M (low v)) as HM4.
  { eapply params_rep_mono; [exact Hlo|]. eapply params_rep_view; [|exact HM]. intros y. rewrite Hv4.
    unfold update, bytes_equal. rewrite bool_decide_false by apply votes_key_ne. apply Hun3. }
  destruct (deleteBFTParams_rep h4 M (low v) mr Hcs4 HM4 Hmr) as (Hcs5 & Hv5 & M' & HM5 & HP5 & Hsub5).
  set (h5 := deleteBFTParams store ps mr h4) in *.
  destruct (deleteGeneratorKeys_rep h5 mr Hcs5) as [Hcs6 Hv6]. eexists. split; [done|]. split; [done| |by apply block_votes_ok|].
  - rewrite Hv6 by apply votes_key_ne. rewrite Hv5 by apply votes_key_ne. rewrite Hv4. unfold update, bytes_equal.
    by rewrite bool_decide_true.
  - exists M', (low v `max` mr). rewrite Hlow', Hcur'. split_and!.
    + eapply params_rep_view; [|exact HM5]. intros y. apply Hv6. intros y'. apply params_key_ne.
    + unfold mr. lia.
    + unfold mr. lia.
    + intros k Hk Hku. rewrite HP5 by (unfold mr; lia). apply HP; [lia|done].
    + intros k Hk. specialize (Hbound k (Hsub5 k Hk)). lia.
Qed.
End block.

(** ** Setting parameters *)

Lemma aggregate_total validators acc :
  0 ≤ acc → Forall (λ x, 0 < bv_bftWeight x) validators → acc + total_weight validators < 2 ^ 64 →
  aggregate validators acc = Ok (acc + total_weight validators).
Proof using.
  revert acc. induction validators as [|x validators IH]; intros acc Hacc Hpos Hlt; cbn [aggregate total_weight] in *.
  { f_equal. lia. }
  apply Forall_cons in Hpos as [Hx Hpos]. destruct (Z.leb_spec (bv_bftWeight x) 0); [lia|].
  assert (0 ≤ total_weight validators).
  { clear -Hpos. induction Hpos; cbn; lia. }
  rewrite u64_small by (unfold u64_ok; lia). rewrite IH; [|lia|done|lia]. f_equal. lia.
Qed.

Lemma total_weight_perm l k : l ≡ₚ k → total_weight l = total_weight k.
Proof using. induction 1; cbn; lia. Qed.

Definition new_params `{Hasher} (precommitThreshold certificateThreshold : Z) (validators : list BFTValidator) : BFTParams :=
  let sorted := BFTValidators_Sort validators in
  mkBFTParams (u64 (u64 (total_weight validators * 2) / 3 + 1)) precommitThreshold certificateThreshold sorted
    (ComputeValidatorsHash ((λ v, mkhashValidator (bv_blsKey v) (bv_bftWeight v)) <$> sorted) certificateThreshold).

(** The parameters [SetBFTParameters] accepts. *)
Definition accepted (batchSize precommitThreshold certificateThreshold : Z) (validators : list BFTValidator) : Prop :=
  let total := total_weight validators in
  len validators ≤ batchSize ∧ Forall (λ x, 0 < bv_bftWeight x) validators ∧ total < 2 ^ 64 ∧
  total / 3 < precommitThreshold ≤ total ∧ total / 3 < certificateThreshold ≤ total.

(** The parameters are those in force already. *)
Definition keeps_params (cp : option BFTParams) (pre cert : Z) (validators : list BFTValidator) : bool :=
  match cp with
  | Some p => BFTValidators_Equal (bp_validators p) (BFTValidators_Sort validators)
              && (bp_precommitThreshold p =? pre) && (bp_certificateThreshold p =? cert)
  | None => false
  end.

Lemma new_params_ok `{Hasher} batchSize pre cert validators :
  accepted batchSize pre cert validators → Forall BFTValidator_ok validators →
  params_ok (new_params pre cert validators) ∧ BFTParams_ok (new_params pre cert validators).
Proof using.
  intros (_ & Hpos & Htot & Hpre & Hcert) Hok.
  assert (BFTValidators_Sort validators ≡ₚ validators) as Hperm by apply sort_slice_Permutation.
  assert (0 ≤ total_weight validators) by (clear -Hpos; induction Hpos; cbn; lia).
  pose proof (Z.mod_pos_bound (total_weight validators * 2) (2 ^ 64)) as Hm.
  assert (0 < bp_prevoteThreshold (new_params pre cert validators) < 2 ^ 64) as Hthr.
  { unfold new_params. cbn [bp_prevoteThreshold]. set (x := u64 (total_weight validators * 2)) in *.
    assert (0 ≤ x < 2 ^ 64) as Hx by apply u64_range. assert (0 ≤ x / 3) by (apply Z.div_pos; lia).
    assert (x / 3 < 2 ^ 63) by (apply Z.div_lt_upper_bound; lia). rewrite u64_small by (unfold u64_ok; lia). lia. }
  split.
  - unfold params_ok. cbn [new_params bp_validators bp_precommitThreshold]. split_and!.
    + unfold weights_ok. rewrite Hperm. eapply Forall_impl; [exact Hpos|]. cbn. lia.
    + by rewrite (total_weight_perm _ _ Hperm).
    + apply Hthr.
    + assert (0 ≤ total_weight validators / 3) by (apply Z.div_pos; lia). lia.
  - unfold BFTParams_ok. cbn [bp_validators bp_precommitThreshold bp_certificateThreshold new_params].
    assert (0 ≤ total_weight validators / 3) by (apply Z.div_pos; lia).
    split_and!; [split; [apply Z.lt_le_incl|]; apply Hthr|unfold u64_ok; lia|unfold u64_ok; lia|by rewrite Hperm].
Qed.

(** Storing the parameters of the next height. *)
Lemma params_rep_insert h h' M lo n p :
  (∀ K, seen h' K = update (pp ++ Bytes.FromUint32 n) (Some (Encode p)) (seen h) K) →
  params_rep h M lo → u32_ok n → BFTParams_ok p → len (Encode p) < 2 ^ 63 →
  params_rep h' (<[n := p]> M) lo.
Proof using.
  intros Hv [H1 H2 H3] Hn Hp Hlen. split.
  - intros y val. rewrite Hv. unfold update, bytes_equal. case_bool_decide as E.
    + apply app_inv_head in E. subst y. split.
      * intros [= <-]. exists n, p. by rewrite lookup_insert_eq.
      * intros (k & q & [[<- <-]|[Hne Hk]]%lookup_insert_Some & E & ->); [done|].
        destruct (H2 k q Hk) as [Hku _]. destruct Hne. by apply Bytes.FromUint32_inj.
    + rewrite H1. split; intros (k & q & Hk & -> & ->); exists k, q; (split; [|done]).
      * rewrite lookup_insert_ne; [done|]. intros ->. done.
      * apply lookup_insert_Some in Hk as [[<- <-]|[_ ?]]; done.
  - intros k q [[<- <-]|[_ Hk]]%lookup_insert_Some; [done|by apply H2].
  - intros k Hk Hs [Hn' Hne]%lookup_insert_None. destruct (H3 k Hk Hs Hn') as (k' & Hk' & Hlt). exists k'.
    split; [|done]. destruct (decide (n = k')) as [->|]; [by rewrite lookup_insert_eq|by rewrite lookup_insert_ne].
Qed.

Lemma params_at_insert_below M n p k : k < n → params_at (<[n := p]> M) k = params_at M k.
Proof using.
  intros Hlt. assert (∀ j q, j ≤ k → <[n := p]> M !! j = Some q ↔ M !! j = Some q) as Hlk.
  { intros j q Hj. by rewrite lookup_insert_ne by lia. }
  pose proof (params_at_spec M k) as Hs. destruct (params_at M k) as [q|].
  - destruct Hs as (j & Hj & Hle & Hmax). apply largest_params with j. split; [by apply Hlk|]. split; [done|].
    intros j' [q' Hq'] Hle'. apply Hmax; [|done]. exists q'. by apply Hlk.
  - pose proof (params_at_spec (<[n := p]> M) k) as Hs'. destruct (params_at _ k) as [q|]; [exfalso|done].
    destruct Hs' as (j & Hj & Hle & _). apply Hlk in Hj; [|done]. specialize (Hs j ltac:(eauto)). lia.
Qed.

Lemma next_active_ok n validators active :
  u32_ok n → Forall ActiveValidator_ok active → Forall ActiveValidator_ok (next_active n validators active).
Proof using.
  intros Hn Ha. rewrite Forall_forall in *. intros x Hx. unfold next_active, ActiveValidators_sort in Hx.
  apply elem_of_sort_slice, list_elem_of_fmap in Hx as (bv & -> & _).
  destruct (ActiveValidators_get _ _) as [av|] eqn:E; [apply get_address in E as [_ ?]; by apply Ha|].
  split; [done|]. apply u32_range.
Qed.

Lemma currentHeight_current v : currentHeight_of v = current v.
Proof using. unfold currentHeight_of, current. by destruct (vt_blockBFTInfos v). Qed.

Lemma bft_rep_unchanged h h' P v : unchanged h h' → bft_rep h P v → bft_rep h' P v.
Proof using.
  intros Hun [H1 H2 H3 (M & lo & HM & Hr)]. split; [apply Hun| |done|].
  - by rewrite (proj2 Hun).
  - exists M, lo. split; [by eapply params_rep_unchanged|done].
Qed.

Lemma set_params_simulation `{Hasher} a P v pre cert validators h :
  store_ok → bft_rep h P v → 0 ≤ current v < MaxUint32 → len (Encode v) < 2 ^ 63 →
  accepted (api_batchSize a) pre cert validators → Forall BFTValidator_ok validators →
  len (Encode (new_params pre cert validators)) < 2 ^ 63 →
  ∃ h', SetBFTParameters store a s pre cert validators h = Ok h' ∧
    if keeps_params (P (current v)) pre cert validators then bft_rep h' P v
    else bft_rep h' (set_params (current v) (new_params pre cert validators) P)
      (set_active (next_active (current v + 1) (bp_validators (new_params pre cert validators))
                     (vt_activeValidatorsVoteInfo v)) v).
Proof using H0.
  intros Hst Hrep Hcur Hlen Hacc Hvok Hplen. unfold MaxUint32 in Hcur.
  destruct (new_params_ok (api_batchSize a) pre cert validators Hacc Hvok) as [_ Hpok].
  destruct Hacc as (Hbatch & Hpos & Htot & Hpre & Hcert).
  unfold SetBFTParameters. destruct (Z.ltb_spec (api_batchSize a) (len validators)); [lia|].
  rewrite aggregate_total by (done || lia). cbn [mbind res_bind]. rewrite Z.add_0_l.
  assert (0 ≤ total_weight validators) by (clear -Hpos; induction Hpos; cbn; lia).
  assert (0 ≤ total_weight validators / 3 ≤ total_weight validators) as Hdiv
    by (split; [apply Z.div_pos; lia|apply Z.div_le_upper_bound; lia]).
  rewrite (u64_small (total_weight validators / 3 + 1)) by (unfold u64_ok; lia).
  rewrite !(proj2 (Z.ltb_ge _ _)) by lia. cbn [orb].
  destruct (getVotes_rep h v (br_state _ _ _ Hrep) (br_votes _ _ _ Hrep) (br_votes_ok _ _ _ Hrep) Hlen) as (h1 & -> & Hun1).
  cbn [mbind res_bind]. rewrite currentHeight_current.
  assert (bft_rep h1 P v) as Hrep1 by (by eapply bft_rep_unchanged).
  destruct (br_params _ _ _ Hrep1) as (M & lo & HM & Hlo & Hloc & HP & Hbound).
  set (lookup := match getBFTParams _ _ _ _ with Ok _ => _ | _ => _ end).
  assert (P (current v) = params_at M (current v)) as EPc by (apply HP; unfold u32_ok; lia).
  assert (∃ h2, lookup = Ok (P (current v), h2) ∧ unchanged h1 h2) as (h2 & -> & Hun2).
  { unfold lookup. pose proof (getBFTParams_rep h1 M lo (current v) Hst (br_state _ _ _ Hrep1) HM) as Hg.
    specialize (Hg ltac:(unfold u32_ok; lia) Hloc). rewrite EPc. destruct (params_at M (current v)) as [p|].
    - destruct Hg as (h2 & -> & ?). eauto.
    - destruct Hg as [-> ?]. rewrite bool_decide_true by done. eauto. }
  cbn [mbind res_bind]. assert (bft_rep h2 P v) as Hrep2 by (by eapply bft_rep_unchanged).
  fold (keeps_params (P (current v)) pre cert validators). destruct (keeps_params _ _ _ _); [by exists h2|].
  rewrite (u32_small (current v + 1)) by (unfold u32_ok; lia). fold (new_params pre cert validators).
  set (p := new_params pre cert validators) in *.
  pose proof (br_state _ _ _ Hrep2) as Hcs2. pose proof Hcs2 as [Hwf2 Hc2].
  destruct (Set_refines store ps h2 (Bytes.FromUint32 (current v + 1)) (Encode p)) as (h3 & Hset & Hf3 & Hc3 & Hv3);
    [by apply WithPrefix_wf|done|].
  assert (SetEncodable store ps (Bytes.FromUint32 (current v + 1)) p h2 = Ok h3) as -> by exact Hset.
  cbn [mbind res_bind]. rewrite ps_prefix in Hv3. cbn [d_cache WithPrefix] in *.
  assert (cache_state h3) as Hcs3 by (by eapply cache_state_frame).
  set (v2 := set_active _ v). destruct (setVotes_rep h3 v2 Hcs3) as (h4 & -> & Hcs4 & Hv4).
  exists h4. split; [done|]. split; [done| | |].
  - rewrite Hv4. unfold update, bytes_equal. by rewrite bool_decide_true.
  - destruct (br_votes_ok _ _ _ Hrep) as (? & ? & ? & ? & ?). split_and!; cbn; try done.
    apply next_active_ok; [unfold u32_ok; lia|done].
  - exists (<[current v + 1 := p]> M), lo. split_and!.
    + eapply params_rep_view; [|eapply (params_rep_insert h2 h3)]; try done.
      * intros y. rewrite Hv4. unfold update, bytes_equal. by rewrite bool_decide_false by apply votes_key_ne.
      * by eapply params_rep_unchanged.
      * unfold u32_ok; lia.
    + done.
    + done.
    + intros k Hk Hku. change (low v2) with (low v) in Hk. change (current v2) with (current v) in Hk |- *.
      unfold set_params. destruct (Z.ltb_spec (current v) k) as [Hgt|Hle].
      * symmetry. apply largest_params with (current v + 1). split; [by rewrite lookup_insert_eq|]. split; [lia|].
        intros k' Hk' Hle'. destruct (decide (current v + 1 = k')) as [<-|Hne]; [lia|].
        rewrite lookup_insert_ne in Hk' by done. by apply Hbound.
      * rewrite params_at_insert_below by lia. by apply HP.
    + intros k Hk. change (current v2) with (current v).
      destruct (decide (current v + 1 = k)) as [<-|Hne]; [lia|]. rewrite lookup_insert_ne in Hk by done. by apply Hbound.
Qed.

(** ** Genesis *)

Lemma genesis_simulation header h :
  cache_state h → 0 ≤ bh_Height header < MaxUint32 →
  (∀ y, seen h (pp ++ y) = None ∧ p_get store (pp ++ y) = None) →
  ∃ h', InitGenesisState store header s h = Ok h' ∧ bft_rep h' (λ _, None) (genesis_votes (bh_Height header)).
Proof using H0.
  intros Hcs Hh Hnone. unfold MaxUint32 in Hh. unfold InitGenesisState.
  destruct (setVotes_rep h (genesis_votes (bh_Height header)) Hcs) as (h' & -> & Hcs' & Hv').
  exists h'. split; [done|]. split; [done| | |].
  - rewrite Hv'. unfold update, bytes_equal. by rewrite bool_decide_true.
  - split_and!; cbn; try constructor; unfold u32_ok; lia.
  - exists ∅, 0. unfold low, current. cbn. split_and!; try (lia || done).
    + split; [|done|].
      * intros y val. rewrite Hv'. unfold update, bytes_equal. rewrite bool_decide_false by apply votes_key_ne.
        rewrite (proj1 (Hnone y)). split; [done|]. by intros (k & p & Hk & _).
      * intros k _ [x Hx]. by rewrite (proj2 (Hnone _)) in Hx.
    + unfold len. cbn. lia.
    + intros k [p Hp]. done.
Qed.
End represents.
