(* ===== verification/BFTRefine.v ===== *)
(** * BFTRefine: sequences of module operations refine the vote machine

    Runs of [InitGenesisState], [SetBFTParameters] and
    [BeforeTransactionsExecute] (pkg/consensus/liskbft) on a diff database, and
    the theorem that such a run performs the steps of the abstract vote machine
    of BFTSafety.v, so that what is proved of reachable states holds of what the
    database stores. *)

From S2P Require Import Prelude Collection Codec CodecSpec Message Crypto BlockTypes DB DiffDB ForkChoice BFTTypes Votes VotesSpec VotesInv BFTSafety LiskBFT BFTStore.

Inductive bft_op :=
| op_block (header : BlockHeader)
| op_params (precommitThreshold certificateThreshold : Z) (validators : list BFTValidator).

Section refine.
Context {S : Type} `{PebbleLaws S} `{Hasher} (store : S) (s : Database) (m : Module_).
Abbreviation state := ((Z → option BFTParams) * BFTVotes)%type.

(** An operation of the module on the database. *)
Definition run_op (op : bft_op) (h : heap) : res heap :=
  match op with
  | op_block header => BeforeTransactionsExecute store m header s h
  | op_params pre cert validators => SetBFTParameters store (m_api m) s pre cert validators h
  end.

Fixpoint run_ops (ops : list bft_op) (h : heap) : res heap :=
  match ops with
  | [] => Ok h
  | op :: ops => h ← run_op op h; run_ops ops h
  end.

(** What the operation does to the vote machine, under the guards of the caller:
    a header that passed the checks of the executer, parameters
    [SetBFTParameters] accepts. *)
Inductive op_step : bft_op → state → state → Prop :=
| op_step_block P v header v1 v' :
    header_ok v header → header_widths header → is_Some (P (bh_Height header)) → len (Encode v) < 2 ^ 63 →
    insertBlockBFTInfo header (m_maxLengthBlock m) v = Ok v1 → update_votes header v1 P = Ok (v', P) →
    op_step (op_block header) (P, v) (P, v')
| op_step_same P v pre cert validators :
    accepted (api_batchSize (m_api m)) pre cert validators → Forall BFTValidator_ok validators →
    len (Encode v) < 2 ^ 63 → len (Encode (new_params pre cert validators)) < 2 ^ 63 →
    current v < MaxUint32 → keeps_params (P (current v)) pre cert validators = true →
    op_step (op_params pre cert validators) (P, v) (P, v)
| op_step_set P v pre cert validators :
    accepted (api_batchSize (m_api m)) pre cert validators → Forall BFTValidator_ok validators →
    len (Encode v) < 2 ^ 63 → len (Encode (new_params pre cert validators)) < 2 ^ 63 →
    current v < MaxUint32 → keeps_params (P (current v)) pre cert validators = false →
    op_step (op_params pre cert validators) (P, v)
      (set_params (current v) (new_params pre cert validators) P,
       set_active (next_active (current v + 1) (bp_validators (new_params pre cert validators))
                     (vt_activeValidatorsVoteInfo v)) v).

Inductive ops_steps : list bft_op → state → state → Prop :=
| ops_nil a : ops_steps [] a a
| ops_cons op ops a b c : op_step op a b → ops_steps ops b c → ops_steps (op :: ops) a c.

Lemma reachable_current maxLength P v : 1 ≤ maxLength → reachable maxLength (P, v) → 0 ≤ current v.
Proof using.
  intros Hm Hr. destruct (reachable_inv _ _ _ Hm Hr) as [(pv & pc & Hinv) _].
  pose proof (inv_current _ _ _ _ Hinv). lia.
Qed.

Lemma run_op_refines op a b h :
  store_ok store s → 1 ≤ m_maxLengthBlock m → reachable (m_maxLengthBlock m) a → bft_rep store s h a.1 a.2 →
  op_step op a b →
  ∃ h', run_op op h = Ok h' ∧ bft_rep store s h' b.1 b.2 ∧ reachable (m_maxLengthBlock m) b.
Proof using H0.
  intros Hst Hm Hr Hrep Hs. destruct Hs as [P v header v1 v'|P v pre cert validators|P v pre cert validators]; cbn [run_op fst snd] in *.
  - destruct (block_simulation store s P v v1 v' header (m_maxLengthBlock m) h) with (m := m) as (h' & -> & Hrep'); try done.
    exists h'. split_and!; [done..|]. eapply reach_step; [exact Hr|]. by eapply step_block.
  - pose proof (reachable_current _ _ _ Hm Hr). 
    destruct (set_params_simulation store s (m_api m) P v pre cert validators h) as (h' & -> & Hrep'); [done..|].
    match goal with E : keeps_params _ _ _ _ = _ |- _ => rewrite E in Hrep' end. eauto.
  - pose proof (reachable_current _ _ _ Hm Hr). 
    destruct (set_params_simulation store s (m_api m) P v pre cert validators h) as (h' & -> & Hrep'); [done..|].
    match goal with E : keeps_params _ _ _ _ = _ |- _ => rewrite E in Hrep' end.
    exists h'. split_and!; [done..|]. eapply reach_step; [exact Hr|]. apply step_params.
    by eapply new_params_ok.
Qed.

Lemma run_ops_refines ops a b h :
  store_ok store s → 1 ≤ m_maxLengthBlock m → ops_steps ops a b →
  reachable (m_maxLengthBlock m) a → bft_rep store s h a.1 a.2 →
  ∃ h', run_ops ops h = Ok h' ∧ bft_rep store s h' b.1 b.2 ∧ reachable (m_maxLengthBlock m) b.
Proof using H0.
  intros Hst Hm Hs. revert h. induction Hs as [a|op ops a b c Hop Hs IH]; intros h Hr Hrep; [by exists h|].
  destruct (run_op_refines op a b h) as (h1 & E & Hrep1 & Hr1); [done..|]. cbn [run_ops]. rewrite E.
  cbn [mbind res_bind]. by apply IH.
Qed.

(** C3: the Lisk-BFT module implements the abstract vote machine.  Started from
    [InitGenesisState] on a database without stored parameters, any sequence of
    accepted [SetBFTParameters] and of [BeforeTransactionsExecute] on valid
    headers succeeds (no error, no panic, the cache loop terminates), the votes
    the database then stores are the encoding of the votes of a reachable state
    of the machine, the stored parameters are those of the machine from the
    lowest tracked height on, and [GetBFTHeights] returns the three heights of
    that state. *)
Theorem module_refines_vote_machine genesis ops b h :
  store_ok store s → 1 ≤ m_maxLengthBlock m → cache_state store s h → 0 ≤ bh_Height genesis < MaxUint32 →
  (∀ y, let key := (d_prefix s ++ dbPrefix storePrefixBFTParams) ++ y in
        view store (deref h (d_cache s)) key = None ∧ p_get store key = None) →
  ops_steps ops (λ _, None, genesis_votes (bh_Height genesis)) b → len (Encode b.2) < 2 ^ 63 →
  ∃ h1 h2 h3, InitGenesisState store genesis s h = Ok h1 ∧ run_ops ops h1 = Ok h2 ∧
    bft_rep store s h2 b.1 b.2 ∧ reachable (m_maxLengthBlock m) b ∧
    GetBFTHeights store s h2
    = Ok ((vt_maxHeightPrevoted b.2, vt_maxHeightPrecommited b.2, vt_maxHeightCertified b.2), h3).
Proof using H0.
  intros Hst Hm Hcs Hg Hnone Hops Hlen.
  destruct (genesis_simulation store s genesis h) as (h1 & E1 & Hrep1); [done..|].
  destruct (run_ops_refines ops _ b h1 Hst Hm Hops) as (h2 & E2 & Hrep2 & Hr2); [by apply reach_genesis|done|].
  destruct (getVotes_rep store s h2 b.2) as (h3 & E3 & _); [apply Hrep2..|done|].
  exists h1, h2, h3. split_and!; try done. unfold GetBFTHeights. by rewrite E3.
Qed.

(** ** Which parameters are accepted *)

Lemma aggregate_error validators acc :
  ¬ Forall (λ x, 0 < bv_bftWeight x) validators → ∃ e, aggregate validators acc = Err e.
Proof using.
  revert acc. induction validators as [|x validators IH]; intros acc Hn; cbn [aggregate].
  { by destruct Hn. }
  destruct (Z.leb_spec (bv_bftWeight x) 0); [eauto|]. apply IH. intros Hf. apply Hn. by constructor.
Qed.

(** On a database that represents a state of the vote machine and for
    weights whose sum fits in uint64, [SetBFTParameters] succeeds exactly when
    there are at most batchSize validators, all weights are positive and both
    thresholds lie in (total/3, total]; in every other case it returns an error
    and never panics. *)
Theorem SetBFTParameters_accepts P v pre cert validators h :
  store_ok store s → bft_rep store s h P v → 0 ≤ current v < MaxUint32 → len (Encode v) < 2 ^ 63 →
  total_weight validators < 2 ^ 64 → Forall BFTValidator_ok validators →
  len (Encode (new_params pre cert validators)) < 2 ^ 63 →
  let r := SetBFTParameters store (m_api m) s pre cert validators h in
  (accepted (api_batchSize (m_api m)) pre cert validators → ∃ h', r = Ok h') ∧
  (¬ accepted (api_batchSize (m_api m)) pre cert validators → ∃ e, r = Err e).
Proof using H0.
  intros Hst Hrep Hcur Hlen Htot Hok Hplen r. split.
  - intros Hacc. destruct (set_params_simulation store s (m_api m) P v pre cert validators h) as (h' & E & _); [done..|].
    by exists h'.
  - intros Hn. unfold r, SetBFTParameters, accepted in *. destruct (Z.ltb_spec (api_batchSize (m_api m)) (len validators)); [eauto|].
    destruct (decide (Forall (λ x, 0 < bv_bftWeight x) validators)) as [Hpos|Hneg].
    2: { destruct (aggregate_error validators 0 Hneg) as [e ->]. by exists e. }
    rewrite aggregate_total by (done || lia). cbn [mbind res_bind]. rewrite Z.add_0_l.
    assert (0 ≤ total_weight validators) by (clear -Hpos; induction Hpos; cbn; lia).
    assert (0 ≤ total_weight validators / 3 ≤ total_weight validators) as Hdiv
      by (split; [apply Z.div_pos; lia|apply Z.div_le_upper_bound; lia]).
    assert (total_weight validators / 3 < 2 ^ 63) by (apply Z.div_lt_upper_bound; lia).
    rewrite (u64_small (total_weight validators / 3 + 1)) by (unfold u64_ok; lia).
    set (total := total_weight validators) in *. destruct (Z.ltb_spec pre (total / 3 + 1)); [by eexists|].
    destruct (Z.ltb_spec total pre); [by eexists|]. destruct (Z.ltb_spec cert (total / 3 + 1)); [by eexists|].
    destruct (Z.ltb_spec total cert); [by eexists|]. exfalso. apply Hn. split_and!; try done; lia.
Qed.

(** The prevote threshold [SetBFTParameters] stores exceeds two thirds of the
    total weight, so two prevote quorums share more than a third of it, as long
    as twice the total fits in uint64; when it does not the product wraps, and
    the threshold of validators weighing 2^63 is 1, below any quorum. *)
Theorem prevote_threshold_bounds pre cert validators :
  Forall (λ x, 0 < bv_bftWeight x) validators →
  let total := total_weight validators in
  let t := bp_prevoteThreshold (new_params pre cert validators) in
  (total * 2 < 2 ^ 64 → 2 * total < 3 * t ∧ (0 < total → t ≤ total) ∧ total < 3 * (2 * t - total)) ∧
  (total = 2 ^ 63 → t = 1).
Proof using.
  intros Hpos total t. assert (0 ≤ total) by (unfold total; clear -Hpos; induction Hpos; cbn; lia).
  unfold t, new_params. cbn [bp_prevoteThreshold]. fold total. split.
  - intros Hlt. rewrite (u64_small (total * 2)) by (unfold u64_ok; lia).
    pose proof (Z.div_mod (total * 2) 3 ltac:(lia)). pose proof (Z.mod_pos_bound (total * 2) 3 ltac:(lia)).
    rewrite u64_small by (unfold u64_ok; lia). lia.
  - intros ->. reflexivity.
Qed.
End refine.

(** ** A run *)

Definition sample_validators : list BFTValidator :=
  [mkBFTValidator [4] 1 [44]; mkBFTValidator [3] 1 [33]; mkBFTValidator [2] 1 [22]; mkBFTValidator [1] 1 [11]].

Definition sample_ops : list bft_op :=
  op_params 3 3 sample_validators :: (op_block <$> sample_headers).

#[local] Instance accepted_dec b pre cert validators : Decision (accepted b pre cert validators).
Proof. unfold accepted. apply _. Defined.

#[local] Instance BFTValidator_ok_dec x : Decision (BFTValidator_ok x).
Proof. unfold BFTValidator_ok, u64_ok. apply _. Defined.

Definition widths_okb (header : BlockHeader) : bool :=
  match bh_AggregateCommit header with Some c => bool_decide (0 ≤ ac_Height c < 2 ^ 32) | None => true end.

Section run.
Context `{Hasher} (m : Module_).

Definition params_guard (pre cert : Z) (validators : list BFTValidator) (v : BFTVotes) : bool :=
  bool_decide (accepted (api_batchSize (m_api m)) pre cert validators)
  && bool_decide (Forall BFTValidator_ok validators)
  && (len (Encode v) <? 2 ^ 63) && (len (Encode (new_params pre cert validators)) <? 2 ^ 63)
  && (current v <? MaxUint32).

Definition block_guard (header : BlockHeader) (P : Z → option BFTParams) (v : BFTVotes) : bool :=
  header_okb v header && widths_okb header && bool_decide (is_Some (P (bh_Height header)))
  && (len (Encode v) <? 2 ^ 63).

(** The run of the vote machine, which stops at an operation it does not admit. *)
Fixpoint abstract_run (ops : list bft_op) (P : Z → option BFTParams) (v : BFTVotes)
    : option ((Z → option BFTParams) * BFTVotes) :=
  match ops with
  | [] => Some (P, v)
  | op_block header :: ops =>
      if block_guard header P v then
        match insertBlockBFTInfo header (m_maxLengthBlock m) v with
        | Ok v1 => match update_votes header v1 P with Ok (v', _) => abstract_run ops P v' | _ => None end
        | _ => None
        end
      else None
  | op_params pre cert validators :: ops =>
      let p := new_params pre cert validators in
      if params_guard pre cert validators v then
        if keeps_params (P (current v)) pre cert validators then abstract_run ops P v
        else abstract_run ops (set_params (current v) p P)
               (set_active (next_active (current v + 1) (bp_validators p) (vt_activeValidatorsVoteInfo v)) v)
      else None
  end.

Lemma abstract_run_steps ops P v b :
  1 ≤ m_maxLengthBlock m → reachable (m_maxLengthBlock m) (P, v) →
  abstract_run ops P v = Some b → ops_steps m ops (P, v) b.
Proof using.
  intros Hm. revert P v. induction ops as [|[header|pre cert validators] ops IH]; intros P v Hr; cbn [abstract_run].
  - intros [= <-]. constructor.
  - destruct (block_guard header P v) eqn:Hg; [|done]. unfold block_guard in Hg. rewrite !andb_true_iff in Hg.
    destruct Hg as (((Hok%header_okb_true & Hw) & Hp%bool_decide_eq_true) & Hlen). zbool.
    destruct (insertBlockBFTInfo _ _ v) as [v1| | |] eqn:Hins; try done.
    destruct (update_votes header v1 P) as [[v' c']| | |] eqn:Hup; try done. intros Hrun.
    assert (c' = P) as -> by (by eapply update_votes_fun).
    assert (header_widths header) as Hwid.
    { intros c E. unfold widths_okb in Hw. rewrite E in Hw. by apply bool_decide_eq_true in Hw. }
    econstructor; [by eapply op_step_block|]. apply IH; [|done]. eapply reach_step; [exact Hr|]. by eapply step_block.
  - destruct (params_guard pre cert validators v) eqn:Hg; [|done]. unfold params_guard in Hg.
    rewrite !andb_true_iff, !bool_decide_eq_true in Hg. destruct Hg as ((((Hacc & Hval) & Hlen) & Hplen) & Hcur). zbool.
    destruct (keeps_params _ _ _ _) eqn:Hk; intros Hrun.
    + econstructor; [by apply op_step_same|]. by apply IH.
    + econstructor; [by apply op_step_set|]. apply IH; [|done]. eapply reach_step; [exact Hr|]. apply step_params.
      by eapply new_params_ok.
Qed.
End run.

Abbreviation sample_module := (Module_Init 4).
Abbreviation sample_db := ((New [0] []).1).
Abbreviation sample_heap := ((New [0] []).2).

Definition sample_end : (Z → option BFTParams) * BFTVotes :=
  default (λ _, None, genesis_votes 0)
    (abstract_run (H := toy_hash) sample_module sample_ops (λ _, None) (genesis_votes 0)).

Lemma module_refines_vote_machine_witness :
  ∃ h1 h2 h3, InitGenesisState (S := gmap bytes bytes) ∅ (vote_header 0 [] 0 0) sample_db sample_heap = Ok h1 ∧
    run_ops (H1 := toy_hash) (S := gmap bytes bytes) ∅ sample_db sample_module sample_ops h1 = Ok h2 ∧
    GetBFTHeights (S := gmap bytes bytes) ∅ sample_db h2 = Ok ((6, 3, 0), h3).
Proof.
  destruct (module_refines_vote_machine (H1 := toy_hash) (S := gmap bytes bytes) ∅ sample_db sample_module
    (vote_header 0 [] 0 0) sample_ops sample_end sample_heap) as (h1 & h2 & h3 & E1 & E2 & _ & _ & E3).
  - split_and!; [by repeat constructor|by intros K [x Hx]|by intros y [x Hx]].
  - done.
  - split; [by split; cbn; [|lia]|by intros k cv Hk].
  - cbn. unfold MaxUint32. lia.
  - intros y. split; done.
  - assert (abstract_run (H := toy_hash) sample_module sample_ops (λ _, None) (genesis_votes 0) ≠ None) as Hne.
    { by vm_compute. }
    apply (abstract_run_steps (H := toy_hash) sample_module sample_ops); [done|apply (reach_genesis _ 0); unfold MaxUint32; lia|].
    unfold sample_end. destruct (abstract_run _ _ _ _) as [b|]; [exact eq_refl|by destruct Hne].
  - by vm_compute.
  - exists h1, h2, h3. split; [exact E1|]. split; [exact E2|]. rewrite E3.
    assert (vt_maxHeightPrevoted sample_end.2 = 6 ∧ vt_maxHeightPrecommited sample_end.2 = 3
      ∧ vt_maxHeightCertified sample_end.2 = 0) as (-> & -> & ->) by (by vm_compute). reflexivity.
Defined.

Lemma SetBFTParameters_accepts_witness :
  ∃ h e, InitGenesisState (S := gmap bytes bytes) ∅ (vote_header 0 [] 0 0) sample_db sample_heap = Ok h ∧
    SetBFTParameters (H0 := toy_hash) (S := gmap bytes bytes) ∅ (m_api sample_module) sample_db 1 3 sample_validators h = Err e.
Proof.
  destruct (genesis_simulation (S := gmap bytes bytes) ∅ sample_db (vote_header 0 [] 0 0) sample_heap) as (h & E & Hrep).
  - split; [by split; cbn; [|lia]|by intros k cv Hk].
  - cbn. unfold MaxUint32. lia.
  - intros y. split; done.
  - destruct (SetBFTParameters_accepts (H1 := toy_hash) (S := gmap bytes bytes) ∅ sample_db sample_module
      (λ _, None) (genesis_votes 0) 1 3 sample_validators h) as [_ Hno].
    + split_and!; [by repeat constructor|by intros K [x Hx]|by intros y [x Hx]].
    + exact Hrep.
    + unfold current, MaxUint32. cbn. lia.
    + by vm_compute.
    + by vm_compute.
    + by repeat constructor.
    + by vm_compute.
    + destruct Hno as [e He]; [|exists h, e; exact (conj E He)].
      intros (_ & _ & _ & Hpre & _). assert (total_weight sample_validators / 3 = 1) as Et by reflexivity. lia.
Defined.

Lemma prevote_threshold_bounds_witness :
  bp_prevoteThreshold (new_params (H1 := toy_hash) 3 3 [mkBFTValidator [1] (2 ^ 63) [1]]) = 1.
Proof. apply (prevote_threshold_bounds (H1 := toy_hash)); [by repeat constructor|reflexivity]. Defined.
