(* ===== verification/SMT.v ===== *)
(** * SMT: the sparse Merkle tree of pkg/trie/smt

    node.go, hasher.go, subtree.go, smt.go, utils.go, proof.go and verify.go.
    The tree is stored as subtrees of eight levels: a subtree is a list of
    nodes with their depths ([structure]), kept in the database under the hash
    of its root, and a node of depth eight may be a stub, the hash of a further
    subtree.

    [updateNode] starts a goroutine for each half and waits for both; the two
    work on disjoint keys and the model runs the left one first.  [Prove] starts
    one goroutine per query on a copy of the root, which the model runs in
    order.  An error drops the database, as the callers do. *)

From S2P Require Import Prelude Collection Codec CodecSpec Message Crypto.

(** ** The database *)

(** [DBReader] and [DBWriter]. *)
Class DBReadWriter (D : Type) := {
  db_Get : D → bytes → option bytes;
  db_Set : bytes → bytes → D → D;
  db_Del : bytes → D → D;
}.

Class DBLaws (D : Type) `{DBReadWriter D} := {
  db_Get_Set : ∀ d k v k', db_Get (db_Set k v d) k' = if bytes_equal k k' then Some v else db_Get d k';
  db_Get_Del : ∀ d k k', db_Get (db_Del k d) k' = if bytes_equal k k' then None else db_Get d k';
}.

#[export] Instance gmap_db : DBReadWriter (gmap bytes bytes) := {
  db_Get d k := d !! k;
  db_Set k v d := <[k := v]> d;
  db_Del k d := delete k d;
}.

#[export] Instance gmap_db_laws : DBLaws (gmap bytes bytes).
Proof.
  split; intros; cbn; unfold bytes_equal; case_bool_decide as E; subst.
  - by rewrite lookup_insert_eq.
  - by rewrite lookup_insert_ne.
  - by rewrite lookup_delete_eq.
  - by rewrite lookup_delete_ne.
Qed.

(** ** proof.go and proof_codec.go *)

Record QueryProof := mkQueryProof {
  q_Key : bytes;
  q_Value : bytes;
  q_Bitmap : bytes;
  q_binaryBitmap : list bool;
  q_siblingHashes : list bytes;
  q_ancestorHashes : list bytes;
  q_hash : bytes;
}.

Record Proof := mkProof {
  p_SiblingHashes : list bytes;
  p_Queries : list QueryProof;
}.

(** Only the exported fields are encoded. *)
Definition QueryProof_Encode (e : QueryProof) : bytes :=
  Result (NewWriter
    |> WriteBytes 1 (q_Key e)
    |> WriteBytes 2 (q_Value e)
    |> WriteBytes 3 (q_Bitmap e)).

Definition QueryProof_DecodeFromReader (strict : bool) (r : Reader) : res (QueryProof * Reader) :=
  '(Key_, r) ← ReadBytes 1 strict r;
  '(Value_, r) ← ReadBytes 2 strict r;
  '(Bitmap_, r) ← ReadBytes 3 strict r;
  Ok (mkQueryProof Key_ Value_ Bitmap_ [] [] [] [], r).

Definition QueryProof_ok (e : QueryProof) : Prop :=
  q_binaryBitmap e = [] ∧ q_siblingHashes e = [] ∧ q_ancestorHashes e = [] ∧ q_hash e = [].

Lemma QueryProof_reads strict e :
  QueryProof_ok e → Reads 1 4 (QueryProof_DecodeFromReader strict) (QueryProof_Encode e) e.
Proof.
  intros Hok. destruct e. unfold QueryProof_ok, QueryProof_DecodeFromReader, QueryProof_Encode in *. solve_reads.
Qed.

#[export] Hint Resolve QueryProof_reads : reads.

Lemma QueryProof_total strict : Total 0 (QueryProof_DecodeFromReader strict).
Proof. unfold QueryProof_DecodeFromReader. solve_total. Qed.
#[export] Hint Resolve QueryProof_total : go.

#[export] Instance QueryProof_Message : Message QueryProof :=
  { Encode := QueryProof_Encode; DecodeFromReader := QueryProof_DecodeFromReader; msg_ok := QueryProof_ok }.
#[export] Instance QueryProof_MessageLaws : MessageLaws QueryProof.
Proof. split. eexists. intros. by apply QueryProof_reads. Qed.

Definition Proof_Encode (e : Proof) : bytes :=
  Result (NewWriter
    |> WriteBytesArray 1 (p_SiblingHashes e)
    |> (λ w, foldl (λ w val, WriteEncodable 2 (Some (QueryProof_Encode val)) w) w (p_Queries e))).

Definition Proof_DecodeFromReader (strict : bool) (r : Reader) : res (Proof * Reader) :=
  '(SiblingHashes_, r) ← ReadBytesArray 1 r;
  '(Queries_, r) ← ReadDecodables 2 (QueryProof_DecodeFromReader false) r;
  Ok (mkProof SiblingHashes_ Queries_, r).

Definition Proof_ok (e : Proof) : Prop := Forall QueryProof_ok (p_Queries e).

Lemma SMT_Proof_reads strict e :
  Proof_ok e → Reads 1 3 (Proof_DecodeFromReader strict) (Proof_Encode e) e.
Proof. intros Hok. destruct e. unfold Proof_ok, Proof_DecodeFromReader, Proof_Encode in *. solve_reads. Qed.

#[export] Hint Resolve SMT_Proof_reads : reads.

Lemma SMT_Proof_total strict : Total 0 (Proof_DecodeFromReader strict).
Proof. unfold Proof_DecodeFromReader. solve_total. Qed.
#[export] Hint Resolve SMT_Proof_total : go.

#[export] Instance Proof_Message : Message Proof :=
  { Encode := Proof_Encode; DecodeFromReader := Proof_DecodeFromReader; msg_ok := Proof_ok }.
#[export] Instance Proof_MessageLaws : MessageLaws Proof.
Proof. split. eexists. intros. by apply SMT_Proof_reads. Qed.

(** ** node.go *)

Inductive nodeKind := nodeKindEmpty | nodeKindLeaf | nodeKindStub | nodeKindTemp.

#[export] Instance nodeKind_eq_dec : EqDecision nodeKind.
Proof. solve_decision. Defined.

Definition is_kind (a b : nodeKind) : bool := bool_decide (a = b).

Record node := mkNode {
  n_kind : nodeKind;
  n_key : bytes;
  n_data : bytes;
  n_hash : bytes;
  n_index : Z;
}.

Definition set_index (i : Z) (n : node) : node := mkNode (n_kind n) (n_key n) (n_data n) (n_hash n) i.

Definition prefixLeafHash : bytes := [0].
Definition prefixBranchHash : bytes := [1].
Definition prefixEmpty : bytes := [2].

Section smt.
Context `{Hasher}.

Definition emptyHash : bytes := Hash [].
Definition hashSize : Z := len emptyHash.

Definition newEmptyNode : node := mkNode nodeKindEmpty [] prefixEmpty emptyHash 0.

Definition newLeafNode (key value : bytes) : node :=
  let data := Bytes.Join [prefixLeafHash; key; value] in
  mkNode nodeKindLeaf key data (Hash data) 0.

Definition newBranchNode (left right : bytes) : node :=
  let data := Bytes.Join [prefixBranchHash; left; right] in
  mkNode nodeKindStub [] data (Hash data) 0.

Definition newStubNode (nodeHash : bytes) : node :=
  mkNode nodeKindStub [] (Bytes.Join [prefixBranchHash; nodeHash]) nodeHash 0.

Definition newTempNode : node := mkNode nodeKindTemp [] [] [] 0.

(** ** hasher.go *)

(** The loop over the nodes: those of the given height are hashed in pairs. *)
Fixpoint treeHasher_pass (height : Z) (nodeHashes : list bytes) (structure : list Z)
    : res (list bytes * list Z) :=
  match nodeHashes with
  | [] => Ok ([], [])
  | x :: nodeHashes =>
      match structure with
      | [] => Panic
      | s :: structure =>
          if negb (s =? height) then
            '(hs, st) ← treeHasher_pass height nodeHashes structure;
            Ok (x :: hs, s :: st)
          else
            match nodeHashes with
            | [] => Panic
            | y :: nodeHashes =>
                '(hs, st) ← treeHasher_pass height nodeHashes (tail structure);
                Ok (n_hash (newBranchNode x y) :: hs, u8 (s - 1) :: st)
            end
      end
  end.

Fixpoint treeHasher_rec (fuel : nat) (nodeHashes : list bytes) (structure : list Z) (height : Z) : res bytes :=
  match fuel with
  | O => OutOfFuel
  | S fuel =>
      if len nodeHashes =? 1 then index nodeHashes 0
      else
        '(nextHashes, nextStructure) ← treeHasher_pass height nodeHashes structure;
        if height =? 1 then index nextHashes 0
        else treeHasher_rec fuel nextHashes nextStructure (u8 (height - 1))
  end.

(** The height goes down to one, from 255 when it starts at zero. *)
Definition treeHasher (nodeHashes : list bytes) (structure : list Z) (height : Z) : res bytes :=
  treeHasher_rec 257 nodeHashes structure height.

(** ** subtree.go *)

Abbreviation nodeHasher := (list bytes → list Z → Z → res bytes).

Record subTree := mkSubTree {
  st_structure : list Z;
  st_root : bytes;
  st_nodes : list node;
}.

Definition newSubtreeFromData (structure : list Z) (nodes : list node) (hasher : nodeHasher) : res subTree :=
  height ← Ints.Max structure;
  let hashes := n_hash <$> nodes in
  calculated ← hasher hashes structure height;
  Ok (mkSubTree structure calculated nodes).

(** The loop over the node data; every round consumes a byte at least. *)
Fixpoint read_nodes (fuel : nat) (keyLength : Z) (nodeData : bytes) : res (list node) :=
  match nodeData with
  | [] => Ok []
  | b :: _ =>
      match fuel with
      | O => OutOfFuel
      | S fuel =>
          if b =? 0 then
            key ← slice nodeData (len prefixLeafHash) (len prefixLeafHash + keyLength);
            value ← slice nodeData (len prefixLeafHash + keyLength) (len prefixLeafHash + keyLength + hashSize);
            rest ← slice nodeData (len prefixLeafHash + keyLength + hashSize) (len nodeData);
            nodes ← read_nodes fuel keyLength rest;
            Ok (newLeafNode key value :: nodes)
          else if b =? 1 then
            nodeHash ← slice nodeData (len prefixBranchHash) (len prefixBranchHash + hashSize);
            rest ← slice nodeData (len prefixBranchHash + hashSize) (len nodeData);
            nodes ← read_nodes fuel keyLength rest;
            Ok (newStubNode nodeHash :: nodes)
          else if b =? 2 then
            rest ← slice nodeData (len prefixEmpty) (len nodeData);
            nodes ← read_nodes fuel keyLength rest;
            Ok (newEmptyNode :: nodes)
          else Err (Errorf "fail to create subtree. invalid data prefix")
      end
  end.

Definition newSubTree (data : bytes) (keyLength : Z) (hasher : nodeHasher) : res subTree :=
  match data with
  | [] => Err (Errorf "fail to create subtree. data size is zero")
  | first :: _ =>
      let nodeLength := first + 1 in
      structure ← slice data 1 (nodeLength + 1);
      nodeData ← slice data (nodeLength + 1) (len data);
      nodes ← read_nodes (length nodeData) keyLength nodeData;
      newSubtreeFromData structure nodes hasher
  end.

Definition newEmptySubTree : subTree :=
  let emptyNode := newEmptyNode in mkSubTree [0] (n_hash emptyNode) [emptyNode].

Definition subTree_encode (t : subTree) : bytes :=
  let nodeLength := len (st_structure t) - 1 in
  Bytes.Join ([u8 nodeLength] :: st_structure t :: (n_data <$> st_nodes t)).

(** ** utils.go *)

(** [nodeStructure]: nodes and their depths. *)
Abbreviation nodeStructure := (list node * list Z)%type.

(** Pops the last element. *)
Definition pop_last {A} (l : list A) : res (A * list A) :=
  match last l with Some x => Ok (x, take (pred (length l)) l) | None => Panic end.

(** What a node stands for: a temporary node for the last entry of the holder. *)
Definition resolve (n : node) (s : Z) (tempHolder : list nodeStructure) : res (nodeStructure * list nodeStructure) :=
  if is_kind (n_kind n) nodeKindTemp then pop_last tempHolder
  else Ok (([n], [s]), tempHolder).

(** The body for a pair of nodes of the height. *)
Definition join_pair (n1 n2 : node) (s1 : Z) (s2 : option Z) (tempHolder : list nodeStructure)
    : res (node * list nodeStructure) :=
  if is_kind (n_kind n1) nodeKindEmpty && is_kind (n_kind n2) nodeKindEmpty then Ok (n1, tempHolder)
  else if is_kind (n_kind n1) nodeKindEmpty && is_kind (n_kind n2) nodeKindLeaf then Ok (n2, tempHolder)
  else if is_kind (n_kind n1) nodeKindLeaf && is_kind (n_kind n2) nodeKindEmpty then Ok (n1, tempHolder)
  else
    '((leftNodes, leftStructure), tempHolder) ← resolve n1 s1 tempHolder;
    '((rightNodes, rightStructure), tempHolder) ←
      (if is_kind (n_kind n2) nodeKindTemp then pop_last tempHolder
       else match s2 with Some s2 => Ok (([n2], [s2]), tempHolder) | None => Panic end);
    let tempStructure := leftStructure ++ rightStructure in
    let tempNodes := leftNodes ++ rightNodes in
    Ok (newTempNode, (tempNodes, tempStructure) :: tempHolder).

Fixpoint calculateSubTree_pass (height : Z) (nodes : list node) (structure : list Z)
    (tempHolder : list nodeStructure) : res (list node * list Z * list nodeStructure) :=
  match nodes with
  | [] => Ok ([], [], tempHolder)
  | n1 :: nodes =>
      match structure with
      | [] => Panic
      | s :: structure =>
          if negb (s =? height) then
            '(ns, st, tempHolder) ← calculateSubTree_pass height nodes structure tempHolder;
            Ok (n1 :: ns, s :: st, tempHolder)
          else
            match nodes with
            | [] => Panic
            | n2 :: nodes =>
                '(parentNode, tempHolder) ← join_pair n1 n2 s (head structure) tempHolder;
                '(ns, st, tempHolder) ← calculateSubTree_pass height nodes (tail structure) tempHolder;
                Ok (parentNode :: ns, u8 (s - 1) :: st, tempHolder)
            end
      end
  end.

Fixpoint calculateSubTree_rec (fuel : nat) (nodes : list node) (structure : list Z) (height : Z)
    (hasher : nodeHasher) (tempHolder : list nodeStructure) : res subTree :=
  match fuel with
  | O => OutOfFuel
  | S fuel =>
      if height =? 0 then newSubtreeFromData [0] nodes hasher
      else
        '(nextNodes, nextStructure, tempHolder) ← calculateSubTree_pass height nodes structure tempHolder;
        if height =? 1 then
          first ← index nextNodes 0;
          if is_kind (n_kind first) nodeKindTemp then
            '(ns, st) ← index tempHolder 0;
            newSubtreeFromData st ns hasher
          else newSubtreeFromData [0] nextNodes hasher
        else calculateSubTree_rec fuel nextNodes nextStructure (height - 1) hasher tempHolder
  end.

Definition calculateSubTree (nodes : list node) (structure : list Z) (height : Z) (hasher : nodeHasher)
    (tempHolder : list nodeStructure) : res subTree :=
  calculateSubTree_rec (S (Z.to_nat height)) nodes structure height hasher tempHolder.

(** [UniqueAndSort]: the last value of a key wins. *)
Fixpoint unique_last (kvs : list (bytes * bytes)) (sortingKVs : list (bytes * bytes)) : list (bytes * bytes) :=
  match kvs with
  | [] => sortingKVs
  | (key, value) :: kvs =>
      if existsb (λ e, bytes_equal e.1 key) sortingKVs
      then unique_last kvs ((λ e, if bytes_equal e.1 key then (key, value) else e) <$> sortingKVs)
      else unique_last kvs (sortingKVs ++ [(key, value)])
  end.

Definition UniqueAndSort (keys values : list bytes) : list bytes * list bytes :=
  let sorted := sort_slice (λ x y, bytes_ltb x.1 y.1) (unique_last (zip keys values) []) in
  (sorted.*1, sorted.*2).

(** The loop of [calculateQueryHashes]; [i] is the position in the list the
    loop started with, which gives the parents their index. *)
Fixpoint queryHashes_pass (height maxIndex i nextTargetID : Z) (nodes : list node) (structure : list Z)
    : res (list node * list Z * list bytes * list bytes * list bool * Z * Z) :=
  match nodes with
  | [] => Ok ([], [], [], [], [], nextTargetID, i)
  | n1 :: nodes =>
      match structure with
      | [] => Panic
      | s :: structure =>
          if negb (s =? height) then
            '(ns, st, sib, anc, bits, target, i) ←
              queryHashes_pass height maxIndex (i + 1) nextTargetID nodes structure;
            Ok (n1 :: ns, s :: st, sib, anc, bits, target, i)
          else
            match nodes with
            | [] => Panic
            | n2 :: nodes =>
                let parentNode := set_index (maxIndex + i) (newBranchNode (n_hash n1) (n_hash n2)) in
                let other :=
                  if nextTargetID =? n_index n1 then Some n2
                  else if nextTargetID =? n_index n2 then Some n1 else None in
                let target := match other with Some _ => n_index parentNode | None => nextTargetID end in
                '(ns, st, sib, anc, bits, target, i) ←
                  queryHashes_pass height maxIndex (i + 2) target nodes (tail structure);
                match other with
                | Some o =>
                    if is_kind (n_kind o) nodeKindEmpty then
                      Ok (parentNode :: ns, u8 (s - 1) :: st, sib, n_hash parentNode :: anc, false :: bits, target, i)
                    else
                      Ok (parentNode :: ns, u8 (s - 1) :: st, n_hash o :: sib, n_hash parentNode :: anc,
                          true :: bits, target, i)
                | None => Ok (parentNode :: ns, u8 (s - 1) :: st, sib, anc, bits, target, i)
                end
            end
      end
  end.

Fixpoint calculateQueryHashes_rec (fuel : nat) (nodes : list node) (structure : list Z) (height targetID maxIndex : Z)
    (siblingHashes ancestorHashes : list bytes) (binaryBitmap : list bool)
    : res (list bytes * list bytes * list bool) :=
  match fuel with
  | O => OutOfFuel
  | S fuel =>
      if height =? 0 then Ok (siblingHashes, ancestorHashes, binaryBitmap)
      else
        '(nextNodes, nextStructure, sib, anc, bits, nextTargetID, i) ←
          queryHashes_pass height maxIndex 0 targetID nodes structure;
        calculateQueryHashes_rec fuel nextNodes nextStructure (height - 1) nextTargetID (maxIndex + i)
          (reverse sib ++ siblingHashes) (reverse anc ++ ancestorHashes) (binaryBitmap ++ bits)
  end.

Definition calculateQueryHashes (nodes : list node) (structure : list Z) (height targetID maxIndex : Z)
    (siblingHashes ancestorHashes : list bytes) (binaryBitmap : list bool)
    : res (list bytes * list bytes * list bool) :=
  calculateQueryHashes_rec (S (Z.to_nat height)) nodes structure height targetID maxIndex
    siblingHashes ancestorHashes binaryBitmap.

(** ** proof.go *)

Definition newQueryProof (key value : bytes) (binaryBitmap : list bool) (ancestorHashes siblingHashes : list bytes)
    : QueryProof :=
  let hash := if negb (len value =? 0) then n_hash (newLeafNode key value) else emptyHash in
  mkQueryProof key value (Bytes.FromBools binaryBitmap) binaryBitmap siblingHashes ancestorHashes hash.

Definition q_height (q : QueryProof) : Z := len (q_binaryBitmap q).

Definition sliceBinaryBitmap (i : Z) (q : QueryProof) : res QueryProof :=
  b ← slice (q_binaryBitmap q) i (len (q_binaryBitmap q));
  Ok (mkQueryProof (q_Key q) (q_Value q) (Bytes.FromBools b) b (q_siblingHashes q) (q_ancestorHashes q) (q_hash q)).

Definition set_siblingHashes (l : list bytes) (q : QueryProof) : QueryProof :=
  mkQueryProof (q_Key q) (q_Value q) (q_Bitmap q) (q_binaryBitmap q) l (q_ancestorHashes q) (q_hash q).

Definition set_hash (h : bytes) (q : QueryProof) : QueryProof :=
  mkQueryProof (q_Key q) (q_Value q) (q_Bitmap q) (q_binaryBitmap q) (q_siblingHashes q) (q_ancestorHashes q) h.

Definition binaryKey (q : QueryProof) : list bool := Bytes.ToBools (q_Key q).

Definition binaryPath (q : QueryProof) : res (list bool) := slice (binaryKey q) 0 (q_height q).

Definition isSiblingOf (p query : QueryProof) : res bool :=
  if negb (len (q_binaryBitmap p) =? len (q_binaryBitmap query)) then Ok false
  else
    a ← slice (binaryKey p) 0 (q_height p - 1);
    b ← slice (binaryKey query) 0 (q_height query - 1);
    if negb (Slices.Equal a b) then Ok false
    else
      x ← index (binaryKey p) (q_height p - 1);
      y ← index (binaryKey query) (q_height p - 1);
      Ok ((negb x && y) || (x && negb y)).

(** [QueryProofs.sort]: the deepest first, then by key. *)
Definition QueryProofs_sort (l : list QueryProof) : list QueryProof :=
  sort_slice (λ x y, if negb (q_height x =? q_height y) then q_height y <? q_height x
                     else bytes_ltb (q_Key x) (q_Key y)) l.

Definition insertAndFilterQueries (query : QueryProof) (queries : list QueryProof) : res (list QueryProof) :=
  if len queries =? 0 then Ok (queries ++ [query])
  else
    i ← Slices.BinarySearch queries (λ val,
      ((q_height query =? q_height val) && bytes_ltb (q_Key query) (q_Key val)) || (q_height val <? q_height query));
    if i =? len queries then Ok (queries ++ [query])
    else
      original ← index queries i;
      a ← binaryPath query;
      b ← binaryPath original;
      if negb (Slices.Equal a b) then Slices.Insert queries i query else Ok queries.

(** The loop of [calculateSiblingHashes]: every round shortens a bitmap or drops
    a query. *)
Fixpoint siblingHashes_loop (fuel : nat) (queryProofs : list QueryProof) (ancestorHashes siblingHashes : list bytes)
    : res (list bytes) :=
  match queryProofs with
  | [] => Ok siblingHashes
  | query :: queryProofs =>
      match fuel with
      | O => OutOfFuel
      | S fuel =>
          if q_height query =? 0 then siblingHashes_loop fuel queryProofs ancestorHashes siblingHashes
          else
            b ← index (q_binaryBitmap query) 0;
            '(query, siblingHashes) ←
              (if (b : bool) then
                 '(nodeHash, rest) ← pop_last (q_siblingHashes query);
                 let query := set_siblingHashes rest query in
                 if (Bytes.FindIndex siblingHashes nodeHash =? -1) && (Bytes.FindIndex ancestorHashes nodeHash =? -1)
                 then Ok (query, siblingHashes ++ [nodeHash]) else Ok (query, siblingHashes)
               else Ok (query, siblingHashes));
            query ← sliceBinaryBitmap 1 query;
            queryProofs ← insertAndFilterQueries query queryProofs;
            siblingHashes_loop fuel queryProofs ancestorHashes siblingHashes
      end
  end.

Definition total_height (l : list QueryProof) : nat :=
  foldr (λ q n, (1 + length (q_binaryBitmap q) + n)%nat) 0%nat l.

Definition calculateSiblingHashes (queryProofs : list QueryProof) (ancestorHashes : list bytes) : res (list bytes) :=
  siblingHashes_loop (total_height queryProofs) queryProofs ancestorHashes [].

Fixpoint stripPrefixFalse (val : list bool) : list bool :=
  match val with
  | [] => []
  | true :: _ => val
  | false :: val => stripPrefixFalse val
  end.

(** ** smt.go *)

Definition DefaultKeyLength : Z := 32.
Definition DefaultSubtreeHeight : Z := 8.

Record trie := mkTrie {
  t_root : bytes;
  t_keyLength : Z;
  t_subtreeHeight : Z;
  t_maxNumberOfNodes : Z;
  t_hasher : nodeHasher;
}.

(** The default key length is computed and not used. *)
Definition NewTrie (root : bytes) (keyLength : Z) : trie :=
  let trieRoot := if len root =? 0 then emptyHash else root in
  mkTrie trieRoot keyLength DefaultSubtreeHeight (2 ^ DefaultSubtreeHeight) treeHasher.

Definition SetSubtreeHeight (subtreeHeight : Z) (t : trie) : trie :=
  mkTrie (t_root t) (t_keyLength t) subtreeHeight (i64 (2 ^ subtreeHeight)) (t_hasher t).

Definition set_root (root : bytes) (t : trie) : trie :=
  mkTrie root (t_keyLength t) (t_subtreeHeight t) (t_maxNumberOfNodes t) (t_hasher t).

Definition getBinIndex (t : trie) (key : bytes) (height b : Z) : res Z :=
  if t_subtreeHeight t =? 4 then
    if Z.rem height 8 =? 0 then x ← index key b; Ok (Z.shiftr x 4)
    else if Z.rem height 8 =? 4 then x ← index key b; Ok (Z.shiftr x 15)
    else Err (Errorf "invalid bin index")
  else if t_subtreeHeight t =? 8 then index key b
  else Err (Errorf "unsupported Subtree height").

(** [1 << (t.subtreeHeight - h)], the number of bins below a node. *)
Definition bins_below (t : trie) (h : Z) : Z := i64 (2 ^ u8 (t_subtreeHeight t - h)).

(** The first value of a key wins. *)
Fixpoint unique_first (kvs : list (bytes * bytes)) (seen : list bytes) : list (bytes * bytes) :=
  match kvs with
  | [] => []
  | (k, v) :: kvs =>
      if bool_decide (k ∈ seen) then unique_first kvs seen else (k, v) :: unique_first kvs (k :: seen)
  end.

(** A bin holds the keys with one index and their values. *)
Abbreviation bin := (list (bytes * bytes)).

Fixpoint fill_bins (t : trie) (height b : Z) (kvs : list (bytes * bytes)) (bins : list bin) : res (list bin) :=
  match kvs with
  | [] => Ok bins
  | (key, value) :: kvs =>
      binIndex ← getBinIndex t key height b;
      old ← index bins binIndex;
      fill_bins t height b kvs (<[Z.to_nat binIndex := old ++ [(key, value)]]> bins)
  end.

(** The running sums of the sizes. *)
Fixpoint length_bins (sum : Z) (bins : list bin) : list Z :=
  match bins with
  | [] => []
  | b :: bins => (sum + len b) :: length_bins (sum + len b) bins
  end.

Section database.
Context {D : Type} `{DBReadWriter D}.

Definition getSubtree (t : trie) (db : D) (nodeHash : bytes) : res subTree :=
  if (len nodeHash =? 0) || bytes_equal nodeHash emptyHash then Ok newEmptySubTree
  else
    encodedValue ← ok_or (db_Get db nodeHash) (Errorf "key does not exist for sub tree");
    newSubTree encodedValue (t_keyLength t) (t_hasher t).

(** The loop over the nodes of a subtree, with the update of a node. *)
Fixpoint update_nodes (update : list bin → list Z → node → Z → D → res (nodeStructure * D)) (t : trie)
    (bins : list bin) (nodes : list node) (structure : list Z) (binOffset : Z) (db : D)
    : res (nodeStructure * Z * D) :=
  match nodes with
  | [] => Ok (([], []), binOffset, db)
  | currentNode :: nodes =>
      match structure with
      | [] => Panic
      | h :: structure =>
          let newOffset := bins_below t h in
          target ← slice bins binOffset (binOffset + newOffset);
          '((ns, st), db) ← update target (length_bins 0 target) currentNode h db;
          '((ns', st'), binOffset, db) ← update_nodes update t bins nodes structure (binOffset + newOffset) db;
          Ok ((ns ++ ns', st ++ st'), binOffset, db)
      end
  end.

(** A node at the bottom of a subtree: its own subtree is updated. *)
Definition descend (updateSubtree : bin → subTree → Z → D → res (subTree * D)) (t : trie) (bins : list bin)
    (currentNode : node) (height structurePos : Z) (db : D) : res (nodeStructure * D) :=
  if negb (len bins =? 1) then Err (Errorf "invalid key/value length")
  else
    '(bottomSubTree, db) ←
      match n_kind currentNode with
      | nodeKindStub => s ← getSubtree t db (n_hash currentNode); Ok (s, db_Del (n_hash currentNode) db)
      | nodeKindEmpty => s ← getSubtree t db (n_hash currentNode); Ok (s, db)
      | nodeKindLeaf => s ← newSubtreeFromData [0] [currentNode] (t_hasher t); Ok (s, db)
      | nodeKindTemp => Err (Errorf "invalid index node kind")
      end;
    kvs ← index bins 0;
    '(newSubtree, db) ← updateSubtree kvs bottomSubTree (height + structurePos) db;
    if len (st_nodes newSubtree) =? 1 then
      n ← index (st_nodes newSubtree) 0; Ok (([n], [structurePos]), db)
    else Ok (([newStubNode (st_root newSubtree)], [structurePos]), db).

(** A node above the bottom: both halves are updated. *)
Definition split_node (updateNode : list bin → list Z → Z → node → Z → Z → D → res (nodeStructure * D))
    (bins : list bin) (lengthBins : list Z) (lengthBase : Z) (currentNode : node) (height structurePos : Z) (db : D)
    : res (nodeStructure * D) :=
  '(leftNode, rightNode) ←
    match n_kind currentNode with
    | nodeKindEmpty => Ok (newEmptyNode, newEmptyNode)
    | nodeKindLeaf =>
        set ← Bytes.IsBitSet (n_key currentNode) (height + structurePos);
        if (set : bool) then Ok (newEmptyNode, currentNode) else Ok (currentNode, newEmptyNode)
    | _ => Err (Errorf "invalid node kind")
    end;
  let splitIndex := len bins ÷ 2 in
  leftBins ← slice bins 0 splitIndex;
  rightBins ← slice bins splitIndex (len bins);
  leftLengths ← slice lengthBins 0 splitIndex;
  rightLengths ← slice lengthBins splitIndex (len lengthBins);
  rightBase ← index lengthBins (splitIndex - 1);
  '((leftNodes, leftStructure), db) ←
    updateNode leftBins leftLengths lengthBase leftNode height (u8 (structurePos + 1)) db;
  '((rightNodes, rightStructure), db) ←
    updateNode rightBins rightLengths rightBase rightNode height (u8 (structurePos + 1)) db;
  Ok ((leftNodes ++ rightNodes, leftStructure ++ rightStructure), db).

(** A subtree is reached after a node of depth [subtreeHeight], a node after
    one of smaller depth: nine levels for each byte of the key. *)
Fixpoint updateSubtree (fuel : nat) (t : trie) (kvs : list (bytes * bytes)) (currentSubtree : subTree) (height : Z)
    (db : D) {struct fuel} : res (subTree * D) :=
  match fuel with
  | O => OutOfFuel
  | S fuel =>
      if len kvs =? 0 then Ok (currentSubtree, db)
      else
        let b := height ÷ 8 in
        bins ← fill_bins t height b kvs (replicate (Z.to_nat (t_maxNumberOfNodes t)) []);
        '((newNodes, newStructure), binOffset, db) ←
          update_nodes (λ target lengthBins currentNode h db,
                          updateNode fuel t target lengthBins 0 currentNode height h db)
            t bins (st_nodes currentSubtree) (st_structure currentSubtree) 0 db;
        if negb (binOffset =? t_maxNumberOfNodes t) then Err (Errorf "bin offset should end with")
        else
          maxStructure ← Ints.Max newStructure;
          newSubtree ← calculateSubTree newNodes newStructure maxStructure (t_hasher t) [];
          Ok (newSubtree, db_Set (st_root newSubtree) (subTree_encode newSubtree) db)
  end
with updateNode (fuel : nat) (t : trie) (bins : list bin) (lengthBins : list Z) (lengthBase : Z)
    (currentNode : node) (height structurePos : Z) (db : D) {struct fuel} : res (nodeStructure * D) :=
  match fuel with
  | O => OutOfFuel
  | S fuel =>
      let same := Ok (([currentNode], [structurePos]), db) in
      let split_or_descend :=
        if structurePos =? t_subtreeHeight t
        then descend (updateSubtree fuel t) t bins currentNode height structurePos db
        else split_node (updateNode fuel t) bins lengthBins lengthBase currentNode height structurePos db in
      lastLength ← index lengthBins (len lengthBins - 1);
      let totalData := lastLength - lengthBase in
      if totalData =? 0 then same
      else if totalData =? 1 then
        let i := Slices.FindIndex lengthBins (λ length, length =? lengthBase + 1) in
        if i =? -1 then Err (Errorf "invalid index for length bins")
        else
          target ← index bins i;
          match n_kind currentNode with
          | nodeKindEmpty =>
              '(key, value) ← index target 0;
              if negb (len value =? 0) then Ok (([newLeafNode key value], [structurePos]), db) else same
          | nodeKindLeaf =>
              '(key, value) ← index target 0;
              if bytes_equal (n_key currentNode) key then
                if negb (len value =? 0) then Ok (([newLeafNode key value], [structurePos]), db)
                else Ok (([newEmptyNode], [structurePos]), db)
              else split_or_descend
          | _ => split_or_descend
          end
      else split_or_descend
  end.

Definition update_fuel (t : trie) : nat := (10 * Z.to_nat (t_keyLength t) + 10)%nat.

Definition Update (t : trie) (db : D) (keys values : list bytes) : res (bytes * trie * D) :=
  if negb (len keys =? len values) then Err (Errorf "length of keys and values must be equal")
  else if len keys =? 0 then Ok (t_root t, t, db)
  else
    let kvs := unique_first (zip keys values) [] in
    root ← getSubtree t db (t_root t);
    '(newRoot, db) ← updateSubtree (update_fuel t) t kvs root 0 db;
    Ok (st_root newRoot, set_root (st_root newRoot) t, db).

(** The node whose bins contain the index, or the last one. *)
Fixpoint select_node (t : trie) (nodes : list node) (structure : list Z) (binIndex binOffset : Z)
    (selected : option (node * Z)) : res (option (node * Z)) :=
  match nodes with
  | [] => Ok selected
  | n :: nodes =>
      match structure with
      | [] => Panic
      | h :: structure =>
          let newOffset := bins_below t h in
          if (binOffset <=? binIndex) && (binIndex <? binOffset + newOffset) then Ok (Some (n, h))
          else select_node t nodes structure binIndex (binOffset + newOffset) (Some (n, h))
      end
  end.

Fixpoint generateQueryProof (fuel : nat) (t : trie) (db : D) (currentSubtree : subTree) (queryKey : bytes) (height : Z)
    : res QueryProof :=
  match fuel with
  | O => OutOfFuel
  | S fuel =>
      if negb (len queryKey =? t_keyLength t) then Err (Errorf "query key must have key length")
      else
        let b := height ÷ 8 in
        binIndex ← getBinIndex t queryKey height b;
        let nodes := imap (λ i, set_index (Z.of_nat i)) (st_nodes currentSubtree) in
        selected ← select_node t nodes (st_structure currentSubtree) binIndex 0 None;
        '(currentNode, queryHeight) ← ok_or selected (Errorf "current node is not selected");
        maxStructure ← Ints.Max (st_structure currentSubtree);
        '(siblingHashes, ancestorHashes, binaryBitmap) ←
          calculateQueryHashes nodes (st_structure currentSubtree) maxStructure (n_index currentNode)
            (len nodes) [] [] [];
        match n_kind currentNode with
        | nodeKindEmpty => Ok (newQueryProof queryKey [] binaryBitmap ancestorHashes siblingHashes)
        | nodeKindLeaf =>
            value ← slice (n_data currentNode) (len prefixLeafHash + t_keyLength t) (len (n_data currentNode));
            Ok (newQueryProof (n_key currentNode) value binaryBitmap
                  (ancestorHashes ++ [n_hash currentNode]) siblingHashes)
        | _ =>
            lowerSubtree ← getSubtree t db (n_hash currentNode);
            lower ← generateQueryProof fuel t db lowerSubtree queryKey (height + queryHeight);
            Ok (newQueryProof (q_Key lower) (q_Value lower) (q_binaryBitmap lower ++ binaryBitmap)
                  (ancestorHashes ++ q_ancestorHashes lower) (siblingHashes ++ q_siblingHashes lower))
        end
  end.

Fixpoint query_proofs (t : trie) (db : D) (root : subTree) (queryKeys : list bytes) : res (list QueryProof) :=
  match queryKeys with
  | [] => Ok []
  | key :: queryKeys =>
      q ← generateQueryProof (Z.to_nat (t_keyLength t) + 2) t db root key 0;
      qs ← query_proofs t db root queryKeys;
      Ok (q :: qs)
  end.

Definition Prove (t : trie) (db : D) (queryKeys : list bytes) : res Proof :=
  if len queryKeys =? 0 then Ok (mkProof [] [])
  else
    root ← getSubtree t db (t_root t);
    queryProofs ← query_proofs t db root queryKeys;
    let ancestorHashes := queryProofs ≫= q_ancestorHashes in
    siblingHashes ← calculateSiblingHashes (QueryProofs_sort queryProofs) ancestorHashes;
    Ok (mkProof siblingHashes queryProofs).
End database.

(** ** verify.go *)

(** The check of the queries against the keys; [queries] is the map of the
    queries seen. *)
Fixpoint verify_queries (queryKeys : list bytes) (proofQueries : list QueryProof) (keyLength : Z)
    (queries : gmap bytes QueryProof) : res bool :=
  match queryKeys with
  | [] => Ok true
  | key :: queryKeys =>
      if negb (len key =? keyLength) then Ok false
      else
        match proofQueries with
        | [] => Panic
        | query :: proofQueries =>
            let duplicate :=
              match queries !! q_Key query with
              | Some d => negb (Slices.Equal (q_Bitmap d) (q_Bitmap query))
                          || negb (Slices.Equal (q_Value d) (q_Value query))
              | None => false
              end in
            if duplicate then Err (Errorf "duplicate query")
            else
              let queries := <[q_Key query := query]> queries in
              if match q_Bitmap query with 0 :: _ => true | _ => false end then Ok false
              else if Slices.Equal key (q_Key query) then verify_queries queryKeys proofQueries keyLength queries
              else
                let commonPrefix := Slices.CommonPrefix (Bytes.ToBools key) (Bytes.ToBools (q_Key query)) in
                let binaryBitmap := stripPrefixFalse (Bytes.ToBools (q_Bitmap query)) in
                if len commonPrefix <? len binaryBitmap then Ok false
                else verify_queries queryKeys proofQueries keyLength queries
        end
  end.

(** One query for each path. *)
Fixpoint filter_queries (proofQueries : list QueryProof) (filterMap : gset bytes) : res (list QueryProof) :=
  match proofQueries with
  | [] => Ok []
  | query :: proofQueries =>
      let binaryBitmap := stripPrefixFalse (Bytes.ToBools (q_Bitmap query)) in
      let queryProof := newQueryProof (q_Key query) (q_Value query) binaryBitmap [] [] in
      path ← binaryPath queryProof;
      let uniqueKey := Bytes.FromBools path in
      if bool_decide (uniqueKey ∈ filterMap) then filter_queries proofQueries filterMap
      else
        rest ← filter_queries proofQueries ({[uniqueKey]} ∪ filterMap);
        Ok (queryProof :: rest)
  end.

(** The hash of the sibling of a query: the next query, the empty tree or the
    next sibling hash of the proof. *)
Definition sibling_of (query : QueryProof) (queries : list QueryProof) (siblingHashes : list bytes)
    : res (bytes * list QueryProof * list bytes) :=
  isSibling ← match queries with [] => Ok false | next :: _ => isSiblingOf query next end;
  bit ← index (q_binaryBitmap query) 0;
  if (isSibling : bool) then
    match queries with
    | [] => Panic
    | sibling :: rest =>
        let isSiblingEmpty := bytes_equal (q_hash sibling) emptyHash in
        if (isSiblingEmpty && bit) || (negb isSiblingEmpty && negb bit) then
          Err (Errorf "bitmap is not consistent with the nodes type")
        else
          let isQueryEmpty := bytes_equal (q_hash query) emptyHash in
          sbit ← index (q_binaryBitmap sibling) 0;
          if (isQueryEmpty && sbit) || (negb isQueryEmpty && negb sbit) then
            Err (Errorf "bitmap is not consistent with the nodes type")
          else
            a ← slice (q_binaryBitmap query) 1 (len (q_binaryBitmap query));
            b ← slice (q_binaryBitmap sibling) 1 (len (q_binaryBitmap sibling));
            if negb (bytes_equal (Bytes.FromBools a) (Bytes.FromBools b)) then
              Err (Errorf "nodes do not share common path")
            else Ok (q_hash sibling, rest, siblingHashes)
    end
  else if negb bit then Ok (emptyHash, queries, siblingHashes)
  else
    match siblingHashes with
    | [] => Err (Errorf "no more sibling hashes available")
    | s :: siblingHashes => Ok (s, queries, siblingHashes)
    end.

Fixpoint calculateRoot_loop (fuel : nat) (siblingHashes : list bytes) (queries : list QueryProof) : res bytes :=
  match queries with
  | [] => Err (Errorf "fail to compute root")
  | query :: queries =>
      match fuel with
      | O => OutOfFuel
      | S fuel =>
          if q_height query =? 0 then Ok (q_hash query)
          else
            '(siblingHash, queries, siblingHashes) ← sibling_of query queries siblingHashes;
            if len siblingHash =? 0 then Err (Errorf "sibling hash is not set")
            else
              dir ← index (binaryKey query) (q_height query - 1);
              let branchNode :=
                if negb dir then newBranchNode (q_hash query) siblingHash
                else newBranchNode siblingHash (q_hash query) in
              query ← sliceBinaryBitmap 1 (set_hash (n_hash branchNode) query);
              queries ← insertAndFilterQueries query queries;
              calculateRoot_loop fuel siblingHashes queries
      end
  end.

Definition CalculateRoot (siblingHashes : list bytes) (queries : list QueryProof) : res bytes :=
  calculateRoot_loop (total_height queries) siblingHashes (QueryProofs_sort queries).

Definition Verify (queryKeys : list bytes) (proof : Proof) (root : bytes) (keyLength : Z) : res bool :=
  if negb (len queryKeys =? len (p_Queries proof)) then Ok false
  else
    valid ← verify_queries queryKeys (p_Queries proof) keyLength ∅;
    if negb (valid : bool) then Ok false
    else
      filteredProofs ← filter_queries (p_Queries proof) ∅;
      calculatedRoot ← CalculateRoot (p_SiblingHashes proof) filteredProofs;
      Ok (bytes_equal root calculatedRoot).
End smt.
