(* ===== verification/SMTSpec.v ===== *)
(** * SMTSpec: what the sparse Merkle tree computes

    The abstract tree of a map from keys to values (LIP-0039): empty, a leaf
    with the whole remaining key, or a branch on the next bit of the keys, its
    hash and its layout as a subtree of eight levels.  The level-by-level
    algorithms of hasher.go and utils.go, and the encoding of subtrees, are
    shown to compute that hash and that layout. *)

From S2P Require Import Prelude Collection Codec CodecSpec Message Crypto SMT.

Inductive tree := Empty | Leaf (k v : bytes) | Branch (l r : tree).

#[export] Instance tree_eq_dec : EqDecision tree.
Proof. solve_decision. Defined.

Definition is_branch (t : tree) : bool := match t with Branch _ _ => true | _ => false end.

(** A branch over an empty tree and at most one leaf collapses. *)
Definition join (l r : tree) : tree :=
  match l, r with
  | Empty, Empty => Empty
  | Empty, Leaf _ _ => r
  | Leaf _ _, Empty => l
  | _, _ => Branch l r
  end.

(** ** Shapes: the nodes of a subtree as a binary tree of trees *)

Inductive shape := One (t : tree) | Two (l r : shape).

Fixpoint list_of (d : Z) (s : shape) : list (tree * Z) :=
  match s with
  | One t => [(t, d)]
  | Two l r => list_of (d + 1) l ++ list_of (d + 1) r
  end.

(** The tree of a shape, collapsed. *)
Fixpoint norm (s : shape) : tree :=
  match s with One t => t | Two l r => join (norm l) (norm r) end.

(** At most [n] levels, with branches only at the last one. *)
Fixpoint shape_ok (n : nat) (s : shape) {struct s} : Prop :=
  match s with
  | One t => n = O ∨ is_branch t = false
  | Two l r => match n with O => False | S n => shape_ok n l ∧ shape_ok n r end
  end.

(** The first [n] levels of a tree. *)
Fixpoint expand (n : nat) (t : tree) {struct t} : shape :=
  match t, n with
  | Branch l r, S n => Two (expand n l) (expand n r)
  | _, _ => One t
  end.

Fixpoint depth (s : shape) : nat :=
  match s with One _ => 0%nat | Two l r => S (depth l `max` depth r) end.

Lemma expand_ok n t : shape_ok n (expand n t).
Proof.
  revert n. induction t as [| |l IHl r IHr]; intros [|n]; cbn; eauto.
Qed.

Lemma depth_ok n s : shape_ok n s → (depth s ≤ n)%nat.
Proof.
  revert n. induction s as [t|l IHl r IHr]; intros [|n]; cbn; try lia; try done.
  intros [H1%IHl H2%IHr]. lia.
Qed.

Lemma length_list_of n d s : shape_ok n s → (length (list_of d s) ≤ 2 ^ n)%nat.
Proof.
  revert n d. induction s as [t|l IHl r IHr]; intros n d; cbn [list_of shape_ok].
  - intros _. cbn. pose proof (Nat.pow_nonzero 2 n). lia.
  - destruct n as [|n]; [done|]. intros [H1 H2]. rewrite length_app. cbn [Nat.pow].
    specialize (IHl n (d + 1) H1). specialize (IHr n (d + 1) H2). lia.
Qed.

Lemma list_of_pos d s : (1 ≤ length (list_of d s))%nat.
Proof. revert d. induction s as [t|l IHl r IHr]; intros d; cbn; [lia|]. rewrite length_app. specialize (IHl (d + 1)). lia. Qed.

Lemma list_of_Two d l r : (2 ≤ length (list_of d (Two l r)))%nat.
Proof.
  cbn. rewrite length_app. pose proof (list_of_pos (d + 1) l). pose proof (list_of_pos (d + 1) r). lia.
Qed.

Lemma list_of_depth d s e : e ∈ list_of d s → d ≤ e.2 ≤ d + Z.of_nat (depth s).
Proof.
  revert d. induction s as [t|l IHl r IHr]; intros d; cbn [list_of depth].
  - intros ->%list_elem_of_singleton. cbn. lia.
  - intros [H%IHl|H%IHr]%elem_of_app; lia.
Qed.

Lemma list_of_deepest d s : ∃ e, e ∈ list_of d s ∧ e.2 = d + Z.of_nat (depth s).
Proof.
  revert d. induction s as [t|l IHl r IHr]; intros d; cbn [list_of depth].
  - exists (t, d). split; [left|cbn; lia].
  - destruct (Nat.max_spec (depth l) (depth r)) as [[_ ->]|[_ ->]].
    + destruct (IHr (d + 1)) as (e & He & E). exists e. split; [apply elem_of_app; by right|lia].
    + destruct (IHl (d + 1)) as (e & He & E). exists e. split; [apply elem_of_app; by left|lia].
Qed.

Lemma Max_list_of d s : Ints.Max (list_of d s).*2 = Ok (d + Z.of_nat (depth s)).
Proof.
  destruct (Ints.Max (list_of d s).*2) as [m| | |] eqn:E.
  2-4: exfalso; unfold Ints.Max, index in E; rewrite idx_nonneg in E by lia;
    destruct (sort_slice _ _) as [|x k] eqn:Es; [|done];
    apply (f_equal length) in Es; rewrite length_sort_slice, length_fmap in Es; cbn in Es;
    pose proof (list_of_pos d s); lia.
  apply Ints.Max_Ok in E as [Hin Hmax]. f_equal. apply list_elem_of_fmap in Hin as (e & -> & He).
  pose proof (list_of_depth d s e He). destruct (list_of_deepest d s) as (e' & He' & E').
  specialize (Hmax e'.2 (list_elem_of_fmap_2 snd _ _ He')). lia.
Qed.

Section hashes.
Context `{Hasher}.

Fixpoint tree_hash (t : tree) : bytes :=
  match t with
  | Empty => emptyHash
  | Leaf k v => n_hash (newLeafNode k v)
  | Branch l r => n_hash (newBranchNode (tree_hash l) (tree_hash r))
  end.

(** The node that stands for a tree: a branch is a stub. *)
Definition node_of (t : tree) : node :=
  match t with
  | Empty => newEmptyNode
  | Leaf k v => newLeafNode k v
  | Branch _ _ => newStubNode (tree_hash t)
  end.

Definition layout (l : list (tree * Z)) : list node * list Z := (node_of <$> l.*1, l.*2).

(** The layout of a tree as a subtree. *)
Definition subtree_of (t : tree) : subTree :=
  let l := list_of 0 (expand 8 t) in mkSubTree l.*2 (tree_hash t) (node_of <$> l.*1).

Lemma hash_node_of t : n_hash (node_of t) = tree_hash t.
Proof. by destruct t. Qed.

Lemma hashes_node_of (l : list tree) : n_hash <$> (node_of <$> l) = tree_hash <$> l.
Proof. induction l as [|t l IH]; [done|]. rewrite !fmap_cons. by rewrite hash_node_of, IH. Qed.

(** ** hasher.go computes the hash *)

Fixpoint shape_hash (s : shape) : bytes :=
  match s with
  | One t => tree_hash t
  | Two l r => n_hash (newBranchNode (shape_hash l) (shape_hash r))
  end.

Lemma shape_hash_expand n t : shape_hash (expand n t) = tree_hash t.
Proof.
  revert n. induction t as [| |l IHl r IHr]; intros [|n]; cbn; try done. by rewrite IHl, IHr.
Qed.

(** The hashes when everything below level [h] has been combined. *)
Fixpoint hash_items (h d : Z) (s : shape) : list (bytes * Z) :=
  match s with
  | One t => [(tree_hash t, d)]
  | Two l r => if d <? h then hash_items h (d + 1) l ++ hash_items h (d + 1) r else [(shape_hash s, d)]
  end.

Lemma hash_items_one h s : hash_items h h s = [(shape_hash s, h)].
Proof. destruct s as [t|l r]; cbn [hash_items]; [done|]. by rewrite Z.ltb_irrefl. Qed.

Lemma treeHasher_pass_items h d s hs st :
  0 ≤ d < h → h ≤ 8 →
  treeHasher_pass h ((hash_items h d s).*1 ++ hs) ((hash_items h d s).*2 ++ st)
  = ('(hs', st') ← treeHasher_pass h hs st;
     Ok ((hash_items (h - 1) d s).*1 ++ hs', (hash_items (h - 1) d s).*2 ++ st')).
Proof.
  revert d hs st. induction s as [t|l IHl r IHr]; intros d hs st Hd Hh.
  - cbn. destruct (Z.eqb_spec d h); [lia|]. cbn. by destruct (treeHasher_pass h hs st) as [[]| | |].
  - cbn [hash_items]. rewrite (proj2 (Z.ltb_lt d h)) by lia. destruct (Z.ltb_spec d (h - 1)) as [Hlt|Hge].
    + rewrite !fmap_app, <-!app_assoc, IHl, IHr by lia.
      destruct (treeHasher_pass h hs st) as [[hs' st']| | |]; cbn; by rewrite ?app_assoc.
    + replace (d + 1) with h by lia. rewrite !hash_items_one. cbn. rewrite Z.eqb_refl. cbn.
      destruct (treeHasher_pass h hs st) as [[hs' st']| | |]; cbn; [|done..].
      unfold u8. rewrite Z.mod_small by lia. by replace d with (h - 1) by lia.
Qed.

Lemma hash_items_length h s : 1 ≤ h → (length (hash_items h 0 s) = 1%nat ↔ ∃ t, s = One t).
Proof.
  intros Hh. split; [|by intros [t ->]]. destruct s as [t|l r]; [eauto|]. cbn [hash_items].
  rewrite (proj2 (Z.ltb_lt 0 h)) by lia. rewrite length_app.
  assert (∀ s d, (1 ≤ length (hash_items h d s))%nat) as Hpos.
  { intros s. induction s as [t|l' IHl r' IHr]; intros d; cbn; [lia|].
    destruct (d <? h); [rewrite length_app; specialize (IHl (d + 1)); lia|cbn; lia]. }
  pose proof (Hpos l (0 + 1)). pose proof (Hpos r (0 + 1)). lia.
Qed.

Lemma treeHasher_rec_items fuel h s :
  (h < fuel)%nat → (1 ≤ h ≤ 8)%nat →
  treeHasher_rec fuel (hash_items (Z.of_nat h) 0 s).*1 (hash_items (Z.of_nat h) 0 s).*2 (Z.of_nat h) = Ok (shape_hash s).
Proof.
  revert fuel. induction h as [|h IH]; intros [|fuel] Hf Hh; try lia. cbn [treeHasher_rec].
  destruct (Z.eqb_spec (len (hash_items (Z.of_nat (S h)) 0 s).*1) 1) as [E|E].
  { unfold len in E. rewrite length_fmap in E.
    destruct (proj1 (hash_items_length (Z.of_nat (S h)) s ltac:(lia)) ltac:(lia)) as [t ->]. done. }
  pose proof (treeHasher_pass_items (Z.of_nat (S h)) 0 s [] [] ltac:(lia) ltac:(lia)) as Hp.
  rewrite !app_nil_r in Hp. rewrite Hp. cbn [treeHasher_pass mbind res_bind]. rewrite !app_nil_r.
  replace (Z.of_nat (S h) - 1) with (Z.of_nat h) by lia. destruct (Z.eqb_spec (Z.of_nat (S h)) 1) as [E1|E1].
  - replace (Z.of_nat h) with 0 by lia. rewrite hash_items_one. done.
  - unfold u8. rewrite Z.mod_small by lia. apply IH; lia.
Qed.

Lemma hash_items_list h d s :
  d + Z.of_nat (depth s) ≤ h → hash_items h d s = (λ e, (tree_hash e.1, e.2)) <$> list_of d s.
Proof.
  revert d. induction s as [t|l IHl r IHr]; intros d Hd; cbn [hash_items list_of depth] in *; [done|].
  rewrite (proj2 (Z.ltb_lt d h)) by lia. by rewrite fmap_app, IHl, IHr by lia.
Qed.

(** [treeHasher] on the nodes of a shape. *)
Lemma treeHasher_shape s :
  shape_ok 8 s →
  treeHasher (tree_hash <$> (list_of 0 s).*1) (list_of 0 s).*2 (Z.of_nat (depth s)) = Ok (shape_hash s).
Proof.
  intros Hok%depth_ok. unfold treeHasher. destruct s as [t|l r]; [done|].
  rewrite <-(treeHasher_rec_items 257 (depth (Two l r))) by (cbn [depth] in *; lia).
  rewrite hash_items_list by lia. rewrite <-!list_fmap_compose. done.
Qed.

Lemma newSubtreeFromData_shape s :
  shape_ok 8 s →
  newSubtreeFromData (list_of 0 s).*2 (node_of <$> (list_of 0 s).*1) treeHasher
  = Ok (mkSubTree (list_of 0 s).*2 (shape_hash s) (node_of <$> (list_of 0 s).*1)).
Proof.
  intros Hok. unfold newSubtreeFromData. rewrite Max_list_of. cbn [mbind res_bind].
  rewrite hashes_node_of, Z.add_0_l, treeHasher_shape by done. done.
Qed.

Lemma newSubtreeFromData_tree t :
  newSubtreeFromData (st_structure (subtree_of t)) (st_nodes (subtree_of t)) treeHasher = Ok (subtree_of t).
Proof.
  unfold subtree_of. cbn [st_structure st_nodes]. rewrite newSubtreeFromData_shape by apply expand_ok.
  by rewrite shape_hash_expand.
Qed.

Lemma len_nodes_subtree t : (len (st_nodes (subtree_of t)) =? 1) = negb (is_branch t).
Proof.
  destruct t as [| |l r]; [done..|]. cbn [subtree_of st_nodes expand is_branch negb].
  pose proof (list_of_Two 0 (expand 7 l) (expand 7 r)). apply Z.eqb_neq. unfold len. rewrite !length_fmap. lia.
Qed.

Lemma subtree_of_Empty : newEmptySubTree = subtree_of Empty.
Proof. done. Qed.

Lemma subtree_of_Leaf k v : newSubtreeFromData [0] [newLeafNode k v] treeHasher = Ok (subtree_of (Leaf k v)).
Proof. apply (newSubtreeFromData_tree (Leaf k v)). Qed.

(** ** utils.go: [calculateSubTree] collapses a shape *)

(** The node of a shape when it has been combined: a temporary one for a branch. *)
Definition item_node (s : shape) : node :=
  match s with
  | One t => node_of t
  | Two _ _ => if is_branch (norm s) then newTempNode else node_of (norm s)
  end.

(** What a temporary node at depth [d] stands for. *)
Definition content (d : Z) (t : tree) : list node * list Z := layout (list_of d (expand (Z.to_nat (8 - d)) t)).

Definition item_temps (d : Z) (s : shape) : list (list node * list Z) :=
  match s with
  | One _ => []
  | Two _ _ => if is_branch (norm s) then [content d (norm s)] else []
  end.

Fixpoint items (h d : Z) (s : shape) : list (node * Z) :=
  match s with
  | One t => [(node_of t, d)]
  | Two l r => if d <? h then items h (d + 1) l ++ items h (d + 1) r else [(item_node s, d)]
  end.

(** The entries of the temporary nodes, from left to right. *)
Fixpoint temps (h d : Z) (s : shape) : list (list node * list Z) :=
  match s with
  | One t => []
  | Two l r => if d <? h then temps h (d + 1) l ++ temps h (d + 1) r else item_temps d s
  end.

Lemma items_one h s : items h h s = [(item_node s, h)] ∧ temps h h s = item_temps h s.
Proof. destruct s as [t|l r]; cbn [items temps]; [done|]. by rewrite Z.ltb_irrefl. Qed.

(** The holder is a queue: entries are added in front and taken from the end. *)
Lemma pop_last_reverse {A} (x : A) l : pop_last (reverse (x :: l)) = Ok (x, reverse l).
Proof.
  unfold pop_last. rewrite reverse_cons, last_snoc, length_app. cbn. by rewrite take_app_length' by lia.
Qed.

Lemma kind_item_node s :
  is_kind (n_kind (item_node s)) nodeKindEmpty = match norm s with Empty => true | _ => false end ∧
  is_kind (n_kind (item_node s)) nodeKindLeaf = match norm s with Leaf _ _ => true | _ => false end.
Proof. destruct s as [[]|l r]; cbn [item_node norm]; [done..|]. by destruct (join (norm l) (norm r)). Qed.

Lemma item_node_norm s : is_branch (norm s) = false → item_node s = node_of (norm s) ∧ ∀ d, item_temps d s = [].
Proof. destruct s as [t|l r]; [done|]. cbn [item_node item_temps]. by intros ->. Qed.

(** A node stands for the layout of its tree. *)
Lemma resolve_item h s Q :
  0 ≤ h ≤ 8 → shape_ok (Z.to_nat (8 - h)) s →
  resolve (item_node s) h (reverse (item_temps h s ++ Q)) = Ok (content h (norm s), reverse Q).
Proof.
  intros Hh Hok. unfold resolve. destruct s as [t|l r].
  - cbn [item_node item_temps app norm]. unfold content. cbn [shape_ok] in Hok.
    destruct t as [| |tl tr]; [done..|]. destruct Hok as [->|?]; done.
  - cbn [item_node item_temps]. destruct (is_branch (norm (Two l r))) eqn:E.
    + cbn [newTempNode n_kind]. unfold is_kind. rewrite bool_decide_true by done. apply pop_last_reverse.
    + by destruct (norm (Two l r)).
Qed.

Lemma join_pair_items h l r Q :
  1 ≤ h ≤ 8 → shape_ok (Z.to_nat (8 - h)) l → shape_ok (Z.to_nat (8 - h)) r →
  join_pair (item_node l) (item_node r) h (Some h) (reverse (item_temps h l ++ item_temps h r ++ Q))
  = Ok (item_node (Two l r), reverse (Q ++ item_temps (h - 1) (Two l r))).
Proof.
  intros Hh Hl Hr. unfold join_pair.
  destruct (kind_item_node l) as [El1 El2], (kind_item_node r) as [Er1 Er2]. rewrite El1, El2, Er1, Er2.
  assert (is_branch (join (norm l) (norm r)) = true →
    ('(leftNodes, leftStructure, tempHolder) ← resolve (item_node l) h (reverse (item_temps h l ++ item_temps h r ++ Q));
     '(rightNodes, rightStructure, tempHolder) ←
       (if is_kind (n_kind (item_node r)) nodeKindTemp then pop_last tempHolder
        else Ok ([item_node r], [h], tempHolder));
     Ok (newTempNode, (leftNodes ++ rightNodes, leftStructure ++ rightStructure) :: tempHolder))
    = Ok (item_node (Two l r), reverse (Q ++ item_temps (h - 1) (Two l r)))) as Hbranch.
  { intros Hb. rewrite resolve_item by (done || lia). cbn [mbind res_bind]. pose proof (resolve_item h r Q ltac:(lia) Hr) as Hres.
    unfold resolve in Hres. destruct (content h (norm l)) as [ln ls] eqn:Ecl. cbn [mbind res_bind]. rewrite Hres.
    destruct (content h (norm r)) as [rn rs] eqn:Ecr. cbn [mbind res_bind item_node item_temps norm]. rewrite Hb.
    rewrite reverse_app, reverse_singleton. cbn [app]. do 2 f_equal. f_equal.
    assert (join (norm l) (norm r) = Branch (norm l) (norm r)) as -> by (by destruct (norm l), (norm r)).
    unfold content. replace (Z.to_nat (8 - (h - 1))) with (S (Z.to_nat (8 - h))) by lia. cbn [expand list_of].
    replace (h - 1 + 1) with h by lia. unfold layout, content, layout in *. injection Ecl as <- <-. injection Ecr as <- <-.
    by rewrite !fmap_app. }
  destruct (norm l) eqn:Enl, (norm r) eqn:Enr; cbn [andb join] in *; try (by apply Hbranch).
  all: destruct (item_node_norm l) as [Hil Htl]; [by rewrite Enl|]; destruct (item_node_norm r) as [Hir Htr]; [by rewrite Enr|].
  all: rewrite Htl, Htr; destruct (item_node_norm (Two l r)) as [Hi Ht]; [cbn; by rewrite Enl, Enr|].
  all: rewrite Hi, Ht; cbn [norm]; rewrite Enl, Enr, app_nil_r; cbn [join app]; by rewrite ?Hil, ?Hir, ?Enl, ?Enr.
Qed.

Lemma calculateSubTree_pass_items h d s ns st Q :
  0 ≤ d < h → h ≤ 8 → shape_ok (Z.to_nat (8 - d)) s →
  calculateSubTree_pass h ((items h d s).*1 ++ ns) ((items h d s).*2 ++ st) (reverse (temps h d s ++ Q))
  = ('(ns', st', th) ← calculateSubTree_pass h ns st (reverse (Q ++ temps (h - 1) d s));
     Ok ((items (h - 1) d s).*1 ++ ns', (items (h - 1) d s).*2 ++ st', th)).
Proof.
  revert d ns st Q. induction s as [t|l IHl r IHr]; intros d ns st Q Hd Hh Hok.
  - cbn. destruct (Z.eqb_spec d h); [lia|]. cbn. rewrite app_nil_r.
    reflexivity.
  - cbn [items temps]. rewrite (proj2 (Z.ltb_lt d h)) by lia.
    replace (Z.to_nat (8 - d)) with (S (Z.to_nat (8 - (d + 1)))) in Hok by lia. destruct Hok as [Hl Hr].
    destruct (Z.ltb_spec d (h - 1)) as [Hlt|Hge].
    + rewrite !fmap_app, <-!app_assoc, IHl by (done || lia). rewrite <-!app_assoc, IHr by (done || lia).
      rewrite <-!app_assoc.
      destruct (calculateSubTree_pass h ns st _) as [[[ns' st'] th]| | |]; cbn; by rewrite ?app_assoc.
    + replace (d + 1) with h in * by lia. rewrite (proj1 (items_one h l)), (proj1 (items_one h r)).
      rewrite (proj2 (items_one h l)), (proj2 (items_one h r)), <-app_assoc.
      cbn [fmap list_fmap fst snd app calculateSubTree_pass head tail hd_error]. rewrite Z.eqb_refl. cbn [negb].
      rewrite join_pair_items by (done || lia). cbn [mbind res_bind]. replace (h - 1) with d by lia.
      destruct (calculateSubTree_pass h ns st _) as [[[ns' st'] th]| | |]; cbn [mbind res_bind]; [|done..].
      unfold u8. rewrite Z.mod_small by lia. by replace (h - 1) with d by lia.
Qed.

Lemma calculateSubTree_rec_items fuel h s :
  (h < fuel)%nat → (h ≤ 8)%nat → shape_ok 8 s → (depth s ≤ h ∨ 1 ≤ h)%nat →
  calculateSubTree_rec fuel (items (Z.of_nat h) 0 s).*1 (items (Z.of_nat h) 0 s).*2 (Z.of_nat h) treeHasher
    (reverse (temps (Z.of_nat h) 0 s)) = Ok (subtree_of (norm s)).
Proof.
  intros Hf Hh Hok. revert fuel Hf Hh. induction h as [|h IH]; intros [|fuel] Hf Hh Hd; try lia; cbn [calculateSubTree_rec].
  { destruct s as [t|l r]; [|cbn in Hd; lia]. destruct Hok as [?|Hb]; [done|].
    destruct t as [|k v|]; [| |done]; [apply (newSubtreeFromData_tree Empty)|apply (newSubtreeFromData_tree (Leaf k v))]. }
  pose proof (calculateSubTree_pass_items (Z.of_nat (S h)) 0 s [] [] [] ltac:(lia) ltac:(lia) Hok) as Hp.
  rewrite !app_nil_r in Hp. destruct (Z.eqb_spec (Z.of_nat (S h)) 0); [lia|]. rewrite Hp.
  cbn [calculateSubTree_pass mbind res_bind]. rewrite !app_nil_r. cbn [app].
  replace (Z.of_nat (S h) - 1) with (Z.of_nat h) by lia. destruct (Z.eqb_spec (Z.of_nat (S h)) 1) as [E1|E1].
  - replace (Z.of_nat h) with 0 by lia. rewrite (proj1 (items_one 0 s)), (proj2 (items_one 0 s)). cbn [fmap list_fmap fst snd].
    rewrite index_0. cbn [mbind res_bind]. destruct (is_branch (norm s)) eqn:Eb.
    + destruct s as [t|l r]; [by destruct Hok as [?|Hok]; [|cbn in Eb; congruence]|].
      cbn [item_node item_temps]. rewrite Eb. unfold is_kind. rewrite bool_decide_true by done.
      rewrite reverse_singleton, index_0. cbn [mbind res_bind]. apply (newSubtreeFromData_tree (norm (Two l r))).
    + rewrite (proj1 (item_node_norm s Eb)). destruct (norm s) as [|k v|]; [| |done];
        [apply (newSubtreeFromData_tree Empty)|apply (newSubtreeFromData_tree (Leaf k v))].
  - apply IH; [lia|lia|right; lia].
Qed.

Lemma items_list h d s :
  d + Z.of_nat (depth s) ≤ h → items h d s = (λ e, (node_of e.1, e.2)) <$> list_of d s ∧ temps h d s = [].
Proof.
  revert d. induction s as [t|l IHl r IHr]; intros d Hd; cbn [items temps list_of depth] in *; [done|].
  rewrite (proj2 (Z.ltb_lt d h)) by lia. destruct (IHl (d + 1)) as [-> ->]; [lia|]. destruct (IHr (d + 1)) as [-> ->]; [lia|].
  by rewrite fmap_app.
Qed.

(** [calculateSubTree] on the nodes of a shape is the subtree of its tree. *)
Lemma calculateSubTree_shape s :
  shape_ok 8 s →
  calculateSubTree (node_of <$> (list_of 0 s).*1) (list_of 0 s).*2 (Z.of_nat (depth s)) treeHasher []
  = Ok (subtree_of (norm s)).
Proof.
  intros Hok. pose proof (depth_ok _ _ Hok). unfold calculateSubTree.
  rewrite <-(calculateSubTree_rec_items (S (Z.to_nat (Z.of_nat (depth s)))) (depth s) s) by (done || lia).
  destruct (items_list (Z.of_nat (depth s)) 0 s) as [-> ->]; [lia|]. by rewrite <-!list_fmap_compose.
Qed.
End hashes.

(** ** subtree.go: decoding inverts encoding *)

(** Keys of length [L] and values as long as a hash. *)
Fixpoint tree_ok (L : Z) (t : tree) : Prop :=
  match t with
  | Empty => True
  | Leaf k v => len k = L ∧ len v = HashLengh
  | Branch l r => tree_ok L l ∧ tree_ok L r
  end.

Lemma slice_suffix {A} (a b : list A) : slice (a ++ b) (len a) (len (a ++ b)) = Ok b.
Proof.
  pose proof (slice_app_mid a b []) as E. by rewrite app_nil_r, <-len_app in E.
Qed.

Lemma slice_mid {A} (a b c : list A) x y : x = len a → y = len a + len b → slice (a ++ b ++ c) x y = Ok b.
Proof. intros -> ->. apply slice_app_mid. Qed.

Lemma slice_end {A} (a b : list A) x y : x = len a → y = len (a ++ b) → slice (a ++ b) x y = Ok b.
Proof. intros -> ->. apply slice_suffix. Qed.

Lemma list_of_tree_ok L n d t e : tree_ok L t → e ∈ list_of d (expand n t) → tree_ok L e.1.
Proof.
  revert n d. induction t as [|k v|l IHl r IHr]; intros n d Hok; [by intros ->%list_elem_of_singleton..|].
  destruct n as [|n]; cbn [expand list_of]; [by intros ->%list_elem_of_singleton|].
  destruct Hok. intros [?|?]%elem_of_app; eauto.
Qed.

Section encoding.
Context `{HashLaws} (L : Z).

Lemma hashSize_32 : hashSize = HashLengh.
Proof using H0. apply Hash_len. Qed.

Lemma len_tree_hash t : len (tree_hash t) = HashLengh.
Proof using H0. destruct t; apply Hash_len. Qed.

Lemma read_nodes_app t fuel rest nodes :
  tree_ok L t → read_nodes fuel L rest = Ok nodes →
  read_nodes (S fuel) L (n_data (node_of t) ++ rest) = Ok (node_of t :: nodes).
Proof using All.
  intros Hok Hrest. destruct t as [|k v|l r].
  - change (n_data (node_of Empty) ++ rest) with ([2] ++ rest). cbn [app read_nodes]. cbn [Z.eqb Pos.eqb].
    rewrite (slice_end [2] rest) by done. cbn [mbind res_bind]. by rewrite Hrest.
  - destruct Hok as [Hk Hv]. change (n_data (node_of (Leaf k v))) with (0 :: k ++ v ++ []). rewrite app_nil_r.
    cbn [app read_nodes]. cbn [Z.eqb Pos.eqb]. rewrite hashSize_32, <-app_assoc.
    change (0 :: k ++ v ++ rest) with ([0] ++ k ++ v ++ rest).
    rewrite (slice_mid [0] k (v ++ rest) (len prefixLeafHash)) by (rewrite ?Hk; done). cbn [mbind res_bind].
    rewrite (app_assoc [0] k). rewrite (slice_mid ([0] ++ k) v rest (len prefixLeafHash + L)) by (rewrite ?len_app, ?Hk, ?Hv; done).
    cbn [mbind res_bind]. rewrite (app_assoc _ v rest).
    rewrite (slice_end (([0] ++ k) ++ v) rest) by (rewrite ?len_app, ?Hk, ?Hv; done). cbn [mbind res_bind]. by rewrite Hrest.
  - set (t := Branch l r). change (n_data (node_of t)) with (1 :: tree_hash t ++ []). rewrite app_nil_r.
    cbn [app read_nodes]. cbn [Z.eqb Pos.eqb]. rewrite hashSize_32.
    change (1 :: tree_hash t ++ rest) with ([1] ++ tree_hash t ++ rest).
    rewrite (slice_mid [1] (tree_hash t) rest (len prefixBranchHash)) by (rewrite ?len_tree_hash; done). cbn [mbind res_bind].
    rewrite (app_assoc [1]). rewrite (slice_end ([1] ++ tree_hash t) rest) by (rewrite ?len_app, ?len_tree_hash; done).
    cbn [mbind res_bind]. by rewrite Hrest.
Qed.

Lemma read_nodes_layout ts fuel :
  Forall (tree_ok L) ts → (length (concat (n_data <$> (node_of <$> ts))) ≤ fuel)%nat →
  read_nodes fuel L (concat (n_data <$> (node_of <$> ts))) = Ok (node_of <$> ts).
Proof using All.
  intros Hok. revert fuel. induction Hok as [|t ts Ht Hts IH]; intros fuel Hf.
  { by destruct fuel. }
  cbn [fmap list_fmap concat] in *. rewrite length_app in Hf.
  assert (1 ≤ length (n_data (node_of t)))%nat by (destruct t; cbn; lia).
  destruct fuel as [|fuel]; [lia|]. apply read_nodes_app; [done|]. apply IH. lia.
Qed.

(** A subtree is read back from its encoding. *)
Lemma newSubTree_encode t : tree_ok L t → newSubTree (subTree_encode (subtree_of t)) L treeHasher = Ok (subtree_of t).
Proof using All.
  intros Hok. unfold subTree_encode, newSubTree, subtree_of. cbn [st_structure st_nodes].
  set (l := list_of 0 (expand 8 t)). set (enc := Bytes.Join _).
  pose proof (length_list_of 8 0 _ (expand_ok 8 t)) as Hlen. pose proof (list_of_pos 0 (expand 8 t)) as Hpos. fold l in Hlen, Hpos.
  change (2 ^ 8)%nat with 256%nat in Hlen.
  assert (enc = [len l.*2 - 1] ++ l.*2 ++ concat (n_data <$> (node_of <$> l.*1))) as ->.
  { unfold enc, Bytes.Join. cbn [concat app]. f_equal. unfold u8, len. rewrite length_fmap, Z.mod_small by lia. done. }
  cbn [app]. change (?x :: ?y) with ([x] ++ y) at 1 2 3.
  rewrite (slice_mid [_] l.*2 _ 1) by (unfold len; cbn; lia). cbn [mbind res_bind].
  rewrite (app_assoc [_] l.*2). rewrite (slice_end ([_] ++ l.*2)) by (rewrite ?len_app; unfold len; cbn; lia).
  cbn [mbind res_bind]. rewrite read_nodes_layout; [| |lia].
  - cbn [mbind res_bind]. unfold l. rewrite newSubtreeFromData_shape by apply expand_ok. by rewrite shape_hash_expand.
  - apply Forall_fmap, Forall_forall. intros e He. by eapply list_of_tree_ok.
Qed.
End encoding.
