(* ===== verification/SMTMap.v ===== *)
(** * SMTMap: the tree of a map

    The tree of a map from keys to values, built from the bits of the keys, and
    how it changes with the map: the map below a path, its two sides, and the
    application of a batch of updates.  This is the specification [Update] of
    smt.go is compared with in SMTUpdate.v. *)

From S2P Require Import Prelude Collection Codec CodecSpec Message Crypto SMT SMTSpec.

(** ** Bits of keys *)

Abbreviation bits := Bytes.ToBools.

Definition key_bit (k : bytes) (i : nat) : bool := default false (bits k !! i).

Lemma bits_lookup k i :
  bits k !! i = b ← k !! (i / 8)%nat; Bytes.bools_of_byte b !! (i mod 8)%nat.
Proof.
  revert i. induction k as [|b k IH]; intros i; [by rewrite !lookup_nil|].
  unfold bits in *. rewrite bind_cons. destruct (decide (i < 8)%nat) as [Hi|Hi].
  - rewrite lookup_app_l by (by cbn; lia). rewrite Nat.div_small, Nat.mod_small by done. done.
  - rewrite lookup_app_r by (by cbn; lia). change (length (Bytes.bools_of_byte b)) with 8%nat. rewrite IH.
    assert (i / 8 = S ((i - 8) / 8))%nat as ->.
    { replace i with (i - 8 + 1 * 8)%nat at 1 by lia. rewrite Nat.div_add by lia. lia. }
    assert (i mod 8 = (i - 8) mod 8)%nat as ->; [|done].
    replace i with (i - 8 + 1 * 8)%nat at 1 by lia. by rewrite Nat.Div0.mod_add.
Qed.

Lemma IsBitSet_key_bit k i : (i < 8 * length k)%nat → Bytes.IsBitSet k (Z.of_nat i) = Ok (key_bit k i).
Proof.
  intros Hi. unfold Bytes.IsBitSet, key_bit. rewrite bits_lookup.
  assert (i / 8 < length k)%nat as Hb by (apply Nat.Div0.div_lt_upper_bound; lia).
  apply lookup_lt_is_Some in Hb as [b Hb]. unfold index. rewrite Z.quot_div_nonneg by lia.
  rewrite idx_nonneg by (apply Z.div_pos; lia).
  replace (Z.to_nat (Z.of_nat i `div` 8)) with (i / 8)%nat by (apply Nat2Z.inj; rewrite Nat2Z.inj_div, Z2Nat.id by (apply Z.div_pos; lia); done).
  rewrite Hb. cbn [mbind res_bind option_bind]. unfold Bytes.bools_of_byte. rewrite list_lookup_fmap.
  assert (i mod 8 < 8)%nat as Hm by (apply Nat.mod_upper_bound; lia).
  replace (Z.of_nat i `mod` 8) with (Z.of_nat (i mod 8)) by (by rewrite Nat2Z.inj_mod).
  set (j := (i mod 8)%nat) in *. clearbody j. do 8 (destruct j as [|j]; [reflexivity|]). lia.
Qed.

(** The byte the bits of one subtree come from. *)
Definition byte_at (k : bytes) (b : nat) : Z := default 0 (k !! b).

Lemma bools_of_byte_testbit x i :
  byte_ok x → (i < 8)%nat → Bytes.bools_of_byte x !! i = Some (Z.testbit x (7 - Z.of_nat i)).
Proof.
  intros Hx Hi.
  assert (Forall (λ x, Bytes.bools_of_byte x = (λ i, Z.testbit x (7 - i)) <$> seqZ 0 8) (seqZ 0 256)) as HF
    by (apply (bool_decide_unpack _); vm_compute; exact I).
  rewrite Forall_forall in HF. rewrite (HF x) by (apply elem_of_seqZ; unfold byte_ok in *; lia).
  rewrite list_lookup_fmap. rewrite lookup_seqZ_lt by lia. done.
Qed.

Lemma key_bit_testbit k b i :
  bytes_ok k → (b < length k)%nat → (i < 8)%nat →
  key_bit k (8 * b + i) = Z.testbit (byte_at k b) (7 - Z.of_nat i).
Proof.
  intros Hok Hb Hi. unfold key_bit, byte_at. rewrite bits_lookup.
  replace (8 * b + i)%nat with (i + b * 8)%nat by lia. rewrite Nat.div_add, Nat.Div0.mod_add by lia.
  rewrite Nat.div_small, Nat.mod_small by done. cbn [Nat.add].
  destruct (lookup_lt_is_Some_2 k b Hb) as [x Hx]. rewrite Hx. cbn [mbind option_bind default].
  rewrite bools_of_byte_testbit; [done| |done]. rewrite Forall_forall in Hok. by eapply Hok, list_elem_of_lookup_2.
Qed.

(** ** Regions: the keys below a path *)

Section regions.
Context (L : nat).

Record in_region (p : list bool) (k : bytes) : Prop := {
  reg_len : length k = L;
  reg_ok : bytes_ok k;
  reg_path : take (length p) (bits k) = p;
}.

Lemma region_length p k : in_region p k → (length p ≤ 8 * L)%nat.
Proof using.
  intros [Hl _ Hp]. apply (f_equal length) in Hp. rewrite length_take, Bytes.length_ToBools, Hl in Hp. lia.
Qed.

Lemma region_snoc p b k : in_region (p ++ [b]) k ↔ in_region p k ∧ key_bit k (length p) = b ∧ (length p < 8 * L)%nat.
Proof using.
  split.
  - intros Hr. pose proof (region_length _ _ Hr) as Hlen. rewrite length_app in Hlen. cbn in Hlen.
    destruct Hr as [Hl Hok Hp]. split_and!; [|unfold key_bit|lia].
    + split; [done..|]. apply (f_equal (take (length p))) in Hp. rewrite take_take, take_app_length in Hp.
      rewrite length_app in Hp. by replace (length p `min` (length p + length [b]))%nat with (length p) in Hp by (cbn; lia).
    + assert ((p ++ [b]) !! length p = Some b) as Hb by (by apply list_lookup_middle). rewrite <-Hp in Hb.
      rewrite lookup_take_lt in Hb by (rewrite length_app; cbn; lia). by rewrite Hb.
  - intros ([Hl Hok Hp] & Hb & Hlen). split; [done..|].
    assert (is_Some (bits k !! length p)) as [x Hx].
    { apply lookup_lt_is_Some. rewrite Bytes.length_ToBools. lia. }
    unfold key_bit in Hb. rewrite Hx in Hb. cbn in Hb. subst x. rewrite length_app. cbn [length].
    rewrite Nat.add_1_r, (take_S_r _ _ _ Hx). by rewrite Hp.
Qed.

Lemma region_full p k k' : length p = (8 * L)%nat → in_region p k → in_region p k' → k = k'.
Proof using.
  intros Hlen [Hl Hok Hp] [Hl' Hok' Hp'].
  rewrite take_ge in Hp by (rewrite Bytes.length_ToBools; lia). rewrite take_ge in Hp' by (rewrite Bytes.length_ToBools; lia).
  by rewrite <-(Bytes.FromBools_ToBools k), <-(Bytes.FromBools_ToBools k'), Hp, Hp'.
Qed.

(** ** Maps below a path *)

Definition wf_map (p : list bool) (M : gmap bytes bytes) : Prop :=
  ∀ k v, M !! k = Some v → in_region p k ∧ len v = HashLengh.

(** The keys whose bit [i] is [b]. *)
Definition side (i : nat) (b : bool) (M : gmap bytes bytes) : gmap bytes bytes :=
  filter (λ kv, key_bit kv.1 i = b) M.

Lemma side_lookup i b M k v : side i b M !! k = Some v ↔ M !! k = Some v ∧ key_bit k i = b.
Proof using. apply map_lookup_filter_Some. Qed.

Lemma wf_side p b M : (length p < 8 * L)%nat → wf_map p M → wf_map (p ++ [b]) (side (length p) b M).
Proof using.
  intros Hlen Hwf k v [Hk Hb]%side_lookup. destruct (Hwf k v Hk) as [Hr Hv]. split; [|done]. by apply region_snoc.
Qed.

(** The tree of a map; [n] is the number of bits left below depth [d]. *)
Fixpoint build (n d : nat) (M : gmap bytes bytes) : tree :=
  match map_to_list M with
  | [] => Empty
  | [(k, v)] => Leaf k v
  | _ => match n with
         | O => Empty
         | S n => Branch (build n (S d) (side d false M)) (build n (S d) (side d true M))
         end
  end.

Lemma build_empty n d : build n d ∅ = Empty.
Proof using. destruct n; cbn [build]; by rewrite map_to_list_empty. Qed.

Lemma build_single n d k v : build n d {[k := v]} = Leaf k v.
Proof using. destruct n; cbn [build]; by rewrite map_to_list_singleton. Qed.

(** The three cases of a map. *)
Lemma map_cases (M : gmap bytes bytes) :
  M = ∅ ∨ (∃ k v, M = {[k := v]}) ∨
  ∃ k1 k2 v1 v2, k1 ≠ k2 ∧ M !! k1 = Some v1 ∧ M !! k2 = Some v2 ∧
    ∀ (A : Type) (a b c : A) , match map_to_list M with [] => a | [_] => b | _ => c end = c.
Proof using.
  destruct (map_to_list M) as [|[k1 v1] [|[k2 v2] l]] eqn:E.
  - left. by apply map_to_list_empty_iff.
  - right; left. exists k1, v1. apply map_to_list_inj. by rewrite E, map_to_list_singleton.
  - right; right. exists k1, k2, v1, v2.
    assert (NoDup (map_to_list M).*1) as Hnd by apply NoDup_fst_map_to_list. rewrite E in Hnd.
    split_and!.
    + intros ->. cbn in Hnd. apply NoDup_cons in Hnd as [Hn _]. apply Hn. left.
    + apply elem_of_map_to_list. rewrite E. left.
    + apply elem_of_map_to_list. rewrite E. right. left.
    + done.
Qed.

Lemma build_many n d M k1 k2 v1 v2 :
  k1 ≠ k2 → M !! k1 = Some v1 → M !! k2 = Some v2 →
  build n d M = match n with
                | O => Empty
                | S n => Branch (build n (S d) (side d false M)) (build n (S d) (side d true M))
                end.
Proof using.
  intros Hne H1 H2. destruct n; cbn [build]; destruct (map_to_list M) as [|[k v] [|e l]] eqn:E; try done.
  all: try (by apply map_to_list_empty_iff in E; subst).
  all: apply elem_of_map_to_list in H1, H2; rewrite E in H1, H2; apply list_elem_of_singleton in H1, H2; congruence.
Qed.

(** What an empty tree and a leaf say of the map. *)
Lemma build_inv n p M :
  wf_map p M → (length p + n = 8 * L)%nat →
  match build n (length p) M with
  | Empty => M = ∅
  | Leaf k v => M = {[k := v]}
  | Branch _ _ => ∃ k1 k2 v1 v2, k1 ≠ k2 ∧ M !! k1 = Some v1 ∧ M !! k2 = Some v2 ∧ (0 < n)%nat
  end.
Proof using.
  intros Hwf Hlen. destruct (map_cases M) as [->|[(k & v & ->)|(k1 & k2 & v1 & v2 & Hne & H1 & H2 & _)]].
  - by rewrite build_empty.
  - by rewrite build_single.
  - rewrite (build_many _ _ _ k1 k2 v1 v2) by done. destruct n as [|n]; [|by exists k1, k2, v1, v2; eauto with lia].
    exfalso. apply Hne. eapply (region_full p); [lia|by eapply Hwf..].
Qed.

Lemma sides_empty i M : side i false M = ∅ → side i true M = ∅ → M = ∅.
Proof using.
  intros H0 H1. apply map_empty. intros k. destruct (M !! k) as [v|] eqn:E; [exfalso|done].
  assert (side i (key_bit k i) M !! k = Some v) as Hs by (by apply side_lookup).
  destruct (key_bit k i); [rewrite H1 in Hs|rewrite H0 in Hs]; done.
Qed.

Lemma sides_single i b M k v : side i b M = {[k := v]} → side i (negb b) M = ∅ → M = {[k := v]}.
Proof using.
  intros H0 H1. apply map_eq. intros k'. destruct (M !! k') as [v'|] eqn:E.
  - assert (side i (key_bit k' i) M !! k' = Some v') as Hs by (by apply side_lookup).
    destruct (decide (key_bit k' i = b)) as [<-|Hne]; [by rewrite H0 in Hs|].
    replace (key_bit k' i) with (negb b) in Hs by (by destruct (key_bit k' i), b). by rewrite H1 in Hs.
  - destruct (decide (k = k')) as [<-|Hne]; [|by rewrite lookup_singleton_ne].
    assert (side i b M !! k = Some v) as [Hs _]%side_lookup; [|congruence]. rewrite H0. by rewrite lookup_singleton_eq.
Qed.

(** A tree is the join of its two sides. *)
Lemma build_join n p M :
  wf_map p M → (length p + S n = 8 * L)%nat →
  build (S n) (length p) M
  = join (build n (S (length p)) (side (length p) false M)) (build n (S (length p)) (side (length p) true M)).
Proof using.
  intros Hwf Hlen.
  assert (∀ b, wf_map (p ++ [b]) (side (length p) b M)) as Hws by (intros b; apply wf_side; [lia|done]).
  assert (∀ b, length (p ++ [b]) = S (length p)) as Hpb by (intros b; rewrite length_app; cbn; lia).
  pose proof (build_inv n (p ++ [false]) _ (Hws false) ltac:(rewrite Hpb; lia)) as Hl.
  pose proof (build_inv n (p ++ [true]) _ (Hws true) ltac:(rewrite Hpb; lia)) as Hr. rewrite Hpb in Hl, Hr.
  destruct (map_cases M) as [->|[(k & v & ->)|(k1 & k2 & v1 & v2 & Hne & H1 & H2 & _)]].
  - rewrite build_empty. unfold side. by rewrite !map_filter_empty, !build_empty.
  - rewrite build_single. unfold side. destruct (key_bit k (length p)) eqn:Eb.
    + rewrite map_filter_singleton_False by (cbn; congruence). rewrite map_filter_singleton_True by done.
      by rewrite build_empty, build_single.
    + rewrite map_filter_singleton_True by done. rewrite map_filter_singleton_False by (cbn; congruence).
      by rewrite build_empty, build_single.
  - rewrite (build_many _ _ _ k1 k2 v1 v2) by done.
    assert (∀ k v, M ≠ {[k := v]}) as Hns.
    { intros k v ->. apply lookup_singleton_Some in H1 as [<- _], H2 as [<- _]. done. }
    destruct (build n _ (side _ false M)), (build n _ (side _ true M)); cbn [join]; try done; exfalso.
    + by rewrite (sides_empty (length p) M) in H1.
    + by apply (Hns k v), (sides_single (length p) true).
    + by apply (Hns k v), (sides_single (length p) false).
Qed.

(** ** Keys of trees *)

Fixpoint tree_keys (t : tree) : list bytes :=
  match t with Empty => [] | Leaf k _ => [k] | Branch l r => tree_keys l ++ tree_keys r end.

(** Every branch has a key. *)
Fixpoint full (t : tree) : Prop :=
  match t with Branch l r => tree_keys t ≠ [] ∧ full l ∧ full r | _ => True end.

(** Induction along the sides of a map. *)
Lemma build_rect_sides (Q : nat → list bool → gmap bytes bytes → tree → Prop) :
  (∀ n p, Q n p ∅ Empty) →
  (∀ n p k v, wf_map p {[k := v]} → Q n p {[k := v]} (Leaf k v)) →
  (∀ n p M l r, wf_map p M → M ≠ ∅ → (length p + S n = 8 * L)%nat →
     Q n (p ++ [false]) (side (length p) false M) l → Q n (p ++ [true]) (side (length p) true M) r →
     Q (S n) p M (Branch l r)) →
  ∀ n p M, wf_map p M → (length p + n = 8 * L)%nat → Q n p M (build n (length p) M).
Proof using.
  intros HE HL HB. induction n as [|n IH]; intros p M Hwf Hlen.
  all: destruct (map_cases M) as [->|[(k & v & ->)|(k1 & k2 & v1 & v2 & Hne & H1 & H2 & _)]];
    [by rewrite build_empty|rewrite build_single; by apply HL|rewrite (build_many _ _ _ k1 k2 v1 v2) by done].
  - exfalso. apply Hne. eapply (region_full p); [lia|by eapply Hwf..].
  - assert (∀ b, length (p ++ [b]) = S (length p)) as Hpb by (intros b; rewrite length_app; cbn; lia).
    apply HB; [done|by intros ->|lia| |].
    + rewrite <-(Hpb false). apply IH; [apply wf_side; [lia|done]|rewrite Hpb; lia].
    + rewrite <-(Hpb true). apply IH; [apply wf_side; [lia|done]|rewrite Hpb; lia].
Qed.

Lemma build_keys n p M :
  wf_map p M → (length p + n = 8 * L)%nat → ∀ k, k ∈ tree_keys (build n (length p) M) ↔ is_Some (M !! k).
Proof using.
  apply (build_rect_sides (λ n p M t, ∀ k, k ∈ tree_keys t ↔ is_Some (M !! k))); clear n p M.
  - intros n p k. rewrite lookup_empty, is_Some_alt. set_solver.
  - intros n p k v _ k'. cbn. rewrite list_elem_of_singleton. split.
    + intros ->. rewrite lookup_singleton_eq. eauto.
    + intros [x [<- _]%lookup_singleton_Some]. done.
  - intros n p M l r _ _ _ IHl IHr k. cbn. rewrite elem_of_app, IHl, IHr. split.
    + intros [[v [Hv _]%side_lookup]|[v [Hv _]%side_lookup]]; eauto.
    + intros [v Hv]. destruct (key_bit k (length p)) eqn:Eb; [right|left]; exists v; by apply side_lookup.
Qed.

(** The tree determines the map. *)
Fixpoint tree_leaves (t : tree) : list (bytes * bytes) :=
  match t with Empty => [] | Leaf k v => [(k, v)] | Branch l r => tree_leaves l ++ tree_leaves r end.

Lemma build_leaves n p M :
  wf_map p M → (length p + n = 8 * L)%nat → ∀ k v, (k, v) ∈ tree_leaves (build n (length p) M) ↔ M !! k = Some v.
Proof using.
  apply (build_rect_sides (λ n p M t, ∀ k v, (k, v) ∈ tree_leaves t ↔ M !! k = Some v)); clear n p M.
  - intros n p k v. rewrite lookup_empty. set_solver.
  - intros n p k v _ k' v'. cbn. rewrite list_elem_of_singleton, lookup_singleton_Some. naive_solver.
  - intros n p M l r _ _ _ IHl IHr k v. cbn. rewrite elem_of_app, IHl, IHr, !side_lookup. split; [naive_solver|].
    intros Hv. destruct (key_bit k (length p)); auto.
Qed.

Lemma build_inj n p M M' : wf_map p M → wf_map p M' → (length p + n = 8 * L)%nat →
  build n (length p) M = build n (length p) M' → M = M'.
Proof using.
  intros HM HM' Hlen E. apply map_eq. intros k. apply option_eq. intros v.
  by rewrite <-(build_leaves n p M), <-(build_leaves n p M'), E.
Qed.

Lemma build_full n p M : wf_map p M → (length p + n = 8 * L)%nat → full (build n (length p) M).
Proof using.
  intros Hwf Hlen. revert n p M Hwf Hlen.
  assert (∀ n p M, wf_map p M → (length p + n = 8 * L)%nat →
    full (build n (length p) M) ∧ (M ≠ ∅ → tree_keys (build n (length p) M) ≠ [])) as Hgen; [|intros; by apply Hgen].
  apply (build_rect_sides (λ n p M t, full t ∧ (M ≠ ∅ → tree_keys t ≠ []))); [done|done|].
  intros n p M l r _ Hne _ [Fl Kl] [Fr Kr]. assert (tree_keys (Branch l r) ≠ []) as Hk; [|done].
  cbn. intros [El Er]%app_nil. apply Hne, (sides_empty (length p)).
  - destruct (decide (side (length p) false M = ∅)) as [|Hs]; [done|]. by destruct (Kl Hs).
  - destruct (decide (side (length p) true M = ∅)) as [|Hs]; [done|]. by destruct (Kr Hs).
Qed.

Lemma build_tree_ok n p M : wf_map p M → (length p + n = 8 * L)%nat → tree_ok (Z.of_nat L) (build n (length p) M).
Proof using.
  revert n p M. apply (build_rect_sides (λ n p M t, tree_ok (Z.of_nat L) t)); [done| |done].
  intros n p k v Hwf. destruct (Hwf k v) as [[Hl _ _] Hv]; [by rewrite lookup_singleton_eq|]. split; [|done].
  unfold len. by rewrite Hl.
Qed.

(** ** A batch of updates *)

(** An empty value deletes the key. *)
Definition upd1 (u m : option bytes) : option bytes :=
  match u with Some [] => None | Some v => Some v | None => m end.

Definition apply (U : list (bytes * bytes)) (M : gmap bytes bytes) : gmap bytes bytes :=
  merge upd1 (list_to_map U) M.

Lemma lookup_apply U M k : apply U M !! k = upd1 (list_to_map (M := gmap bytes bytes) U !! k) (M !! k).
Proof using. unfold apply. rewrite lookup_merge. by destruct (list_to_map U !! k), (M !! k). Qed.

Lemma apply_nil M : apply [] M = M.
Proof using. apply map_eq. intros k. by rewrite lookup_apply. Qed.

Lemma apply_single k v M : apply [(k, v)] M = match v with [] => delete k M | _ => <[k := v]> M end.
Proof using.
  apply map_eq. intros k'. rewrite lookup_apply. cbn [list_to_map foldr].
  destruct (decide (k = k')) as [<-|Hne].
  - rewrite lookup_insert_eq. destruct v; cbn; by rewrite ?lookup_delete_eq, ?lookup_insert_eq.
  - rewrite lookup_insert_ne by done. rewrite lookup_empty. cbn.
    destruct v; by rewrite ?lookup_delete_ne, ?lookup_insert_ne.
Qed.

Definition wf_upd (p : list bool) (U : list (bytes * bytes)) : Prop :=
  NoDup U.*1 ∧ ∀ k v, (k, v) ∈ U → in_region p k ∧ (v = [] ∨ len v = HashLengh).

Lemma apply_perm U U' M : NoDup U.*1 → U ≡ₚ U' → apply U M = apply U' M.
Proof using. intros Hnd Hp. unfold apply. by rewrite (list_to_map_proper U U'). Qed.

Lemma wf_apply p U M : wf_upd p U → wf_map p M → wf_map p (apply U M).
Proof using.
  intros [Hnd HU] HM k v. rewrite lookup_apply. destruct (list_to_map U !! k) as [u|] eqn:E; [|apply HM].
  apply elem_of_list_to_map in E; [|done]. destruct (HU _ _ E) as [Hr Hv]. destruct u as [|x u]; [done|].
  intros [= <-]. destruct Hv as [?|?]; done.
Qed.

Lemma wf_upd_app p U V : wf_upd p (U ++ V) → wf_upd p U ∧ wf_upd p V.
Proof using.
  intros [Hnd HU]. rewrite fmap_app in Hnd. apply NoDup_app in Hnd as (H1 & _ & H2).
  split; (split; [done|]); intros k v Hk; apply HU, elem_of_app; auto.
Qed.

Lemma wf_upd_snoc p b U :
  (length p < 8 * L)%nat → wf_upd p U → (∀ e, e ∈ U → key_bit e.1 (length p) = b) → wf_upd (p ++ [b]) U.
Proof using.
  intros Hlen [Hnd HU] Hb. split; [done|]. intros k v Hk. destruct (HU k v Hk) as [Hr Hv]. split; [|done].
  apply region_snoc. split_and!; [done|by apply (Hb (k, v))|done].
Qed.

(** The updates of one side act on that side. *)
Lemma side_apply i b U V M :
  (∀ e, e ∈ U → key_bit e.1 i = b) → (∀ e, e ∈ V → key_bit e.1 i = negb b) →
  NoDup (U ++ V).*1 → side i b (apply (U ++ V) M) = apply U (side i b M).
Proof using.
  intros HU HV Hnd. apply map_eq. intros k. apply option_eq. intros v. rewrite side_lookup, !lookup_apply.
  assert (∀ (l : list (bytes * bytes)) x, list_to_map (M := gmap bytes bytes) l !! k = Some x → (k, x) ∈ l) as Hin
    by (intros l x; apply elem_of_list_to_map_2).
  rewrite list_to_map_app, lookup_union.
  destruct (list_to_map U !! k) as [u|] eqn:Eu.
  - assert (key_bit k i = b) by (by apply (HU (k, u)), Hin). rewrite union_Some_l. cbn. split; [by intros [? _]|done].
  - rewrite (left_id_L None _). destruct (list_to_map V !! k) as [w|] eqn:Ew.
    + assert (key_bit k i = negb b) as Hb by (by apply (HV (k, w)), Hin). cbn.
      split; [intros [_ E]|intros [_ E]%side_lookup]; rewrite Hb in E; by destruct b.
    + cbn. by rewrite side_lookup.
Qed.
End regions.
