(* ===== verification/SMTUpdate.v ===== *)
(** * SMTUpdate: [Update] computes the tree of the updated map

    A database stores a tree when every subtree of eight levels is kept under
    its hash.  The mutual recursion of [updateSubtree] and [updateNode]
    (smt.go) is shown to turn a stored tree of a map into the stored tree of the
    updated map, provided no two of the trees involved collide. *)

From S2P Require Import Prelude Collection Codec CodecSpec Message Crypto SMT SMTSpec SMTMap.

(** ** Stored trees *)

(** The trees that are kept as subtrees of their own, with [n] levels left in
    the current subtree. *)
Fixpoint subs (n : nat) (t : tree) {struct t} : list tree :=
  match t with
  | Branch l r => match n with
                  | O => t :: subs 7 l ++ subs 7 r
                  | S n => subs n l ++ subs n r
                  end
  | _ => []
  end.

Lemma subs_join n l r : subs (S n) (join l r) = subs n l ++ subs n r.
Proof. by destruct l, r; destruct n. Qed.

Fixpoint tree_size (t : tree) : nat := match t with Branch l r => S (tree_size l + tree_size r) | _ => 1%nat end.

Lemma subs_size n t x : x ∈ subs n t → (tree_size x ≤ tree_size t)%nat.
Proof.
  revert n. induction t as [| |l IHl r IHr]; intros n; cbn [subs]; [by intros ?%not_elem_of_nil..|].
  destruct n as [|n]; rewrite ?elem_of_cons, ?elem_of_app; intros Hx; cbn [tree_size]; naive_solver lia.
Qed.

Lemma subs_branch n t x : x ∈ subs n t → is_branch x = true.
Proof.
  revert n. induction t as [| |l IHl r IHr]; intros n; cbn [subs]; [by intros ?%not_elem_of_nil..|].
  destruct n as [|n]; rewrite ?elem_of_cons, ?elem_of_app; naive_solver.
Qed.

Lemma subs_keys n t x k : x ∈ subs n t → k ∈ tree_keys x → k ∈ tree_keys t.
Proof.
  revert n. induction t as [| |l IHl r IHr]; intros n; cbn [subs]; [by intros ?%not_elem_of_nil..|].
  destruct n as [|n]; rewrite ?elem_of_cons, ?elem_of_app.
  - intros [->|[Hx|Hx]] Hk; [done|..]; cbn [tree_keys]; apply elem_of_app; eauto.
  - intros [Hx|Hx] Hk; cbn [tree_keys]; apply elem_of_app; eauto.
Qed.

Lemma subs_full n t x : full t → x ∈ subs n t → tree_keys x ≠ [].
Proof.
  revert n. induction t as [| |l IHl r IHr]; intros n; cbn [subs]; [by intros _ ?%not_elem_of_nil..|].
  intros (Hk & Hl & Hr). destruct n as [|n]; rewrite ?elem_of_cons, ?elem_of_app; naive_solver.
Qed.

(** ** Bins *)

(** The bins of the keys below a path of length [d]: the two halves hold the
    keys of the two sides. *)
Fixpoint bins_ok (n d : nat) (bins : list (list (bytes * bytes))) : Prop :=
  match n with
  | O => length bins = 1%nat
  | S n => ∃ l r, bins = l ++ r ∧ bins_ok n (S d) l ∧ bins_ok n (S d) r ∧
             (∀ e, e ∈ concat l → key_bit e.1 d = false) ∧ (∀ e, e ∈ concat r → key_bit e.1 d = true)
  end.

Lemma length_bins_ok n d bins : bins_ok n d bins → length bins = (2 ^ n)%nat.
Proof.
  revert d bins. induction n as [|n IH]; intros d bins; [done|].
  intros (l & r & -> & Hl%IH & Hr%IH & _). rewrite length_app. cbn [Nat.pow]. lia.
Qed.

Lemma length_length_bins b bins : length (length_bins b bins) = length bins.
Proof. revert b. induction bins as [|x bins IH]; intros b; cbn; [done|]. by rewrite IH. Qed.

Lemma length_bins_app b l r : length_bins b (l ++ r) = length_bins b l ++ length_bins (b + len (concat l)) r.
Proof.
  revert b. induction l as [|x l IH]; intros b; cbn; [by rewrite Z.add_0_r|]. rewrite IH, len_app.
  by rewrite Z.add_assoc.
Qed.

Lemma length_bins_last b bins :
  bins ≠ [] → index (length_bins b bins) (len (length_bins b bins) - 1) = Ok (b + len (concat bins)).
Proof.
  destruct bins as [|x bins _] using rev_ind; [done|]. intros _. rewrite length_bins_app. cbn [length_bins].
  rewrite len_app. unfold index. replace (len (length_bins b bins) + len [b + len (concat bins) + len x] - 1)
    with (len (length_bins b bins)) by (unfold len; cbn; lia).
  rewrite idx_app_len, concat_app. cbn [concat]. rewrite app_nil_r, len_app. f_equal. lia.
Qed.

(** The bin of the only key. *)
Lemma find_single b bins e i :
  concat bins = [e] →
  ∃ j, Slices.FindIndex_from i (length_bins b bins) (λ x, x =? b + 1) = i + Z.of_nat j ∧ bins !! j = Some [e].
Proof.
  revert i. induction bins as [|x bins IH]; intros i; cbn [concat length_bins Slices.FindIndex_from]; [done|].
  destruct x as [|e' x].
  - cbn [app]. intros Hc. rewrite Z.add_0_r. destruct (Z.eqb_spec b (b + 1)); [lia|].
    destruct (IH (i + 1) Hc) as (j & -> & Hj). exists (S j). split; [lia|done].
  - intros [= -> [-> Hc]%app_nil]. exists 0%nat. unfold len. cbn [length]. rewrite Z.eqb_refl. split; [lia|done].
Qed.

Lemma elem_of_concat {A} (e : A) ls : e ∈ concat ls ↔ ∃ l, e ∈ l ∧ l ∈ ls.
Proof.
  induction ls as [|l ls IH]; cbn; [set_solver|]. rewrite elem_of_app, IH. set_solver.
Qed.

(** Bins by the value of byte [b] of the key. *)
Definition bins_by (b : nat) (start : Z) (bins : list (list (bytes * bytes))) : Prop :=
  ∀ j bin e, bins !! j = Some bin → e ∈ bin →
    bytes_ok e.1 ∧ (b < length e.1)%nat ∧ byte_at e.1 b = start + Z.of_nat j.

Lemma bins_by_ok n b start bins :
  (n ≤ 8)%nat → length bins = (2 ^ n)%nat → (∃ m, start = 2 ^ Z.of_nat n * m) →
  bins_by b start bins → bins_ok n (8 * b + (8 - n)) bins.
Proof.
  revert start bins. induction n as [|n IH]; intros start bins Hn Hlen [m Hm] Hby; [done|].
  cbn [Nat.pow] in Hlen. assert (2 ^ Z.of_nat (S n) = 2 * 2 ^ Z.of_nat n) as E2 by (rewrite Nat2Z.inj_succ; by apply Z.pow_succ_r, Nat2Z.is_nonneg).
  assert (0 < 2 ^ Z.of_nat n) as Hpos by (apply Z.pow_pos_nonneg; lia).
  assert (Z.of_nat (2 ^ n) = 2 ^ Z.of_nat n) as En by apply Nat2Z.inj_pow.
  cbn [bins_ok]. exists (take (2 ^ n) bins), (drop (2 ^ n) bins). rewrite take_drop.
  replace (S (8 * b + (8 - S n))) with (8 * b + (8 - n))%nat by lia.
  assert (∀ e j bin, bins !! j = Some bin → e ∈ bin →
    key_bit e.1 (8 * b + (8 - S n)) = bool_decide (2 ^ n ≤ j)%nat) as Hbit.
  { intros e j bin Hj He. pose proof (lookup_lt_Some _ _ _ Hj) as Hjl. destruct (Hby j bin e Hj He) as (Hok & Hb & Hv).
    rewrite key_bit_testbit by (done || lia). rewrite Hv. replace (7 - Z.of_nat (8 - S n)) with (Z.of_nat n) by lia.
    rewrite Z.testbit_odd, Z.shiftr_div_pow2 by lia.
    replace (start + Z.of_nat j) with (Z.of_nat j + (2 * m) * 2 ^ Z.of_nat n) by lia. rewrite Z.div_add by lia.
    rewrite Z.odd_add, Z.odd_mul. cbn [Z.odd andb]. rewrite xorb_false_r. case_bool_decide as Hc.
    - replace (Z.of_nat j) with (Z.of_nat (j - 2 ^ n) + 1 * 2 ^ Z.of_nat n) by lia. rewrite Z.div_add by lia.
      rewrite Z.div_small by lia. done.
    - rewrite Z.div_small by lia. done. }
  split_and!; [done| | | |].
  - apply (IH start); [lia|rewrite length_take; lia|exists (2 * m); lia|].
    intros j bin e [Hj _]%lookup_take_Some He. by eapply Hby.
  - apply (IH (start + 2 ^ Z.of_nat n)); [lia|rewrite length_drop; lia|exists (2 * m + 1); lia|].
    intros j bin e Hj He. rewrite lookup_drop in Hj. destruct (Hby _ _ e Hj He) as (? & ? & ->). split_and!; [done..|lia].
  - intros e (bin & He & [j [Hj Hjl]%lookup_take_Some]%list_elem_of_lookup)%elem_of_concat.
    rewrite (Hbit e j bin) by done. apply bool_decide_false. lia.
  - intros e (bin & He & [j Hj]%list_elem_of_lookup)%elem_of_concat. rewrite lookup_drop in Hj.
    rewrite (Hbit e (2 ^ n + j)%nat bin) by done. apply bool_decide_true. lia.
Qed.

(** Filling the bins. *)
Lemma fill_bins_spec `{Hasher} T height b kvs bins :
  t_subtreeHeight T = 8 → length bins = 256%nat → bins_by b 0 bins →
  (∀ k v, (k, v) ∈ kvs → bytes_ok k ∧ (b < length k)%nat) →
  ∃ bins', fill_bins T height (Z.of_nat b) kvs bins = Ok bins' ∧ length bins' = 256%nat ∧ bins_by b 0 bins' ∧
    concat bins' ≡ₚ concat bins ++ kvs.
Proof.
  intros HT. revert bins. induction kvs as [|[k v] kvs IH]; intros bins Hlen Hby Hk; cbn [fill_bins].
  { exists bins. by rewrite app_nil_r. }
  destruct (Hk k v) as [Hok Hb]; [left|]. destruct (lookup_lt_is_Some_2 k b Hb) as [x Hx].
  assert (byte_ok x) as Hxb by (rewrite Forall_forall in Hok; by eapply Hok, list_elem_of_lookup_2).
  assert (byte_at k b = x) as Ex by (unfold byte_at; by rewrite Hx).
  unfold getBinIndex. rewrite HT. cbn [Z.eqb Pos.eqb]. unfold index. rewrite !idx_nonneg by lia. rewrite Nat2Z.id, Hx.
  cbn [mbind res_bind]. unfold byte_ok in Hxb. rewrite idx_nonneg by lia.
  destruct (lookup_lt_is_Some_2 bins (Z.to_nat x)) as [old Hold]; [lia|]. rewrite Hold. cbn [mbind res_bind].
  destruct (IH (<[Z.to_nat x := old ++ [(k, v)]]> bins)) as (bins' & -> & Hl' & Hby' & Hp').
  - by rewrite length_insert.
  - intros j bin e Hj He. apply list_lookup_insert_Some in Hj as [(<- & <- & _)|[_ Hj]]; [|by eapply Hby].
    apply elem_of_app in He as [He| ->%list_elem_of_singleton]; [by eapply Hby|]. cbn [fst]. split_and!; [done..|lia].
  - intros k' v' Hin. apply (Hk k' v'). by right.
  - exists bins'. split_and!; [done..|]. rewrite Hp'.
    rewrite <-(take_drop_middle bins (Z.to_nat x) old Hold) at 2. rewrite insert_take_drop by lia.
    rewrite !concat_app. cbn [concat]. rewrite <-!app_assoc. cbn [app].
    do 2 f_equiv. apply Permutation_middle.
Qed.

Lemma concat_replicate_nil {A} n : concat (replicate n (@nil A)) = [].
Proof. induction n; cbn; done. Qed.

Lemma join_branch a b l r : join a b = Branch l r → a = l ∧ b = r.
Proof. destruct a, b; cbn; try done; by intros [= -> ->]. Qed.

Lemma update_nodes_app {D} `{Hasher} (f : list (list (bytes * bytes)) → list Z → node → Z → D → res (list node * list Z * D))
    T bins ns1 st1 ns2 st2 off db :
  length ns1 = length st1 →
  update_nodes f T bins (ns1 ++ ns2) (st1 ++ st2) off db
  = ('((a, b), off, db) ← update_nodes f T bins ns1 st1 off db;
     '((a', b'), off, db) ← update_nodes f T bins ns2 st2 off db;
     Ok ((a ++ a', b ++ b'), off, db)).
Proof.
  revert st1 off db. induction ns1 as [|n ns1 IH]; intros [|h st1] off db; try done; cbn [app update_nodes].
  - intros _. cbn [mbind res_bind]. by destruct (update_nodes f T bins ns2 st2 off db) as [[[[]]]| | |].
  - intros [= Hl]. destruct (slice bins off _) as [target| | |]; cbn [mbind res_bind]; [|done..].
    destruct (f _ _ _ _ _) as [[[a b] db1]| | |]; cbn [mbind res_bind]; [|done..]. rewrite IH by done.
    destruct (update_nodes f T bins ns1 st1 _ db1) as [[[[a' b'] off'] db2]| | |]; cbn [mbind res_bind]; [|done..].
    destruct (update_nodes f T bins ns2 st2 _ _) as [[[[] ?] ?]| | |]; cbn [mbind res_bind]; [|done..].
    by rewrite !app_assoc.
Qed.

Lemma join_nonbranch l r : is_branch (join l r) = false → is_branch l = false ∧ is_branch r = false.
Proof. by destruct l, r. Qed.

(** The halves of the bins and of their running lengths. *)
Lemma split_bins {A} n base (l r : list (list (bytes * bytes))) (f : list (list (bytes * bytes)) → list (list (bytes * bytes)) → list Z → list Z → Z → res A) :
  length l = (2 ^ n)%nat → length r = (2 ^ n)%nat →
  (let bins := l ++ r in let lengthBins := length_bins base bins in let splitIndex := len bins ÷ 2 in
   leftBins ← slice bins 0 splitIndex; rightBins ← slice bins splitIndex (len bins);
   leftLengths ← slice lengthBins 0 splitIndex; rightLengths ← slice lengthBins splitIndex (len lengthBins);
   rightBase ← index lengthBins (splitIndex - 1); f leftBins rightBins leftLengths rightLengths rightBase)
  = f l r (length_bins base l) (length_bins (base + len (concat l)) r) (base + len (concat l)).
Proof.
  intros Hl Hr. cbv zeta. assert (len (l ++ r) ÷ 2 = len l) as ->.
  { rewrite len_app. unfold len. rewrite Hl, Hr. rewrite Z.quot_div_nonneg by lia.
    replace (Z.of_nat (2 ^ n) + Z.of_nat (2 ^ n)) with (Z.of_nat (2 ^ n) * 2) by lia. by apply Z.div_mul. }
  rewrite length_bins_app. assert (len l = len (length_bins base l)) as El by (unfold len; by rewrite length_length_bins).
  rewrite (slice_mid [] l r 0) by done. cbn [mbind res_bind]. rewrite (slice_end l r) by done. cbn [mbind res_bind].
  rewrite (slice_mid [] (length_bins base l) (length_bins (base + len (concat l)) r) 0) by done. cbn [mbind res_bind].
  rewrite (slice_end (length_bins base l)) by done. cbn [mbind res_bind].
  assert (index (length_bins base l ++ length_bins (base + len (concat l)) r) (len l - 1) = Ok (base + len (concat l))) as ->; [|done].
  assert (l ≠ []) as Hne by (intros ->; cbn in Hl; pose proof (Nat.pow_nonzero 2 n); lia).
  rewrite <-(length_bins_last base l) by done. rewrite El. unfold index. f_equal.
  assert (0 < len (length_bins base l)) by (rewrite <-El; destruct l; [done|unfold len; cbn; lia]).
  rewrite !idx_nonneg by lia. rewrite lookup_app_l by (unfold len in *; lia). done.
Qed.

Lemma updateSubtree_S `{Hasher} {D} `{DBReadWriter D} fuel t kvs currentSubtree height (db : D) :
  updateSubtree (S fuel) t kvs currentSubtree height db
  = if len kvs =? 0 then Ok (currentSubtree, db)
    else
      bins ← fill_bins t height (height ÷ 8) kvs (replicate (Z.to_nat (t_maxNumberOfNodes t)) []);
      '((newNodes, newStructure), binOffset, db) ←
        update_nodes (λ target lengthBins currentNode h db,
                        updateNode fuel t target lengthBins 0 currentNode height h db)
          t bins (st_nodes currentSubtree) (st_structure currentSubtree) 0 db;
      if negb (binOffset =? t_maxNumberOfNodes t) then Err (Errorf "bin offset should end with")
      else
        maxStructure ← Ints.Max newStructure;
        newSubtree ← calculateSubTree newNodes newStructure maxStructure (t_hasher t) [];
        Ok (newSubtree, db_Set (st_root newSubtree) (subTree_encode newSubtree) db).
Proof. reflexivity. Qed.

(** A database whose reads need not see its writes yet, as a batch: [db_View] is
    what it holds once they are made, and reads of other keys are not disturbed. *)
Class DBView (D : Type) `{DBReadWriter D} := {
  db_View : D → bytes → option bytes;
  db_View_Set : ∀ d k v k', db_View (db_Set k v d) k' = if bytes_equal k k' then Some v else db_View d k';
  db_View_Del : ∀ d k k', db_View (db_Del k d) k' = if bytes_equal k k' then None else db_View d k';
  db_Get_Set_ne : ∀ d k v k', k ≠ k' → db_Get (db_Set k v d) k' = db_Get d k';
  db_Get_Del_ne : ∀ d k k', k ≠ k' → db_Get (db_Del k d) k' = db_Get d k';
}.

#[export] Instance laws_view `{DBLaws D} : DBView D.
Proof.
  refine {| db_View := db_Get; db_View_Set := db_Get_Set; db_View_Del := db_Get_Del |};
    intros; rewrite ?db_Get_Set, ?db_Get_Del; unfold bytes_equal; by rewrite bool_decide_false.
Defined.

Section update.
Context `{HashLaws} {D : Type} `{DBReadWriter D, !DBView D} (L : nat).

Abbreviation N := (8 * L)%nat.
Abbreviation region := (in_region L).
Abbreviation tree_at p M := (build (N - length p) (length p) M).

(** The subtrees that are written, and those that can be read as well. *)
Definition stored (db : D) (ts : list tree) : Prop :=
  ∀ x, x ∈ ts → db_View db (tree_hash x) = Some (subTree_encode (subtree_of x)).

Definition present (db : D) (ts : list tree) : Prop :=
  ∀ x, x ∈ ts → db_View db (tree_hash x) = Some (subTree_encode (subtree_of x)) ∧
    db_Get db (tree_hash x) = Some (subTree_encode (subtree_of x)).

Lemma present_stored db ts : present db ts → stored db ts.
Proof using. intros Hp x Hx. by apply Hp. Qed.

(** The trees that occur, before and after; no two of them have one hash. *)
Context (trees : tree → Prop).
Context (trees_Empty : trees Empty).
Context (trees_Branch : ∀ l r, trees (Branch l r) → trees l ∧ trees r).
Context (trees_inj : ∀ x y, trees x → trees y → tree_hash x = tree_hash y → x = y).

(** Only what is stored for trees within the region changes. *)
Definition effect (p : list bool) (db db' : D) : Prop :=
  ∀ x, trees x → is_branch x = true → (∃ k, k ∈ tree_keys x ∧ ¬ region p k) →
    db_View db' (tree_hash x) = db_View db (tree_hash x) ∧ db_Get db' (tree_hash x) = db_Get db (tree_hash x).

Lemma effect_refl p db : effect p db db.
Proof using. by intros x. Qed.

Lemma effect_trans p db1 db2 db3 : effect p db1 db2 → effect p db2 db3 → effect p db1 db3.
Proof using. intros H12 H23 x Hx Hb Hk. destruct (H23 x Hx Hb Hk) as [-> ->]. by apply H12. Qed.

Lemma effect_snoc p b db db' : effect (p ++ [b]) db db' → effect p db db'.
Proof using.
  intros He x Hx Hb (k & Hk & Hr). apply He; [done..|]. exists k. split; [done|].
  intros [? _]%region_snoc. done.
Qed.

Lemma trees_subs n t x : trees t → x ∈ subs n t → trees x.
Proof using trees_Branch.
  revert n. induction t as [| |l IHl r IHr]; intros n Ht; cbn [subs]; [by intros ?%not_elem_of_nil..|].
  destruct (trees_Branch _ _ Ht). destruct n as [|n]; rewrite ?elem_of_cons, ?elem_of_app; naive_solver.
Qed.

(** Storing and deleting a tree within the region. *)
Lemma effect_Set p t e db :
  trees t → (∀ k, k ∈ tree_keys t → region p k) → effect p db (db_Set (tree_hash t) e db).
Proof using trees_inj.
  intros Ht Hk x Hx Hb (k & Hkx & Hr). assert (tree_hash t ≠ tree_hash x) as Hne.
  { intros E. apply trees_inj in E; [|done..]. subst x. by apply Hr, Hk. }
  rewrite db_View_Set, db_Get_Set_ne by done. unfold bytes_equal. by rewrite bool_decide_false.
Qed.

Lemma effect_Del p t db :
  trees t → (∀ k, k ∈ tree_keys t → region p k) → effect p db (db_Del (tree_hash t) db).
Proof using trees_inj.
  intros Ht Hk x Hx Hb (k & Hkx & Hr). assert (tree_hash t ≠ tree_hash x) as Hne.
  { intros E. apply trees_inj in E; [|done..]. subst x. by apply Hr, Hk. }
  rewrite db_View_Del, db_Get_Del_ne by done. unfold bytes_equal. by rewrite bool_decide_false.
Qed.

(** What lies on the other side stays as it is. *)
Lemma other_side p b db db' n M x :
  effect (p ++ [negb b]) db db' → wf_map L (p ++ [b]) M → trees (tree_at (p ++ [b]) M) →
  (length p < N)%nat → x ∈ subs n (tree_at (p ++ [b]) M) →
  db_View db' (tree_hash x) = db_View db (tree_hash x) ∧ db_Get db' (tree_hash x) = db_Get db (tree_hash x).
Proof using trees_Branch.
  intros He Hwf Ht Hlen Hx. apply He; [by eapply trees_subs|by eapply subs_branch|].
  assert ((length (p ++ [b]) + (N - length (p ++ [b])) = N)%nat) as Hl by (rewrite length_app; cbn; lia).
  pose proof (subs_full _ _ _ (build_full L _ _ _ Hwf Hl) Hx) as Hne.
  destruct (tree_keys x) as [|k ks] eqn:Ek; [done|]. exists k. split; [left|].
  assert (k ∈ tree_keys (tree_at (p ++ [b]) M)) as Hk by (eapply subs_keys; [exact Hx|rewrite Ek; left]).
  apply (build_keys L _ _ _ Hwf Hl) in Hk as [v Hv]. destruct (Hwf k v Hv) as [(_ & Hb & _)%region_snoc _].
  intros (_ & Hb' & _)%region_snoc. destruct b; cbn in *; congruence.
Qed.

Lemma stored_effect p b db db' n M :
  effect (p ++ [negb b]) db db' → wf_map L (p ++ [b]) M → trees (tree_at (p ++ [b]) M) →
  (length p < N)%nat → stored db (subs n (tree_at (p ++ [b]) M)) → stored db' (subs n (tree_at (p ++ [b]) M)).
Proof using trees_Branch. intros He Hwf Ht Hlen Hs x Hx. edestruct other_side as [-> _]; [done..|]. by apply Hs. Qed.

Lemma present_effect p b db db' n M :
  effect (p ++ [negb b]) db db' → wf_map L (p ++ [b]) M → trees (tree_at (p ++ [b]) M) →
  (length p < N)%nat → present db (subs n (tree_at (p ++ [b]) M)) → present db' (subs n (tree_at (p ++ [b]) M)).
Proof using trees_Branch. intros He Hwf Ht Hlen Hs x Hx. edestruct other_side as [-> ->]; [done..|]. by apply Hs. Qed.

(** ** Nodes *)

Context (T : trie).
Context (T_keyLength : t_keyLength T = Z.of_nat L) (T_height : t_subtreeHeight T = 8).
Context (T_max : t_maxNumberOfNodes T = 256) (T_hasher : t_hasher T = treeHasher).

(** The result of updating a node with [n] levels left: nodes of a shape whose
    tree is [t'], stored. *)
Definition node_post (p : list bool) (n : nat) (t' : tree) (db : D) (r : res ((list node * list Z) * D)) : Prop :=
  ∃ s db', r = Ok (layout (list_of (8 - Z.of_nat n) s), db') ∧ shape_ok n s ∧ norm s = t' ∧
    effect p db db' ∧ stored db' (subs n t').

Lemma node_post_one p n t' db :
  (n = 0%nat ∨ is_branch t' = false) → stored db (subs n t') →
  node_post p n t' db (Ok (([node_of t'], [8 - Z.of_nat n]), db)).
Proof using. intros Hb Hs. exists (One t'), db. split_and!; [done..|apply effect_refl|done]. Qed.

Lemma stored_leaf db t n : is_branch t = false → stored db (subs n t).
Proof using. destruct t; [by intros _ x ?%not_elem_of_nil..|done]. Qed.

Lemma present_leaf db t n : is_branch t = false → present db (subs n t).
Proof using. destruct t; [by intros _ x ?%not_elem_of_nil..|done]. Qed.

(** The nodes of the two sides side by side. *)
Lemma node_post_two p n l' r' db rl (kr : D → res ((list node * list Z) * D)) :
  node_post (p ++ [false]) n l' db rl →
  (∀ db1, effect (p ++ [false]) db db1 → node_post (p ++ [true]) n r' db1 (kr db1)) →
  (∀ db1 db2, effect (p ++ [true]) db1 db2 → stored db1 (subs n l') → stored db2 (subs n l')) →
  node_post p (S n) (join l' r') db
    ('((ns, st), db1) ← rl; '((ns', st'), db2) ← kr db1; Ok ((ns ++ ns', st ++ st'), db2)).
Proof using.
  intros (sl & db1 & -> & Hokl & El & Hel & Hsl) Hr Hframe. cbn [mbind res_bind layout].
  destruct (Hr db1 Hel) as (sr & db2 & -> & Hokr & Er & Her & Hsr). cbn [mbind res_bind layout].
  exists (Two sl sr), db2. split_and!.
  - cbn [list_of]. replace (8 - Z.of_nat (S n) + 1) with (8 - Z.of_nat n) by lia. unfold layout.
    by rewrite !fmap_app.
  - done.
  - cbn. by rewrite El, Er.
  - eapply effect_trans; eapply effect_snoc; done.
  - rewrite subs_join. intros x [Hx|Hx]%elem_of_app; [|by apply Hsr]. by eapply Hframe.
Qed.

(** What a call of [updateSubtree] with [q] bytes of the keys left does. *)
Definition sub_spec (q : nat) : Prop := ∀ fuel p M U db,
  (10 * q ≤ fuel)%nat → (length p + 8 * q = N)%nat → wf_map L p M → wf_upd L p U → U ≠ [] →
  trees (tree_at p M) → trees (tree_at p (apply U M)) → present db (subs 8 (tree_at p M)) →
  let t' := tree_at p (apply U M) in
  ∃ db', updateSubtree fuel T U (subtree_of (tree_at p M)) (Z.of_nat (length p)) db = Ok (subtree_of t', db') ∧
    effect p db db' ∧ stored db' (t' :: subs 8 t').

(** What a call of [updateNode] with [n] levels and [q] more bytes left does. *)
Definition node_spec (q n : nat) : Prop := ∀ fuel p M bins base db,
  (10 * q + n + 1 ≤ fuel)%nat → (length p + n + 8 * q = N)%nat → (8 ≤ length p + n)%nat →
  wf_map L p M → wf_upd L p (concat bins) →
  bins_ok n (length p) bins → (n = 0%nat ∨ is_branch (tree_at p M) = false) →
  trees (tree_at p M) → trees (tree_at p (apply (concat bins) M)) → present db (subs 0 (tree_at p M)) →
  node_post p n (tree_at p (apply (concat bins) M)) db
    (updateNode fuel T bins (length_bins base bins) base (node_of (tree_at p M))
       (Z.of_nat (length p + n - 8)) (8 - Z.of_nat n) db).

Lemma tree_hash_ne t : trees t → t ≠ Empty → bytes_equal (tree_hash t) emptyHash = false.
Proof using trees_Empty trees_inj.
  intros Ht Hb. unfold bytes_equal. apply bool_decide_false. intros E. change emptyHash with (tree_hash Empty) in E.
  by apply trees_inj in E.
Qed.

Lemma getSubtree_stored t db :
  tree_ok (Z.of_nat L) t → trees t → t ≠ Empty → present db [t] →
  getSubtree T db (tree_hash t) = Ok (subtree_of t).
Proof using H0 T_hasher T_keyLength trees_Empty trees_inj.
  intros Hok Ht Hb Hs. unfold getSubtree. rewrite tree_hash_ne by done.
  rewrite len_tree_hash. cbn [Z.eqb HashLengh orb]. rewrite (proj2 (Hs t (list_elem_of_here _ _))). cbn [ok_or mbind res_bind].
  rewrite T_keyLength, T_hasher. by apply newSubTree_encode.
Qed.

(** The subtree below a node at the bottom. *)
Lemma bottom_subtree t db :
  tree_ok (Z.of_nat L) t → trees t → present db (subs 0 t) →
  ∃ db1,
    match n_kind (node_of t) with
    | nodeKindStub => s ← getSubtree T db (n_hash (node_of t)); Ok (s, db_Del (n_hash (node_of t)) db)
    | nodeKindEmpty => s ← getSubtree T db (n_hash (node_of t)); Ok (s, db)
    | nodeKindLeaf => s ← newSubtreeFromData [0] [node_of t] (t_hasher T); Ok (s, db)
    | nodeKindTemp => Err (Errorf "invalid index node kind")
    end = Ok (subtree_of t, db1) ∧ (db1 = db ∨ db1 = db_Del (tree_hash t) db) ∧ present db1 (subs 8 t).
Proof using All.
  intros Hok Ht Hs. destruct t as [|k v|l r].
  - exists db. split_and!; [|by left|by apply present_leaf]. cbn [node_of newEmptyNode n_kind n_hash]. unfold getSubtree.
    unfold bytes_equal. rewrite bool_decide_true, orb_true_r by done. done.
  - exists db. split_and!; [|by left|by apply present_leaf]. cbn [node_of newLeafNode n_kind]. rewrite T_hasher.
    by rewrite subtree_of_Leaf.
  - set (t := Branch l r) in *. exists (db_Del (tree_hash t) db). split_and!; [|by right|].
    + cbn [node_of newStubNode n_kind n_hash t]. rewrite getSubtree_stored; [done..|].
      intros x ->%list_elem_of_singleton. apply Hs. unfold t; cbn [subs]. left.
    + intros x Hx. change (subs 8 t) with (subs 7 l ++ subs 7 r) in Hx. assert (tree_hash t ≠ tree_hash x) as Hne.
      2: { rewrite db_View_Del, db_Get_Del_ne by done. unfold bytes_equal. rewrite bool_decide_false by done.
           apply Hs; unfold t; cbn [subs]; by right. }
      intros E.
      assert (trees x) as Hxt.
      { destruct (trees_Branch _ _ Ht). apply elem_of_app in Hx as [Hx|Hx]; (eapply trees_subs; [|exact Hx]; done). }
      apply trees_inj in E; [|done..]. subst x.
      apply elem_of_app in Hx as [Hx%subs_size|Hx%subs_size]; cbn [tree_size t] in Hx; lia.
Qed.

Lemma tree_at_ok p M : wf_map L p M → (length p ≤ N)%nat → tree_ok (Z.of_nat L) (tree_at p M).
Proof using. intros Hwf Hlen. apply build_tree_ok; [done|lia]. Qed.

Lemma tree_at_keys p M k : wf_map L p M → (length p ≤ N)%nat → k ∈ tree_keys (tree_at p M) → region p k.
Proof using. intros Hwf Hlen [v Hv]%(build_keys L); [by apply (Hwf k v)|done|lia]. Qed.

(** A node at the bottom, when updating subtrees works. *)
Lemma descend_spec q fuel p M kvs db :
  sub_spec q → (10 * q ≤ fuel)%nat → (length p + 8 * q = N)%nat → (8 ≤ length p)%nat →
  wf_map L p M → wf_upd L p kvs → kvs ≠ [] →
  trees (tree_at p M) → trees (tree_at p (apply kvs M)) → present db (subs 0 (tree_at p M)) →
  node_post p 0 (tree_at p (apply kvs M)) db
    (descend (updateSubtree fuel T) T [kvs] (node_of (tree_at p M)) (Z.of_nat (length p - 8)) 8 db).
Proof using All.
  intros Hsub Hf Hlen H8 HM HU Hne Ht Ht' Hs. unfold descend. cbn [len length Z.of_nat Pos.of_succ_nat Z.eqb Pos.eqb negb].
  destruct (bottom_subtree (tree_at p M) db) as (db1 & E1 & Hdb1 & Hs1); [apply tree_at_ok; [done|lia]|done..|].
  rewrite E1. cbn [mbind res_bind]. rewrite index_0. cbn [mbind res_bind].
  replace (Z.of_nat (length p - 8) + 8) with (Z.of_nat (length p)) by lia.
  destruct (Hsub fuel p M kvs db1) as (db2 & E2 & He2 & Hs2); [done..|]. rewrite E2. cbn [mbind res_bind].
  set (t' := tree_at p (apply kvs M)) in *.
  assert (effect p db db2) as He.
  { eapply effect_trans; [|exact He2]. destruct Hdb1 as [-> | ->]; [apply effect_refl|].
    apply effect_Del; [done|]. intros k. apply tree_at_keys; [done|lia]. }
  assert (stored db2 (subs 0 t')) as Hst.
  { intros x Hx. apply Hs2. destruct t' as [| |l r]; [by apply not_elem_of_nil in Hx..|].
    cbn [subs] in *. done. }
  rewrite len_nodes_subtree. exists (One t'), db2. split_and!; [|by left|done..].
  destruct t' as [| |l r]; done.
Qed.

Lemma trees_join l r : trees (join l r) → trees l ∧ trees r.
Proof using trees_Empty trees_Branch. destruct l, r; cbn [join]; eauto. Qed.

Lemma tree_at_join p M :
  wf_map L p M → (length p < N)%nat →
  tree_at p M = join (tree_at (p ++ [false]) (side (length p) false M)) (tree_at (p ++ [true]) (side (length p) true M)).
Proof using.
  intros Hwf Hlen. assert (∀ b, length (p ++ [b]) = S (length p)) as Hp by (intros; rewrite length_app; cbn; lia).
  rewrite !Hp. replace (N - length p)%nat with (S (N - S (length p))) by lia.
  apply (build_join L); [done|lia].
Qed.

(** The tree after the updates of the two halves. *)
Lemma tree_at_apply p l r M :
  wf_map L p M → wf_upd L p (l ++ r) → (length p < N)%nat →
  (∀ e, e ∈ l → key_bit e.1 (length p) = false) → (∀ e, e ∈ r → key_bit e.1 (length p) = true) →
  tree_at p (apply (l ++ r) M)
  = join (tree_at (p ++ [false]) (apply l (side (length p) false M)))
         (tree_at (p ++ [true]) (apply r (side (length p) true M))).
Proof using.
  intros HM HU Hlen Hl Hr. rewrite tree_at_join by (done || by apply wf_apply). f_equal.
  - by rewrite side_apply by (try done; apply HU).
  - rewrite (apply_perm _ (r ++ l)) by (apply HU || apply Permutation_app_comm).
    rewrite side_apply; [done..|]. rewrite (Permutation_app_comm r l). apply HU.
Qed.

(** The two nodes a node that is not a stub splits into. *)
Lemma split_children p M :
  wf_map L p M → (length p < N)%nat → is_branch (tree_at p M) = false →
  match n_kind (node_of (tree_at p M)) with
  | nodeKindEmpty => Ok (newEmptyNode, newEmptyNode)
  | nodeKindLeaf =>
      set ← Bytes.IsBitSet (n_key (node_of (tree_at p M))) (Z.of_nat (length p));
      if (set : bool) then Ok (newEmptyNode, node_of (tree_at p M)) else Ok (node_of (tree_at p M), newEmptyNode)
  | _ => Err (Errorf "invalid node kind")
  end = Ok (node_of (tree_at (p ++ [false]) (side (length p) false M)),
            node_of (tree_at (p ++ [true]) (side (length p) true M))).
Proof using.
  intros Hwf Hlen Hb. pose proof (build_inv L (N - length p) p M Hwf ltac:(lia)) as Hinv.
  destruct (tree_at p M) as [|k v|]; [| |done]; subst M.
  - unfold side. by rewrite !map_filter_empty, !build_empty.
  - cbn [node_of newLeafNode n_kind n_key]. destruct (Hwf k v) as [[Hk _ _] _]; [by rewrite lookup_singleton_eq|].
    rewrite IsBitSet_key_bit by lia. cbn [mbind res_bind]. unfold side. destruct (key_bit k (length p)) eqn:Eb.
    + rewrite map_filter_singleton_False by (cbn; congruence). rewrite map_filter_singleton_True by done.
      by rewrite build_empty, build_single.
    + rewrite map_filter_singleton_True by done. rewrite map_filter_singleton_False by (cbn; congruence).
      by rewrite build_empty, build_single.
Qed.


(** A node above the bottom, when updating the nodes below works. *)
Lemma split_spec q n fuel p M bins base db :
  node_spec q n → (10 * q + n + 1 ≤ fuel)%nat → (length p + S n + 8 * q = N)%nat → (S n ≤ 8)%nat →
  wf_map L p M → wf_upd L p (concat bins) → bins_ok (S n) (length p) bins → is_branch (tree_at p M) = false →
  trees (tree_at p M) → trees (tree_at p (apply (concat bins) M)) →
  node_post p (S n) (tree_at p (apply (concat bins) M)) db
    (split_node (updateNode fuel T) bins (length_bins base bins) base (node_of (tree_at p M))
       (Z.of_nat (length p + S n - 8)) (8 - Z.of_nat (S n)) db).
Proof using All.
  intros Hnode Hf Hlen Hn HM HU (l & r & -> & Hl & Hr & Hkl & Hkr) Hb Ht Ht'. rewrite concat_app in *.
  destruct (wf_upd_app _ _ _ _ HU) as [HUl HUr]. unfold split_node.
  replace (Z.of_nat (length p + S n - 8) + (8 - Z.of_nat (S n))) with (Z.of_nat (length p)) by lia.
  rewrite split_children by (done || lia). cbn [mbind res_bind].
  rewrite (split_bins n) by (by eapply length_bins_ok).
  replace (u8 (8 - Z.of_nat (S n) + 1)) with (8 - Z.of_nat n) by (unfold u8; rewrite Z.mod_small; lia).
  rewrite (tree_at_join p M) in Hb, Ht by (done || lia). apply join_nonbranch in Hb as [Hbl Hbr].
  rewrite tree_at_apply in Ht' |- * by (done || lia).
  apply trees_join in Ht as [Htl Htr], Ht' as [Htl' Htr'].
  assert (∀ b, length (p ++ [b]) = S (length p)) as Hp by (intros; rewrite length_app; cbn; lia).
  assert (∀ b, wf_map L (p ++ [b]) (side (length p) b M)) as Hws by (intros b; apply wf_side; [lia|done]).
  assert (wf_upd L (p ++ [false]) (concat l)) as HUl' by (apply wf_upd_snoc; [lia|done..]).
  assert (wf_upd L (p ++ [true]) (concat r)) as HUr' by (apply wf_upd_snoc; [lia|done..]).
  apply (node_post_two p n).
  - pose proof (Hnode fuel (p ++ [false]) (side (length p) false M) l base db) as Hp1. rewrite Hp in *.
    replace (S (length p) + n - 8)%nat with (length p + S n - 8)%nat in Hp1 by lia.
    apply Hp1; try done; [lia|lia|by right|by apply present_leaf].
  - intros db1 Hdb1.
    pose proof (Hnode fuel (p ++ [true]) (side (length p) true M) r (base + len (concat l)) db1) as Hp1. rewrite Hp in *.
    replace (S (length p) + n - 8)%nat with (length p + S n - 8)%nat in Hp1 by lia.
    apply Hp1; try done; [lia|lia|by right|by apply present_leaf].
  - intros db1 db2 He. eapply stored_effect; [exact He|by apply wf_apply|done|lia].
Qed.

(** The step of [updateNode] that is left when no simple case applies. *)
Lemma split_or_descend_spec q n fuel p M bins base db :
  (q = 0%nat ∨ sub_spec q) → (∀ m, S m = n → node_spec q m) →
  (10 * q + n ≤ fuel)%nat → (length p + n + 8 * q = N)%nat → (8 ≤ length p + n)%nat → (n ≤ 8)%nat →
  wf_map L p M → wf_upd L p (concat bins) → bins_ok n (length p) bins → (n = 0%nat ∨ is_branch (tree_at p M) = false) →
  trees (tree_at p M) → trees (tree_at p (apply (concat bins) M)) → present db (subs 0 (tree_at p M)) →
  concat bins ≠ [] → (length p < N)%nat →
  node_post p n (tree_at p (apply (concat bins) M)) db
    (if 8 - Z.of_nat n =? t_subtreeHeight T
     then descend (updateSubtree fuel T) T bins (node_of (tree_at p M)) (Z.of_nat (length p + n - 8)) (8 - Z.of_nat n) db
     else split_node (updateNode fuel T) bins (length_bins base bins) base (node_of (tree_at p M))
            (Z.of_nat (length p + n - 8)) (8 - Z.of_nat n) db).
Proof using All.
  intros Hsub Hnode Hf Hlen H8 Hn HM HU Hbins Hb Ht Ht' Hs Hne Hp. rewrite T_height. destruct n as [|n].
  - cbn [Z.of_nat Z.sub Z.add Z.opp Z.eqb]. rewrite Z.sub_0_r. cbn [Z.eqb Pos.eqb]. rewrite Nat.add_0_r in *.
    destruct bins as [|kvs [|? ?]]; [done| |done]. cbn [concat] in *. rewrite app_nil_r in *.
    destruct Hsub as [->|Hsub]; [lia|]. by apply (descend_spec q).
  - destruct (Z.eqb_spec (8 - Z.of_nat (S n)) 8); [lia|]. destruct Hb as [?|Hb]; [done|].
    apply (split_spec q); try done; [by apply Hnode|lia].
Qed.

(** Two keys below a path leave a bit to split on. *)
Lemma region_two p k1 k2 : region p k1 → region p k2 → k1 ≠ k2 → (length p < N)%nat.
Proof using.
  intros H1' H2' Hne. pose proof (region_length L p k1 H1'). destruct (decide (length p = N)) as [E|]; [|lia].
  by destruct Hne; eapply region_full.
Qed.

(** The one update of a node that needs no split. *)
Lemma single_post p n k v M db :
  (n = 0%nat ∨ is_branch (tree_at p (apply [(k, v)] M)) = false) →
  (M = ∅ ∨ ∃ v0, M = {[k := v0]}) →
  node_post p n (tree_at p (apply [(k, v)] M)) db
    (if negb (len v =? 0) then Ok (([newLeafNode k v], [8 - Z.of_nat n]), db)
     else Ok (([newEmptyNode], [8 - Z.of_nat n]), db)).
Proof using.
  intros Hb HM. assert (apply [(k, v)] M = match v with [] => ∅ | _ => {[k := v]} end) as E.
  { rewrite apply_single. destruct HM as [->|[v0 ->]]; destruct v; [by rewrite delete_empty|done| |].
    - apply delete_singleton_eq.
    - by rewrite insert_singleton_eq. }
  rewrite E in *. destruct v as [|x v].
  - rewrite build_empty in *. cbn. apply node_post_one; [by right|by apply stored_leaf].
  - rewrite build_single in *. destruct (Z.eqb_spec (len (x :: v)) 0); [unfold len in *; cbn in *; lia|].
    apply (node_post_one p n (Leaf k (x :: v))); [by right|by apply stored_leaf].
Qed.

Lemma node_step q n :
  (q = 0%nat ∨ sub_spec q) → (n ≤ 8)%nat → (∀ m, S m = n → node_spec q m) → node_spec q n.
Proof using All.
  intros Hsub Hn IH fuel p M bins base db Hf Hlen H8 HM HU Hbins Hb Ht Ht' Hs.
  destruct fuel as [|fuel]; [lia|]. cbn [updateNode].
  assert (bins ≠ []) as Hbne.
  { intros ->. apply length_bins_ok in Hbins. cbn [length] in Hbins. pose proof (Nat.pow_nonzero 2 n). lia. }
  rewrite length_bins_last by done. cbn [mbind res_bind].
  replace (base + len (concat bins) - base) with (len (concat bins)) by lia.
  assert (concat bins ≠ [] → (length p < N)%nat → node_post p n (tree_at p (apply (concat bins) M)) db
    (if 8 - Z.of_nat n =? t_subtreeHeight T
     then descend (updateSubtree fuel T) T bins (node_of (tree_at p M)) (Z.of_nat (length p + n - 8)) (8 - Z.of_nat n) db
     else split_node (updateNode fuel T) bins (length_bins base bins) base (node_of (tree_at p M))
            (Z.of_nat (length p + n - 8)) (8 - Z.of_nat n) db)) as Hsplit.
  { intros. apply (split_or_descend_spec q); try done; lia. }
  pose proof HU as [Hnd HUr]. destruct (concat bins) as [|[k v] [|[k2 v2] U]] eqn:EU.
  - cbn [len length Z.of_nat Z.eqb]. rewrite apply_nil. apply node_post_one; [done|]. destruct Hb as [->|Hb]; [by apply present_stored|by apply stored_leaf].
  - cbn [len length Z.of_nat Pos.of_succ_nat Z.eqb Pos.eqb]. destruct (HUr k v) as [Hrk _]; [left|].
    destruct (find_single base bins (k, v) 0 EU) as (j & Ej & Hj). unfold Slices.FindIndex. rewrite Ej.
    destruct (Z.eqb_spec (0 + Z.of_nat j) (-1)); [lia|].
    assert (index bins (0 + Z.of_nat j) = Ok [(k, v)]) as ->.
    { unfold index. rewrite idx_nonneg by lia. replace (Z.to_nat (0 + Z.of_nat j)) with j by lia. by rewrite Hj. }
    cbn [mbind res_bind].
    pose proof (build_inv L (N - length p) p M HM ltac:(apply region_length in Hrk; lia)) as Hinv.
    destruct (tree_at p M) as [|k0 v0|l r]; cbn [node_of newEmptyNode newLeafNode newStubNode n_kind n_key].
    + subst M. rewrite index_0. cbn [mbind res_bind]. apply single_post; [|by left].
      right. rewrite apply_single. destruct v; by rewrite ?delete_empty, ?insert_empty, ?build_empty, ?build_single.
    + subst M. rewrite index_0. cbn [mbind res_bind]. unfold bytes_equal. case_bool_decide as Ek.
      * subst k0. apply single_post; [|right; eauto].
        right. rewrite apply_single. destruct v; by rewrite ?delete_singleton_eq, ?insert_singleton_eq, ?build_empty, ?build_single.
      * apply Hsplit; [done|]. apply (region_two p k0 k); [|done..]. apply (HM k0 v0). by rewrite lookup_singleton_eq.
    + destruct Hinv as (k1 & k2 & v1 & v2 & Hne & H1' & H2' & _). apply Hsplit; [done|].
      apply (region_two p k1 k2); [by eapply HM..|done].
  - assert (2 ≤ len ((k, v) :: (k2, v2) :: U)) by (rewrite !len_cons; pose proof (len_nonneg U); lia).
    destruct (Z.eqb_spec (len ((k, v) :: (k2, v2) :: U)) 0); [lia|]. destruct (Z.eqb_spec (len ((k, v) :: (k2, v2) :: U)) 1); [lia|].
    apply Hsplit; [done|]. apply (region_two p k k2).
    + apply (HUr k v). left.
    + apply (HUr k2 v2). right; left.
    + cbn in Hnd. apply NoDup_cons in Hnd as [Hnin _]. intros ->. apply Hnin. left.
Qed.

Lemma node_spec_all q n : (q = 0%nat ∨ sub_spec q) → (n ≤ 8)%nat → node_spec q n.
Proof using All.
  intros Hsub. induction n as [|n IH]; intros Hn; apply node_step; try done.
  intros m [= ->]. apply IH. lia.
Qed.

(** ** Subtrees *)

Lemma bins_below_T n : (n ≤ 8)%nat → bins_below T (8 - Z.of_nat n) = 2 ^ Z.of_nat n.
Proof using T_height.
  intros Hn. clear -T_height Hn. unfold bins_below. rewrite T_height. replace (8 - (8 - Z.of_nat n)) with (Z.of_nat n) by lia.
  unfold u8. rewrite Z.mod_small by lia. apply i64_small.
  assert (0 < 2 ^ Z.of_nat n ≤ 2 ^ 8) by (split; [apply Z.pow_pos_nonneg; lia|apply Z.pow_le_mono_r; lia]).
  unfold i64_ok. lia.
Qed.

(** The update of the nodes of a segment and the offset after it. *)
Definition segment_post (p : list bool) (n : nat) (t' : tree) (off : Z) (db : D)
    (r : res (list node * list Z * Z * D)) : Prop :=
  ∃ s db', r = Ok (layout (list_of (8 - Z.of_nat n) s), off, db') ∧ shape_ok n s ∧ norm s = t' ∧
    effect p db db' ∧ stored db' (subs n t').

Lemma segment_one p n t' f pre seg post x db :
  (n ≤ 8)%nat → length seg = (2 ^ n)%nat →
  node_post p n t' db (f seg (length_bins 0 seg) x (8 - Z.of_nat n) db) →
  segment_post p n t' (len pre + len seg) db
    (update_nodes f T (pre ++ seg ++ post) [x] [8 - Z.of_nat n] (len pre) db).
Proof using T_height.
  intros Hn Hlen (s & db' & E & Hok & Hnorm & He & Hs). cbn [update_nodes]. rewrite bins_below_T by done.
  assert (len seg = 2 ^ Z.of_nat n) as Hl by (unfold len; rewrite Hlen; apply Nat2Z.inj_pow).
  rewrite (slice_mid pre seg post (len pre)) by (rewrite ?Hl; done). cbn [mbind res_bind]. rewrite E.
  cbn [mbind res_bind layout]. rewrite !app_nil_r, <-Hl. exists s, db'. done.
Qed.

Lemma segment_two p n l' r' f pre segl segr post nl nr db :
  segment_post (p ++ [false]) n l' (len pre + len segl) db
    (update_nodes f T (pre ++ segl ++ segr ++ post) (node_of <$> nl.*1) nl.*2 (len pre) db) →
  (∀ db1, effect (p ++ [false]) db db1 → segment_post (p ++ [true]) n r' (len (pre ++ segl) + len segr) db1
    (update_nodes f T ((pre ++ segl) ++ segr ++ post) (node_of <$> nr.*1) nr.*2 (len (pre ++ segl)) db1)) →
  (∀ db1 db2, effect (p ++ [true]) db1 db2 → stored db1 (subs n l') → stored db2 (subs n l')) →
  segment_post p (S n) (join l' r') (len pre + len (segl ++ segr)) db
    (update_nodes f T (pre ++ (segl ++ segr) ++ post) (node_of <$> (nl ++ nr).*1) (nl ++ nr).*2 (len pre) db).
Proof using.
  intros (sl & db1 & El & Hokl & Hnl & Hel & Hsl) Hr Hframe.
  destruct (Hr db1 Hel) as (sr & db2 & Er & Hokr & Hnr & Her & Hsr).
  rewrite !fmap_app, <-app_assoc, update_nodes_app by (by rewrite !length_fmap).
  rewrite El. cbn [mbind res_bind layout]. rewrite <-(len_app pre segl). rewrite <-app_assoc in Er. rewrite Er.
  cbn [mbind res_bind layout]. exists (Two sl sr), db2. split_and!.
  - cbn [list_of]. replace (8 - Z.of_nat (S n) + 1) with (8 - Z.of_nat n) by lia. unfold layout.
    rewrite !fmap_app. do 3 f_equal. rewrite !len_app. lia.
  - done.
  - cbn. by rewrite Hnl, Hnr.
  - eapply effect_trans; eapply effect_snoc; done.
  - rewrite subs_join. intros x [Hx|Hx]%elem_of_app; [|by apply Hsr]. by eapply Hframe.
Qed.

Lemma update_nodes_spec q fuel n p M pre seg post db :
  (∀ m, (m ≤ 8)%nat → node_spec q m) → (10 * q + 9 ≤ fuel)%nat → (n ≤ 8)%nat →
  (length p + n + 8 * q = N)%nat → (8 ≤ length p + n)%nat → wf_map L p M → wf_upd L p (concat seg) →
  bins_ok n (length p) seg → trees (tree_at p M) → trees (tree_at p (apply (concat seg) M)) →
  present db (subs n (tree_at p M)) →
  let nodes := list_of (8 - Z.of_nat n) (expand n (tree_at p M)) in
  segment_post p n (tree_at p (apply (concat seg) M)) (len pre + len seg) db
    (update_nodes (λ target lengthBins currentNode h db,
                     updateNode fuel T target lengthBins 0 currentNode (Z.of_nat (length p + n - 8)) h db)
       T (pre ++ seg ++ post) (node_of <$> nodes.*1) nodes.*2 (len pre) db).
Proof using All.
  intros Hnode Hf. revert p M pre seg post db.
  induction n as [|n IH]; intros p M pre seg post db Hn Hlen H8 HM HU Hbins Ht Ht' Hs; cbv zeta.
  - assert (expand 0 (tree_at p M) = One (tree_at p M)) as -> by (by destruct (tree_at p M)).
    apply segment_one; [done|by eapply length_bins_ok|]. apply (Hnode 0%nat); try done; [lia|by left].
  - destruct (is_branch (tree_at p M)) eqn:Eb.
    2: { assert (expand (S n) (tree_at p M) = One (tree_at p M)) as -> by (by destruct (tree_at p M)).
         apply segment_one; [done|by eapply length_bins_ok|].
         apply (Hnode (S n)); try done; [lia|by right|by apply present_leaf]. }
    destruct (tree_at p M) as [| |tl tr] eqn:Et; [done..|]. cbn [expand list_of].
    replace (8 - Z.of_nat (S n) + 1) with (8 - Z.of_nat n) by lia.
    assert (length p < N)%nat as Hp by lia. rewrite (tree_at_join p M) in Et by done. apply join_branch in Et as [El Er].
    destruct Hbins as (segl & segr & -> & Hbl & Hbr & Hkl & Hkr). rewrite concat_app in *.
    destruct (wf_upd_app _ _ _ _ HU) as [HUl HUr].
    rewrite tree_at_apply in Ht' |- * by done. apply trees_join in Ht' as [Htl' Htr']. destruct (trees_Branch _ _ Ht) as [Htl Htr].
    assert (∀ b, length (p ++ [b]) = S (length p)) as Hpb by (intros; rewrite length_app; cbn; lia).
    assert (∀ b, wf_map L (p ++ [b]) (side (length p) b M)) as Hws by (intros b; apply wf_side; [lia|done]).
    assert (wf_upd L (p ++ [false]) (concat segl)) as HUl' by (by apply wf_upd_snoc).
    assert (wf_upd L (p ++ [true]) (concat segr)) as HUr' by (by apply wf_upd_snoc).
    cbn [subs] in Hs. assert (present db (subs n tl) ∧ present db (subs n tr)) as [Hsl Hsr].
    { split; intros x Hx; apply Hs, elem_of_app; auto. }
    apply (segment_two p n).
    + pose proof (IH (p ++ [false]) (side (length p) false M) pre segl (segr ++ post) db) as Hl.
      rewrite Hpb, El in *. replace (S (length p) + n - 8)%nat with (length p + S n - 8)%nat in Hl by lia.
      apply Hl; try done; lia.
    + intros db1 Hdb1. pose proof (IH (p ++ [true]) (side (length p) true M) (pre ++ segl) segr post db1) as Hr.
      rewrite Hpb, Er in *. replace (S (length p) + n - 8)%nat with (length p + S n - 8)%nat in Hr by lia.
      apply Hr; try done; [lia|lia|lia|].
      pose proof (present_effect p true db db1 n (side (length p) true M) Hdb1 (Hws true)) as Hst.
      rewrite Hpb, Er in Hst. by apply Hst.
    + intros db1 db2 He. eapply stored_effect; [exact He|by apply wf_apply|done|lia].
Qed.

Lemma wf_upd_perm p U V : U ≡ₚ V → wf_upd L p V → wf_upd L p U.
Proof using. intros Hp [Hnd HV]. split; [by rewrite Hp|]. intros k v Hk. apply HV. by rewrite <-Hp. Qed.

Lemma bins_of_updates p B U :
  length p = (8 * B)%nat → (B < L)%nat → wf_upd L p U →
  ∃ bins, fill_bins T (Z.of_nat (length p)) (Z.of_nat (length p) ÷ 8) U (replicate (Z.to_nat (t_maxNumberOfNodes T)) []) = Ok bins ∧
    len bins = 256 ∧ bins_ok 8 (length p) bins ∧ concat bins ≡ₚ U.
Proof using H T_height T_max.
  intros Hp HB [Hnd HU]. rewrite T_max. change (Z.to_nat 256) with 256%nat.
  replace (Z.of_nat (length p) ÷ 8) with (Z.of_nat B).
  2: { rewrite Hp, Nat2Z.inj_mul, Z.mul_comm. symmetry. by apply Z.quot_mul. }
  destruct (fill_bins_spec T (Z.of_nat (length p)) B U (replicate 256 [])) as (bins & E & Hl & Hby & Hperm).
  - done.
  - done.
  - intros j bin e [-> _]%lookup_replicate He. by apply not_elem_of_nil in He.
  - intros k v Hk. destruct (HU k v Hk) as [[Hkl Hkb _] _]. split; [done|lia].
  - exists bins. split_and!; [done|unfold len; lia| |by rewrite concat_replicate_nil in Hperm].
    pose proof (bins_by_ok 8 B 0 bins ltac:(lia) Hl ltac:(by exists 0) Hby) as Hok.
    by replace (8 * B + (8 - 8))%nat with (length p) in Hok by lia.
Qed.

Lemma sub_step q : (∀ m, (m ≤ 8)%nat → node_spec q m) → sub_spec (S q).
Proof using All.
  intros Hnode fuel p M U db Hf Hlen HM HU Hne Ht Ht' Hs t'. destruct fuel as [|fuel]; [lia|]. rewrite updateSubtree_S.
  destruct (Z.eqb_spec (len U) 0) as [E0|_]; [by destruct U|].
  destruct (bins_of_updates p (L - S q) U) as (bins & -> & Hlb & Hbins & Hperm); [lia|lia|done|]. cbn [mbind res_bind].
  assert (wf_upd L p (concat bins)) as HUb by (by eapply wf_upd_perm).
  assert (apply (concat bins) M = apply U M) as Ea by (apply apply_perm; [apply HUb|done]).
  pose proof (update_nodes_spec q fuel 8 p M [] bins [] db Hnode) as Hseg. cbv zeta in Hseg.
  replace (length p + 8 - 8)%nat with (length p) in Hseg by lia. rewrite Ea in Hseg. cbn [app] in Hseg. rewrite app_nil_r in Hseg.
  destruct Hseg as (s & db1 & E & Hok & Hnorm & He & Hst); [lia|lia|lia|lia|done..|].
  cbn [subtree_of st_nodes st_structure]. change (8 - Z.of_nat 8) with 0 in E. change (len []) with 0 in E.
  rewrite E. cbn [mbind res_bind layout]. rewrite Hlb, T_max. cbn [Z.add Z.eqb Pos.eqb negb].
  change (8 - Z.of_nat 8) with 0. rewrite Max_list_of. cbn [mbind res_bind]. rewrite T_hasher, Z.add_0_l.
  rewrite calculateSubTree_shape by done. cbn [mbind res_bind]. rewrite Hnorm. fold t'. eexists. split; [done|].
  cbn [subtree_of st_root]. change (mkSubTree _ _ _) with (subtree_of t').
  split.
  - eapply effect_trans; [exact He|]. apply effect_Set; [done|]. intros k. apply tree_at_keys; [by apply wf_apply|lia].
  - intros x Hx. rewrite db_View_Set. unfold bytes_equal. case_bool_decide as Eh.
    + apply elem_of_cons in Hx as [->|Hx]; [done|].
      assert (x = t') as ->; [|done]. apply trees_inj; [|done|done]. by eapply (trees_subs 8 t').
    + apply elem_of_cons in Hx as [->|Hx]; [done|]. by apply Hst.
Qed.

Lemma sub_spec_all q : (1 ≤ q)%nat → sub_spec q.
Proof using All.
  induction q as [|q IH]; [lia|]. intros _. apply sub_step. intros m Hm. apply node_spec_all; [|done].
  destruct q as [|q]; [by left|right; apply IH; lia].
Qed.
End update.

(** ** The refinement *)

Lemma lookup_unique_first kvs seen k :
  (k ∉ seen) → list_to_map (M := gmap bytes bytes) (unique_first kvs seen) !! k = list_to_map (M := gmap bytes bytes) kvs !! k.
Proof.
  revert seen. induction kvs as [|[k' v] kvs IH]; intros seen Hk; [done|]. cbn [unique_first].
  case_bool_decide as Hs; cbn [list_to_map foldr fst snd uncurry].
  - rewrite IH by done. rewrite lookup_insert_ne; [done|]. by intros ->.
  - destruct (decide (k' = k)) as [<-|Hne]; [by rewrite !lookup_insert_eq|].
    rewrite !lookup_insert_ne by done. apply IH. set_solver.
Qed.

Lemma apply_unique_first kvs M : apply (unique_first kvs []) M = apply kvs M.
Proof.
  apply map_eq. intros k. rewrite !lookup_apply, lookup_unique_first; [done|]. apply not_elem_of_nil.
Qed.

Lemma unique_first_NoDup kvs seen :
  NoDup (unique_first kvs seen).*1 ∧ ∀ e, e ∈ unique_first kvs seen → e ∈ kvs ∧ (e.1 ∉ seen).
Proof.
  revert seen. induction kvs as [|[k v] kvs IH]; intros seen; cbn [unique_first]; [split; [constructor|by intros e ?%not_elem_of_nil]|].
  case_bool_decide as Hs.
  - destruct (IH seen) as [Hnd Hin]. split; [done|]. intros e He%Hin. set_solver.
  - destruct (IH (k :: seen)) as [Hnd Hin]. split.
    + cbn. constructor; [|done]. intros (e & E & He%Hin)%list_elem_of_fmap. set_solver.
    + intros e [->|He%Hin]%elem_of_cons; set_solver.
Qed.
Section refinement.
Context `{HashLaws}.

(** What is hashed for a tree, and for all its subtrees. *)
Definition preimage (t : tree) : bytes :=
  match t with
  | Empty => []
  | Leaf k v => Bytes.Join [prefixLeafHash; k; v]
  | Branch l r => Bytes.Join [prefixBranchHash; tree_hash l; tree_hash r]
  end.

Fixpoint subtrees (t : tree) : list tree :=
  t :: match t with Branch l r => subtrees l ++ subtrees r | _ => [] end.

Lemma tree_hash_preimage t : tree_hash t = Hash (preimage t).
Proof using. by destruct t. Qed.

Lemma subtrees_self t : t ∈ subtrees t.
Proof using. destruct t; left. Qed.

Lemma subtrees_Branch t l r : Branch l r ∈ subtrees t → l ∈ subtrees t ∧ r ∈ subtrees t.
Proof using.
  induction t as [| |tl IHl tr IHr]; cbn [subtrees]; [by intros ?%list_elem_of_singleton..|].
  rewrite !elem_of_cons, !elem_of_app. intros [[= -> ->]|[Hx%IHl|Hx%IHr]]; [|naive_solver..].
  pose proof (subtrees_self tl). pose proof (subtrees_self tr). naive_solver.
Qed.

Lemma subtrees_ok L t x : tree_ok L t → x ∈ subtrees t → tree_ok L x.
Proof using.
  induction t as [| |tl IHl tr IHr]; cbn [subtrees]; intros Hok; [by intros ->%list_elem_of_singleton..|].
  rewrite elem_of_cons, elem_of_app. destruct Hok. naive_solver.
Qed.

(** Without a collision among what is hashed, trees with one hash are equal. *)
Lemma tree_hash_inj L (ts : list tree) x y :
  collision_free (preimage <$> ts) → (∀ l r, Branch l r ∈ ts → l ∈ ts ∧ r ∈ ts) → (∀ t, t ∈ ts → tree_ok L t) →
  x ∈ ts → y ∈ ts → tree_hash x = tree_hash y → x = y.
Proof using H0.
  intros Hfree Hcl Hok. revert y. induction x as [|k v|l IHl r IHr]; intros y Hx Hy E.
  all: rewrite !tree_hash_preimage in E.
  all: match type of E with Hash ?a = Hash ?b => destruct (decide (a = b)) as [Ep|Hne] end;
    [|exfalso; eapply Hfree; [apply list_elem_of_fmap_2, Hx|apply list_elem_of_fmap_2, Hy|by split]].
  all: destruct y as [|k' v'|l' r']; try done; cbn [preimage Bytes.Join concat] in Ep.
  - injection Ep as Ep. rewrite !app_nil_r in Ep. destruct (Hok _ Hx) as [Hk _], (Hok _ Hy) as [Hk' _].
    apply app_inj_1 in Ep as [-> ->]; [done|]. unfold len in *. lia.
  - injection Ep as Ep. rewrite !app_nil_r in Ep. apply app_inj_1 in Ep as [El Er].
    + destruct (Hcl _ _ Hx), (Hcl _ _ Hy). f_equal; [by apply IHl|by apply IHr].
    + pose proof (len_tree_hash l) as E1. pose proof (len_tree_hash l') as E2. unfold len in *. lia.
Qed.

Context {D : Type} `{DBReadWriter D, !DBView D} (L : nat).

(** The tree of a map. *)
Definition smt (M : gmap bytes bytes) : tree := build (8 * L) 0 M.

Record holds (P : D → list tree → Prop) (t : trie) (db : D) (M : gmap bytes bytes) : Prop := {
  rep_keyLength : t_keyLength t = Z.of_nat L;
  rep_height : t_subtreeHeight t = 8;
  rep_max : t_maxNumberOfNodes t = 256;
  rep_hasher : t_hasher t = treeHasher;
  rep_map : wf_map L [] M;
  rep_root : t_root t = tree_hash (smt M);
  rep_stored : smt M = Empty ∨ P db [smt M];
  rep_subs : P db (subs 8 (smt M));
}.

(** The database holds the tree of [M]; it does once its writes are made. *)
Definition represents : trie → D → gmap bytes bytes → Prop := holds present.
Definition written : trie → D → gmap bytes bytes → Prop := holds stored.

(** The trees hashed before and after an update. *)
Definition hashed_trees (M M' : gmap bytes bytes) : list tree := Empty :: subtrees (smt M) ++ subtrees (smt M').

Lemma represents_new db : represents (NewTrie [] (Z.of_nat L)) db ∅.
Proof using.
  assert (smt ∅ = Empty) as E by apply build_empty.
  split; rewrite ?E; try done; [by left|by intros x ?%not_elem_of_nil].
Qed.


Lemma hashed_trees_inj M M' x y :
  wf_map L [] M → wf_map L [] M' → collision_free (preimage <$> hashed_trees M M') →
  x ∈ hashed_trees M M' → y ∈ hashed_trees M M' → tree_hash x = tree_hash y → x = y.
Proof using H0.
  intros HM HM' Hfree. eapply tree_hash_inj; [done|..].
  - intros l r. unfold hashed_trees. rewrite !elem_of_cons, !elem_of_app.
    intros [?|[Hx|Hx]]; [done|apply subtrees_Branch in Hx as [? ?]; auto..].
  - intros t Ht. unfold hashed_trees in Ht. rewrite elem_of_cons, elem_of_app in Ht.
    destruct Ht as [->|[Ht|Ht]]; [done|eapply subtrees_ok; [|exact Ht]..].
    + apply (build_tree_ok L (8 * L) [] M); [done|cbn; lia].
    + apply (build_tree_ok L (8 * L) [] M'); [done|cbn; lia].
Qed.

(** Trees of different maps have different roots. *)
Lemma smt_root_inj M M' : wf_map L [] M → wf_map L [] M' → collision_free (preimage <$> hashed_trees M M') →
  tree_hash (smt M) = tree_hash (smt M') → M = M'.
Proof using H0.
  intros HM HM' Hfree E. apply (build_inj L (8 * L) [] M M'); [done..|].
  apply (hashed_trees_inj M M'); [done..| | |done]; unfold hashed_trees; rewrite elem_of_cons, elem_of_app; right; [left|right]; apply subtrees_self.
Qed.

(** [Update] writes the tree of the updated map, if reads see the tree it
    started from; they need not see what it writes. *)
Lemma Update_written t db M keys values :
  (0 < L)%nat → represents t db M → length keys = length values →
  (∀ k, k ∈ keys → length k = L ∧ bytes_ok k) → (∀ v, v ∈ values → v = [] ∨ len v = HashLengh) →
  let M' := apply (zip keys values) M in
  collision_free (preimage <$> hashed_trees M M') →
  ∃ t' db', Update t db keys values = Ok (tree_hash (smt M'), t', db') ∧ written t' db' M'.
Proof using All.
  intros HL [R1 R2 R3 R4 HM Hroot Hst Hsubs] Hlen Hk Hv M' Hfree. unfold Update.
  rewrite (proj2 (Z.eqb_eq (len keys) (len values))) by (unfold len; lia). cbn [negb].
  destruct (Z.eqb_spec (len keys) 0) as [E0|Hne].
  { destruct keys; [|done]. unfold M'. cbn [zip zip_with]. rewrite apply_nil. exists t, db. split; [by rewrite Hroot|].
    split; try done; [destruct Hst as [?|?]; [by left|right]|]; by apply present_stored. }
  set (U := unique_first (zip keys values) []).
  assert (M' = apply U M) as EM by (unfold U; by rewrite apply_unique_first).
  assert (wf_upd L [] U) as HU.
  { destruct (unique_first_NoDup (zip keys values) []) as [Hnd Hin]. split; [done|]. intros k v [He _]%Hin.
    pose proof (elem_of_zip_l _ _ _ _ He) as Hkin. pose proof (elem_of_zip_r _ _ _ _ He) as Hvin.
    destruct (Hk k Hkin). split; [by split|by apply Hv]. }
  assert (U ≠ []) as HUne.
  { unfold U. destruct keys as [|k keys]; [done|]. destruct values as [|v values]; [done|].
    cbn [zip zip_with unique_first]. rewrite bool_decide_false by apply not_elem_of_nil. done. }
  assert (wf_map L [] M') as HM' by (rewrite EM; by apply wf_apply).
  set (trees := λ x, x ∈ hashed_trees M M').
  assert (trees Empty) as HE by (unfold trees, hashed_trees; left).
  assert (∀ l r, trees (Branch l r) → trees l ∧ trees r) as HB.
  { intros l r. unfold trees, hashed_trees. rewrite !elem_of_cons, !elem_of_app.
    intros [?|[Hx|Hx]]; [done|apply subtrees_Branch in Hx as [? ?]; auto..]. }
  assert (∀ x y, trees x → trees y → tree_hash x = tree_hash y → x = y) as Hinj
    by (intros x y; by apply (hashed_trees_inj M M')).
  assert (trees (smt M) ∧ trees (smt M')) as [Ht Ht'].
  { unfold trees, hashed_trees. rewrite !elem_of_cons, !elem_of_app. pose proof (subtrees_self (smt M)).
    pose proof (subtrees_self (smt M')). auto. }
  assert (getSubtree t db (t_root t) = Ok (subtree_of (smt M))) as ->.
  { rewrite Hroot. destruct (decide (smt M = Empty)) as [->|Hn].
    - unfold getSubtree, bytes_equal. by rewrite bool_decide_true, orb_true_r.
    - destruct Hst as [?|Hst]; [done|]. eapply (getSubtree_stored L trees); try done.
      apply (build_tree_ok L (8 * L) [] M); [done|cbn; lia]. }
  cbn [mbind res_bind].
  assert (∀ X, build (8 * L - length (@nil bool)) (length (@nil bool)) X = smt X) as Es
    by (intros X; cbn [length]; by rewrite Nat.sub_0_r).
  pose proof (sub_spec_all L trees HE HB Hinj t R1 R2 R3 R4 L ltac:(lia) (update_fuel t) [] M U db) as Hsub.
  rewrite !Es, <-EM in Hsub.
  destruct Hsub as (db' & E & _ & Hs'); [unfold update_fuel; rewrite R1; lia|done..|].
  cbn [length] in E. change (Z.of_nat 0) with 0 in E. rewrite E. cbn [mbind res_bind].
  exists (set_root (tree_hash (smt M')) t), db'. split; [done|]. split; try done.
  - right. intros x ->%list_elem_of_singleton. apply Hs'. left.
  - intros x Hx. apply Hs'. by right.
Qed.
End refinement.

Section laws.
Context `{HashLaws} {D : Type} `{DBLaws D} (L : nat).

Lemma written_represents t (db : D) M : written L t db M → represents L t db M.
Proof using.
  assert (∀ ts, stored db ts → present db ts) as Hsp by (intros ts Hs x Hx; split; by apply Hs).
  intros [? ? ? ? ? ? Hs Hsub]. split; try done; [destruct Hs as [?|?]; [by left|right]|]; by apply Hsp.
Qed.

(** C5: [Update] refines the update of a map.  If the database holds the tree of
    a map [M], then [Update] with keys of the trie's length and values that are
    empty or hashes succeeds: it does not run out of fuel, panic or fail.  The
    root it returns is the Merkle root of [M] after the updates (a non-empty
    value sets the key, an empty one deletes it, and the first of several
    entries for a key counts), whatever the history of the trie, and the
    database then holds the tree of the updated map.  The hypothesis is that no
    two inputs hashed for the trees before and after collide. *)
Theorem Update_refines_map t db M keys values :
  (0 < L)%nat → represents L t db M → length keys = length values →
  (∀ k, k ∈ keys → length k = L ∧ bytes_ok k) → (∀ v, v ∈ values → v = [] ∨ len v = HashLengh) →
  let M' := apply (zip keys values) M in
  collision_free (preimage <$> hashed_trees L M M') →
  ∃ t' db', Update t db keys values = Ok (tree_hash (smt L M'), t', db') ∧ represents L t' db' M'.
Proof using All.
  intros HL Hr Hlen Hk Hv M' Hfree. destruct (Update_written L t db M keys values HL Hr Hlen Hk Hv Hfree) as (t' & db' & E & Hw).
  exists t', db'. split; [done|]. by apply written_represents.
Qed.
End laws.

(** ** What an update can do to a database *)

Section preserved.
Context `{Hasher} {D : Type} `{DBReadWriter D} (R : D → D → Prop) `{!PreOrder R}.
Context (R_Set : ∀ k v d, R d (db_Set k v d)) (R_Del : ∀ k d, R d (db_Del k d)).

Lemma update_nodes_rel f t bins nodes structure off (db : D) x db' :
  (∀ a b c h d y d', f a b c h d = Ok (y, d') → R d d') →
  update_nodes f t bins nodes structure off db = Ok (x, db') → R db db'.
Proof using PreOrder0.
  intros Hf. revert structure off db x. induction nodes as [|n nodes IH]; intros [|h structure] off db x; cbn [update_nodes];
    [by intros [= _ ->]..|done|].
  destruct (slice _ _ _); cbn [mbind res_bind]; [|done..]. destruct (f _ _ _ _ _) as [[[ns st] db1]| | |] eqn:E1; cbn [mbind res_bind]; [|done..].
  destruct (update_nodes _ _ _ _ _ _ _) as [[[[ns' st'] off'] db2]| | |] eqn:E2; cbn [mbind res_bind]; [|done..].
  intros [= _ <-]. etrans; [by eapply Hf|by eapply IH].
Qed.

Lemma descend_rel f t bins n height pos (db : D) x db' :
  (∀ a b c d y d', f a b c d = Ok (y, d') → R d d') → descend f t bins n height pos db = Ok (x, db') → R db db'.
Proof using PreOrder0 R_Del.
  intros Hf. unfold descend. case_match; [done|].
  destruct (match n_kind n with nodeKindStub => _ | _ => _ end) as [[sub db1]| | |] eqn:E; cbn [mbind res_bind]; [|done..].
  destruct (index bins 0); cbn [mbind res_bind]; [|done..].
  destruct (f _ _ _ db1) as [[sub' db2]| | |] eqn:E2; cbn [mbind res_bind]; [|done..].
  assert (R db db1) as Hdb.
  { destruct (n_kind n); try done.
    all: match type of E with mbind _ ?r = _ => destruct r; cbn [mbind res_bind] in E; [|done..] end; by injection E as _ <-. }
  intros Hres. assert (db' = db2) as ->.
  { case_match; [|by injection Hres]. destruct (index (st_nodes sub') 0); cbn [mbind res_bind] in Hres; [|done..]. by injection Hres. }
  etrans; [done|by eapply Hf].
Qed.

Lemma split_node_rel f bins lengthBins base n height pos (db : D) x db' :
  (∀ a b c d e g h y h', f a b c d e g h = Ok (y, h') → R h h') →
  split_node f bins lengthBins base n height pos db = Ok (x, db') → R db db'.
Proof using PreOrder0.
  intros Hf. unfold split_node. destruct (match n_kind n with nodeKindEmpty => _ | _ => _ end) as [[ln rn]| | |]; cbn [mbind res_bind]; [|done..].
  do 5 (match goal with |- mbind _ ?r = _ → _ => destruct r; cbn [mbind res_bind]; [|done..] end).
  destruct (f _ _ _ ln _ _ _) as [[[ns st] db1]| | |] eqn:E1; cbn [mbind res_bind]; [|done..].
  destruct (f _ _ _ rn _ _ _) as [[[ns' st'] db2]| | |] eqn:E2; cbn [mbind res_bind]; [|done..].
  intros [= _ <-]. etrans; by eapply Hf.
Qed.

Lemma updateSubtree_rel fuel t :
  (∀ kvs sub height (db : D) x db', updateSubtree fuel t kvs sub height db = Ok (x, db') → R db db') ∧
  (∀ bins lengthBins base n height pos (db : D) x db', updateNode fuel t bins lengthBins base n height pos db = Ok (x, db') → R db db').
Proof using All.
  induction fuel as [|fuel [IHs IHn]]; [done|]. split.
  - intros kvs sub height db x db'. rewrite updateSubtree_S. case_match; [by intros [= _ ->]|].
    destruct (fill_bins _ _ _ _ _); cbn [mbind res_bind]; [|done..].
    destruct (update_nodes _ _ _ _ _ _ _) as [[[[ns st] off] db1]| | |] eqn:E; cbn [mbind res_bind]; [|done..].
    case_match; [done|]. destruct (Ints.Max st); cbn [mbind res_bind]; [|done..].
    destruct (calculateSubTree _ _ _ _ _); cbn [mbind res_bind]; [|done..]. intros [= _ <-].
    etrans; [|apply R_Set]. eapply update_nodes_rel; [|exact E]. intros ? ? ? ? ? ? ?. apply IHn.
  - intros bins lengthBins base n height pos db x db'. cbn [updateNode].
    assert (∀ (y x : list node * list Z) db', Ok (y, db) = Ok (x, db') → R db db') as Hsame by (by intros y z d [= _ ->]).
    assert (∀ x db', (if pos =? t_subtreeHeight t then descend (updateSubtree fuel t) t bins n height pos db
      else split_node (updateNode fuel t) bins lengthBins base n height pos db) = Ok (x, db') → R db db') as Hsd.
    { intros y d. case_match; [apply descend_rel, IHs|apply split_node_rel, IHn]. }
    destruct (index lengthBins _) as [last_| | |]; cbn [mbind res_bind]; [|done..].
    destruct (last_ - base =? 0); [apply Hsame|]. destruct (last_ - base =? 1); [|apply Hsd].
    destruct (Slices.FindIndex _ _ =? -1); [done|]. destruct (index bins _) as [target| | |]; cbn [mbind res_bind]; [|done..].
    destruct (n_kind n); try apply Hsd; destruct (index target 0) as [[k v]| | |]; cbn [mbind res_bind]; try done.
    + destruct (negb _); apply Hsame.
    + destruct (bytes_equal _ _); [|apply Hsd]. destruct (negb _); apply Hsame.
Qed.

(** A relation that single writes keep is kept by [Update]. *)
Lemma Update_rel t (db : D) keys values r t' db' : Update t db keys values = Ok (r, t', db') → R db db'.
Proof using All.
  unfold Update. case_match; [done|]. case_match; [by intros [= _ _ ->]|].
  destruct (getSubtree _ _ _); cbn [mbind res_bind]; [|done..].
  destruct (updateSubtree _ _ _ _ _ _) as [[sub db1]| | |] eqn:E; cbn [mbind res_bind]; [|done..]. intros [= _ _ <-].
  by eapply (proj1 (updateSubtree_rel _ _)).
Qed.
End preserved.

(** ** A trie *)

Definition sample_keys : list bytes := [[1; 2]; [1; 130]; [200; 7]; [1; 2]].
Definition sample_values : list bytes := [replicate 32 5; replicate 32 6; replicate 32 7; []].

Lemma Update_refines_map_witness :
  let M := apply (zip sample_keys sample_values) ∅ in
  ∃ t db, Update (H := toy_hash) (NewTrie (H := toy_hash) [] 2) (∅ : gmap bytes bytes) sample_keys sample_values
    = Ok (tree_hash (H := toy_hash) (smt 2 M), t, db) ∧ M !! [1; 2] = Some (replicate 32 5).
Proof.
  intros M. assert (HL : HashLaws (H := toy_hash)) by exact toy_hash_laws.
  destruct (Update_refines_map (H := toy_hash) (D := gmap bytes bytes) 2 (NewTrie (H := toy_hash) [] 2) ∅ ∅
    sample_keys sample_values) as (t & db & E & _).
  - lia.
  - apply (represents_new (H := toy_hash)).
  - reflexivity.
  - apply Forall_forall. by repeat constructor.
  - apply Forall_forall. repeat constructor; (by left) || (by right).
  - apply collision_free_NoDup, (bool_decide_unpack _). by vm_compute.
  - exists t, db. split; [exact E|]. by vm_compute.
Defined.
