(* ===== verification/SMTProof.v ===== *)
(** * SMTProof: what [Verify] establishes

    verify.go for a proof of one query: an accepted proof tells the truth about
    the key, if the key of the query has the length of the trie's keys and the
    hashes involved do not collide.  [Verify] does not check that length, and it
    does not bound the bitmap: both gaps are shown on concrete proofs. *)

From S2P Require Import Prelude Collection Codec CodecSpec Message Crypto SMT SMTSpec SMTMap SMTUpdate.

(** ** Subtrees at a path *)

Fixpoint at_path (t : tree) (p : list bool) {struct p} : option tree :=
  match p with
  | [] => Some t
  | b :: p => match t with Branch l r => at_path (if (b : bool) then r else l) p | _ => None end
  end.

Lemma at_path_snoc t p b s l r : at_path t p = Some (Branch l r) → s = (if (b : bool) then r else l) → at_path t (p ++ [b]) = Some s.
Proof.
  revert t. induction p as [|x p IH]; intros t Ht Hs.
  - injection Ht as ->. subst s. by destruct b.
  - cbn in *. destruct t; [done..|]. by apply IH.
Qed.

Lemma at_path_subtrees t p s : at_path t p = Some s → s ∈ subtrees t.
Proof.
  revert t. induction p as [|b p IH]; intros t; cbn; [intros [= ->]; apply subtrees_self|].
  destruct t as [| |l r]; [done..|]. intros Hs%IH. cbn. rewrite elem_of_cons, elem_of_app. destruct b; auto.
Qed.

(** The subtree at a path is the tree of the map below it. *)
Lemma at_path_build L p0 p M s :
  wf_map L p0 M → (length p0 ≤ 8 * L)%nat → at_path (build (8 * L - length p0) (length p0) M) p = Some s →
  ∃ M', s = build (8 * L - length (p0 ++ p)) (length (p0 ++ p)) M' ∧ wf_map L (p0 ++ p) M' ∧
    (length (p0 ++ p) ≤ 8 * L)%nat ∧ ∀ k, in_region L (p0 ++ p) k → M' !! k = M !! k.
Proof.
  revert p0 M. induction p as [|b p IH]; intros p0 M HM Hlen; cbn [at_path].
  { intros [= <-]. exists M. by rewrite app_nil_r. }
  pose proof (build_inv L (8 * L - length p0) p0 M HM ltac:(lia)) as Hinv.
  destruct (build (8 * L - length p0) (length p0) M) as [| |l r] eqn:Eb; [done..|].
  destruct Hinv as (_ & _ & _ & _ & _ & _ & _ & Hpos).
  rewrite (tree_at_join L p0 M) in Eb by (done || lia). apply join_branch in Eb as [<- <-].
  intros Hs. destruct (IH (p0 ++ [b]) (side (length p0) b M)) as (M' & Es & HM' & Hl' & Hk).
  - apply wf_side; [lia|done].
  - rewrite length_app. cbn. lia.
  - by destruct b.
  - rewrite <-app_assoc in *. cbn [app] in *. exists M'. split_and!; [done..|]. intros k Hr. rewrite Hk by done.
    apply option_eq. intros v. rewrite side_lookup. split; [by intros [? _]|]. intros Hv. split; [done|].
    destruct Hr as [Hkl Hko Hp]. assert (in_region L (p0 ++ [b]) k) as [_ [Hb _]]%region_snoc; [|done].
    split; [done..|]. apply (f_equal (take (length (p0 ++ [b])))) in Hp. rewrite take_take in Hp.
    rewrite Nat.min_l in Hp by (rewrite !length_app; cbn; lia). rewrite Hp.
    change (b :: p) with ([b] ++ p). rewrite app_assoc. by rewrite take_app_length.
Qed.

(** ** The chain of hashes of one query *)

Lemma CommonPrefix_take (a b : list bool) n :
  (n ≤ length (Slices.CommonPrefix a b))%nat → take n a = take n b.
Proof.
  assert (∀ (a b : list bool) n, (n ≤ length (Slices.CommonPrefix_loop a b))%nat → take n a = take n b) as Hgen.
  { clear. induction a as [|x a IH]; intros [|y b] [|n]; cbn; try (done || lia).
    case_decide; cbn; [|lia]. subst. intros Hn. f_equal. apply IH. lia. }
  unfold Slices.CommonPrefix. case_decide; [apply Hgen|]. intros Hn. symmetry. by apply Hgen.
Qed.

Section chain.
Context `{HashLaws}.

(** The sibling at the deepest level of a bitmap, and the hashes left. *)
Definition next_sibling (b : bool) (siblingHashes : list bytes) : option (bytes * list bytes) :=
  if b then match siblingHashes with s :: rest => Some (s, rest) | [] => None end
  else Some (emptyHash, siblingHashes).

Definition branch_message (dir : bool) (h s : bytes) : bytes :=
  if dir then Bytes.Join [prefixBranchHash; s; h] else Bytes.Join [prefixBranchHash; h; s].

(** The messages hashed from a hash up to the root. *)
Fixpoint chain (bs : list bool) (key : bytes) (siblingHashes : list bytes) (h : bytes) : list bytes :=
  match bs with
  | [] => []
  | b :: bs => match next_sibling b siblingHashes with
               | Some (s, rest) =>
                   let m := branch_message (key_bit key (length bs)) h s in m :: chain bs key rest (Hash m)
               | None => []
               end
  end.

Fixpoint chain_root (bs : list bool) (key : bytes) (siblingHashes : list bytes) (h : bytes) : option bytes :=
  match bs with
  | [] => Some h
  | b :: bs => match next_sibling b siblingHashes with
               | Some (s, rest) => chain_root bs key rest (Hash (branch_message (key_bit key (length bs)) h s))
               | None => None
               end
  end.

(** One round of the loop of [CalculateRoot] on a single query. *)
Lemma calculateRoot_round fuel q b bs siblingHashes r :
  q_binaryBitmap q = b :: bs → calculateRoot_loop (S fuel) siblingHashes [q] = Ok r →
  ∃ s rest, next_sibling b siblingHashes = Some (s, rest) ∧
    let q' := mkQueryProof (q_Key q) (q_Value q) (Bytes.FromBools bs) bs (q_siblingHashes q) (q_ancestorHashes q)
                (Hash (branch_message (key_bit (q_Key q) (length bs)) (q_hash q) s)) in
    calculateRoot_loop fuel rest [q'] = Ok r.
Proof using.
  intros Eb. cbn [calculateRoot_loop]. unfold sibling_of, q_height. rewrite Eb.
  destruct (Z.eqb_spec (len (b :: bs)) 0); [unfold len in *; cbn in *; lia|]. cbn [mbind res_bind].
  rewrite index_0. cbn [mbind res_bind].
  assert (∀ s rest, next_sibling b siblingHashes = Some (s, rest) →
    ((if len s =? 0 then Err (Errorf "sibling hash is not set") else
      dir ← index (binaryKey q) (len (b :: bs) - 1);
      query ← sliceBinaryBitmap 1 (set_hash (n_hash (if negb dir then newBranchNode (q_hash q) s else newBranchNode s (q_hash q))) q);
      queries ← insertAndFilterQueries query [];
      calculateRoot_loop fuel rest queries) = Ok r) →
    ∃ s rest, next_sibling b siblingHashes = Some (s, rest) ∧
      calculateRoot_loop fuel rest [mkQueryProof (q_Key q) (q_Value q) (Bytes.FromBools bs) bs (q_siblingHashes q)
        (q_ancestorHashes q) (Hash (branch_message (key_bit (q_Key q) (length bs)) (q_hash q) s))] = Ok r) as Hstep.
  { intros s rest Hn. destruct (Z.eqb_spec (len s) 0); [done|]. unfold index, binaryKey. rewrite len_cons.
    replace (1 + len bs - 1) with (len bs) by lia. rewrite idx_nonneg by apply len_nonneg. unfold len at 1. rewrite Nat2Z.id.
    destruct (bits (q_Key q) !! length bs) as [dir|] eqn:Ed; [|done]. cbn [mbind res_bind].
    unfold sliceBinaryBitmap. cbn [set_hash q_binaryBitmap]. rewrite Eb. change (b :: bs) with ([b] ++ bs).
    rewrite (slice_end [b] bs) by done. cbn [mbind res_bind insertAndFilterQueries len length Z.of_nat Z.eqb app].
    intros E. exists s, rest. split; [done|]. cbn [q_Key q_Value q_siblingHashes q_ancestorHashes q_hash] in E.
    unfold key_bit. rewrite Ed. cbn [default]. by destruct dir. }
  unfold next_sibling in Hstep. destruct b; cbn [negb].
  - destruct siblingHashes as [|s rest]; [done|]. cbn [mbind res_bind]. by apply (Hstep s rest).
  - cbn [mbind res_bind]. by apply (Hstep emptyHash siblingHashes).
Qed.

(** The loop of [CalculateRoot] on one query computes the chain. *)
Lemma calculateRoot_single fuel q siblingHashes r :
  calculateRoot_loop fuel siblingHashes [q] = Ok r →
  chain_root (q_binaryBitmap q) (q_Key q) siblingHashes (q_hash q) = Some r.
Proof using.
  revert fuel q siblingHashes.
  assert (∀ bs fuel q siblingHashes, q_binaryBitmap q = bs → calculateRoot_loop fuel siblingHashes [q] = Ok r →
    chain_root bs (q_Key q) siblingHashes (q_hash q) = Some r) as Hgen; [|intros; by eapply Hgen].
  induction bs as [|b bs IH]; intros [|fuel] q sib Eb Hr; try done.
  - cbn in Hr. unfold q_height in Hr. rewrite Eb in Hr. cbn in Hr. injection Hr as ->. done.
  - apply (calculateRoot_round fuel q b bs) in Hr as (s & rest & Hn & Hr); [|done]. cbn [chain_root]. rewrite Hn.
    by apply IH in Hr.
Qed.

(** Following the chain down from the root of a tree. *)
Lemma chain_at_path (t : tree) bs key siblingHashes m :
  collision_free ((preimage <$> subtrees t) ++ m :: chain bs key siblingHashes (Hash m)) →
  (length bs ≤ length (bits key))%nat →
  chain_root bs key siblingHashes (Hash m) = Some (tree_hash t) →
  ∃ s, at_path t (take (length bs) (bits key)) = Some s ∧ preimage s = m.
Proof using All.
  revert siblingHashes m. induction bs as [|b bs IH]; intros sib m Hfree Hlen Hr.
  { injection Hr as Hr. exists t. split; [done|]. rewrite tree_hash_preimage in Hr.
    destruct (decide (preimage t = m)) as [|Hne]; [done|]. exfalso. apply (Hfree m (preimage t)).
    - apply elem_of_app. right. left.
    - apply elem_of_app. left. apply list_elem_of_fmap_2, subtrees_self.
    - by split. }
  cbn [chain_root chain length] in *. destruct (next_sibling b sib) as [[s rest]|] eqn:En; [|done].
  set (m1 := branch_message (key_bit key (length bs)) (Hash m) s) in *.
  destruct (IH rest m1) as (s1 & Hs1 & Hp1).
  - intros x y Hx Hy. apply Hfree; set_solver.
  - lia.
  - done.
  - assert (is_Some (bits key !! length bs)) as [dir Hd] by (apply lookup_lt_is_Some; lia).
    rewrite (take_S_r _ _ _ Hd). assert (key_bit key (length bs) = dir) as Ed by (unfold key_bit; by rewrite Hd).
    unfold m1, branch_message in Hp1. rewrite Ed in Hp1.
    destruct s1 as [|k v|l r]; [by destruct dir|by destruct dir|].
    assert (tree_hash (if dir then r else l) = Hash m) as Eh.
    { cbn [preimage Bytes.Join concat] in Hp1. destruct dir; injection Hp1 as Hp1; rewrite !app_nil_r in Hp1.
      - apply app_inj_2 in Hp1 as [_ E]; [done|]. pose proof (len_tree_hash r). pose proof (Hash_len m). unfold len in *. lia.
      - apply app_inj_1 in Hp1 as [E _]; [done|]. pose proof (len_tree_hash l). pose proof (Hash_len m). unfold len in *. lia. }
    exists (if dir then r else l). split; [by eapply at_path_snoc|].
    rewrite tree_hash_preimage in Eh. destruct (decide (preimage (if dir then r else l) = m)) as [|Hne]; [done|]. exfalso.
    apply (Hfree (preimage (if dir then r else l)) m); [|set_solver|by split].
    apply elem_of_app. left. apply list_elem_of_fmap_2. apply at_path_subtrees in Hs1.
    apply subtrees_Branch in Hs1 as [? ?]. by destruct dir.
Qed.

(** ** Soundness for one query *)

(** What a query claims of a key. *)
Definition claimed (key : bytes) (q : QueryProof) : option bytes :=
  if bytes_equal key (q_Key q) then match q_Value q with [] => None | v => Some v end else None.

Definition query_bitmap (q : QueryProof) : list bool := stripPrefixFalse (bits (q_Bitmap q)).

(** The message of the queried leaf; an empty value stands for the empty tree. *)
Definition leaf_message (q : QueryProof) : bytes :=
  match q_Value q with [] => [] | v => Bytes.Join [prefixLeafHash; q_Key q; v] end.

(** Everything [Verify] hashes for a proof of one query. *)
Definition verify_messages (q : QueryProof) (siblingHashes : list bytes) : list bytes :=
  leaf_message q :: chain (query_bitmap q) (q_Key q) siblingHashes (Hash (leaf_message q)).

Lemma newQueryProof_hash q bs anc sib : q_hash (newQueryProof (q_Key q) (q_Value q) bs anc sib) = Hash (leaf_message q).
Proof using.
  unfold newQueryProof, leaf_message. cbn [q_hash]. destruct (q_Value q) as [|x v]; [done|].
  destruct (Z.eqb_spec (len (x :: v)) 0); [unfold len in *; cbn in *; lia|]. done.
Qed.

(** What the checks of [Verify] give for a proof of one query. *)
Lemma Verify_single_inv key q siblingHashes root L :
  Verify [key] (mkProof siblingHashes [q]) root L = Ok true →
  len key = L ∧ (length (query_bitmap q) ≤ length (bits (q_Key q)))%nat ∧
  take (length (query_bitmap q)) (bits key) = take (length (query_bitmap q)) (bits (q_Key q)) ∧
  chain_root (query_bitmap q) (q_Key q) siblingHashes (Hash (leaf_message q)) = Some root.
Proof using H0.
  unfold Verify. cbn [p_Queries p_SiblingHashes]. change (len [key] =? len [q]) with true. cbn [negb verify_queries].
  rewrite lookup_empty. destruct (Z.eqb_spec (len key) L) as [EL|]; [|done]. cbn [negb].
  intros Hv. split; [done|]. fold (query_bitmap q) in Hv.
  assert (take (length (query_bitmap q)) (bits key) = take (length (query_bitmap q)) (bits (q_Key q)) ∧
    (filteredProofs ← filter_queries [q] ∅; calculatedRoot ← CalculateRoot siblingHashes filteredProofs;
     Ok (bytes_equal root calculatedRoot)) = Ok true) as [Htake Hcalc].
  { destruct (match q_Bitmap q with 0 :: _ => true | _ => false end); [done|].
    destruct (Slices.Equal key (q_Key q)) eqn:Ek.
    - apply Slices.Equal_spec in Ek as ->. done.
    - destruct (Z.ltb_spec (len (Slices.CommonPrefix (bits key) (bits (q_Key q)))) (len (query_bitmap q))); [done|].
      split; [|done]. apply CommonPrefix_take. unfold len in *. lia. }
  clear Hv. cbn [filter_queries] in Hcalc. fold (query_bitmap q) in Hcalc. unfold binaryPath, binaryKey, q_height in Hcalc.
  cbn [newQueryProof q_Key q_binaryBitmap] in Hcalc. unfold slice in Hcalc. case_decide as Hle; [|done].
  cbn [mbind res_bind] in Hcalc. rewrite bool_decide_false in Hcalc by set_solver. cbn [mbind res_bind] in Hcalc.
  set (q' := newQueryProof _ _ _ _ _) in *.
  destruct (CalculateRoot siblingHashes [q']) as [r| | |] eqn:Er; try done. cbn [mbind res_bind] in Hcalc.
  injection Hcalc as Hcalc. unfold bytes_equal in Hcalc. apply bool_decide_eq_true in Hcalc as ->.
  split; [unfold len in *; lia|]. split; [done|].
  unfold CalculateRoot, QueryProofs_sort in Er. cbn [sort_slice insert_by] in Er. apply calculateRoot_single in Er.
  unfold q' in Er. by rewrite newQueryProof_hash in Er.
Qed.

(** C36: an accepted proof of one query tells the truth.  When [Verify] accepts a
    proof for a key against the root of a map, the key has in that map exactly
    what the query claims: its value when the query is about the key itself,
    nothing when the query has an empty value or is about another key.  The key
    of the query must have the length of the keys, which [Verify] does not
    check, and the inputs hashed for the tree and in [Verify] must not
    collide. *)
Theorem Verify_single_sound L M key q siblingHashes :
  wf_map L [] M → bytes_ok key → bytes_ok (q_Key q) → length (q_Key q) = L →
  collision_free ((preimage <$> subtrees (smt L M)) ++ verify_messages q siblingHashes) →
  Verify [key] (mkProof siblingHashes [q]) (tree_hash (smt L M)) (Z.of_nat L) = Ok true →
  M !! key = claimed key q.
Proof using All.
  intros HM Hok Hokq Hlq Hfree Hv. apply Verify_single_inv in Hv as (Hlk & Hh & Htake & Hroot).
  apply chain_at_path in Hroot as (s & Hs & Hp); [|done|done].
  assert (smt L M = build (8 * L - length (@nil bool)) (length (@nil bool)) M) as Es
    by (cbn [length]; by rewrite Nat.sub_0_r).
  rewrite Es in Hs. apply (at_path_build L [] _ M) in Hs as (M' & -> & HM' & Hpl & Hk); [|done|cbn; lia].
  cbn [app] in *. set (p := take (length (query_bitmap q)) (bits (q_Key q))) in *.
  assert (length p = length (query_bitmap q)) as Hpl' by (unfold p; rewrite length_take; lia).
  assert (in_region L p key) as Hrk by (split; [unfold len in Hlk; lia|done|by rewrite Hpl', Htake]).
  rewrite <-Hk by done. pose proof (build_inv L (8 * L - length p) p M' HM' ltac:(lia)) as Hinv.
  unfold claimed. unfold leaf_message in Hp.
  destruct (build (8 * L - length p) (length p) M') as [|k v|l r].
  - subst M'. destruct (q_Value q); [|done]. rewrite lookup_empty. by destruct (bytes_equal key (q_Key q)).
  - subst M'. destruct (q_Value q) as [|x u]; [done|]. cbn [preimage Bytes.Join concat] in Hp. injection Hp as Hp.
    rewrite !app_nil_r in Hp. destruct (HM' k v) as [[Hkl _ _] _]; [by rewrite lookup_singleton_eq|].
    apply app_inj_1 in Hp as [-> ->]; [|lia]. unfold bytes_equal. case_bool_decide as E.
    + subst key. by rewrite lookup_singleton_eq.
    + by rewrite lookup_singleton_ne.
  - by destruct (q_Value q).
Qed.

(** ** What [Verify] does not check *)

(** The loop only looks at the bitmap, the hash and the bits of the path. *)
Lemma calculateRoot_loop_ext fuel siblingHashes q1 q2 :
  q_binaryBitmap q1 = q_binaryBitmap q2 → q_hash q1 = q_hash q2 →
  (∀ i, (i < length (q_binaryBitmap q1))%nat → bits (q_Key q1) !! i = bits (q_Key q2) !! i) →
  calculateRoot_loop fuel siblingHashes [q1] = calculateRoot_loop fuel siblingHashes [q2].
Proof using.
  revert siblingHashes q1 q2. induction fuel as [|fuel IH]; intros sib q1 q2 Eb Eh Hbits; [done|].
  cbn [calculateRoot_loop]. unfold q_height, sibling_of. rewrite <-Eb, <-Eh.
  destruct (q_binaryBitmap q1) as [|b bs] eqn:Eb1; [done|].
  destruct (Z.eqb_spec (len (b :: bs)) 0); [done|]. cbn [mbind res_bind]. rewrite index_0. cbn [mbind res_bind].
  assert (index (binaryKey q1) (len (b :: bs) - 1) = index (binaryKey q2) (len (b :: bs) - 1)) as Ei.
  { unfold index, binaryKey. rewrite len_cons. replace (1 + len bs - 1) with (len bs) by lia.
    rewrite !idx_nonneg by apply len_nonneg. unfold len. rewrite Nat2Z.id. rewrite Hbits; [done|cbn; lia]. }
  destruct (if negb b then _ else _) as [[[s qs] rest]| | |] eqn:Es; [|done..]. cbn [mbind res_bind].
  assert (qs = []) as ->.
  { destruct b; cbn [negb] in Es; [by destruct sib; [|injection Es as <- <- <-]|by injection Es as <- <- <-]. }
  destruct (len s =? 0); [done|]. rewrite Ei. destruct (index (binaryKey q2) _) as [dir| | |]; [|done..]. cbn [mbind res_bind].
  unfold sliceBinaryBitmap. cbn [set_hash q_binaryBitmap]. rewrite <-Eb, Eb1. change (b :: bs) with ([b] ++ bs).
  rewrite !(slice_end [b] bs) by done. cbn [mbind res_bind insertAndFilterQueries len length Z.of_nat Z.eqb app].
  apply IH; cbn [q_binaryBitmap q_hash q_Key]; [done|done|]. intros i Hi. apply Hbits. cbn. lia.
Qed.

(** The same leaf message, split one byte later. *)
Definition forged (q : QueryProof) (x : Z) (v : bytes) : QueryProof :=
  mkQueryProof (q_Key q ++ [x]) v (q_Bitmap q) [] [] [] [].

(** C39: a proof that a key has a value can be turned into an accepted proof that
    it has none.  Moving the first byte of the value to the end of the query's
    key leaves the hashed leaf unchanged, and [Verify] accepts the result, which
    is about another key than the queried one: [Verify] lacks a check of the
    length of the query's key. *)
Theorem Verify_accepts_forged_exclusion key q siblingHashes root L x v :
  Verify [key] (mkProof siblingHashes [q]) root L = Ok true → q_Key q = key → q_Value q = x :: v → v ≠ [] →
  claimed key q = Some (x :: v) ∧
  Verify [key] (mkProof siblingHashes [forged q x v]) root L = Ok true ∧ claimed key (forged q x v) = None.
Proof using H0.
  intros Hv Hk Hval Hne. pose proof (Verify_single_inv _ _ _ _ _ Hv) as (HL & Hh & _ & _).
  assert (key ≠ key ++ [x]) as Hkx by (intros E; apply (f_equal length) in E; rewrite length_app in E; cbn in E; lia).
  assert (bits (key ++ [x]) = bits key ++ bits [x]) as Ebits by (unfold bits; apply bind_app).
  split; [unfold claimed, bytes_equal; rewrite bool_decide_true by done; by rewrite Hval|]. split.
  2: { unfold claimed, bytes_equal. cbn [forged q_Key]. rewrite Hk. by rewrite bool_decide_false. }
  unfold Verify in *. cbn [p_Queries p_SiblingHashes] in *. change (len [key] =? len [q]) with true in Hv.
  change (len [key] =? len [forged q x v]) with true. cbn [negb verify_queries forged q_Key q_Value q_Bitmap] in *.
  rewrite lookup_empty in *. rewrite HL, Z.eqb_refl in *. cbn [negb] in *. fold (query_bitmap q) in *.
  destruct (match q_Bitmap q with 0 :: _ => true | _ => false end); [done|]. rewrite Hk in *.
  rewrite (proj2 (Slices.Equal_spec key key) eq_refl) in Hv. cbn [mbind res_bind negb] in Hv.
  destruct (Slices.Equal key (key ++ [x])) eqn:Eq; [by apply Slices.Equal_spec in Eq|].
  assert (∀ a b : list bool, Slices.CommonPrefix a (a ++ b) = a) as Hcp.
  { intros a b. unfold Slices.CommonPrefix. case_decide as Hd.
    - clear. induction a as [|y a IH]; [by destruct b|]. cbn. rewrite decide_True by done. by rewrite IH.
    - destruct b as [|y b]; [|rewrite len_app, len_cons in Hd; pose proof (len_nonneg b); lia]. rewrite app_nil_r.
      clear. induction a as [|y a IH]; [done|]. cbn. rewrite decide_True by done. by rewrite IH. }
  rewrite Ebits, Hcp. destruct (Z.ltb_spec (len (bits key)) (len (query_bitmap q))); [unfold len in *; lia|].
  cbn [mbind res_bind negb filter_queries forged q_Bitmap q_Key q_Value] in *. fold (query_bitmap q) in *.
  unfold binaryPath, binaryKey, q_height in *. cbn [newQueryProof q_Key q_binaryBitmap] in *. rewrite Hk in *. rewrite Ebits.
  unfold slice in *. rewrite decide_True in Hv by (unfold len in *; lia). rewrite decide_True by (rewrite len_app; unfold len in *; lia).
  cbn [mbind res_bind] in *. rewrite !bool_decide_false in * by set_solver. cbn [mbind res_bind] in *.
  set (q1 := newQueryProof key _ _ _ _) in Hv. set (q2 := newQueryProof (key ++ [x]) _ _ _ _).
  assert (CalculateRoot siblingHashes [q2] = CalculateRoot siblingHashes [q1]) as ->; [|done].
  unfold CalculateRoot, QueryProofs_sort. cbn [sort_slice insert_by total_height foldr q_binaryBitmap q1 q2 newQueryProof].
  apply calculateRoot_loop_ext; cbn [newQueryProof q_binaryBitmap q_hash q_Key].
  - done.
  - unfold q1, q2. cbn [newQueryProof q_hash]. rewrite ?Hval. destruct v as [|y v]; [done|].
    destruct (Z.eqb_spec (len (y :: v)) 0); [unfold len in *; cbn in *; lia|].
    destruct (Z.eqb_spec (len (x :: y :: v)) 0); [unfold len in *; cbn in *; lia|]. unfold newLeafNode, Bytes.Join. cbn [negb n_hash concat].
    by rewrite <-!app_assoc.
  - intros i Hi. unfold q1, q2 in *. cbn [newQueryProof q_Key q_binaryBitmap] in *. rewrite Ebits. apply lookup_app_l. lia.
Qed.

(** [Verify] panics on a query about the key whose bitmap is longer than the
    key: it slices the bits of the key without checking the length. *)
Theorem Verify_panics_on_long_bitmap key value root siblingHashes :
  let q := mkQueryProof key value (replicate (S (length key)) 255) [] [] [] [] in
  Verify [key] (mkProof siblingHashes [q]) root (len key) = Panic.
Proof using.
  intros q. unfold Verify, q. cbn [p_Queries p_SiblingHashes]. change (len [key] =? len [q]) with true.
  cbn [negb verify_queries q_Key q_Bitmap replicate]. rewrite lookup_empty, Z.eqb_refl. cbn [negb].
  rewrite (proj2 (Slices.Equal_spec key key) eq_refl). cbn [mbind res_bind negb filter_queries q_Bitmap q_Key q_Value].
  set (bm := stripPrefixFalse _). unfold binaryPath, binaryKey, q_height. cbn [newQueryProof q_Key q_binaryBitmap].
  assert (length bm = 8 * S (length key))%nat as Hl.
  { unfold bm. change (bits (255 :: replicate (length key) 255)) with (true :: replicate 7 true ++ bits (replicate (length key) 255)).
    cbn [stripPrefixFalse length]. rewrite length_app, Bytes.length_ToBools, !length_replicate. lia. }
  unfold slice. rewrite decide_False by (unfold len; rewrite Hl, Bytes.length_ToBools; lia). by rewrite Z.eqb_refl.
Qed.
End chain.

(** ** Proofs *)

Definition proved_map : gmap bytes bytes := apply (zip sample_keys sample_values) ∅.

Definition proof_for (key : bytes) : res Proof :=
  match Update (H := toy_hash) (NewTrie (H := toy_hash) [] 2) (∅ : gmap bytes bytes) sample_keys sample_values with
  | Ok (_, t, db) => Prove (H := toy_hash) t db [key]
  | _ => Err (Errorf "no trie")
  end.

Definition proof_siblings (r : res Proof) : list bytes :=
  match r with Ok p => p_SiblingHashes p | _ => [] end.
Definition proof_query (r : res Proof) : QueryProof :=
  match r with
  | Ok (mkProof _ (q :: _)) => q
  | _ => mkQueryProof [] [] [] [] [] [] []
  end.

Definition siblings_for (key : bytes) : list bytes := proof_siblings (proof_for key).
Definition query_for (key : bytes) : QueryProof := proof_query (proof_for key).

Lemma inclusion_accepted :
  Verify (H := toy_hash) [[1; 2]] (mkProof (siblings_for [1; 2]) [query_for [1; 2]])
    (tree_hash (H := toy_hash) (smt 2 proved_map)) 2 = Ok true.
Proof. by vm_compute. Qed.

Lemma exclusion_accepted :
  Verify (H := toy_hash) [[1; 7]] (mkProof (siblings_for [1; 7]) [query_for [1; 7]])
    (tree_hash (H := toy_hash) (smt 2 proved_map)) 2 = Ok true.
Proof. by vm_compute. Qed.

Lemma Verify_single_sound_witness :
  proved_map !! [1; 2] = Some (replicate 32 5) ∧ proved_map !! [1; 7] = None.
Proof.
  assert (HL : HashLaws (H := toy_hash)) by exact toy_hash_laws.
  assert (wf_map 2 [] proved_map) as Hwf.
  { intros k v Hk%elem_of_map_to_list. revert k v Hk.
    assert (Forall (λ e, length e.1 = 2%nat ∧ bytes_ok e.1 ∧ len e.2 = HashLengh) (map_to_list proved_map)) as HF
      by (apply (bool_decide_unpack _); by vm_compute).
    intros k v Hk. rewrite Forall_forall in HF. destruct (HF _ Hk) as (? & ? & ?). split; [by split|done]. }
  split.
  - assert (claimed [1; 2] (query_for [1; 2]) = Some (replicate 32 5)) as E by (by vm_compute). rewrite <-E.
    apply (Verify_single_sound (H := toy_hash) 2 proved_map [1; 2] (query_for [1; 2]) (siblings_for [1; 2]));
      [exact Hwf|by repeat constructor|apply (bool_decide_unpack _); by vm_compute|by vm_compute| |].
    + apply collision_free_NoDup, (bool_decide_unpack _). by vm_compute.
    + exact inclusion_accepted.
  - assert (claimed [1; 7] (query_for [1; 7]) = None) as E by (by vm_compute). rewrite <-E.
    apply (Verify_single_sound (H := toy_hash) 2 proved_map [1; 7] (query_for [1; 7]) (siblings_for [1; 7]));
      [exact Hwf|by repeat constructor|apply (bool_decide_unpack _); by vm_compute|by vm_compute| |].
    + apply collision_free_NoDup, (bool_decide_unpack _). by vm_compute.
    + exact exclusion_accepted.
Defined.

Lemma Verify_accepts_forged_exclusion_witness :
  Verify (H := toy_hash) [[1; 2]] (mkProof (siblings_for [1; 2]) [forged (query_for [1; 2]) 5 (replicate 31 5)])
    (tree_hash (H := toy_hash) (smt 2 proved_map)) 2 = Ok true.
Proof.
  apply (Verify_accepts_forged_exclusion (H := toy_hash) (H0 := toy_hash_laws) [1; 2] (query_for [1; 2])
    (siblings_for [1; 2]) _ 2 5 (replicate 31 5)); [exact inclusion_accepted|by vm_compute|by vm_compute|done].
Defined.
