(* ===== verification/TxList.v ===== *)
(** * TxList: the transactions of one account in the pool

    [addressTransactions] of pkg/txpool/txlist.go with the heaps of heap.go and
    the fee priority of fee.go.  An account keeps its transactions by nonce, a
    min-heap of the nonces and the ascending list of the nonces that are
    processable.  A [*TransactionWithFeePriority] read from the Go map may be
    nil, so the operations that collect transactions return options; the
    mutex of the account only serialises the operations. *)

From S2P Require Import Prelude Collection Heap Codec Crypto BlockTypes Block.

(** ** fee.go and heap.go *)

Record TransactionWithFeePriority := mkTransactionWithFeePriority {
  tw_Transaction : Transaction;
  tw_FeePriority : Z;
  tw_receivedAt : Z;
}.

#[export] Instance Transaction_eq_dec : EqDecision Transaction.
Proof. solve_decision. Defined.
#[export] Instance TransactionWithFeePriority_eq_dec : EqDecision TransactionWithFeePriority.
Proof. solve_decision. Defined.

Abbreviation tw_ID w := (tx_ID (tw_Transaction w)).
Abbreviation tw_Nonce w := (tx_Nonce (tw_Transaction w)).
Abbreviation tw_Fee w := (tx_Fee (tw_Transaction w)).

(** The division by [uint64(tx.Size())] panics on zero. *)
Definition calculateFeePriority (tx : Transaction) : res Z :=
  if decide (u64 (tx_size tx) = 0) then Panic else Ok (tx_Fee tx / u64 (tx_size tx)).

Definition NonceMinHeap_Less (x y : Z) : bool := x <? y.
Definition FeeMaxHeap_Less (x y : TransactionWithFeePriority) : bool := tw_FeePriority y <? tw_FeePriority x.
Definition FeeMinHeap_Less (x y : TransactionWithFeePriority) : bool := tw_FeePriority x <? tw_FeePriority y.

(** ** txlist.go *)

Record addressTransactions := mkAddressTransactions {
  at_address : bytes;
  at_maxSize : Z;
  at_minReplacementFeeDifference : Z;
  at_transactions : gmap Z TransactionWithFeePriority;
  at_processables : list Z;
  at_nonces : list Z;
}.

Definition set_at_processables (l : list Z) (a : addressTransactions) : addressTransactions :=
  mkAddressTransactions (at_address a) (at_maxSize a) (at_minReplacementFeeDifference a)
    (at_transactions a) l (at_nonces a).
Definition set_at_nonces (l : list Z) (a : addressTransactions) : addressTransactions :=
  mkAddressTransactions (at_address a) (at_maxSize a) (at_minReplacementFeeDifference a)
    (at_transactions a) (at_processables a) l.
Definition set_at_transactions (m : gmap Z TransactionWithFeePriority) (a : addressTransactions)
    : addressTransactions :=
  mkAddressTransactions (at_address a) (at_maxSize a) (at_minReplacementFeeDifference a)
    m (at_processables a) (at_nonces a).

Definition newAddressTransactions (address : bytes) (maxSize minReplacementFeeDiff : Z) : addressTransactions :=
  mkAddressTransactions address maxSize minReplacementFeeDiff ∅ [] (Init NonceMinHeap_Less []).

Definition at_Get (nonce : Z) (a : addressTransactions) : option TransactionWithFeePriority :=
  at_transactions a !! nonce.

Definition at_Size (a : addressTransactions) : Z := len (at_nonces a).

(** [a.transactions[nonce]] for every nonce of a loop. *)
Definition lookups (a : addressTransactions) (nonces : list Z) : list (option TransactionWithFeePriority) :=
  (λ nonce, at_transactions a !! nonce) <$> nonces.

Definition at_GetProcessables (a : addressTransactions) : list (option TransactionWithFeePriority) :=
  lookups a (at_processables a).

(** [for range a.processables { heap.Pop(&copied) }] and the loops that take
    one nonce after the other from the copied heap. *)
Fixpoint pop_n (k : nat) (copied : list Z) : res (list Z * list Z) :=
  match k with
  | O => Ok ([], copied)
  | S k =>
      '(nonce, copied) ← Pop NonceMinHeap_Less copied;
      '(nonces, copied) ← pop_n k copied;
      Ok (nonce :: nonces, copied)
  end.

Definition at_GetUnprocessables (a : addressTransactions) : res (list (option TransactionWithFeePriority)) :=
  if len (at_nonces a) =? 0 then Ok []
  else if len (at_nonces a) =? len (at_processables a) then Ok []
  else
    '(_, copied) ← pop_n (length (at_processables a)) (at_nonces a);
    '(nonces, _) ← pop_n (length copied) copied;
    Ok (lookups a nonces).

Definition at_demoteAfter (target : Z) (a : addressTransactions) : addressTransactions :=
  set_at_processables (sort_slice Z.ltb (filter (λ nonce, nonce < target) (at_processables a))) a.

Definition at_maxNonce (a : addressTransactions) : Z :=
  foldl (λ max nonce, if max <? nonce then nonce else max) 0 (at_nonces a).

(** The result is the ID of the removed transaction, or nil. *)
Definition at_remove (target : Z) (a : addressTransactions) : option bytes * addressTransactions :=
  match at_transactions a !! target with
  | None => (None, a)
  | Some existingTx =>
      let newHeap := filter (λ nonce, nonce ≠ target) (at_nonces a) in
      let a := set_at_nonces (Init NonceMinHeap_Less newHeap) a in
      let a := at_demoteAfter target a in
      (Some (tw_ID existingTx), set_at_transactions (delete target (at_transactions a)) a)
  end.

Definition at_Remove := at_remove.

(** Why a transaction is not added. *)
Inductive add_error := InsufficientFee | ExceedsLimit.

Record add_result := mkAddResult { ar_ok : bool; ar_idRemoved : option bytes; ar_errMsg : option add_error }.

Definition at_Add (incomingTx : TransactionWithFeePriority) (processable : bool) (a : addressTransactions)
    : add_result * addressTransactions :=
  let nonce := tw_Nonce incomingTx in
  match at_transactions a !! nonce with
  | Some existingTx =>
      if tw_Fee incomingTx <? u64 (tw_Fee existingTx + at_minReplacementFeeDifference a)
      then (mkAddResult false None (Some InsufficientFee), a)
      else
        let a := at_demoteAfter nonce a in
        (mkAddResult true (Some (tw_ID existingTx)) None,
         set_at_transactions (<[nonce := incomingTx]> (at_transactions a)) a)
  | None =>
      let insert a :=
        let a := set_at_transactions (<[nonce := incomingTx]> (at_transactions a)) a in
        let a := set_at_nonces (Push NonceMinHeap_Less nonce (at_nonces a)) a in
        if processable && (len (at_processables a) =? 0)
        then set_at_processables (at_processables a ++ [nonce]) a else a in
      if at_maxSize a <? len (at_nonces a) + 1 then
        let maxNonce := at_maxNonce a in
        if maxNonce <? nonce then (mkAddResult false None (Some ExceedsLimit), a)
        else let '(removedID, a) := at_remove maxNonce a in (mkAddResult true removedID None, insert a)
      else (mkAddResult true None None, insert a)
  end.

(** The first loop of [Promote]: the nonces to promote, [None] when a
    transaction is not the one of the account any more. *)
Fixpoint promoting (a : addressTransactions) (txs : list (option TransactionWithFeePriority))
    : res (option (list Z)) :=
  match txs with
  | [] => Ok (Some [])
  | None :: _ => Panic
  | Some tx :: txs =>
      match at_transactions a !! tw_Nonce tx with
      | None => Ok None
      | Some existing =>
          if decide (tw_ID existing ≠ tw_ID tx) then Ok None
          else
            rest ← promoting a txs;
            Ok (option_map (cons (tw_Nonce tx)) rest)
      end
  end.

(** The nonces are collected in a map, whose iteration order the sort hides. *)
Definition at_Promote (txs : list (option TransactionWithFeePriority)) (a : addressTransactions)
    : res (bool * addressTransactions) :=
  nonces ← promoting a txs;
  match nonces with
  | None => Ok (false, a)
  | Some nonces =>
      let nonceMap : gset Z := list_to_set (at_processables a ++ nonces) in
      Ok (true, set_at_processables (sort_slice Z.ltb (elements nonceMap)) a)
  end.

(** The loop at the end of [GetPromotable]. *)
Fixpoint promotable_loop (remaining : nat) (lastPromited : Z) (copied : list Z) : res (list Z) :=
  match remaining with
  | O => Ok []
  | S remaining =>
      '(next, copied) ← Pop NonceMinHeap_Less copied;
      if decide (next ≠ u64 (lastPromited + 1)) then Ok []
      else rest ← promotable_loop remaining next copied; Ok (next :: rest)
  end.

Definition at_GetPromotable (a : addressTransactions) : res (list (option TransactionWithFeePriority)) :=
  if len (at_nonces a) =? 0 then Ok []
  else if len (at_nonces a) =? len (at_processables a) then Ok []
  else
    '(_, copied) ← pop_n (length (at_processables a)) (at_nonces a);
    if len copied =? 0 then Ok []
    else
      '(firstUnprocessable, copied) ← Pop NonceMinHeap_Less copied;
      let gap :=
        match last (at_processables a) with
        | Some highestProcessable => bool_decide (firstUnprocessable ≠ u64 (highestProcessable + 1))
        | None => false
        end in
      if gap then Ok []
      else
        nonces ← promotable_loop (length copied) firstUnprocessable copied;
        Ok (lookups a (firstUnprocessable :: nonces)).

(** ** Sorted nonces *)

Abbreviation sortZ := (sort_slice Z.ltb).

Lemma less_ok_nonce : less_ok NonceMinHeap_Less.
Proof. apply (less_ok_Z id). Qed.

Lemma less_ok_fee : less_ok FeeMinHeap_Less.
Proof. apply (less_ok_Z tw_FeePriority). Qed.

Lemma sortZ_sorted l : StronglySorted Z.le (sortZ l).
Proof.
  eapply StronglySorted_weaken; [|exact (sort_slice_sorted Z.ltb l less_ok_nonce)].
  intros x y. apply Z.ltb_ge.
Qed.

Lemma sortZ_unique l k : k ≡ₚ l → StronglySorted Z.le k → sortZ l = k.
Proof.
  intros Hp Hk. apply (sorted_perm_unique Z.le); [lia|apply sortZ_sorted|done|]. by rewrite sort_slice_Permutation.
Qed.

Lemma sortZ_Permutation l k : l ≡ₚ k → sortZ l = sortZ k.
Proof. intros Hp. apply sortZ_unique; [by rewrite sort_slice_Permutation|apply sortZ_sorted]. Qed.

Lemma sorted_lt_le l : StronglySorted Z.lt l → StronglySorted Z.le l.
Proof. apply StronglySorted_weaken. lia. Qed.

Lemma sorted_le_lt l : NoDup l → StronglySorted Z.le l → StronglySorted Z.lt l.
Proof.
  intros Hnd Hs. induction Hs as [|x l Hs IH Hx]; [constructor|]. apply NoDup_cons in Hnd as [Hn Hnd].
  constructor; [by apply IH|]. rewrite Forall_forall in *. intros y Hy. specialize (Hx y Hy).
  destruct (decide (x = y)) as [->|?]; [done|lia].
Qed.

Lemma sortZ_lt l : NoDup l → StronglySorted Z.lt (sortZ l).
Proof. intros Hnd. apply sorted_le_lt; [by rewrite sort_slice_Permutation|apply sortZ_sorted]. Qed.

Lemma sorted_lt_NoDup l : StronglySorted Z.lt l → NoDup l.
Proof.
  induction 1 as [|x l Hs IH Hx]; constructor; [|done]. rewrite Forall_forall in Hx.
  intros Hin. specialize (Hx x Hin). lia.
Qed.

Lemma sortZ_id l : StronglySorted Z.lt l → sortZ l = l.
Proof. intros Hs. apply sortZ_unique; [done|by apply sorted_lt_le]. Qed.

Abbreviation nonce_heap := (heap_ok NonceMinHeap_Less).

Lemma Pop_sorted l :
  l ≠ [] → nonce_heap l →
  ∃ x l', Pop NonceMinHeap_Less l = Ok (x, l') ∧ nonce_heap l' ∧ sortZ l = x :: sortZ l' ∧ l ≡ₚ x :: l'.
Proof.
  intros Hne Hh. destruct (Pop_spec _ less_ok_nonce l Hne Hh) as (x & l' & HP & _ & Hp & Hh' & Hle).
  exists x, l'. split_and!; try done. apply sortZ_unique; [by rewrite sort_slice_Permutation|].
  constructor; [apply sortZ_sorted|]. rewrite sort_slice_Permutation.
  eapply Forall_impl; [exact Hle|]. intros y. apply Z.ltb_ge.
Qed.

(** Popping [k] times gives the [k] smallest nonces in order. *)
Lemma pop_n_sorted k l :
  (k ≤ length l)%nat → nonce_heap l →
  ∃ l', pop_n k l = Ok (take k (sortZ l), l') ∧ nonce_heap l' ∧ sortZ l' = drop k (sortZ l) ∧
    (length l' = length l - k)%nat.
Proof.
  revert l. induction k as [|k IH]; intros l Hk Hh; cbn [pop_n].
  { exists l. rewrite take_0, drop_0. split_and!; try done. lia. }
  destruct (Pop_sorted l) as (x & l' & HP & Hh' & Hs & Hp); [by destruct l; [cbn in Hk; lia|]|done|].
  assert (length l = S (length l')) as Hlen by by rewrite Hp.
  destruct (IH l') as (l'' & Hn & Hh'' & Hs'' & Hlen''); [lia|done|].
  exists l''. rewrite HP. cbn [mbind res_bind]. rewrite Hn. cbn [mbind res_bind]. rewrite Hs. cbn [take drop].
  split_and!; try done. lia.
Qed.

(** The longest run of consecutive nonces after [prev] at the head of [l]. *)
Fixpoint consecutive (prev : Z) (l : list Z) : list Z :=
  match l with
  | [] => []
  | x :: l => if decide (x ≠ u64 (prev + 1)) then [] else x :: consecutive x l
  end.

Lemma promotable_loop_spec l prev :
  nonce_heap l → promotable_loop (length l) prev l = Ok (consecutive prev (sortZ l)).
Proof.
  remember (length l) as k eqn:Hk. revert l prev Hk. induction k as [|k IH]; intros l prev Hk Hh; cbn [promotable_loop].
  { by destruct l. }
  destruct (Pop_sorted l) as (x & l' & HP & Hh' & Hs & Hp); [by destruct l|done|].
  assert (length l = S (length l')) as Hlen by by rewrite Hp.
  rewrite HP, Hs. cbn [mbind res_bind consecutive]. case_decide; [done|]. rewrite (IH l' x) by (done || lia). done.
Qed.

Lemma consecutive_run prev l :
  u64_ok prev → Forall u64_ok l → StronglySorted Z.lt l → Forall (Z.lt prev) l →
  ∃ m, 0 ≤ m ∧ consecutive prev l = seqZ (prev + 1) m ∧ consecutive prev l ⊆ l ∧ prev + 1 + m ∉ l.
Proof.
  intros Hprev Hok Hs. revert prev Hprev Hok. induction Hs as [|x l Hs IH Hx]; intros prev Hprev Hok Hgt; cbn [consecutive].
  { exists 0. split_and!; [done|done|done|by intros ?%elem_of_nil]. }
  apply Forall_cons in Hok as [Hxok Hok]. apply Forall_cons in Hgt as [Hpx Hgt]. unfold u64_ok in *.
  rewrite u64_small by (unfold u64_ok; lia). case_decide as Hd.
  - exists 0. split_and!; [done|done|apply list_subseteq_nil|]. rewrite Z.add_0_r. rewrite Forall_forall in Hx.
    intros [Heq|Hin]%elem_of_cons; [lia|]. specialize (Hx _ Hin). lia.
  - assert (x = prev + 1) as -> by lia. destruct (IH (prev + 1)) as (m & Hm0 & Hm & Hsub & Hnot); [lia|done|done|].
    exists (m + 1). split_and!; [lia| | |].
    + rewrite Hm, (seqZ_cons (prev + 1)) by lia. f_equal. f_equal; lia.
    + by apply list_subseteq_skip.
    + replace (prev + 1 + (m + 1)) with (prev + 1 + 1 + m) by lia. intros [Heq|Hin]%elem_of_cons; [lia|done].
Qed.

(** ** The invariant of an account list *)

Record at_ok (a : addressTransactions) : Prop := {
  ok_heap : nonce_heap (at_nonces a);
  ok_NoDup : NoDup (at_nonces a);
  ok_dom n : n ∈ at_nonces a ↔ is_Some (at_transactions a !! n);
  ok_key n w : at_transactions a !! n = Some w → tw_Nonce w = n ∧ u64_ok n;
  ok_sorted : StronglySorted Z.lt (at_processables a);
  ok_processable : at_processables a ⊆ at_nonces a;
  ok_size : len (at_nonces a) ≤ at_maxSize a;
}.

Lemma nonces_ok a : at_ok a → Forall u64_ok (at_nonces a).
Proof.
  intros Ha. apply Forall_forall. intros n [w Hw]%(ok_dom a Ha). by apply (ok_key a Ha) in Hw as [_ ?].
Qed.

Lemma newAddressTransactions_ok address maxSize diff :
  0 ≤ maxSize → at_ok (newAddressTransactions address maxSize diff).
Proof.
  intros Hm. split; cbn.
  - intros c Hc. cbn in Hc. lia.
  - constructor.
  - intros n. rewrite lookup_empty, is_Some_alt. apply elem_of_nil.
  - intros n w. by rewrite lookup_empty.
  - constructor.
  - done.
  - done.
Qed.

Lemma demoteAfter_processables target a :
  at_ok a → at_processables (at_demoteAfter target a) = filter (λ n, n < target) (at_processables a).
Proof.
  intros Ha. cbn. apply sortZ_id. pose proof (ok_sorted a Ha) as Hs.
  induction Hs as [|x l Hs IH Hx]; [constructor|]. rewrite filter_cons. case_decide; [|done].
  constructor; [done|].
  rewrite Forall_forall in *. intros y [_ Hy]%list_elem_of_filter. by apply Hx.
Qed.

Lemma demoteAfter_ok target a : at_ok a → at_ok (at_demoteAfter target a).
Proof.
  intros Ha. pose proof (demoteAfter_processables target a Ha) as Hp. destruct Ha. split; try done.
  - rewrite Hp. rewrite <- Hp. cbn. apply sortZ_lt, NoDup_filter. by apply sorted_lt_NoDup.
  - rewrite Hp. intros n [_ Hn]%list_elem_of_filter. by apply ok_processable0.
Qed.

(** The nonces without [target] form a heap again. *)
Lemma at_remove_ok target a : at_ok a → at_ok (at_remove target a).2.
Proof.
  intros Ha. unfold at_remove. destruct (at_transactions a !! target) as [w|] eqn:Hw; [|done].
  pose proof (demoteAfter_processables target a Ha) as Hp. pose proof (demoteAfter_ok target a Ha) as [].
  destruct Ha. assert (Init NonceMinHeap_Less (filter (λ n, n ≠ target) (at_nonces a)) ≡ₚ filter (λ n, n ≠ target) (at_nonces a)) as Hi
    by apply Init_Permutation.
  split; cbn [snd at_nonces at_transactions at_processables at_maxSize set_at_transactions set_at_nonces at_demoteAfter set_at_processables] in *.
  - apply Init_heap, less_ok_nonce.
  - rewrite Hi. by apply NoDup_filter.
  - intros n. rewrite Hi, list_elem_of_filter, ok_dom1. destruct (decide (n = target)) as [->|Hne].
    + rewrite lookup_delete_eq. split; [naive_solver|by intros [? ?]].
    + by rewrite lookup_delete_ne by done; naive_solver.
  - intros n v [_ Hv]%lookup_delete_Some. by apply ok_key1.
  - done.
  - intros n Hn. rewrite Hi. rewrite Hp in Hn. apply list_elem_of_filter in Hn as [Hlt Hn].
    apply list_elem_of_filter. split; [lia|by apply ok_processable1].
  - transitivity (len (at_nonces a)); [|done]. unfold len. rewrite Hi. apply inj_le, length_filter.
Qed.

Lemma maxNonce_spec a :
  Forall u64_ok (at_nonces a) →
  (∀ n, n ∈ at_nonces a → n ≤ at_maxNonce a) ∧ (at_nonces a ≠ [] → at_maxNonce a ∈ at_nonces a).
Proof.
  intros Hok. unfold at_maxNonce. set (f := λ max nonce : Z, if max <? nonce then nonce else max).
  assert (∀ l acc, acc ≤ foldl f acc l ∧ (∀ n, n ∈ l → n ≤ foldl f acc l) ∧ (foldl f acc l = acc ∨ foldl f acc l ∈ l)) as Hf.
  { induction l as [|x l IH]; intros acc; cbn [foldl]; [split_and!; [lia|by intros ? ?%elem_of_nil|by left]|].
    destruct (IH (f acc x)) as (H1 & H2 & H3). assert (acc ≤ f acc x ∧ x ≤ f acc x ∧ (f acc x = acc ∨ f acc x = x)) as (? & ? & Hfx).
    { subst f. cbn. destruct (Z.ltb_spec acc x); lia. }
    split_and!; [lia| |].
    - intros n [->|Hn]%elem_of_cons; [lia|by apply H2].
    - destruct H3 as [->|H3]; [|right; by apply elem_of_cons; right]. destruct Hfx as [-> | ->]; [by left|right; left]. }
  destruct (Hf (at_nonces a) 0) as (H1 & H2 & H3). split; [done|]. intros Hne. destruct H3 as [H3|]; [|done].
  destruct (at_nonces a) as [|x l]; [done|]. apply Forall_cons in Hok as [[? ?] _]. specialize (H2 x ltac:(left)).
  rewrite H3 in *. assert (x = 0) as -> by lia. left.
Qed.

(** The transactions that are processable satisfy [Q]. *)
Definition processable_all (Q : TransactionWithFeePriority → Prop) (a : addressTransactions) : Prop :=
  ∀ n w, n ∈ at_processables a → at_transactions a !! n = Some w → Q w.

Lemma at_remove_transactions target a :
  at_transactions (at_remove target a).2 = delete target (at_transactions a).
Proof.
  unfold at_remove. destruct (at_transactions a !! target) eqn:Hw; [done|]. cbn. by rewrite delete_id.
Qed.

Lemma at_remove_processables target a :
  at_ok a → at_processables (at_remove target a).2 ⊆ at_processables a.
Proof.
  intros Ha. unfold at_remove. destruct (at_transactions a !! target) eqn:Hw; [|done].
  cbn. intros n [_ Hn]%elem_of_sort_slice%list_elem_of_filter. done.
Qed.

Lemma at_remove_nonces target a :
  at_ok a → is_Some (at_transactions a !! target) → at_nonces a ≡ₚ target :: at_nonces (at_remove target a).2.
Proof.
  intros Ha Hs. pose proof (at_remove_ok target a Ha) as Hr. apply NoDup_Permutation.
  - apply Ha.
  - constructor; [|apply Hr]. intros [w Hw]%(ok_dom _ Hr). rewrite at_remove_transactions, lookup_delete_eq in Hw. done.
  - intros n. rewrite elem_of_cons, (ok_dom _ Hr), (ok_dom _ Ha), at_remove_transactions.
    destruct (decide (n = target)) as [->|Hne]; [naive_solver|]. rewrite lookup_delete_ne by done. naive_solver.
Qed.

Lemma at_remove_frame target a :
  let a' := (at_remove target a).2 in
  at_address a' = at_address a ∧ at_maxSize a' = at_maxSize a ∧
  at_minReplacementFeeDifference a' = at_minReplacementFeeDifference a.
Proof. cbn. unfold at_remove. by destruct (at_transactions a !! target). Qed.

(** The tail of [Add]: a transaction whose nonce is free. *)
Definition at_insert (w : TransactionWithFeePriority) (a : addressTransactions) : addressTransactions :=
  set_at_nonces (Push NonceMinHeap_Less (tw_Nonce w) (at_nonces a))
    (set_at_transactions (<[tw_Nonce w := w]> (at_transactions a)) a).

Lemma at_insert_ok w a :
  at_ok a → u64_ok (tw_Nonce w) → at_transactions a !! tw_Nonce w = None →
  len (at_nonces a) + 1 ≤ at_maxSize a → at_ok (at_insert w a).
Proof.
  intros [] Hn Hw Hlen. pose proof (Push_Permutation NonceMinHeap_Less (tw_Nonce w) (at_nonces a)) as Hp.
  assert (tw_Nonce w ∉ at_nonces a) as Hni by (rewrite ok_dom0, Hw; by intros [? ?]).
  split; cbn [at_insert at_nonces at_transactions at_processables at_maxSize set_at_transactions set_at_nonces].
  - by apply Push_heap; [apply less_ok_nonce|].
  - rewrite Hp. by constructor.
  - intros n. rewrite Hp, elem_of_cons, ok_dom0. destruct (decide (n = tw_Nonce w)) as [->|Hne].
    + rewrite lookup_insert_eq. naive_solver.
    + rewrite lookup_insert_ne by done. naive_solver.
  - intros n v. rewrite lookup_insert_Some. intros [[<- <-]|[_ Hv]]; [done|by apply ok_key0].
  - done.
  - intros n Hin. rewrite Hp. right. by apply ok_processable0.
  - unfold len in *. rewrite Hp. cbn. lia.
Qed.

Lemma at_replace_ok w a :
  at_ok a → is_Some (at_transactions a !! tw_Nonce w) →
  at_ok (set_at_transactions (<[tw_Nonce w := w]> (at_transactions a)) (at_demoteAfter (tw_Nonce w) a)).
Proof.
  intros Ha [v Hv]. pose proof (ok_key a Ha _ _ Hv) as [_ Hu]. apply (demoteAfter_ok (tw_Nonce w)) in Ha as [].
  split; try done.
  - intros n. rewrite ok_dom0. cbn. destruct (decide (n = tw_Nonce w)) as [->|Hne].
    + rewrite lookup_insert_eq, Hv. naive_solver.
    + by rewrite lookup_insert_ne by done.
  - cbn. intros n u. rewrite lookup_insert_Some. intros [[<- <-]|[_ Hu']]; [done|by apply ok_key0].
Qed.

Lemma at_processable_ok n a :
  at_ok a → at_processables a = [] → n ∈ at_nonces a → at_ok (set_at_processables [n] a).
Proof.
  intros [] Hp Hn. split; try done; cbn; [repeat constructor|]. by intros ? ->%list_elem_of_singleton.
Qed.

(** What [Add] does when the flag [processable] is not set, as in the pool. *)
Inductive add_case (w : TransactionWithFeePriority) (a : addressTransactions) : add_result → addressTransactions → Prop :=
| add_rejected e :
    add_case w a (mkAddResult false None (Some e)) a
| add_replaced v :
    at_transactions a !! tw_Nonce w = Some v →
    add_case w a (mkAddResult true (Some (tw_ID v)) None)
      (set_at_transactions (<[tw_Nonce w := w]> (at_transactions a)) (at_demoteAfter (tw_Nonce w) a))
| add_fits :
    at_transactions a !! tw_Nonce w = None → len (at_nonces a) + 1 ≤ at_maxSize a →
    add_case w a (mkAddResult true None None) (at_insert w a)
| add_evicts :
    at_transactions a !! tw_Nonce w = None → at_maxSize a < len (at_nonces a) + 1 → tw_Nonce w ≤ at_maxNonce a →
    add_case w a (mkAddResult true (at_remove (at_maxNonce a) a).1 None) (at_insert w (at_remove (at_maxNonce a) a).2).

Lemma at_Add_case w a : add_case w a (at_Add w false a).1 (at_Add w false a).2.
Proof.
  unfold at_Add. destruct (at_transactions a !! tw_Nonce w) as [v|] eqn:Hv.
  { destruct (_ <? _); by constructor. }
  destruct (Z.ltb_spec (at_maxSize a) (len (at_nonces a) + 1)) as [Hm|Hm]; [|by constructor].
  destruct (Z.ltb_spec (at_maxNonce a) (tw_Nonce w)) as [Hn|Hn]; [constructor|].
  pose proof (add_evicts w a Hv Hm Hn) as Hc. by destruct (at_remove (at_maxNonce a) a).
Qed.

Section add.
Context (w : TransactionWithFeePriority) (a : addressTransactions).
Context (Ha : at_ok a) (Hw : u64_ok (tw_Nonce w)) (Hsize : 1 ≤ at_maxSize a).
#[local] Abbreviation r := (at_Add w false a).1.
#[local] Abbreviation a' := (at_Add w false a).2.

Lemma evict_free :
  at_transactions a !! tw_Nonce w = None → at_maxSize a < len (at_nonces a) + 1 →
  at_transactions (at_remove (at_maxNonce a) a).2 !! tw_Nonce w = None ∧
  len (at_nonces (at_remove (at_maxNonce a) a).2) + 1 ≤ at_maxSize a.
Proof using Ha Hsize.
  intros Hnone Hfull. rewrite at_remove_transactions, lookup_delete_None. split; [by right|].
  destruct (maxNonce_spec a (nonces_ok a Ha)) as [_ Hin]. pose proof (ok_size a Ha).
  assert (at_maxNonce a ∈ at_nonces a) as Hm by (apply Hin; intros E; rewrite E, len_nil in Hfull; lia).
  pose proof (at_remove_nonces (at_maxNonce a) a Ha ltac:(by apply (ok_dom a Ha))) as Hp.
  unfold len in *. rewrite Hp in *. cbn in *. lia.
Qed.

Lemma at_Add_ok : at_ok a'.
Proof using Ha Hw Hsize.
  destruct (at_Add_case w a) as [e|v Hv|Hv Hl|Hv Hl Hn]; [done| | |].
  - apply at_replace_ok; [done|eauto].
  - by apply at_insert_ok.
  - destruct (evict_free Hv Hl) as [? ?]. apply at_insert_ok; [by apply at_remove_ok|done|done|].
    by destruct (at_remove_frame (at_maxNonce a) a) as (_ & -> & _).
Qed.

Lemma at_Add_frame :
  at_address a' = at_address a ∧ at_maxSize a' = at_maxSize a ∧
  at_minReplacementFeeDifference a' = at_minReplacementFeeDifference a.
Proof using.
  destruct (at_Add_case w a) as [e|v Hv|Hv Hl|Hv Hl Hn]; [done..|]. apply at_remove_frame.
Qed.

(** An added transaction is the one of its nonce; the others are those of
    before, and no transaction becomes processable. *)
Lemma at_Add_transactions :
  (ar_ok r = true → at_transactions a' !! tw_Nonce w = Some w) ∧
  (ar_ok r = false → a' = a) ∧
  (∀ n v, at_transactions a' !! n = Some v → v = w ∨ at_transactions a !! n = Some v).
Proof using.
  destruct (at_Add_case w a) as [e|v Hv|Hv Hl|Hv Hl Hn]; cbn.
  - split_and!; [done|done|by right].
  - rewrite lookup_insert_eq. split_and!; [done|done|]. intros n u [[_ <-]|[_ ?]]%lookup_insert_Some; [by left|by right].
  - rewrite lookup_insert_eq. split_and!; [done|done|]. intros n u [[_ <-]|[_ ?]]%lookup_insert_Some; [by left|by right].
  - rewrite lookup_insert_eq, at_remove_transactions. split_and!; [done|done|].
    intros n u [[_ <-]|[_ [_ ?]%lookup_delete_Some]]%lookup_insert_Some; [by left|by right].
Qed.

Lemma at_Add_processables (Q : TransactionWithFeePriority → Prop) :
  processable_all Q a → processable_all Q a'.
Proof using Ha.
  intros HQ. destruct (at_Add_case w a) as [e|v Hv|Hv Hl|Hv Hl Hn]; [done| | |]; intros n u Hn' Hu; cbn in Hu.
  - change (n ∈ at_processables (at_demoteAfter (tw_Nonce w) a)) in Hn'.
    rewrite (demoteAfter_processables (tw_Nonce w) a Ha) in Hn'. apply list_elem_of_filter in Hn' as [Hlt Hn'].
    apply lookup_insert_Some in Hu as [[<- _]|[_ Hu]]; [lia|by apply (HQ n)].
  - apply lookup_insert_Some in Hu as [[<- _]|[_ Hu]]; [|by apply (HQ n)].
    apply (ok_processable a Ha), (ok_dom a Ha) in Hn'. rewrite Hv in Hn'. by destruct Hn'.
  - apply (at_remove_processables _ _ Ha) in Hn'.
    apply lookup_insert_Some in Hu as [[<- _]|[_ Hu]].
    + apply (ok_processable a Ha), (ok_dom a Ha) in Hn'. rewrite Hv in Hn'. by destruct Hn'.
    + rewrite at_remove_transactions in Hu. apply lookup_delete_Some in Hu as [_ Hu]. by apply (HQ n).
Qed.
End add.

Lemma at_remove_processable_all Q target a :
  at_ok a → processable_all Q a → processable_all Q (at_remove target a).2.
Proof.
  intros Ha HQ n u Hn Hu. apply (at_remove_processables _ _ Ha) in Hn.
  rewrite at_remove_transactions in Hu. apply lookup_delete_Some in Hu as [_ Hu]. by apply (HQ n).
Qed.

(** *** [Promote] *)

Lemma promoting_lookups a nonces :
  at_ok a → nonces ⊆ at_nonces a → promoting a (lookups a nonces) = Ok (Some nonces).
Proof.
  intros Ha. induction nonces as [|n nonces IH]; intros Hs; [done|]. cbn [lookups fmap list_fmap promoting].
  assert (is_Some (at_transactions a !! n)) as [w Hw] by (apply (ok_dom a Ha), Hs; left).
  rewrite Hw. pose proof (ok_key a Ha _ _ Hw) as [Hk _]. rewrite Hk, Hw, decide_False by (intros ?; done).
  unfold lookups in IH. rewrite IH by (intros ? ?; apply Hs; by right). done.
Qed.

Lemma promoting_Some a txs nonces :
  promoting a txs = Ok (Some nonces) →
  Forall2 (λ o n, ∃ w v, o = Some w ∧ tw_Nonce w = n ∧ at_transactions a !! n = Some v ∧ tw_ID v = tw_ID w) txs nonces.
Proof.
  revert nonces. induction txs as [|[w|] txs IH]; intros nonces; cbn [promoting]; [by intros [= <-]| |done].
  destruct (at_transactions a !! tw_Nonce w) as [v|] eqn:Hv; [|done]. case_decide as Hd; [done|].
  destruct (promoting a txs) as [[rest|]| | |] eqn:Hp; cbn; try done. intros [= <-].
  constructor; [|by apply IH]. exists w, v. split_and!; try done.
Qed.

Lemma at_Promote_Ok txs a b a' :
  at_Promote txs a = Ok (b, a') →
  (b = false ∧ a' = a) ∨
  (b = true ∧ ∃ nonces, promoting a txs = Ok (Some nonces) ∧
     a' = set_at_processables (sortZ (elements (list_to_set (at_processables a ++ nonces) : gset Z))) a).
Proof.
  unfold at_Promote. destruct (promoting a txs) as [[nonces|]| | |]; cbn; try done; intros [= <- <-]; [right|left]; eauto.
Qed.

Lemma elem_of_promoted (x : Z) l : x ∈ sortZ (elements (list_to_set l : gset Z)) ↔ x ∈ l.
Proof. by rewrite elem_of_sort_slice, elem_of_elements, elem_of_list_to_set. Qed.

Lemma at_Promote_ok txs a b a' : at_ok a → at_Promote txs a = Ok (b, a') → at_ok a'.
Proof.
  intros Ha [[_ ->]|(_ & nonces & Hp & ->)]%at_Promote_Ok; [done|]. destruct Ha. split; try done; cbn.
  - apply sortZ_lt, NoDup_elements.
  - intros n [Hn|Hn]%elem_of_promoted%elem_of_app; [by apply ok_processable0|].
    apply promoting_Some in Hp. apply list_elem_of_lookup in Hn as [i Hi].
    destruct (Forall2_lookup_r _ _ _ _ _ Hp Hi) as (o & _ & w & v & _ & _ & Hv & _).
    apply ok_dom0. eauto.
Qed.

(** ** What is promotable *)

Lemma NoDup_subset_length (l k : list Z) : NoDup l → l ⊆ k → (length l ≤ length k)%nat.
Proof. intros Hnd Hs. by apply submseteq_length, NoDup_submseteq. Qed.

Lemma processables_length a : at_ok a → (length (at_processables a) ≤ length (at_nonces a))%nat.
Proof. intros Ha. apply NoDup_subset_length; [by apply sorted_lt_NoDup, Ha|apply Ha]. Qed.

(** The nonce the next promotable transaction has. *)
Definition next_nonce (a : addressTransactions) : Z :=
  match last (at_processables a) with
  | Some p => p + 1
  | None => default 0 (head (sortZ (at_nonces a)))
  end.

(** The pending nonces all lie above the processable ones. *)
Definition pending_above (a : addressTransactions) : Prop :=
  ∀ n p, n ∈ at_nonces a → n ∉ at_processables a → p ∈ at_processables a → p < n.

(** [GetPromotable] in terms of the sorted nonces. *)
Lemma GetPromotable_sorted a :
  at_ok a →
  at_GetPromotable a = Ok (lookups a
    match drop (length (at_processables a)) (sortZ (at_nonces a)) with
    | [] => []
    | first :: rest =>
        if match last (at_processables a) with Some p => bool_decide (first ≠ u64 (p + 1)) | None => false end
        then [] else first :: consecutive first rest
    end).
Proof.
  intros Ha. pose proof (processables_length a Ha) as Hpl.
  pose proof (length_sort_slice Z.ltb (at_nonces a)) as Hsl. unfold at_GetPromotable, len.
  destruct (Z.eqb_spec (Z.of_nat (length (at_nonces a))) 0) as [E|E]; [by rewrite drop_ge by lia|].
  destruct (Z.eqb_spec (Z.of_nat (length (at_nonces a))) (Z.of_nat (length (at_processables a)))) as [E2|E2];
    [by rewrite drop_ge by lia|].
  destruct (pop_n_sorted (length (at_processables a)) (at_nonces a) Hpl (ok_heap a Ha)) as (l & -> & Hh & Hs & Hl).
  cbn [mbind res_bind]. destruct (Z.eqb_spec (Z.of_nat (length l)) 0) as [E3|E3]; [lia|].
  destruct (Pop_sorted l) as (x & l' & HP & Hh' & Hs' & _); [by destruct l|done|].
  rewrite HP, <- Hs, Hs'. cbn [mbind res_bind]. destruct (match last _ with Some _ => _ | None => _ end); [done|].
  by rewrite promotable_loop_spec.
Qed.

Lemma pending_above_sorted a :
  at_ok a → pending_above a →
  sortZ (at_nonces a) = at_processables a ++ drop (length (at_processables a)) (sortZ (at_nonces a)).
Proof.
  intros Ha Hab. set (rest := sortZ (filter (λ n, n ∉ at_processables a) (at_nonces a))).
  assert (sortZ (at_nonces a) = at_processables a ++ rest) as ->; [|by rewrite drop_app_length].
  pose proof (sorted_lt_NoDup _ (ok_sorted a Ha)) as Hnd. pose proof (ok_NoDup a Ha) as Hnd2.
  assert (∀ x, x ∈ rest ↔ x ∉ at_processables a ∧ x ∈ at_nonces a) as Hr.
  { intros x. unfold rest. by rewrite elem_of_sort_slice, list_elem_of_filter. }
  apply sortZ_unique.
  - apply NoDup_Permutation; [|done|].
    + apply NoDup_app. split_and!; [done| |unfold rest; rewrite sort_slice_Permutation; by apply NoDup_filter].
      intros x Hx [? _]%Hr. done.
    + intros x. rewrite elem_of_app, Hr. pose proof (ok_processable a Ha x).
      destruct (decide (x ∈ at_processables a)); tauto.
  - apply StronglySorted_app. split_and!; [|by apply sorted_lt_le, Ha|apply sortZ_sorted].
    intros p n Hp [Hn1 Hn2]%Hr. pose proof (Hab n p Hn2 Hn1 Hp). lia.
Qed.

Lemma lookups_Some a nonces : at_ok a → nonces ⊆ at_nonces a → Forall is_Some (lookups a nonces).
Proof.
  intros Ha Hs. apply Forall_fmap, Forall_forall. intros n Hn. by apply (ok_dom a Ha), Hs.
Qed.

Lemma not_pending a n : at_ok a → n ∉ at_nonces a → at_transactions a !! n = None.
Proof. intros Ha Hn. apply eq_None_not_Some. by rewrite <- (ok_dom a Ha). Qed.

Lemma sorted_last l p x : StronglySorted Z.lt l → last l = Some p → x ∈ l → x ≤ p.
Proof.
  intros Hs [k ->]%last_Some Hx. apply StronglySorted_app in Hs as (Hlt & _ & _).
  apply elem_of_app in Hx as [Hx|Hx%list_elem_of_singleton]; [|lia]. specialize (Hlt x p Hx ltac:(left)). lia.
Qed.

Lemma run_of_first a P first rest :
  at_ok a → sortZ (at_nonces a) = P ++ first :: rest →
  ∃ m, 0 ≤ m ∧ first :: consecutive first rest = seqZ first m ∧
    first :: consecutive first rest ⊆ at_nonces a ∧ first + m ∉ at_nonces a.
Proof.
  intros Ha Hs. pose proof (sortZ_lt _ (ok_NoDup a Ha)) as Hlt. pose proof (nonces_ok a Ha) as Hok.
  rewrite <- (sort_slice_Permutation Z.ltb) in Hok. rewrite Hs in Hlt, Hok.
  apply StronglySorted_app in Hlt as (Hcross & _ & Hfr). inversion Hfr as [|? ? Hr Hfr']; subst.
  apply Forall_app in Hok as [_ [Hf Hrok]%Forall_cons].
  destruct (consecutive_run first rest Hf Hrok Hr Hfr') as (m & Hm & Hrun & Hsub & Hnot).
  exists (m + 1). split_and!; [lia| | |].
  - rewrite Hrun, (seqZ_cons first) by lia. f_equal. f_equal; lia.
  - intros x Hx. rewrite <- (elem_of_sort_slice Z.ltb), Hs. apply elem_of_app. right.
    apply elem_of_cons in Hx as [->|Hx]; [left|right; by apply Hsub].
  - rewrite <- (elem_of_sort_slice Z.ltb), Hs. intros [Hin|[Hin|Hin]%elem_of_cons]%elem_of_app; [|lia|].
    + specialize (Hcross _ first Hin ltac:(left)). lia.
    + apply Hnot. by replace (first + 1 + m) with (first + (m + 1)) by lia.
Qed.

(** When every pending nonce of an account lies above its processable
    ones, [GetPromotable] returns exactly the transactions that continue the
    processable ones without a gap: the longest run of consecutive nonces from
    the successor of the highest processable nonce, or from the lowest nonce
    when nothing is processable yet. *)
Theorem GetPromotable_run a :
  at_ok a → pending_above a →
  ∃ m, 0 ≤ m ∧ at_GetPromotable a = Ok (lookups a (seqZ (next_nonce a) m)) ∧
    Forall is_Some (lookups a (seqZ (next_nonce a) m)) ∧
    at_transactions a !! (next_nonce a + m) = None.
Proof.
  intros Ha Hab. rewrite (GetPromotable_sorted a Ha). pose proof (pending_above_sorted a Ha Hab) as Hs.
  set (rest := drop _ _) in *. set (P := at_processables a) in *.
  assert (next_nonce a ∉ at_nonces a → ∃ m, 0 ≤ m ∧ Ok (lookups a []) = Ok (lookups a (seqZ (next_nonce a) m)) ∧
    Forall is_Some (lookups a (seqZ (next_nonce a) m)) ∧ at_transactions a !! (next_nonce a + m) = None) as Hnone.
  { intros Hn. exists 0. split_and!; [done|done|constructor|]. rewrite Z.add_0_r. by apply not_pending. }
  assert (∀ x p, last P = Some p → x ∈ P → x ≤ p) as Hlast.
  { intros x p Hp. apply sorted_last; [apply Ha|done]. }
  destruct rest as [|first rest'] eqn:Er.
  { apply Hnone. unfold next_nonce. fold P. rewrite <- (elem_of_sort_slice Z.ltb), Hs, app_nil_r.
    destruct (last P) as [p|] eqn:Ep; [intros Hx; specialize (Hlast _ _ eq_refl Hx); lia|].
    apply last_None in Ep as ->. apply not_elem_of_nil. }
  assert (∀ p, last P = Some p → p < first ∧ u64 (p + 1) = p + 1) as Hp.
  { intros p Hp. pose proof (sortZ_lt _ (ok_NoDup a Ha)) as Hlt. pose proof (nonces_ok a Ha) as Hok.
    rewrite <- (sort_slice_Permutation Z.ltb), Hs in Hok. rewrite Hs in Hlt. apply StronglySorted_app in Hlt as (Hc & _ & _).
    apply last_Some in Hp as [k Hk]. assert (p ∈ P) as HpP by (rewrite Hk; apply elem_of_app; right; left).
    specialize (Hc p first HpP ltac:(left)). rewrite Forall_app, Forall_cons in Hok. destruct Hok as (Hok1 & Hf & _).
    rewrite Forall_forall in Hok1. specialize (Hok1 _ HpP). unfold u64_ok in *. split; [done|]. apply u64_small. unfold u64_ok. lia. }
  assert (next_nonce a = first → ∃ m, 0 ≤ m ∧ Ok (lookups a (first :: consecutive first rest')) = Ok (lookups a (seqZ (next_nonce a) m)) ∧
    Forall is_Some (lookups a (seqZ (next_nonce a) m)) ∧ at_transactions a !! (next_nonce a + m) = None) as Hrun.
  { intros ->. destruct (run_of_first a P first rest' Ha Hs) as (m & Hm & Hr & Hsub & Hnot).
    exists m. rewrite <- Hr. split_and!; [done|done|by apply lookups_Some|by apply not_pending]. }
  unfold next_nonce in *. fold P in Hrun, Hnone |- *. destruct (last P) as [p|] eqn:Ep.
  - destruct (Hp p eq_refl) as [Hlt Hu]. rewrite Hu in *. case_bool_decide as Hd; [|by apply Hrun].
    apply Hnone. rewrite <- (elem_of_sort_slice Z.ltb), Hs. intros [Hx|Hx]%elem_of_app; [specialize (Hlast _ _ eq_refl Hx); lia|].
    pose proof (sortZ_lt _ (ok_NoDup a Ha)) as Hsl. rewrite Hs in Hsl. apply StronglySorted_app in Hsl as (_ & _ & Hfr).
    inversion Hfr as [|? ? _ Hfr']; subst. rewrite Forall_forall in Hfr'.
    apply elem_of_cons in Hx as [Hx|Hx]; [lia|specialize (Hfr' _ Hx); lia].
  - apply Hrun. apply last_None in Ep. rewrite Hs, Ep. done.
Qed.

(** When a pending nonce lies below a processable one, the smallest nonces
    are not the processable ones, so the first nonce left in the heap is one
    of the processable range. *)
Lemma first_left_below a n q first rest :
  at_ok a → n ∈ at_nonces a → n ∉ at_processables a → last (at_processables a) = Some q → n < q →
  drop (length (at_processables a)) (sortZ (at_nonces a)) = first :: rest → 0 < first ≤ q.
Proof.
  intros Ha Hn HnP Hq Hnq Hd. pose proof (take_drop (length (at_processables a)) (sortZ (at_nonces a))) as Hs.
  set (T := take _ _) in Hs. rewrite Hd in Hs.
  assert (length T = length (at_processables a)) as HT.
  { unfold T. rewrite length_take, length_sort_slice. pose proof (processables_length a Ha). lia. }
  pose proof (sortZ_lt _ (ok_NoDup a Ha)) as Hlt. rewrite <- Hs in Hlt. apply StronglySorted_app in Hlt as (Hc & _ & Hfr).
  inversion Hfr as [|? ? _ Hfr']; subst. rewrite Forall_forall in Hfr'.
  assert (∀ x, x ∈ at_nonces a → x < first → x ∈ T) as HinT.
  { intros x Hx Hxf. rewrite <- (elem_of_sort_slice Z.ltb), <- Hs in Hx.
    apply elem_of_app in Hx as [?|[->|Hx]%elem_of_cons]; [done|lia|]. specialize (Hfr' x Hx). lia. }
  assert (∃ t, t ∈ T) as [t Ht].
  { destruct T as [|t T]; [|exists t; left]. by destruct (at_processables a). }
  assert (t ∈ at_nonces a) as Htn by (rewrite <- (elem_of_sort_slice Z.ltb), <- Hs; apply elem_of_app; by left).
  pose proof (nonces_ok a Ha) as Hok. rewrite Forall_forall in Hok. pose proof (Hok t Htn) as [? _].
  specialize (Hc t first Ht ltac:(left)). split; [lia|]. destruct (decide (first ≤ q)) as [|Hgt]; [done|exfalso].
  assert (length (n :: at_processables a) ≤ length T)%nat as Hlen; [|cbn in Hlen; lia].
  apply NoDup_subset_length; [constructor; [done|by apply sorted_lt_NoDup, Ha]|].
  intros x [->|Hx]%elem_of_cons; [apply HinT; [done|lia]|]. apply HinT; [by apply (ok_processable a Ha)|].
  pose proof (sorted_last _ _ _ (ok_sorted a Ha) Hq Hx). lia.
Qed.

(** As soon as an account holds a pending nonce below a processable one,
    [GetPromotable] returns nothing, whatever else the account holds: neither
    that transaction nor any later one is promoted any more. *)
Theorem GetPromotable_stalls a n p :
  at_ok a → n ∈ at_nonces a → n ∉ at_processables a → p ∈ at_processables a → n < p →
  at_GetPromotable a = Ok [].
Proof.
  intros Ha Hn HnP Hp Hnp. rewrite (GetPromotable_sorted a Ha).
  destruct (last (at_processables a)) as [q|] eqn:Hq; [|apply last_None in Hq; rewrite Hq in Hp; by apply elem_of_nil in Hp].
  pose proof (sorted_last _ _ _ (ok_sorted a Ha) Hq Hp) as Hpq.
  destruct (drop _ _) as [|first rest] eqn:Hd; [done|].
  destruct (first_left_below a n q first rest Ha Hn HnP Hq) as [H0 Hle]; [lia|done|].
  rewrite bool_decide_true; [done|]. unfold u64. pose proof (nonces_ok a Ha) as Hok. rewrite Forall_forall in Hok.
  pose proof (Hok p (ok_processable a Ha p Hp)) as [Hp0 _].
  apply last_Some in Hq as [k Hk]. destruct (Hok q) as [_ Hq64].
  { apply (ok_processable a Ha). rewrite Hk. apply elem_of_app. right. left. }
  destruct (decide (q + 1 = 2 ^ 64)) as [->|?]; [rewrite Z.mod_same by lia; lia|rewrite Z.mod_small; lia].
Qed.

Lemma consecutive_prefix prev l : consecutive prev l `prefix_of` l.
Proof.
  revert prev. induction l as [|x l IH]; intros prev; cbn [consecutive]; [done|].
  case_decide; [apply prefix_nil|]. by apply prefix_cons.
Qed.

(** The promotable nonces are nonces of the account and not processable yet. *)
Lemma GetPromotable_nonces a :
  at_ok a → ∃ ns, at_GetPromotable a = Ok (lookups a ns) ∧ at_processables a ++ ns ⊆ at_nonces a ∧
    NoDup (at_processables a ++ ns).
Proof.
  intros Ha. pose proof (sorted_lt_NoDup _ (ok_sorted a Ha)) as HndP. pose proof (ok_processable a Ha) as HP.
  assert (at_processables a ++ [] ⊆ at_nonces a ∧ NoDup (at_processables a ++ [])) as Hnil by by rewrite app_nil_r.
  rewrite (GetPromotable_sorted a Ha). destruct (drop _ _) as [|first rest] eqn:Hd; [by exists []|].
  destruct (match last (at_processables a) with Some _ => _ | None => _ end) eqn:Hgap; [by exists []|].
  exists (first :: consecutive first rest). split; [done|].
  pose proof (take_drop (length (at_processables a)) (sortZ (at_nonces a))) as Hs. rewrite Hd in Hs. set (T := take _ _) in Hs.
  pose proof (sortZ_lt _ (ok_NoDup a Ha)) as Hlt. rewrite <- Hs in Hlt. apply StronglySorted_app in Hlt as (Hc & _ & Hfr).
  assert (first :: consecutive first rest `prefix_of` first :: rest) as [k Hk] by apply prefix_cons, consecutive_prefix.
  set (ns := first :: consecutive first rest) in *. rewrite Hk in Hs, Hfr. apply StronglySorted_app in Hfr as (_ & Hns & _).
  assert (ns ⊆ at_nonces a) as Hsub.
  { intros x Hx. rewrite <- (elem_of_sort_slice Z.ltb), <- Hs. apply elem_of_app. right. apply elem_of_app. by left. }
  split; [intros x [Hx|Hx]%elem_of_app; auto|]. apply NoDup_app. split_and!; [done| |by apply sorted_lt_NoDup].
  intros x HxP Hx. destruct (last (at_processables a)) as [q|] eqn:Hq; [|apply last_None in Hq; rewrite Hq in HxP; by apply elem_of_nil in HxP].
  apply bool_decide_eq_false, dec_stable in Hgap. pose proof (sorted_last _ _ _ (ok_sorted a Ha) Hq HxP) as Hxq.
  assert (first ≤ x) as Hfx.
  { inversion Hns as [|? ? _ HF]; subst. rewrite Forall_forall in HF. apply elem_of_cons in Hx as [->|Hx]; [lia|specialize (HF x Hx); lia]. }
  pose proof (nonces_ok a Ha) as Hok. rewrite Forall_forall in Hok.
  assert (u64_ok q) as [Hq0 Hq1] by (apply Hok, HP; apply last_Some in Hq as [? ->]; apply elem_of_app; right; left).
  unfold u64 in Hgap. destruct (decide (q + 1 = 2 ^ 64)) as [E|E]; [|rewrite Z.mod_small in Hgap by lia; lia].
  rewrite E, Z.mod_same in Hgap by lia. destruct T as [|t T'] eqn:ET.
  { apply (f_equal length) in ET. unfold T in ET. rewrite length_take, length_sort_slice in ET. pose proof (processables_length a Ha).
    assert (length (at_processables a) = 0)%nat as E0%nil_length_inv by (cbn in ET; lia). by rewrite E0 in Hq. }
  assert (t ∈ at_nonces a) as [? _]%Hok by (rewrite <- (elem_of_sort_slice Z.ltb), <- Hs; left).
  specialize (Hc t first ltac:(left) ltac:(left)). lia.
Qed.

(** *** A sample account *)

Definition sample_tw (id nonce fee : Z) : TransactionWithFeePriority :=
  mkTransactionWithFeePriority (mkTransaction [id] 100 [] [] nonce fee [] [] []) (fee / 100) 0.

Definition sample_account : addressTransactions :=
  foldl (λ a w, (at_Add w false a).2) (newAddressTransactions [] 8 1)
    [sample_tw 1 7 1000; sample_tw 2 5 1000; sample_tw 3 6 1000; sample_tw 4 9 1000].

(** The account after the promotion of nonces 5 to 7. *)
Definition sample_promoted : addressTransactions := set_at_processables [5; 6; 7] sample_account.

(** A transaction with nonce 3 arrives late. *)
Definition sample_late : addressTransactions := (at_Add (sample_tw 5 3 1000) false sample_promoted).2.

Lemma sample_account_ok : at_ok sample_account.
Proof.
  unfold sample_account. cbn [foldl]. repeat (apply at_Add_ok; [|done|done]). by apply newAddressTransactions_ok.
Qed.

Lemma sample_promoted_ok : at_ok sample_promoted.
Proof.
  apply (at_Promote_ok (lookups sample_account [5; 6; 7]) sample_account true); [apply sample_account_ok|].
  by vm_compute.
Qed.

Lemma sample_late_ok : at_ok sample_late.
Proof. by apply at_Add_ok; [apply sample_promoted_ok|..]. Qed.

Lemma GetPromotable_run_witness :
  at_GetPromotable sample_account = Ok (lookups sample_account [5; 6; 7]) ∧
  ∃ m, 0 ≤ m ∧ at_GetPromotable sample_account = Ok (lookups sample_account (seqZ (next_nonce sample_account) m)).
Proof.
  split; [by vm_compute|]. destruct (GetPromotable_run sample_account sample_account_ok) as (m & Hm & Hg & _);
    [|exists m; exact (conj Hm Hg)].
  assert (at_processables sample_account = []) as Hp by (vm_compute; reflexivity).
  intros n p _ _ Hin. rewrite Hp in Hin. by apply elem_of_nil in Hin.
Defined.

Lemma GetPromotable_stalls_witness : at_GetPromotable sample_late = Ok [].
Proof.
  apply (GetPromotable_stalls sample_late 3 5 sample_late_ok);
    [apply (bool_decide_unpack _); vm_compute; exact I..|lia].
Defined.
