(* ===== verification/TxPool.v ===== *)
(** * TxPool: the transaction pool

    pkg/txpool/txpool.go: the transactions by ID, the lists per account and
    the fee queue, the operations [Add], [Remove], the evictions, the
    reorganisation that promotes transactions, and the handlers of the peer
    messages.

    The operations run in a state monad over the pool whose results are
    [Returns], [Panics] and [Blocks]: the pool's RWMutex is part of the state,
    and taking it while the same call already holds it never returns.  The
    goroutines of [reorg] touch the lists of different accounts; they run one
    after the other, in the order of the map iteration.  The application's
    [VerifyTransaction], [conn.Publish], the clock and the iteration order of
    Go maps are parameters, and those of an operation may differ from those of
    the one before. *)

From S2P Require Import Prelude Collection Heap Codec CodecSpec Message Crypto BlockTypes Block TxList.

(** ** The environment *)

Class PoolEnv := {
  (** the [Result] of the response, [None] for an error.  An operation asks at
      most once about a transaction, so that a function describes what a stateful
      application answers during it; each operation of a run has its own. *)
  abi_VerifyTransaction : Transaction → option Z;
  (** whether the announcement is published without error *)
  conn_Publish : bytes → bool;
  (** [for k, v := range m] *)
  iterate : ∀ {A}, gmap bytes A → list (bytes * A);
}.

Class PoolEnvLaws `{PoolEnv} := {
  iterate_Permutation : ∀ {A} (m : gmap bytes A), iterate m ≡ₚ map_to_list m;
}.

Definition TxVerifyResultInvalid : Z := -1.
Definition TxVerifyResultPending : Z := 0.
Definition TxVerifyResultOk : Z := 1.

Definition maxTransactionResponse : Z := 100.

Record TransactionPoolConfig := mkTransactionPoolConfig {
  tc_MaxTransactions : Z;
  tc_MaxTransactionsPerAccount : Z;
  tc_TransactionExpiryTime : Z;
  tc_MinEntranceFeePriority : Z;
  tc_MinReplacementFeeDifference : Z;
}.

Definition SetDefault (c : TransactionPoolConfig) : TransactionPoolConfig :=
  let default d x := if x =? 0 then d else x in
  mkTransactionPoolConfig
    (default 4096 (tc_MaxTransactions c))
    (default 64 (tc_MaxTransactionsPerAccount c))
    (default (3 * 60 * 60) (tc_TransactionExpiryTime c))
    (tc_MinEntranceFeePriority c)
    (default 1 (tc_MinReplacementFeeDifference c)).

Inductive mutex := Unlocked | RLocked | Locked.

Record TransactionPool := mkTransactionPool {
  tp_mutex : mutex;
  tp_allTransactions : gmap bytes TransactionWithFeePriority;
  tp_perAccount : gmap bytes addressTransactions;
  tp_feePriorityQueue : list TransactionWithFeePriority;
  tp_config : TransactionPoolConfig;
}.

Definition set_tp_mutex (m : mutex) (t : TransactionPool) : TransactionPool :=
  mkTransactionPool m (tp_allTransactions t) (tp_perAccount t) (tp_feePriorityQueue t) (tp_config t).
Definition set_tp_allTransactions m (t : TransactionPool) : TransactionPool :=
  mkTransactionPool (tp_mutex t) m (tp_perAccount t) (tp_feePriorityQueue t) (tp_config t).
Definition set_tp_perAccount m (t : TransactionPool) : TransactionPool :=
  mkTransactionPool (tp_mutex t) (tp_allTransactions t) m (tp_feePriorityQueue t) (tp_config t).
Definition set_tp_feePriorityQueue q (t : TransactionPool) : TransactionPool :=
  mkTransactionPool (tp_mutex t) (tp_allTransactions t) (tp_perAccount t) q (tp_config t).

(** [None] is a nil configuration. *)
Definition NewTransactionPool (cfg : option TransactionPoolConfig) : TransactionPool :=
  let config := SetDefault (default (mkTransactionPoolConfig 0 0 0 0 0) cfg) in
  mkTransactionPool Unlocked ∅ ∅ (Init FeeMinHeap_Less []) config.

Record GetTransactionsResponse := mkGetTransactionsResponse {
  gtr_Transactions : list Transaction;
}.

Definition GetTransactionsResponse_Encode `{Norm} (e : GetTransactionsResponse) : bytes :=
  Result (NewWriter
    |> (λ w, foldl (λ w val, WriteEncodable 1 (Some (Transaction_Encode val)) w) w (gtr_Transactions e))).

Definition GetTransactionsResponse_DecodeFromReader `{Norm} (strict : bool) (r : Reader) : res (GetTransactionsResponse * Reader) :=
  '(Transactions_, r) ← ReadDecodables 1 (Transaction_DecodeFromReader false) r;
  Ok (mkGetTransactionsResponse Transactions_, r).

Definition GetTransactionsResponse_ok `{Norm} (e : GetTransactionsResponse) : Prop :=
  Forall Transaction_ok (gtr_Transactions e).

Lemma GetTransactionsResponse_reads `{Norm, !NormLaws} strict e :
  GetTransactionsResponse_ok e → Reads 1 2 (GetTransactionsResponse_DecodeFromReader strict) (GetTransactionsResponse_Encode e) e.
Proof.
  intros Hok. destruct e. unfold GetTransactionsResponse_ok, GetTransactionsResponse_DecodeFromReader, GetTransactionsResponse_Encode in *. solve_reads.
Qed.

#[export] Hint Resolve GetTransactionsResponse_reads : reads.

Lemma GetTransactionsResponse_total `{Norm} strict : Total 0 (GetTransactionsResponse_DecodeFromReader strict).
Proof. unfold GetTransactionsResponse_DecodeFromReader. solve_total. Qed.
#[export] Hint Resolve GetTransactionsResponse_total : go.

#[export] Instance GetTransactionsResponse_Message `{Norm} : Message GetTransactionsResponse :=
  { Encode := GetTransactionsResponse_Encode; DecodeFromReader := GetTransactionsResponse_DecodeFromReader; msg_ok := GetTransactionsResponse_ok }.
#[export] Instance GetTransactionsResponse_MessageLaws `{Norm, !NormLaws} : MessageLaws GetTransactionsResponse.
Proof. split. eexists. intros. by apply GetTransactionsResponse_reads. Qed.

(** ** The monad of the operations *)

Inductive outcome (A : Type) := Returns (a : A) | Panics | Blocks.
Arguments Returns {A} _.
Arguments Panics {A}.
Arguments Blocks {A}.

Definition pool_m (A : Type) : Type := TransactionPool → outcome (A * TransactionPool).

#[export] Instance pool_ret : MRet pool_m := λ A a t, Returns (a, t).
#[export] Instance pool_bind : MBind pool_m := λ A B f m t,
  match m t with
  | Returns (a, t) => f a t
  | Panics => Panics
  | Blocks => Blocks
  end.

Definition get_pool : pool_m TransactionPool := λ t, Returns (t, t).
Definition modify (f : TransactionPool → TransactionPool) : pool_m () := λ t, Returns ((), f t).
Definition panic {A} : pool_m A := λ _, Panics.

(** The calls of other components return or panic. *)
Definition lift {A} (r : res A) : pool_m A :=
  match r with Ok a => mret a | _ => panic end.

Definition Lock : pool_m () := λ t,
  match tp_mutex t with Unlocked => Returns ((), set_tp_mutex Locked t) | _ => Blocks end.
Definition RLock : pool_m () := λ t,
  match tp_mutex t with Locked => Blocks | _ => Returns ((), set_tp_mutex RLocked t) end.
Definition Unlock : pool_m () := modify (set_tp_mutex Unlocked).

(** [t.mutex.Lock(); defer t.mutex.Unlock()]. *)
Definition with_lock {A} (m : pool_m A) : pool_m A := Lock;; a ← m; Unlock;; mret a.
Definition with_rlock {A} (m : pool_m A) : pool_m A := RLock;; a ← m; Unlock;; mret a.

Section pool.
Context `{Norm, Hasher, PoolEnv}.

Definition Get (id : bytes) : pool_m (option Transaction) :=
  with_rlock (t ← get_pool; mret (tw_Transaction <$> (tp_allTransactions t !! id))).

Definition GetAll : pool_m (list Transaction) :=
  with_rlock (t ← get_pool; mret ((λ p, tw_Transaction p.2) <$> iterate (tp_allTransactions t))).

(** Dereferencing a [*TransactionWithFeePriority]. *)
Fixpoint derefs {A} (l : list (option A)) : res (list A) :=
  match l with
  | [] => Ok []
  | Some x :: l => xs ← derefs l; Ok (x :: xs)
  | None :: _ => Panic
  end.

Definition GetProcessable : pool_m (list Transaction) :=
  with_rlock (
    t ← get_pool;
    ws ← lift (map_res (λ p, derefs (at_GetProcessables p.2)) (iterate (tp_perAccount t)));
    mret (tw_Transaction <$> concat ws)).

(** The first failing transaction, with the result the caller sees. *)
Fixpoint verifyTransactions (txs : list Transaction) : Z * bytes :=
  match txs with
  | [] => (TxVerifyResultOk, [])
  | tx :: txs =>
      match abi_VerifyTransaction tx with
      | None => (TxVerifyResultInvalid, tx_ID tx)
      | Some r => if r =? TxVerifyResultInvalid then (r, tx_ID tx) else verifyTransactions txs
      end
  end.

Definition remove (id : bytes) : pool_m bool :=
  with_lock (
    t ← get_pool;
    match tp_allTransactions t !! id with
    | None => mret false
    | Some existingTx =>
        let all := delete id (tp_allTransactions t) in
        modify (set_tp_allTransactions all);;
        sender ← lift (SenderAddress (tw_Transaction existingTx));
        match tp_perAccount t !! sender with
        | None => panic
        | Some al =>
            let al := (at_Remove (tw_Nonce existingTx) al).2 in
            modify (set_tp_perAccount
              (if at_Size al =? 0 then delete sender (tp_perAccount t)
               else <[sender := al]> (tp_perAccount t)));;
            modify (set_tp_feePriorityQueue
              (foldl (λ q p, Push FeeMinHeap_Less p.2 q) (Init FeeMinHeap_Less []) (iterate all)));;
            mret true
        end
    end).

Definition Remove : bytes → pool_m bool := remove.

(** The heap of the candidates, from which the one with the lowest fee
    priority is removed. *)
Definition evict (candidates : list (option TransactionWithFeePriority)) : pool_m bool :=
  ws ← lift (derefs candidates);
  let feeMinHeap := foldl (λ q w, Push FeeMinHeap_Less w q) (Init FeeMinHeap_Less []) ws in
  if len feeMinHeap =? 0 then mret false
  else
    '(tx, _) ← lift (Pop FeeMinHeap_Less feeMinHeap);
    remove (tw_ID tx);;
    mret true.

Definition evictUnprocessable : pool_m bool :=
  RLock;;
  t ← get_pool;
  candidates ← lift (map_res (λ p, at_GetUnprocessables p.2) (iterate (tp_perAccount t)));
  Unlock;;
  evict (concat candidates).

Definition evictProcessable : pool_m bool :=
  RLock;;
  t ← get_pool;
  let candidates := omap (λ p, last (at_GetProcessables p.2)) (iterate (tp_perAccount t)) in
  Unlock;;
  evict candidates.

(** [lowestFeePriorityTx != nil && feePriority <= lowestFeePriorityTx.FeePriority]. *)
Definition below_lowest (feePriority : Z) (queue : list TransactionWithFeePriority) : bool :=
  match queue with
  | lowest :: _ => feePriority <=? tw_FeePriority lowest
  | [] => false
  end.

Definition Add (now : Z) (tx : Transaction) : pool_m bool :=
  with_lock (
    t ← get_pool;
    match tp_allTransactions t !! tx_ID tx with
    | Some _ => mret false
    | None =>
        feePriority ← lift (calculateFeePriority tx);
        if feePriority <? tc_MinEntranceFeePriority (tp_config t) then mret false
        else
          let incomingTx := mkTransactionWithFeePriority tx feePriority now in
          let full := tc_MaxTransactions (tp_config t) <? Z.of_nat (size (tp_allTransactions t)) in
          if full && below_lowest feePriority (tp_feePriorityQueue t) then mret false
          else if (verifyTransactions [tx]).1 =? TxVerifyResultInvalid then mret false
          else
            (if full then
               evicted ← evictUnprocessable;
               if evicted : bool then mret () else evictProcessable;; mret ()
             else mret ());;
            t ← get_pool;
            sender ← lift (SenderAddress tx);
            let accountList :=
              match tp_perAccount t !! sender with
              | Some l => l
              | None => newAddressTransactions sender (tc_MaxTransactionsPerAccount (tp_config t))
                          (tc_MinReplacementFeeDifference (tp_config t))
              end in
            let '(r, accountList) := at_Add incomingTx false accountList in
            modify (set_tp_perAccount (<[sender := accountList]> (tp_perAccount t)));;
            if negb (ar_ok r) then mret false
            else
              modify (set_tp_allTransactions (<[tx_ID tx := incomingTx]> (tp_allTransactions t)));;
              modify (set_tp_feePriorityQueue (Push FeeMinHeap_Less incomingTx (tp_feePriorityQueue t)));;
              mret (conn_Publish (Transaction_Encode tx))
    end).

(** [for i := failedIndex; i < len(combinedTxs); i++ { t.remove(...) }]. *)
Fixpoint remove_all (txs : list Transaction) : pool_m () :=
  match txs with
  | [] => mret ()
  | tx :: txs => remove (tx_ID tx);; remove_all txs
  end.

(** The index of the first transaction with the given ID, -1 if there is none. *)
Fixpoint failed_index (i : Z) (failedID : bytes) (txs : list Transaction) : Z :=
  match txs with
  | [] => -1
  | tx :: txs => if bytes_equal (tx_ID tx) failedID then i else failed_index (i + 1) failedID txs
  end.

(** [list.Promote(txs)] on the list of account [addr]. *)
Definition promote (addr : bytes) (al : addressTransactions) (txs : list (option TransactionWithFeePriority)) : pool_m () :=
  '(_, al) ← lift (at_Promote txs al);
  modify (λ t, set_tp_perAccount (<[addr := al]> (tp_perAccount t)) t).

(** The goroutine of one account. *)
Definition reorg_account (p : bytes * addressTransactions) : pool_m () :=
  t ← get_pool;
  let addr := p.1 in
  let al := default p.2 (tp_perAccount t !! addr) in
  promotables ← lift (at_GetPromotable al);
  if len promotables =? 0 then mret ()
  else
    let processables := at_GetProcessables al in
    combined ← lift (derefs (processables ++ promotables));
    let combinedTxs := tw_Transaction <$> combined in
    let '(result, failedID) := verifyTransactions combinedTxs in
    if result =? TxVerifyResultOk then promote addr al promotables
    else if result =? TxVerifyResultPending then mret ()
    else
      let failedIndex := failed_index 0 failedID combinedTxs in
      (if len processables + 1 <=? failedIndex
       then promote addr al (take (Z.to_nat (failedIndex - len processables)) promotables)
       else mret ());;
      if failedIndex <? 0 then panic else remove_all (drop (Z.to_nat failedIndex) combinedTxs).

Fixpoint for_each {A} (f : A → pool_m ()) (l : list A) : pool_m () :=
  match l with
  | [] => mret ()
  | x :: l => f x;; for_each f l
  end.

Definition reorg : pool_m () :=
  RLock;;
  t ← get_pool;
  Unlock;;
  for_each reorg_account (iterate (tp_perAccount t)).

(** ** The peer messages *)

Inductive ValidationResult := ValidationAccept | ValidationReject.

Definition transactionValidator (data : bytes) : ValidationResult :=
  if len data =? 0 then ValidationReject
  else
    match NewTransaction data with
    | Ok transaction => if is_ok (Transaction_Validate transaction) then ValidationAccept else ValidationReject
    | _ => ValidationReject
    end.

(** [onTransactionAnnoucement]; the result says whether the event of a new
    transaction is published. *)
Definition onTransactionAnnoucement (now : Z) (data : bytes) : pool_m bool :=
  match NewTransaction data with
  | Ok tx =>
      match abi_VerifyTransaction tx with
      | None => mret false
      | Some r => if r =? TxVerifyResultInvalid then mret false else Add now tx
      end
  | _ => panic
  end.

(** A request without data gets at most 100 processable transactions; any
    other request gets no answer. *)
Definition HandleRPCEndpointGetTransaction (data : bytes) : pool_m (option bytes) :=
  if len data =? 0 then
    processables ← GetProcessable;
    let processables :=
      if maxTransactionResponse <? len processables
      then take (Z.to_nat maxTransactionResponse) processables else processables in
    mret (Some (GetTransactionsResponse_Encode (mkGetTransactionsResponse processables)))
  else mret None.
End pool.

(** ** The invariant *)

Section invariant.
Context `{Norm, HashLaws, PoolEnvLaws}.
Implicit Types t : TransactionPool.

(** The application accepts the transaction now. *)
Definition accepted (w : TransactionWithFeePriority) : Prop :=
  ∃ r, abi_VerifyTransaction (tw_Transaction w) = Some r ∧ r ≠ TxVerifyResultInvalid.

(** The transactions that may be processable. *)
Context (allowed : TransactionWithFeePriority → Prop).

(** The list [l] of account [addr]. *)
Record account_ok t (addr : bytes) (l : addressTransactions) : Prop := {
  acc_list : at_ok l;
  acc_nonempty : at_nonces l ≠ [];
  acc_max : at_maxSize l = tc_MaxTransactionsPerAccount (tp_config t);
  acc_processable : processable_all allowed l;
  acc_tx n w : at_transactions l !! n = Some w →
    SenderAddress (tw_Transaction w) = Ok addr ∧ tp_allTransactions t !! tw_ID w = Some w;
}.

Record pool_ok t : Prop := {
  pool_mutex : tp_mutex t = Unlocked;
  pool_config : 0 ≤ tc_MaxTransactions (tp_config t) ∧ 1 ≤ tc_MaxTransactionsPerAccount (tp_config t);
  pool_id id w : tp_allTransactions t !! id = Some w → tw_ID w = id;
  pool_account addr l : tp_perAccount t !! addr = Some l → account_ok t addr l;
  pool_heap : heap_ok FeeMinHeap_Less (tp_feePriorityQueue t);
  pool_queue : tp_feePriorityQueue t ≡ₚ (map_to_list (tp_allTransactions t)).*2;
  pool_size : Z.of_nat (size (tp_allTransactions t)) ≤ tc_MaxTransactions (tp_config t) + 1;
}.

Lemma set_mutex_id t : tp_mutex t = Unlocked → set_tp_mutex Unlocked t = t.
Proof using. clear. by destruct t; intros [= ->]. Qed.

Lemma SenderAddress_Ok tx : SenderAddress tx = Ok (take 20 (Hash (tx_SenderPublicKey tx))).
Proof. apply GetAddress_Ok. Qed.

Lemma Push_all_heap (l : list (bytes * TransactionWithFeePriority)) q :
  heap_ok FeeMinHeap_Less q →
  heap_ok FeeMinHeap_Less (foldl (λ q p, Push FeeMinHeap_Less p.2 q) q l) ∧
  foldl (λ q p, Push FeeMinHeap_Less p.2 q) q l ≡ₚ l.*2 ++ q.
Proof using.
  clear. revert q. induction l as [|p l IH]; intros q Hq; cbn [foldl]; [done|].
  destruct (IH (Push FeeMinHeap_Less p.2 q)) as [Hh Hp]; [by apply Push_heap; [apply less_ok_fee|]|].
  split; [done|]. rewrite Hp, Push_Permutation. cbn. by rewrite Permutation_middle.
Qed.

Lemma with_lock_eq {A} (m : pool_m A) t :
  tp_mutex t = Unlocked →
  with_lock m t =
    match m (set_tp_mutex Locked t) with
    | Returns (a, t') => Returns (a, set_tp_mutex Unlocked t')
    | Panics => Panics
    | Blocks => Blocks
    end.
Proof using. clear. intros Hm. unfold with_lock, mbind, pool_bind, Lock. by rewrite Hm. Qed.

Lemma with_rlock_eq {A} (m : pool_m A) t :
  tp_mutex t = Unlocked →
  with_rlock m t =
    match m (set_tp_mutex RLocked t) with
    | Returns (a, t') => Returns (a, set_tp_mutex Unlocked t')
    | Panics => Panics
    | Blocks => Blocks
    end.
Proof using. clear. intros Hm. unfold with_rlock, mbind, pool_bind, RLock. by rewrite Hm. Qed.

Lemma bind_get {B} (f : TransactionPool → pool_m B) t : mbind f get_pool t = f t t.
Proof using. done. Qed.

Lemma bind_Ok {A B} (a : A) (f : A → pool_m B) t : mbind f (lift (Ok a)) t = f a t.
Proof using. done. Qed.

Lemma bind_Returns {A B} (m : pool_m A) (f : A → pool_m B) t a t' : m t = Returns (a, t') → mbind f m t = f a t'.
Proof using. clear. intros Hm. unfold mbind, pool_bind. by rewrite Hm. Qed.

(** ** [remove] *)

Definition removed t (id : bytes) (w : TransactionWithFeePriority) (sender : bytes) (l : addressTransactions)
    : TransactionPool :=
  let all := delete id (tp_allTransactions t) in
  let l := (at_remove (tw_Nonce w) l).2 in
  mkTransactionPool Unlocked all
    (if at_Size l =? 0 then delete sender (tp_perAccount t) else <[sender := l]> (tp_perAccount t))
    (foldl (λ q p, Push FeeMinHeap_Less p.2 q) (Init FeeMinHeap_Less []) (iterate all)) (tp_config t).

Lemma remove_eq id t :
  tp_mutex t = Unlocked →
  remove id t =
    match tp_allTransactions t !! id with
    | None => Returns (false, t)
    | Some w =>
        let sender := take 20 (Hash (tx_SenderPublicKey (tw_Transaction w))) in
        match tp_perAccount t !! sender with
        | None => Panics
        | Some l => Returns (true, removed t id w sender l)
        end
    end.
Proof.
  intros Hm. unfold remove. rewrite with_lock_eq by done. unfold mbind, pool_bind, get_pool. cbn [tp_allTransactions set_tp_mutex].
  destruct (tp_allTransactions t !! id) as [w|].
  - rewrite SenderAddress_Ok. cbn. by destruct (tp_perAccount t !! _).
  - cbn. by rewrite <- (set_mutex_id t Hm) at 2.
Qed.

Section removed.
Context (t : TransactionPool) (id : bytes) (w : TransactionWithFeePriority) (sender : bytes) (l : addressTransactions).
Context (Ht : pool_ok t) (Hw : tp_allTransactions t !! id = Some w).
Context (Hs : SenderAddress (tw_Transaction w) = Ok sender) (Hl : tp_perAccount t !! sender = Some l).

Lemma removed_account addr k :
  tp_perAccount (removed t id w sender l) !! addr = Some k →
  (addr = sender ∧ k = (at_remove (tw_Nonce w) l).2 ∧ at_nonces k ≠ []) ∨
  (addr ≠ sender ∧ tp_perAccount t !! addr = Some k).
Proof using.
  clear. cbn. destruct (Z.eqb_spec (at_Size (at_remove (tw_Nonce w) l).2) 0) as [E|E].
  - intros [? ?]%lookup_delete_Some. right. by split.
  - intros [[<- <-]|[? ?]]%lookup_insert_Some; [left|by right; split].
    split_and!; [done|done|]. intros En. apply E. unfold at_Size. by rewrite En.
Qed.

(** The removed transaction is in no list any more. *)
Lemma removed_tx addr k n u :
  tp_perAccount (removed t id w sender l) !! addr = Some k → at_transactions k !! n = Some u →
  SenderAddress (tw_Transaction u) = Ok addr ∧ delete id (tp_allTransactions t) !! tw_ID u = Some u.
Proof using Ht Hw Hs Hl.
  intros Hk Hu. apply removed_account in Hk as [(-> & -> & _)|[Hne Hk]].
  - rewrite at_remove_transactions in Hu. apply lookup_delete_Some in Hu as [Hn Hu].
    pose proof (pool_account t Ht _ _ Hl) as Hacc. destruct (acc_tx _ _ _ Hacc _ _ Hu) as [? Hall]. split; [done|].
    apply lookup_delete_Some. split; [|done]. intros E. rewrite <- E, Hw in Hall. injection Hall as ->.
    by apply (ok_key l (acc_list _ _ _ Hacc)) in Hu as [? _].
  - pose proof (pool_account t Ht _ _ Hk) as Hacc. destruct (acc_tx _ _ _ Hacc _ _ Hu) as [? Hall]. split; [done|].
    apply lookup_delete_Some. split; [|done]. intros E. rewrite <- E, Hw in Hall. injection Hall as ->. congruence.
Qed.

Lemma removed_ok : pool_ok (removed t id w sender l).
Proof using Ht Hw Hs Hl H2 H3 H1 H0.
  destruct (Push_all_heap (iterate (delete id (tp_allTransactions t))) (Init FeeMinHeap_Less [])) as [Hh Hp];
    [apply Init_heap, less_ok_fee|].
  split; cbn [removed tp_mutex tp_config tp_allTransactions tp_feePriorityQueue].
  - done.
  - apply Ht.
  - intros i u [_ Hu]%lookup_delete_Some. by apply (pool_id t Ht).
  - intros addr k Hk. pose proof (λ n u, removed_tx addr k n u Hk) as Htx.
    apply removed_account in Hk as [(-> & -> & Hne)|[Hne Hk]].
    + pose proof (pool_account t Ht _ _ Hl) as []. split; try done; [by apply at_remove_ok| |by apply at_remove_processable_all].
      by destruct (at_remove_frame (tw_Nonce w) l) as (_ & -> & _).
    + pose proof (pool_account t Ht _ _ Hk) as []. by split.
  - done.
  - rewrite Hp. cbn. rewrite app_nil_r. by rewrite iterate_Permutation.
  - pose proof (pool_size t Ht). rewrite map_size_delete_Some by eauto. lia.
Qed.
End removed.

(** [Remove] never blocks; it panics exactly on a transaction whose account
    has no list. *)
Lemma remove_spec id t :
  pool_ok t →
  match remove id t with
  | Returns (b, t') => pool_ok t' ∧ (b = true ↔ is_Some (tp_allTransactions t !! id))
  | Panics => ∃ w sender, tp_allTransactions t !! id = Some w ∧
      SenderAddress (tw_Transaction w) = Ok sender ∧ tp_perAccount t !! sender = None
  | Blocks => False
  end.
Proof.
  intros Ht. rewrite remove_eq by apply Ht. destruct (tp_allTransactions t !! id) as [w|] eqn:Hw.
  - cbn. pose proof (SenderAddress_Ok (tw_Transaction w)) as Hs. destruct (tp_perAccount t !! _) as [l|] eqn:Hl; [|by eauto].
    split; [by apply removed_ok|]. by split; eauto.
  - split; [done|]. by split; [|intros [? ?]].
Qed.

(** ** [Add] *)

Definition full t : bool := tc_MaxTransactions (tp_config t) <? Z.of_nat (size (tp_allTransactions t)).

(** The list of [sender], created when there is none. *)
Definition account_list t (sender : bytes) : addressTransactions :=
  match tp_perAccount t !! sender with
  | Some l => l
  | None => newAddressTransactions sender (tc_MaxTransactionsPerAccount (tp_config t))
              (tc_MinReplacementFeeDifference (tp_config t))
  end.

(** The transaction passes the checks that precede the insertion. *)
Definition admitted t (tx : Transaction) (feePriority : Z) : Prop :=
  tp_allTransactions t !! tx_ID tx = None ∧ calculateFeePriority tx = Ok feePriority ∧
  tc_MinEntranceFeePriority (tp_config t) ≤ feePriority ∧
  (full t = true → ∀ lowest, head (tp_feePriorityQueue t) = Some lowest → tw_FeePriority lowest < feePriority) ∧
  (∃ r, abi_VerifyTransaction tx = Some r ∧ r ≠ TxVerifyResultInvalid).

(** The pool with the transaction [w] of [sender] inserted. *)
Definition added t (sender : bytes) (w : TransactionWithFeePriority) : TransactionPool :=
  mkTransactionPool Unlocked (<[tw_ID w := w]> (tp_allTransactions t))
    (<[sender := (at_Add w false (account_list t sender)).2]> (tp_perAccount t))
    (Push FeeMinHeap_Less w (tp_feePriorityQueue t)) (tp_config t).

Lemma verify_one tx :
  (verifyTransactions [tx]).1 ≠ TxVerifyResultInvalid ↔
  ∃ r, abi_VerifyTransaction tx = Some r ∧ r ≠ TxVerifyResultInvalid.
Proof using.
  clear. cbn. destruct (abi_VerifyTransaction tx) as [r|]; [|naive_solver].
  destruct (Z.eqb_spec r TxVerifyResultInvalid) as [->|E]; cbn; naive_solver.
Qed.

(** The outcome of [Add], by whether the transaction is admitted and the pool
    is full. *)
Lemma Add_cases now tx t :
  tp_mutex t = Unlocked → u64 (tx_size tx) ≠ 0 →
  (Add now tx t = Returns (false, t) ∧ ∀ p, ¬ admitted t tx p) ∨
  ∃ p, admitted t tx p ∧
    let w := mkTransactionWithFeePriority tx p now in
    let sender := take 20 (Hash (tx_SenderPublicKey tx)) in
    let r := at_Add w false (account_list t sender) in
    if full t then Add now tx t = Blocks
    else Add now tx t = Returns
      (if ar_ok r.1 then (conn_Publish (Transaction_Encode tx), added t sender w)
       else (false, mkTransactionPool Unlocked (tp_allTransactions t) (<[sender := r.2]> (tp_perAccount t))
                      (tp_feePriorityQueue t) (tp_config t))).
Proof using H1.
  clear allowed.
  intros Hm Hsz. unfold Add. rewrite with_lock_eq by done. unfold mbind, pool_bind, get_pool. cbn [tp_allTransactions set_tp_mutex].
  assert (∀ P, P → Returns (false, set_tp_mutex Unlocked (set_tp_mutex Locked t)) = Returns (false, t) ∧ P) as Hrej.
  { intros P HP. split; [|done]. rewrite <- (set_mutex_id t Hm) at 2. done. }
  unfold admitted. destruct (tp_allTransactions t !! tx_ID tx) as [w|] eqn:Hid; [left; apply Hrej; naive_solver|].
  assert (calculateFeePriority tx = Ok (tx_Fee tx / u64 (tx_size tx))) as Hfp by (unfold calculateFeePriority; by case_decide).
  rewrite Hfp. set (p := tx_Fee tx / u64 (tx_size tx)).
  change (lift (Ok p) (set_tp_mutex Locked t)) with (Returns (p, set_tp_mutex Locked t)). cbv beta iota.
  cbn [tp_config set_tp_mutex]. destruct (Z.ltb_spec p (tc_MinEntranceFeePriority (tp_config t))) as [He|He].
  { left. apply Hrej. intros q (_ & [= <-] & ? & _). lia. }
  cbn [tp_allTransactions tp_feePriorityQueue set_tp_mutex]. fold (full t). set (low := below_lowest p (tp_feePriorityQueue t)).
  assert (full t && low = false ↔ (full t = true → ∀ lowest, head (tp_feePriorityQueue t) = Some lowest → tw_FeePriority lowest < p)) as Hlow.
  { subst low. unfold below_lowest. destruct (full t), (tp_feePriorityQueue t) as [|x q]; cbn; try naive_solver.
    rewrite Z.leb_gt. naive_solver. }
  destruct (full t && low) eqn:Efl. { left. apply Hrej. intros q (_ & [= <-] & _ & Hx & _). by apply Hlow in Hx. }
  pose proof (verify_one tx) as Hver. destruct (Z.eqb_spec (verifyTransactions [tx]).1 TxVerifyResultInvalid) as [Ev|Ev].
  { left. apply Hrej. intros q (_ & _ & _ & _ & Hx). by apply Hver in Hx. }
  right. exists p. split; [split_and!; try done; [by apply Hlow|by apply Hver]|]. clear Hlow Hver. subst low.
  destruct (full t); [done|]. cbn. rewrite SenderAddress_Ok. cbn. fold (account_list t (take 20 (Hash (tx_SenderPublicKey tx)))).
  unfold added. cbn [tw_Transaction]. by destruct (at_Add _ _ _) as [[[] ? ?] ?].
Qed.

Lemma account_list_ok t sender :
  pool_ok t → at_ok (account_list t sender) ∧ at_maxSize (account_list t sender) = tc_MaxTransactionsPerAccount (tp_config t) ∧
  processable_all allowed (account_list t sender) ∧
  (∀ n w, at_transactions (account_list t sender) !! n = Some w →
     SenderAddress (tw_Transaction w) = Ok sender ∧ tp_allTransactions t !! tw_ID w = Some w).
Proof.
  intros Ht. unfold account_list. destruct (tp_perAccount t !! sender) as [l|] eqn:Hl.
  { apply (pool_account t Ht) in Hl as []. by split_and!. }
  pose proof (pool_config t Ht). split_and!; [by apply newAddressTransactions_ok; lia|done| |].
  - intros n w Hn. by apply elem_of_nil in Hn.
  - intros n w Hn. cbn in Hn. by rewrite lookup_empty in Hn.
Qed.

(** The first transaction of an account is always added. *)
Lemma at_Add_new w sender m d : 1 ≤ m → ar_ok (at_Add w false (newAddressTransactions sender m d)).1 = true.
Proof using.
  clear. intros Hm. unfold at_Add. cbn [newAddressTransactions at_transactions]. rewrite lookup_empty. cbn [at_maxSize at_nonces].
  destruct (_ <? len _ + 1) eqn:E; [|done]. apply Z.ltb_lt in E. change (m < 0 + 1) in E. lia.
Qed.

Lemma added_ok t w sender :
  pool_ok t → u64_ok (tw_Nonce w) → full t = false → tp_allTransactions t !! tw_ID w = None →
  SenderAddress (tw_Transaction w) = Ok sender → ar_ok (at_Add w false (account_list t sender)).1 = true →
  pool_ok (added t sender w).
Proof.
  intros Ht Hn Hf Hid Hs Hr. destruct (account_list_ok t sender Ht) as (Hok & Hmax & Hacc & Htx).
  pose proof (pool_config t Ht) as [Hc1 Hc2]. apply Z.ltb_ge in Hf.
  destruct (at_Add_transactions w (account_list t sender)) as (Hw & _ & Hold). specialize (Hw Hr).
  assert (at_ok (at_Add w false (account_list t sender)).2) as Hok' by (apply at_Add_ok; [done|done|by rewrite Hmax]).
  assert (∀ u, tp_allTransactions t !! tw_ID u = Some u → <[tw_ID w := w]> (tp_allTransactions t) !! tw_ID u = Some u) as Hall.
  { intros u Hu. rewrite lookup_insert_ne; [done|congruence]. }
  split; cbn [added tp_mutex tp_config tp_allTransactions tp_perAccount tp_feePriorityQueue]; [done|done| | | | |].
  - intros i u [[<- <-]|[_ Hu]]%lookup_insert_Some; [done|by apply (pool_id t Ht)].
  - intros addr k [[<- <-]|[_ Hk]]%lookup_insert_Some.
    + split; [done| | | |].
      * intros E. assert (tw_Nonce w ∈ at_nonces (at_Add w false (account_list t sender)).2) as Hin by (apply Hok'; eauto).
        rewrite E in Hin. by apply elem_of_nil in Hin.
      * by destruct (at_Add_frame w (account_list t sender)) as (_ & -> & _).
      * by apply at_Add_processables.
      * intros n u Hu. cbn. apply Hold in Hu as [->|Hu]; [by rewrite lookup_insert_eq|].
        apply Htx in Hu as [? ?]. split; [done|by apply Hall].
    + apply (pool_account t Ht) in Hk as []. split; try done. intros n u Hu. apply acc_tx0 in Hu as [? ?]. split; [done|by apply Hall].
  - apply Push_heap; [apply less_ok_fee|apply Ht].
  - rewrite Push_Permutation, map_to_list_insert by done. cbn. by rewrite (pool_queue t Ht).
  - rewrite map_size_insert_None by done. lia.
Qed.

(** [Add] keeps the invariant when it returns, never panics on a transaction
    with a size, and blocks only when the pool is full. *)
Lemma Add_spec now tx t :
  pool_ok t → u64_ok (tx_Nonce tx) → u64 (tx_size tx) ≠ 0 →
  match Add now tx t with
  | Returns (b, t') => pool_ok t' ∧ (b = true → ∃ w sender l,
      tw_Transaction w = tx ∧ accepted w ∧ tp_allTransactions t' !! tx_ID tx = Some w ∧
      SenderAddress tx = Ok sender ∧ tp_perAccount t' !! sender = Some l ∧ at_transactions l !! tx_Nonce tx = Some w)
  | Panics => False
  | Blocks => full t = true
  end.
Proof.
  intros Ht Hn Hsz. destruct (Add_cases now tx t) as [[-> _]|(p & Hadm & Hadd)]; [apply Ht|done|by split|].
  set (w := mkTransactionWithFeePriority tx p now) in *. set (sender := take 20 _) in *.
  destruct Hadm as (Hid & Hfp & _ & _ & Hacc). cbv zeta in Hadd. destruct (full t) eqn:Hf; [by rewrite Hadd|].
  rewrite Hadd. destruct (ar_ok _) eqn:Hr.
  - split; [apply (added_ok t w sender); (done || apply SenderAddress_Ok)|]. intros _.
    exists w, sender, (at_Add w false (account_list t sender)).2. cbn [added tp_allTransactions tp_perAccount].
    rewrite !lookup_insert_eq. split_and!; [done|done|done|apply SenderAddress_Ok|done|].
    by apply (at_Add_transactions w (account_list t sender)).
  - split; [|done]. destruct (at_Add_transactions w (account_list t sender)) as (_ & Hsame & _). rewrite (Hsame Hr).
    unfold account_list in *. destruct (tp_perAccount t !! sender) as [l|] eqn:Hl.
    + rewrite insert_id by done. pose proof (pool_mutex t Ht). by destruct t; cbn in *; subst.
    + by rewrite at_Add_new in Hr by apply Ht.
Qed.

(** ** [reorg] *)

Lemma derefs_Some {A} (l : list A) : derefs (Some <$> l) = Ok l.
Proof using. clear. induction l as [|x l IH]; [done|]. cbn [fmap list_fmap derefs]. by rewrite IH. Qed.

(** The transactions of existing nonces. *)
Lemma lookups_list l nonces :
  at_ok l → nonces ⊆ at_nonces l →
  ∃ ws, lookups l nonces = Some <$> ws ∧ Forall2 (λ n w, at_transactions l !! n = Some w) nonces ws ∧ (λ w, tw_Nonce w) <$> ws = nonces.
Proof using.
  clear. intros Hl. induction nonces as [|n nonces IH]; intros Hs; [by exists []|].
  destruct IH as (ws & Hws & HF & Hk); [intros ? ?; apply Hs; by right|].
  assert (is_Some (at_transactions l !! n)) as [w Hw] by (apply (ok_dom l Hl), Hs; left).
  exists (w :: ws). unfold lookups in *. cbn. rewrite Hw. split_and!; [by f_equal|by constructor|].
  pose proof (ok_key l Hl _ _ Hw) as [-> _]. cbn in Hk. by rewrite Hk.
Qed.

Lemma failed_index_shift id txs :
  (∀ k, failed_index k id txs = -1) ∨ (∃ i : nat, ∀ k, failed_index k id txs = k + Z.of_nat i).
Proof using.
  clear. induction txs as [|tx txs IH]; cbn [failed_index]; [by left|].
  destruct (bytes_equal _ _); [right; exists 0%nat; intros; lia|].
  destruct IH as [IH|[i IH]]; [left; intros; apply IH|right; exists (S i); intros; rewrite IH; lia].
Qed.

(** The transactions before the first failing one are accepted. *)
Lemma verifyTransactions_spec ws :
  (verifyTransactions (tw_Transaction <$> ws) = (TxVerifyResultOk, []) ∧ Forall accepted ws) ∨
  (∃ id i, verifyTransactions (tw_Transaction <$> ws) = (TxVerifyResultInvalid, id) ∧
    failed_index 0 id (tw_Transaction <$> ws) = Z.of_nat i ∧ (i < length ws)%nat ∧ Forall accepted (take i ws) ∧
    ¬ Forall accepted ws).
Proof using.
  clear.
  induction ws as [|w ws IH]; [by left|]. cbn [fmap list_fmap verifyTransactions failed_index].
  assert (bytes_equal (tw_ID w) (tw_ID w) = true) as Heq by (by apply bool_decide_eq_true).
  destruct (abi_VerifyTransaction (tw_Transaction w)) as [r|] eqn:Hr.
  2: { right. exists (tw_ID w), 0%nat. cbn [failed_index]. rewrite Heq.
    split_and!; [done|done|cbn; lia|constructor|]. intros [[? [? ?]] _]%Forall_cons. congruence. }
  destruct (Z.eqb_spec r TxVerifyResultInvalid) as [->|Hne].
  { right. exists (tw_ID w), 0%nat. cbn [failed_index]. rewrite Heq.
    split_and!; [done|done|cbn; lia|constructor|]. intros [[? [? ?]] _]%Forall_cons. congruence. }
  assert (accepted w) as Hacc by (by exists r). destruct IH as [[-> HF]|(id & i & -> & Hi & Hlt & HF & Hn)]; [left; by split; [|constructor]|].
  right. exists id. destruct (bytes_equal (tw_ID w) id) eqn:Hb.
  { exists 0%nat. split_and!; [done|done|cbn; lia|constructor|]. by intros [_ ?]%Forall_cons. }
  exists (S i). split_and!; [done| |cbn; lia|by constructor|by intros [_ ?]%Forall_cons].
  destruct (failed_index_shift id (tw_Transaction <$> ws)) as [Hf|[j Hf]]; rewrite Hf in *; lia.
Qed.

(** Removing transactions that an account holds. *)
Lemma remove_all_spec addr ws t :
  pool_ok t → NoDup ((λ w, tw_Nonce w) <$> ws) →
  (ws ≠ [] → ∃ l, tp_perAccount t !! addr = Some l ∧ Forall (λ w, at_transactions l !! tw_Nonce w = Some w) ws) →
  ∃ t', remove_all (tw_Transaction <$> ws) t = Returns ((), t') ∧ pool_ok t' ∧
    (∀ addr', addr' ≠ addr → tp_perAccount t' !! addr' = tp_perAccount t !! addr').
Proof.
  revert t. induction ws as [|w ws IH]; intros t Ht Hnd Hin; [by exists t|].
  destruct (Hin ltac:(done)) as (l & Hl & [Hw Hws]%Forall_cons).
  rewrite fmap_cons in Hnd. apply NoDup_cons in Hnd as [Hnw Hnd].
  destruct (acc_tx _ _ _ (pool_account t Ht _ _ Hl) _ _ Hw) as [Hs Hall].
  assert (take 20 (Hash (tx_SenderPublicKey (tw_Transaction w))) = addr) as Haddr by (rewrite SenderAddress_Ok in Hs; congruence).
  cbn [fmap list_fmap remove_all]. unfold mbind at 1, pool_bind at 1. rewrite remove_eq by apply Ht. rewrite Hall. cbv zeta. rewrite Haddr, Hl.
  pose proof (removed_ok t (tw_ID w) w addr l Ht Hall Hs Hl) as Ht'.
  destruct (IH (removed t (tw_ID w) w addr l) Ht' Hnd) as (t' & Hr & Hok & Hframe).
  - intros Hne. exists (at_remove (tw_Nonce w) l).2.
    assert (Forall (λ u, at_transactions (at_remove (tw_Nonce w) l).2 !! tw_Nonce u = Some u) ws) as HF.
    { rewrite Forall_forall in *. intros u Hu. rewrite at_remove_transactions, lookup_delete_ne; [by apply Hws|].
      intros E. apply Hnw, list_elem_of_fmap. by exists u. }
    split; [|done]. cbn. destruct (Z.eqb_spec (at_Size (at_remove (tw_Nonce w) l).2) 0) as [E|E]; [|by rewrite lookup_insert_eq].
    destruct ws as [|u ws]; [done|]. apply Forall_cons in HF as [Hu _].
    pose proof (at_remove_ok (tw_Nonce w) l (acc_list _ _ _ (pool_account t Ht _ _ Hl))) as Hrm.
    assert (tw_Nonce u ∈ at_nonces (at_remove (tw_Nonce w) l).2) as Hinn by (apply (ok_dom _ Hrm); eauto).
    unfold at_Size, len in E. destruct (at_nonces (at_remove (tw_Nonce w) l).2); [by apply elem_of_nil in Hinn|done].
  - exists t'. split_and!; [done|done|]. intros a' Ha'. rewrite Hframe by done. cbn.
    destruct (_ =? 0); [by rewrite lookup_delete_ne|by rewrite lookup_insert_ne].
Qed.

(** The account list after the promotion of [nonces]. *)
Definition promoted (l : addressTransactions) (nonces : list Z) : addressTransactions :=
  set_at_processables (sortZ (elements (list_to_set (at_processables l ++ nonces) : gset Z))) l.

Definition set_account t (addr : bytes) (l : addressTransactions) : TransactionPool :=
  set_tp_perAccount (<[addr := l]> (tp_perAccount t)) t.

(** The application was asked about all that it accepts now. *)
Context (Hallowed : ∀ w, accepted w → allowed w).

Lemma promote_spec addr l nonces t :
  pool_ok t → tp_perAccount t !! addr = Some l → nonces ⊆ at_nonces l →
  (∀ n w, n ∈ nonces → at_transactions l !! n = Some w → accepted w) →
  promote addr l (lookups l nonces) t = Returns ((), set_account t addr (promoted l nonces)) ∧
  pool_ok (set_account t addr (promoted l nonces)).
Proof.
  intros Ht Hl Hsub Hacc. pose proof (pool_account t Ht _ _ Hl) as [Hok Hne Hmax Hpr Htx].
  assert (at_Promote (lookups l nonces) l = Ok (true, promoted l nonces)) as Hprom by (unfold at_Promote; by rewrite promoting_lookups).
  split; [unfold promote, mbind, pool_bind; by rewrite Hprom|]. split; try apply Ht; cbn.
  intros a k [[<- <-]|[_ Hk]]%lookup_insert_Some; [|by apply (pool_account t Ht) in Hk as []; split].
  split; [by apply (at_Promote_ok _ _ _ _ Hok Hprom)|done|done| |done].
  intros n w [Hn|Hn]%elem_of_promoted%elem_of_app Hw; [by apply (Hpr n)|by apply Hallowed, (Hacc n)].
Qed.

(** The transactions of the account in the order [reorg] verifies them. *)
Record combined (l : addressTransactions) (ns : list Z) (ws : list TransactionWithFeePriority) : Prop := {
  comb_nonces : (λ w, tw_Nonce w) <$> ws = at_processables l ++ ns;
  comb_in w : w ∈ ws → at_transactions l !! tw_Nonce w = Some w;
}.

Lemma combined_nth l ns ws n w (j : nat) :
  combined l ns ws → (at_processables l ++ ns) !! j = Some n → at_transactions l !! n = Some w → ws !! j = Some w.
Proof using.
  clear. intros [Hk Hin] Hj Hw. rewrite <- Hk, list_lookup_fmap in Hj. apply fmap_Some in Hj as (u & Hu & ->).
  rewrite Hu. f_equal. pose proof (Hin u ltac:(by eapply list_elem_of_lookup_2)). congruence.
Qed.

(** Before the failing transactions are removed, the accepted ones among the
    promotable transactions are promoted. *)
Lemma promote_before addr l ns ws i t :
  pool_ok t → tp_perAccount t !! addr = Some l → ns ⊆ at_nonces l → combined l ns ws → Forall accepted (take i ws) →
  ∃ t1 l1,
    (if len (at_processables l) + 1 <=? Z.of_nat i
     then promote addr l (take (Z.to_nat (Z.of_nat i - len (at_processables l))) (lookups l ns)) else mret ()) t = Returns ((), t1) ∧
    pool_ok t1 ∧ tp_perAccount t1 !! addr = Some l1 ∧ at_transactions l1 = at_transactions l ∧
    ∀ addr', addr' ≠ addr → tp_perAccount t1 !! addr' = tp_perAccount t !! addr'.
Proof.
  intros Ht Hl Hns Hcomb Hacc. destruct (Z.leb_spec (len (at_processables l) + 1) (Z.of_nat i)) as [Hle|Hgt]; [|by exists t, l].
  set (k := Z.to_nat _). assert (take k (lookups l ns) = lookups l (take k ns)) as -> by (unfold lookups; by rewrite fmap_take).
  destruct (promote_spec addr l (take k ns) t Ht Hl) as [Hprom Hpok].
  - intros n (j & Hj & _)%elem_of_take. by apply Hns, list_elem_of_lookup_2 with j.
  - intros n w (j & Hj & Hjk)%elem_of_take Hw. rewrite Forall_forall in Hacc. apply Hacc, elem_of_take.
    exists (length (at_processables l) + j)%nat. split; [|unfold k, len in *; lia].
    apply (combined_nth l ns ws n w); [done| |done]. rewrite lookup_app_r by lia. by rewrite Nat.add_comm, Nat.add_sub.
  - exists (set_account t addr (promoted l (take k ns))), (promoted l (take k ns)). split_and!; [done|done| |done|].
    + cbn. by rewrite lookup_insert_eq.
    + intros a Ha. cbn. by rewrite lookup_insert_ne.
Qed.

(** The goroutine of one account: it returns, keeps the invariant and the
    other accounts, and promotes when every transaction is accepted. *)
Lemma reorg_account_spec addr l t :
  pool_ok t → tp_perAccount t !! addr = Some l →
  ∃ t' ns, at_GetPromotable l = Ok (lookups l ns) ∧ reorg_account (addr, l) t = Returns ((), t') ∧ pool_ok t' ∧
    (∀ addr', addr' ≠ addr → tp_perAccount t' !! addr' = tp_perAccount t !! addr') ∧
    ((∀ n w, at_transactions l !! n = Some w → accepted w) →
     tp_perAccount t' !! addr = Some (if len ns =? 0 then l else promoted l ns)).
Proof.
  intros Ht Hl. pose proof (acc_list _ _ _ (pool_account t Ht _ _ Hl)) as Hok.
  destruct (GetPromotable_nonces l Hok) as (ns & Hg & Hsub & Hnd).
  destruct (lookups_list l _ Hok Hsub) as (ws & Hws & HF & Hk).
  assert (∀ w, w ∈ ws → at_transactions l !! tw_Nonce w = Some w) as Hin.
  { intros w [i Hi]%list_elem_of_lookup. destruct (Forall2_lookup_r _ _ _ _ _ HF Hi) as (n & _ & Hn).
    by pose proof (ok_key l Hok _ _ Hn) as [-> _]. }
  pose proof (Build_combined l ns ws Hk Hin) as Hcomb.
  assert (ns ⊆ at_nonces l) as Hns by (intros n Hn; apply Hsub, elem_of_app; by right).
  unfold reorg_account. rewrite bind_get. cbn [fst snd]. rewrite Hl. cbn [default from_option id]. rewrite Hg, bind_Ok.
  assert (len (lookups l ns) = len ns) as Hlen by (unfold lookups, len; by rewrite length_fmap).
  rewrite Hlen. destruct (Z.eqb_spec (len ns) 0) as [E|E].
  { exists t, ns. split_and!; [done|done|done|done|]. intros _. by rewrite E. }
  assert (at_GetProcessables l ++ lookups l ns = Some <$> ws) as -> by (rewrite <- Hws; symmetry; apply fmap_app).
  rewrite derefs_Some, bind_Ok.
  destruct (verifyTransactions_spec ws) as [[-> Hacc]|(id & i & -> & Hi & Hlt & Hacc & Hnot)].
  { destruct (promote_spec addr l ns t Ht Hl Hns) as [Hprom Hpok].
    { intros n w Hn Hw. rewrite Forall_forall in Hacc. apply Hacc.
      assert (n ∈ at_processables l ++ ns) as [j Hj]%list_elem_of_lookup by (apply elem_of_app; by right).
      apply list_elem_of_lookup_2 with j. by apply (combined_nth l ns ws n w). }
    change (TxVerifyResultOk =? TxVerifyResultOk) with true. exists (set_account t addr (promoted l ns)), ns. split_and!; [done|done|done| |].
    - intros a Ha. cbn. by rewrite lookup_insert_ne.
    - intros _. rewrite (proj2 (Z.eqb_neq _ _) E). cbn. by rewrite lookup_insert_eq. }
  change (TxVerifyResultInvalid =? TxVerifyResultOk) with false.
  change (TxVerifyResultInvalid =? TxVerifyResultPending) with false. cbv beta iota zeta. rewrite Hi.
  assert (len (at_GetProcessables l) = len (at_processables l)) as HlenP by (unfold at_GetProcessables, lookups, len; by rewrite length_fmap).
  rewrite HlenP.
  destruct (promote_before addr l ns ws i t Ht Hl Hns Hcomb Hacc) as (t1 & l1 & Hm & Ht1 & Hl1 & Htr & Hfr).
  rewrite (bind_Returns _ _ _ _ _ Hm). rewrite (proj2 (Z.ltb_ge _ _)) by lia. rewrite Nat2Z.id, <- fmap_drop.
  destruct (remove_all_spec addr (drop i ws) t1 Ht1) as (t' & Hr & Ht' & Hfr').
  - rewrite fmap_drop, Hk. rewrite <- (take_drop i (_ ++ ns)) in Hnd. by apply NoDup_app in Hnd as (_ & _ & Hnd).
  - intros _. exists l1. split; [done|]. rewrite Htr. apply Forall_drop, Forall_forall, Hin.
  - exists t', ns. split_and!; [done|done|done|intros a Ha; by rewrite Hfr', Hfr|].
    intros Hall. destruct Hnot. apply Forall_forall. intros w Hw. by apply (Hall (tw_Nonce w)), Hin.
Qed.

Lemma reorg_loop ps t :
  pool_ok t → NoDup ps.*1 → (∀ addr l, (addr, l) ∈ ps → tp_perAccount t !! addr = Some l) →
  ∃ t', for_each reorg_account ps t = Returns ((), t') ∧ pool_ok t' ∧
    (∀ addr, addr ∉ ps.*1 → tp_perAccount t' !! addr = tp_perAccount t !! addr) ∧
    (∀ addr l, (addr, l) ∈ ps → (∀ n w, at_transactions l !! n = Some w → accepted w) →
       ∃ ns, at_GetPromotable l = Ok (lookups l ns) ∧
         tp_perAccount t' !! addr = Some (if len ns =? 0 then l else promoted l ns)).
Proof.
  revert t. induction ps as [|[addr l] ps IH]; intros t Ht Hnd Hps.
  { exists t. split_and!; [done|done|done|]. by intros ? ? ?%elem_of_nil. }
  cbn in Hnd. apply NoDup_cons in Hnd as [Hni Hnd]. cbn [for_each].
  destruct (reorg_account_spec addr l t Ht (Hps addr l ltac:(left))) as (t1 & ns & Hg & Hr & Ht1 & Hfr & Hacc).
  assert (∀ a k, (a, k) ∈ ps → a ≠ addr) as Hne by (intros a k Hk ->; apply Hni, list_elem_of_fmap; by exists (addr, k)).
  destruct (IH t1 Ht1 Hnd) as (t' & Hr' & Ht' & Hfr' & Hacc').
  { intros a k Hk. rewrite Hfr by by eapply Hne. apply Hps. by right. }
  exists t'. split_and!; [by rewrite (bind_Returns _ _ _ _ _ Hr)|done| |].
  - intros a [Ha1 Ha2]%not_elem_of_cons. by rewrite Hfr', Hfr.
  - intros a k [[= -> ->]|Hk]%elem_of_cons Hall; [|by apply Hacc'].
    exists ns. split; [done|]. rewrite Hfr' by done. by apply Hacc.
Qed.
End invariant.

(** ** Runs of the pool *)

Inductive pool_op :=
| OpAdd (now : Z) (tx : Transaction)
| OpRemove (id : bytes)
| OpReorg.

Definition run_op `{Norm, Hasher, PoolEnv} (op : pool_op) : pool_m () :=
  match op with
  | OpAdd now tx => Add now tx;; mret ()
  | OpRemove id => Remove id;; mret ()
  | OpReorg => reorg
  end.

(** The transactions that reach the pool have the nonce of a [uint64] and
    their size set. *)
Definition op_ok (op : pool_op) : Prop :=
  match op with
  | OpAdd _ tx => u64_ok (tx_Nonce tx) ∧ u64 (tx_size tx) ≠ 0
  | _ => True
  end.

(** An operation with its environment: what the application answers may change
    from one operation to the next. *)
Record pool_input := mkPoolInput { in_env : PoolEnv; in_op : pool_op }.

Fixpoint run_ops `{Norm, Hasher} (ins : list pool_input) : pool_m () :=
  match ins with
  | [] => mret ()
  | i :: ins => run_op (H1 := in_env i) (in_op i);; run_ops ins
  end.

Definition input_ok (i : pool_input) : Prop := PoolEnvLaws (H := in_env i) ∧ op_ok (in_op i).

(** The application accepted the transaction in a reorganisation. *)
Definition reorg_accepted (ins : list pool_input) (w : TransactionWithFeePriority) : Prop :=
  ∃ i, i ∈ ins ∧ in_op i = OpReorg ∧ accepted (H2 := in_env i) w.

Section runs.
Context `{Norm, HashLaws}.
Implicit Types allowed : TransactionWithFeePriority → Prop.

Lemma pool_ok_mono allowed allowed' t : (∀ w, allowed w → allowed' w) → pool_ok allowed t → pool_ok allowed' t.
Proof.
  intros Ha Ht. split; try apply Ht. intros addr l Hl. apply (pool_account _ t Ht) in Hl as []. split; try done.
  intros n w Hn Hw. by eapply Ha, acc_processable0.
Qed.

Lemma NewTransactionPool_ok allowed cfg :
  0 ≤ tc_MaxTransactions cfg → 0 ≤ tc_MaxTransactionsPerAccount cfg → pool_ok allowed (NewTransactionPool (Some cfg)).
Proof.
  intros H1' H2'. split; cbn.
  - done.
  - destruct (Z.eqb_spec (tc_MaxTransactions cfg) 0), (Z.eqb_spec (tc_MaxTransactionsPerAccount cfg) 0); lia.
  - intros id w. by rewrite lookup_empty.
  - intros addr l. by rewrite lookup_empty.
  - intros j Hj. cbn in Hj. lia.
  - by rewrite map_to_list_empty.
  - rewrite map_size_empty. destruct (Z.eqb_spec (tc_MaxTransactions cfg) 0); cbn; lia.
Qed.

Section step.
Context `{PoolEnvLaws}.

Lemma reorg_ok allowed t :
  (∀ w, accepted w → allowed w) → pool_ok allowed t →
  ∃ t', reorg t = Returns ((), t') ∧ pool_ok allowed t' ∧
    (∀ addr l, tp_perAccount t !! addr = Some l → (∀ n w, at_transactions l !! n = Some w → accepted w) →
       ∃ ns, at_GetPromotable l = Ok (lookups l ns) ∧
         tp_perAccount t' !! addr = Some (if len ns =? 0 then l else promoted l ns)).
Proof.
  intros Ha Ht. assert (reorg t = for_each reorg_account (iterate (tp_perAccount t)) t) as ->.
  { unfold reorg, mbind, pool_bind, RLock. pose proof (pool_mutex _ t Ht) as Hm. rewrite Hm. cbn.
    f_equal. destruct t. cbn in *. by subst. }
  destruct (reorg_loop allowed Ha (iterate (tp_perAccount t)) t Ht) as (t' & Hr & Ht' & _ & Hacc).
  - rewrite iterate_Permutation. apply NoDup_fst_map_to_list.
  - intros addr l. rewrite iterate_Permutation. apply elem_of_map_to_list.
  - exists t'. split_and!; [done|done|]. intros addr l Hl. apply Hacc. by rewrite iterate_Permutation, elem_of_map_to_list.
Qed.

(** The outcome of one operation. *)
Lemma run_op_ok allowed op t :
  op_ok op → pool_ok allowed t →
  match run_op op t with
  | Returns (_, t') => pool_ok (λ w, allowed w ∨ (op = OpReorg ∧ accepted w)) t'
  | Blocks => ∃ now tx p, op = OpAdd now tx ∧ full t = true ∧ admitted t tx p
  | Panics => ∃ id w sender, op = OpRemove id ∧ tp_allTransactions t !! id = Some w ∧
      SenderAddress (tw_Transaction w) = Ok sender ∧ tp_perAccount t !! sender = None
  end.
Proof.
  intros Hop Ht. destruct op as [now tx|id|]; cbn [run_op op_ok] in *.
  - destruct Hop as [Hn Hs]. pose proof (Add_spec _ now tx t Ht Hn Hs) as HA. pose proof (Add_cases now tx t (pool_mutex _ t Ht) Hs) as Hc.
    unfold mbind, pool_bind. destruct (Add now tx t) as [[b t1]| |]; [|done|].
    + eapply pool_ok_mono; [|apply HA]. by left.
    + destruct Hc as [[? _]|(p & Hadm & _)]; [done|]. by exists now, tx, p.
  - pose proof (remove_spec _ id t Ht) as HR. unfold Remove, mbind, pool_bind. destruct (remove id t) as [[b t1]| |]; [| |done].
    + eapply pool_ok_mono; [|apply HR]. by left.
    + destruct HR as (w & sender & ? & ? & ?). by exists id, w, sender.
  - destruct (reorg_ok (λ w, allowed w ∨ (OpReorg = OpReorg ∧ accepted w)) t) as (t1 & -> & Ht1 & _); [by right| |done].
    eapply pool_ok_mono; [|exact Ht]. by left.
Qed.
End step.

Lemma run_ops_snoc ins i t : run_ops (ins ++ [i]) t = match run_ops ins t with Returns (_, t') => run_op (H1 := in_env i) (in_op i) t' | r => r end.
Proof.
  revert t. induction ins as [|j ins IH]; intros t; cbn [app run_ops]; unfold mbind, pool_bind.
  - cbn. by destruct (run_op _ t) as [[[] t']| |].
  - destruct (run_op _ t) as [[[] t']| |]; [apply IH|done|done].
Qed.

Lemma run_ops_ok ins t0 :
  Forall input_ok ins → pool_ok (λ _, False) t0 →
  match run_ops ins t0 with
  | Returns (_, t) => pool_ok (reorg_accepted ins) t
  | Blocks => ∃ pre i post t now tx p, ins = pre ++ i :: post ∧ run_ops pre t0 = Returns ((), t) ∧ in_op i = OpAdd now tx ∧
      full t = true ∧ admitted (H2 := in_env i) t tx p
  | Panics => ∃ pre i post t id w sender, ins = pre ++ i :: post ∧ run_ops pre t0 = Returns ((), t) ∧ in_op i = OpRemove id ∧
      tp_allTransactions t !! id = Some w ∧ SenderAddress (tw_Transaction w) = Ok sender ∧ tp_perAccount t !! sender = None
  end.
Proof.
  intros Hins H0'. induction ins as [|i ins IH] using rev_ind; [by eapply pool_ok_mono; [|exact H0']|].
  apply Forall_app in Hins as [Hins [Hlaws Hop]%Forall_singleton]. specialize (IH Hins). rewrite run_ops_snoc.
  destruct (run_ops ins t0) as [[[] t]| |] eqn:E.
  - pose proof (run_op_ok (H2 := in_env i) (H3 := Hlaws) _ (in_op i) t Hop IH) as Hstep. destruct (run_op _ t) as [[u t']| |].
    + eapply pool_ok_mono; [|exact Hstep]. intros w [(j & Hj & ?)|[? ?]]; [exists j|exists i]; (split; [set_solver|done]).
    + destruct Hstep as (id & w & sender & ?). by exists ins, i, [], t, id, w, sender.
    + destruct Hstep as (now & tx & p & ?). by exists ins, i, [], t, now, tx, p.
  - destruct IH as (pre & j & post & t & id & w & sender & -> & ?). exists pre, j, (post ++ [i]), t, id, w, sender.
    by rewrite <-app_assoc.
  - destruct IH as (pre & j & post & t & now & tx & p & -> & ?). exists pre, j, (post ++ [i]), t, now, tx, p. by rewrite <-app_assoc.
Qed.
End runs.

(** ** Properties *)

(** C6: every run of the pool keeps its invariant.  Take any sequence of [Add],
    [Remove] and [reorg] from an empty pool with a sensible configuration, where
    what the application answers about a transaction, the result of publishing and
    the order of map iteration may be different for every operation.  Either all
    of them return, and then the mutex is free, every transaction is filed under
    its ID, every account list is well formed (heap of distinct nonces, ascending
    processable nonces, at most [MaxTransactionsPerAccount] of them), holds only
    transactions of its account that the pool knows by ID, and has as processable
    only transactions that the application accepted in one of the
    reorganisations (it may reject them since); the fee queue is a heap of exactly
    the pool's transactions, of which there are at most [MaxTransactions + 1].
    Or the first operation that does not return is an [Add] of an admissible
    transaction to a full pool, which blocks, or a [Remove] of a transaction whose
    account has no list any more, which panics; [reorg] always returns. *)
Theorem pool_invariant `{Norm, HashLaws} cfg ins :
  0 ≤ tc_MaxTransactions cfg → 0 ≤ tc_MaxTransactionsPerAccount cfg → Forall input_ok ins →
  let t0 := NewTransactionPool (Some cfg) in
  match run_ops ins t0 with
  | Returns (_, t) => pool_ok (reorg_accepted ins) t
  | Blocks => ∃ pre i post t now tx p, ins = pre ++ i :: post ∧ run_ops pre t0 = Returns ((), t) ∧ in_op i = OpAdd now tx ∧
      full t = true ∧ admitted (H2 := in_env i) t tx p
  | Panics => ∃ pre i post t id w sender, ins = pre ++ i :: post ∧ run_ops pre t0 = Returns ((), t) ∧ in_op i = OpRemove id ∧
      tp_allTransactions t !! id = Some w ∧ SenderAddress (tw_Transaction w) = Ok sender ∧ tp_perAccount t !! sender = None
  end.
Proof. intros Hm Hp Hins. apply run_ops_ok; [done|]. by apply NewTransactionPool_ok. Qed.

(** The reorganisation always returns and keeps the invariant; for every
    account whose transactions the application accepts, the account keeps its
    transactions and exactly the promotable nonces become processable in
    addition. *)
Theorem reorg_promotes `{Norm, HashLaws, PoolEnvLaws} allowed t :
  (∀ w, accepted w → allowed w) → pool_ok allowed t →
  ∃ t', reorg t = Returns ((), t') ∧ pool_ok allowed t' ∧
    ∀ addr l, tp_perAccount t !! addr = Some l → (∀ n w, at_transactions l !! n = Some w → accepted w) →
      ∃ ns l', at_GetPromotable l = Ok (lookups l ns) ∧ tp_perAccount t' !! addr = Some l' ∧
        at_transactions l' = at_transactions l ∧
        ∀ n, n ∈ at_processables l' ↔ n ∈ at_processables l ∨ n ∈ ns.
Proof.
  intros Ha Ht. destruct (reorg_ok allowed t Ha Ht) as (t' & Hr & Ht' & Hacc). exists t'. split_and!; [done|done|].
  intros addr l Hl Hall. destruct (Hacc addr l Hl Hall) as (ns & Hg & Hl').
  exists ns, (if len ns =? 0 then l else promoted l ns). split_and!; [done|done|by destruct (_ =? 0)|].
  intros n. destruct (Z.eqb_spec (len ns) 0) as [E|E].
  - destruct ns as [|x ns]; [|rewrite len_cons in E; pose proof (len_nonneg ns); lia]. rewrite elem_of_nil. tauto.
  - unfold promoted. cbn. by rewrite elem_of_promoted, elem_of_app.
Qed.

(** C40: [Add] calls the evictions while it holds the write lock, and they
    take the lock again: on a pool with more than [MaxTransactions]
    transactions [Add] never returns for a transaction that passes the checks,
    and this is the only case in which it does not return. *)
Theorem Add_blocks_iff `{Norm, HashLaws, PoolEnvLaws} allowed now tx t :
  pool_ok allowed t → u64 (tx_size tx) ≠ 0 →
  (Add now tx t = Blocks ↔ full t = true ∧ ∃ p, admitted t tx p) ∧
  (∀ b t', Add now tx t = Returns (b, t') → u64_ok (tx_Nonce tx) → pool_ok allowed t') ∧
  Add now tx t ≠ Panics.
Proof.
  intros Ht Hs. split_and!.
  - destruct (Add_cases now tx t (pool_mutex _ t Ht) Hs) as [[-> Hno]|(p & Hadm & Hadd)].
    + split; [done|]. intros [_ [p Hp]]. by destruct (Hno p).
    + cbv zeta in Hadd. destruct (full t); rewrite Hadd; [naive_solver|]. by split; [|intros [? _]].
  - intros b t' Hadd Hn. pose proof (Add_spec _ now tx t Ht Hn Hs) as HA. rewrite Hadd in HA. apply HA.
  - destruct (Add_cases now tx t (pool_mutex _ t Ht) Hs) as [[-> _]|(p & _ & Hadd)]; [done|].
    cbv zeta in Hadd. by destruct (full t); rewrite Hadd.
Qed.

(** *** Sample runs *)

Definition sample_env : PoolEnv :=
  {| abi_VerifyTransaction := λ _, Some TxVerifyResultOk; conn_Publish := λ _, true;
     iterate := λ A m, map_to_list m |}.

Lemma sample_env_laws : PoolEnvLaws (H := sample_env).
Proof. by split. Qed.

(** A transaction of the sender with public key [key]. *)
Definition pool_tx (id key nonce fee : Z) : Transaction :=
  mkTransaction [id] 100 [] [] nonce fee [key] [] [].

Definition pool_cfg : TransactionPoolConfig := mkTransactionPoolConfig 1 8 0 0 1.

(** The application that accepts nothing any more. *)
Definition rejecting_env : PoolEnv :=
  {| abi_VerifyTransaction := λ _, Some TxVerifyResultInvalid; conn_Publish := λ _, true; iterate := λ A m, map_to_list m |}.

Lemma rejecting_env_laws : PoolEnvLaws (H := rejecting_env).
Proof. by split. Qed.

Abbreviation sample_run ins := (run_ops (H := ascii_norm) (H0 := toy_hash) ins (NewTransactionPool (Some pool_cfg))).

Definition pool_after (ins : list pool_input) : TransactionPool :=
  match sample_run ins with
  | Returns (_, t) => t
  | _ => NewTransactionPool None
  end.

(** Two accounts, and both transactions become processable. *)
Definition two_accounts : list pool_input :=
  mkPoolInput sample_env <$> [OpAdd 0 (pool_tx 1 1 5 1000); OpAdd 0 (pool_tx 2 2 7 2000); OpReorg].

(** Then the application changes its mind. *)
Definition two_rejected : list pool_input := two_accounts ++ [mkPoolInput rejecting_env OpReorg].

Definition replaced : list pool_input :=
  mkPoolInput sample_env <$> [OpAdd 0 (pool_tx 1 1 5 1000); OpAdd 0 (pool_tx 2 1 5 2000); OpRemove [1]].

Ltac inputs_ok := repeat (apply Forall_cons; split; [split; [by split|done]|]); constructor.

Lemma pool_invariant_witness :
  pool_ok (H0 := toy_hash) (reorg_accepted two_rejected) (pool_after two_rejected) ∧ size (tp_allTransactions (pool_after two_rejected)) = 2%nat.
Proof.
  split; [|vm_compute; reflexivity]. assert (Forall input_ok two_rejected) as Hins by inputs_ok.
  pose proof (pool_invariant (H := ascii_norm) (H1 := toy_hash_laws) pool_cfg two_rejected ltac:(done) ltac:(done) Hins) as Hp.
  cbv zeta in Hp. unfold pool_after. destruct (sample_run two_rejected) as [[[] t]| |] eqn:E; [exact Hp|vm_compute in E; discriminate E..].
Defined.

(** The reorganisation asks the application about the accounts that have a
    promotable transaction only: here both transactions stay processable although
    the application rejects them. *)
Example reorg_keeps_rejected :
  GetProcessable (H1 := sample_env) (pool_after two_rejected) = GetProcessable (H1 := sample_env) (pool_after two_accounts) ∧
  match GetProcessable (H1 := sample_env) (pool_after two_rejected) with
  | Returns (txs, _) => len txs = 2 ∧ ∀ tx, tx ∈ txs → abi_VerifyTransaction (PoolEnv := rejecting_env) tx = Some TxVerifyResultInvalid
  | _ => False
  end.
Proof. vm_compute. by split; [|split]. Qed.

(** The two accounts before the reorganisation. *)
Definition two_pending : list pool_input := take 2 two_accounts.

Lemma two_pending_ok : pool_ok (H0 := toy_hash) (reorg_accepted two_pending) (pool_after two_pending).
Proof.
  assert (Forall input_ok two_pending) as Hins by inputs_ok.
  pose proof (run_ops_ok (H := ascii_norm) (H1 := toy_hash_laws) two_pending (NewTransactionPool (Some pool_cfg)) Hins) as Hp.
  unfold pool_after. destruct (sample_run two_pending) as [[[] t]| |] eqn:E; [|vm_compute in E; discriminate E..].
  apply Hp. by apply NewTransactionPool_ok.
Qed.

Lemma reorg_promotes_witness :
  ∃ t', reorg (H0 := toy_hash) (H1 := sample_env) (pool_after two_pending) = Returns ((), t').
Proof.
  destruct (reorg_promotes (H := ascii_norm) (H1 := toy_hash_laws) (H3 := sample_env_laws) (λ _, True) (pool_after two_pending)) as (t' & Hr & _).
  - done.
  - eapply pool_ok_mono; [|exact two_pending_ok]. done.
  - exists t'. exact Hr.
Defined.

(** With [MaxTransactions = 1] a third transaction with a higher fee priority
    blocks. *)
Lemma Add_blocks_iff_witness :
  Add (H := ascii_norm) (H0 := toy_hash) (H1 := sample_env) 0 (pool_tx 3 3 0 3000) (pool_after two_pending) = Blocks.
Proof.
  apply (Add_blocks_iff (H1 := toy_hash_laws) (H3 := sample_env_laws) _ 0 (pool_tx 3 3 0 3000) (pool_after two_pending) two_pending_ok);
    [done|]. split; [vm_compute; reflexivity|]. exists 30. split_and!.
  - vm_compute. reflexivity.
  - reflexivity.
  - done.
  - intros _ lowest Hl. vm_compute in Hl. injection Hl as <-. done.
  - by exists TxVerifyResultOk.
Defined.

(** The pool can reach a state in which [Remove] panics.  A transaction
    that replaces another one with the same nonce leaves the replaced one
    under its ID; removing the replaced one drops the list of the account,
    and removing the other one then dereferences the missing list. *)
Theorem Remove_panics_after_replacement :
  ∃ t, sample_run replaced = Returns ((), t) ∧
    tp_allTransactions t !! [2] ≠ None ∧ Remove (H0 := toy_hash) (H1 := sample_env) [2] t = Panics.
Proof. exists (pool_after replaced). split_and!; [by vm_compute|by vm_compute|by vm_compute]. Qed.
