(* ===== verification/Selector.v ===== *)
(** * Selector: the transactions of a generated block

    pkg/generator/selector.go and the transaction selection of generator.go
    ([selectTransactionsByFee], [limitTransactionsWithSize]) with the calls of
    abi_caller.go they make.  The application is a state with the two calls the
    selection needs; the iteration order of Go maps is a parameter, as in the
    transaction pool. *)

From S2P Require Import Prelude Collection Heap Codec Crypto BlockTypes Block TxList TxPool.

(** ** selector.go *)

Record FeeTransaction := mkFeeTransaction { ft_Transaction : Transaction; ft_FeePriority : Z }.

Definition FeePriorityTransactions_Less (x y : FeeTransaction) : bool :=
  u64 (ft_FeePriority y) <? u64 (ft_FeePriority x).

Definition byNonce (x y : FeeTransaction) : bool :=
  tx_Nonce (ft_Transaction x) <? tx_Nonce (ft_Transaction y).

Abbreviation senders := (gmap bytes (list FeeTransaction)).

Section selector.
Context `{Hasher}.

(** The first loop: the transactions per sender in the order of the pool. *)
Fixpoint group_by_sender (transactions : list Transaction) (result : senders) : res senders :=
  match transactions with
  | [] => Ok result
  | tx :: transactions =>
      sender ← SenderAddress tx;
      let senderMap := default [] (result !! sender) in
      if u64 (tx_size tx) =? 0 then Panic
      else
        let priority := tx_Fee tx / u64 (tx_size tx) in
        let senderMap := senderMap ++ [mkFeeTransaction tx (i64 priority)] in
        group_by_sender transactions (<[sender := senderMap]> result)
  end.

(** [for key, val := range result { sort.Slice(val, ...) }]. *)
Definition sort_senders (result : senders) : senders := sort_slice byNonce <$> result.

Definition getSortedTransactionMapByNonce (transactions : list Transaction) : res senders :=
  result ← group_by_sender transactions ∅;
  Ok (sort_senders result).
End selector.

(** ** The application *)

(** [client.VerifyTransaction] and [client.ExecuteTransaction]: the [Result]
    of the response, [None] for an error. *)
Class ABI (St : Type) := {
  client_VerifyTransaction : St → Transaction → option Z * St;
  client_ExecuteTransaction : St → BlockHeader → list BlockAsset → Transaction → option Z * St;
}.

Definition TxExecuteResultInvalid : Z := -1.

(** Whether the calls of the [stateExecuter] succeed. *)
Definition VerifyTransaction `{ABI St} (tx : Transaction) (s : St) : bool * St :=
  let '(r, s) := client_VerifyTransaction s tx in
  (bool_decide (r = Some TxVerifyResultOk), s).

Definition ExecuteTransaction `{ABI St} (header : BlockHeader) (assets : list BlockAsset) (tx : Transaction) (s : St)
    : bool * St :=
  let '(r, s) := client_ExecuteTransaction s header assets tx in
  (match r with Some r => negb (r =? TxExecuteResultInvalid) | None => false end, s).

(** ** generator.go *)

Section select.
Context `{Hasher, PoolEnv, ABI St}.
Context (header : BlockHeader) (assets : list BlockAsset) (maxSize : Z).

(** The heap with the lowest nonce of every sender. *)
Fixpoint push_lowest (l : list (bytes * list FeeTransaction)) (priorityTx : list FeeTransaction) : res (list FeeTransaction) :=
  match l with
  | [] => Ok priorityTx
  | (_, []) :: _ => Panic
  | (_, lowestNonce :: _) :: l => push_lowest l (Push FeePriorityTransactions_Less lowestNonce priorityTx)
  end.

(** [for len(transactionBySender) > 0].  Every round takes a transaction away
    from [transactionBySender] or ends the loop. *)
Fixpoint select_loop (fuel : nat) (transactionBySender : senders) (priorityTx : list FeeTransaction) (totalSize : Z)
    (resultTransaction : list Transaction) (s : St) : res (list Transaction * St) :=
  match fuel with
  | O => OutOfFuel
  | S fuel =>
      if (size transactionBySender =? 0)%nat then Ok (resultTransaction, s)
      else
        '(nextTx, priorityTx) ← Pop FeePriorityTransactions_Less priorityTx;
        let tx := ft_Transaction nextTx in
        if maxSize <? tx_size tx + totalSize then Ok (resultTransaction, s)
        else
          sender ← SenderAddress tx;
          let '(verified, s) := VerifyTransaction tx s in
          if negb verified then
            select_loop fuel (delete sender transactionBySender) priorityTx totalSize resultTransaction s
          else
            let '(executed, s) := ExecuteTransaction header assets tx s in
            if negb executed then
              select_loop fuel (delete sender transactionBySender) priorityTx totalSize resultTransaction s
            else
              let resultTransaction := resultTransaction ++ [tx] in
              let totalSize := totalSize + tx_size tx in
              match transactionBySender !! sender with
              | None | Some [] => Panic
              | Some [_] =>
                  select_loop fuel (delete sender transactionBySender) priorityTx totalSize resultTransaction s
              | Some (_ :: ((nextSmallest :: _) as fromSenderTx)) =>
                  select_loop fuel (<[sender := fromSenderTx]> transactionBySender)
                    (Push FeePriorityTransactions_Less nextSmallest priorityTx) totalSize resultTransaction s
              end
  end.

Definition selectTransactionsByFee (transactions : list Transaction) (s : St) : res (list Transaction * St) :=
  transactionBySender ← getSortedTransactionMapByNonce transactions;
  priorityTx ← push_lowest (iterate transactionBySender) (Init FeePriorityTransactions_Less []);
  select_loop (S (length transactions)) transactionBySender priorityTx 0 [] s.
End select.

Fixpoint limit_loop (maxTransactionsLength totalSize : Z) (txs : list Transaction) : list Transaction :=
  match txs with
  | [] => []
  | tx :: txs =>
      if maxTransactionsLength <? tx_size tx + totalSize then []
      else tx :: limit_loop maxTransactionsLength (totalSize + tx_size tx) txs
  end.

Definition limitTransactionsWithSize (maxTransactionsLength : Z) (txs : list Transaction) : list Transaction :=
  limit_loop maxTransactionsLength 0 txs.

(** ** The senders as a map of queues *)

Lemma less_ok_priority : less_ok FeePriorityTransactions_Less.
Proof. apply (less_ok_Z_desc (λ x, u64 (ft_FeePriority x))). Qed.

Lemma less_ok_byNonce : less_ok byNonce.
Proof. apply (less_ok_Z (λ x, tx_Nonce (ft_Transaction x))). Qed.

Definition heads (m : senders) : list FeeTransaction := omap (λ p, head p.2) (map_to_list m).

Definition weight (m : senders) : nat := sum_list_with (λ p : bytes * list FeeTransaction, length p.2) (map_to_list m).

Lemma heads_delete (m : senders) s x l : m !! s = Some (x :: l) → heads m ≡ₚ x :: heads (delete s m).
Proof. intros Hm. unfold heads. by rewrite <- (map_to_list_delete m s (x :: l)). Qed.

Lemma heads_insert (m : senders) s x l : heads (<[s := x :: l]> m) ≡ₚ x :: heads (delete s m).
Proof.
  rewrite <- insert_delete_eq. unfold heads. rewrite map_to_list_insert by apply lookup_delete_eq. done.
Qed.

Lemma weight_delete (m : senders) s l : m !! s = Some l → weight m = (length l + weight (delete s m))%nat.
Proof. intros Hm. unfold weight. by rewrite <- (map_to_list_delete m s l). Qed.

Lemma weight_insert (m : senders) s l : weight (<[s := l]> m) = (length l + weight (delete s m))%nat.
Proof.
  rewrite <- insert_delete_eq. unfold weight. rewrite map_to_list_insert by apply lookup_delete_eq. done.
Qed.

Lemma elem_of_heads (m : senders) x : x ∈ heads m → ∃ s l, m !! s = Some (x :: l).
Proof.
  unfold heads. rewrite list_elem_of_omap. intros ([s [|y l]] & Hin & Hx); [done|]. injection Hx as ->.
  apply elem_of_map_to_list in Hin. eauto.
Qed.

Section spec.
Context `{HashLaws, PoolEnvLaws, ABI St}.
Context (header : BlockHeader) (assets : list BlockAsset) (maxSize : Z).

Definition sender_is (a : bytes) (tx : Transaction) : Prop := SenderAddress tx = Ok a.

#[local] Instance sender_is_dec a tx : Decision (sender_is a tx).
Proof. unfold sender_is. apply _. Defined.

(** The transactions of one sender. *)
Definition by_sender (a : bytes) (txs : list Transaction) : list Transaction := filter (sender_is a) txs.

Definition total_size (txs : list Transaction) : Z := foldr (λ tx n, tx_size tx + n) 0 txs.

Record senders_ok (m : senders) : Prop := {
  so_nonempty s : m !! s ≠ Some [];
  so_sender s l x : m !! s = Some l → x ∈ l → sender_is s (ft_Transaction x);
}.

Definition queue (m : senders) (a : bytes) : list Transaction := ft_Transaction <$> default [] (m !! a).

(** The transaction was verified and executed in states the application was in. *)
Definition ran (tx : Transaction) : Prop :=
  ∃ s1 s2 s3 : St, VerifyTransaction tx s1 = (true, s2) ∧ ExecuteTransaction header assets tx s2 = (true, s3).

Lemma total_size_snoc txs tx : total_size (txs ++ [tx]) = total_size txs + tx_size tx.
Proof using. clear. induction txs as [|t txs IH]; cbn; [lia|]. unfold total_size in IH. rewrite IH. lia. Qed.

Lemma senders_ok_delete m s : senders_ok m → senders_ok (delete s m).
Proof using.
  clear. intros [H1 H2]. split.
  - intros a [_ Ha]%lookup_delete_Some. by apply (H1 a).
  - intros a l x [_ Ha]%lookup_delete_Some. by apply H2.
Qed.

Lemma senders_ok_tail m s x y l : senders_ok m → m !! s = Some (x :: y :: l) → senders_ok (<[s := y :: l]> m).
Proof using.
  clear. intros [H1 H2] Hs. split.
  - intros a [[_ ?]|[_ Ha]]%lookup_insert_Some; [done|by apply (H1 a)].
  - intros a k z [[<- <-]|[_ Ha]]%lookup_insert_Some Hz; [|by eapply H2]. eapply H2; [done|by right].
Qed.

(** Dropping the queue of a sender keeps what is selected a prefix. *)
Lemma prefix_delete (m m0 : senders) result s :
  (∀ a, by_sender a result ++ queue m a `prefix_of` queue m0 a) →
  ∀ a, by_sender a result ++ queue (delete s m) a `prefix_of` queue m0 a.
Proof using.
  clear. intros Hp a. unfold queue at 1. destruct (decide (a = s)) as [->|Hne].
  - rewrite lookup_delete_eq. cbn. rewrite app_nil_r. etransitivity; [|apply Hp]. apply prefix_app_r. done.
  - rewrite lookup_delete_ne by done. apply Hp.
Qed.

(** Selecting the head of a queue moves it to the result. *)
Lemma prefix_select (m m0 : senders) result s x l :
  m !! s = Some (x :: l) → sender_is s (ft_Transaction x) →
  (∀ a, by_sender a result ++ queue m a `prefix_of` queue m0 a) →
  ∀ a, by_sender a (result ++ [ft_Transaction x]) ++ queue (<[s := l]> m) a `prefix_of` queue m0 a.
Proof using.
  clear. intros Hs Hx Hp a. unfold by_sender. rewrite filter_app. unfold queue at 1. specialize (Hp a). destruct (decide (a = s)) as [->|Hne].
  - rewrite lookup_insert_eq. rewrite filter_cons, decide_True by done. cbn. rewrite <- app_assoc.
    unfold queue in Hp at 1. by rewrite Hs in Hp.
  - rewrite lookup_insert_ne by done. rewrite filter_cons, decide_False; [by rewrite app_nil_r|].
    unfold sender_is in *. congruence.
Qed.

Lemma queue_delete_nil m s a : queue (delete s m) a = queue (<[s := []]> m) a.
Proof using.
  clear. unfold queue. destruct (decide (a = s)) as [->|Hne].
  - by rewrite lookup_delete_eq, lookup_insert_eq.
  - by rewrite lookup_delete_ne, lookup_insert_ne.
Qed.

(** The invariant of the selection loop. *)
Record loop_inv (m0 m : senders) (q : list FeeTransaction) (total : Z) (result : list Transaction) : Prop := {
  li_heap : heap_ok FeePriorityTransactions_Less q;
  li_heads : q ≡ₚ heads m;
  li_ok : senders_ok m;
  li_total : total = total_size result;
  li_max : total ≤ maxSize;
  li_ran : Forall ran result;
  li_prefix a : by_sender a result ++ queue m a `prefix_of` queue m0 a;
}.

(** While senders are left, [Pop] gives the head of a sender's queue. *)
Lemma loop_pop m0 m q total result :
  loop_inv m0 m q total result → size m ≠ 0%nat →
  ∃ x l q' s, Pop FeePriorityTransactions_Less q = Ok (x, q') ∧ m !! s = Some (x :: l) ∧
    SenderAddress (ft_Transaction x) = Ok s ∧ heap_ok FeePriorityTransactions_Less q' ∧ q' ≡ₚ heads (delete s m).
Proof using.
  clear. intros [Hh Hq Hok _ _ _ _] Hsz.
  assert (q ≠ []) as Hne.
  { intros ->. apply map_size_ne_0_lookup in Hsz as (s & [[|x l] Hl]); [by apply (so_nonempty m Hok s)|].
    rewrite (heads_delete m s x l Hl) in Hq. by apply Permutation_nil_l in Hq. }
  destruct (Pop_spec _ less_ok_priority q Hne Hh) as (x & q' & HP & _ & Hp & Hh' & _).
  assert (x ∈ heads m) as (s & l & Hs)%elem_of_heads by (rewrite <- Hq, Hp; left).
  exists x, l, q', s. split_and!; [done|done| |done|].
  - apply (so_sender m Hok s (x :: l) x Hs). left.
  - apply (Permutation_cons_inv (a := x)). by rewrite <- Hp, Hq, (heads_delete m s x l Hs).
Qed.

Lemma loop_drop m0 m q total result s q' :
  loop_inv m0 m q total result → heap_ok FeePriorityTransactions_Less q' → q' ≡ₚ heads (delete s m) →
  loop_inv m0 (delete s m) q' total result.
Proof using.
  clear. intros [] Hh Hq. split; try done; [by apply senders_ok_delete|by apply prefix_delete].
Qed.

Lemma select_loop_spec fuel m0 m q total result s :
  loop_inv m0 m q total result → (weight m < fuel)%nat →
  ∃ sel s', select_loop header assets maxSize fuel m q total result s = Ok (sel, s') ∧
    total_size sel ≤ maxSize ∧ Forall ran sel ∧ ∀ a, by_sender a sel `prefix_of` queue m0 a.
Proof using.
  clear. revert m q total result s. induction fuel as [|fuel IH]; intros m q total result s Hinv Hf; [lia|]. cbn [select_loop].
  assert (∃ sel s', Ok (result, s) = Ok (sel, s') ∧ total_size sel ≤ maxSize ∧ Forall ran sel ∧ ∀ a, by_sender a sel `prefix_of` queue m0 a) as Hstop.
  { destruct Hinv as [_ _ _ Ht Hmax Hran Hp]. exists result, s. split_and!; [done|lia|done|].
    intros a. etransitivity; [|apply (Hp a)]. by apply prefix_app_r. }
  destruct (Nat.eqb_spec (size m) 0) as [E|E]; [exact Hstop|].
  destruct (loop_pop m0 m q total result Hinv E) as (x & l & q' & a & HP & Ha & Hs & Hh' & Hq').
  rewrite HP. cbn [mbind res_bind]. destruct (Z.ltb_spec maxSize (tx_size (ft_Transaction x) + total)) as [Hbig|Hsmall]; [exact Hstop|].
  clear Hstop. rewrite Hs. cbn [mbind res_bind]. pose proof (loop_drop m0 m q total result a q' Hinv Hh' Hq') as Hdrop.
  pose proof (weight_delete m a (x :: l) Ha) as Hw. cbn in Hw.
  destruct (VerifyTransaction (ft_Transaction x) s) as [[|] s1] eqn:Hv; cbn [negb]; [|apply IH; [done|lia]].
  destruct (ExecuteTransaction header assets (ft_Transaction x) s1) as [[|] s2] eqn:He; cbn [negb]; [|apply IH; [done|lia]].
  rewrite Ha. destruct Hinv as [_ _ Hok Ht Hmax Hran Hp].
  pose proof (prefix_select m m0 result a x l Ha Hs Hp) as Hp'.
  assert (Forall ran (result ++ [ft_Transaction x])) as Hran'.
  { apply Forall_app. split; [done|]. constructor; [by exists s, s1, s2|done]. }
  destruct l as [|y l].
  - apply IH; [|lia]. split; [done|done|by apply senders_ok_delete|rewrite total_size_snoc; lia|lia|done|].
    intros b. rewrite queue_delete_nil. apply Hp'.
  - apply IH; [|rewrite weight_insert; cbn in *; lia].
    split; [apply Push_heap; [apply less_ok_priority|done]| |by eapply senders_ok_tail|rewrite total_size_snoc; lia|lia|done|done].
    by rewrite Push_Permutation, heads_insert, Hq'.
Qed.

(** ** The grouping by sender *)

Record grouped (m : senders) (txs : list Transaction) : Prop := {
  gr_ok : senders_ok m;
  gr_queue a : queue m a = by_sender a txs;
  gr_weight : weight m = length txs;
}.

Lemma weight_lookup (m : senders) s l : m !! s = l → weight m = (length (default [] l) + weight (delete s m))%nat.
Proof using.
  clear. intros <-. destruct (m !! s) as [l|] eqn:Hl; [by apply weight_delete|]. by rewrite delete_id.
Qed.

Lemma group_by_sender_spec txs m done_ :
  Forall (λ tx, u64 (tx_size tx) ≠ 0) txs → grouped m done_ →
  ∃ m', group_by_sender txs m = Ok m' ∧ grouped m' (done_ ++ txs).
Proof using H0.
  revert m done_. induction txs as [|tx txs IH]; intros m done_ Hsz Hg; cbn [group_by_sender].
  { exists m. by rewrite app_nil_r. }
  apply Forall_cons in Hsz as [Hs Hsz]. rewrite SenderAddress_Ok. cbn [mbind res_bind]. set (a := take 20 _).
  rewrite (proj2 (Z.eqb_neq _ _)) by done. set (x := mkFeeTransaction tx _).
  replace (done_ ++ tx :: txs) with ((done_ ++ [tx]) ++ txs) by by rewrite <- app_assoc. apply IH; [done|].
  destruct Hg as [[Hne Hsd] Hq Hw]. split.
  - split.
    + intros b [[_ E]|[_ E]]%lookup_insert_Some; [by destruct (default [] (m !! a))|by apply (Hne b)].
    + intros b l y [[<- <-]|[_ E]]%lookup_insert_Some Hy; [|by eapply Hsd]. apply elem_of_app in Hy as [Hy|Hy%list_elem_of_singleton].
      * destruct (m !! a) as [l|] eqn:El; [by eapply Hsd|by apply elem_of_nil in Hy].
      * subst y. apply SenderAddress_Ok.
  - intros b. unfold by_sender. rewrite filter_app. fold (by_sender b done_). rewrite <- Hq. unfold queue. rewrite filter_cons.
    destruct (decide (b = a)) as [->|Hba].
    + rewrite lookup_insert_eq. cbn [default from_option id]. rewrite fmap_app. rewrite decide_True by apply SenderAddress_Ok. done.
    + rewrite lookup_insert_ne, decide_False; [by rewrite app_nil_r| |done]. unfold sender_is. rewrite SenderAddress_Ok.
      intros [= E]. apply Hba. symmetry. exact E.
  - rewrite weight_insert, !length_app, <- Hw. rewrite (weight_lookup m a _ eq_refl). cbn. lia.
Qed.

Lemma grouped_empty : grouped ∅ [].
Proof using.
  clear. split; [split| |done].
  - intros s. by rewrite lookup_empty.
  - intros s l x. by rewrite lookup_empty.
  - intros a. unfold queue. by rewrite lookup_empty.
Qed.

Lemma heads_sorted_ok m : senders_ok m → senders_ok (sort_senders m).
Proof using.
  clear. intros [Hne Hsd]. unfold sort_senders. split.
  - intros s. rewrite lookup_fmap. intros (l & Hs & Hl)%fmap_Some. apply (f_equal length) in Hl. rewrite length_sort_slice in Hl.
    destruct l; [by apply (Hne s)|done].
  - intros s l x. rewrite lookup_fmap. intros (k & Hk & ->)%fmap_Some. rewrite elem_of_sort_slice. by apply Hsd.
Qed.

Lemma weight_sorted m : weight (sort_senders m) = weight m.
Proof using.
  clear. unfold weight, sort_senders. rewrite map_to_list_fmap. induction (map_to_list m) as [|[s l] k IH]; [done|].
  cbn. rewrite length_sort_slice. by f_equal.
Qed.

Lemma push_lowest_spec l q :
  Forall (λ p, p.2 ≠ []) l → heap_ok FeePriorityTransactions_Less q →
  ∃ q', push_lowest l q = Ok q' ∧ heap_ok FeePriorityTransactions_Less q' ∧ q' ≡ₚ omap (λ p, head p.2) l ++ q.
Proof using.
  clear. revert q. induction l as [|[s [|x k]] l IH]; intros q Hl Hq; cbn [push_lowest].
  - by exists q.
  - by apply Forall_cons in Hl as [? _].
  - apply Forall_cons in Hl as [_ Hl]. destruct (IH (Push FeePriorityTransactions_Less x q)) as (q' & -> & Hh & Hp);
      [done|apply Push_heap; [apply less_ok_priority|done]|].
    exists q'. split_and!; [done|done|]. rewrite Hp, Push_Permutation. cbn. by rewrite Permutation_middle.
Qed.

Lemma total_size_cons tx txs : total_size (tx :: txs) = tx_size tx + total_size txs.
Proof using. done. Qed.

Lemma total_size_nonneg txs : Forall (λ tx, 0 ≤ tx_size tx) txs → 0 ≤ total_size txs.
Proof using. clear. induction 1; [done|]. rewrite total_size_cons. lia. Qed.

Lemma limit_loop_id total txs :
  Forall (λ tx, 0 ≤ tx_size tx) txs → total + total_size txs ≤ maxSize → limit_loop maxSize total txs = txs.
Proof using.
  clear. intros Hsz. revert total. induction Hsz as [|tx txs Htx Hsz IH]; intros total Ht; cbn [limit_loop]; [done|].
  rewrite total_size_cons in Ht. pose proof (total_size_nonneg txs Hsz).
  rewrite (proj2 (Z.ltb_ge _ _)) by lia. f_equal. apply IH. lia.
Qed.

(** A list of transactions in the order of their nonces. *)
Definition nonce_sorted (txs : list Transaction) : Prop := StronglySorted (λ x y, tx_Nonce x ≤ tx_Nonce y) txs.

Lemma sorted_queue m a :
  nonce_sorted (queue (sort_senders m) a) ∧ queue (sort_senders m) a ≡ₚ queue m a.
Proof using.
  clear. unfold queue, sort_senders. rewrite lookup_fmap. destruct (m !! a) as [l|]; cbn [fmap option_fmap option_map default from_option id]; [|by split; [constructor|]].
  split; [|by rewrite sort_slice_Permutation].
  pose proof (sort_slice_sorted byNonce l less_ok_byNonce) as Hs. unfold nonce_sorted.
  induction Hs as [|x k Hs IH Hx]; cbn; constructor; [done|]. apply Forall_fmap. eapply Forall_impl; [exact Hx|].
  intros y Hy. by apply Z.ltb_ge in Hy.
Qed.
End spec.

(** C26: on transactions with a size the selection always returns, and what it
    returns fits into the block: the sizes add up to at most [maxSize], so the
    limit that is applied afterwards keeps every transaction; every selected
    transaction was verified and executed; and of every sender the selected
    transactions are, in order, the first ones of that sender's transactions
    sorted by nonce. *)
Theorem selectTransactionsByFee_spec `{HashLaws, PoolEnvLaws, ABI St} header assets maxSize txs (s : St) :
  0 ≤ maxSize → Forall (λ tx, u64 (tx_size tx) ≠ 0) txs →
  ∃ sel s', selectTransactionsByFee header assets maxSize txs s = Ok (sel, s') ∧
    total_size sel ≤ maxSize ∧
    (Forall (λ tx, 0 ≤ tx_size tx) sel → limitTransactionsWithSize maxSize sel = sel) ∧
    Forall (ran (St := St) header assets) sel ∧
    ∀ a, ∃ sorted, nonce_sorted sorted ∧ sorted ≡ₚ by_sender a txs ∧ by_sender a sel `prefix_of` sorted.
Proof.
  intros Hmax Hsz. unfold selectTransactionsByFee, getSortedTransactionMapByNonce.
  destruct (group_by_sender_spec txs ∅ [] Hsz grouped_empty) as (m & -> & Hg). cbn [mbind res_bind].
  pose proof (heads_sorted_ok m (gr_ok _ _ Hg)) as Hok.
  destruct (push_lowest_spec (iterate (sort_senders m)) (Init FeePriorityTransactions_Less [])) as (q & -> & Hh & Hq).
  { apply Forall_forall. intros [a l]. rewrite iterate_Permutation, elem_of_map_to_list. intros Hl. cbn. intros E.
    rewrite E in Hl. by apply (so_nonempty _ Hok a). }
  { apply Init_heap, less_ok_priority. }
  cbn [mbind res_bind].
  destruct (select_loop_spec header assets maxSize (S (length txs)) (sort_senders m) (sort_senders m) q 0 [] s)
    as (sel & s' & -> & Htot & Hran & Hpre).
  { split; [done| |done|done|done|done|by intros a]. rewrite Hq, app_nil_r. unfold heads. by rewrite iterate_Permutation. }
  { rewrite weight_sorted, (gr_weight _ _ Hg). cbn [app]. lia. }
  exists sel, s'. split_and!; [done|done|intros Hs; by apply limit_loop_id|done|].
  intros a. destruct (sorted_queue m a) as [Hs Hp]. exists (queue (sort_senders m) a).
  split_and!; [done| |apply Hpre]. by rewrite Hp, (gr_queue _ _ Hg a).
Qed.

(** *** A sample selection *)

(** An application that accepts everything and counts the executions. *)
Definition counting_abi : ABI Z :=
  {| client_VerifyTransaction := λ s _, (Some TxVerifyResultOk, s);
     client_ExecuteTransaction := λ s _ _ _, (Some 1, s + 1) |}.

Definition selected_sample : res (list Transaction * Z) :=
  selectTransactionsByFee (H := toy_hash) (H0 := sample_env) (H1 := counting_abi) sample_header [] 250
    [pool_tx 1 1 6 9000; pool_tx 2 1 5 1000; pool_tx 3 2 0 2000; pool_tx 4 2 1 3000] 0.

(** The two best offers are those of the second sender; a third transaction
    does not fit. *)
Example selected_sample_result : selected_sample = Ok ([pool_tx 3 2 0 2000; pool_tx 4 2 1 3000], 2).
Proof. by vm_compute. Qed.

Lemma selectTransactionsByFee_spec_witness :
  ∃ sel s', selected_sample = Ok (sel, s') ∧ total_size sel ≤ 250.
Proof.
  destruct (selectTransactionsByFee_spec (H0 := toy_hash_laws) (H2 := sample_env_laws) (H3 := counting_abi) sample_header [] 250
    [pool_tx 1 1 6 9000; pool_tx 2 1 5 1000; pool_tx 3 2 0 2000; pool_tx 4 2 1 3000] 0) as (sel & s' & Hsel & Htot & _);
    [done|by repeat constructor|]. exists sel, s'. exact (conj Hsel Htot).
Defined.
