(* ===== verification/Event.v ===== *)
(** * Event: the events of a block

    pkg/blockchain/event.go and event_codec.go: events, their keys in the event
    tree and the event root, computed with the sparse Merkle tree. *)

From S2P Require Import Prelude Collection Codec CodecSpec Message Crypto BlockTypes Block SMT SMTMap SMTUpdate.

(** ** event_codec.go *)

Record StandardTransactionEvent := mkStandardTransactionEvent {
  StandardTransactionEvent_Success : bool;
}.

Definition StandardTransactionEvent_Encode (e : StandardTransactionEvent) : bytes :=
  Result (NewWriter
    |> WriteBool 1 (StandardTransactionEvent_Success e)).

Definition StandardTransactionEvent_DecodeFromReader (strict : bool) (r : Reader) : res (StandardTransactionEvent * Reader) :=
  '(Success_, r) ← ReadBool 1 strict r;
  Ok (mkStandardTransactionEvent Success_, r).

Definition StandardTransactionEvent_ok (e : StandardTransactionEvent) : Prop :=
  True.

Lemma StandardTransactionEvent_reads strict e :
  StandardTransactionEvent_ok e → Reads 1 2 (StandardTransactionEvent_DecodeFromReader strict) (StandardTransactionEvent_Encode e) e.
Proof.
  intros Hok. destruct e. unfold StandardTransactionEvent_ok, StandardTransactionEvent_DecodeFromReader, StandardTransactionEvent_Encode in *. solve_reads.
Qed.

#[export] Hint Resolve StandardTransactionEvent_reads : reads.

#[export] Instance StandardTransactionEvent_Message : Message StandardTransactionEvent :=
  { Encode := StandardTransactionEvent_Encode; DecodeFromReader := StandardTransactionEvent_DecodeFromReader; msg_ok := StandardTransactionEvent_ok }.
#[export] Instance StandardTransactionEvent_MessageLaws : MessageLaws StandardTransactionEvent.
Proof. split. eexists. intros. by apply StandardTransactionEvent_reads. Qed.

Record Event := mkEvent {
  Event_ID : bytes;
  Event_Module : bytes;
  Event_Name : bytes;
  Event_Data : bytes;
  Event_Topics : list bytes;
  Event_Height : Z;
  Event_Index : Z;
}.

Definition Event_Encode `{Norm} (e : Event) : bytes :=
  Result (NewWriter
    |> WriteString 1 (Event_Module e)
    |> WriteString 2 (Event_Name e)
    |> WriteBytes 3 (Event_Data e)
    |> WriteBytesArray 4 (Event_Topics e)
    |> WriteUInt32 5 (Event_Height e)
    |> WriteUInt32 6 (Event_Index e)).

Definition Event_DecodeFromReader `{Norm} (strict : bool) (r : Reader) : res (Event * Reader) :=
  '(Module_, r) ← ReadString 1 strict r;
  '(Name_, r) ← ReadString 2 strict r;
  '(Data_, r) ← ReadBytes 3 strict r;
  '(Topics_, r) ← ReadBytesArray 4 r;
  '(Height_, r) ← ReadUInt32 5 strict r;
  '(Index_, r) ← ReadUInt32 6 strict r;
  Ok (mkEvent [] Module_ Name_ Data_ Topics_ Height_ Index_, r).

Definition Event_ok `{Norm} (e : Event) : Prop :=
  Event_ID e = [] ∧ string_ok (Event_Module e) ∧ string_ok (Event_Name e) ∧
  u32_ok (Event_Height e) ∧ u32_ok (Event_Index e).

Lemma Event_reads `{Norm, !NormLaws} strict e :
  Event_ok e → Reads 1 7 (Event_DecodeFromReader strict) (Event_Encode e) e.
Proof.
  intros Hok. destruct e. unfold Event_ok, Event_DecodeFromReader, Event_Encode in *. solve_reads.
Qed.

#[export] Hint Resolve Event_reads : reads.

Lemma Event_total `{Norm} strict : Total 0 (Event_DecodeFromReader strict).
Proof. unfold Event_DecodeFromReader. solve_total. Qed.
#[export] Hint Resolve Event_total : go.

#[export] Instance Event_Message `{Norm} : Message Event :=
  { Encode := Event_Encode; DecodeFromReader := Event_DecodeFromReader; msg_ok := Event_ok }.
#[export] Instance Event_MessageLaws `{Norm, !NormLaws} : MessageLaws Event.
Proof. split. eexists. intros. by apply Event_reads. Qed.

(** ** event.go *)

Definition eventTopicHashLengthBytes : Z := 8.
Definition eventIndexLengthBits : Z := 30.
Definition eventTopicIndexLengthBits : Z := 2.
Definition EventMaxSizeBytes : Z := 1024.
Definition EventTotalIndexLengthBytes : Z := (eventIndexLengthBits + eventTopicIndexLengthBits) / 8.
Definition EventIDLengthBytes : Z := 4 + EventTotalIndexLengthBytes.
Definition EventMaxTopicsPerEvent : Z := 2 ^ eventTopicIndexLengthBits.
Definition MaxEventsPerBlock : Z := 2 ^ eventIndexLengthBits.

Section events.
Context `{Norm, Hasher}.

Definition NewEvent (val : bytes) : res Event := Message_Decode val.

Definition NewEventFromValues (module name data : bytes) (topics : list bytes) (height index : Z) : Event :=
  mkEvent [] module name data topics height index.

Definition NewStandardTransactionEventData (success : bool) : bytes :=
  StandardTransactionEvent_Encode (mkStandardTransactionEvent success).

(** The ID is returned, not stored. *)
Definition UpdateID (e : Event) : bytes :=
  let heightBytes := Bytes.FromUint32 (Event_Height e) in
  let idBytes := Bytes.FromUint32 (u32 (Z.shiftl (Event_Index e) eventTopicIndexLengthBits)) in
  Bytes.JoinSize EventTotalIndexLengthBytes [heightBytes; idBytes].

Fixpoint topic_pairs (e : Event) (i : Z) (topics : list bytes) : res (list (bytes * bytes)) :=
  match topics with
  | [] => Ok []
  | topic :: topics =>
      let indexBytes := Bytes.FromUint32 (u32 (u32 (Z.shiftl (Event_Index e) eventTopicIndexLengthBits) + u32 i)) in
      topicBytes ← slice (Hash topic) 0 eventTopicHashLengthBytes;
      rest ← topic_pairs e (i + 1) topics;
      Ok ((Bytes.Join [topicBytes; indexBytes], Event_Encode e) :: rest)
  end.

(** An [EventKeyPair] is a pair. *)
Definition KeyPairs (e : Event) : res (list (bytes * bytes)) := topic_pairs e 0 (Event_Topics e).

Definition Event_Validate (e : Event) : res () :=
  if negb (alphanumericRegex (Event_Module e)) then Err (Errorf "module does not satisfy alphanumeric")
  else if negb (alphanumericRegex (Event_Name e)) then Err (Errorf "name does not satisfy alphanumeric")
  else if EventMaxSizeBytes <? len (Event_Data e) then Err (Errorf "event exceeds max data size")
  else if len (Event_Topics e) =? 0 then Err (Errorf "topics must have at least one element")
  else if EventMaxTopicsPerEvent <? len (Event_Topics e) then Err (Errorf "event exceeds max topics length")
  else Ok ().

Definition set_Event_Index (i : Z) (e : Event) : Event :=
  mkEvent (Event_ID e) (Event_Module e) (Event_Name e) (Event_Data e) (Event_Topics e) (Event_Height e) i.

(** The result of [event.UpdateID()] is dropped. *)
Fixpoint UpdateIndex_from (i : Z) (events : list Event) : list Event :=
  match events with
  | [] => []
  | e :: events => set_Event_Index (u32 i) e :: UpdateIndex_from (i + 1) events
  end.

Definition UpdateIndex (events : list Event) : list Event := UpdateIndex_from 0 events.

Definition CalculateEventRoot (events : list Event) : res bytes :=
  let inmemoryDB : gmap bytes bytes := ∅ in
  let tree := NewTrie emptyHash (eventTopicHashLengthBytes + EventTotalIndexLengthBytes) in
  pairs ← map_res KeyPairs events;
  let kvs := concat pairs in
  '(root, _, _) ← Update tree inmemoryDB kvs.*1 kvs.*2;
  Ok root.
End events.

(** ** The keys of the event tree *)

Lemma unique_first_all kvs seen :
  NoDup kvs.*1 → (∀ k, k ∈ kvs.*1 → k ∉ seen) → unique_first kvs seen = kvs.
Proof.
  revert seen. induction kvs as [|[k v] kvs IH]; intros seen Hnd Hs; cbn [unique_first]; [done|].
  cbn in Hnd. apply NoDup_cons in Hnd as [Hk Hnd]. rewrite bool_decide_false by (apply Hs; left).
  f_equal. apply IH; [done|]. intros k' Hk' [->|Hin]%elem_of_cons; [done|]. apply (Hs k'); [by right|done].
Qed.

Section keys.
Context `{Norm, HashLaws}.

(** The index of the first topic of an event. *)
Abbreviation first_index e := (4 * Event_Index e).

Lemma topic_pairs_spec e i topics :
  0 ≤ Event_Index e < MaxEventsPerBlock → 0 ≤ i → i + len topics ≤ EventMaxTopicsPerEvent →
  ∃ l, topic_pairs e i topics = Ok l ∧
    drop 8 <$> l.*1 = Bytes.FromUint32 <$> seqZ (first_index e + i) (len topics).
Proof using H1.
  unfold MaxEventsPerBlock, EventMaxTopicsPerEvent, eventIndexLengthBits, eventTopicIndexLengthBits.
  intros He. revert i. induction topics as [|topic topics IH]; intros i Hi Hl; cbn [topic_pairs]; [by exists []|].
  rewrite len_cons in Hl. pose proof (len_nonneg topics).
  destruct (IH (i + 1)) as (l & Hp & Hk); [lia|lia|]. unfold eventTopicIndexLengthBits, eventTopicHashLengthBytes.
  assert (u32 (Z.shiftl (Event_Index e) 2) = first_index e) as Hsh.
  { rewrite Z.shiftl_mul_pow2 by lia. rewrite u32_small; [lia|unfold u32_ok; lia]. }
  rewrite Hsh, (u32_small i), (u32_small (_ + i)) by (unfold u32_ok; lia).
  assert (slice (Hash topic) 0 8 = Ok (take 8 (Hash topic))) as ->.
  { unfold slice. rewrite decide_True; [by rewrite drop_0|]. pose proof (Hash_len topic). unfold HashLengh in *. lia. }
  cbn [mbind res_bind]. rewrite Hp. cbn [mbind res_bind].
  eexists. split; [done|]. cbn [fmap list_fmap fst]. rewrite len_cons, (seqZ_cons (first_index e + i)) by lia.
  cbn [fmap list_fmap]. f_equal.
  - unfold Bytes.Join. cbn [concat]. rewrite app_nil_r. rewrite drop_app_length'; [done|]. rewrite length_take.
    pose proof (Hash_len topic) as Hh. unfold len, HashLengh in Hh. lia.
  - replace (Z.succ (first_index e + i)) with (first_index e + (i + 1)) by lia.
    replace (Z.pred (1 + len topics)) with (len topics) by lia. exact Hk.
Qed.

Definition index_ok (e : Event) : Prop := 0 ≤ Event_Index e < MaxEventsPerBlock ∧ len (Event_Topics e) ≤ EventMaxTopicsPerEvent.

(** The numbers of the topics of a block. *)
Definition topic_numbers (events : list Event) : list Z :=
  concat ((λ e, seqZ (first_index e) (len (Event_Topics e))) <$> events).

Lemma KeyPairs_numbers events :
  Forall index_ok events →
  ∃ pairs, map_res KeyPairs events = Ok pairs ∧ drop 8 <$> (concat pairs).*1 = Bytes.FromUint32 <$> topic_numbers events.
Proof using H1.
  induction 1 as [|e events [Hi Hl] Hev IH]; [by exists []|]. destruct IH as (pairs & Hp & Hk). cbn [map_res].
  destruct (topic_pairs_spec e 0 (Event_Topics e)) as (l & He & Hd); [done|lia|lia|]. assert (KeyPairs e = Ok l) as -> by exact He.
  cbn [mbind res_bind]. rewrite Hp. cbn [mbind res_bind]. exists (l :: pairs). split; [done|].
  unfold topic_numbers in *. cbn [concat fmap list_fmap]. rewrite !fmap_app. rewrite Z.add_0_r in Hd. by rewrite Hd, Hk.
Qed.

Lemma UpdateIndex_numbers i events :
  0 ≤ i → i + len events ≤ MaxEventsPerBlock → Forall (λ e, len (Event_Topics e) ≤ EventMaxTopicsPerEvent) events →
  Forall index_ok (UpdateIndex_from i events) ∧ NoDup (topic_numbers (UpdateIndex_from i events)) ∧
  Forall (λ n, 4 * i ≤ n < 2 ^ 32) (topic_numbers (UpdateIndex_from i events)).
Proof using.
  unfold index_ok, MaxEventsPerBlock, EventMaxTopicsPerEvent, eventIndexLengthBits, eventTopicIndexLengthBits.
  intros Hi Hl Hev. revert i Hi Hl. induction Hev as [|e events He Hev IH]; intros i Hi Hl; [by repeat constructor|].
  rewrite len_cons in Hl. pose proof (len_nonneg events). destruct (IH (i + 1)) as (H1' & H2' & H3'); [lia|lia|].
  cbn [UpdateIndex_from]. rewrite u32_small by (unfold u32_ok; lia). unfold topic_numbers in *.
  cbn [fmap list_fmap concat set_Event_Index Event_Index Event_Topics]. split_and!.
  - constructor; [|done]. cbn. lia.
  - apply NoDup_app. split_and!; [apply NoDup_seqZ| |done]. intros n [Hn1 Hn2]%elem_of_seqZ Hn3.
    rewrite Forall_forall in H3'. specialize (H3' n Hn3). cbn in *. lia.
  - apply Forall_app. split.
    + apply Forall_forall. intros n [Hn1 Hn2]%elem_of_seqZ. cbn in *. lia.
    + eapply Forall_impl; [exact H3'|]. cbn. lia.
Qed.

(** In a block with fewer than 2^30 events of at most four topics, whose
    indices were set by [UpdateIndex], the keys of the event tree are pairwise
    distinct, whatever the topics are, so [Update] drops none of the pairs and
    the event root covers every topic of every event. *)
Theorem event_keys_distinct events :
  len events ≤ MaxEventsPerBlock → Forall (λ e, len (Event_Topics e) ≤ EventMaxTopicsPerEvent) events →
  ∃ pairs, map_res KeyPairs (UpdateIndex events) = Ok pairs ∧ NoDup (concat pairs).*1 ∧
    unique_first (concat pairs) [] = concat pairs ∧
    length (concat pairs) = length (concat (Event_Topics <$> events)).
Proof using H1.
  intros Hl Ht. destruct (UpdateIndex_numbers 0 events) as (Hok & Hnd & Hr); [lia|lia|done|].
  destruct (KeyPairs_numbers _ Hok) as (pairs & Hp & Hk). exists pairs.
  assert (NoDup (concat pairs).*1) as Hkeys.
  { apply (NoDup_fmap_1 (drop 8)). rewrite Hk. apply NoDup_fmap_2_strong; [|done].
    rewrite Forall_forall in Hr. intros x y Hx Hy. apply Hr in Hx, Hy. apply Bytes.FromUint32_inj; unfold u32_ok; lia. }
  split_and!; [done|done|apply unique_first_all; [done|by intros k _ ?%elem_of_nil]|].
  apply (f_equal length) in Hk. rewrite !length_fmap in Hk. rewrite Hk. clear -Hl.
  unfold UpdateIndex. generalize 0. induction events as [|e events IH]; intros i; [done|].
  unfold topic_numbers in *. cbn [UpdateIndex_from fmap list_fmap concat]. rewrite !length_app, IH; [|rewrite len_cons in Hl; lia].
  f_equal. rewrite length_seqZ. cbn. unfold len. lia.
Qed.
End keys.

Lemma event_keys_distinct_witness :
  let events := [NewEventFromValues [] [] [1] [[1]; [1]] 7 0; NewEventFromValues [] [] [2] [[1]; [1]; [1]] 7 0] in
  ∃ pairs, map_res (KeyPairs (H := ascii_norm) (H0 := toy_hash)) (UpdateIndex events) = Ok pairs ∧
    length (concat pairs) = 5%nat.
Proof.
  intros events. destruct (event_keys_distinct (H := ascii_norm) (H1 := toy_hash_laws) events) as (pairs & Hp & _ & _ & Hl).
  - by vm_compute.
  - repeat constructor; by vm_compute.
  - exists pairs. split; [exact Hp|]. rewrite Hl. reflexivity.
Defined.
