(* ===== verification/LabiTypes.v ===== *)
(** * LabiTypes: the messages of the application interface and of the key store

    The generated codecs of pkg/labi, pkg/labi_client, pkg/crypto/encrypt and
    pkg/generator/schema, each with its round trip through nested readers
    ([_reads]), its totality ([_total], where no boolean is read) and its
    instance of [Message]. *)

From S2P Require Import Prelude Collection Codec CodecSpec Message Crypto BlockTypes Block SMT Event.

(** [new(blockchain.Transaction)] and [new(smt.Proof)]. *)
Definition Transaction_zero : Transaction := mkTransaction [] 0 [] [] 0 0 [] [] [].
Definition Proof_zero : Proof := mkProof [] [].

(** ** pkg/crypto/encrypt_codec.go: encrypted keys *)

Record KDFParams := mkKDFParams {
  KDFParams_Parallelism : Z;
  KDFParams_Iterations : Z;
  KDFParams_MemorySize : Z;
  KDFParams_Salt : bytes;
}.

Definition KDFParams_Encode (e : KDFParams) : bytes :=
  Result (NewWriter
    |> WriteUInt32 1 (KDFParams_Parallelism e)
    |> WriteUInt32 2 (KDFParams_Iterations e)
    |> WriteUInt32 3 (KDFParams_MemorySize e)
    |> WriteBytes 4 (KDFParams_Salt e)).

Definition KDFParams_DecodeFromReader (strict : bool) (r : Reader) : res (KDFParams * Reader) :=
  '(Parallelism_, r) ← ReadUInt32 1 strict r;
  '(Iterations_, r) ← ReadUInt32 2 strict r;
  '(MemorySize_, r) ← ReadUInt32 3 strict r;
  '(Salt_, r) ← ReadBytes 4 strict r;
  Ok (mkKDFParams Parallelism_ Iterations_ MemorySize_ Salt_, r).

Definition KDFParams_zero : KDFParams := mkKDFParams 0 0 0 [].

Definition KDFParams_ok (e : KDFParams) : Prop :=
  u32_ok (KDFParams_Parallelism e) ∧ u32_ok (KDFParams_Iterations e) ∧
  u32_ok (KDFParams_MemorySize e).

Lemma KDFParams_reads strict e :
  KDFParams_ok e → Reads 1 5 (KDFParams_DecodeFromReader strict) (KDFParams_Encode e) e.
Proof.
  intros Hok. destruct e. unfold KDFParams_ok, KDFParams_DecodeFromReader, KDFParams_Encode in *. solve_reads.
Qed.

#[export] Hint Resolve KDFParams_reads : reads.

Lemma KDFParams_total strict : Total 0 (KDFParams_DecodeFromReader strict).
Proof. unfold KDFParams_DecodeFromReader. solve_total. Qed.
#[export] Hint Resolve KDFParams_total : go.

#[export] Instance KDFParams_Message : Message KDFParams :=
  { Encode := KDFParams_Encode; DecodeFromReader := KDFParams_DecodeFromReader; msg_ok := KDFParams_ok }.
#[export] Instance KDFParams_MessageLaws : MessageLaws KDFParams.
Proof. split. eexists. intros. by apply KDFParams_reads. Qed.

Record CipherParams := mkCipherParams {
  CipherParams_IV : bytes;
  CipherParams_Tag : bytes;
}.

Definition CipherParams_Encode (e : CipherParams) : bytes :=
  Result (NewWriter
    |> WriteBytes 1 (CipherParams_IV e)
    |> WriteBytes 2 (CipherParams_Tag e)).

Definition CipherParams_DecodeFromReader (strict : bool) (r : Reader) : res (CipherParams * Reader) :=
  '(IV_, r) ← ReadBytes 1 strict r;
  '(Tag_, r) ← ReadBytes 2 strict r;
  Ok (mkCipherParams IV_ Tag_, r).

Definition CipherParams_zero : CipherParams := mkCipherParams [] [].

Definition CipherParams_ok (e : CipherParams) : Prop :=
  True.

Lemma CipherParams_reads strict e :
  CipherParams_ok e → Reads 1 3 (CipherParams_DecodeFromReader strict) (CipherParams_Encode e) e.
Proof.
  intros Hok. destruct e. unfold CipherParams_ok, CipherParams_DecodeFromReader, CipherParams_Encode in *. solve_reads.
Qed.

#[export] Hint Resolve CipherParams_reads : reads.

Lemma CipherParams_total strict : Total 0 (CipherParams_DecodeFromReader strict).
Proof. unfold CipherParams_DecodeFromReader. solve_total. Qed.
#[export] Hint Resolve CipherParams_total : go.

#[export] Instance CipherParams_Message : Message CipherParams :=
  { Encode := CipherParams_Encode; DecodeFromReader := CipherParams_DecodeFromReader; msg_ok := CipherParams_ok }.
#[export] Instance CipherParams_MessageLaws : MessageLaws CipherParams.
Proof. split. eexists. intros. by apply CipherParams_reads. Qed.

Record EncryptedMessage := mkEncryptedMessage {
  EncryptedMessage_Version : bytes;
  EncryptedMessage_CipherText : bytes;
  EncryptedMessage_Mac : bytes;
  EncryptedMessage_KDF : bytes;
  EncryptedMessage_KDFParams : option KDFParams;
  EncryptedMessage_Cipher : bytes;
  EncryptedMessage_CipherParams : option CipherParams;
}.

Definition EncryptedMessage_Encode `{Norm} (e : EncryptedMessage) : bytes :=
  Result (NewWriter
    |> WriteString 1 (EncryptedMessage_Version e)
    |> WriteBytes 2 (EncryptedMessage_CipherText e)
    |> WriteBytes 3 (EncryptedMessage_Mac e)
    |> WriteString 4 (EncryptedMessage_KDF e)
    |> WriteEncodable 5 (KDFParams_Encode <$> EncryptedMessage_KDFParams e)
    |> WriteString 6 (EncryptedMessage_Cipher e)
    |> WriteEncodable 7 (CipherParams_Encode <$> EncryptedMessage_CipherParams e)).

Definition EncryptedMessage_DecodeFromReader `{Norm} (strict : bool) (r : Reader) : res (EncryptedMessage * Reader) :=
  '(Version_, r) ← ReadString 1 strict r;
  '(CipherText_, r) ← ReadBytes 2 strict r;
  '(Mac_, r) ← ReadBytes 3 strict r;
  '(KDF_, r) ← ReadString 4 strict r;
  '(KDFParams_, r) ← ReadDecodable 5 KDFParams_zero (KDFParams_DecodeFromReader false) strict r;
  '(Cipher_, r) ← ReadString 6 strict r;
  '(CipherParams_, r) ← ReadDecodable 7 CipherParams_zero (CipherParams_DecodeFromReader false) strict r;
  Ok (mkEncryptedMessage Version_ CipherText_ Mac_ KDF_ (Some KDFParams_) Cipher_
    (Some CipherParams_), r).

Definition EncryptedMessage_ok `{Norm} (e : EncryptedMessage) : Prop :=
  string_ok (EncryptedMessage_Version e) ∧ string_ok (EncryptedMessage_KDF e) ∧
  (∃ c, EncryptedMessage_KDFParams e = Some c ∧ KDFParams_ok c) ∧
  string_ok (EncryptedMessage_Cipher e) ∧
  (∃ c, EncryptedMessage_CipherParams e = Some c ∧ CipherParams_ok c).

Lemma EncryptedMessage_reads `{Norm, !NormLaws} strict e :
  EncryptedMessage_ok e → Reads 1 8 (EncryptedMessage_DecodeFromReader strict) (EncryptedMessage_Encode e) e.
Proof.
  intros Hok. destruct e. unfold EncryptedMessage_ok, EncryptedMessage_DecodeFromReader, EncryptedMessage_Encode in *. solve_reads.
Qed.

#[export] Hint Resolve EncryptedMessage_reads : reads.

Lemma EncryptedMessage_total `{Norm} strict : Total 0 (EncryptedMessage_DecodeFromReader strict).
Proof. unfold EncryptedMessage_DecodeFromReader. solve_total. Qed.
#[export] Hint Resolve EncryptedMessage_total : go.

#[export] Instance EncryptedMessage_Message `{Norm} : Message EncryptedMessage :=
  { Encode := EncryptedMessage_Encode; DecodeFromReader := EncryptedMessage_DecodeFromReader; msg_ok := EncryptedMessage_ok }.
#[export] Instance EncryptedMessage_MessageLaws `{Norm, !NormLaws} : MessageLaws EncryptedMessage.
Proof. split. eexists. intros. by apply EncryptedMessage_reads. Qed.

(** ** pkg/generator/schema_codec.go: keys and the record of generated blocks *)

Record Keypair := mkKeypair {
  Keypair_address : bytes;
  Keypair_generationPublicKey : bytes;
  Keypair_generationPrivateKey : bytes;
  Keypair_blsPrivateKey : bytes;
}.

Definition Keypair_Encode (e : Keypair) : bytes :=
  Result (NewWriter
    |> WriteBytes 1 (Keypair_address e)
    |> WriteBytes 2 (Keypair_generationPublicKey e)
    |> WriteBytes 3 (Keypair_generationPrivateKey e)
    |> WriteBytes 4 (Keypair_blsPrivateKey e)).

Definition Keypair_DecodeFromReader (strict : bool) (r : Reader) : res (Keypair * Reader) :=
  '(address_, r) ← ReadBytes 1 strict r;
  '(generationPublicKey_, r) ← ReadBytes 2 strict r;
  '(generationPrivateKey_, r) ← ReadBytes 3 strict r;
  '(blsPrivateKey_, r) ← ReadBytes 4 strict r;
  Ok (mkKeypair address_ generationPublicKey_ generationPrivateKey_ blsPrivateKey_, r).

Definition Keypair_ok (e : Keypair) : Prop :=
  True.

Lemma Keypair_reads strict e :
  Keypair_ok e → Reads 1 5 (Keypair_DecodeFromReader strict) (Keypair_Encode e) e.
Proof.
  intros Hok. destruct e. unfold Keypair_ok, Keypair_DecodeFromReader, Keypair_Encode in *. solve_reads.
Qed.

#[export] Hint Resolve Keypair_reads : reads.

Lemma Keypair_total strict : Total 0 (Keypair_DecodeFromReader strict).
Proof. unfold Keypair_DecodeFromReader. solve_total. Qed.
#[export] Hint Resolve Keypair_total : go.

#[export] Instance Keypair_Message : Message Keypair :=
  { Encode := Keypair_Encode; DecodeFromReader := Keypair_DecodeFromReader; msg_ok := Keypair_ok }.
#[export] Instance Keypair_MessageLaws : MessageLaws Keypair.
Proof. split. eexists. intros. by apply Keypair_reads. Qed.

Record GeneratorInfo := mkGeneratorInfo {
  GeneratorInfo_Height : Z;
  GeneratorInfo_MaxHeightPrevoted : Z;
  GeneratorInfo_MaxHeightGenerated : Z;
}.

Definition GeneratorInfo_Encode (e : GeneratorInfo) : bytes :=
  Result (NewWriter
    |> WriteUInt32 1 (GeneratorInfo_Height e)
    |> WriteUInt32 2 (GeneratorInfo_MaxHeightPrevoted e)
    |> WriteUInt32 3 (GeneratorInfo_MaxHeightGenerated e)).

Definition GeneratorInfo_DecodeFromReader (strict : bool) (r : Reader) : res (GeneratorInfo * Reader) :=
  '(Height_, r) ← ReadUInt32 1 strict r;
  '(MaxHeightPrevoted_, r) ← ReadUInt32 2 strict r;
  '(MaxHeightGenerated_, r) ← ReadUInt32 3 strict r;
  Ok (mkGeneratorInfo Height_ MaxHeightPrevoted_ MaxHeightGenerated_, r).

Definition GeneratorInfo_ok (e : GeneratorInfo) : Prop :=
  u32_ok (GeneratorInfo_Height e) ∧ u32_ok (GeneratorInfo_MaxHeightPrevoted e) ∧
  u32_ok (GeneratorInfo_MaxHeightGenerated e).

Lemma GeneratorInfo_reads strict e :
  GeneratorInfo_ok e → Reads 1 4 (GeneratorInfo_DecodeFromReader strict) (GeneratorInfo_Encode e) e.
Proof.
  intros Hok. destruct e. unfold GeneratorInfo_ok, GeneratorInfo_DecodeFromReader, GeneratorInfo_Encode in *. solve_reads.
Qed.

#[export] Hint Resolve GeneratorInfo_reads : reads.

Lemma GeneratorInfo_total strict : Total 0 (GeneratorInfo_DecodeFromReader strict).
Proof. unfold GeneratorInfo_DecodeFromReader. solve_total. Qed.
#[export] Hint Resolve GeneratorInfo_total : go.

#[export] Instance GeneratorInfo_Message : Message GeneratorInfo :=
  { Encode := GeneratorInfo_Encode; DecodeFromReader := GeneratorInfo_DecodeFromReader; msg_ok := GeneratorInfo_ok }.
#[export] Instance GeneratorInfo_MessageLaws : MessageLaws GeneratorInfo.
Proof. split. eexists. intros. by apply GeneratorInfo_reads. Qed.

Record Keys := mkKeys {
  Keys_Address : bytes;
  Keys_Type : bytes;
  Keys_Data : bytes;
}.

Definition Keys_Encode `{Norm} (e : Keys) : bytes :=
  Result (NewWriter
    |> WriteBytes 1 (Keys_Address e)
    |> WriteString 2 (Keys_Type e)
    |> WriteBytes 3 (Keys_Data e)).

Definition Keys_DecodeFromReader `{Norm} (strict : bool) (r : Reader) : res (Keys * Reader) :=
  '(Address_, r) ← ReadBytes 1 strict r;
  '(Type_, r) ← ReadString 2 strict r;
  '(Data_, r) ← ReadBytes 3 strict r;
  Ok (mkKeys Address_ Type_ Data_, r).

Definition Keys_ok `{Norm} (e : Keys) : Prop :=
  string_ok (Keys_Type e).

Lemma Keys_reads `{Norm, !NormLaws} strict e :
  Keys_ok e → Reads 1 4 (Keys_DecodeFromReader strict) (Keys_Encode e) e.
Proof.
  intros Hok. destruct e. unfold Keys_ok, Keys_DecodeFromReader, Keys_Encode in *. solve_reads.
Qed.

#[export] Hint Resolve Keys_reads : reads.

Lemma Keys_total `{Norm} strict : Total 0 (Keys_DecodeFromReader strict).
Proof. unfold Keys_DecodeFromReader. solve_total. Qed.
#[export] Hint Resolve Keys_total : go.

#[export] Instance Keys_Message `{Norm} : Message Keys :=
  { Encode := Keys_Encode; DecodeFromReader := Keys_DecodeFromReader; msg_ok := Keys_ok }.
#[export] Instance Keys_MessageLaws `{Norm, !NormLaws} : MessageLaws Keys.
Proof. split. eexists. intros. by apply Keys_reads. Qed.

Record PlainKeys := mkPlainKeys {
  PlainKeys_GeneratorKey : bytes;
  PlainKeys_GeneratorPrivateKey : bytes;
  PlainKeys_BLSKey : bytes;
  PlainKeys_BLSPrivateKey : bytes;
}.

Definition PlainKeys_Encode (e : PlainKeys) : bytes :=
  Result (NewWriter
    |> WriteBytes 1 (PlainKeys_GeneratorKey e)
    |> WriteBytes 2 (PlainKeys_GeneratorPrivateKey e)
    |> WriteBytes 3 (PlainKeys_BLSKey e)
    |> WriteBytes 4 (PlainKeys_BLSPrivateKey e)).

Definition PlainKeys_DecodeFromReader (strict : bool) (r : Reader) : res (PlainKeys * Reader) :=
  '(GeneratorKey_, r) ← ReadBytes 1 strict r;
  '(GeneratorPrivateKey_, r) ← ReadBytes 2 strict r;
  '(BLSKey_, r) ← ReadBytes 3 strict r;
  '(BLSPrivateKey_, r) ← ReadBytes 4 strict r;
  Ok (mkPlainKeys GeneratorKey_ GeneratorPrivateKey_ BLSKey_ BLSPrivateKey_, r).

Definition PlainKeys_ok (e : PlainKeys) : Prop :=
  True.

Lemma PlainKeys_reads strict e :
  PlainKeys_ok e → Reads 1 5 (PlainKeys_DecodeFromReader strict) (PlainKeys_Encode e) e.
Proof.
  intros Hok. destruct e. unfold PlainKeys_ok, PlainKeys_DecodeFromReader, PlainKeys_Encode in *. solve_reads.
Qed.

#[export] Hint Resolve PlainKeys_reads : reads.

Lemma PlainKeys_total strict : Total 0 (PlainKeys_DecodeFromReader strict).
Proof. unfold PlainKeys_DecodeFromReader. solve_total. Qed.
#[export] Hint Resolve PlainKeys_total : go.

#[export] Instance PlainKeys_Message : Message PlainKeys :=
  { Encode := PlainKeys_Encode; DecodeFromReader := PlainKeys_DecodeFromReader; msg_ok := PlainKeys_ok }.
#[export] Instance PlainKeys_MessageLaws : MessageLaws PlainKeys.
Proof. split. eexists. intros. by apply PlainKeys_reads. Qed.

(** ** pkg/labi/labi_codec.go: requests and responses of the application *)

Record InitRequest := mkInitRequest {
  InitRequest_ChainID : bytes;
  InitRequest_LastBlockHeight : Z;
  InitRequest_LastStateRoot : bytes;
}.

Definition InitRequest_Encode (e : InitRequest) : bytes :=
  Result (NewWriter
    |> WriteBytes 1 (InitRequest_ChainID e)
    |> WriteUInt32 2 (InitRequest_LastBlockHeight e)
    |> WriteBytes 3 (InitRequest_LastStateRoot e)).

Definition InitRequest_DecodeFromReader (strict : bool) (r : Reader) : res (InitRequest * Reader) :=
  '(ChainID_, r) ← ReadBytes 1 strict r;
  '(LastBlockHeight_, r) ← ReadUInt32 2 strict r;
  '(LastStateRoot_, r) ← ReadBytes 3 strict r;
  Ok (mkInitRequest ChainID_ LastBlockHeight_ LastStateRoot_, r).

Definition InitRequest_ok (e : InitRequest) : Prop :=
  u32_ok (InitRequest_LastBlockHeight e).

Lemma InitRequest_reads strict e :
  InitRequest_ok e → Reads 1 4 (InitRequest_DecodeFromReader strict) (InitRequest_Encode e) e.
Proof.
  intros Hok. destruct e. unfold InitRequest_ok, InitRequest_DecodeFromReader, InitRequest_Encode in *. solve_reads.
Qed.

#[export] Hint Resolve InitRequest_reads : reads.

Lemma InitRequest_total strict : Total 0 (InitRequest_DecodeFromReader strict).
Proof. unfold InitRequest_DecodeFromReader. solve_total. Qed.
#[export] Hint Resolve InitRequest_total : go.

#[export] Instance InitRequest_Message : Message InitRequest :=
  { Encode := InitRequest_Encode; DecodeFromReader := InitRequest_DecodeFromReader; msg_ok := InitRequest_ok }.
#[export] Instance InitRequest_MessageLaws : MessageLaws InitRequest.
Proof. split. eexists. intros. by apply InitRequest_reads. Qed.

Record InitStateMachineRequest := mkInitStateMachineRequest {
  InitStateMachineRequest_Header : option BlockHeader;
}.

Definition InitStateMachineRequest_Encode (e : InitStateMachineRequest) : bytes :=
  Result (NewWriter
    |> WriteEncodable 1 (BlockHeader_Encode <$> InitStateMachineRequest_Header e)).

Definition InitStateMachineRequest_DecodeFromReader (strict : bool) (r : Reader) : res (InitStateMachineRequest * Reader) :=
  '(Header_, r) ← ReadDecodable 1 BlockHeader_zero (BlockHeader_DecodeFromReader false) strict r;
  Ok (mkInitStateMachineRequest (Some Header_), r).

Definition InitStateMachineRequest_ok (e : InitStateMachineRequest) : Prop :=
  (∃ c, InitStateMachineRequest_Header e = Some c ∧ BlockHeader_ok c).

Lemma InitStateMachineRequest_reads strict e :
  InitStateMachineRequest_ok e → Reads 1 2 (InitStateMachineRequest_DecodeFromReader strict) (InitStateMachineRequest_Encode e) e.
Proof.
  intros Hok. destruct e. unfold InitStateMachineRequest_ok, InitStateMachineRequest_DecodeFromReader, InitStateMachineRequest_Encode in *. solve_reads.
Qed.

#[export] Hint Resolve InitStateMachineRequest_reads : reads.

#[export] Instance InitStateMachineRequest_Message : Message InitStateMachineRequest :=
  { Encode := InitStateMachineRequest_Encode; DecodeFromReader := InitStateMachineRequest_DecodeFromReader; msg_ok := InitStateMachineRequest_ok }.
#[export] Instance InitStateMachineRequest_MessageLaws : MessageLaws InitStateMachineRequest.
Proof. split. eexists. intros. by apply InitStateMachineRequest_reads. Qed.

Record InitStateMachineResponse := mkInitStateMachineResponse {
  InitStateMachineResponse_ContextID : bytes;
}.

Definition InitStateMachineResponse_Encode (e : InitStateMachineResponse) : bytes :=
  Result (NewWriter
    |> WriteBytes 1 (InitStateMachineResponse_ContextID e)).

Definition InitStateMachineResponse_DecodeFromReader (strict : bool) (r : Reader) : res (InitStateMachineResponse * Reader) :=
  '(ContextID_, r) ← ReadBytes 1 strict r;
  Ok (mkInitStateMachineResponse ContextID_, r).

Definition InitStateMachineResponse_ok (e : InitStateMachineResponse) : Prop :=
  True.

Lemma InitStateMachineResponse_reads strict e :
  InitStateMachineResponse_ok e → Reads 1 2 (InitStateMachineResponse_DecodeFromReader strict) (InitStateMachineResponse_Encode e) e.
Proof.
  intros Hok. destruct e. unfold InitStateMachineResponse_ok, InitStateMachineResponse_DecodeFromReader, InitStateMachineResponse_Encode in *. solve_reads.
Qed.

#[export] Hint Resolve InitStateMachineResponse_reads : reads.

Lemma InitStateMachineResponse_total strict : Total 0 (InitStateMachineResponse_DecodeFromReader strict).
Proof. unfold InitStateMachineResponse_DecodeFromReader. solve_total. Qed.
#[export] Hint Resolve InitStateMachineResponse_total : go.

#[export] Instance InitStateMachineResponse_Message : Message InitStateMachineResponse :=
  { Encode := InitStateMachineResponse_Encode; DecodeFromReader := InitStateMachineResponse_DecodeFromReader; msg_ok := InitStateMachineResponse_ok }.
#[export] Instance InitStateMachineResponse_MessageLaws : MessageLaws InitStateMachineResponse.
Proof. split. eexists. intros. by apply InitStateMachineResponse_reads. Qed.

Record InitGenesisStateRequest := mkInitGenesisStateRequest {
  InitGenesisStateRequest_ContextID : bytes;
}.

Definition InitGenesisStateRequest_Encode (e : InitGenesisStateRequest) : bytes :=
  Result (NewWriter
    |> WriteBytes 1 (InitGenesisStateRequest_ContextID e)).

Definition InitGenesisStateRequest_DecodeFromReader (strict : bool) (r : Reader) : res (InitGenesisStateRequest * Reader) :=
  '(ContextID_, r) ← ReadBytes 1 strict r;
  Ok (mkInitGenesisStateRequest ContextID_, r).

Definition InitGenesisStateRequest_ok (e : InitGenesisStateRequest) : Prop :=
  True.

Lemma InitGenesisStateRequest_reads strict e :
  InitGenesisStateRequest_ok e → Reads 1 2 (InitGenesisStateRequest_DecodeFromReader strict) (InitGenesisStateRequest_Encode e) e.
Proof.
  intros Hok. destruct e. unfold InitGenesisStateRequest_ok, InitGenesisStateRequest_DecodeFromReader, InitGenesisStateRequest_Encode in *. solve_reads.
Qed.

#[export] Hint Resolve InitGenesisStateRequest_reads : reads.

Lemma InitGenesisStateRequest_total strict : Total 0 (InitGenesisStateRequest_DecodeFromReader strict).
Proof. unfold InitGenesisStateRequest_DecodeFromReader. solve_total. Qed.
#[export] Hint Resolve InitGenesisStateRequest_total : go.

#[export] Instance InitGenesisStateRequest_Message : Message InitGenesisStateRequest :=
  { Encode := InitGenesisStateRequest_Encode; DecodeFromReader := InitGenesisStateRequest_DecodeFromReader; msg_ok := InitGenesisStateRequest_ok }.
#[export] Instance InitGenesisStateRequest_MessageLaws : MessageLaws InitGenesisStateRequest.
Proof. split. eexists. intros. by apply InitGenesisStateRequest_reads. Qed.

Record LabiValidator := mkLabiValidator {
  LabiValidator_Address : bytes;
  LabiValidator_BFTWeight : Z;
  LabiValidator_GeneratorKey : bytes;
  LabiValidator_BLSKey : bytes;
}.

Definition LabiValidator_Encode (e : LabiValidator) : bytes :=
  Result (NewWriter
    |> WriteBytes 1 (LabiValidator_Address e)
    |> WriteUInt 2 (LabiValidator_BFTWeight e)
    |> WriteBytes 3 (LabiValidator_GeneratorKey e)
    |> WriteBytes 4 (LabiValidator_BLSKey e)).

Definition LabiValidator_DecodeFromReader (strict : bool) (r : Reader) : res (LabiValidator * Reader) :=
  '(Address_, r) ← ReadBytes 1 strict r;
  '(BFTWeight_, r) ← ReadUInt 2 strict r;
  '(GeneratorKey_, r) ← ReadBytes 3 strict r;
  '(BLSKey_, r) ← ReadBytes 4 strict r;
  Ok (mkLabiValidator Address_ BFTWeight_ GeneratorKey_ BLSKey_, r).

Definition LabiValidator_ok (e : LabiValidator) : Prop :=
  u64_ok (LabiValidator_BFTWeight e).

Lemma LabiValidator_reads strict e :
  LabiValidator_ok e → Reads 1 5 (LabiValidator_DecodeFromReader strict) (LabiValidator_Encode e) e.
Proof.
  intros Hok. destruct e. unfold LabiValidator_ok, LabiValidator_DecodeFromReader, LabiValidator_Encode in *. solve_reads.
Qed.

#[export] Hint Resolve LabiValidator_reads : reads.

Lemma LabiValidator_total strict : Total 0 (LabiValidator_DecodeFromReader strict).
Proof. unfold LabiValidator_DecodeFromReader. solve_total. Qed.
#[export] Hint Resolve LabiValidator_total : go.

#[export] Instance LabiValidator_Message : Message LabiValidator :=
  { Encode := LabiValidator_Encode; DecodeFromReader := LabiValidator_DecodeFromReader; msg_ok := LabiValidator_ok }.
#[export] Instance LabiValidator_MessageLaws : MessageLaws LabiValidator.
Proof. split. eexists. intros. by apply LabiValidator_reads. Qed.

Record InitGenesisStateResponse := mkInitGenesisStateResponse {
  InitGenesisStateResponse_Events : list Event;
  InitGenesisStateResponse_PreCommitThreshold : Z;
  InitGenesisStateResponse_CertificateThreshold : Z;
  InitGenesisStateResponse_NextValidators : list LabiValidator;
}.

Definition InitGenesisStateResponse_Encode `{Norm} (e : InitGenesisStateResponse) : bytes :=
  Result (NewWriter
    |> (λ w, foldl (λ w val, WriteEncodable 1 (Some (Event_Encode val)) w) w (InitGenesisStateResponse_Events e))
    |> WriteUInt 2 (InitGenesisStateResponse_PreCommitThreshold e)
    |> WriteUInt 3 (InitGenesisStateResponse_CertificateThreshold e)
    |> (λ w, foldl (λ w val, WriteEncodable 4 (Some (LabiValidator_Encode val)) w) w (InitGenesisStateResponse_NextValidators e))).

Definition InitGenesisStateResponse_DecodeFromReader `{Norm} (strict : bool) (r : Reader) : res (InitGenesisStateResponse * Reader) :=
  '(Events_, r) ← ReadDecodables 1 (Event_DecodeFromReader false) r;
  '(PreCommitThreshold_, r) ← ReadUInt 2 strict r;
  '(CertificateThreshold_, r) ← ReadUInt 3 strict r;
  '(NextValidators_, r) ← ReadDecodables 4 (LabiValidator_DecodeFromReader false) r;
  Ok (mkInitGenesisStateResponse Events_ PreCommitThreshold_ CertificateThreshold_ NextValidators_, r).

Definition InitGenesisStateResponse_ok `{Norm} (e : InitGenesisStateResponse) : Prop :=
  Forall Event_ok (InitGenesisStateResponse_Events e) ∧
  u64_ok (InitGenesisStateResponse_PreCommitThreshold e) ∧
  u64_ok (InitGenesisStateResponse_CertificateThreshold e) ∧
  Forall LabiValidator_ok (InitGenesisStateResponse_NextValidators e).

Lemma InitGenesisStateResponse_reads `{Norm, !NormLaws} strict e :
  InitGenesisStateResponse_ok e → Reads 1 5 (InitGenesisStateResponse_DecodeFromReader strict) (InitGenesisStateResponse_Encode e) e.
Proof.
  intros Hok. destruct e. unfold InitGenesisStateResponse_ok, InitGenesisStateResponse_DecodeFromReader, InitGenesisStateResponse_Encode in *. solve_reads.
Qed.

#[export] Hint Resolve InitGenesisStateResponse_reads : reads.

Lemma InitGenesisStateResponse_total `{Norm} strict : Total 0 (InitGenesisStateResponse_DecodeFromReader strict).
Proof. unfold InitGenesisStateResponse_DecodeFromReader. solve_total. Qed.
#[export] Hint Resolve InitGenesisStateResponse_total : go.

#[export] Instance InitGenesisStateResponse_Message `{Norm} : Message InitGenesisStateResponse :=
  { Encode := InitGenesisStateResponse_Encode; DecodeFromReader := InitGenesisStateResponse_DecodeFromReader; msg_ok := InitGenesisStateResponse_ok }.
#[export] Instance InitGenesisStateResponse_MessageLaws `{Norm, !NormLaws} : MessageLaws InitGenesisStateResponse.
Proof. split. eexists. intros. by apply InitGenesisStateResponse_reads. Qed.

Record InsertAssetsRequest := mkInsertAssetsRequest {
  InsertAssetsRequest_ContextID : bytes;
  InsertAssetsRequest_FinalizedHeight : Z;
}.

Definition InsertAssetsRequest_Encode (e : InsertAssetsRequest) : bytes :=
  Result (NewWriter
    |> WriteBytes 1 (InsertAssetsRequest_ContextID e)
    |> WriteUInt32 2 (InsertAssetsRequest_FinalizedHeight e)).

Definition InsertAssetsRequest_DecodeFromReader (strict : bool) (r : Reader) : res (InsertAssetsRequest * Reader) :=
  '(ContextID_, r) ← ReadBytes 1 strict r;
  '(FinalizedHeight_, r) ← ReadUInt32 2 strict r;
  Ok (mkInsertAssetsRequest ContextID_ FinalizedHeight_, r).

Definition InsertAssetsRequest_ok (e : InsertAssetsRequest) : Prop :=
  u32_ok (InsertAssetsRequest_FinalizedHeight e).

Lemma InsertAssetsRequest_reads strict e :
  InsertAssetsRequest_ok e → Reads 1 3 (InsertAssetsRequest_DecodeFromReader strict) (InsertAssetsRequest_Encode e) e.
Proof.
  intros Hok. destruct e. unfold InsertAssetsRequest_ok, InsertAssetsRequest_DecodeFromReader, InsertAssetsRequest_Encode in *. solve_reads.
Qed.

#[export] Hint Resolve InsertAssetsRequest_reads : reads.

Lemma InsertAssetsRequest_total strict : Total 0 (InsertAssetsRequest_DecodeFromReader strict).
Proof. unfold InsertAssetsRequest_DecodeFromReader. solve_total. Qed.
#[export] Hint Resolve InsertAssetsRequest_total : go.

#[export] Instance InsertAssetsRequest_Message : Message InsertAssetsRequest :=
  { Encode := InsertAssetsRequest_Encode; DecodeFromReader := InsertAssetsRequest_DecodeFromReader; msg_ok := InsertAssetsRequest_ok }.
#[export] Instance InsertAssetsRequest_MessageLaws : MessageLaws InsertAssetsRequest.
Proof. split. eexists. intros. by apply InsertAssetsRequest_reads. Qed.

Record InsertAssetsResponse := mkInsertAssetsResponse {
  InsertAssetsResponse_Assets : list BlockAsset;
}.

Definition InsertAssetsResponse_Encode `{Norm} (e : InsertAssetsResponse) : bytes :=
  Result (NewWriter
    |> (λ w, foldl (λ w val, WriteEncodable 1 (Some (BlockAsset_Encode val)) w) w (InsertAssetsResponse_Assets e))).

Definition InsertAssetsResponse_DecodeFromReader `{Norm} (strict : bool) (r : Reader) : res (InsertAssetsResponse * Reader) :=
  '(Assets_, r) ← ReadDecodables 1 (BlockAsset_DecodeFromReader false) r;
  Ok (mkInsertAssetsResponse Assets_, r).

Definition InsertAssetsResponse_ok `{Norm} (e : InsertAssetsResponse) : Prop :=
  Forall BlockAsset_ok (InsertAssetsResponse_Assets e).

Lemma InsertAssetsResponse_reads `{Norm, !NormLaws} strict e :
  InsertAssetsResponse_ok e → Reads 1 2 (InsertAssetsResponse_DecodeFromReader strict) (InsertAssetsResponse_Encode e) e.
Proof.
  intros Hok. destruct e. unfold InsertAssetsResponse_ok, InsertAssetsResponse_DecodeFromReader, InsertAssetsResponse_Encode in *. solve_reads.
Qed.

#[export] Hint Resolve InsertAssetsResponse_reads : reads.

Lemma InsertAssetsResponse_total `{Norm} strict : Total 0 (InsertAssetsResponse_DecodeFromReader strict).
Proof. unfold InsertAssetsResponse_DecodeFromReader. solve_total. Qed.
#[export] Hint Resolve InsertAssetsResponse_total : go.

#[export] Instance InsertAssetsResponse_Message `{Norm} : Message InsertAssetsResponse :=
  { Encode := InsertAssetsResponse_Encode; DecodeFromReader := InsertAssetsResponse_DecodeFromReader; msg_ok := InsertAssetsResponse_ok }.
#[export] Instance InsertAssetsResponse_MessageLaws `{Norm, !NormLaws} : MessageLaws InsertAssetsResponse.
Proof. split. eexists. intros. by apply InsertAssetsResponse_reads. Qed.

Record VerifyAssetsRequest := mkVerifyAssetsRequest {
  VerifyAssetsRequest_ContextID : bytes;
  VerifyAssetsRequest_Assets : list BlockAsset;
}.

Definition VerifyAssetsRequest_Encode `{Norm} (e : VerifyAssetsRequest) : bytes :=
  Result (NewWriter
    |> WriteBytes 1 (VerifyAssetsRequest_ContextID e)
    |> (λ w, foldl (λ w val, WriteEncodable 2 (Some (BlockAsset_Encode val)) w) w (VerifyAssetsRequest_Assets e))).

Definition VerifyAssetsRequest_DecodeFromReader `{Norm} (strict : bool) (r : Reader) : res (VerifyAssetsRequest * Reader) :=
  '(ContextID_, r) ← ReadBytes 1 strict r;
  '(Assets_, r) ← ReadDecodables 2 (BlockAsset_DecodeFromReader false) r;
  Ok (mkVerifyAssetsRequest ContextID_ Assets_, r).

Definition VerifyAssetsRequest_ok `{Norm} (e : VerifyAssetsRequest) : Prop :=
  Forall BlockAsset_ok (VerifyAssetsRequest_Assets e).

Lemma VerifyAssetsRequest_reads `{Norm, !NormLaws} strict e :
  VerifyAssetsRequest_ok e → Reads 1 3 (VerifyAssetsRequest_DecodeFromReader strict) (VerifyAssetsRequest_Encode e) e.
Proof.
  intros Hok. destruct e. unfold VerifyAssetsRequest_ok, VerifyAssetsRequest_DecodeFromReader, VerifyAssetsRequest_Encode in *. solve_reads.
Qed.

#[export] Hint Resolve VerifyAssetsRequest_reads : reads.

Lemma VerifyAssetsRequest_total `{Norm} strict : Total 0 (VerifyAssetsRequest_DecodeFromReader strict).
Proof. unfold VerifyAssetsRequest_DecodeFromReader. solve_total. Qed.
#[export] Hint Resolve VerifyAssetsRequest_total : go.

#[export] Instance VerifyAssetsRequest_Message `{Norm} : Message VerifyAssetsRequest :=
  { Encode := VerifyAssetsRequest_Encode; DecodeFromReader := VerifyAssetsRequest_DecodeFromReader; msg_ok := VerifyAssetsRequest_ok }.
#[export] Instance VerifyAssetsRequest_MessageLaws `{Norm, !NormLaws} : MessageLaws VerifyAssetsRequest.
Proof. split. eexists. intros. by apply VerifyAssetsRequest_reads. Qed.

Record LabiConsensus := mkLabiConsensus {
  LabiConsensus_CurrentValidators : list LabiValidator;
  LabiConsensus_ImplyMaxPrevote : bool;
  LabiConsensus_MaxHeightCertified : Z;
  LabiConsensus_CertificateThreshold : Z;
}.

Definition LabiConsensus_Encode (e : LabiConsensus) : bytes :=
  Result (NewWriter
    |> (λ w, foldl (λ w val, WriteEncodable 1 (Some (LabiValidator_Encode val)) w) w (LabiConsensus_CurrentValidators e))
    |> WriteBool 2 (LabiConsensus_ImplyMaxPrevote e)
    |> WriteUInt32 3 (LabiConsensus_MaxHeightCertified e)
    |> WriteUInt 4 (LabiConsensus_CertificateThreshold e)).

Definition LabiConsensus_DecodeFromReader (strict : bool) (r : Reader) : res (LabiConsensus * Reader) :=
  '(CurrentValidators_, r) ← ReadDecodables 1 (LabiValidator_DecodeFromReader false) r;
  '(ImplyMaxPrevote_, r) ← ReadBool 2 strict r;
  '(MaxHeightCertified_, r) ← ReadUInt32 3 strict r;
  '(CertificateThreshold_, r) ← ReadUInt 4 strict r;
  Ok (mkLabiConsensus CurrentValidators_ ImplyMaxPrevote_ MaxHeightCertified_
    CertificateThreshold_, r).

Definition LabiConsensus_zero : LabiConsensus := mkLabiConsensus [] false 0 0.

Definition LabiConsensus_ok (e : LabiConsensus) : Prop :=
  Forall LabiValidator_ok (LabiConsensus_CurrentValidators e) ∧
  u32_ok (LabiConsensus_MaxHeightCertified e) ∧ u64_ok (LabiConsensus_CertificateThreshold e).

Lemma LabiConsensus_reads strict e :
  LabiConsensus_ok e → Reads 1 5 (LabiConsensus_DecodeFromReader strict) (LabiConsensus_Encode e) e.
Proof.
  intros Hok. destruct e. unfold LabiConsensus_ok, LabiConsensus_DecodeFromReader, LabiConsensus_Encode in *. solve_reads.
Qed.

#[export] Hint Resolve LabiConsensus_reads : reads.

#[export] Instance LabiConsensus_Message : Message LabiConsensus :=
  { Encode := LabiConsensus_Encode; DecodeFromReader := LabiConsensus_DecodeFromReader; msg_ok := LabiConsensus_ok }.
#[export] Instance LabiConsensus_MessageLaws : MessageLaws LabiConsensus.
Proof. split. eexists. intros. by apply LabiConsensus_reads. Qed.

Record BeforeTransactionsExecuteRequest := mkBeforeTransactionsExecuteRequest {
  BeforeTransactionsExecuteRequest_ContextID : bytes;
  BeforeTransactionsExecuteRequest_Assets : list BlockAsset;
  BeforeTransactionsExecuteRequest_Consensus : option LabiConsensus;
}.

Definition BeforeTransactionsExecuteRequest_Encode `{Norm} (e : BeforeTransactionsExecuteRequest) : bytes :=
  Result (NewWriter
    |> WriteBytes 1 (BeforeTransactionsExecuteRequest_ContextID e)
    |> (λ w, foldl (λ w val, WriteEncodable 2 (Some (BlockAsset_Encode val)) w) w (BeforeTransactionsExecuteRequest_Assets e))
    |> WriteEncodable 3 (LabiConsensus_Encode <$> BeforeTransactionsExecuteRequest_Consensus e)).

Definition BeforeTransactionsExecuteRequest_DecodeFromReader `{Norm} (strict : bool) (r : Reader) : res (BeforeTransactionsExecuteRequest * Reader) :=
  '(ContextID_, r) ← ReadBytes 1 strict r;
  '(Assets_, r) ← ReadDecodables 2 (BlockAsset_DecodeFromReader false) r;
  '(Consensus_, r) ← ReadDecodable 3 LabiConsensus_zero (LabiConsensus_DecodeFromReader false) strict r;
  Ok (mkBeforeTransactionsExecuteRequest ContextID_ Assets_ (Some Consensus_), r).

Definition BeforeTransactionsExecuteRequest_ok `{Norm} (e : BeforeTransactionsExecuteRequest) : Prop :=
  Forall BlockAsset_ok (BeforeTransactionsExecuteRequest_Assets e) ∧
  (∃ c, BeforeTransactionsExecuteRequest_Consensus e = Some c ∧ LabiConsensus_ok c).

Lemma BeforeTransactionsExecuteRequest_reads `{Norm, !NormLaws} strict e :
  BeforeTransactionsExecuteRequest_ok e → Reads 1 4 (BeforeTransactionsExecuteRequest_DecodeFromReader strict) (BeforeTransactionsExecuteRequest_Encode e) e.
Proof.
  intros Hok. destruct e. unfold BeforeTransactionsExecuteRequest_ok, BeforeTransactionsExecuteRequest_DecodeFromReader, BeforeTransactionsExecuteRequest_Encode in *. solve_reads.
Qed.

#[export] Hint Resolve BeforeTransactionsExecuteRequest_reads : reads.

#[export] Instance BeforeTransactionsExecuteRequest_Message `{Norm} : Message BeforeTransactionsExecuteRequest :=
  { Encode := BeforeTransactionsExecuteRequest_Encode; DecodeFromReader := BeforeTransactionsExecuteRequest_DecodeFromReader; msg_ok := BeforeTransactionsExecuteRequest_ok }.
#[export] Instance BeforeTransactionsExecuteRequest_MessageLaws `{Norm, !NormLaws} : MessageLaws BeforeTransactionsExecuteRequest.
Proof. split. eexists. intros. by apply BeforeTransactionsExecuteRequest_reads. Qed.

Record BeforeTransactionsExecuteResponse := mkBeforeTransactionsExecuteResponse {
  BeforeTransactionsExecuteResponse_Events : list Event;
}.

Definition BeforeTransactionsExecuteResponse_Encode `{Norm} (e : BeforeTransactionsExecuteResponse) : bytes :=
  Result (NewWriter
    |> (λ w, foldl (λ w val, WriteEncodable 1 (Some (Event_Encode val)) w) w (BeforeTransactionsExecuteResponse_Events e))).

Definition BeforeTransactionsExecuteResponse_DecodeFromReader `{Norm} (strict : bool) (r : Reader) : res (BeforeTransactionsExecuteResponse * Reader) :=
  '(Events_, r) ← ReadDecodables 1 (Event_DecodeFromReader false) r;
  Ok (mkBeforeTransactionsExecuteResponse Events_, r).

Definition BeforeTransactionsExecuteResponse_ok `{Norm} (e : BeforeTransactionsExecuteResponse) : Prop :=
  Forall Event_ok (BeforeTransactionsExecuteResponse_Events e).

Lemma BeforeTransactionsExecuteResponse_reads `{Norm, !NormLaws} strict e :
  BeforeTransactionsExecuteResponse_ok e → Reads 1 2 (BeforeTransactionsExecuteResponse_DecodeFromReader strict) (BeforeTransactionsExecuteResponse_Encode e) e.
Proof.
  intros Hok. destruct e. unfold BeforeTransactionsExecuteResponse_ok, BeforeTransactionsExecuteResponse_DecodeFromReader, BeforeTransactionsExecuteResponse_Encode in *. solve_reads.
Qed.

#[export] Hint Resolve BeforeTransactionsExecuteResponse_reads : reads.

Lemma BeforeTransactionsExecuteResponse_total `{Norm} strict : Total 0 (BeforeTransactionsExecuteResponse_DecodeFromReader strict).
Proof. unfold BeforeTransactionsExecuteResponse_DecodeFromReader. solve_total. Qed.
#[export] Hint Resolve BeforeTransactionsExecuteResponse_total : go.

#[export] Instance BeforeTransactionsExecuteResponse_Message `{Norm} : Message BeforeTransactionsExecuteResponse :=
  { Encode := BeforeTransactionsExecuteResponse_Encode; DecodeFromReader := BeforeTransactionsExecuteResponse_DecodeFromReader; msg_ok := BeforeTransactionsExecuteResponse_ok }.
#[export] Instance BeforeTransactionsExecuteResponse_MessageLaws `{Norm, !NormLaws} : MessageLaws BeforeTransactionsExecuteResponse.
Proof. split. eexists. intros. by apply BeforeTransactionsExecuteResponse_reads. Qed.

Record AfterTransactionsExecuteRequest := mkAfterTransactionsExecuteRequest {
  AfterTransactionsExecuteRequest_ContextID : bytes;
  AfterTransactionsExecuteRequest_Assets : list BlockAsset;
  AfterTransactionsExecuteRequest_Consensus : option LabiConsensus;
  AfterTransactionsExecuteRequest_Transactions : list Transaction;
}.

Definition AfterTransactionsExecuteRequest_Encode `{Norm} (e : AfterTransactionsExecuteRequest) : bytes :=
  Result (NewWriter
    |> WriteBytes 1 (AfterTransactionsExecuteRequest_ContextID e)
    |> (λ w, foldl (λ w val, WriteEncodable 2 (Some (BlockAsset_Encode val)) w) w (AfterTransactionsExecuteRequest_Assets e))
    |> WriteEncodable 3 (LabiConsensus_Encode <$> AfterTransactionsExecuteRequest_Consensus e)
    |> (λ w, foldl (λ w val, WriteEncodable 4 (Some (Transaction_Encode val)) w) w (AfterTransactionsExecuteRequest_Transactions e))).

Definition AfterTransactionsExecuteRequest_DecodeFromReader `{Norm} (strict : bool) (r : Reader) : res (AfterTransactionsExecuteRequest * Reader) :=
  '(ContextID_, r) ← ReadBytes 1 strict r;
  '(Assets_, r) ← ReadDecodables 2 (BlockAsset_DecodeFromReader false) r;
  '(Consensus_, r) ← ReadDecodable 3 LabiConsensus_zero (LabiConsensus_DecodeFromReader false) strict r;
  '(Transactions_, r) ← ReadDecodables 4 (Transaction_DecodeFromReader false) r;
  Ok (mkAfterTransactionsExecuteRequest ContextID_ Assets_ (Some Consensus_) Transactions_, r).

Definition AfterTransactionsExecuteRequest_ok `{Norm} (e : AfterTransactionsExecuteRequest) : Prop :=
  Forall BlockAsset_ok (AfterTransactionsExecuteRequest_Assets e) ∧
  (∃ c, AfterTransactionsExecuteRequest_Consensus e = Some c ∧ LabiConsensus_ok c) ∧
  Forall Transaction_ok (AfterTransactionsExecuteRequest_Transactions e).

Lemma AfterTransactionsExecuteRequest_reads `{Norm, !NormLaws} strict e :
  AfterTransactionsExecuteRequest_ok e → Reads 1 5 (AfterTransactionsExecuteRequest_DecodeFromReader strict) (AfterTransactionsExecuteRequest_Encode e) e.
Proof.
  intros Hok. destruct e. unfold AfterTransactionsExecuteRequest_ok, AfterTransactionsExecuteRequest_DecodeFromReader, AfterTransactionsExecuteRequest_Encode in *. solve_reads.
Qed.

#[export] Hint Resolve AfterTransactionsExecuteRequest_reads : reads.

#[export] Instance AfterTransactionsExecuteRequest_Message `{Norm} : Message AfterTransactionsExecuteRequest :=
  { Encode := AfterTransactionsExecuteRequest_Encode; DecodeFromReader := AfterTransactionsExecuteRequest_DecodeFromReader; msg_ok := AfterTransactionsExecuteRequest_ok }.
#[export] Instance AfterTransactionsExecuteRequest_MessageLaws `{Norm, !NormLaws} : MessageLaws AfterTransactionsExecuteRequest.
Proof. split. eexists. intros. by apply AfterTransactionsExecuteRequest_reads. Qed.

Record AfterTransactionsExecuteResponse := mkAfterTransactionsExecuteResponse {
  AfterTransactionsExecuteResponse_Events : list Event;
  AfterTransactionsExecuteResponse_PreCommitThreshold : Z;
  AfterTransactionsExecuteResponse_CertificateThreshold : Z;
  AfterTransactionsExecuteResponse_NextValidators : list LabiValidator;
}.

Definition AfterTransactionsExecuteResponse_Encode `{Norm} (e : AfterTransactionsExecuteResponse) : bytes :=
  Result (NewWriter
    |> (λ w, foldl (λ w val, WriteEncodable 1 (Some (Event_Encode val)) w) w (AfterTransactionsExecuteResponse_Events e))
    |> WriteUInt 2 (AfterTransactionsExecuteResponse_PreCommitThreshold e)
    |> WriteUInt 3 (AfterTransactionsExecuteResponse_CertificateThreshold e)
    |> (λ w, foldl (λ w val, WriteEncodable 4 (Some (LabiValidator_Encode val)) w) w (AfterTransactionsExecuteResponse_NextValidators e))).

Definition AfterTransactionsExecuteResponse_DecodeFromReader `{Norm} (strict : bool) (r : Reader) : res (AfterTransactionsExecuteResponse * Reader) :=
  '(Events_, r) ← ReadDecodables 1 (Event_DecodeFromReader false) r;
  '(PreCommitThreshold_, r) ← ReadUInt 2 strict r;
  '(CertificateThreshold_, r) ← ReadUInt 3 strict r;
  '(NextValidators_, r) ← ReadDecodables 4 (LabiValidator_DecodeFromReader false) r;
  Ok (mkAfterTransactionsExecuteResponse Events_ PreCommitThreshold_ CertificateThreshold_
    NextValidators_, r).

Definition AfterTransactionsExecuteResponse_ok `{Norm} (e : AfterTransactionsExecuteResponse) : Prop :=
  Forall Event_ok (AfterTransactionsExecuteResponse_Events e) ∧
  u64_ok (AfterTransactionsExecuteResponse_PreCommitThreshold e) ∧
  u64_ok (AfterTransactionsExecuteResponse_CertificateThreshold e) ∧
  Forall LabiValidator_ok (AfterTransactionsExecuteResponse_NextValidators e).

Lemma AfterTransactionsExecuteResponse_reads `{Norm, !NormLaws} strict e :
  AfterTransactionsExecuteResponse_ok e → Reads 1 5 (AfterTransactionsExecuteResponse_DecodeFromReader strict) (AfterTransactionsExecuteResponse_Encode e) e.
Proof.
  intros Hok. destruct e. unfold AfterTransactionsExecuteResponse_ok, AfterTransactionsExecuteResponse_DecodeFromReader, AfterTransactionsExecuteResponse_Encode in *. solve_reads.
Qed.

#[export] Hint Resolve AfterTransactionsExecuteResponse_reads : reads.

Lemma AfterTransactionsExecuteResponse_total `{Norm} strict : Total 0 (AfterTransactionsExecuteResponse_DecodeFromReader strict).
Proof. unfold AfterTransactionsExecuteResponse_DecodeFromReader. solve_total. Qed.
#[export] Hint Resolve AfterTransactionsExecuteResponse_total : go.

#[export] Instance AfterTransactionsExecuteResponse_Message `{Norm} : Message AfterTransactionsExecuteResponse :=
  { Encode := AfterTransactionsExecuteResponse_Encode; DecodeFromReader := AfterTransactionsExecuteResponse_DecodeFromReader; msg_ok := AfterTransactionsExecuteResponse_ok }.
#[export] Instance AfterTransactionsExecuteResponse_MessageLaws `{Norm, !NormLaws} : MessageLaws AfterTransactionsExecuteResponse.
Proof. split. eexists. intros. by apply AfterTransactionsExecuteResponse_reads. Qed.

Record VerifyTransactionRequest := mkVerifyTransactionRequest {
  VerifyTransactionRequest_ContextID : bytes;
  VerifyTransactionRequest_Transaction : option Transaction;
}.

Definition VerifyTransactionRequest_Encode `{Norm} (e : VerifyTransactionRequest) : bytes :=
  Result (NewWriter
    |> WriteBytes 1 (VerifyTransactionRequest_ContextID e)
    |> WriteEncodable 2 (Transaction_Encode <$> VerifyTransactionRequest_Transaction e)).

Definition VerifyTransactionRequest_DecodeFromReader `{Norm} (strict : bool) (r : Reader) : res (VerifyTransactionRequest * Reader) :=
  '(ContextID_, r) ← ReadBytes 1 strict r;
  '(Transaction_, r) ← ReadDecodable 2 Transaction_zero (Transaction_DecodeFromReader false) strict r;
  Ok (mkVerifyTransactionRequest ContextID_ (Some Transaction_), r).

Definition VerifyTransactionRequest_ok `{Norm} (e : VerifyTransactionRequest) : Prop :=
  (∃ c, VerifyTransactionRequest_Transaction e = Some c ∧ Transaction_ok c).

Lemma VerifyTransactionRequest_reads `{Norm, !NormLaws} strict e :
  VerifyTransactionRequest_ok e → Reads 1 3 (VerifyTransactionRequest_DecodeFromReader strict) (VerifyTransactionRequest_Encode e) e.
Proof.
  intros Hok. destruct e. unfold VerifyTransactionRequest_ok, VerifyTransactionRequest_DecodeFromReader, VerifyTransactionRequest_Encode in *. solve_reads.
Qed.

#[export] Hint Resolve VerifyTransactionRequest_reads : reads.

Lemma VerifyTransactionRequest_total `{Norm} strict : Total 0 (VerifyTransactionRequest_DecodeFromReader strict).
Proof. unfold VerifyTransactionRequest_DecodeFromReader. solve_total. Qed.
#[export] Hint Resolve VerifyTransactionRequest_total : go.

#[export] Instance VerifyTransactionRequest_Message `{Norm} : Message VerifyTransactionRequest :=
  { Encode := VerifyTransactionRequest_Encode; DecodeFromReader := VerifyTransactionRequest_DecodeFromReader; msg_ok := VerifyTransactionRequest_ok }.
#[export] Instance VerifyTransactionRequest_MessageLaws `{Norm, !NormLaws} : MessageLaws VerifyTransactionRequest.
Proof. split. eexists. intros. by apply VerifyTransactionRequest_reads. Qed.

Record VerifyTransactionResponse := mkVerifyTransactionResponse {
  VerifyTransactionResponse_Result : Z;
}.

Definition VerifyTransactionResponse_Encode (e : VerifyTransactionResponse) : bytes :=
  Result (NewWriter
    |> WriteInt32 1 (VerifyTransactionResponse_Result e)).

Definition VerifyTransactionResponse_DecodeFromReader (strict : bool) (r : Reader) : res (VerifyTransactionResponse * Reader) :=
  '(Result_, r) ← ReadInt32 1 strict r;
  Ok (mkVerifyTransactionResponse Result_, r).

Definition VerifyTransactionResponse_ok (e : VerifyTransactionResponse) : Prop :=
  i32_ok (VerifyTransactionResponse_Result e).

Lemma VerifyTransactionResponse_reads strict e :
  VerifyTransactionResponse_ok e → Reads 1 2 (VerifyTransactionResponse_DecodeFromReader strict) (VerifyTransactionResponse_Encode e) e.
Proof.
  intros Hok. destruct e. unfold VerifyTransactionResponse_ok, VerifyTransactionResponse_DecodeFromReader, VerifyTransactionResponse_Encode in *. solve_reads.
Qed.

#[export] Hint Resolve VerifyTransactionResponse_reads : reads.

Lemma VerifyTransactionResponse_total strict : Total 0 (VerifyTransactionResponse_DecodeFromReader strict).
Proof. unfold VerifyTransactionResponse_DecodeFromReader. solve_total. Qed.
#[export] Hint Resolve VerifyTransactionResponse_total : go.

#[export] Instance VerifyTransactionResponse_Message : Message VerifyTransactionResponse :=
  { Encode := VerifyTransactionResponse_Encode; DecodeFromReader := VerifyTransactionResponse_DecodeFromReader; msg_ok := VerifyTransactionResponse_ok }.
#[export] Instance VerifyTransactionResponse_MessageLaws : MessageLaws VerifyTransactionResponse.
Proof. split. eexists. intros. by apply VerifyTransactionResponse_reads. Qed.

Record ExecuteTransactionRequest := mkExecuteTransactionRequest {
  ExecuteTransactionRequest_ContextID : bytes;
  ExecuteTransactionRequest_Transaction : option Transaction;
  ExecuteTransactionRequest_Assets : list BlockAsset;
  ExecuteTransactionRequest_DryRun : bool;
  ExecuteTransactionRequest_Header : option BlockHeader;
  ExecuteTransactionRequest_Consensus : option LabiConsensus;
}.

Definition ExecuteTransactionRequest_Encode `{Norm} (e : ExecuteTransactionRequest) : bytes :=
  Result (NewWriter
    |> WriteBytes 1 (ExecuteTransactionRequest_ContextID e)
    |> WriteEncodable 2 (Transaction_Encode <$> ExecuteTransactionRequest_Transaction e)
    |> (λ w, foldl (λ w val, WriteEncodable 3 (Some (BlockAsset_Encode val)) w) w (ExecuteTransactionRequest_Assets e))
    |> WriteBool 4 (ExecuteTransactionRequest_DryRun e)
    |> WriteEncodable 5 (BlockHeader_Encode <$> ExecuteTransactionRequest_Header e)
    |> WriteEncodable 6 (LabiConsensus_Encode <$> ExecuteTransactionRequest_Consensus e)).

Definition ExecuteTransactionRequest_DecodeFromReader `{Norm} (strict : bool) (r : Reader) : res (ExecuteTransactionRequest * Reader) :=
  '(ContextID_, r) ← ReadBytes 1 strict r;
  '(Transaction_, r) ← ReadDecodable 2 Transaction_zero (Transaction_DecodeFromReader false) strict r;
  '(Assets_, r) ← ReadDecodables 3 (BlockAsset_DecodeFromReader false) r;
  '(DryRun_, r) ← ReadBool 4 strict r;
  '(Header_, r) ← ReadDecodable 5 BlockHeader_zero (BlockHeader_DecodeFromReader false) strict r;
  '(Consensus_, r) ← ReadDecodable 6 LabiConsensus_zero (LabiConsensus_DecodeFromReader false) strict r;
  Ok (mkExecuteTransactionRequest ContextID_ (Some Transaction_) Assets_ DryRun_ (Some Header_)
    (Some Consensus_), r).

Definition ExecuteTransactionRequest_ok `{Norm} (e : ExecuteTransactionRequest) : Prop :=
  (∃ c, ExecuteTransactionRequest_Transaction e = Some c ∧ Transaction_ok c) ∧
  Forall BlockAsset_ok (ExecuteTransactionRequest_Assets e) ∧
  (∃ c, ExecuteTransactionRequest_Header e = Some c ∧ BlockHeader_ok c) ∧
  (∃ c, ExecuteTransactionRequest_Consensus e = Some c ∧ LabiConsensus_ok c).

Lemma ExecuteTransactionRequest_reads `{Norm, !NormLaws} strict e :
  ExecuteTransactionRequest_ok e → Reads 1 7 (ExecuteTransactionRequest_DecodeFromReader strict) (ExecuteTransactionRequest_Encode e) e.
Proof.
  intros Hok. destruct e. unfold ExecuteTransactionRequest_ok, ExecuteTransactionRequest_DecodeFromReader, ExecuteTransactionRequest_Encode in *. solve_reads.
Qed.

#[export] Hint Resolve ExecuteTransactionRequest_reads : reads.

#[export] Instance ExecuteTransactionRequest_Message `{Norm} : Message ExecuteTransactionRequest :=
  { Encode := ExecuteTransactionRequest_Encode; DecodeFromReader := ExecuteTransactionRequest_DecodeFromReader; msg_ok := ExecuteTransactionRequest_ok }.
#[export] Instance ExecuteTransactionRequest_MessageLaws `{Norm, !NormLaws} : MessageLaws ExecuteTransactionRequest.
Proof. split. eexists. intros. by apply ExecuteTransactionRequest_reads. Qed.

Record ExecuteTransactionResponse := mkExecuteTransactionResponse {
  ExecuteTransactionResponse_Events : list Event;
  ExecuteTransactionResponse_Result : Z;
}.

Definition ExecuteTransactionResponse_Encode `{Norm} (e : ExecuteTransactionResponse) : bytes :=
  Result (NewWriter
    |> (λ w, foldl (λ w val, WriteEncodable 1 (Some (Event_Encode val)) w) w (ExecuteTransactionResponse_Events e))
    |> WriteInt32 2 (ExecuteTransactionResponse_Result e)).

Definition ExecuteTransactionResponse_DecodeFromReader `{Norm} (strict : bool) (r : Reader) : res (ExecuteTransactionResponse * Reader) :=
  '(Events_, r) ← ReadDecodables 1 (Event_DecodeFromReader false) r;
  '(Result_, r) ← ReadInt32 2 strict r;
  Ok (mkExecuteTransactionResponse Events_ Result_, r).

Definition ExecuteTransactionResponse_ok `{Norm} (e : ExecuteTransactionResponse) : Prop :=
  Forall Event_ok (ExecuteTransactionResponse_Events e) ∧
  i32_ok (ExecuteTransactionResponse_Result e).

Lemma ExecuteTransactionResponse_reads `{Norm, !NormLaws} strict e :
  ExecuteTransactionResponse_ok e → Reads 1 3 (ExecuteTransactionResponse_DecodeFromReader strict) (ExecuteTransactionResponse_Encode e) e.
Proof.
  intros Hok. destruct e. unfold ExecuteTransactionResponse_ok, ExecuteTransactionResponse_DecodeFromReader, ExecuteTransactionResponse_Encode in *. solve_reads.
Qed.

#[export] Hint Resolve ExecuteTransactionResponse_reads : reads.

Lemma ExecuteTransactionResponse_total `{Norm} strict : Total 0 (ExecuteTransactionResponse_DecodeFromReader strict).
Proof. unfold ExecuteTransactionResponse_DecodeFromReader. solve_total. Qed.
#[export] Hint Resolve ExecuteTransactionResponse_total : go.

#[export] Instance ExecuteTransactionResponse_Message `{Norm} : Message ExecuteTransactionResponse :=
  { Encode := ExecuteTransactionResponse_Encode; DecodeFromReader := ExecuteTransactionResponse_DecodeFromReader; msg_ok := ExecuteTransactionResponse_ok }.
#[export] Instance ExecuteTransactionResponse_MessageLaws `{Norm, !NormLaws} : MessageLaws ExecuteTransactionResponse.
Proof. split. eexists. intros. by apply ExecuteTransactionResponse_reads. Qed.

Record CommitRequest := mkCommitRequest {
  CommitRequest_ContextID : bytes;
  CommitRequest_StateRoot : bytes;
  CommitRequest_ExpectedStateRoot : bytes;
  CommitRequest_DryRun : bool;
}.

Definition CommitRequest_Encode (e : CommitRequest) : bytes :=
  Result (NewWriter
    |> WriteBytes 1 (CommitRequest_ContextID e)
    |> WriteBytes 2 (CommitRequest_StateRoot e)
    |> WriteBytes 3 (CommitRequest_ExpectedStateRoot e)
    |> WriteBool 4 (CommitRequest_DryRun e)).

Definition CommitRequest_DecodeFromReader (strict : bool) (r : Reader) : res (CommitRequest * Reader) :=
  '(ContextID_, r) ← ReadBytes 1 strict r;
  '(StateRoot_, r) ← ReadBytes 2 strict r;
  '(ExpectedStateRoot_, r) ← ReadBytes 3 strict r;
  '(DryRun_, r) ← ReadBool 4 strict r;
  Ok (mkCommitRequest ContextID_ StateRoot_ ExpectedStateRoot_ DryRun_, r).

Definition CommitRequest_ok (e : CommitRequest) : Prop :=
  True.

Lemma CommitRequest_reads strict e :
  CommitRequest_ok e → Reads 1 5 (CommitRequest_DecodeFromReader strict) (CommitRequest_Encode e) e.
Proof.
  intros Hok. destruct e. unfold CommitRequest_ok, CommitRequest_DecodeFromReader, CommitRequest_Encode in *. solve_reads.
Qed.

#[export] Hint Resolve CommitRequest_reads : reads.

#[export] Instance CommitRequest_Message : Message CommitRequest :=
  { Encode := CommitRequest_Encode; DecodeFromReader := CommitRequest_DecodeFromReader; msg_ok := CommitRequest_ok }.
#[export] Instance CommitRequest_MessageLaws : MessageLaws CommitRequest.
Proof. split. eexists. intros. by apply CommitRequest_reads. Qed.

Record CommitResponse := mkCommitResponse {
  CommitResponse_StateRoot : bytes;
}.

Definition CommitResponse_Encode (e : CommitResponse) : bytes :=
  Result (NewWriter
    |> WriteBytes 1 (CommitResponse_StateRoot e)).

Definition CommitResponse_DecodeFromReader (strict : bool) (r : Reader) : res (CommitResponse * Reader) :=
  '(StateRoot_, r) ← ReadBytes 1 strict r;
  Ok (mkCommitResponse StateRoot_, r).

Definition CommitResponse_ok (e : CommitResponse) : Prop :=
  True.

Lemma CommitResponse_reads strict e :
  CommitResponse_ok e → Reads 1 2 (CommitResponse_DecodeFromReader strict) (CommitResponse_Encode e) e.
Proof.
  intros Hok. destruct e. unfold CommitResponse_ok, CommitResponse_DecodeFromReader, CommitResponse_Encode in *. solve_reads.
Qed.

#[export] Hint Resolve CommitResponse_reads : reads.

Lemma CommitResponse_total strict : Total 0 (CommitResponse_DecodeFromReader strict).
Proof. unfold CommitResponse_DecodeFromReader. solve_total. Qed.
#[export] Hint Resolve CommitResponse_total : go.

#[export] Instance CommitResponse_Message : Message CommitResponse :=
  { Encode := CommitResponse_Encode; DecodeFromReader := CommitResponse_DecodeFromReader; msg_ok := CommitResponse_ok }.
#[export] Instance CommitResponse_MessageLaws : MessageLaws CommitResponse.
Proof. split. eexists. intros. by apply CommitResponse_reads. Qed.

Record RevertRequest := mkRevertRequest {
  RevertRequest_ContextID : bytes;
  RevertRequest_StateRoot : bytes;
  RevertRequest_ExpectedStateRoot : bytes;
}.

Definition RevertRequest_Encode (e : RevertRequest) : bytes :=
  Result (NewWriter
    |> WriteBytes 1 (RevertRequest_ContextID e)
    |> WriteBytes 2 (RevertRequest_StateRoot e)
    |> WriteBytes 3 (RevertRequest_ExpectedStateRoot e)).

Definition RevertRequest_DecodeFromReader (strict : bool) (r : Reader) : res (RevertRequest * Reader) :=
  '(ContextID_, r) ← ReadBytes 1 strict r;
  '(StateRoot_, r) ← ReadBytes 2 strict r;
  '(ExpectedStateRoot_, r) ← ReadBytes 3 strict r;
  Ok (mkRevertRequest ContextID_ StateRoot_ ExpectedStateRoot_, r).

Definition RevertRequest_ok (e : RevertRequest) : Prop :=
  True.

Lemma RevertRequest_reads strict e :
  RevertRequest_ok e → Reads 1 4 (RevertRequest_DecodeFromReader strict) (RevertRequest_Encode e) e.
Proof.
  intros Hok. destruct e. unfold RevertRequest_ok, RevertRequest_DecodeFromReader, RevertRequest_Encode in *. solve_reads.
Qed.

#[export] Hint Resolve RevertRequest_reads : reads.

Lemma RevertRequest_total strict : Total 0 (RevertRequest_DecodeFromReader strict).
Proof. unfold RevertRequest_DecodeFromReader. solve_total. Qed.
#[export] Hint Resolve RevertRequest_total : go.

#[export] Instance RevertRequest_Message : Message RevertRequest :=
  { Encode := RevertRequest_Encode; DecodeFromReader := RevertRequest_DecodeFromReader; msg_ok := RevertRequest_ok }.
#[export] Instance RevertRequest_MessageLaws : MessageLaws RevertRequest.
Proof. split. eexists. intros. by apply RevertRequest_reads. Qed.

Record RevertResponse := mkRevertResponse {
  RevertResponse_StateRoot : bytes;
}.

Definition RevertResponse_Encode (e : RevertResponse) : bytes :=
  Result (NewWriter
    |> WriteBytes 1 (RevertResponse_StateRoot e)).

Definition RevertResponse_DecodeFromReader (strict : bool) (r : Reader) : res (RevertResponse * Reader) :=
  '(StateRoot_, r) ← ReadBytes 1 strict r;
  Ok (mkRevertResponse StateRoot_, r).

Definition RevertResponse_ok (e : RevertResponse) : Prop :=
  True.

Lemma RevertResponse_reads strict e :
  RevertResponse_ok e → Reads 1 2 (RevertResponse_DecodeFromReader strict) (RevertResponse_Encode e) e.
Proof.
  intros Hok. destruct e. unfold RevertResponse_ok, RevertResponse_DecodeFromReader, RevertResponse_Encode in *. solve_reads.
Qed.

#[export] Hint Resolve RevertResponse_reads : reads.

Lemma RevertResponse_total strict : Total 0 (RevertResponse_DecodeFromReader strict).
Proof. unfold RevertResponse_DecodeFromReader. solve_total. Qed.
#[export] Hint Resolve RevertResponse_total : go.

#[export] Instance RevertResponse_Message : Message RevertResponse :=
  { Encode := RevertResponse_Encode; DecodeFromReader := RevertResponse_DecodeFromReader; msg_ok := RevertResponse_ok }.
#[export] Instance RevertResponse_MessageLaws : MessageLaws RevertResponse.
Proof. split. eexists. intros. by apply RevertResponse_reads. Qed.

Record FinalizeRequest := mkFinalizeRequest {
  FinalizeRequest_FinalizedHeight : Z;
}.

Definition FinalizeRequest_Encode (e : FinalizeRequest) : bytes :=
  Result (NewWriter
    |> WriteUInt32 1 (FinalizeRequest_FinalizedHeight e)).

Definition FinalizeRequest_DecodeFromReader (strict : bool) (r : Reader) : res (FinalizeRequest * Reader) :=
  '(FinalizedHeight_, r) ← ReadUInt32 1 strict r;
  Ok (mkFinalizeRequest FinalizedHeight_, r).

Definition FinalizeRequest_ok (e : FinalizeRequest) : Prop :=
  u32_ok (FinalizeRequest_FinalizedHeight e).

Lemma FinalizeRequest_reads strict e :
  FinalizeRequest_ok e → Reads 1 2 (FinalizeRequest_DecodeFromReader strict) (FinalizeRequest_Encode e) e.
Proof.
  intros Hok. destruct e. unfold FinalizeRequest_ok, FinalizeRequest_DecodeFromReader, FinalizeRequest_Encode in *. solve_reads.
Qed.

#[export] Hint Resolve FinalizeRequest_reads : reads.

Lemma FinalizeRequest_total strict : Total 0 (FinalizeRequest_DecodeFromReader strict).
Proof. unfold FinalizeRequest_DecodeFromReader. solve_total. Qed.
#[export] Hint Resolve FinalizeRequest_total : go.

#[export] Instance FinalizeRequest_Message : Message FinalizeRequest :=
  { Encode := FinalizeRequest_Encode; DecodeFromReader := FinalizeRequest_DecodeFromReader; msg_ok := FinalizeRequest_ok }.
#[export] Instance FinalizeRequest_MessageLaws : MessageLaws FinalizeRequest.
Proof. split. eexists. intros. by apply FinalizeRequest_reads. Qed.

Record MetadataResponse := mkMetadataResponse {
  MetadataResponse_Data : bytes;
}.

Definition MetadataResponse_Encode (e : MetadataResponse) : bytes :=
  Result (NewWriter
    |> WriteBytes 1 (MetadataResponse_Data e)).

Definition MetadataResponse_DecodeFromReader (strict : bool) (r : Reader) : res (MetadataResponse * Reader) :=
  '(Data_, r) ← ReadBytes 1 strict r;
  Ok (mkMetadataResponse Data_, r).

Definition MetadataResponse_ok (e : MetadataResponse) : Prop :=
  True.

Lemma MetadataResponse_reads strict e :
  MetadataResponse_ok e → Reads 1 2 (MetadataResponse_DecodeFromReader strict) (MetadataResponse_Encode e) e.
Proof.
  intros Hok. destruct e. unfold MetadataResponse_ok, MetadataResponse_DecodeFromReader, MetadataResponse_Encode in *. solve_reads.
Qed.

#[export] Hint Resolve MetadataResponse_reads : reads.

Lemma MetadataResponse_total strict : Total 0 (MetadataResponse_DecodeFromReader strict).
Proof. unfold MetadataResponse_DecodeFromReader. solve_total. Qed.
#[export] Hint Resolve MetadataResponse_total : go.

#[export] Instance MetadataResponse_Message : Message MetadataResponse :=
  { Encode := MetadataResponse_Encode; DecodeFromReader := MetadataResponse_DecodeFromReader; msg_ok := MetadataResponse_ok }.
#[export] Instance MetadataResponse_MessageLaws : MessageLaws MetadataResponse.
Proof. split. eexists. intros. by apply MetadataResponse_reads. Qed.

Record QueryRequest := mkQueryRequest {
  QueryRequest_Method : bytes;
  QueryRequest_Params : bytes;
  QueryRequest_Header : option BlockHeader;
}.

Definition QueryRequest_Encode `{Norm} (e : QueryRequest) : bytes :=
  Result (NewWriter
    |> WriteString 1 (QueryRequest_Method e)
    |> WriteBytes 2 (QueryRequest_Params e)
    |> WriteEncodable 3 (BlockHeader_Encode <$> QueryRequest_Header e)).

Definition QueryRequest_DecodeFromReader `{Norm} (strict : bool) (r : Reader) : res (QueryRequest * Reader) :=
  '(Method_, r) ← ReadString 1 strict r;
  '(Params_, r) ← ReadBytes 2 strict r;
  '(Header_, r) ← ReadDecodable 3 BlockHeader_zero (BlockHeader_DecodeFromReader false) strict r;
  Ok (mkQueryRequest Method_ Params_ (Some Header_), r).

Definition QueryRequest_ok `{Norm} (e : QueryRequest) : Prop :=
  string_ok (QueryRequest_Method e) ∧ (∃ c, QueryRequest_Header e = Some c ∧ BlockHeader_ok c).

Lemma QueryRequest_reads `{Norm, !NormLaws} strict e :
  QueryRequest_ok e → Reads 1 4 (QueryRequest_DecodeFromReader strict) (QueryRequest_Encode e) e.
Proof.
  intros Hok. destruct e. unfold QueryRequest_ok, QueryRequest_DecodeFromReader, QueryRequest_Encode in *. solve_reads.
Qed.

#[export] Hint Resolve QueryRequest_reads : reads.

#[export] Instance QueryRequest_Message `{Norm} : Message QueryRequest :=
  { Encode := QueryRequest_Encode; DecodeFromReader := QueryRequest_DecodeFromReader; msg_ok := QueryRequest_ok }.
#[export] Instance QueryRequest_MessageLaws `{Norm, !NormLaws} : MessageLaws QueryRequest.
Proof. split. eexists. intros. by apply QueryRequest_reads. Qed.

Record QueryResponse := mkQueryResponse {
  QueryResponse_Data : bytes;
}.

Definition QueryResponse_Encode (e : QueryResponse) : bytes :=
  Result (NewWriter
    |> WriteBytes 1 (QueryResponse_Data e)).

Definition QueryResponse_DecodeFromReader (strict : bool) (r : Reader) : res (QueryResponse * Reader) :=
  '(Data_, r) ← ReadBytes 1 strict r;
  Ok (mkQueryResponse Data_, r).

Definition QueryResponse_ok (e : QueryResponse) : Prop :=
  True.

Lemma QueryResponse_reads strict e :
  QueryResponse_ok e → Reads 1 2 (QueryResponse_DecodeFromReader strict) (QueryResponse_Encode e) e.
Proof.
  intros Hok. destruct e. unfold QueryResponse_ok, QueryResponse_DecodeFromReader, QueryResponse_Encode in *. solve_reads.
Qed.

#[export] Hint Resolve QueryResponse_reads : reads.

Lemma QueryResponse_total strict : Total 0 (QueryResponse_DecodeFromReader strict).
Proof. unfold QueryResponse_DecodeFromReader. solve_total. Qed.
#[export] Hint Resolve QueryResponse_total : go.

#[export] Instance QueryResponse_Message : Message QueryResponse :=
  { Encode := QueryResponse_Encode; DecodeFromReader := QueryResponse_DecodeFromReader; msg_ok := QueryResponse_ok }.
#[export] Instance QueryResponse_MessageLaws : MessageLaws QueryResponse.
Proof. split. eexists. intros. by apply QueryResponse_reads. Qed.

Record ProveRequest := mkProveRequest {
  ProveRequest_StateRoot : bytes;
  ProveRequest_Keys : list bytes;
}.

Definition ProveRequest_Encode (e : ProveRequest) : bytes :=
  Result (NewWriter
    |> WriteBytes 1 (ProveRequest_StateRoot e)
    |> WriteBytesArray 2 (ProveRequest_Keys e)).

Definition ProveRequest_DecodeFromReader (strict : bool) (r : Reader) : res (ProveRequest * Reader) :=
  '(StateRoot_, r) ← ReadBytes 1 strict r;
  '(Keys_, r) ← ReadBytesArray 2 r;
  Ok (mkProveRequest StateRoot_ Keys_, r).

Definition ProveRequest_ok (e : ProveRequest) : Prop :=
  True.

Lemma ProveRequest_reads strict e :
  ProveRequest_ok e → Reads 1 3 (ProveRequest_DecodeFromReader strict) (ProveRequest_Encode e) e.
Proof.
  intros Hok. destruct e. unfold ProveRequest_ok, ProveRequest_DecodeFromReader, ProveRequest_Encode in *. solve_reads.
Qed.

#[export] Hint Resolve ProveRequest_reads : reads.

Lemma ProveRequest_total strict : Total 0 (ProveRequest_DecodeFromReader strict).
Proof. unfold ProveRequest_DecodeFromReader. solve_total. Qed.
#[export] Hint Resolve ProveRequest_total : go.

#[export] Instance ProveRequest_Message : Message ProveRequest :=
  { Encode := ProveRequest_Encode; DecodeFromReader := ProveRequest_DecodeFromReader; msg_ok := ProveRequest_ok }.
#[export] Instance ProveRequest_MessageLaws : MessageLaws ProveRequest.
Proof. split. eexists. intros. by apply ProveRequest_reads. Qed.

Record ProveResponse := mkProveResponse {
  ProveResponse_Result : option Proof;
}.

Definition ProveResponse_Encode (e : ProveResponse) : bytes :=
  Result (NewWriter
    |> WriteEncodable 1 (Proof_Encode <$> ProveResponse_Result e)).

Definition ProveResponse_DecodeFromReader (strict : bool) (r : Reader) : res (ProveResponse * Reader) :=
  '(Result_, r) ← ReadDecodable 1 Proof_zero (Proof_DecodeFromReader false) strict r;
  Ok (mkProveResponse (Some Result_), r).

Definition ProveResponse_ok (e : ProveResponse) : Prop :=
  (∃ c, ProveResponse_Result e = Some c ∧ Proof_ok c).

Lemma ProveResponse_reads strict e :
  ProveResponse_ok e → Reads 1 2 (ProveResponse_DecodeFromReader strict) (ProveResponse_Encode e) e.
Proof.
  intros Hok. destruct e. unfold ProveResponse_ok, ProveResponse_DecodeFromReader, ProveResponse_Encode in *. solve_reads.
Qed.

#[export] Hint Resolve ProveResponse_reads : reads.

Lemma ProveResponse_total strict : Total 0 (ProveResponse_DecodeFromReader strict).
Proof. unfold ProveResponse_DecodeFromReader. solve_total. Qed.
#[export] Hint Resolve ProveResponse_total : go.

#[export] Instance ProveResponse_Message : Message ProveResponse :=
  { Encode := ProveResponse_Encode; DecodeFromReader := ProveResponse_DecodeFromReader; msg_ok := ProveResponse_ok }.
#[export] Instance ProveResponse_MessageLaws : MessageLaws ProveResponse.
Proof. split. eexists. intros. by apply ProveResponse_reads. Qed.

(** ** pkg/labi_client/ipc_client_codec.go: the frames of the IPC client *)

Record ipcRequest := mkipcRequest {
  ipcRequest_id : Z;
  ipcRequest_method : bytes;
  ipcRequest_params : bytes;
}.

Definition ipcRequest_Encode `{Norm} (e : ipcRequest) : bytes :=
  Result (NewWriter
    |> WriteUInt 1 (ipcRequest_id e)
    |> WriteString 2 (ipcRequest_method e)
    |> WriteBytes 3 (ipcRequest_params e)).

Definition ipcRequest_DecodeFromReader `{Norm} (strict : bool) (r : Reader) : res (ipcRequest * Reader) :=
  '(id_, r) ← ReadUInt 1 strict r;
  '(method_, r) ← ReadString 2 strict r;
  '(params_, r) ← ReadBytes 3 strict r;
  Ok (mkipcRequest id_ method_ params_, r).

Definition ipcRequest_ok `{Norm} (e : ipcRequest) : Prop :=
  u64_ok (ipcRequest_id e) ∧ string_ok (ipcRequest_method e).

Lemma ipcRequest_reads `{Norm, !NormLaws} strict e :
  ipcRequest_ok e → Reads 1 4 (ipcRequest_DecodeFromReader strict) (ipcRequest_Encode e) e.
Proof.
  intros Hok. destruct e. unfold ipcRequest_ok, ipcRequest_DecodeFromReader, ipcRequest_Encode in *. solve_reads.
Qed.

#[export] Hint Resolve ipcRequest_reads : reads.

Lemma ipcRequest_total `{Norm} strict : Total 0 (ipcRequest_DecodeFromReader strict).
Proof. unfold ipcRequest_DecodeFromReader. solve_total. Qed.
#[export] Hint Resolve ipcRequest_total : go.

#[export] Instance ipcRequest_Message `{Norm} : Message ipcRequest :=
  { Encode := ipcRequest_Encode; DecodeFromReader := ipcRequest_DecodeFromReader; msg_ok := ipcRequest_ok }.
#[export] Instance ipcRequest_MessageLaws `{Norm, !NormLaws} : MessageLaws ipcRequest.
Proof. split. eexists. intros. by apply ipcRequest_reads. Qed.

Record errObj := mkerrObj {
  errObj_message : bytes;
}.

Definition errObj_Encode `{Norm} (e : errObj) : bytes :=
  Result (NewWriter
    |> WriteString 1 (errObj_message e)).

Definition errObj_DecodeFromReader `{Norm} (strict : bool) (r : Reader) : res (errObj * Reader) :=
  '(message_, r) ← ReadString 1 strict r;
  Ok (mkerrObj message_, r).

Definition errObj_zero : errObj := mkerrObj [].

Definition errObj_ok `{Norm} (e : errObj) : Prop :=
  string_ok (errObj_message e).

Lemma errObj_reads `{Norm, !NormLaws} strict e :
  errObj_ok e → Reads 1 2 (errObj_DecodeFromReader strict) (errObj_Encode e) e.
Proof.
  intros Hok. destruct e. unfold errObj_ok, errObj_DecodeFromReader, errObj_Encode in *. solve_reads.
Qed.

#[export] Hint Resolve errObj_reads : reads.

Lemma errObj_total `{Norm} strict : Total 0 (errObj_DecodeFromReader strict).
Proof. unfold errObj_DecodeFromReader. solve_total. Qed.
#[export] Hint Resolve errObj_total : go.

#[export] Instance errObj_Message `{Norm} : Message errObj :=
  { Encode := errObj_Encode; DecodeFromReader := errObj_DecodeFromReader; msg_ok := errObj_ok }.
#[export] Instance errObj_MessageLaws `{Norm, !NormLaws} : MessageLaws errObj.
Proof. split. eexists. intros. by apply errObj_reads. Qed.

Record ipcResponse := mkipcResponse {
  ipcResponse_id : Z;
  ipcResponse_success : bool;
  ipcResponse_err : option errObj;
  ipcResponse_result : bytes;
}.

Definition ipcResponse_Encode `{Norm} (e : ipcResponse) : bytes :=
  Result (NewWriter
    |> WriteUInt 1 (ipcResponse_id e)
    |> WriteBool 2 (ipcResponse_success e)
    |> WriteEncodable 3 (errObj_Encode <$> ipcResponse_err e)
    |> WriteBytes 4 (ipcResponse_result e)).

Definition ipcResponse_DecodeFromReader `{Norm} (strict : bool) (r : Reader) : res (ipcResponse * Reader) :=
  '(id_, r) ← ReadUInt 1 strict r;
  '(success_, r) ← ReadBool 2 strict r;
  '(err_, r) ← ReadDecodable 3 errObj_zero (errObj_DecodeFromReader false) strict r;
  '(result_, r) ← ReadBytes 4 strict r;
  Ok (mkipcResponse id_ success_ (Some err_) result_, r).

Definition ipcResponse_ok `{Norm} (e : ipcResponse) : Prop :=
  u64_ok (ipcResponse_id e) ∧ (∃ c, ipcResponse_err e = Some c ∧ errObj_ok c).

Lemma ipcResponse_reads `{Norm, !NormLaws} strict e :
  ipcResponse_ok e → Reads 1 5 (ipcResponse_DecodeFromReader strict) (ipcResponse_Encode e) e.
Proof.
  intros Hok. destruct e. unfold ipcResponse_ok, ipcResponse_DecodeFromReader, ipcResponse_Encode in *. solve_reads.
Qed.

#[export] Hint Resolve ipcResponse_reads : reads.

#[export] Instance ipcResponse_Message `{Norm} : Message ipcResponse :=
  { Encode := ipcResponse_Encode; DecodeFromReader := ipcResponse_DecodeFromReader; msg_ok := ipcResponse_ok }.
#[export] Instance ipcResponse_MessageLaws `{Norm, !NormLaws} : MessageLaws ipcResponse.
Proof. split. eexists. intros. by apply ipcResponse_reads. Qed.

