(* ===== verification/NetTypes.v ===== *)
(** * NetTypes: the messages between peers and the events of the consensus

    The generated codecs of pkg/p2p, pkg/consensus/sync and
    pkg/consensus/events, with round trips and totality. *)

From S2P Require Import Prelude Collection Codec CodecSpec Message Crypto BlockTypes Block Event LabiTypes.

(** [new(blockchain.Block)]. *)
Definition Block_zero : Block := mkBlock None [] [].

(** ** pkg/p2p/message_codec.go: peer messages *)

Record p2pRequest := mkp2pRequest {
  p2pRequest_Timestamp : Z;
  p2pRequest_PeerID : bytes;
  p2pRequest_ID : bytes;
  p2pRequest_Procedure : bytes;
  p2pRequest_Data : bytes;
}.

Definition p2pRequest_Encode `{Norm} (e : p2pRequest) : bytes :=
  Result (NewWriter
    |> WriteString 1 (p2pRequest_ID e)
    |> WriteString 2 (p2pRequest_Procedure e)
    |> WriteBytes 3 (p2pRequest_Data e)).

Definition p2pRequest_DecodeFromReader `{Norm} (strict : bool) (r : Reader) : res (p2pRequest * Reader) :=
  '(ID_, r) ← ReadString 1 strict r;
  '(Procedure_, r) ← ReadString 2 strict r;
  '(Data_, r) ← ReadBytes 3 strict r;
  Ok (mkp2pRequest 0 [] ID_ Procedure_ Data_, r).

Definition p2pRequest_ok `{Norm} (e : p2pRequest) : Prop :=
  p2pRequest_Timestamp e = 0 ∧ p2pRequest_PeerID e = [] ∧ string_ok (p2pRequest_ID e) ∧
  string_ok (p2pRequest_Procedure e).

Lemma p2pRequest_reads `{Norm, !NormLaws} strict e :
  p2pRequest_ok e → Reads 1 4 (p2pRequest_DecodeFromReader strict) (p2pRequest_Encode e) e.
Proof.
  intros Hok. destruct e. unfold p2pRequest_ok, p2pRequest_DecodeFromReader, p2pRequest_Encode in *. solve_reads.
Qed.

#[export] Hint Resolve p2pRequest_reads : reads.

Lemma p2pRequest_total `{Norm} strict : Total 0 (p2pRequest_DecodeFromReader strict).
Proof. unfold p2pRequest_DecodeFromReader. solve_total. Qed.
#[export] Hint Resolve p2pRequest_total : go.

#[export] Instance p2pRequest_Message `{Norm} : Message p2pRequest :=
  { Encode := p2pRequest_Encode; DecodeFromReader := p2pRequest_DecodeFromReader; msg_ok := p2pRequest_ok }.
#[export] Instance p2pRequest_MessageLaws `{Norm, !NormLaws} : MessageLaws p2pRequest.
Proof. split. eexists. intros. by apply p2pRequest_reads. Qed.

Record responseMsg := mkresponseMsg {
  responseMsg_Timestamp : Z;
  responseMsg_PeerID : bytes;
  responseMsg_ID : bytes;
  responseMsg_Procedure : bytes;
  responseMsg_Data : bytes;
  responseMsg_Error : bytes;
}.

Definition responseMsg_Encode `{Norm} (e : responseMsg) : bytes :=
  Result (NewWriter
    |> WriteString 1 (responseMsg_ID e)
    |> WriteString 2 (responseMsg_Procedure e)
    |> WriteBytes 3 (responseMsg_Data e)
    |> WriteString 4 (responseMsg_Error e)).

Definition responseMsg_DecodeFromReader `{Norm} (strict : bool) (r : Reader) : res (responseMsg * Reader) :=
  '(ID_, r) ← ReadString 1 strict r;
  '(Procedure_, r) ← ReadString 2 strict r;
  '(Data_, r) ← ReadBytes 3 strict r;
  '(Error_, r) ← ReadString 4 strict r;
  Ok (mkresponseMsg 0 [] ID_ Procedure_ Data_ Error_, r).

Definition responseMsg_ok `{Norm} (e : responseMsg) : Prop :=
  responseMsg_Timestamp e = 0 ∧ responseMsg_PeerID e = [] ∧ string_ok (responseMsg_ID e) ∧
  string_ok (responseMsg_Procedure e) ∧ string_ok (responseMsg_Error e).

Lemma responseMsg_reads `{Norm, !NormLaws} strict e :
  responseMsg_ok e → Reads 1 5 (responseMsg_DecodeFromReader strict) (responseMsg_Encode e) e.
Proof.
  intros Hok. destruct e. unfold responseMsg_ok, responseMsg_DecodeFromReader, responseMsg_Encode in *. solve_reads.
Qed.

#[export] Hint Resolve responseMsg_reads : reads.

Lemma responseMsg_total `{Norm} strict : Total 0 (responseMsg_DecodeFromReader strict).
Proof. unfold responseMsg_DecodeFromReader. solve_total. Qed.
#[export] Hint Resolve responseMsg_total : go.

#[export] Instance responseMsg_Message `{Norm} : Message responseMsg :=
  { Encode := responseMsg_Encode; DecodeFromReader := responseMsg_DecodeFromReader; msg_ok := responseMsg_ok }.
#[export] Instance responseMsg_MessageLaws `{Norm, !NormLaws} : MessageLaws responseMsg.
Proof. split. eexists. intros. by apply responseMsg_reads. Qed.

Record p2pMessage := mkp2pMessage {
  p2pMessage_Timestamp : Z;
  p2pMessage_Data : bytes;
}.

Definition p2pMessage_Encode (e : p2pMessage) : bytes :=
  Result (NewWriter
    |> WriteBytes 1 (p2pMessage_Data e)).

Definition p2pMessage_DecodeFromReader (strict : bool) (r : Reader) : res (p2pMessage * Reader) :=
  '(Data_, r) ← ReadBytes 1 strict r;
  Ok (mkp2pMessage 0 Data_, r).

Definition p2pMessage_ok (e : p2pMessage) : Prop :=
  p2pMessage_Timestamp e = 0.

Lemma p2pMessage_reads strict e :
  p2pMessage_ok e → Reads 1 2 (p2pMessage_DecodeFromReader strict) (p2pMessage_Encode e) e.
Proof.
  intros Hok. destruct e. unfold p2pMessage_ok, p2pMessage_DecodeFromReader, p2pMessage_Encode in *. solve_reads.
Qed.

#[export] Hint Resolve p2pMessage_reads : reads.

Lemma p2pMessage_total strict : Total 0 (p2pMessage_DecodeFromReader strict).
Proof. unfold p2pMessage_DecodeFromReader. solve_total. Qed.
#[export] Hint Resolve p2pMessage_total : go.

#[export] Instance p2pMessage_Message : Message p2pMessage :=
  { Encode := p2pMessage_Encode; DecodeFromReader := p2pMessage_DecodeFromReader; msg_ok := p2pMessage_ok }.
#[export] Instance p2pMessage_MessageLaws : MessageLaws p2pMessage.
Proof. split. eexists. intros. by apply p2pMessage_reads. Qed.

(** ** pkg/consensus/sync: requests of the synchronisation *)

Record GetHighestCommonBlockRequest := mkGetHighestCommonBlockRequest {
  GetHighestCommonBlockRequest_IDs : list bytes;
}.

Definition GetHighestCommonBlockRequest_Encode (e : GetHighestCommonBlockRequest) : bytes :=
  Result (NewWriter
    |> WriteBytesArray 1 (GetHighestCommonBlockRequest_IDs e)).

Definition GetHighestCommonBlockRequest_DecodeFromReader (strict : bool) (r : Reader) : res (GetHighestCommonBlockRequest * Reader) :=
  '(IDs_, r) ← ReadBytesArray 1 r;
  Ok (mkGetHighestCommonBlockRequest IDs_, r).

Definition GetHighestCommonBlockRequest_ok (e : GetHighestCommonBlockRequest) : Prop :=
  True.

Lemma GetHighestCommonBlockRequest_reads strict e :
  GetHighestCommonBlockRequest_ok e → Reads 1 2 (GetHighestCommonBlockRequest_DecodeFromReader strict) (GetHighestCommonBlockRequest_Encode e) e.
Proof.
  intros Hok. destruct e. unfold GetHighestCommonBlockRequest_ok, GetHighestCommonBlockRequest_DecodeFromReader, GetHighestCommonBlockRequest_Encode in *. solve_reads.
Qed.

#[export] Hint Resolve GetHighestCommonBlockRequest_reads : reads.

Lemma GetHighestCommonBlockRequest_total strict : Total 0 (GetHighestCommonBlockRequest_DecodeFromReader strict).
Proof. unfold GetHighestCommonBlockRequest_DecodeFromReader. solve_total. Qed.
#[export] Hint Resolve GetHighestCommonBlockRequest_total : go.

#[export] Instance GetHighestCommonBlockRequest_Message : Message GetHighestCommonBlockRequest :=
  { Encode := GetHighestCommonBlockRequest_Encode; DecodeFromReader := GetHighestCommonBlockRequest_DecodeFromReader; msg_ok := GetHighestCommonBlockRequest_ok }.
#[export] Instance GetHighestCommonBlockRequest_MessageLaws : MessageLaws GetHighestCommonBlockRequest.
Proof. split. eexists. intros. by apply GetHighestCommonBlockRequest_reads. Qed.

Record GetHighestCommonBlockResponse := mkGetHighestCommonBlockResponse {
  GetHighestCommonBlockResponse_ID : bytes;
}.

Definition GetHighestCommonBlockResponse_Encode (e : GetHighestCommonBlockResponse) : bytes :=
  Result (NewWriter
    |> WriteBytes 1 (GetHighestCommonBlockResponse_ID e)).

Definition GetHighestCommonBlockResponse_DecodeFromReader (strict : bool) (r : Reader) : res (GetHighestCommonBlockResponse * Reader) :=
  '(ID_, r) ← ReadBytes 1 strict r;
  Ok (mkGetHighestCommonBlockResponse ID_, r).

Definition GetHighestCommonBlockResponse_ok (e : GetHighestCommonBlockResponse) : Prop :=
  True.

Lemma GetHighestCommonBlockResponse_reads strict e :
  GetHighestCommonBlockResponse_ok e → Reads 1 2 (GetHighestCommonBlockResponse_DecodeFromReader strict) (GetHighestCommonBlockResponse_Encode e) e.
Proof.
  intros Hok. destruct e. unfold GetHighestCommonBlockResponse_ok, GetHighestCommonBlockResponse_DecodeFromReader, GetHighestCommonBlockResponse_Encode in *. solve_reads.
Qed.

#[export] Hint Resolve GetHighestCommonBlockResponse_reads : reads.

Lemma GetHighestCommonBlockResponse_total strict : Total 0 (GetHighestCommonBlockResponse_DecodeFromReader strict).
Proof. unfold GetHighestCommonBlockResponse_DecodeFromReader. solve_total. Qed.
#[export] Hint Resolve GetHighestCommonBlockResponse_total : go.

#[export] Instance GetHighestCommonBlockResponse_Message : Message GetHighestCommonBlockResponse :=
  { Encode := GetHighestCommonBlockResponse_Encode; DecodeFromReader := GetHighestCommonBlockResponse_DecodeFromReader; msg_ok := GetHighestCommonBlockResponse_ok }.
#[export] Instance GetHighestCommonBlockResponse_MessageLaws : MessageLaws GetHighestCommonBlockResponse.
Proof. split. eexists. intros. by apply GetHighestCommonBlockResponse_reads. Qed.

Record GetBlocksFromIDRequest := mkGetBlocksFromIDRequest {
  GetBlocksFromIDRequest_ID : bytes;
}.

Definition GetBlocksFromIDRequest_Encode (e : GetBlocksFromIDRequest) : bytes :=
  Result (NewWriter
    |> WriteBytes 1 (GetBlocksFromIDRequest_ID e)).

Definition GetBlocksFromIDRequest_DecodeFromReader (strict : bool) (r : Reader) : res (GetBlocksFromIDRequest * Reader) :=
  '(ID_, r) ← ReadBytes 1 strict r;
  Ok (mkGetBlocksFromIDRequest ID_, r).

Definition GetBlocksFromIDRequest_ok (e : GetBlocksFromIDRequest) : Prop :=
  True.

Lemma GetBlocksFromIDRequest_reads strict e :
  GetBlocksFromIDRequest_ok e → Reads 1 2 (GetBlocksFromIDRequest_DecodeFromReader strict) (GetBlocksFromIDRequest_Encode e) e.
Proof.
  intros Hok. destruct e. unfold GetBlocksFromIDRequest_ok, GetBlocksFromIDRequest_DecodeFromReader, GetBlocksFromIDRequest_Encode in *. solve_reads.
Qed.

#[export] Hint Resolve GetBlocksFromIDRequest_reads : reads.

Lemma GetBlocksFromIDRequest_total strict : Total 0 (GetBlocksFromIDRequest_DecodeFromReader strict).
Proof. unfold GetBlocksFromIDRequest_DecodeFromReader. solve_total. Qed.
#[export] Hint Resolve GetBlocksFromIDRequest_total : go.

#[export] Instance GetBlocksFromIDRequest_Message : Message GetBlocksFromIDRequest :=
  { Encode := GetBlocksFromIDRequest_Encode; DecodeFromReader := GetBlocksFromIDRequest_DecodeFromReader; msg_ok := GetBlocksFromIDRequest_ok }.
#[export] Instance GetBlocksFromIDRequest_MessageLaws : MessageLaws GetBlocksFromIDRequest.
Proof. split. eexists. intros. by apply GetBlocksFromIDRequest_reads. Qed.

Record GetBlocksFromIDResponse := mkGetBlocksFromIDResponse {
  GetBlocksFromIDResponse_Blocks : list Block;
}.

Definition GetBlocksFromIDResponse_Encode `{Norm} (e : GetBlocksFromIDResponse) : bytes :=
  Result (NewWriter
    |> (λ w, foldl (λ w val, WriteEncodable 1 (Some (Block_Encode val)) w) w (GetBlocksFromIDResponse_Blocks e))).

Definition GetBlocksFromIDResponse_DecodeFromReader `{Norm} (strict : bool) (r : Reader) : res (GetBlocksFromIDResponse * Reader) :=
  '(Blocks_, r) ← ReadDecodables 1 (Block_DecodeFromReader false) r;
  Ok (mkGetBlocksFromIDResponse Blocks_, r).

Definition GetBlocksFromIDResponse_ok `{Norm} (e : GetBlocksFromIDResponse) : Prop :=
  Forall Block_ok (GetBlocksFromIDResponse_Blocks e).

Lemma GetBlocksFromIDResponse_reads `{Norm, !NormLaws} strict e :
  GetBlocksFromIDResponse_ok e → Reads 1 2 (GetBlocksFromIDResponse_DecodeFromReader strict) (GetBlocksFromIDResponse_Encode e) e.
Proof.
  intros Hok. destruct e. unfold GetBlocksFromIDResponse_ok, GetBlocksFromIDResponse_DecodeFromReader, GetBlocksFromIDResponse_Encode in *. solve_reads.
Qed.

#[export] Hint Resolve GetBlocksFromIDResponse_reads : reads.

#[export] Instance GetBlocksFromIDResponse_Message `{Norm} : Message GetBlocksFromIDResponse :=
  { Encode := GetBlocksFromIDResponse_Encode; DecodeFromReader := GetBlocksFromIDResponse_DecodeFromReader; msg_ok := GetBlocksFromIDResponse_ok }.
#[export] Instance GetBlocksFromIDResponse_MessageLaws `{Norm, !NormLaws} : MessageLaws GetBlocksFromIDResponse.
Proof. split. eexists. intros. by apply GetBlocksFromIDResponse_reads. Qed.

(** ** pkg/consensus/sync/request_codec.go *)

Record getHighestCommonBlockRequest := mkgetHighestCommonBlockRequest {
  getHighestCommonBlockRequest_ids : list bytes;
}.

Definition getHighestCommonBlockRequest_Encode (e : getHighestCommonBlockRequest) : bytes :=
  Result (NewWriter
    |> WriteBytesArray 1 (getHighestCommonBlockRequest_ids e)).

Definition getHighestCommonBlockRequest_DecodeFromReader (strict : bool) (r : Reader) : res (getHighestCommonBlockRequest * Reader) :=
  '(ids_, r) ← ReadBytesArray 1 r;
  Ok (mkgetHighestCommonBlockRequest ids_, r).

Definition getHighestCommonBlockRequest_ok (e : getHighestCommonBlockRequest) : Prop :=
  True.

Lemma getHighestCommonBlockRequest_reads strict e :
  getHighestCommonBlockRequest_ok e → Reads 1 2 (getHighestCommonBlockRequest_DecodeFromReader strict) (getHighestCommonBlockRequest_Encode e) e.
Proof.
  intros Hok. destruct e. unfold getHighestCommonBlockRequest_ok, getHighestCommonBlockRequest_DecodeFromReader, getHighestCommonBlockRequest_Encode in *. solve_reads.
Qed.

#[export] Hint Resolve getHighestCommonBlockRequest_reads : reads.

Lemma getHighestCommonBlockRequest_total strict : Total 0 (getHighestCommonBlockRequest_DecodeFromReader strict).
Proof. unfold getHighestCommonBlockRequest_DecodeFromReader. solve_total. Qed.
#[export] Hint Resolve getHighestCommonBlockRequest_total : go.

#[export] Instance getHighestCommonBlockRequest_Message : Message getHighestCommonBlockRequest :=
  { Encode := getHighestCommonBlockRequest_Encode; DecodeFromReader := getHighestCommonBlockRequest_DecodeFromReader; msg_ok := getHighestCommonBlockRequest_ok }.
#[export] Instance getHighestCommonBlockRequest_MessageLaws : MessageLaws getHighestCommonBlockRequest.
Proof. split. eexists. intros. by apply getHighestCommonBlockRequest_reads. Qed.

Record getHighestCommonBlockResponse := mkgetHighestCommonBlockResponse {
  getHighestCommonBlockResponse_id : bytes;
}.

Definition getHighestCommonBlockResponse_Encode (e : getHighestCommonBlockResponse) : bytes :=
  Result (NewWriter
    |> WriteBytes 1 (getHighestCommonBlockResponse_id e)).

Definition getHighestCommonBlockResponse_DecodeFromReader (strict : bool) (r : Reader) : res (getHighestCommonBlockResponse * Reader) :=
  '(id_, r) ← ReadBytes 1 strict r;
  Ok (mkgetHighestCommonBlockResponse id_, r).

Definition getHighestCommonBlockResponse_ok (e : getHighestCommonBlockResponse) : Prop :=
  True.

Lemma getHighestCommonBlockResponse_reads strict e :
  getHighestCommonBlockResponse_ok e → Reads 1 2 (getHighestCommonBlockResponse_DecodeFromReader strict) (getHighestCommonBlockResponse_Encode e) e.
Proof.
  intros Hok. destruct e. unfold getHighestCommonBlockResponse_ok, getHighestCommonBlockResponse_DecodeFromReader, getHighestCommonBlockResponse_Encode in *. solve_reads.
Qed.

#[export] Hint Resolve getHighestCommonBlockResponse_reads : reads.

Lemma getHighestCommonBlockResponse_total strict : Total 0 (getHighestCommonBlockResponse_DecodeFromReader strict).
Proof. unfold getHighestCommonBlockResponse_DecodeFromReader. solve_total. Qed.
#[export] Hint Resolve getHighestCommonBlockResponse_total : go.

#[export] Instance getHighestCommonBlockResponse_Message : Message getHighestCommonBlockResponse :=
  { Encode := getHighestCommonBlockResponse_Encode; DecodeFromReader := getHighestCommonBlockResponse_DecodeFromReader; msg_ok := getHighestCommonBlockResponse_ok }.
#[export] Instance getHighestCommonBlockResponse_MessageLaws : MessageLaws getHighestCommonBlockResponse.
Proof. split. eexists. intros. by apply getHighestCommonBlockResponse_reads. Qed.

Record getBlocksFromIDRequest := mkgetBlocksFromIDRequest {
  getBlocksFromIDRequest_blockID : bytes;
}.

Definition getBlocksFromIDRequest_Encode (e : getBlocksFromIDRequest) : bytes :=
  Result (NewWriter
    |> WriteBytes 1 (getBlocksFromIDRequest_blockID e)).

Definition getBlocksFromIDRequest_DecodeFromReader (strict : bool) (r : Reader) : res (getBlocksFromIDRequest * Reader) :=
  '(blockID_, r) ← ReadBytes 1 strict r;
  Ok (mkgetBlocksFromIDRequest blockID_, r).

Definition getBlocksFromIDRequest_ok (e : getBlocksFromIDRequest) : Prop :=
  True.

Lemma getBlocksFromIDRequest_reads strict e :
  getBlocksFromIDRequest_ok e → Reads 1 2 (getBlocksFromIDRequest_DecodeFromReader strict) (getBlocksFromIDRequest_Encode e) e.
Proof.
  intros Hok. destruct e. unfold getBlocksFromIDRequest_ok, getBlocksFromIDRequest_DecodeFromReader, getBlocksFromIDRequest_Encode in *. solve_reads.
Qed.

#[export] Hint Resolve getBlocksFromIDRequest_reads : reads.

Lemma getBlocksFromIDRequest_total strict : Total 0 (getBlocksFromIDRequest_DecodeFromReader strict).
Proof. unfold getBlocksFromIDRequest_DecodeFromReader. solve_total. Qed.
#[export] Hint Resolve getBlocksFromIDRequest_total : go.

#[export] Instance getBlocksFromIDRequest_Message : Message getBlocksFromIDRequest :=
  { Encode := getBlocksFromIDRequest_Encode; DecodeFromReader := getBlocksFromIDRequest_DecodeFromReader; msg_ok := getBlocksFromIDRequest_ok }.
#[export] Instance getBlocksFromIDRequest_MessageLaws : MessageLaws getBlocksFromIDRequest.
Proof. split. eexists. intros. by apply getBlocksFromIDRequest_reads. Qed.

Record getBlocksFromIDResponse := mkgetBlocksFromIDResponse {
  getBlocksFromIDResponse_blocks : list bytes;
}.

Definition getBlocksFromIDResponse_Encode (e : getBlocksFromIDResponse) : bytes :=
  Result (NewWriter
    |> WriteBytesArray 1 (getBlocksFromIDResponse_blocks e)).

Definition getBlocksFromIDResponse_DecodeFromReader (strict : bool) (r : Reader) : res (getBlocksFromIDResponse * Reader) :=
  '(blocks_, r) ← ReadBytesArray 1 r;
  Ok (mkgetBlocksFromIDResponse blocks_, r).

Definition getBlocksFromIDResponse_ok (e : getBlocksFromIDResponse) : Prop :=
  True.

Lemma getBlocksFromIDResponse_reads strict e :
  getBlocksFromIDResponse_ok e → Reads 1 2 (getBlocksFromIDResponse_DecodeFromReader strict) (getBlocksFromIDResponse_Encode e) e.
Proof.
  intros Hok. destruct e. unfold getBlocksFromIDResponse_ok, getBlocksFromIDResponse_DecodeFromReader, getBlocksFromIDResponse_Encode in *. solve_reads.
Qed.

#[export] Hint Resolve getBlocksFromIDResponse_reads : reads.

Lemma getBlocksFromIDResponse_total strict : Total 0 (getBlocksFromIDResponse_DecodeFromReader strict).
Proof. unfold getBlocksFromIDResponse_DecodeFromReader. solve_total. Qed.
#[export] Hint Resolve getBlocksFromIDResponse_total : go.

#[export] Instance getBlocksFromIDResponse_Message : Message getBlocksFromIDResponse :=
  { Encode := getBlocksFromIDResponse_Encode; DecodeFromReader := getBlocksFromIDResponse_DecodeFromReader; msg_ok := getBlocksFromIDResponse_ok }.
#[export] Instance getBlocksFromIDResponse_MessageLaws : MessageLaws getBlocksFromIDResponse.
Proof. split. eexists. intros. by apply getBlocksFromIDResponse_reads. Qed.

(** ** pkg/consensus/sync/node_info_codec.go *)

Record NodeInfo := mkNodeInfo {
  NodeInfo_PeerID : bytes;
  NodeInfo_height : Z;
  NodeInfo_maxHeightPrevoted : Z;
  NodeInfo_blockVersion : Z;
  NodeInfo_lastBlockID : bytes;
}.

Definition NodeInfo_Encode (e : NodeInfo) : bytes :=
  Result (NewWriter
    |> WriteUInt32 1 (NodeInfo_height e)
    |> WriteUInt32 2 (NodeInfo_maxHeightPrevoted e)
    |> WriteUInt32 3 (NodeInfo_blockVersion e)
    |> WriteBytes 4 (NodeInfo_lastBlockID e)).

Definition NodeInfo_DecodeFromReader (strict : bool) (r : Reader) : res (NodeInfo * Reader) :=
  '(height_, r) ← ReadUInt32 1 strict r;
  '(maxHeightPrevoted_, r) ← ReadUInt32 2 strict r;
  '(blockVersion_, r) ← ReadUInt32 3 strict r;
  '(lastBlockID_, r) ← ReadBytes 4 strict r;
  Ok (mkNodeInfo [] height_ maxHeightPrevoted_ blockVersion_ lastBlockID_, r).

Definition NodeInfo_ok (e : NodeInfo) : Prop :=
  NodeInfo_PeerID e = [] ∧ u32_ok (NodeInfo_height e) ∧ u32_ok (NodeInfo_maxHeightPrevoted e) ∧
  u32_ok (NodeInfo_blockVersion e).

Lemma NodeInfo_reads strict e :
  NodeInfo_ok e → Reads 1 5 (NodeInfo_DecodeFromReader strict) (NodeInfo_Encode e) e.
Proof.
  intros Hok. destruct e. unfold NodeInfo_ok, NodeInfo_DecodeFromReader, NodeInfo_Encode in *. solve_reads.
Qed.

#[export] Hint Resolve NodeInfo_reads : reads.

Lemma NodeInfo_total strict : Total 0 (NodeInfo_DecodeFromReader strict).
Proof. unfold NodeInfo_DecodeFromReader. solve_total. Qed.
#[export] Hint Resolve NodeInfo_total : go.

#[export] Instance NodeInfo_Message : Message NodeInfo :=
  { Encode := NodeInfo_Encode; DecodeFromReader := NodeInfo_DecodeFromReader; msg_ok := NodeInfo_ok }.
#[export] Instance NodeInfo_MessageLaws : MessageLaws NodeInfo.
Proof. split. eexists. intros. by apply NodeInfo_reads. Qed.

(** ** pkg/consensus/events_codec.go: events of the consensus *)

Record EventNetworkBlockNewMessage := mkEventNetworkBlockNewMessage {
  EventNetworkBlockNewMessage_Block : option Block;
}.

Definition EventNetworkBlockNewMessage_Encode `{Norm} (e : EventNetworkBlockNewMessage) : bytes :=
  Result (NewWriter
    |> WriteEncodable 1 (Block_Encode <$> EventNetworkBlockNewMessage_Block e)).

Definition EventNetworkBlockNewMessage_DecodeFromReader `{Norm} (strict : bool) (r : Reader) : res (EventNetworkBlockNewMessage * Reader) :=
  '(Block_, r) ← ReadDecodable 1 Block_zero (Block_DecodeFromReader false) strict r;
  Ok (mkEventNetworkBlockNewMessage (Some Block_), r).

Definition EventNetworkBlockNewMessage_ok `{Norm} (e : EventNetworkBlockNewMessage) : Prop :=
  (∃ c, EventNetworkBlockNewMessage_Block e = Some c ∧ Block_ok c).

Lemma EventNetworkBlockNewMessage_reads `{Norm, !NormLaws} strict e :
  EventNetworkBlockNewMessage_ok e → Reads 1 2 (EventNetworkBlockNewMessage_DecodeFromReader strict) (EventNetworkBlockNewMessage_Encode e) e.
Proof.
  intros Hok. destruct e. unfold EventNetworkBlockNewMessage_ok, EventNetworkBlockNewMessage_DecodeFromReader, EventNetworkBlockNewMessage_Encode in *. solve_reads.
Qed.

#[export] Hint Resolve EventNetworkBlockNewMessage_reads : reads.

#[export] Instance EventNetworkBlockNewMessage_Message `{Norm} : Message EventNetworkBlockNewMessage :=
  { Encode := EventNetworkBlockNewMessage_Encode; DecodeFromReader := EventNetworkBlockNewMessage_DecodeFromReader; msg_ok := EventNetworkBlockNewMessage_ok }.
#[export] Instance EventNetworkBlockNewMessage_MessageLaws `{Norm, !NormLaws} : MessageLaws EventNetworkBlockNewMessage.
Proof. split. eexists. intros. by apply EventNetworkBlockNewMessage_reads. Qed.

Record EventBlockNewMessage := mkEventBlockNewMessage {
  EventBlockNewMessage_Block : option Block;
  EventBlockNewMessage_Events : list Event;
}.

Definition EventBlockNewMessage_Encode `{Norm} (e : EventBlockNewMessage) : bytes :=
  Result (NewWriter
    |> WriteEncodable 1 (Block_Encode <$> EventBlockNewMessage_Block e)
    |> (λ w, foldl (λ w val, WriteEncodable 2 (Some (Event_Encode val)) w) w (EventBlockNewMessage_Events e))).

Definition EventBlockNewMessage_DecodeFromReader `{Norm} (strict : bool) (r : Reader) : res (EventBlockNewMessage * Reader) :=
  '(Block_, r) ← ReadDecodable 1 Block_zero (Block_DecodeFromReader false) strict r;
  '(Events_, r) ← ReadDecodables 2 (Event_DecodeFromReader false) r;
  Ok (mkEventBlockNewMessage (Some Block_) Events_, r).

Definition EventBlockNewMessage_ok `{Norm} (e : EventBlockNewMessage) : Prop :=
  (∃ c, EventBlockNewMessage_Block e = Some c ∧ Block_ok c) ∧
  Forall Event_ok (EventBlockNewMessage_Events e).

Lemma EventBlockNewMessage_reads `{Norm, !NormLaws} strict e :
  EventBlockNewMessage_ok e → Reads 1 3 (EventBlockNewMessage_DecodeFromReader strict) (EventBlockNewMessage_Encode e) e.
Proof.
  intros Hok. destruct e. unfold EventBlockNewMessage_ok, EventBlockNewMessage_DecodeFromReader, EventBlockNewMessage_Encode in *. solve_reads.
Qed.

#[export] Hint Resolve EventBlockNewMessage_reads : reads.

#[export] Instance EventBlockNewMessage_Message `{Norm} : Message EventBlockNewMessage :=
  { Encode := EventBlockNewMessage_Encode; DecodeFromReader := EventBlockNewMessage_DecodeFromReader; msg_ok := EventBlockNewMessage_ok }.
#[export] Instance EventBlockNewMessage_MessageLaws `{Norm, !NormLaws} : MessageLaws EventBlockNewMessage.
Proof. split. eexists. intros. by apply EventBlockNewMessage_reads. Qed.

Record EventBlockDeleteMessage := mkEventBlockDeleteMessage {
  EventBlockDeleteMessage_Block : option Block;
}.

Definition EventBlockDeleteMessage_Encode `{Norm} (e : EventBlockDeleteMessage) : bytes :=
  Result (NewWriter
    |> WriteEncodable 1 (Block_Encode <$> EventBlockDeleteMessage_Block e)).

Definition EventBlockDeleteMessage_DecodeFromReader `{Norm} (strict : bool) (r : Reader) : res (EventBlockDeleteMessage * Reader) :=
  '(Block_, r) ← ReadDecodable 1 Block_zero (Block_DecodeFromReader false) strict r;
  Ok (mkEventBlockDeleteMessage (Some Block_), r).

Definition EventBlockDeleteMessage_ok `{Norm} (e : EventBlockDeleteMessage) : Prop :=
  (∃ c, EventBlockDeleteMessage_Block e = Some c ∧ Block_ok c).

Lemma EventBlockDeleteMessage_reads `{Norm, !NormLaws} strict e :
  EventBlockDeleteMessage_ok e → Reads 1 2 (EventBlockDeleteMessage_DecodeFromReader strict) (EventBlockDeleteMessage_Encode e) e.
Proof.
  intros Hok. destruct e. unfold EventBlockDeleteMessage_ok, EventBlockDeleteMessage_DecodeFromReader, EventBlockDeleteMessage_Encode in *. solve_reads.
Qed.

#[export] Hint Resolve EventBlockDeleteMessage_reads : reads.

#[export] Instance EventBlockDeleteMessage_Message `{Norm} : Message EventBlockDeleteMessage :=
  { Encode := EventBlockDeleteMessage_Encode; DecodeFromReader := EventBlockDeleteMessage_DecodeFromReader; msg_ok := EventBlockDeleteMessage_ok }.
#[export] Instance EventBlockDeleteMessage_MessageLaws `{Norm, !NormLaws} : MessageLaws EventBlockDeleteMessage.
Proof. split. eexists. intros. by apply EventBlockDeleteMessage_reads. Qed.

Record EventChainForkMessage := mkEventChainForkMessage {
  EventChainForkMessage_Block : option Block;
}.

Definition EventChainForkMessage_Encode `{Norm} (e : EventChainForkMessage) : bytes :=
  Result (NewWriter
    |> WriteEncodable 1 (Block_Encode <$> EventChainForkMessage_Block e)).

Definition EventChainForkMessage_DecodeFromReader `{Norm} (strict : bool) (r : Reader) : res (EventChainForkMessage * Reader) :=
  '(Block_, r) ← ReadDecodable 1 Block_zero (Block_DecodeFromReader false) strict r;
  Ok (mkEventChainForkMessage (Some Block_), r).

Definition EventChainForkMessage_ok `{Norm} (e : EventChainForkMessage) : Prop :=
  (∃ c, EventChainForkMessage_Block e = Some c ∧ Block_ok c).

Lemma EventChainForkMessage_reads `{Norm, !NormLaws} strict e :
  EventChainForkMessage_ok e → Reads 1 2 (EventChainForkMessage_DecodeFromReader strict) (EventChainForkMessage_Encode e) e.
Proof.
  intros Hok. destruct e. unfold EventChainForkMessage_ok, EventChainForkMessage_DecodeFromReader, EventChainForkMessage_Encode in *. solve_reads.
Qed.

#[export] Hint Resolve EventChainForkMessage_reads : reads.

#[export] Instance EventChainForkMessage_Message `{Norm} : Message EventChainForkMessage :=
  { Encode := EventChainForkMessage_Encode; DecodeFromReader := EventChainForkMessage_DecodeFromReader; msg_ok := EventChainForkMessage_ok }.
#[export] Instance EventChainForkMessage_MessageLaws `{Norm, !NormLaws} : MessageLaws EventChainForkMessage.
Proof. split. eexists. intros. by apply EventChainForkMessage_reads. Qed.

Record EventChangeValidator := mkEventChangeValidator {
  EventChangeValidator_NextValidators : list LabiValidator;
  EventChangeValidator_PrecommitThreshold : Z;
  EventChangeValidator_CertificateThreshold : Z;
}.

Definition EventChangeValidator_Encode (e : EventChangeValidator) : bytes :=
  Result (NewWriter
    |> (λ w, foldl (λ w val, WriteEncodable 1 (Some (LabiValidator_Encode val)) w) w (EventChangeValidator_NextValidators e))
    |> WriteUInt 2 (EventChangeValidator_PrecommitThreshold e)
    |> WriteUInt 3 (EventChangeValidator_CertificateThreshold e)).

Definition EventChangeValidator_DecodeFromReader (strict : bool) (r : Reader) : res (EventChangeValidator * Reader) :=
  '(NextValidators_, r) ← ReadDecodables 1 (LabiValidator_DecodeFromReader false) r;
  '(PrecommitThreshold_, r) ← ReadUInt 2 strict r;
  '(CertificateThreshold_, r) ← ReadUInt 3 strict r;
  Ok (mkEventChangeValidator NextValidators_ PrecommitThreshold_ CertificateThreshold_, r).

Definition EventChangeValidator_ok (e : EventChangeValidator) : Prop :=
  Forall LabiValidator_ok (EventChangeValidator_NextValidators e) ∧
  u64_ok (EventChangeValidator_PrecommitThreshold e) ∧
  u64_ok (EventChangeValidator_CertificateThreshold e).

Lemma EventChangeValidator_reads strict e :
  EventChangeValidator_ok e → Reads 1 4 (EventChangeValidator_DecodeFromReader strict) (EventChangeValidator_Encode e) e.
Proof.
  intros Hok. destruct e. unfold EventChangeValidator_ok, EventChangeValidator_DecodeFromReader, EventChangeValidator_Encode in *. solve_reads.
Qed.

#[export] Hint Resolve EventChangeValidator_reads : reads.

Lemma EventChangeValidator_total strict : Total 0 (EventChangeValidator_DecodeFromReader strict).
Proof. unfold EventChangeValidator_DecodeFromReader. solve_total. Qed.
#[export] Hint Resolve EventChangeValidator_total : go.

#[export] Instance EventChangeValidator_Message : Message EventChangeValidator :=
  { Encode := EventChangeValidator_Encode; DecodeFromReader := EventChangeValidator_DecodeFromReader; msg_ok := EventChangeValidator_ok }.
#[export] Instance EventChangeValidator_MessageLaws : MessageLaws EventChangeValidator.
Proof. split. eexists. intros. by apply EventChangeValidator_reads. Qed.

Record EventBlockFinalizeMessage := mkEventBlockFinalizeMessage {
  EventBlockFinalizeMessage_Original : Z;
  EventBlockFinalizeMessage_Next : Z;
  EventBlockFinalizeMessage_Trigger : option BlockHeader;
}.

Definition EventBlockFinalizeMessage_Encode (e : EventBlockFinalizeMessage) : bytes :=
  Result (NewWriter
    |> WriteUInt32 1 (EventBlockFinalizeMessage_Original e)
    |> WriteUInt32 2 (EventBlockFinalizeMessage_Next e)
    |> WriteEncodable 3 (BlockHeader_Encode <$> EventBlockFinalizeMessage_Trigger e)).

Definition EventBlockFinalizeMessage_DecodeFromReader (strict : bool) (r : Reader) : res (EventBlockFinalizeMessage * Reader) :=
  '(Original_, r) ← ReadUInt32 1 strict r;
  '(Next_, r) ← ReadUInt32 2 strict r;
  '(Trigger_, r) ← ReadDecodable 3 BlockHeader_zero (BlockHeader_DecodeFromReader false) strict r;
  Ok (mkEventBlockFinalizeMessage Original_ Next_ (Some Trigger_), r).

Definition EventBlockFinalizeMessage_ok (e : EventBlockFinalizeMessage) : Prop :=
  u32_ok (EventBlockFinalizeMessage_Original e) ∧ u32_ok (EventBlockFinalizeMessage_Next e) ∧
  (∃ c, EventBlockFinalizeMessage_Trigger e = Some c ∧ BlockHeader_ok c).

Lemma EventBlockFinalizeMessage_reads strict e :
  EventBlockFinalizeMessage_ok e → Reads 1 4 (EventBlockFinalizeMessage_DecodeFromReader strict) (EventBlockFinalizeMessage_Encode e) e.
Proof.
  intros Hok. destruct e. unfold EventBlockFinalizeMessage_ok, EventBlockFinalizeMessage_DecodeFromReader, EventBlockFinalizeMessage_Encode in *. solve_reads.
Qed.

#[export] Hint Resolve EventBlockFinalizeMessage_reads : reads.

#[export] Instance EventBlockFinalizeMessage_Message : Message EventBlockFinalizeMessage :=
  { Encode := EventBlockFinalizeMessage_Encode; DecodeFromReader := EventBlockFinalizeMessage_DecodeFromReader; msg_ok := EventBlockFinalizeMessage_ok }.
#[export] Instance EventBlockFinalizeMessage_MessageLaws : MessageLaws EventBlockFinalizeMessage.
Proof. split. eexists. intros. by apply EventBlockFinalizeMessage_reads. Qed.

