(* ===== verification/Certificate.v ===== *)
(** * Certificate: single commits, their pool and aggregate certificates

    pkg/consensus/certificate (certificate.go, pool.go and the generated codecs)
    and the messages of pkg/consensus/schema.go.  The functions of the executer
    that use them are in Commits.v. *)

From S2P Require Import Prelude Collection Codec CodecSpec Message Crypto BlockTypes Block DB DiffDB ForkChoice BFTTypes Votes LiskBFT LabiTypes.

(** ** certificate_codec.go *)

Record Certificate := mkCertificate {
  Certificate_BlockID : bytes;
  Certificate_Height : Z;
  Certificate_Timestamp : Z;
  Certificate_StateRoot : bytes;
  Certificate_ValidatorsHash : bytes;
  Certificate_AggregationBits : bytes;
  Certificate_Signature : bytes;
}.

Definition Certificate_Encode (e : Certificate) : bytes :=
  Result (NewWriter
    |> WriteBytes 1 (Certificate_BlockID e)
    |> WriteUInt32 2 (Certificate_Height e)
    |> WriteUInt32 3 (Certificate_Timestamp e)
    |> WriteBytes 4 (Certificate_StateRoot e)
    |> WriteBytes 5 (Certificate_ValidatorsHash e)
    |> WriteBytes 6 (Certificate_AggregationBits e)
    |> WriteBytes 7 (Certificate_Signature e)).

Definition Certificate_DecodeFromReader (strict : bool) (r : Reader) : res (Certificate * Reader) :=
  '(BlockID_, r) ← ReadBytes 1 strict r;
  '(Height_, r) ← ReadUInt32 2 strict r;
  '(Timestamp_, r) ← ReadUInt32 3 strict r;
  '(StateRoot_, r) ← ReadBytes 4 strict r;
  '(ValidatorsHash_, r) ← ReadBytes 5 strict r;
  '(AggregationBits_, r) ← ReadBytes 6 strict r;
  '(Signature_, r) ← ReadBytes 7 strict r;
  Ok (mkCertificate BlockID_ Height_ Timestamp_ StateRoot_ ValidatorsHash_ AggregationBits_
    Signature_, r).

Definition Certificate_ok (e : Certificate) : Prop :=
  u32_ok (Certificate_Height e) ∧ u32_ok (Certificate_Timestamp e).

Lemma Certificate_reads strict e :
  Certificate_ok e → Reads 1 8 (Certificate_DecodeFromReader strict) (Certificate_Encode e) e.
Proof.
  intros Hok. destruct e. unfold Certificate_ok, Certificate_DecodeFromReader, Certificate_Encode in *. solve_reads.
Qed.

#[export] Hint Resolve Certificate_reads : reads.

Lemma Certificate_total strict : Total 0 (Certificate_DecodeFromReader strict).
Proof. unfold Certificate_DecodeFromReader. solve_total. Qed.
#[export] Hint Resolve Certificate_total : go.

#[export] Instance Certificate_Message : Message Certificate :=
  { Encode := Certificate_Encode; DecodeFromReader := Certificate_DecodeFromReader; msg_ok := Certificate_ok }.
#[export] Instance Certificate_MessageLaws : MessageLaws Certificate.
Proof. split. eexists. intros. by apply Certificate_reads. Qed.

Record SigningCertificate := mkSigningCertificate {
  SigningCertificate_BlockID : bytes;
  SigningCertificate_Height : Z;
  SigningCertificate_Timestamp : Z;
  SigningCertificate_StateRoot : bytes;
  SigningCertificate_ValidatorsHash : bytes;
}.

Definition SigningCertificate_Encode (e : SigningCertificate) : bytes :=
  Result (NewWriter
    |> WriteBytes 1 (SigningCertificate_BlockID e)
    |> WriteUInt32 2 (SigningCertificate_Height e)
    |> WriteUInt32 3 (SigningCertificate_Timestamp e)
    |> WriteBytes 4 (SigningCertificate_StateRoot e)
    |> WriteBytes 5 (SigningCertificate_ValidatorsHash e)).

Definition SigningCertificate_DecodeFromReader (strict : bool) (r : Reader) : res (SigningCertificate * Reader) :=
  '(BlockID_, r) ← ReadBytes 1 strict r;
  '(Height_, r) ← ReadUInt32 2 strict r;
  '(Timestamp_, r) ← ReadUInt32 3 strict r;
  '(StateRoot_, r) ← ReadBytes 4 strict r;
  '(ValidatorsHash_, r) ← ReadBytes 5 strict r;
  Ok (mkSigningCertificate BlockID_ Height_ Timestamp_ StateRoot_ ValidatorsHash_, r).

Definition SigningCertificate_ok (e : SigningCertificate) : Prop :=
  u32_ok (SigningCertificate_Height e) ∧ u32_ok (SigningCertificate_Timestamp e).

Lemma SigningCertificate_reads strict e :
  SigningCertificate_ok e → Reads 1 6 (SigningCertificate_DecodeFromReader strict) (SigningCertificate_Encode e) e.
Proof.
  intros Hok. destruct e. unfold SigningCertificate_ok, SigningCertificate_DecodeFromReader, SigningCertificate_Encode in *. solve_reads.
Qed.

#[export] Hint Resolve SigningCertificate_reads : reads.

Lemma SigningCertificate_total strict : Total 0 (SigningCertificate_DecodeFromReader strict).
Proof. unfold SigningCertificate_DecodeFromReader. solve_total. Qed.
#[export] Hint Resolve SigningCertificate_total : go.

#[export] Instance SigningCertificate_Message : Message SigningCertificate :=
  { Encode := SigningCertificate_Encode; DecodeFromReader := SigningCertificate_DecodeFromReader; msg_ok := SigningCertificate_ok }.
#[export] Instance SigningCertificate_MessageLaws : MessageLaws SigningCertificate.
Proof. split. eexists. intros. by apply SigningCertificate_reads. Qed.

Record SingleCommit := mkSingleCommit {
  SingleCommit_internal : bool;
  SingleCommit_blockID : bytes;
  SingleCommit_height : Z;
  SingleCommit_validatorAddress : bytes;
  SingleCommit_certificateSignature : bytes;
}.

Definition SingleCommit_Encode (e : SingleCommit) : bytes :=
  Result (NewWriter
    |> WriteBytes 1 (SingleCommit_blockID e)
    |> WriteUInt32 2 (SingleCommit_height e)
    |> WriteBytes 3 (SingleCommit_validatorAddress e)
    |> WriteBytes 4 (SingleCommit_certificateSignature e)).

Definition SingleCommit_DecodeFromReader (strict : bool) (r : Reader) : res (SingleCommit * Reader) :=
  '(blockID_, r) ← ReadBytes 1 strict r;
  '(height_, r) ← ReadUInt32 2 strict r;
  '(validatorAddress_, r) ← ReadBytes 3 strict r;
  '(certificateSignature_, r) ← ReadBytes 4 strict r;
  Ok (mkSingleCommit false blockID_ height_ validatorAddress_ certificateSignature_, r).

Definition SingleCommit_ok (e : SingleCommit) : Prop :=
  SingleCommit_internal e = false ∧ u32_ok (SingleCommit_height e).

Lemma SingleCommit_reads strict e :
  SingleCommit_ok e → Reads 1 5 (SingleCommit_DecodeFromReader strict) (SingleCommit_Encode e) e.
Proof.
  intros Hok. destruct e. unfold SingleCommit_ok, SingleCommit_DecodeFromReader, SingleCommit_Encode in *. solve_reads.
Qed.

#[export] Hint Resolve SingleCommit_reads : reads.

Lemma SingleCommit_total strict : Total 0 (SingleCommit_DecodeFromReader strict).
Proof. unfold SingleCommit_DecodeFromReader. solve_total. Qed.
#[export] Hint Resolve SingleCommit_total : go.

#[export] Instance SingleCommit_Message : Message SingleCommit :=
  { Encode := SingleCommit_Encode; DecodeFromReader := SingleCommit_DecodeFromReader; msg_ok := SingleCommit_ok }.
#[export] Instance SingleCommit_MessageLaws : MessageLaws SingleCommit.
Proof. split. eexists. intros. by apply SingleCommit_reads. Qed.

(** ** pkg/consensus/schema_codec.go *)

Record EventPostBlock := mkEventPostBlock {
  EventPostBlock_Block : bytes;
}.

Definition EventPostBlock_Encode (e : EventPostBlock) : bytes :=
  Result (NewWriter
    |> WriteBytes 1 (EventPostBlock_Block e)).

Definition EventPostBlock_DecodeFromReader (strict : bool) (r : Reader) : res (EventPostBlock * Reader) :=
  '(Block_, r) ← ReadBytes 1 strict r;
  Ok (mkEventPostBlock Block_, r).

Definition EventPostBlock_ok (e : EventPostBlock) : Prop :=
  True.

Lemma EventPostBlock_reads strict e :
  EventPostBlock_ok e → Reads 1 2 (EventPostBlock_DecodeFromReader strict) (EventPostBlock_Encode e) e.
Proof.
  intros Hok. destruct e. unfold EventPostBlock_ok, EventPostBlock_DecodeFromReader, EventPostBlock_Encode in *. solve_reads.
Qed.

#[export] Hint Resolve EventPostBlock_reads : reads.

Lemma EventPostBlock_total strict : Total 0 (EventPostBlock_DecodeFromReader strict).
Proof. unfold EventPostBlock_DecodeFromReader. solve_total. Qed.
#[export] Hint Resolve EventPostBlock_total : go.

#[export] Instance EventPostBlock_Message : Message EventPostBlock :=
  { Encode := EventPostBlock_Encode; DecodeFromReader := EventPostBlock_DecodeFromReader; msg_ok := EventPostBlock_ok }.
#[export] Instance EventPostBlock_MessageLaws : MessageLaws EventPostBlock.
Proof. split. eexists. intros. by apply EventPostBlock_reads. Qed.

Record EventPostSingleCommits := mkEventPostSingleCommits {
  EventPostSingleCommits_SingleCommits : list SingleCommit;
}.

Definition EventPostSingleCommits_Encode (e : EventPostSingleCommits) : bytes :=
  Result (NewWriter
    |> (λ w, foldl (λ w val, WriteEncodable 1 (Some (SingleCommit_Encode val)) w) w (EventPostSingleCommits_SingleCommits e))).

Definition EventPostSingleCommits_DecodeFromReader (strict : bool) (r : Reader) : res (EventPostSingleCommits * Reader) :=
  '(SingleCommits_, r) ← ReadDecodables 1 (SingleCommit_DecodeFromReader false) r;
  Ok (mkEventPostSingleCommits SingleCommits_, r).

Definition EventPostSingleCommits_ok (e : EventPostSingleCommits) : Prop :=
  Forall SingleCommit_ok (EventPostSingleCommits_SingleCommits e).

Lemma EventPostSingleCommits_reads strict e :
  EventPostSingleCommits_ok e → Reads 1 2 (EventPostSingleCommits_DecodeFromReader strict) (EventPostSingleCommits_Encode e) e.
Proof.
  intros Hok. destruct e. unfold EventPostSingleCommits_ok, EventPostSingleCommits_DecodeFromReader, EventPostSingleCommits_Encode in *. solve_reads.
Qed.

#[export] Hint Resolve EventPostSingleCommits_reads : reads.

Lemma EventPostSingleCommits_total strict : Total 0 (EventPostSingleCommits_DecodeFromReader strict).
Proof. unfold EventPostSingleCommits_DecodeFromReader. solve_total. Qed.
#[export] Hint Resolve EventPostSingleCommits_total : go.

#[export] Instance EventPostSingleCommits_Message : Message EventPostSingleCommits :=
  { Encode := EventPostSingleCommits_Encode; DecodeFromReader := EventPostSingleCommits_DecodeFromReader; msg_ok := EventPostSingleCommits_ok }.
#[export] Instance EventPostSingleCommits_MessageLaws : MessageLaws EventPostSingleCommits.
Proof. split. eexists. intros. by apply EventPostSingleCommits_reads. Qed.

Record ValidatorsHash := mkValidatorsHash {
  ValidatorsHash_Keys : list bytes;
  ValidatorsHash_Weights : list Z;
  ValidatorsHash_CertificateThreshold : Z;
}.

Definition ValidatorsHash_Encode (e : ValidatorsHash) : bytes :=
  Result (NewWriter
    |> WriteBytesArray 1 (ValidatorsHash_Keys e)
    |> WriteUInts 2 (ValidatorsHash_Weights e)
    |> WriteUInt 3 (ValidatorsHash_CertificateThreshold e)).

Definition ValidatorsHash_DecodeFromReader (strict : bool) (r : Reader) : res (ValidatorsHash * Reader) :=
  '(Keys_, r) ← ReadBytesArray 1 r;
  '(Weights_, r) ← ReadUInts 2 r;
  '(CertificateThreshold_, r) ← ReadUInt 3 strict r;
  Ok (mkValidatorsHash Keys_ Weights_ CertificateThreshold_, r).

Definition ValidatorsHash_ok (e : ValidatorsHash) : Prop :=
  Forall u64_ok (ValidatorsHash_Weights e) ∧ u64_ok (ValidatorsHash_CertificateThreshold e).

Lemma ValidatorsHash_reads strict e :
  ValidatorsHash_ok e → Reads 1 4 (ValidatorsHash_DecodeFromReader strict) (ValidatorsHash_Encode e) e.
Proof.
  intros Hok. destruct e. unfold ValidatorsHash_ok, ValidatorsHash_DecodeFromReader, ValidatorsHash_Encode in *. solve_reads.
Qed.

#[export] Hint Resolve ValidatorsHash_reads : reads.

Lemma ValidatorsHash_total strict : Total 0 (ValidatorsHash_DecodeFromReader strict).
Proof. unfold ValidatorsHash_DecodeFromReader. solve_total. Qed.
#[export] Hint Resolve ValidatorsHash_total : go.

#[export] Instance ValidatorsHash_Message : Message ValidatorsHash :=
  { Encode := ValidatorsHash_Encode; DecodeFromReader := ValidatorsHash_DecodeFromReader; msg_ok := ValidatorsHash_ok }.
#[export] Instance ValidatorsHash_MessageLaws : MessageLaws ValidatorsHash.
Proof. split. eexists. intros. by apply ValidatorsHash_reads. Qed.

Record NextValidatorParams := mkNextValidatorParams {
  NextValidatorParams_NextValidators : list LabiValidator;
  NextValidatorParams_PrecommitThreshold : Z;
  NextValidatorParams_CertificateThreshold : Z;
}.

Definition NextValidatorParams_Encode (e : NextValidatorParams) : bytes :=
  Result (NewWriter
    |> (λ w, foldl (λ w val, WriteEncodable 1 (Some (LabiValidator_Encode val)) w) w (NextValidatorParams_NextValidators e))
    |> WriteUInt 2 (NextValidatorParams_PrecommitThreshold e)
    |> WriteUInt 3 (NextValidatorParams_CertificateThreshold e)).

Definition NextValidatorParams_DecodeFromReader (strict : bool) (r : Reader) : res (NextValidatorParams * Reader) :=
  '(NextValidators_, r) ← ReadDecodables 1 (LabiValidator_DecodeFromReader false) r;
  '(PrecommitThreshold_, r) ← ReadUInt 2 strict r;
  '(CertificateThreshold_, r) ← ReadUInt 3 strict r;
  Ok (mkNextValidatorParams NextValidators_ PrecommitThreshold_ CertificateThreshold_, r).

Definition NextValidatorParams_ok (e : NextValidatorParams) : Prop :=
  Forall LabiValidator_ok (NextValidatorParams_NextValidators e) ∧
  u64_ok (NextValidatorParams_PrecommitThreshold e) ∧
  u64_ok (NextValidatorParams_CertificateThreshold e).

Lemma NextValidatorParams_reads strict e :
  NextValidatorParams_ok e → Reads 1 4 (NextValidatorParams_DecodeFromReader strict) (NextValidatorParams_Encode e) e.
Proof.
  intros Hok. destruct e. unfold NextValidatorParams_ok, NextValidatorParams_DecodeFromReader, NextValidatorParams_Encode in *. solve_reads.
Qed.

#[export] Hint Resolve NextValidatorParams_reads : reads.

Lemma NextValidatorParams_total strict : Total 0 (NextValidatorParams_DecodeFromReader strict).
Proof. unfold NextValidatorParams_DecodeFromReader. solve_total. Qed.
#[export] Hint Resolve NextValidatorParams_total : go.

#[export] Instance NextValidatorParams_Message : Message NextValidatorParams :=
  { Encode := NextValidatorParams_Encode; DecodeFromReader := NextValidatorParams_DecodeFromReader; msg_ok := NextValidatorParams_ok }.
#[export] Instance NextValidatorParams_MessageLaws : MessageLaws NextValidatorParams.
Proof. split. eexists. intros. by apply NextValidatorParams_reads. Qed.

(** ** certificate.go *)

Definition CommitRangeStored : Z := 100.
Definition IDLength : Z := 32.

(** "LSK_CE_" *)
Definition certificateTag : bytes := [0x4c; 0x53; 0x4b; 0x5f; 0x43; 0x45; 0x5f].

(** [crypto.BLSSign msg privateKey]. *)
Class BLSSigner := { BLS_Sign : bytes → bytes → bytes }.

Section certificate.
Context `{Hasher, BLS}.

Definition NewCertificateFromBlock (h : BlockHeader) : Certificate :=
  mkCertificate (bh_ID h) (bh_Height h) (bh_Timestamp h) (bh_StateRoot h) (bh_ValidatorsHash h) [] [].

Definition Certificate_IsEmpty (c : Certificate) : bool :=
  (len (Certificate_BlockID c) =? 0) && (Certificate_Height c =? 0) && (Certificate_Timestamp c =? 0)
  && (len (Certificate_StateRoot c) =? 0) && (len (Certificate_ValidatorsHash c) =? 0)
  && (len (Certificate_AggregationBits c) =? 0) && (len (Certificate_Signature c) =? 0).

Definition Certificate_SigningBytes (c : Certificate) : bytes :=
  SigningCertificate_Encode (mkSigningCertificate (Certificate_BlockID c) (Certificate_Height c)
    (Certificate_Timestamp c) (Certificate_StateRoot c) (Certificate_ValidatorsHash c)).

(** What is signed. *)
Definition certificate_message (chainID : bytes) (c : Certificate) : bytes :=
  Hash (Bytes.Join [certificateTag; chainID; Certificate_SigningBytes c]).

Definition set_Certificate_Signature (signature : bytes) (c : Certificate) : Certificate :=
  mkCertificate (Certificate_BlockID c) (Certificate_Height c) (Certificate_Timestamp c)
    (Certificate_StateRoot c) (Certificate_ValidatorsHash c) (Certificate_AggregationBits c) signature.

Definition set_Certificate_AggregationBits (bits : bytes) (c : Certificate) : Certificate :=
  mkCertificate (Certificate_BlockID c) (Certificate_Height c) (Certificate_Timestamp c)
    (Certificate_StateRoot c) (Certificate_ValidatorsHash c) bits (Certificate_Signature c).

Definition Certificate_Sign `{BLSSigner} (chainID blsSecretKey : bytes) (c : Certificate) : Certificate :=
  set_Certificate_Signature (BLS_Sign (certificate_message chainID c) blsSecretKey) c.

Definition Certificate_Verify (chainID signature blsPublicKey : bytes) (c : Certificate) : bool :=
  BLS_Verify (certificate_message chainID c) signature blsPublicKey.

Definition VerifyAggregateCertificateSignature (keyList : list bytes) (weights : list Z) (threshold : Z)
    (chainID : bytes) (c : Certificate) : res bool :=
  BLSVerifyWeightedAggSig keyList (Certificate_AggregationBits c) (Certificate_Signature c) weights threshold
    (certificate_message chainID c).

Definition NewSingleCommit `{BLSSigner} (header : BlockHeader) (address chainID sk : bytes) : SingleCommit :=
  let certificate := Certificate_Sign chainID sk (NewCertificateFromBlock header) in
  mkSingleCommit true (bh_ID header) (bh_Height header) address (Certificate_Signature certificate).

Definition SingleCommit_Validate (c : SingleCommit) : res () :=
  if negb (len (SingleCommit_blockID c) =? IDLength) then Err (Errorf "invalid block ID length")
  else if negb (len (SingleCommit_validatorAddress c) =? AddressLength) then Err (Errorf "invalid address length")
  else if negb (len (SingleCommit_certificateSignature c) =? BLSSignatureLength) then Err (Errorf "invalid BLS signature length")
  else Ok ().

Definition same_commit (commit val : SingleCommit) : bool :=
  bytes_equal (SingleCommit_blockID commit) (SingleCommit_blockID val)
  && bytes_equal (SingleCommit_validatorAddress commit) (SingleCommit_validatorAddress val).

Definition SingleCommits_has (val : SingleCommit) (s : list SingleCommit) : bool :=
  existsb (λ commit, same_commit commit val) s.

Fixpoint SingleCommits_GetUntil (height : Z) (s : list SingleCommit) : list SingleCommit :=
  match s with
  | [] => []
  | commit :: s => if height <=? SingleCommit_height commit then [] else commit :: SingleCommits_GetUntil height s
  end.

(** The loop over the reversed list; the limit is tested after every element. *)
Fixpoint largest_loop (limit : Z) (internal : bool) (s result : list SingleCommit) : list SingleCommit :=
  match s with
  | [] => result
  | commit :: s =>
      let result := if Bool.eqb (SingleCommit_internal commit) internal then result ++ [commit] else result in
      if limit <=? len result then result else largest_loop limit internal s result
  end.

Definition SingleCommits_GetLargestWithLimit (limit : Z) (internal : bool) (s : list SingleCommit) : list SingleCommit :=
  largest_loop limit internal (reverse s) [].

Definition SingleCommits_Sort (s : list SingleCommit) : list SingleCommit :=
  sort_slice (λ x y, SingleCommit_height x <? SingleCommit_height y) s.

(** An [AddressKeyPair] is a pair of the address and the BLS key. *)
Fixpoint AddressKeyPairs_BLSKey (address : bytes) (kps : list (bytes * bytes)) : option bytes :=
  match kps with
  | [] => None
  | kp :: kps => if bytes_equal address kp.1 then Some kp.2 else AddressKeyPairs_BLSKey address kps
  end.

(** [bytes.Compare(original[i].BLSKey, original[j].BLSKey) > 0]. *)
Definition AddressKeyPairs_Sort (kps : list (bytes * bytes)) : list (bytes * bytes) :=
  sort_slice (λ x y, bytes_ltb y.2 x.2) kps.

Definition AddressKeyPairs_BLSKeys (kps : list (bytes * bytes)) : list bytes := kps.*2.

Fixpoint signature_pairs (kps : list (bytes * bytes)) (s : list SingleCommit) : res (list (bytes * bytes)) :=
  match s with
  | [] => Ok []
  | commit :: s =>
      blsKey ← ok_or (AddressKeyPairs_BLSKey (SingleCommit_validatorAddress commit) kps)
                 (Errorf "bls key for address does not exist in the given keypairs");
      rest ← signature_pairs kps s;
      Ok ((blsKey, SingleCommit_certificateSignature commit) :: rest)
  end.

Definition SingleCommits_Aggregate (keypairs : list (bytes * bytes)) (s : list SingleCommit) : res AggregateCommit :=
  match s with
  | [] => Err (Errorf "single commit is empty")
  | first :: _ =>
      let height := SingleCommit_height first in
      let keypairs := AddressKeyPairs_Sort keypairs in
      psPair ← signature_pairs keypairs s;
      '(aggregateBits, signature) ← BLSCreateAggSig (AddressKeyPairs_BLSKeys keypairs) psPair;
      Ok (mkAggregateCommit height aggregateBits signature)
  end.

(** A missing aggregate commit is dereferenced. *)
Definition GetMaxRemovalHeight (h : BlockHeader) : res Z :=
  match bh_AggregateCommit h with Some ac => Ok (ac_Height ac) | None => Panic end.
End certificate.

(** ** pool.go *)

Record Pool := mkPool { nonGossiped : list SingleCommit; gossiped : list SingleCommit }.

Definition NewPool : Pool := mkPool [] [].

Definition Pool_Size (p : Pool) : Z := len (gossiped p) + len (nonGossiped p).

Definition Pool_Has (val : SingleCommit) (p : Pool) : bool :=
  SingleCommits_has val (gossiped p) || SingleCommits_has val (nonGossiped p).

Definition Pool_Add (val : SingleCommit) (p : Pool) : Pool := mkPool (nonGossiped p ++ [val]) (gossiped p).

(** The loops of [Cleanup]: the checker is a closure and may keep state. *)
Fixpoint keep_commits {St} (checker : Z → St → bool * St) (s : list SingleCommit) (st : St)
    : list SingleCommit * St :=
  match s with
  | [] => ([], st)
  | commit :: s =>
      let '(keep, st) := checker (SingleCommit_height commit) st in
      let '(rest, st) := keep_commits checker s st in
      (if (keep : bool) then commit :: rest else rest, st)
  end.

Definition Pool_Cleanup {St} (checker : Z → St → bool * St) (p : Pool) (st : St) : Pool * St :=
  let '(updatedGossip, st) := keep_commits checker (gossiped p) st in
  let '(updatedNonGossip, st) := keep_commits checker (nonGossiped p) st in
  (mkPool updatedNonGossip updatedGossip, st).

(** [result[:limit]] when [len(result) >= limit]: a negative limit panics. *)
Definition take_limit (limit : Z) (result : list SingleCommit) : res (list SingleCommit) := slice result 0 limit.

(** The sorts stay in the pool. *)
Definition Pool_Select (maxHeightPrecommited limit : Z) (p : Pool) : res (list SingleCommit * Pool) :=
  let max := if CommitRangeStored <? maxHeightPrecommited then u32 (maxHeightPrecommited - CommitRangeStored) else 0 in
  let p := mkPool (SingleCommits_Sort (nonGossiped p)) (gossiped p) in
  let result := SingleCommits_GetUntil max (nonGossiped p) in
  if limit <=? len result then r ← take_limit limit result; Ok (r, p)
  else
    let p := mkPool (nonGossiped p) (SingleCommits_Sort (gossiped p)) in
    let result := result ++ SingleCommits_GetUntil max (gossiped p) in
    if limit <=? len result then r ← take_limit limit result; Ok (r, p)
    else
      let result := result ++ SingleCommits_GetLargestWithLimit (limit - len result) true (nonGossiped p) in
      if limit <=? len result then r ← take_limit limit result; Ok (r, p)
      else
        let result := result ++ SingleCommits_GetLargestWithLimit (limit - len result) false (nonGossiped p) in
        if limit <=? len result then r ← take_limit limit result; Ok (r, p)
        else Ok (result, p).

Definition Pool_Get (height : Z) (p : Pool) : list SingleCommit :=
  let at_height := List.filter (λ sc, SingleCommit_height sc =? height) in
  at_height (gossiped p) ++ at_height (nonGossiped p).

Definition Pool_Upgrade (commits : list SingleCommit) (p : Pool) : Pool :=
  let up := List.filter (λ commit, SingleCommits_has commit commits) (nonGossiped p) in
  let remaining := List.filter (λ commit, negb (SingleCommits_has commit commits)) (nonGossiped p) in
  mkPool remaining (gossiped p ++ up).
