(* ===== verification/DataAccess.v ===== *)
(** * DataAccess: the block cache, the block store and the chain

    pkg/blockchain: block_cache.go, data_access.go with its generated codec,
    sort.go and chain.go.  The database is a pebble store of DB.v; the cache and
    the database form the state of [DataAccess], which [Chain] shares. *)

From S2P Require Import Prelude Collection Codec CodecSpec Message Crypto RMT BlockTypes Block DB DiffDB Event.

(** ** block_cache.go

    The keys of [cachedBlocks] are the bytes of the block ID.  The mutex is not
    modelled: every method holds it from its first to its last line. *)

Record blockCache := mkBlockCache {
  cachedBlocks : gmap bytes Block;
  heightIndex : gmap Z bytes;
  bc_size : Z;
  bc_maxSize : Z;
  bc_currentHeight : Z;
}.

Definition newBlockCache (maxSize : Z) : blockCache := mkBlockCache ∅ ∅ 0 maxSize 0.

Definition bc_get (id : bytes) (c : blockCache) : option Block := cachedBlocks c !! id.

Definition bc_getByHeight (height : Z) (c : blockCache) : option Block :=
  id ← heightIndex c !! height; cachedBlocks c !! id.

Definition bc_last (c : blockCache) : option Block := bc_getByHeight (bc_currentHeight c) c.

(** [block.Header.X] on a nil header panics. *)
Definition header_of (block : Block) : res BlockHeader :=
  match b_Header block with Some h => Ok h | None => Panic end.

(** The eviction of the oldest block. *)
Definition bc_evict (c : blockCache) : res blockCache :=
  let oldestHeight := u32 (u32 (bc_currentHeight c - u32 (bc_maxSize c)) + 1) in
  match heightIndex c !! oldestHeight with
  | None => Err (Errorf "oldest height does not exist in cache")
  | Some id =>
      Ok (mkBlockCache (delete id (cachedBlocks c)) (delete oldestHeight (heightIndex c)) (bc_size c - 1)
            (bc_maxSize c) (bc_currentHeight c))
  end.

Definition bc_push (block : Block) (c : blockCache) : res blockCache :=
  header ← header_of block;
  if negb (bc_size c =? 0) && negb (bh_Height header =? u32 (bc_currentHeight c + 1))
  then Err (Errorf "height cannot be added")
  else
    c ← (if bc_maxSize c <=? bc_size c then bc_evict c else Ok c);
    let id := bh_ID header in
    Ok (mkBlockCache (<[id := block]> (cachedBlocks c)) (<[bh_Height header := id]> (heightIndex c))
          (bc_size c + 1) (bc_maxSize c) (bh_Height header)).

(** A missing entry of a Go map reads as the zero value. *)
Definition bc_pop (c : blockCache) : option Block * blockCache :=
  if bc_size c =? 0 then (None, c)
  else
    let id := default [] (heightIndex c !! bc_currentHeight c) in
    let block := cachedBlocks c !! id in
    (block, mkBlockCache (delete id (cachedBlocks c)) (delete (bc_currentHeight c) (heightIndex c))
              (bc_size c - 1) (bc_maxSize c) (u32 (bc_currentHeight c - 1))).

(** ** data_access_codec.go *)

Record bytesList := mkbytesList { bytesList_items : list bytes }.

Definition bytesList_Encode (e : bytesList) : bytes :=
  Result (NewWriter |> WriteBytesArray 1 (bytesList_items e)).

Definition bytesList_DecodeFromReader (strict : bool) (r : Reader) : res (bytesList * Reader) :=
  '(items_, r) ← ReadBytesArray 1 r;
  Ok (mkbytesList items_, r).

Definition bytesList_ok (e : bytesList) : Prop := True.

Lemma bytesList_reads strict e :
  bytesList_ok e → Reads 1 2 (bytesList_DecodeFromReader strict) (bytesList_Encode e) e.
Proof.
  intros Hok. destruct e. unfold bytesList_ok, bytesList_DecodeFromReader, bytesList_Encode in *. solve_reads.
Qed.

#[export] Hint Resolve bytesList_reads : reads.

Lemma bytesList_total strict : Total 0 (bytesList_DecodeFromReader strict).
Proof. unfold bytesList_DecodeFromReader. solve_total. Qed.
#[export] Hint Resolve bytesList_total : go.

#[export] Instance bytesList_Message : Message bytesList :=
  { Encode := bytesList_Encode; DecodeFromReader := bytesList_DecodeFromReader; msg_ok := bytesList_ok }.
#[export] Instance bytesList_MessageLaws : MessageLaws bytesList.
Proof. split. eexists. intros. by apply bytesList_reads. Qed.

(** ** data_access.go *)

Definition idSize : Z := 32.

Definition dbPrefixBlockIDToBlockHeader : Z := 3.
Definition dbPrefixBlockHeightToBlockID : Z := 4.
Definition dbPrefixBlockIDToTxs : Z := 5.
Definition dbPrefixTxIDToTx : Z := 6.
Definition dbPrefixTemp : Z := 7.
Definition dbPrefixBlockIDToAssets : Z := 8.
Definition dbPrefixBlockHeightToEvents : Z := 9.
Definition dbPrefixFinalizedHeight : Z := 27.
Definition DBPrefixState : Z := 10.
Definition DBPrefixStateDiff : Z := 51.

Definition DBPrefixToBytes (prefix : Z) : bytes := [u8 prefix].

(** [bytes.Join(DBPrefixToBytes(prefix), key)]. *)
Definition db_key (prefix : Z) (key : bytes) : bytes := Bytes.Join [DBPrefixToBytes prefix; key].

(** Results of [Get] with the existence flag. *)
Definition found {A} (x : option A) : res A := match x with Some a => Ok a | None => Err ErrDataNotFound end.

(** [errors.Is(err, db.ErrDataNotFound)] turns into no value. *)
Definition unless_missing {A} (x : res A) : res (option A) :=
  match x with
  | Ok a => Ok (Some a)
  | Err e => if bool_decide (e = ErrDataNotFound) then Ok None else Err e
  | Panic => Panic
  | OutOfFuel => OutOfFuel
  end.

(** The goroutines that collect what exists append to one slice; here they run
    one after the other in the order of the arguments. *)
Fixpoint collect {A B} (f : A → res B) (l : list A) : res (list B) :=
  match l with
  | [] => Ok []
  | x :: l =>
      y ← unless_missing (f x);
      rest ← collect f l;
      Ok (match y with Some y => y :: rest | None => rest end)
  end.

Definition encodableListToBytes {A} `{Message A} (assets : list A) : bytes :=
  bytesList_Encode (mkbytesList (Encode <$> assets)).

Section dataaccess.
Context {S : Type} `{Pebble S} `{Norm, Hasher}.

Record DataAccess := mkDataAccess {
  da_database : S;
  da_cache : blockCache;
  da_keepEventsForHeights : Z;
}.

Definition NewDataAccess (db : S) (maxCacheSize keepEventsForHeights : Z) : DataAccess :=
  mkDataAccess db (newBlockCache maxCacheSize) keepEventsForHeights.

Definition set_da_cache (c : blockCache) (d : DataAccess) : DataAccess :=
  mkDataAccess (da_database d) c (da_keepEventsForHeights d).
Definition set_da_database (db : S) (d : DataAccess) : DataAccess :=
  mkDataAccess db (da_cache d) (da_keepEventsForHeights d).

Definition bytesToAssets (data : bytes) : res (list BlockAsset) :=
  if len data =? 0 then Ok []
  else
    list ← Message_Decode (A := bytesList) data;
    map_res (Message_Decode (A := BlockAsset)) (bytesList_items list).

Definition bytesToEvents (data : bytes) : res (list Event) :=
  if len data =? 0 then Ok []
  else
    list ← Message_Decode (A := bytesList) data;
    map_res NewEvent (bytesList_items list).

Definition getBlockHeader (d : DataAccess) (id : bytes) : res BlockHeader :=
  headerBytes ← found (Get (da_database d) (db_key dbPrefixBlockIDToBlockHeader id));
  header ← Message_Decode (A := BlockHeader) headerBytes;
  Ok (set_bh_ID (Hash headerBytes) header).

(** The second decoding overwrites the encoded fields only. *)
Definition getTransaction (d : DataAccess) (id : bytes) : res Transaction :=
  txBytes ← found (Get (da_database d) (db_key dbPrefixTxIDToTx id));
  tx ← NewTransaction txBytes;
  dec ← Message_Decode (A := Transaction) txBytes;
  Ok (mkTransaction (tx_ID tx) (tx_size tx) (tx_Module dec) (tx_Command dec) (tx_Nonce dec) (tx_Fee dec)
        (tx_SenderPublicKey dec) (tx_Params dec) (tx_Signatures dec)).

Definition getTransactions (d : DataAccess) (blockID : bytes) : res (list Transaction) :=
  match Get (da_database d) (db_key dbPrefixBlockIDToTxs blockID) with
  | None => Ok []
  | Some txIDs =>
      let size := len txIDs / idSize in
      map_res (λ i, let offset := i * idSize in
                    nextID ← slice txIDs offset (offset + idSize);
                    getTransaction d nextID) (seqZ 0 size)
  end.

Definition getBlockAssets (d : DataAccess) (blockID : bytes) : res (list BlockAsset) :=
  match Get (da_database d) (db_key dbPrefixBlockIDToAssets blockID) with
  | None => Ok []
  | Some assets => bytesToAssets assets
  end.

Definition getBlock (d : DataAccess) (id : bytes) : res Block :=
  header ← getBlockHeader d id;
  txs ← getTransactions d id;
  assets ← getBlockAssets d id;
  Ok (mkBlock (Some header) txs assets).

Definition CachedLastBlock (d : DataAccess) : option Block := bc_last (da_cache d).

Definition Cache (block : Block) (d : DataAccess) : res DataAccess :=
  c ← bc_push block (da_cache d);
  Ok (set_da_cache c d).

Definition Cached (d : DataAccess) (height : Z) : bool := bool_decide (is_Some (bc_getByHeight height (da_cache d))).

Definition RemoveCache (d : DataAccess) : DataAccess := set_da_cache (bc_pop (da_cache d)).2 d.

Definition GetBlockHeader (d : DataAccess) (id : bytes) : res BlockHeader :=
  match bc_get id (da_cache d) with
  | Some cachedBlock => header_of cachedBlock
  | None => getBlockHeader d id
  end.

Definition GetBlockHeaders (d : DataAccess) (ids : list bytes) : res (list BlockHeader) :=
  collect (GetBlockHeader d) ids.

Definition height_id (d : DataAccess) (height : Z) : res bytes :=
  found (Get (da_database d) (db_key dbPrefixBlockHeightToBlockID (Bytes.FromUint32 height))).

Definition da_GetBlockHeaderByHeight (d : DataAccess) (height : Z) : res BlockHeader :=
  match bc_getByHeight height (da_cache d) with
  | Some cachedBlock => header_of cachedBlock
  | None => id ← height_id d height; getBlockHeader d id
  end.

Definition GetBlockHeadersByHeights (d : DataAccess) (heights : list Z) : res (list BlockHeader) :=
  collect (da_GetBlockHeaderByHeight d) heights.

Definition GetBlock (d : DataAccess) (id : bytes) : res Block :=
  match bc_get id (da_cache d) with
  | Some cachedBlock => Ok cachedBlock
  | None => getBlock d id
  end.

Definition getLastBlock (d : DataAccess) : res Block :=
  match Iterate (da_database d) (DBPrefixToBytes dbPrefixBlockHeightToBlockID) 1 true with
  | [] => Err ErrDataNotFound
  | e :: _ => GetBlock d e.2
  end.

Definition GetLastBlockHeader (d : DataAccess) : res BlockHeader :=
  block ← getLastBlock d; header_of block.

Definition GetLastBlock (d : DataAccess) : res Block := found (bc_last (da_cache d)).

Definition GetBlockByHeight (d : DataAccess) (height : Z) : res Block :=
  match bc_getByHeight height (da_cache d) with
  | Some cachedBlock => Ok cachedBlock
  | None => id ← height_id d height; getBlock d id
  end.

(** The height of a block of a list that is sorted; nil headers panic, but only
    when blocks are compared. *)
Definition block_height (b : Block) : Z := match b_Header b with Some h => bh_Height h | None => 0 end.

Definition SortBlockByHeightAsc (blocks : list Block) : list Block :=
  sort_slice (λ x y, block_height x <? block_height y) blocks.

Definition SortBlockByHeightDesc (blocks : list Block) : list Block :=
  sort_slice (λ x y, block_height y <? block_height x) blocks.

(** With [from > to] the slice has [2^32 - k] nil blocks, which the sort
    dereferences, unless [from = to + 1]; with [to] the greatest uint32 the loop
    never ends. *)
Definition GetBlocksBetweenHeight (d : DataAccess) (from to : Z) : res (list Block) :=
  if to <? from then (if from =? to + 1 then Ok [] else Panic)
  else if to =? MaxUint32 then OutOfFuel
  else
    blocks ← map_res (GetBlockByHeight d) (seqZ from (to - from + 1));
    Ok (SortBlockByHeightAsc blocks).

Definition GetTransaction (d : DataAccess) (id : bytes) : res Transaction := getTransaction d id.

Definition GetTransactions (d : DataAccess) (ids : list bytes) : res (list Transaction) :=
  collect (getTransaction d) ids.

Definition GetTempBlocks (d : DataAccess) : res (list Block) :=
  map_res (λ data : bytes * bytes, NewBlock data.2) (Iterate (da_database d) (DBPrefixToBytes dbPrefixTemp) (-1) true).

Definition ClearTempBlocks (d : DataAccess) : DataAccess :=
  let tempBlockKeys := Iterate (da_database d) (DBPrefixToBytes dbPrefixTemp) (-1) true in
  match tempBlockKeys with
  | [] => d
  | _ => set_da_database (Write (foldl (λ batch data, Batch_Del data.1 batch) [] tempBlockKeys) (da_database d)) d
  end.

Definition GetEvents (d : DataAccess) (height : Z) : res (list Event) :=
  encodedEvents ← found (Get (da_database d) (db_key dbPrefixBlockHeightToEvents (Bytes.FromUint32 height)));
  bytesToEvents encodedEvents.

Definition GetFinalizedHeight (d : DataAccess) : res Z :=
  finalizedHeightByte ← found (Get (da_database d) (DBPrefixToBytes dbPrefixFinalizedHeight));
  Bytes.ToUint32 finalizedHeightByte.

(** The events of heights from 0 to the bound are deleted. *)
Definition prune_events (d : DataAccess) (height finalizedHeight : Z) (batch : Batch) : res Batch :=
  if -1 <? da_keepEventsForHeights d then
    kept ← Ints.Max [0; height - da_keepEventsForHeights d];
    minEventDeleteHeight ← Ints.Min [finalizedHeight; kept];
    if 0 <? minEventDeleteHeight then
      let kvs := IterateRange (da_database d) (db_key dbPrefixBlockHeightToEvents (Bytes.FromUint32 0))
                   (db_key dbPrefixBlockHeightToEvents (Bytes.FromUint32 (u32 minEventDeleteHeight))) (-1) false in
      Ok (foldl (λ batch kv, Batch_Del kv.1 batch) batch kvs)
    else Ok batch
  else Ok batch.

Definition saveBlock (d : DataAccess) (batch : Batch) (block : Block) (events : list Event)
    (finalizedHeight : Z) (removeTemp : bool) : res Batch :=
  header ← header_of block;
  let height := Bytes.FromUint32 (bh_Height header) in
  let encodedBlockHeader := BlockHeader_Encode header in
  let batch := Batch_Set (db_key dbPrefixBlockIDToBlockHeader (bh_ID header)) encodedBlockHeader batch in
  let batch := Batch_Set (db_key dbPrefixBlockHeightToBlockID height) (bh_ID header) batch in
  let batch :=
    if 0 <? len (b_Transactions block) then
      let batch := foldl (λ batch tx, Batch_Set (db_key dbPrefixTxIDToTx (tx_ID tx)) (Transaction_Encode tx) batch)
                     batch (b_Transactions block) in
      Batch_Set (db_key dbPrefixBlockIDToTxs (bh_ID header)) (Bytes.Join (tx_ID <$> b_Transactions block)) batch
    else batch in
  let batch :=
    if 0 <? len events
    then Batch_Set (db_key dbPrefixBlockHeightToEvents height) (encodableListToBytes events) batch else batch in
  let batch :=
    if 0 <? len (b_Assets block)
    then Batch_Set (db_key dbPrefixBlockIDToAssets (bh_ID header)) (encodableListToBytes (b_Assets block)) batch
    else batch in
  let batch := Batch_Set (DBPrefixToBytes dbPrefixFinalizedHeight) (Bytes.FromUint32 finalizedHeight) batch in
  batch ← prune_events d (bh_Height header) finalizedHeight batch;
  Ok (if removeTemp then Batch_Del (db_key dbPrefixTemp height) batch else batch).

Definition removeBlock (batch : Batch) (block : Block) (saveTemp : bool) : res Batch :=
  header ← header_of block;
  let height := Bytes.FromUint32 (bh_Height header) in
  let encodedBlock := Block_Encode block in
  let batch := Batch_Del (db_key dbPrefixBlockIDToBlockHeader (bh_ID header)) batch in
  let batch := Batch_Del (db_key dbPrefixBlockHeightToBlockID height) batch in
  let batch :=
    if 0 <? len (b_Transactions block) then
      let batch := foldl (λ batch tx, Batch_Del (db_key dbPrefixTxIDToTx (tx_ID tx)) batch) batch (b_Transactions block) in
      Batch_Del (db_key dbPrefixBlockIDToTxs (bh_ID header)) batch
    else batch in
  let batch :=
    if 0 <? len (b_Assets block) then Batch_Del (db_key dbPrefixBlockIDToAssets (bh_ID header)) batch else batch in
  let batch := Batch_Del (db_key dbPrefixBlockHeightToEvents height) batch in
  Ok (if saveTemp then Batch_Set (db_key dbPrefixTemp height) encodedBlock batch else batch).

(** ** chain.go *)

Record Chain := mkChain {
  maxTransactionsLength : Z;
  maxBlockCache : Z;
  chainID : bytes;
  keepEventsForHeights : Z;
  dataAccess : DataAccess;
  genesisBlock : Block;
}.

Definition set_dataAccess (d : DataAccess) (c : Chain) : Chain :=
  mkChain (maxTransactionsLength c) (maxBlockCache c) (chainID c) (keepEventsForHeights c) d (genesisBlock c).

(** [NewChain] and [Init]: [database] of the chain is that of its data access. *)
Definition NewChain_Init (chainID : bytes) (maxTransactionsLength maxBlockCache keepEventsForHeights : Z)
    (genesisBlock : Block) (db : S) : Chain :=
  mkChain maxTransactionsLength maxBlockCache chainID keepEventsForHeights
    (NewDataAccess db maxBlockCache keepEventsForHeights) genesisBlock.

(** nil when the cache is empty. *)
Definition LastBlock (c : Chain) : option Block := CachedLastBlock (dataAccess c).

(** A method call on the nil block panics. *)
Definition last_block (c : Chain) : res Block := match LastBlock c with Some b => Ok b | None => Panic end.
Definition last_header (c : Chain) : res BlockHeader := b ← last_block c; header_of b.

Definition GetLastNBlocks (c : Chain) (n : Z) : res (list Block) :=
  lastHeader ← last_header c;
  genesisHeader ← header_of (genesisBlock c);
  let startHeight := bh_Height genesisHeader in
  let startHeight :=
    if u32 (u32 (startHeight + u32 n) - 1) <? bh_Height lastHeader
    then u32 (u32 (bh_Height lastHeader - u32 n) + 1) else startHeight in
  GetBlocksBetweenHeight (dataAccess c) startHeight (bh_Height lastHeader).

Definition GenesisBlockExist (c : Chain) (block : Block) : res bool :=
  header ← header_of block;
  existing ← unless_missing (GetBlockByHeight (dataAccess c) (bh_Height header));
  match existing with
  | None => Ok false
  | Some existingBlock =>
      existingHeader ← header_of existingBlock;
      if bytes_equal (bh_ID existingHeader) (bh_ID header) then Ok true
      else Err (Errorf "blockID does not match with existing genesis block")
  end.

(** The database is written before the cache is pushed: an error of the cache
    leaves the written block. *)
Definition AddBlock (batch : Batch) (block : Block) (events : list Event) (finalizedHeight : Z) (removeTemp : bool)
    (c : Chain) : res () * Chain :=
  match saveBlock (dataAccess c) batch block events finalizedHeight removeTemp with
  | Ok batch =>
      let d := set_da_database (Write batch (da_database (dataAccess c))) (dataAccess c) in
      match Cache block d with
      | Ok d => (Ok (), set_dataAccess d c)
      | Err e => (Err e, set_dataAccess d c)
      | Panic => (Panic, set_dataAccess d c)
      | OutOfFuel => (OutOfFuel, set_dataAccess d c)
      end
  | Err e => (Err e, c)
  | Panic => (Panic, c)
  | OutOfFuel => (OutOfFuel, c)
  end.

Definition RemoveBlock (batch : Batch) (saveTemp : bool) (c : Chain) : res Chain :=
  lastBlock ← last_block c;
  lastHeader ← header_of lastBlock;
  genesisHeader ← header_of (genesisBlock c);
  if bh_Height lastHeader =? bh_Height genesisHeader then Err (Errorf "genesis block cannot be removed")
  else
    batch ← removeBlock batch lastBlock saveTemp;
    let d := set_da_database (Write batch (da_database (dataAccess c))) (dataAccess c) in
    Ok (set_dataAccess (RemoveCache d) c).

Fixpoint cache_blocks (blocks : list Block) (d : DataAccess) : res DataAccess :=
  match blocks with
  | [] => Ok d
  | block :: blocks => d ← Cache block d; cache_blocks blocks d
  end.

(** An error of [getLastBlock] is dropped. *)
Definition PrepareCache (c : Chain) : res Chain :=
  match getLastBlock (dataAccess c) with
  | Err _ => Ok c
  | Panic => Panic
  | OutOfFuel => OutOfFuel
  | Ok lastBlock =>
      header ← header_of lastBlock;
      if (bh_Height header =? 0) && Cached (dataAccess c) 0 then Ok c
      else
        d ← (if 0 <? bh_Height header then
               minCacheHeight ← Ints.Max [0; bh_Height header - maxBlockCache c];
               blocks ← GetBlocksBetweenHeight (dataAccess c) (u32 minCacheHeight) (u32 (bh_Height header - 1));
               cache_blocks blocks (dataAccess c)
             else Ok (dataAccess c));
        d ← Cache lastBlock d;
        Ok (set_dataAccess d c)
  end.
End dataaccess.
#[global] Arguments DataAccess : clear implicits.
#[global] Arguments Chain : clear implicits.
