(* ===== verification/ChainSpec.v ===== *)
(** * ChainSpec: the chain is a stack of blocks

    The block cache represents the last blocks of the chain ([cache_rep]), the
    database all of them ([store_rep]).  [AddBlock] and [RemoveBlock] push and
    pop the abstract list of blocks, and the reads of DataAccess.v look it up. *)

From S2P Require Import Prelude Collection Codec CodecSpec Message Crypto RMT BlockTypes Block DB DiffDB Event DataAccess.

Definition block_ID (b : Block) : bytes := match b_Header b with Some h => bh_ID h | None => [] end.

Lemma header_of_Some b h : b_Header b = Some h → header_of b = Ok h ∧ block_ID b = bh_ID h ∧ block_height b = bh_Height h.
Proof. unfold header_of, block_ID, block_height. by intros ->. Qed.

(** ** The block cache *)

(** The cache holds the blocks [bs], the oldest first. *)
Record cache_rep (c : blockCache) (bs : list Block) : Prop := {
  cr_size : bc_size c = len bs;
  cr_max : len bs ≤ bc_maxSize c < 2 ^ 32;
  cr_heights : ∀ (i : nat) b, bs !! i = Some b →
    is_Some (b_Header b) ∧ block_height b = bc_currentHeight c - len bs + 1 + Z.of_nat i;
  cr_bounds : bs ≠ [] → len bs - 1 ≤ bc_currentHeight c < 2 ^ 32;
  cr_index : ∀ h id, heightIndex c !! h = Some id ↔ ∃ b, b ∈ bs ∧ block_height b = h ∧ block_ID b = id;
  cr_blocks : ∀ id b, cachedBlocks c !! id = Some b ↔ b ∈ bs ∧ block_ID b = id;
}.

Lemma newBlockCache_rep maxSize : 0 ≤ maxSize < 2 ^ 32 → cache_rep (newBlockCache maxSize) [].
Proof.
  intros Hm. split; cbn; [done|change (len []) with 0; lia|done|done| |].
  - intros h id. rewrite lookup_empty. split; [done|]. intros (b & Hb & _). by apply not_elem_of_nil in Hb.
  - intros id b. rewrite lookup_empty. split; [done|]. intros [Hb _]. by apply not_elem_of_nil in Hb.
Qed.

Section cache.
Context (c : blockCache) (bs : list Block) (Hrep : cache_rep c bs).

Lemma cache_height_inj b b' : b ∈ bs → b' ∈ bs → block_height b = block_height b' → b = b'.
Proof using Hrep.
  intros Hb Hb' E. apply list_elem_of_lookup in Hb as [i Hi]. apply list_elem_of_lookup in Hb' as [j Hj].
  destruct (cr_heights _ _ Hrep i b Hi) as [_ Ei]. destruct (cr_heights _ _ Hrep j b' Hj) as [_ Ej].
  assert (i = j) as -> by lia. congruence.
Qed.

Lemma cache_ID_inj b b' : b ∈ bs → b' ∈ bs → block_ID b = block_ID b' → b = b'.
Proof using Hrep.
  intros Hb Hb' E. pose proof (proj2 (cr_blocks _ _ Hrep _ b) (conj Hb eq_refl)) as E1.
  pose proof (proj2 (cr_blocks _ _ Hrep _ b') (conj Hb' eq_refl)) as E2. rewrite E in E1. congruence.
Qed.

Lemma getByHeight_rep h b : bc_getByHeight h c = Some b ↔ b ∈ bs ∧ block_height b = h.
Proof using Hrep.
  unfold bc_getByHeight. split.
  - intros (id & Hid & Hb)%bind_Some. apply (cr_index _ _ Hrep) in Hid as (b' & Hb' & <- & <-).
    apply (cr_blocks _ _ Hrep) in Hb as [Hb E]. assert (b = b') as -> by by apply cache_ID_inj. done.
  - intros [Hb <-]. apply bind_Some. exists (block_ID b). split.
    + apply (cr_index _ _ Hrep). by exists b.
    + by apply (cr_blocks _ _ Hrep).
Qed.

Lemma last_rep : bc_last c = last bs.
Proof using Hrep.
  unfold bc_last. destruct (last bs) as [b|] eqn:El.
  - apply getByHeight_rep. apply last_Some in El as [l El]. split; [rewrite El; apply elem_of_app; right; left|].
    destruct (cr_heights _ _ Hrep (length l) b) as [_ ->]; [by rewrite El, lookup_app_r, Nat.sub_diag by lia|].
    rewrite El. unfold len. rewrite length_app. cbn. lia.
  - apply last_None in El. apply eq_None_not_Some. intros [b Hb].
    apply getByHeight_rep in Hb as [Hb _]. rewrite El in Hb. by apply not_elem_of_nil in Hb.
Qed.

(** Removing one block of the list from both maps. *)
Lemma cache_remove (l : list Block) b h size maxSize cur :
  bs ≡ₚ b :: l → NoDup bs → block_height b = h →
  let c' := mkBlockCache (delete (block_ID b) (cachedBlocks c)) (delete h (heightIndex c)) size maxSize cur in
  (∀ h id, heightIndex c' !! h = Some id ↔ ∃ b, b ∈ l ∧ block_height b = h ∧ block_ID b = id) ∧
  (∀ id b, cachedBlocks c' !! id = Some b ↔ b ∈ l ∧ block_ID b = id).
Proof using Hrep.
  intros Hp Hnd Hh c'. assert (b ∉ l) as Hni by (rewrite Hp in Hnd; by apply NoDup_cons in Hnd as [? _]).
  assert (∀ x, x ∈ l → x ∈ bs) as Hl by (intros x Hx; rewrite Hp; by right).
  assert (b ∈ bs) as Hb by (rewrite Hp; left). split; cbn.
  - intros h' id. rewrite lookup_delete_Some, (cr_index _ _ Hrep). split.
    + intros (Hne & b' & Hb' & Eh & Eid). exists b'. split; [|done]. rewrite Hp in Hb'.
      apply elem_of_cons in Hb' as [->|]; [congruence|done].
    + intros (b' & Hb' & Eh & Eid). split; [|exists b'; auto]. intros E. apply Hni.
      assert (b = b') as ->; [|done]. apply cache_height_inj; [done|auto|congruence].
  - intros id b'. rewrite lookup_delete_Some, (cr_blocks _ _ Hrep). split.
    + intros (Hne & Hb' & Eid). split; [|done]. rewrite Hp in Hb'. apply elem_of_cons in Hb' as [->|]; [congruence|done].
    + intros (Hb' & Eid). split; [|auto]. intros E. apply Hni.
      assert (b = b') as ->; [|done]. apply cache_ID_inj; [done|auto|congruence].
Qed.

Lemma cache_NoDup : NoDup bs.
Proof using Hrep.
  apply NoDup_alt. intros i j b Hi Hj. pose proof (cr_heights _ _ Hrep i b Hi) as [_ Ei].
  pose proof (cr_heights _ _ Hrep j b Hj) as [_ Ej]. lia.
Qed.
End cache.

(** [pop] removes the newest block. *)
Lemma bc_pop_rep c bs b : cache_rep c (bs ++ [b]) → ∃ c', bc_pop c = (Some b, c') ∧ cache_rep c' bs.
Proof.
  intros Hrep. pose proof (cache_NoDup _ _ Hrep) as Hnd.
  assert (len (bs ++ [b]) = len bs + 1) as Hlen by (rewrite len_app; done).
  pose proof (len_nonneg bs). destruct (cr_bounds _ _ Hrep) as [Hb1 Hb2]; [by destruct bs|].
  destruct (cr_heights _ _ Hrep (length bs) b) as [_ Hbh]; [by rewrite lookup_app_r, Nat.sub_diag by lia|].
  assert (block_height b = bc_currentHeight c) as Hcur by (unfold len in *; lia).
  assert (b ∈ bs ++ [b]) as Hin by (apply elem_of_app; right; left).
  unfold bc_pop. rewrite (cr_size _ _ Hrep). destruct (Z.eqb_spec (len (bs ++ [b])) 0); [lia|].
  rewrite (proj2 (cr_index _ _ Hrep (bc_currentHeight c) (block_ID b))) by (exists b; done). cbn [default from_option id].
  rewrite (proj2 (cr_blocks _ _ Hrep (block_ID b) b)) by done. eexists. split; [done|].
  destruct (cache_remove c (bs ++ [b]) Hrep bs b (bc_currentHeight c) (len bs) (bc_maxSize c)
    (u32 (bc_currentHeight c - 1))) as [Hi Hbl]; [by rewrite Permutation_app_comm|done|done|].
  pose proof (cr_max _ _ Hrep) as Hmax. split; cbn [bc_size bc_maxSize bc_currentHeight heightIndex cachedBlocks] in *.
  - lia.
  - lia.
  - intros i b' Hb'. pose proof (lookup_lt_Some _ _ _ Hb').
    destruct (cr_heights _ _ Hrep i b') as [? ->]; [by rewrite lookup_app_l|]. split; [done|].
    unfold u32. rewrite Z.mod_small; unfold len in *; lia.
  - intros Hne. destruct bs; [done|]. rewrite len_cons in *. pose proof (len_nonneg bs). unfold u32.
    rewrite Z.mod_small; lia.
  - exact Hi.
  - exact Hbl.
Qed.

(** [push] appends, and drops the oldest block of a full cache. *)
Definition pushed (maxSize : Z) (bs : list Block) (b : Block) : list Block :=
  (if maxSize <=? len bs then tail bs else bs) ++ [b].

Lemma bc_evict_rep c b bs :
  cache_rep c (b :: bs) → bc_maxSize c = len (b :: bs) →
  ∃ c', bc_evict c = Ok c' ∧ cache_rep c' bs ∧ bc_currentHeight c' = bc_currentHeight c ∧ bc_maxSize c' = bc_maxSize c.
Proof.
  intros Hrep Hm. destruct (cr_bounds _ _ Hrep) as [Hb1 Hb2]; [done|]. rewrite len_cons in *.
  pose proof (len_nonneg bs). destruct (cr_heights _ _ Hrep O b) as [_ Hbh]; [done|]. rewrite len_cons in Hbh.
  pose proof (cr_max _ _ Hrep) as Hmax. rewrite len_cons in Hmax. unfold bc_evict.
  replace (u32 (u32 (bc_currentHeight c - u32 (bc_maxSize c)) + 1)) with (block_height b).
  2: { unfold u32. rewrite (Z.mod_small (bc_maxSize c)) by lia. rewrite Zplus_mod_idemp_l, Z.mod_small; lia. }
  rewrite (proj2 (cr_index _ _ Hrep (block_height b) (block_ID b))) by (exists b; split; [left|done]).
  eexists. split; [done|].
  destruct (cache_remove c (b :: bs) Hrep bs b (block_height b) (bc_size c - 1) (bc_maxSize c) (bc_currentHeight c))
    as [Hi Hbl]; [done|by eapply cache_NoDup|done|].
  split; [|done]. pose proof (cr_size _ _ Hrep) as Hs. rewrite len_cons in Hs.
  split; cbn [bc_size bc_maxSize bc_currentHeight heightIndex cachedBlocks] in *.
  - lia.
  - lia.
  - intros i b' Hb'. destruct (cr_heights _ _ Hrep (S i) b') as [? ->]; [done|]. split; [done|]. rewrite len_cons. lia.
  - lia.
  - exact Hi.
  - exact Hbl.
Qed.

Lemma bc_push_rep c bs b :
  cache_rep c bs → is_Some (b_Header b) → u32_ok (block_height b) → 1 ≤ bc_maxSize c →
  (bs ≠ [] → block_height b = bc_currentHeight c + 1) → block_ID b ∉ block_ID <$> bs →
  ∃ c', bc_push b c = Ok c' ∧ cache_rep c' (pushed (bc_maxSize c) bs b) ∧ bc_maxSize c' = bc_maxSize c ∧
    bc_currentHeight c' = block_height b.
Proof.
  intros Hrep [hd Hhd] Hu Hmax Hnext Hfresh. destruct (header_of_Some b hd Hhd) as (Ehd & EID & Eh).
  unfold bc_push. rewrite Ehd. cbn [mbind res_bind]. rewrite <-Eh, <-EID, (cr_size _ _ Hrep). pose proof (len_nonneg bs).
  unfold u32_ok in Hu.
  assert (negb (len bs =? 0) && negb (block_height b =? u32 (bc_currentHeight c + 1)) = false) as ->.
  { destruct bs as [|b0 l]; [done|]. rewrite Hnext by done. rewrite Hnext in Hu by done.
    unfold u32. rewrite Z.mod_small by lia. by rewrite Z.eqb_refl, andb_false_r. }
  assert (∃ c1 bs1, (if bc_maxSize c <=? len bs then bc_evict c else Ok c) = Ok c1 ∧ cache_rep c1 bs1 ∧
    bc_currentHeight c1 = bc_currentHeight c ∧ bc_maxSize c1 = bc_maxSize c ∧ len bs1 + 1 ≤ bc_maxSize c ∧
    pushed (bc_maxSize c) bs b = bs1 ++ [b] ∧ bs1 ⊆ bs ∧ (bs1 ≠ [] → bs ≠ [])) as (c1 & bs1 & -> & Hrep1 & Hc1 & Hm1 & Hl1 & -> & Hsub & Hne).
  { unfold pushed. pose proof (cr_max _ _ Hrep). destruct (Z.leb_spec (bc_maxSize c) (len bs)).
    - destruct bs as [|b0 l]; [change (len []) with 0 in *; lia|].
      destruct (bc_evict_rep c b0 l Hrep) as (c1 & E & Hr & Hc & Hm); [lia|]. rewrite len_cons in *.
      exists c1, l. split_and!; try done; [lia|set_solver].
    - exists c, bs. split_and!; try done. lia. }
  cbn [mbind res_bind]. eexists. split; [done|]. rewrite Hm1. split; [|done]. pose proof (cr_size _ _ Hrep1) as Hs1.
  assert (block_ID b ∉ block_ID <$> bs1) as Hf1.
  { intros (x & Ex & Hx)%list_elem_of_fmap. apply Hfresh. apply list_elem_of_fmap. exists x. auto. }
  pose proof (cr_max _ _ Hrep). pose proof (len_nonneg bs1).
  assert (∀ x, x ∈ bs1 → block_height x < block_height b) as Hlt.
  { intros x Hx. apply list_elem_of_lookup in Hx as [i Hi]. destruct (cr_heights _ _ Hrep1 i x Hi) as [_ ->].
    apply lookup_lt_Some in Hi. rewrite Hnext, Hc1 by (apply Hne; intros ->; cbn in Hi; lia). unfold len. lia. }
  split; cbn [bc_size bc_maxSize bc_currentHeight heightIndex cachedBlocks].
  - rewrite len_app. change (len [b]) with 1. lia.
  - rewrite len_app. change (len [b]) with 1. lia.
  - intros i x Hx. rewrite len_app. change (len [b]) with 1. apply lookup_app_Some in Hx as [Hx|[Hi Hx]].
    + destruct (cr_heights _ _ Hrep1 i x Hx) as [? ->]. split; [done|]. rewrite Hc1.
      rewrite Hnext by (apply Hne; by intros ->). lia.
    + apply list_lookup_singleton_Some in Hx as [Hi2 <-]. split; [by exists hd|]. unfold len. lia.
  - intros _. rewrite len_app. change (len [b]) with 1. split; [|lia].
    destruct bs1 as [|x l] eqn:E1; [change (len []) with 0; lia|].
    destruct (cr_bounds _ _ Hrep1) as [? _]; [done|]. rewrite Hnext by (by apply Hne). lia.
  - intros h id. destruct (decide (block_height b = h)) as [<-|Hne'].
    + rewrite lookup_insert_eq. split.
      * intros [= <-]. exists b. split_and!; [apply elem_of_app; right; left|done|done].
      * intros (x & [Hx|Hx%list_elem_of_singleton]%elem_of_app & Eh' & <-); [|by subst x]. specialize (Hlt x Hx). lia.
    + rewrite lookup_insert_ne by done. rewrite (cr_index _ _ Hrep1). split.
      * intros (x & Hx & ? & ?). exists x. rewrite elem_of_app. auto.
      * intros (x & [Hx|Hx%list_elem_of_singleton]%elem_of_app & ? & ?); [by exists x|by subst x].
  - intros id x. destruct (decide (block_ID b = id)) as [<-|Hne'].
    + rewrite lookup_insert_eq. split.
      * intros [= <-]. split; [apply elem_of_app; right; left|done].
      * intros [[Hx|Hx%list_elem_of_singleton]%elem_of_app E]; [|by subst x]. exfalso. apply Hf1.
        apply list_elem_of_fmap. exists x. done.
    + rewrite lookup_insert_ne by done. rewrite (cr_blocks _ _ Hrep1), elem_of_app, list_elem_of_singleton. naive_solver.
Qed.

(** ** The block store *)

Lemma db_key_cons p k : db_key p k = u8 p :: k.
Proof. unfold db_key, DBPrefixToBytes, Bytes.Join. cbn. by rewrite app_nil_r. Qed.

(** The keys under which blocks are stored. *)
Definition block_key (k : bytes) : Prop := ∃ p x, k = p :: x ∧ p ∈ [3; 4; 5; 6; 8].

Section store.
Context {S : Type} `{PebbleLaws S} `{NormLaws, HashLaws}.

(** What is stored for a block. *)
Definition block_entries (b : Block) : list (bytes * bytes) :=
  match b_Header b with
  | None => []
  | Some h =>
      (3 :: bh_ID h, BlockHeader_Encode h) :: (4 :: Bytes.FromUint32 (bh_Height h), bh_ID h)
      :: ((λ t, (6 :: tx_ID t, Transaction_Encode t)) <$> b_Transactions b)
      ++ (if 0 <? len (b_Transactions b) then [(5 :: bh_ID h, Bytes.Join (tx_ID <$> b_Transactions b))] else [])
      ++ (if 0 <? len (b_Assets b) then [(8 :: bh_ID h, encodableListToBytes (b_Assets b))] else [])
  end.

Lemma len_pos {A} (l : list A) : l ≠ [] → (0 <? len l) = true.
Proof. destruct l as [|x l]; [done|]. intros _. rewrite len_cons. pose proof (len_nonneg l). apply Z.ltb_lt. lia. Qed.

Lemma block_entries_key b k v : (k, v) ∈ block_entries b → block_key k.
Proof.
  unfold block_entries. destruct (b_Header b) as [h|]; [|by intros ?%not_elem_of_nil].
  assert (∀ p x, p ∈ [3; 4; 5; 6; 8] → block_key (p :: x)) as Hk by (intros p x Hp; by exists p, x).
  rewrite !elem_of_cons, !elem_of_app, list_elem_of_fmap.
  intros [[= -> ->]|[[= -> ->]|[(t & [= -> ->] & _)|[Hi|Hi]]]]; try (apply Hk; set_solver).
  all: case_match; [|by apply not_elem_of_nil in Hi]; apply list_elem_of_singleton in Hi as [= -> ->]; apply Hk; set_solver.
Qed.

(** A block whose IDs are the hashes of the encodings, as [NewBlock] and
    [Block.Init] make them. *)
Record sealed (b : Block) : Prop := {
  sealed_header : ∃ h, b_Header b = Some (BlockHeader_Init h) ∧ BlockHeader_ok h ∧ len (BlockHeader_Encode h) < 2 ^ 63;
  sealed_txs : Forall (λ t, ∃ t0, t = Transaction_Init t0 ∧ Transaction_ok t0 ∧ len (Transaction_Encode t0) < 2 ^ 63)
    (b_Transactions b);
  sealed_assets : Forall (λ a, BlockAsset_ok a ∧ len (BlockAsset_Encode a) < 2 ^ 63) (b_Assets b) ∧
    len (encodableListToBytes (b_Assets b)) < 2 ^ 63;
}.

Definition stored (db : S) (b : Block) : Prop :=
  (∀ k v, (k, v) ∈ block_entries b → p_get db k = Some v) ∧
  (b_Transactions b = [] → p_get db (5 :: block_ID b) = None) ∧
  (b_Assets b = [] → p_get db (8 :: block_ID b) = None).

Lemma getTransaction_stored (d : DataAccess S) t0 :
  Transaction_ok t0 → len (Transaction_Encode t0) < 2 ^ 63 →
  p_get (da_database d) (6 :: tx_ID (Transaction_Init t0)) = Some (Transaction_Encode t0) →
  getTransaction d (tx_ID (Transaction_Init t0)) = Ok (Transaction_Init t0).
Proof.
  intros Ht Hl Hg. unfold getTransaction. rewrite db_key_cons. change (u8 dbPrefixTxIDToTx) with 6. unfold Get. rewrite Hg.
  cbn [found mbind res_bind]. rewrite NewTransaction_Encode by done. cbn [mbind res_bind].
  assert (Message_Decode (Transaction_Encode t0) = Ok t0) as -> by exact (Message_Decode_Encode t0 Ht Hl).
  done.
Qed.

(** Slicing the concatenation of the IDs. *)
Lemma slice_concat_ids (ids : list bytes) (i : nat) id :
  Forall (λ x, len x = idSize) ids → ids !! i = Some id →
  slice (concat ids) (Z.of_nat i * idSize) (Z.of_nat i * idSize + idSize) = Ok id.
Proof.
  intros Hl Hi. assert (len id = idSize) as Hid by (rewrite Forall_forall in Hl; apply Hl; by apply list_elem_of_lookup_2 in Hi).
  pose proof (lookup_lt_Some _ _ _ Hi) as Hlt.
  assert (∀ l : list bytes, Forall (λ x, len x = idSize) l → len (concat l) = len l * idSize) as Hcl.
  { clear. induction 1 as [|x l Hx _ IH]; [done|]. cbn [concat]. rewrite len_app, IH, Hx, len_cons. lia. }
  rewrite <-(take_drop_middle ids i id Hi), concat_app. cbn [concat].
  assert (Z.of_nat i * idSize = len (concat (take i ids))) as ->.
  { rewrite Hcl by by apply Forall_take. unfold len. rewrite length_take. f_equal. lia. }
  rewrite <-Hid. apply slice_app_mid.
Qed.

Lemma map_res_seqZ {A} (f : Z → res A) (l : list A) :
  (∀ (i : nat) x, l !! i = Some x → f (Z.of_nat i) = Ok x) → map_res f (seqZ 0 (len l)) = Ok l.
Proof.
  intros Hf. apply map_res_Ok. apply Forall2_same_length_lookup. split.
  - rewrite length_seqZ. unfold len. lia.
  - intros i x y Hx Hy. apply lookup_seqZ in Hx as [-> _]. rewrite Z.add_0_l. by apply Hf.
Qed.

Lemma getTransactions_stored (d : DataAccess S) b :
  sealed b → stored (da_database d) b → getTransactions d (block_ID b) = Ok (b_Transactions b).
Proof.
  intros [(h & Hh & _) Htx _] (Hst & Hno & _). unfold getTransactions. rewrite db_key_cons.
  change (u8 dbPrefixBlockIDToTxs) with 5. unfold Get.
  destruct (b_Transactions b) as [|t0 l] eqn:El; [by rewrite Hno|]. rewrite <-El in *.
  assert (block_ID b = bh_ID (BlockHeader_Init h)) as EID by (unfold block_ID; by rewrite Hh).
  rewrite (Hst (5 :: block_ID b) (Bytes.Join (tx_ID <$> b_Transactions b))).
  2: { unfold block_entries. rewrite Hh, <-EID. do 2 right. apply elem_of_app. right. apply elem_of_app. left.
       rewrite len_pos by (by rewrite El). left. }
  assert (Forall (λ x, len x = idSize) (tx_ID <$> b_Transactions b)) as Hids.
  { apply Forall_fmap. eapply Forall_impl; [exact Htx|]. intros t (t' & -> & _). apply Hash_len. }
  unfold Bytes.Join. replace (len (concat (tx_ID <$> b_Transactions b)) / idSize) with (len (b_Transactions b)).
  2: { symmetry. replace (len (concat _)) with (len (b_Transactions b) * idSize); [by apply Z.div_mul|].
       clear -Hids. induction (b_Transactions b) as [|t k IH]; [done|]. rewrite fmap_cons in *.
       apply Forall_cons in Hids as [Ht Hids]. cbn [concat]. rewrite len_app, <-IH, len_cons, Ht by done. lia. }
  apply map_res_seqZ. intros i t Hi. rewrite (slice_concat_ids _ i (tx_ID t)); [|done|by rewrite list_lookup_fmap, Hi].
  cbn [mbind res_bind]. rewrite Forall_forall in Htx. apply list_elem_of_lookup_2 in Hi.
  destruct (Htx t Hi) as (t' & -> & Hok & Hl). apply getTransaction_stored; [done..|].
  apply Hst. unfold block_entries. rewrite Hh. do 2 right. apply elem_of_app. left.
  apply list_elem_of_fmap. exists (Transaction_Init t'). done.
Qed.

Lemma bytesToAssets_Encode (l : list BlockAsset) :
  Forall (λ a, BlockAsset_ok a ∧ len (BlockAsset_Encode a) < 2 ^ 63) l → len (encodableListToBytes l) < 2 ^ 63 →
  l ≠ [] → bytesToAssets (encodableListToBytes l) = Ok l.
Proof.
  intros Hl Hlen Hne. unfold bytesToAssets.
  assert (Message_Decode (encodableListToBytes l) = Ok (mkbytesList (Encode <$> l))) as Hd.
  { exact (Message_Decode_Encode (mkbytesList (Encode <$> l)) I Hlen). }
  destruct (Z.eqb_spec (len (encodableListToBytes l)) 0) as [E|E].
  { exfalso. destruct (encodableListToBytes l) as [|x k]; [|rewrite len_cons in E; pose proof (len_nonneg k); lia].
    assert (Message_Decode (A := bytesList) [] = Ok (mkbytesList [])) as Hnil.
    { exact (Message_Decode_Encode (mkbytesList []) I Hlen). }
    rewrite Hnil in Hd. injection Hd as Hd. by destruct l. }
  rewrite Hd.
  cbn [mbind res_bind bytesList_items]. rewrite (map_res_fmap _ Encode id); [by rewrite list_fmap_id|].
  intros a Ha. rewrite Forall_forall in Hl. destruct (Hl a Ha). by apply Message_Decode_Encode.
Qed.

Lemma getBlock_stored (d : DataAccess S) b :
  sealed b → stored (da_database d) b → getBlock d (block_ID b) = Ok b.
Proof.
  intros Hs Hst. unfold getBlock. pose proof (getTransactions_stored d b Hs Hst) as Htx.
  destruct Hs as [(h & Hh & Hok & Hl) _ [Ha Hal]]. destruct Hst as (Hst & _ & Hno).
  assert (block_ID b = bh_ID (BlockHeader_Init h)) as EID by (unfold block_ID; by rewrite Hh).
  assert (getBlockHeader d (block_ID b) = Ok (BlockHeader_Init h)) as ->.
  { unfold getBlockHeader. rewrite db_key_cons. change (u8 dbPrefixBlockIDToBlockHeader) with 3. unfold Get.
    rewrite (Hst (3 :: block_ID b) (BlockHeader_Encode h)).
    2: { unfold block_entries. rewrite Hh, EID. left. }
    cbn [found mbind res_bind].
    assert (Message_Decode (BlockHeader_Encode h) = Ok h) as -> by exact (Message_Decode_Encode h Hok Hl). done. }
  cbn [mbind res_bind]. rewrite Htx. cbn [mbind res_bind].
  assert (getBlockAssets d (block_ID b) = Ok (b_Assets b)) as ->.
  { unfold getBlockAssets. rewrite db_key_cons. change (u8 dbPrefixBlockIDToAssets) with 8. unfold Get.
    destruct (decide (b_Assets b = [])) as [E|E]; [by rewrite (Hno E), E|].
    rewrite (Hst (8 :: block_ID b) (encodableListToBytes (b_Assets b))); [by apply bytesToAssets_Encode|].
    unfold block_entries. rewrite Hh, EID, (len_pos (b_Assets b)) by done. do 2 right. do 2 (apply elem_of_app; right). left. }
  cbn [mbind res_bind]. destruct b; cbn in *. by rewrite Hh.
Qed.

(** ** The batches of [saveBlock] and [removeBlock] *)

Lemma foldl_Batch {A} (f : A → batch_op) (l : list A) batch :
  foldl (λ batch x, batch ++ [f x]) batch l = batch ++ (f <$> l).
Proof.
  revert batch. induction l as [|x l IH]; intros batch; cbn; [by rewrite app_nil_r|]. by rewrite IH, <-app_assoc.
Qed.

Lemma not_block_key p x : p ∉ [3; 4; 5; 6; 8] → ¬ block_key (p :: x).
Proof. intros Hp (q & y & [= <- <-] & Hq). done. Qed.

Lemma prune_events_ops (d : DataAccess S) height fin batch :
  ∃ ops, prune_events d height fin batch = Ok (batch ++ ops) ∧ Forall (λ op, ∃ x, op = BDel (9 :: x)) ops.
Proof.
  assert (∃ ops, Ok batch = Ok (batch ++ ops) ∧ Forall (λ op, ∃ x, op = BDel (9 :: x)) ops) as Hnone.
  { exists []. split; [by rewrite app_nil_r|constructor]. }
  unfold prune_events. case_match; [|done]. rewrite Ints.Max_2. cbn [mbind res_bind]. rewrite Ints.Min_2.
  cbn [mbind res_bind]. case_match; [|done]. unfold Batch_Del.
  rewrite (foldl_Batch (λ kv : bytes * bytes, BDel kv.1)). eexists. split; [done|]. apply Forall_fmap.
  apply Forall_forall. intros [k v] Hk. cbn. rewrite !db_key_cons in Hk.
  apply elem_IterateRange_asc in Hk as (_ & Hlo & Hhi).
  destruct (in_range_prefix [9] (Bytes.FromUint32 0) (Bytes.FromUint32 (u32 (fin `min` (0 `max` (height - da_keepEventsForHeights d)))))
    k (conj Hlo Hhi)) as [x ->]. by exists x.
Qed.

Definition tx_sets (h : BlockHeader) (txs : list Transaction) : Batch :=
  if 0 <? len txs
  then ((λ t, BSet (6 :: tx_ID t) (Transaction_Encode t)) <$> txs) ++ [BSet (5 :: bh_ID h) (Bytes.Join (tx_ID <$> txs))]
  else [].

Definition save_ops (h : BlockHeader) (b : Block) (events : list Event) (fin : Z) (pruned : Batch) (rt : bool) : Batch :=
  [BSet (3 :: bh_ID h) (BlockHeader_Encode h); BSet (4 :: Bytes.FromUint32 (bh_Height h)) (bh_ID h)]
  ++ tx_sets h (b_Transactions b)
  ++ (if 0 <? len events then [BSet (9 :: Bytes.FromUint32 (bh_Height h)) (encodableListToBytes events)] else [])
  ++ (if 0 <? len (b_Assets b) then [BSet (8 :: bh_ID h) (encodableListToBytes (b_Assets b))] else [])
  ++ [BSet [27] (Bytes.FromUint32 fin)] ++ pruned
  ++ (if rt then [BDel (7 :: Bytes.FromUint32 (bh_Height h))] else []).

Lemma saveBlock_ops (d : DataAccess S) batch b h events fin rt :
  b_Header b = Some h →
  ∃ pruned, saveBlock d batch b events fin rt = Ok (batch ++ save_ops h b events fin pruned rt) ∧
    Forall (λ op, ∃ x, op = BDel (9 :: x)) pruned.
Proof.
  intros Hh. unfold saveBlock. rewrite (proj1 (header_of_Some b h Hh)). cbn [mbind res_bind]. rewrite !db_key_cons.
  match goal with |- context [prune_events d ?x ?f ?bt] => destruct (prune_events_ops d x f bt) as (pruned & -> & Hp) end.
  exists pruned. split; [|done]. cbn [mbind res_bind]. unfold save_ops, tx_sets, Batch_Set, Batch_Del.
  rewrite (foldl_Batch (λ t, BSet (db_key dbPrefixTxIDToTx (tx_ID t)) (Transaction_Encode t))).
  rewrite (list_fmap_ext (λ t, BSet (db_key dbPrefixTxIDToTx (tx_ID t)) (Transaction_Encode t))
    (λ t, BSet (6 :: tx_ID t) (Transaction_Encode t))) by (intros i t _; by rewrite db_key_cons).
  f_equal. repeat case_match; rewrite <-?app_assoc, ?app_nil_r; reflexivity.
Qed.

(** Among the block keys, [saveBlock] sets the entries of the block. *)
Lemma save_ops_entries h b events fin pruned rt op :
  b_Header b = Some h → Forall (λ op, ∃ x, op = BDel (9 :: x)) pruned → block_key (op_key op) →
  op ∈ save_ops h b events fin pruned rt ↔ ∃ k v, op = BSet k v ∧ (k, v) ∈ block_entries b.
Proof.
  intros Hh Hp Hk.
  assert (save_ops h b events fin pruned rt ≡ₚ ((λ e, BSet e.1 e.2) <$> block_entries b) ++
    ((if 0 <? len events then [BSet (9 :: Bytes.FromUint32 (bh_Height h)) (encodableListToBytes events)] else [])
     ++ [BSet [27] (Bytes.FromUint32 fin)] ++ pruned
     ++ (if rt then [BDel (7 :: Bytes.FromUint32 (bh_Height h))] else []))) as ->.
  { unfold save_ops, block_entries, tx_sets. rewrite Hh, !fmap_cons, !fmap_app, <-list_fmap_compose. cbn [app fst snd].
    do 2 constructor. destruct (Z.ltb_spec 0 (len (b_Transactions b))) as [Hl|Hl].
    2: { destruct (b_Transactions b) as [|t l]; [|rewrite len_cons in Hl; pose proof (len_nonneg l); lia].
         cbn [app fmap list_fmap]. repeat case_match; cbn [app fmap list_fmap fst snd]; solve_Permutation. }
    rewrite <-!app_assoc. apply Permutation_app_head. cbn [app fmap list_fmap fst snd]. constructor.
    repeat case_match; cbn [app fmap list_fmap fst snd]; solve_Permutation. }
  rewrite elem_of_app, list_elem_of_fmap. split.
  - intros [([k v] & -> & Hin)|Hin]; [by exists k, v|]. exfalso. revert Hk.
    rewrite !elem_of_app in Hin. destruct Hin as [Hin|[Hin|[Hin|Hin]]].
    + case_match; [|by apply not_elem_of_nil in Hin]. apply list_elem_of_singleton in Hin as ->. apply not_block_key. set_solver.
    + apply list_elem_of_singleton in Hin as ->. apply not_block_key. set_solver.
    + rewrite Forall_forall in Hp. destruct (Hp op Hin) as [x ->]. apply not_block_key. set_solver.
    + case_match; [|by apply not_elem_of_nil in Hin]. apply list_elem_of_singleton in Hin as ->. apply not_block_key. set_solver.
  - intros (k & v & -> & Hin). left. by exists (k, v).
Qed.

Definition remove_ops (h : BlockHeader) (b : Block) (saveTemp : bool) : Batch :=
  ((λ e, BDel e.1) <$> block_entries b) ++ [BDel (9 :: Bytes.FromUint32 (bh_Height h))]
  ++ (if saveTemp then [BSet (7 :: Bytes.FromUint32 (bh_Height h)) (Block_Encode b)] else []).

(** [removeBlock] deletes the entries of the block. *)
Lemma removeBlock_ops batch b h saveTemp :
  b_Header b = Some h →
  ∃ ops, removeBlock batch b saveTemp = Ok (batch ++ ops) ∧ ops ≡ₚ remove_ops h b saveTemp ∧
    (saveTemp = true → last ops = Some (BSet (7 :: Bytes.FromUint32 (bh_Height h)) (Block_Encode b))).
Proof.
  intros Hh. unfold removeBlock. rewrite (proj1 (header_of_Some b h Hh)). cbn [mbind res_bind]. rewrite !db_key_cons.
  unfold Batch_Set, Batch_Del. rewrite (foldl_Batch (λ t, BDel (db_key dbPrefixTxIDToTx (tx_ID t)))).
  rewrite (list_fmap_ext (λ t, BDel (db_key dbPrefixTxIDToTx (tx_ID t))) (λ t, BDel (6 :: tx_ID t)))
    by (intros i t _; by rewrite db_key_cons).
  eexists ([BDel (3 :: bh_ID h); BDel (4 :: Bytes.FromUint32 (bh_Height h))]
    ++ (if 0 <? len (b_Transactions b) then ((λ t, BDel (6 :: tx_ID t)) <$> b_Transactions b) ++ [BDel (5 :: bh_ID h)] else [])
    ++ (if 0 <? len (b_Assets b) then [BDel (8 :: bh_ID h)] else [])
    ++ [BDel (9 :: Bytes.FromUint32 (bh_Height h))]
    ++ (if saveTemp then [BSet (7 :: Bytes.FromUint32 (bh_Height h)) (Block_Encode b)] else [])).
  split_and!.
  - f_equal. repeat case_match; rewrite <-?app_assoc, ?app_nil_r; reflexivity.
  - unfold remove_ops, block_entries. rewrite Hh, !fmap_cons, !fmap_app, <-list_fmap_compose. cbn [app fst].
    do 2 constructor. destruct (Z.ltb_spec 0 (len (b_Transactions b))) as [Hl|Hl].
    + rewrite <-!app_assoc. apply Permutation_app_head. repeat case_match; cbn [app fmap list_fmap fst]; solve_Permutation.
    + destruct (b_Transactions b) as [|t l]; [|rewrite len_cons in Hl; pose proof (len_nonneg l); lia].
      repeat case_match; cbn [app fmap list_fmap fst]; solve_Permutation.
  - intros ->. rewrite !app_assoc. apply last_snoc.
Qed.

Lemma remove_ops_entries h b saveTemp op :
  block_key (op_key op) → op ∈ remove_ops h b saveTemp ↔ ∃ k v, op = BDel k ∧ (k, v) ∈ block_entries b.
Proof.
  intros Hk. unfold remove_ops. rewrite !elem_of_app, list_elem_of_fmap, list_elem_of_singleton. split.
  - intros [([k v] & -> & Hin)|[->|Hin]]; [by exists k, v|..]; exfalso; revert Hk.
    + apply not_block_key. set_solver.
    + case_match; [|by apply not_elem_of_nil in Hin]. apply list_elem_of_singleton in Hin as ->. apply not_block_key. set_solver.
  - intros (k & v & -> & Hin). left. by exists (k, v).
Qed.

(** ** The database of a chain *)

Definition chain_txs (bs : list Block) : list bytes := bs ≫= λ b, tx_ID <$> b_Transactions b.

(** The database holds under the block keys exactly the entries of [bs]. *)
Record store_rep (db : S) (bs : list Block) : Prop := {
  sr_entries : ∀ k v, block_key k → p_get db k = Some v ↔ ∃ b, b ∈ bs ∧ (k, v) ∈ block_entries b;
  sr_sealed : Forall sealed bs;
  sr_heights : NoDup (block_height <$> bs);
  sr_width : Forall (λ b, u32_ok (block_height b)) bs;
  sr_ids : NoDup (block_ID <$> bs);
  sr_txs : NoDup (chain_txs bs);
}.

(** Where a key of a block comes from. *)
Lemma block_entries_inv b k v :
  (k, v) ∈ block_entries b →
  k = 3 :: block_ID b ∨ (k = 4 :: Bytes.FromUint32 (block_height b) ∧ v = block_ID b) ∨
  (∃ t, t ∈ b_Transactions b ∧ k = 6 :: tx_ID t ∧ v = Transaction_Encode t) ∨
  (k = 5 :: block_ID b ∧ b_Transactions b ≠ []) ∨ (k = 8 :: block_ID b ∧ b_Assets b ≠ []).
Proof.
  unfold block_entries, block_ID, block_height. destruct (b_Header b) as [h|]; [|by intros ?%not_elem_of_nil].
  rewrite !elem_of_cons, !elem_of_app, list_elem_of_fmap.
  intros [[= -> ->]|[[= -> ->]|[(t & [= -> ->] & Ht)|[Hi|Hi]]]]; [auto|auto|naive_solver|..].
  all: case_match eqn:E; [|by apply not_elem_of_nil in Hi]; apply list_elem_of_singleton in Hi as [= -> ->];
    apply Z.ltb_lt in E; do 3 right; (left + right); (split; [reflexivity|]); intros E0; rewrite E0 in E; done.
Qed.

Lemma elem_of_chain_txs bs b t : b ∈ bs → t ∈ b_Transactions b → tx_ID t ∈ chain_txs bs.
Proof. intros Hb Ht. apply list_elem_of_bind. exists b. split; [|done]. by apply list_elem_of_fmap_2. Qed.

(** Different blocks have different keys. *)
Lemma entries_disjoint bs b b' k v v' :
  NoDup (block_height <$> b :: bs) → Forall (λ b, u32_ok (block_height b)) (b :: bs) →
  NoDup (block_ID <$> b :: bs) → NoDup (chain_txs (b :: bs)) →
  b' ∈ bs → (k, v) ∈ block_entries b → (k, v') ∈ block_entries b' → False.
Proof.
  intros Hh Hw Hid Htx Hb' H1' H2'. rewrite fmap_cons in Hh. rewrite fmap_cons in Hid. apply NoDup_cons in Hh as [Hh _].
  apply NoDup_cons in Hid as [Hid _]. unfold chain_txs in Htx. cbn [mbind list_bind] in Htx.
  apply NoDup_app in Htx as (_ & Htx & _). apply Forall_cons in Hw as [Hw1 Hw2]. rewrite Forall_forall in Hw2.
  assert (block_ID b ≠ block_ID b') as Nid by (intros E; apply Hid; rewrite E; by apply list_elem_of_fmap_2).
  assert (block_height b ≠ block_height b') as Nh by (intros E; apply Hh; rewrite E; by apply list_elem_of_fmap_2).
  apply block_entries_inv in H1', H2'.
  destruct H1' as [->|[[-> _]|[(t & Ht & -> & _)|[[-> _]|[-> _]]]]];
    destruct H2' as [E|[[E _]|[(t' & Ht' & E & _)|[[E _]|[E _]]]]]; try done; apply (f_equal tail) in E; cbn [tail] in E; try done.
  - apply Bytes.FromUint32_inj in E; [done|done|by apply Hw2].
  - apply (Htx (tx_ID t)); [by apply list_elem_of_fmap_2|]. rewrite E. by apply (elem_of_chain_txs bs b').
Qed.

(** Values are determined by the key. *)
Lemma entries_functional b k v v' :
  NoDup (tx_ID <$> b_Transactions b) → (k, v) ∈ block_entries b → (k, v') ∈ block_entries b → v = v'.
Proof.
  intros Hnd. unfold block_entries. destruct (b_Header b) as [h|]; [|by intros ?%not_elem_of_nil].
  rewrite !elem_of_cons, !elem_of_app, !list_elem_of_fmap.
  intros Ha Hb. repeat match goal with
  | H : _ ∨ _ |- _ => destruct H as [H|H]
  | H : ∃ _, _ |- _ => destruct H as (? & ? & ?)
  | H : (_, _) = (_, _) |- _ => injection H as; subst
  | H : _ ∈ [_] |- _ => apply list_elem_of_singleton in H
  | H : _ ∈ (if ?x then _ else _) |- _ => destruct x; [|by apply not_elem_of_nil in H]
  end; try congruence.
  all: simplify_eq; try done.
  match goal with H1 : ?x ∈ b_Transactions b, H2 : ?y ∈ b_Transactions b, E : tx_ID _ = tx_ID _ |- _ =>
    apply list_elem_of_lookup in H1 as [i Hi]; apply list_elem_of_lookup in H2 as [j Hj] end.
  assert (i = j) as ->; [|congruence]. eapply NoDup_lookup; [exact Hnd|rewrite list_lookup_fmap, Hi; done|].
  rewrite list_lookup_fmap, Hj. cbn. congruence.
Qed.

(** A batch that leaves the block keys alone. *)
Definition batch_outside (batch : Batch) : Prop := ∀ op, op ∈ batch → ¬ block_key (op_key op).

Lemma Write_outside batch (db : S) k : batch_outside batch → block_key k → p_get (Write batch db) k = p_get db k.
Proof.
  intros Hout Hk. rewrite (Write_get batch db k None).
  - case_bool_decide as E; [|done]. apply list_elem_of_fmap in E as (op & -> & Hop). by destruct (Hout op Hop).
  - intros op Hop <-. by destruct (Hout op Hop).
Qed.

Lemma chain_txs_block bs b : b ∈ bs → NoDup (chain_txs bs) → NoDup (tx_ID <$> b_Transactions b).
Proof.
  intros Hb. apply list_elem_of_split in Hb as (l1 & l2 & ->). unfold chain_txs. rewrite bind_app. cbn [mbind list_bind].
  rewrite !NoDup_app. tauto.
Qed.

Lemma save_ops_get h b events fin pruned rt (db : S) k :
  b_Header b = Some h → Forall (λ op, ∃ x, op = BDel (9 :: x)) pruned → NoDup (tx_ID <$> b_Transactions b) → block_key k →
  (∀ x, (k, x) ∈ block_entries b → p_get (Write (save_ops h b events fin pruned rt) db) k = Some x) ∧
  (k ∉ (block_entries b).*1 → p_get (Write (save_ops h b events fin pruned rt) db) k = p_get db k).
Proof.
  intros Hh Hp Hnd Hk. pose proof (λ op, save_ops_entries h b events fin pruned rt op Hh Hp) as Hops. split.
  - intros x Hx. rewrite (Write_get _ _ k (Some x)).
    + rewrite bool_decide_eq_true_2; [done|]. apply list_elem_of_fmap. exists (BSet k x). split; [done|].
      apply Hops; [done|]. by exists k, x.
    + intros op Hop E. apply Hops in Hop as (k' & v' & -> & Hin); [|by rewrite E]. cbn in E. subst k'. cbn. f_equal.
      by eapply entries_functional.
  - intros Hni. assert (∀ op, op ∈ save_ops h b events fin pruned rt → op_key op ≠ k) as Hno.
    { intros op Hop E. apply Hops in Hop as (k' & v' & -> & Hin); [|by rewrite E]. cbn in E. subst k'.
      apply Hni. apply list_elem_of_fmap. by exists (k, v'). }
    rewrite (Write_get _ _ k None); [|intros op Hop E; by destruct (Hno op Hop)].
    rewrite bool_decide_eq_false_2; [done|]. intros (op & E & Hop)%list_elem_of_fmap. by apply (Hno op Hop).
Qed.

Lemma remove_ops_get h b saveTemp ops (db : S) k :
  ops ≡ₚ remove_ops h b saveTemp → block_key k →
  p_get (Write ops db) k = if bool_decide (k ∈ (block_entries b).*1) then None else p_get db k.
Proof.
  intros Hperm Hk.
  assert (∀ op, op ∈ ops → op_key op = k → ∃ v, op = BDel k ∧ (k, v) ∈ block_entries b) as Hops.
  { intros op Hop E. rewrite Hperm in Hop. apply remove_ops_entries in Hop as (k' & v & -> & Hin); [|by rewrite E].
    cbn in E. subst k'. by exists v. }
  rewrite (Write_get _ _ k None) by (intros op Hop E; by destruct (Hops op Hop E) as (v & -> & _)).
  rewrite (bool_decide_ext (k ∈ op_key <$> ops) (k ∈ (block_entries b).*1)); [done|]. rewrite !list_elem_of_fmap. split.
  - intros (op & -> & Hop). destruct (Hops op Hop eq_refl) as (v & _ & Hin). by exists (op_key op, v).
  - intros ([k' v] & -> & Hin). exists (BDel k'). split; [done|]. rewrite Hperm. apply remove_ops_entries; [done|]. by exists k', v.
Qed.

(** Writing the batch of [saveBlock] adds the block. *)
Lemma store_add (db : S) bs b h batch events fin pruned rt :
  store_rep db bs → b_Header b = Some h → sealed b → u32_ok (block_height b) →
  block_height b ∉ block_height <$> bs → block_ID b ∉ block_ID <$> bs → NoDup (chain_txs (b :: bs)) →
  batch_outside batch → Forall (λ op, ∃ x, op = BDel (9 :: x)) pruned →
  store_rep (Write (batch ++ save_ops h b events fin pruned rt) db) (bs ++ [b]).
Proof.
  intros [He Hs Hh Hw Hid Htx] Hhd Hsb Hu Hnh Hnid Hntx Hout Hp.
  assert (bs ++ [b] ≡ₚ b :: bs) as Hperm by (by rewrite Permutation_app_comm).
  assert (NoDup (block_height <$> b :: bs)) as Hh' by (rewrite fmap_cons; by constructor).
  assert (NoDup (block_ID <$> b :: bs)) as Hid' by (rewrite fmap_cons; by constructor).
  assert (Forall (λ b, u32_ok (block_height b)) (b :: bs)) as Hw' by by constructor.
  split; [|rewrite Hperm; by constructor|by rewrite Hperm|by rewrite Hperm|by rewrite Hperm|].
  2: { unfold chain_txs. by rewrite Hperm. }
  intros k v Hk. rewrite Write_app.
  assert (NoDup (tx_ID <$> b_Transactions b)) as Hndb by (apply (chain_txs_block (b :: bs)); [left|done]).
  destruct (save_ops_get h b events fin pruned rt (Write batch db) k Hhd Hp Hndb Hk) as [Hset Hkeep].
  setoid_rewrite elem_of_app. setoid_rewrite list_elem_of_singleton.
  destruct (decide (k ∈ (block_entries b).*1)) as [Hin|Hni].
  - apply list_elem_of_fmap in Hin as ([k' x] & -> & Hx). cbn [fst] in *. rewrite (Hset x Hx). split.
    + intros [= <-]. exists b. auto.
    + intros (b' & [Hb'| ->] & Hv); [|f_equal; by eapply entries_functional]. exfalso. by eapply (entries_disjoint bs b b').
  - rewrite (Hkeep Hni), Write_outside, He by done. split.
    + intros (b' & Hb' & Hv). exists b'. auto.
    + intros (b' & [Hb'| ->] & Hv); [by exists b'|]. destruct Hni. apply list_elem_of_fmap. by exists (k, v).
Qed.

(** Writing the batch of [removeBlock] removes it. *)
Lemma store_remove (db : S) bs b h saveTemp batch ops :
  store_rep db (bs ++ [b]) → batch_outside batch → ops ≡ₚ remove_ops h b saveTemp →
  store_rep (Write (batch ++ ops) db) bs.
Proof.
  intros [He Hs Hh Hw Hid Htx] Hout Hops.
  assert (bs ++ [b] ≡ₚ b :: bs) as Hperm by (by rewrite Permutation_app_comm).
  assert (NoDup (chain_txs (b :: bs))) as Htx' by (revert Htx; unfold chain_txs; by rewrite Hperm).
  rewrite Hperm in Hs. rewrite Hperm in Hh. rewrite Hperm in Hw. rewrite Hperm in Hid. split.
  - intros k v Hk. rewrite Write_app, (remove_ops_get h b saveTemp) by done. case_bool_decide as E.
    + apply list_elem_of_fmap in E as ([k' x] & -> & Hx). split; [done|]. intros (b' & Hb' & Hv).
      exfalso. by eapply (entries_disjoint bs b b').
    + rewrite Write_outside, He by done. setoid_rewrite elem_of_app. setoid_rewrite list_elem_of_singleton. split.
      * intros (b' & [Hb'| ->] & Hv); [by exists b'|]. destruct E. apply list_elem_of_fmap. by exists (k, v).
      * intros (b' & Hb' & Hv). exists b'. auto.
  - by apply Forall_cons in Hs as [_ ?].
  - rewrite fmap_cons in Hh. by apply NoDup_cons in Hh as [_ ?].
  - by apply Forall_cons in Hw as [_ ?].
  - rewrite fmap_cons in Hid. by apply NoDup_cons in Hid as [_ ?].
  - unfold chain_txs in Htx'. cbn [mbind list_bind] in Htx'. by apply NoDup_app in Htx' as (_ & _ & ?).
Qed.

Lemma store_stored (db : S) bs b : store_rep db bs → b ∈ bs → stored db b.
Proof.
  intros [He Hs Hh Hw Hid Htx] Hb. split.
  - intros k v Hv. apply He; [by eapply block_entries_key|]. by exists b.
  - assert (∀ p, p ∈ [5; 8] → (p = 5 → b_Transactions b = []) → (p = 8 → b_Assets b = []) → p_get db (p :: block_ID b) = None) as Hno.
    { intros p Hp H5 H8. apply eq_None_not_Some. intros [v Hv].
      apply He in Hv as (b' & Hb' & Hv); [|exists p, (block_ID b); split; [done|set_solver]].
      assert (block_ID b = block_ID b' → b = b') as Hinj.
      { intros E. apply list_elem_of_lookup in Hb as [i Hi]. apply list_elem_of_lookup in Hb' as [j Hj].
        assert (i = j) as ->; [|congruence]. apply (NoDup_lookup (block_ID <$> bs) i j (block_ID b));
          [done|by rewrite list_lookup_fmap, Hi|rewrite list_lookup_fmap, Hj; cbn; by rewrite E]. }
      apply block_entries_inv in Hv. destruct Hv as [E|[[E _]|[(t & _ & E & _)|[[E Hne]|[E Hne]]]]]; injection E as -> E.
      1-3: exfalso; set_solver.
      all: apply Hne; rewrite <-(Hinj E); auto. }
    split; intros E; apply Hno; try done; set_solver.
Qed.

(** ** The chain *)

(** The chain holds the blocks [bs], the genesis block first, and caches
    [cached]. *)
Record chain_rep (ch : Chain S) (bs cached : list Block) : Prop := {
  ch_store : store_rep (da_database (dataAccess ch)) bs;
  ch_cache : cache_rep (da_cache (dataAccess ch)) cached;
  ch_suffix : cached `suffix_of` bs;
  ch_heights : ∀ (i : nat) b, bs !! i = Some b → block_height b = block_height (genesisBlock ch) + Z.of_nat i;
  ch_max : bc_maxSize (da_cache (dataAccess ch)) = maxBlockCache ch ∧ 1 ≤ maxBlockCache ch;
  ch_genesis : is_Some (b_Header (genesisBlock ch));
}.

Lemma suffix_elem {A} (l k : list A) x : l `suffix_of` k → x ∈ l → x ∈ k.
Proof. intros [p ->] Hx. apply elem_of_app. by right. Qed.

Section reads.
Context (ch : Chain S) (bs cached : list Block) (Hch : chain_rep ch bs cached).
Abbreviation da := (dataAccess ch).

Lemma bs_height_inj b b' : b ∈ bs → b' ∈ bs → block_height b = block_height b' → b = b'.
Proof using H0 H2 H4 Hch.
  intros Hb Hb' E. apply list_elem_of_lookup in Hb as [i Hi]. apply list_elem_of_lookup in Hb' as [j Hj].
  pose proof (ch_heights _ _ _ Hch i b Hi). pose proof (ch_heights _ _ _ Hch j b' Hj).
  assert (i = j) as -> by lia. congruence.
Qed.

Lemma bs_ID_inj b b' : b ∈ bs → b' ∈ bs → block_ID b = block_ID b' → b = b'.
Proof using H0 H2 H4 Hch.
  intros Hb Hb' E. apply list_elem_of_lookup in Hb as [i Hi]. apply list_elem_of_lookup in Hb' as [j Hj].
  assert (i = j) as ->; [|congruence]. apply (NoDup_lookup (block_ID <$> bs) i j (block_ID b)).
  - apply (sr_ids _ _ (ch_store _ _ _ Hch)).
  - by rewrite list_lookup_fmap, Hi.
  - rewrite list_lookup_fmap, Hj. cbn. by rewrite E.
Qed.

Lemma height_id_rep h id :
  u32_ok h → p_get (da_database da) (4 :: Bytes.FromUint32 h) = Some id ↔ ∃ b, b ∈ bs ∧ block_height b = h ∧ block_ID b = id.
Proof using H0 H2 H4 Hch.
  intros Hh. rewrite (sr_entries _ _ (ch_store _ _ _ Hch)) by (exists 4, (Bytes.FromUint32 h); split; [done|set_solver]).
  pose proof (sr_width _ _ (ch_store _ _ _ Hch)) as Hw. pose proof (sr_sealed _ _ (ch_store _ _ _ Hch)) as Hs.
  rewrite Forall_forall in Hw, Hs. split.
  - intros (b & Hb & Hin). exists b. split; [done|].
    apply block_entries_inv in Hin as [E|[[E ->]|[(t & _ & E & _)|[[E _]|[E _]]]]]; try done.
    apply (f_equal tail) in E. cbn [tail] in E. split; [|done]. symmetry. apply Bytes.FromUint32_inj; [done|by apply Hw|done].
  - intros (b & Hb & <- & <-). exists b. split; [done|]. destruct (sealed_header _ (Hs b Hb)) as (h & Hhd & _).
    unfold block_entries, block_height, block_ID. rewrite Hhd. right. left.
Qed.

Lemma GetBlock_rep b : b ∈ bs → GetBlock da (block_ID b) = Ok b.
Proof using H0 H2 H4 Hch.
  intros Hb. unfold GetBlock, bc_get. destruct (cachedBlocks (da_cache da) !! block_ID b) as [b'|] eqn:E.
  - apply (cr_blocks _ _ (ch_cache _ _ _ Hch)) in E as [Hb' E]. f_equal. apply bs_ID_inj; [|done|done].
    eapply suffix_elem; [apply (ch_suffix _ _ _ Hch)|done].
  - apply getBlock_stored.
    + pose proof (sr_sealed _ _ (ch_store _ _ _ Hch)) as Hs. rewrite Forall_forall in Hs. by apply Hs.
    + eapply store_stored; [apply (ch_store _ _ _ Hch)|done].
Qed.

Lemma GetBlockByHeight_rep b : b ∈ bs → GetBlockByHeight da (block_height b) = Ok b.
Proof using H0 H2 H4 Hch.
  intros Hb. unfold GetBlockByHeight. destruct (bc_getByHeight _ _) as [b'|] eqn:E.
  - apply (getByHeight_rep _ _ (ch_cache _ _ _ Hch)) in E as [Hb' E]. f_equal. apply bs_height_inj; [|done|done].
    eapply suffix_elem; [apply (ch_suffix _ _ _ Hch)|done].
  - pose proof (sr_width _ _ (ch_store _ _ _ Hch)) as Hw. rewrite Forall_forall in Hw.
    unfold height_id. rewrite db_key_cons. change (u8 dbPrefixBlockHeightToBlockID) with 4. unfold Get.
    rewrite (proj2 (height_id_rep (block_height b) (block_ID b) (Hw b Hb))) by by exists b. cbn [found mbind res_bind].
    apply getBlock_stored.
    + pose proof (sr_sealed _ _ (ch_store _ _ _ Hch)) as Hs. rewrite Forall_forall in Hs. by apply Hs.
    + eapply store_stored; [apply (ch_store _ _ _ Hch)|done].
Qed.

Lemma GetBlockByHeight_missing h : u32_ok h → h ∉ block_height <$> bs → GetBlockByHeight da h = Err ErrDataNotFound.
Proof using H0 H2 H4 Hch.
  intros Hh Hni. unfold GetBlockByHeight. destruct (bc_getByHeight _ _) as [b'|] eqn:E.
  - exfalso. apply (getByHeight_rep _ _ (ch_cache _ _ _ Hch)) in E as [Hb' <-]. apply Hni. apply list_elem_of_fmap_2.
    eapply suffix_elem; [apply (ch_suffix _ _ _ Hch)|done].
  - unfold height_id. rewrite db_key_cons. change (u8 dbPrefixBlockHeightToBlockID) with 4. unfold Get.
    destruct (p_get _ _) as [id|] eqn:Ep; [|done]. exfalso. apply (height_id_rep h id Hh) in Ep as (b & Hb & <- & _).
    apply Hni. by apply list_elem_of_fmap_2.
Qed.

Lemma LastBlock_rep : LastBlock ch = last cached.
Proof using H0 H2 H4 Hch. unfold LastBlock, CachedLastBlock. by apply last_rep, (ch_cache _ _ _ Hch). Qed.
End reads.

(** ** Operations *)

(** A block that may be added on top of [bs]. *)
Definition extends (genesis : Block) (bs : list Block) (b : Block) : Prop :=
  sealed b ∧ u32_ok (block_height b) ∧ block_height b = block_height genesis + len bs ∧
  block_ID b ∉ block_ID <$> bs ∧ NoDup (chain_txs (b :: bs)).

Lemma AddBlock_rep ch bs cached batch b events fin rt :
  chain_rep ch bs cached → extends (genesisBlock ch) bs b → batch_outside batch →
  ∃ ch' pruned h, AddBlock batch b events fin rt ch = (Ok (), ch') ∧ chain_rep ch' (bs ++ [b]) (pushed (maxBlockCache ch) cached b) ∧
    maxBlockCache ch' = maxBlockCache ch ∧ genesisBlock ch' = genesisBlock ch ∧ b_Header b = Some h ∧
    Forall (λ op, ∃ x, op = BDel (9 :: x)) pruned ∧
    da_database (dataAccess ch') = Write (batch ++ save_ops h b events fin pruned rt) (da_database (dataAccess ch)).
Proof.
  intros Hch (Hs & Hu & Hh & Hid & Htx) Hout. pose proof Hch as [Hst Hc Hsuf Hhs [Hm1 Hm2] Hg].
  destruct (sealed_header _ Hs) as (h0 & Hhd & _). unfold AddBlock.
  destruct (saveBlock_ops (dataAccess ch) batch b _ events fin rt Hhd) as (pruned & -> & Hp).
  assert (block_height b ∉ block_height <$> bs) as Hnh.
  { intros (b' & E & Hb')%list_elem_of_fmap. apply list_elem_of_lookup in Hb' as [i Hi]. pose proof (Hhs i b' Hi).
    apply lookup_lt_Some in Hi. unfold len in *. lia. }
  destruct (bc_push_rep (da_cache (dataAccess ch)) cached b) as (c' & Hpush & Hrep' & Hm' & _).
  - done.
  - by eexists.
  - done.
  - lia.
  - intros Hne. rewrite Hh. destruct Hsuf as [pre ->]. destruct cached as [|x l] using rev_ind; [done|].
    rewrite app_assoc, len_app. destruct (cr_heights _ _ Hc (length l) x) as [_ E1]; [by rewrite lookup_app_r, Nat.sub_diag by lia|].
    pose proof (Hhs (length (pre ++ l)) x) as E2. rewrite app_assoc, lookup_app_r, Nat.sub_diag in E2 by lia.
    specialize (E2 eq_refl). rewrite len_app in E1. change (len [x]) with 1 in *. unfold len in *. lia.
  - intros (x & E & Hx)%list_elem_of_fmap. apply Hid. rewrite E. apply list_elem_of_fmap_2. by eapply suffix_elem.
  - unfold Cache. cbn [da_cache set_da_database]. rewrite Hpush. cbn [mbind res_bind].
    eexists _, pruned, _. split; [done|]. split; [|done]. rewrite <-Hm1. split; cbn [dataAccess set_dataAccess set_da_cache set_da_database da_cache da_database genesisBlock maxBlockCache].
    + by apply store_add.
    + exact Hrep'.
    + unfold pushed. apply suffix_app. case_match; [|done]. destruct Hsuf as [pre ->]. destruct cached as [|x l]; [by exists pre|].
      exists (pre ++ [x]). by rewrite <-app_assoc.
    + intros i b' Hb'. apply lookup_app_Some in Hb' as [Hb'|[Hi Hb']]; [by apply Hhs|].
      apply list_lookup_singleton_Some in Hb' as [Hi2 <-]. rewrite Hh. unfold len. lia.
    + lia.
    + done.
Qed.

Lemma RemoveBlock_rep ch bs cached batch b saveTemp :
  chain_rep ch (bs ++ [b]) (cached ++ [b]) → bs ≠ [] → batch_outside batch →
  ∃ ch' ops h, RemoveBlock batch saveTemp ch = Ok ch' ∧ chain_rep ch' bs cached ∧
    maxBlockCache ch' = maxBlockCache ch ∧ genesisBlock ch' = genesisBlock ch ∧
    b_Header b = Some h ∧ ops ≡ₚ remove_ops h b saveTemp ∧
    da_database (dataAccess ch') = Write (batch ++ ops) (da_database (dataAccess ch)).
Proof.
  intros Hch Hne Hout. pose proof Hch as [Hst Hc Hsuf Hhs [Hm1 Hm2] [hg Hg]]. unfold RemoveBlock, last_block.
  rewrite (LastBlock_rep _ _ _ Hch), last_snoc. cbn [mbind res_bind].
  assert (sealed b) as Hs by (pose proof (sr_sealed _ _ Hst) as Hs; rewrite Forall_forall in Hs; apply Hs, elem_of_app; right; left).
  destruct (sealed_header _ Hs) as (h0 & Hhd & _). destruct (header_of_Some b _ Hhd) as (-> & _ & Eh).
  destruct (header_of_Some _ _ Hg) as (-> & _ & Eg). cbn [mbind res_bind].
  pose proof (Hhs (length bs) b) as Ebh. rewrite lookup_app_r, Nat.sub_diag in Ebh by lia. specialize (Ebh eq_refl).
  destruct (Z.eqb_spec (bh_Height (BlockHeader_Init h0)) (bh_Height hg)) as [E|_].
  { exfalso. destruct bs; [done|]. cbn [length] in Ebh. lia. }
  destruct (removeBlock_ops batch b _ saveTemp Hhd) as (ops & -> & Hops & _). cbn [mbind res_bind].
  destruct (bc_pop_rep _ _ _ Hc) as (c' & Epop & Hrep').
  eexists _, ops, _. split; [done|]. unfold RemoveCache. cbn [da_cache set_da_database]. rewrite Epop.
  split; [|done]. assert (bc_maxSize c' = bc_maxSize (da_cache (dataAccess ch))) as Hm'.
  { unfold bc_pop in Epop. case_match; [done|]. by injection Epop as _ <-. }
  split; cbn [dataAccess set_dataAccess set_da_cache set_da_database da_cache da_database genesisBlock maxBlockCache snd].
  - by eapply store_remove.
  - exact Hrep'.
  - destruct Hsuf as [pre E]. exists pre. rewrite app_assoc in E. by apply app_inj_tail in E as [-> _].
  - intros i b' Hb'. apply Hhs. by rewrite lookup_app_l by (by eapply lookup_lt_Some).
  - lia.
  - by exists hg.
Qed.

Inductive chain_op :=
| op_add (batch : Batch) (block : Block) (events : list Event) (finalizedHeight : Z) (removeTemp : bool)
| op_remove (batch : Batch) (saveTemp : bool).

Definition run_chain_op (op : chain_op) (ch : Chain S) : res (Chain S) :=
  match op with
  | op_add batch block events fin rt => let '(r, ch) := AddBlock batch block events fin rt ch in _ ← r; Ok ch
  | op_remove batch saveTemp => RemoveBlock batch saveTemp ch
  end.

Fixpoint run_chain (ops : list chain_op) (ch : Chain S) : res (Chain S) :=
  match ops with
  | [] => Ok ch
  | op :: ops => ch ← run_chain_op op ch; run_chain ops ch
  end.

(** The specification: a stack of blocks above the genesis block, of which the
    newest are cached.  A removal needs a cached block, and spares the genesis
    block. *)
Definition stack_op (max : Z) (op : chain_op) (x : list Block * list Block) : res (list Block * list Block) :=
  match op with
  | op_add _ b _ _ _ => Ok (x.1 ++ [b], pushed max x.2 b)
  | op_remove _ _ =>
      if len x.2 =? 0 then Panic
      else if len x.1 =? 1 then Err (Errorf "genesis block cannot be removed")
      else Ok (removelast x.1, removelast x.2)
  end.

Fixpoint stack (max : Z) (ops : list chain_op) (x : list Block * list Block) : res (list Block * list Block) :=
  match ops with
  | [] => Ok x
  | op :: ops => x ← stack_op max op x; stack max ops x
  end.

(** What the callers see to: a block that is added extends the stack, and batches
    leave the keys of blocks alone. *)
Definition op_ok (genesis : Block) (op : chain_op) (x : list Block * list Block) : Prop :=
  match op with
  | op_add batch b _ _ _ => extends genesis x.1 b ∧ batch_outside batch
  | op_remove batch _ => batch_outside batch
  end.

Fixpoint ops_ok (genesis : Block) (max : Z) (ops : list chain_op) (x : list Block * list Block) : Prop :=
  match ops with
  | [] => True
  | op :: ops => op_ok genesis op x ∧ match stack_op max op x with Ok y => ops_ok genesis max ops y | _ => True end
  end.

(** Without a cached block the last block is nil. *)
Lemma RemoveBlock_empty_cache ch bs batch saveTemp : chain_rep ch bs [] → RemoveBlock batch saveTemp ch = Panic.
Proof. intros Hch. unfold RemoveBlock, last_block. by rewrite (LastBlock_rep _ _ _ Hch). Qed.

Lemma RemoveBlock_genesis ch b cached batch saveTemp :
  chain_rep ch [b] (cached ++ [b]) → RemoveBlock batch saveTemp ch = Err (Errorf "genesis block cannot be removed").
Proof.
  intros Hch. unfold RemoveBlock, last_block. rewrite (LastBlock_rep _ _ _ Hch), last_snoc. cbn [mbind res_bind].
  pose proof (sr_sealed _ _ (ch_store _ _ _ Hch)) as Hs. rewrite Forall_singleton in Hs. destruct (sealed_header _ Hs) as (h0 & Hhd & _).
  destruct (header_of_Some b _ Hhd) as (-> & _ & Eh). destruct (ch_genesis _ _ _ Hch) as [hg Hg].
  destruct (header_of_Some _ _ Hg) as (-> & _ & Eg). cbn [mbind res_bind].
  pose proof (ch_heights _ _ _ Hch 0 b eq_refl) as E. rewrite Eh, Eg in E. by rewrite E, Z.add_0_r, Z.eqb_refl.
Qed.

Lemma run_chain_op_rep op x ch :
  op_ok (genesisBlock ch) op x → chain_rep ch x.1 x.2 →
  match stack_op (maxBlockCache ch) op x with
  | Ok y => ∃ ch', run_chain_op op ch = Ok ch' ∧ chain_rep ch' y.1 y.2 ∧ genesisBlock ch' = genesisBlock ch ∧ maxBlockCache ch' = maxBlockCache ch
  | r => run_chain_op op ch = (_ ← r; Ok ch)
  end.
Proof.
  destruct x as [bs cached], op as [batch b events fin rt|batch saveTemp]; cbn [op_ok stack_op run_chain_op fst snd].
  - intros [Hext Hout] Hrep. destruct (AddBlock_rep ch bs cached batch b events fin rt Hrep Hext Hout) as (ch' & _ & _ & -> & Hrep' & Hm' & Hg' & _).
    cbn [mbind res_bind]. by exists ch'.
  - intros Hout Hrep. destruct cached as [|b cached _] using rev_ind; [by apply (RemoveBlock_empty_cache ch bs)|].
    assert (len (cached ++ [b]) =? 0 = false) as -> by (rewrite len_app; change (len [b]) with 1; pose proof (len_nonneg cached); lia).
    destruct (ch_suffix _ _ _ Hrep) as [pre ->]. rewrite app_assoc in *. destruct (Z.eqb_spec (len ((pre ++ cached) ++ [b])) 1) as [E|Hne].
    + rewrite len_app in E. change (len [b]) with 1 in E. destruct (pre ++ cached) as [|b' l] eqn:El; [|rewrite len_cons in E; pose proof (len_nonneg l); lia].
      by apply (RemoveBlock_genesis ch b cached).
    + destruct (RemoveBlock_rep ch (pre ++ cached) cached batch b saveTemp Hrep) as (ch' & _ & _ & E & Hrep' & Hm' & Hg' & _); [by intros Hnil; rewrite Hnil in Hne|done|].
      exists ch'. rewrite !removelast_last. done.
Qed.

Lemma run_chain_rep ops x ch :
  ops_ok (genesisBlock ch) (maxBlockCache ch) ops x → chain_rep ch x.1 x.2 →
  match stack (maxBlockCache ch) ops x with
  | Ok y => ∃ ch', run_chain ops ch = Ok ch' ∧ chain_rep ch' y.1 y.2 ∧ genesisBlock ch' = genesisBlock ch ∧ maxBlockCache ch' = maxBlockCache ch
  | r => run_chain ops ch = (_ ← r; Ok ch)
  end.
Proof.
  revert x ch. induction ops as [|op ops IH]; intros x ch Hok Hrep; cbn [stack run_chain ops_ok] in *; [by exists ch|].
  destruct Hok as [Hop Hok]. pose proof (run_chain_op_rep op x ch Hop Hrep) as Hstep.
  destruct (stack_op (maxBlockCache ch) op x) as [y|e| |]; cbn [mbind res_bind] in *; [|by rewrite Hstep..].
  destruct Hstep as (ch1 & -> & Hrep1 & Hg & Hm). cbn [mbind res_bind]. rewrite <-Hg, <-Hm in Hok. specialize (IH y ch1 Hok Hrep1).
  rewrite Hm, Hg in IH. by destruct (stack (maxBlockCache ch) ops y) as [z|e| |].
Qed.

Lemma NewChain_rep chainID maxTxs max keep genesis (db : S) :
  is_Some (b_Header genesis) → 1 ≤ max < 2 ^ 32 → (∀ k, block_key k → p_get db k = None) →
  chain_rep (NewChain_Init chainID maxTxs max keep genesis db) [] [].
Proof.
  intros Hg Hm Hdb. split; cbn; [|apply newBlockCache_rep; lia|done|done|lia|done].
  split; [|constructor..]. intros k v Hk. rewrite Hdb by done. split; [done|]. intros (b & Hb & _). by apply not_elem_of_nil in Hb.
Qed.

(** C4: The chain is a stack of blocks with a bounded cache.  Take a chain on an
    empty block store and any sequence of [AddBlock] and [RemoveBlock] in which
    each added block is sealed, has the next height, a new ID and new transaction
    IDs, and each batch leaves the keys of blocks alone.  Then the outcome is that
    of the stack: a removal takes off the last block, fails if this is the genesis
    block, and panics once no block is cached, however many are stored.  If no
    operation failed, [LastBlock] is the last of the cached blocks, these are the
    newest of the stack, every block of the stack is returned unchanged by its
    height and by its ID, whether it is cached or read back from the database, and
    any other height is reported as not found. *)
Theorem chain_refines_stack chainID maxTxs max keep genesis (db : S) ops :
  is_Some (b_Header genesis) → 1 ≤ max < 2 ^ 32 → (∀ k, block_key k → p_get db k = None) → ops_ok genesis max ops ([], []) →
  match stack max ops ([], []), run_chain ops (NewChain_Init chainID maxTxs max keep genesis db) with
  | Ok (bs, cached), Ok ch => LastBlock ch = last cached ∧ cached `suffix_of` bs ∧
      (∀ b, b ∈ bs → GetBlockByHeight (dataAccess ch) (block_height b) = Ok b ∧ GetBlock (dataAccess ch) (block_ID b) = Ok b) ∧
      (∀ h, u32_ok h → h ∉ block_height <$> bs → GetBlockByHeight (dataAccess ch) h = Err ErrDataNotFound)
  | Err e, Err e' => e = e'
  | Panic, Panic => True
  | _, _ => False
  end.
Proof.
  intros Hg Hm Hdb Hok. set (ch0 := NewChain_Init chainID maxTxs max keep genesis db).
  pose proof (run_chain_rep ops ([], []) ch0 Hok (NewChain_rep chainID maxTxs max keep genesis db Hg Hm Hdb)) as Hrun.
  change (maxBlockCache ch0) with max in Hrun.
  assert (stack max ops ([], []) ≠ OutOfFuel) as Hends.
  { clear. generalize (@nil Block, @nil Block). induction ops as [|op ops IH]; intros x; [done|]. cbn [stack].
    destruct (stack_op max op x) as [y|e| |] eqn:E; cbn [mbind res_bind]; [apply IH|done|done|].
    destruct op; cbn [stack_op] in E; [done|]. by repeat case_match. }
  destruct (stack max ops ([], [])) as [[bs cached]|e| |]; cbn [mbind res_bind fst snd] in Hrun; [|by rewrite Hrun|by rewrite Hrun|done].
  destruct Hrun as (ch & -> & Hrep & _). split_and!.
  - by apply (LastBlock_rep ch bs).
  - apply (ch_suffix _ _ _ Hrep).
  - intros b Hb. split; [by apply (GetBlockByHeight_rep ch bs cached)|by apply (GetBlock_rep ch bs cached)].
  - intros h Hh Hni. by apply (GetBlockByHeight_missing ch bs cached).
Qed.

(** ** Loading the cache *)

Lemma in_bounds_4 k : in_bounds [4] k = true ↔ ∃ x, k = 4 :: x.
Proof.
  unfold in_bounds. change (upperBound [4]) with (Some [5]). rewrite bytes_leb_ltb. split.
  - destruct k as [|y x]; [done|]. rewrite !bytes_ltb_cons, bytes_ltb_nil_r, !andb_false_r, !orb_false_r.
    rewrite andb_true_iff, negb_true_iff, Z.ltb_ge, Z.ltb_lt. intros [? ?]. exists x. f_equal. lia.
  - intros [x ->]. rewrite !bytes_ltb_cons, !bytes_ltb_nil_r. done.
Qed.

Lemma iterate_last (db : S) prefix :
  Iterate db prefix 1 true = match last (filter (λ e, in_bounds prefix e.1 = true) (p_entries db)) with Some e => [e] | None => [] end.
Proof.
  unfold Iterate, iteratePrefix. rewrite iter_loop_limit_1.
  destruct (filter _ (p_entries db)) as [|e l] using rev_ind; [done|]. by rewrite reverse_snoc, last_snoc.
Qed.

Lemma getLastBlock_rep ch bs b cached :
  chain_rep ch (bs ++ [b]) cached → getLastBlock (dataAccess ch) = Ok b.
Proof.
  intros Hch. unfold getLastBlock. rewrite iterate_last.
  set (inside := filter _ _). assert (StronglySorted key_lt inside) as Hsort by apply StronglySorted_filter, p_entries_sorted.
  pose proof (ch_store _ _ _ Hch) as Hst. pose proof (sr_width _ _ Hst) as Hw. rewrite Forall_forall in Hw.
  assert (b ∈ bs ++ [b]) as Hb by (apply elem_of_app; right; left).
  assert ((4 :: Bytes.FromUint32 (block_height b), block_ID b) ∈ inside) as Hin.
  { apply list_elem_of_filter. split; [apply in_bounds_4; by eexists|]. apply p_entries_get.
    apply (height_id_rep _ _ _ Hch); [by apply Hw|]. by exists b. }
  destruct (last inside) as [[k v]|] eqn:El; [|apply last_None in El; rewrite El in Hin; by apply not_elem_of_nil in Hin].
  apply last_Some in El as [l El]. assert ((k, v) ∈ inside) as Hkv by (rewrite El; apply elem_of_app; right; left).
  apply list_elem_of_filter in Hkv as [[x Hx]%in_bounds_4 Hkv%p_entries_get]. cbn [fst] in Hx. subst k.
  apply (sr_entries _ _ Hst) in Hkv as (b' & Hb' & He); [|exists 4, x; split; [done|set_solver]].
  apply block_entries_inv in He as [E|[[E ->]|[(t & _ & E & _)|[[E _]|[E _]]]]]; try done.
  apply (f_equal tail) in E. cbn [tail] in E. subst x.
  assert (b' = b) as ->; [|by apply (GetBlock_rep ch _ cached Hch)].
  assert (block_height b ≤ block_height b') as Hle.
  { rewrite El in Hin, Hsort. apply elem_of_app in Hin as [Hin|Hin].
    - apply StronglySorted_app in Hsort as (Hlt & _ & _). specialize (Hlt _ _ Hin ltac:(left)). unfold key_lt in Hlt. cbn [fst] in Hlt.
      rewrite bytes_ltb_cons, Z.ltb_irrefl, Z.eqb_refl in Hlt. cbn [orb andb] in Hlt. unfold bytes_ltb in Hlt.
      rewrite Bytes.bytes_compare_FromUint32 in Hlt by auto. destruct (Z.compare_spec (block_height b) (block_height b')); done || lia.
    - apply list_elem_of_singleton in Hin. apply (f_equal fst) in Hin. cbn [fst] in Hin. apply (f_equal tail) in Hin. cbn [tail] in Hin.
      apply Bytes.FromUint32_inj in Hin; [lia|auto|auto]. }
  apply (bs_height_inj _ _ _ Hch); [done..|]. apply list_elem_of_lookup in Hb' as [i Hi].
  pose proof (ch_heights _ _ _ Hch i b' Hi). apply lookup_lt_Some in Hi. rewrite length_app in Hi. cbn in Hi.
  pose proof (ch_heights _ _ _ Hch (length bs) b) as E. rewrite lookup_app_r, Nat.sub_diag in E by lia. specialize (E eq_refl). lia.
Qed.

Lemma sort_slice_id {A} (less : A → A → bool) l : StronglySorted (no_inversion less) l → sort_slice less l = l.
Proof.
  induction 1 as [|x l Hl IH Hx]; [done|]. cbn. rewrite IH. destruct l as [|y k]; [done|]. cbn.
  apply Forall_cons in Hx as [Hy _]. unfold no_inversion in Hy. by rewrite Hy.
Qed.

(** Consecutive heights from [base] on. *)
Definition consecutive_from (base : Z) (l : list Block) : Prop :=
  ∀ (i : nat) b, l !! i = Some b → is_Some (b_Header b) ∧ u32_ok (block_height b) ∧ block_height b = base + Z.of_nat i.

Lemma consecutive_sorted base l : consecutive_from base l → SortBlockByHeightAsc l = l.
Proof.
  intros Hl. apply sort_slice_id. revert base Hl. induction l as [|b l IH]; intros base Hl; [constructor|].
  constructor.
  - apply (IH (base + 1)). intros i x Hx. destruct (Hl (Datatypes.S i) x Hx) as (? & ? & Ex). split_and!; [done|done|lia].
  - apply Forall_forall. intros x Hx. apply list_elem_of_lookup in Hx as [i Hi]. destruct (Hl (Datatypes.S i) x Hi) as (_ & _ & Ex).
    destruct (Hl O b eq_refl) as (_ & _ & Eb). apply Z.ltb_ge. lia.
Qed.

Lemma cache_blocks_rep base l cs (d : DataAccess S) :
  cache_rep (da_cache d) cs → consecutive_from base (cs ++ l) → NoDup (block_ID <$> cs ++ l) →
  len (cs ++ l) ≤ bc_maxSize (da_cache d) →
  ∃ d', cache_blocks l d = Ok d' ∧ cache_rep (da_cache d') (cs ++ l) ∧ da_database d' = da_database d ∧
    da_keepEventsForHeights d' = da_keepEventsForHeights d ∧ bc_maxSize (da_cache d') = bc_maxSize (da_cache d).
Proof.
  revert cs d. induction l as [|b l IH]; intros cs d Hrep Hl Hnd Hm.
  { exists d. by rewrite app_nil_r. }
  rewrite len_app, len_cons in Hm. pose proof (len_nonneg l). pose proof (len_nonneg cs).
  destruct (Hl (length cs) b) as (Hh & Hu & Eb); [by rewrite lookup_app_r, Nat.sub_diag by lia|].
  destruct (bc_push_rep (da_cache d) cs b) as (c' & Hpush & Hrep' & Hm' & _); [done|done|done|lia|..].
  - intros Hne. destruct cs as [|y k] using rev_ind; [done|].
    destruct (Hl (length k) y) as (_ & _ & Ey); [by rewrite <-app_assoc, lookup_app_r, Nat.sub_diag by lia|].
    destruct (cr_heights _ _ Hrep (length k) y) as [_ E2]; [by rewrite lookup_app_r, Nat.sub_diag by lia|].
    rewrite length_app in Eb. rewrite len_app in E2. change (len [y]) with 1 in E2. unfold len in *. cbn in Eb. lia.
  - rewrite fmap_app, fmap_cons in Hnd. apply NoDup_app in Hnd as (_ & Hnd & _). intros Hin. apply (Hnd _ Hin). left.
  - unfold pushed in Hrep'. destruct (Z.leb_spec (bc_maxSize (da_cache d)) (len cs)); [lia|].
    cbn [cache_blocks]. unfold Cache. rewrite Hpush. cbn [mbind res_bind].
    destruct (IH (cs ++ [b]) (set_da_cache c' d)) as (d' & E & Hrep'' & Hdb & Hk & Hm2).
    + exact Hrep'.
    + by rewrite <-app_assoc.
    + by rewrite <-app_assoc.
    + rewrite <-app_assoc, len_app, len_app. change (len [b]) with 1. cbn [set_da_cache da_cache]. lia.
    + exists d'. rewrite <-app_assoc in Hrep''. cbn in Hdb, Hk, Hm2. split_and!; [done|done|done|done|congruence].
Qed.

Lemma map_res_between ch bs cached l base :
  chain_rep ch bs cached → consecutive_from base l → (∀ x, x ∈ l → x ∈ bs) →
  map_res (GetBlockByHeight (dataAccess ch)) (seqZ base (len l)) = Ok l.
Proof.
  intros Hch Hl Hin. apply map_res_Ok. apply Forall2_same_length_lookup. split; [rewrite length_seqZ; unfold len; lia|].
  intros i x y Hx Hy. apply lookup_seqZ in Hx as [-> _]. destruct (Hl i y Hy) as (_ & _ & <-).
  apply (GetBlockByHeight_rep ch bs cached Hch). apply Hin. by apply list_elem_of_lookup_2 in Hy.
Qed.

Lemma chain_consecutive ch bs cached (k : nat) :
  chain_rep ch bs cached → consecutive_from (block_height (genesisBlock ch) + Z.of_nat k) (drop k bs).
Proof.
  intros Hch i b Hb. rewrite lookup_drop in Hb. pose proof (ch_heights _ _ _ Hch _ _ Hb).
  apply list_elem_of_lookup_2 in Hb. pose proof (sr_sealed _ _ (ch_store _ _ _ Hch)) as Hs.
  pose proof (sr_width _ _ (ch_store _ _ _ Hch)) as Hw. rewrite Forall_forall in Hs, Hw.
  destruct (sealed_header _ (Hs b Hb)) as (h & -> & _). split_and!; [done|by apply Hw|lia].
Qed.

(** The first height that [PrepareCache] loads below a tip of height [len bs]. *)
Definition first_loaded (ch : Chain S) (bs : list Block) : nat := Z.to_nat (0 `max` (len bs - maxBlockCache ch)).

Section prepare.
Context (ch : Chain S) (bs : list Block) (b : Block) (Hch : chain_rep ch (bs ++ [b]) []).
Context (Hg : block_height (genesisBlock ch) = 0).

Abbreviation k0 := (first_loaded ch bs).

Lemma tip_consecutive : consecutive_from (Z.of_nat k0) (drop k0 bs ++ [b]).
Proof using Hch Hg.
  pose proof (chain_consecutive ch _ _ k0 Hch) as Hc. rewrite Hg in Hc.
  destruct (ch_max _ _ _ Hch). rewrite drop_app_le in Hc by (unfold first_loaded, len; lia). exact Hc.
Qed.

Lemma tip_height : is_Some (b_Header b) ∧ u32_ok (block_height b) ∧ block_height b = len bs.
Proof using Hch Hg.
  destruct (tip_consecutive (length (drop k0 bs)) b) as (? & ? & E); [by rewrite lookup_app_r, Nat.sub_diag by lia|].
  split_and!; [done|done|]. destruct (ch_max _ _ _ Hch). rewrite length_drop in E. unfold first_loaded, len in *. lia.
Qed.

Lemma len_loaded : len (drop k0 bs) = len bs - Z.of_nat k0.
Proof using Hch. destruct (ch_max _ _ _ Hch). unfold first_loaded, len. rewrite length_drop. lia. Qed.

Lemma loaded_ids : NoDup (block_ID <$> drop k0 bs ++ [b]).
Proof using Hch.
  pose proof (sr_ids _ _ (ch_store _ _ _ Hch)) as Hnd. rewrite <-(take_drop k0 bs), <-app_assoc, fmap_app in Hnd.
  by apply NoDup_app in Hnd as (_ & _ & ?).
Qed.

(** The blocks below the newest one are cached first. *)
Lemma load_blocks :
  ∃ d, (if 0 <? len bs then
       minCacheHeight ← Ints.Max [0; len bs - maxBlockCache ch];
       blocks ← GetBlocksBetweenHeight (dataAccess ch) (u32 minCacheHeight) (u32 (len bs - 1));
       cache_blocks blocks (dataAccess ch)
     else Ok (dataAccess ch)) = Ok d ∧ cache_rep (da_cache d) (drop k0 bs) ∧
     da_database d = da_database (dataAccess ch) ∧ bc_maxSize (da_cache d) = maxBlockCache ch.
Proof using H0 H2 H4 Hch Hg.
  pose proof (len_nonneg bs) as Hlen. destruct (ch_max _ _ _ Hch) as [Hm1 Hm2]. destruct tip_height as (_ & Hu & Eb).
  unfold u32_ok in Hu. pose proof tip_consecutive as Hl. pose proof len_loaded as Hll.
  assert (Z.of_nat k0 = 0 `max` (len bs - maxBlockCache ch)) as Ek by (unfold first_loaded; lia).
  destruct (Z.ltb_spec 0 (len bs)).
  2: { exists (dataAccess ch). destruct bs; [|rewrite len_cons in *; pose proof (len_nonneg l); lia]. rewrite drop_nil.
       split_and!; [done|apply (ch_cache _ _ _ Hch)|done|done]. }
  rewrite Ints.Max_2. cbn [mbind res_bind]. unfold u32. rewrite !Z.mod_small by lia.
  unfold GetBlocksBetweenHeight. destruct (Z.ltb_spec (len bs - 1) (0 `max` (len bs - maxBlockCache ch))); [lia|].
  destruct (Z.eqb_spec (len bs - 1) MaxUint32) as [E2|_]; [unfold MaxUint32 in E2; lia|].
  rewrite <-Ek. replace (len bs - 1 - Z.of_nat k0 + 1) with (len (drop k0 bs)) by lia.
  assert (consecutive_from (Z.of_nat k0) (drop k0 bs)) as Hl' by (intros i x Hx; apply Hl; by apply lookup_app_l_Some).
  rewrite (map_res_between ch (bs ++ [b]) [] (drop k0 bs)); [|done|done|].
  2: { intros x Hx. apply elem_of_app. left. rewrite <-(take_drop k0 bs). apply elem_of_app. by right. }
  cbn [mbind res_bind]. rewrite (consecutive_sorted (Z.of_nat k0)) by done.
  destruct (cache_blocks_rep (Z.of_nat k0) (drop k0 bs) [] (dataAccess ch)) as (d & -> & ? & ? & _ & ?).
  - apply (ch_cache _ _ _ Hch).
  - done.
  - pose proof loaded_ids as Hnd. rewrite fmap_app in Hnd. by apply NoDup_app in Hnd as (? & _ & _).
  - cbn [app]. lia.
  - exists d. split_and!; [done|done|done|congruence].
Qed.

Lemma pushed_loaded : ∃ k, pushed (maxBlockCache ch) (drop k0 bs) b = drop k (bs ++ [b]) ∧
  len (drop k (bs ++ [b])) = Z.min (maxBlockCache ch) (len bs + 1).
Proof using Hch.
  destruct (ch_max _ _ _ Hch) as [_ Hm]. pose proof len_loaded as Hll. pose proof (len_nonneg bs). unfold pushed.
  assert (Z.of_nat k0 = 0 `max` (len bs - maxBlockCache ch)) as Ek by (unfold first_loaded; lia).
  destruct (Z.leb_spec (maxBlockCache ch) (len (drop k0 bs))).
  - exists (Datatypes.S k0). assert (tail (drop k0 bs) = drop (Datatypes.S k0) bs) as ->
      by (rewrite <-Nat.add_1_r, <-drop_drop; by destruct (drop k0 bs)).
    rewrite drop_app_le by (unfold len in *; lia). split; [done|].
    rewrite len_app. unfold len in *. rewrite length_drop. cbn. lia.
  - exists k0. rewrite drop_app_le by (unfold len in *; lia). split; [done|]. rewrite len_app. change (len [b]) with 1. lia.
Qed.
End prepare.

(** A restart keeps the database and starts with an empty cache. *)
Definition restart (ch : Chain S) : Chain S :=
  NewChain_Init (chainID ch) (maxTransactionsLength ch) (maxBlockCache ch) (keepEventsForHeights ch) (genesisBlock ch)
    (da_database (dataAccess ch)).

Lemma restart_rep ch bs cached : chain_rep ch bs cached → chain_rep (restart ch) bs [].
Proof.
  intros [Hst Hc _ Hhs [Hm1 Hm2] Hg]. pose proof (cr_max _ _ Hc).
  split; cbn; try done; [|apply suffix_nil]. apply newBlockCache_rep. lia.
Qed.

(** Restarting.  For a chain from a genesis block at height 0 whose cache is
    empty, as after a restart, [PrepareCache] succeeds and caches the newest
    blocks of the chain, as many as the cache holds, so that [LastBlock] is the
    newest block. *)
Theorem PrepareCache_restores ch bs b :
  chain_rep ch (bs ++ [b]) [] → block_height (genesisBlock ch) = 0 →
  ∃ ch' k, PrepareCache ch = Ok ch' ∧ chain_rep ch' (bs ++ [b]) (drop k (bs ++ [b])) ∧ LastBlock ch' = Some b ∧
    len (drop k (bs ++ [b])) = Z.min (maxBlockCache ch) (len bs + 1).
Proof.
  intros Hch Hg. destruct (tip_height ch bs b Hch Hg) as (Hhd & Hu & Eb). destruct Hhd as [h Hhd].
  destruct (header_of_Some b h Hhd) as (Ehd & _ & Eh). destruct (ch_max _ _ _ Hch) as [Hm1 Hm2].
  destruct (load_blocks ch bs b Hch Hg) as (d & Ed & Hrep & Hdb & Hmd).
  pose proof (tip_consecutive ch bs b Hch Hg) as Hcons. pose proof (loaded_ids ch bs b Hch) as Hids.
  destruct (pushed_loaded ch bs b Hch) as (k & Epush & Hk).
  set (l := drop _ bs) in *. unfold PrepareCache. rewrite (getLastBlock_rep ch bs b [] Hch), Ehd. cbn [mbind res_bind].
  assert (Cached (dataAccess ch) 0 = false) as ->.
  { apply bool_decide_eq_false_2. intros [x Hx]. apply (getByHeight_rep _ _ (ch_cache _ _ _ Hch)) in Hx as [Hx _].
    by apply not_elem_of_nil in Hx. }
  rewrite andb_false_r, <-Eh, Eb, Ed. cbn [mbind res_bind].
  destruct (bc_push_rep (da_cache d) l b) as (c' & Hpush & Hrep' & Hm' & _); [done|by exists h|done|lia|..].
  - intros Hne. destruct l as [|y k'] eqn:El using rev_ind; [done|]. clear IHk'.
    destruct (Hcons (length k') y) as (_ & _ & Ey); [by rewrite <-app_assoc, lookup_app_r, Nat.sub_diag by lia|].
    destruct (Hcons (length (k' ++ [y])) b) as (_ & _ & Eb2); [by rewrite lookup_app_r, Nat.sub_diag by lia|].
    destruct (cr_heights _ _ Hrep (length k') y) as [_ E2]; [by rewrite lookup_app_r, Nat.sub_diag by lia|].
    rewrite length_app in Eb2. rewrite len_app in E2. change (len [y]) with 1 in E2. unfold len in *. cbn in Eb2. lia.
  - rewrite fmap_app in Hids. apply NoDup_app in Hids as (_ & Hnd & _). intros Hin. apply (Hnd _ Hin). left.
  - unfold Cache. rewrite Hpush. cbn [mbind res_bind]. rewrite Hmd, Epush in Hrep'.
    assert (chain_rep (set_dataAccess (set_da_cache c' d) ch) (bs ++ [b]) (drop k (bs ++ [b]))) as Hch'.
    { destruct Hch as [Hst Hc Hsuf Hhs _ Hgen].
      split; cbn [dataAccess set_dataAccess set_da_cache da_cache da_database genesisBlock maxBlockCache]; try done.
      - by rewrite Hdb.
      - apply suffix_drop.
      - split; [congruence|done]. }
    eexists _, k. split; [done|]. split; [done|]. split; [|done].
    rewrite (LastBlock_rep _ _ _ Hch'), <-Epush. unfold pushed. apply last_snoc.
Qed.

(** Chains that do not start at height 0 cannot load their cache.  If the
    genesis block has a positive height and the chain is shorter than the block
    cache (as it is right after the genesis block was processed), [PrepareCache]
    asks for blocks below the genesis block and returns "not found", whatever is
    cached. *)
Theorem PrepareCache_genesis_above_zero ch bs b cached :
  chain_rep ch (bs ++ [b]) cached → 0 < block_height (genesisBlock ch) →
  block_height b - maxBlockCache ch < block_height (genesisBlock ch) →
  PrepareCache ch = Err ErrDataNotFound.
Proof.
  intros Hch Hg Hlt. unfold PrepareCache. rewrite (getLastBlock_rep ch bs b cached Hch).
  pose proof (sr_sealed _ _ (ch_store _ _ _ Hch)) as Hs. rewrite Forall_forall in Hs.
  pose proof (sr_width _ _ (ch_store _ _ _ Hch)) as Hw. rewrite Forall_forall in Hw.
  assert (b ∈ bs ++ [b]) as Hb by (apply elem_of_app; right; left). destruct (sealed_header _ (Hs b Hb)) as (h0 & Hhd & _).
  destruct (header_of_Some b _ Hhd) as (-> & _ & Eh). cbn [mbind res_bind]. rewrite <-Eh. destruct (ch_max _ _ _ Hch) as [_ Hmax].
  pose proof (ch_heights _ _ _ Hch (length bs) b) as E. rewrite lookup_app_r, Nat.sub_diag in E by lia. specialize (E eq_refl).
  destruct (Z.eqb_spec (block_height b) 0); [lia|]. cbn [andb]. destruct (Z.ltb_spec 0 (block_height b)); [|lia].
  rewrite Ints.Max_2. cbn [mbind res_bind]. set (m := 0 `max` (block_height b - maxBlockCache ch)).
  specialize (Hw b Hb). unfold u32_ok in Hw. unfold u32. rewrite !Z.mod_small by (unfold m; lia).
  unfold GetBlocksBetweenHeight. destruct (Z.ltb_spec (block_height b - 1) m); [unfold m in *; lia|].
  destruct (Z.eqb_spec (block_height b - 1) MaxUint32) as [E2|_]; [unfold MaxUint32 in E2; lia|].
  rewrite seqZ_cons by (unfold m; lia). cbn [map_res]. rewrite (GetBlockByHeight_missing ch (bs ++ [b]) cached); [done|done|..].
  - unfold u32_ok, m. lia.
  - intros (b' & E3 & Hb')%list_elem_of_fmap. apply list_elem_of_lookup in Hb' as [i Hi].
    pose proof (ch_heights _ _ _ Hch i b' Hi). unfold m in *. lia.
Qed.
End store.

(** ** A concrete chain *)

Definition sample_chain_header (height : Z) : BlockHeader :=
  mkBlockHeader [] 2 (10 * height) height (replicate 32 1) (replicate 20 2) [] [] [] [] 0 0 false [] (Some (mkAggregateCommit 0 [] [])) [].

Definition sample_chain_block (height : Z) (txs : list Transaction) : Block :=
  Block_Init (H := ascii_norm) (H0 := toy_hash) (mkBlock (Some (sample_chain_header height)) txs []).

Abbreviation sample_extends := (extends (H1 := ascii_norm) (H3 := toy_hash)).

(** Proves that a concrete block extends a concrete chain. *)
Ltac concrete_extends :=
  split_and!; [split|unfold u32_ok; by vm_compute|by vm_compute|by apply (bool_decide_unpack _); vm_compute|by apply (bool_decide_unpack _); vm_compute];
  [eexists; split; [reflexivity|]; split; [unfold BlockHeader_ok, u32_ok; split_and!; try done; by eexists|by vm_compute]
  |repeat (apply Forall_cons; split; [eexists; split; [reflexivity|]; split; [apply sample_tx_ok|by vm_compute]|]); constructor
  |split; [constructor|by vm_compute]].

Abbreviation sample0 := (sample_chain_block 0 []).
Abbreviation sample1 := (sample_chain_block 1 [sample_tx]).

Lemma sample0_extends : sample_extends sample0 [] sample0.
Proof. concrete_extends. Qed.
Lemma sample1_extends : sample_extends sample0 [sample0] sample1.
Proof. concrete_extends. Qed.
Lemma sample5_extends : sample_extends (sample_chain_block 5 []) [] (sample_chain_block 5 []).
Proof. concrete_extends. Qed.

Lemma batch_outside_nil : batch_outside [].
Proof. by intros op ?%not_elem_of_nil. Qed.

(** Two blocks with one of them cached: the first removal succeeds, and after
    adding the block again there are two to remove but the second panics. *)
Abbreviation sample_ops := [op_add [] sample0 [] 0 false; op_add [] sample1 [] 0 true; op_remove [] true; op_add [] sample1 [] 0 false].

Lemma sample_ops_ok : ops_ok (H1 := ascii_norm) (H3 := toy_hash) sample0 1 sample_ops ([], []).
Proof.
  pose proof batch_outside_nil as Hout. split; [by split; [apply sample0_extends|]|]. split; [by split; [apply sample1_extends|]|].
  split; [done|]. split; [by split; [apply sample1_extends|]|]. done.
Qed.

Lemma sample_removals_ok :
  ops_ok (H1 := ascii_norm) (H3 := toy_hash) sample0 1 (sample_ops ++ [op_remove [] true; op_remove [] true]) ([], []).
Proof.
  pose proof batch_outside_nil as Hout. split; [by split; [apply sample0_extends|]|]. split; [by split; [apply sample1_extends|]|].
  split; [done|]. split; [by split; [apply sample1_extends|]|]. split; [done|]. by split.
Qed.

Lemma chain_refines_stack_witness :
  (∃ ch, run_chain (S := gmap bytes bytes) (H1 := ascii_norm) sample_ops (NewChain_Init [1] 100 1 (-1) sample0 ∅) = Ok ch ∧
    LastBlock ch = Some sample1 ∧
    GetBlockByHeight (H0 := ascii_norm) (H1 := toy_hash) (dataAccess ch) 0 = Ok sample0 ∧
    GetBlockByHeight (H0 := ascii_norm) (H1 := toy_hash) (dataAccess ch) 2 = Err ErrDataNotFound) ∧
  run_chain (S := gmap bytes bytes) (H1 := ascii_norm) (sample_ops ++ [op_remove [] true; op_remove [] true])
    (NewChain_Init [1] 100 1 (-1) sample0 ∅) = Panic.
Proof.
  assert (is_Some (b_Header sample0)) as Hg by (by eexists). assert (1 ≤ 1 < 2 ^ 32) as Hm by lia.
  assert (∀ k, block_key k → p_get (∅ : gmap bytes bytes) k = None) as Hdb by done. split.
  - pose proof (chain_refines_stack (H2 := ascii_norm_laws) (H4 := toy_hash_laws) (S := gmap bytes bytes) [1] 100 1 (-1) sample0 ∅
      sample_ops Hg Hm Hdb sample_ops_ok) as Hr.
    change (stack 1 sample_ops ([], [])) with (Ok ([sample0; sample1], [sample1])) in Hr. cbn iota in Hr.
    destruct (run_chain (S := gmap bytes bytes) (H1 := ascii_norm) sample_ops _) as [ch|e| |]; [|contradiction..].
    destruct Hr as (Hl & _ & Hget & Hmiss). assert (block_height sample0 = 0) as E0 by done. assert (block_height sample1 = 1) as E1 by done.
    exists ch. split_and!; [done|exact Hl|rewrite <-E0 at 1; apply Hget; left|].
    assert (u32_ok 2) as Hu by (unfold u32_ok; lia).
    refine (Hmiss 2 Hu _). rewrite !fmap_cons, E0, E1. clear. set_solver.
  - pose proof (chain_refines_stack (H2 := ascii_norm_laws) (H4 := toy_hash_laws) (S := gmap bytes bytes) [1] 100 1 (-1) sample0 ∅
      (sample_ops ++ [op_remove [] true; op_remove [] true]) Hg Hm Hdb sample_removals_ok) as Hr.
    change (stack 1 (sample_ops ++ [op_remove [] true; op_remove [] true]) ([], []))
      with (Panic : res (list Block * list Block)) in Hr. cbn iota in Hr.
    destruct (run_chain (S := gmap bytes bytes) (H1 := ascii_norm) (sample_ops ++ _) _) as [ch|e| |]; [contradiction..|reflexivity|contradiction].
Defined.

(** New transactions are needed: when a block repeats a transaction of an older
    block, removing the newer block takes the transaction of the older one away,
    which can no longer be read. *)
Example repeated_transaction_lost :
  match run_chain (S := gmap bytes bytes) (H1 := ascii_norm)
      [op_add [] sample0 [] 0 false; op_add [] sample1 [] 1 false; op_add [] (sample_chain_block 2 [sample_tx]) [] 1 false; op_remove [] false]
      (NewChain_Init [1] 100 1 (-1) sample0 ∅) with
  | Ok ch => GetBlockByHeight (H0 := ascii_norm) (H1 := toy_hash) (dataAccess ch) 1 = Err ErrDataNotFound
  | _ => False
  end.
Proof. vm_compute. reflexivity. Qed.

Lemma PrepareCache_genesis_above_zero_witness :
  ∃ ch, run_chain (S := gmap bytes bytes) (H1 := ascii_norm) [op_add [] (sample_chain_block 5 []) [] 0 false]
      (NewChain_Init [1] 100 515 (-1) (sample_chain_block 5 []) ∅) = Ok ch ∧
    PrepareCache (H0 := ascii_norm) (H1 := toy_hash) ch = Err ErrDataNotFound.
Proof.
  set (g := sample_chain_block 5 []).
  destruct (run_chain_rep (H2 := ascii_norm_laws) (H4 := toy_hash_laws) [op_add [] g [] 0 false] ([], [])
    (NewChain_Init (S := gmap bytes bytes) [1] 100 515 (-1) g ∅)) as (ch & Hr & Hrep & Eg & Em).
  - split; [|done]. split; [apply sample5_extends|apply batch_outside_nil].
  - apply NewChain_rep; [by eexists|lia|done].
  - exists ch. split; [exact Hr|]. cbn [fst snd] in Hrep.
    apply (PrepareCache_genesis_above_zero (H2 := ascii_norm_laws) (H4 := toy_hash_laws) ch [] g [g] Hrep); rewrite Eg, ?Em; by vm_compute.
Defined.

Lemma PrepareCache_restores_witness :
  ∃ ch ch', run_chain (S := gmap bytes bytes) (H1 := ascii_norm) [op_add [] sample0 [] 0 false; op_add [] sample1 [] 0 false]
      (NewChain_Init [1] 100 1 (-1) sample0 ∅) = Ok ch ∧
    PrepareCache (H0 := ascii_norm) (H1 := toy_hash) (restart ch) = Ok ch' ∧ LastBlock ch' = Some sample1.
Proof.
  set (ch0 := NewChain_Init (S := gmap bytes bytes) [1] 100 1 (-1) sample0 ∅).
  assert (chain_rep (H1 := ascii_norm) (H3 := toy_hash) ch0 [] []) as Hrep0 by (apply NewChain_rep; [by eexists|lia|done]).
  destruct (AddBlock_rep (H2 := ascii_norm_laws) (H4 := toy_hash_laws) ch0 [] [] [] sample0 [] 0 false Hrep0 sample0_extends batch_outside_nil)
    as (ch1 & _ & _ & E1 & Hrep1 & Em1 & Eg1 & _).
  destruct (AddBlock_rep (H2 := ascii_norm_laws) (H4 := toy_hash_laws) ch1 [sample0] [sample0] [] sample1 [] 0 false Hrep1)
    as (ch2 & _ & _ & E2 & Hrep2 & _ & Eg2 & _); [rewrite Eg1; apply sample1_extends|apply batch_outside_nil|].
  exists ch2. destruct (PrepareCache_restores (H2 := ascii_norm_laws) (H4 := toy_hash_laws) (restart ch2) [sample0] sample1)
    as (ch' & k & Hp & _ & Hl & _).
  - exact (restart_rep _ _ _ Hrep2).
  - change (block_height (genesisBlock ch2) = 0). by rewrite Eg2, Eg1.
  - exists ch'. split; [|done]. cbn [run_chain run_chain_op]. rewrite E1. cbn [mbind res_bind]. by rewrite E2.
Defined.
