(* ===== verification/Commits.v ===== *)
(** * Commits: the executer's handling of single and aggregate commits

    pkg/consensus/certificate.go, with the sort of pkg/consensus/schema.go.  The
    executer reads the state of Lisk-BFT with the API functions of
    pkg/consensus/liskbft and block headers with the data access of the chain;
    [ConsensusState] is the record of those reads. *)

From S2P Require Import Prelude Collection Codec CodecSpec Message Crypto BlockTypes Block DB DiffDB ForkChoice BFTTypes Votes VotesSpec VotesInv BFTSafety LiskBFT BFTStore LabiTypes Certificate.

(** ** What the executer reads

    The [diffStore] of these functions is only read; [bft_state] at the end of
    the file is the record that a database of LiskBFT.v gives. *)
Record ConsensusState := mkConsensusState {
  GetBFTHeights_ : res (Z * Z * Z);
  GetBFTParameters_ : Z → res BFTParams;
  ExistBFTParameters_ : Z → bool;
  NextHeightBFTParameters_ : Z → res Z;
}.

(** [c.chain.DataAccess().GetBlockHeaderByHeight] and [c.chain.ChainID]. *)
Class ChainReader := {
  GetBlockHeaderByHeight : Z → res BlockHeader;
  ChainID : bytes;
}.

Inductive ValidationResult := ValidationAccept | ValidationReject | ValidationIgnore.

(** [if err != nil { return r }] with the pool as it is, and
    [if err != nil { return err }]. *)
Definition or_return {A} (x : res A) (r : ValidationResult) (p : Pool) (k : A → res (option ValidationResult * Pool))
    : res (option ValidationResult * Pool) :=
  match x with Ok a => k a | Err _ => Ok (Some r, p) | Panic => Panic | OutOfFuel => OutOfFuel end.

Definition or_error {A} (x : res A) (p : Pool) (k : A → res (option error * Pool)) : res (option error * Pool) :=
  match x with Ok a => k a | Err e => Ok (Some e, p) | Panic => Panic | OutOfFuel => OutOfFuel end.

(** ** Aggregate commits *)

(** [ValidatorWithBLSKey]: address, weight and key. *)
Record ValidatorWithBLSKey := mkValidatorWithBLSKey {
  vb_Address : bytes;
  vb_BFTWeight : Z;
  vb_BLSKey : bytes;
}.

Definition ValidatorsWithBLSKey_sort (v : list ValidatorWithBLSKey) : list ValidatorWithBLSKey :=
  sort_slice (λ x y, bytes_ltb (vb_BLSKey x) (vb_BLSKey y)) v.

Definition validatorBLSKeys (params : BFTParams) : list ValidatorWithBLSKey :=
  ValidatorsWithBLSKey_sort
    ((λ val, mkValidatorWithBLSKey (bv_address val) (bv_bftWeight val) (bv_blsKey val)) <$> bp_validators params).

Section executer.
Context `{Hasher, BLS, ChainReader}.

(** The error of [NextHeightBFTParameters] stays in [err] when it is
    [ErrNotFound], with height 0. *)
Definition next_params (r : res Z) : res (Z * bool) :=
  match r with
  | Ok n => Ok (n, false)
  | Err e => if bool_decide (e = ErrDataNotFound) then Ok (0, true) else Err e
  | Panic => Panic
  | OutOfFuel => OutOfFuel
  end.

Definition verifyAggregateCommit (diffStore : ConsensusState) (aggregteCommit : AggregateCommit) : res () :=
  '(_, maxHeightPrecommited, maxHeightCertified) ← GetBFTHeights_ diffStore;
  if AggregateCommit_Empty aggregteCommit && (ac_Height aggregteCommit =? maxHeightCertified) then Ok ()
  else if (len (ac_AggregationBits aggregteCommit) =? 0) || (len (ac_CertificateSignature aggregteCommit) =? 0)
  then Err (Errorf "aggregate commit aggregation bits or signature is empty")
  else if ac_Height aggregteCommit <=? maxHeightCertified
  then Err (Errorf "aggregate commit height must be strictly increasing")
  else if maxHeightPrecommited <? ac_Height aggregteCommit
  then Err (Errorf "aggregate commit has height higher than maxHeightPrecommited")
  else
    '(heightNextBFTParams, err) ← next_params (NextHeightBFTParameters_ diffStore (u32 (maxHeightCertified + 1)));
    if err && (u32 (heightNextBFTParams - 1) <? ac_Height aggregteCommit)
    then Err (Errorf "aggregate commit has height higher than next BFT params")
    else
      header ← GetBlockHeaderByHeight (ac_Height aggregteCommit);
      let certificateFromBlock :=
        set_Certificate_Signature (ac_CertificateSignature aggregteCommit)
          (set_Certificate_AggregationBits (ac_AggregationBits aggregteCommit) (NewCertificateFromBlock header)) in
      params ← GetBFTParameters_ diffStore (ac_Height aggregteCommit);
      let validators := validatorBLSKeys params in
      let keys := vb_BLSKey <$> validators in
      let weights := vb_BFTWeight <$> validators in
      valid ← VerifyAggregateCertificateSignature keys weights (bp_certificateThreshold params) ChainID
                certificateFromBlock;
      if negb valid then Err (Errorf "invalid certificate received") else Ok ().

(** The weight of the commits, a uint64; a commit of an address outside the
    validators panics. *)
Fixpoint commit_weight (validators : list BFTValidator) (commits : list SingleCommit) (aggregateBFTWeight : Z) : res Z :=
  match commits with
  | [] => Ok aggregateBFTWeight
  | commit :: commits =>
      match BFTValidators_Find (SingleCommit_validatorAddress commit) validators with
      | Some commitValidator =>
          commit_weight validators commits (u64 (aggregateBFTWeight + bv_bftWeight commitValidator))
      | None => Panic
      end
  end.

Definition commit_keypairs (params : BFTParams) : list (bytes * bytes) :=
  (λ validator, (bv_address validator, bv_blsKey validator)) <$> bp_validators params.

(** [for nextHeight > maxHeightCertified]; every turn that goes on decrements
    [nextHeight]. *)
Fixpoint aggregate_loop (fuel : nat) (diffStore : ConsensusState) (p : Pool) (nextHeight maxHeightCertified : Z)
    : res AggregateCommit :=
  match fuel with
  | O => OutOfFuel
  | S fuel =>
      if maxHeightCertified <? nextHeight then
        let commits := Pool_Get nextHeight p in
        if len commits =? 0 then aggregate_loop fuel diffStore p (nextHeight - 1) maxHeightCertified
        else
          params ← GetBFTParameters_ diffStore nextHeight;
          aggregateBFTWeight ← commit_weight (bp_validators params) commits 0;
          if aggregateBFTWeight <? bp_certificateThreshold params
          then aggregate_loop fuel diffStore p (nextHeight - 1) maxHeightCertified
          else SingleCommits_Aggregate (commit_keypairs params) commits
      else Ok (mkAggregateCommit maxHeightCertified [] [])
  end.

Definition GetAggregateCommit (diffStore : ConsensusState) (p : Pool) : res AggregateCommit :=
  '(_, maxHeightPrecommited, maxHeightCertified) ← GetBFTHeights_ diffStore;
  '(heightNextBFTParams, err) ← next_params (NextHeightBFTParameters_ diffStore (u32 (maxHeightCertified + 1)));
  nextHeight ← (if (err : bool) then Ok maxHeightPrecommited
                else Ints.Min [u32 (heightNextBFTParams - 1); maxHeightPrecommited]);
  aggregate_loop (S (Z.to_nat (nextHeight - maxHeightCertified))) diffStore p nextHeight maxHeightCertified.

(** ** Receiving single commits *)

(** One turn of the loop: [None] goes on with the next commit, [Some] returns. *)
Definition validate_commit (diffStore : ConsensusState) (singleCommit : SingleCommit) (p : Pool)
    : res (option ValidationResult * Pool) :=
  match SingleCommit_Validate singleCommit with
  | Err _ => Ok (Some ValidationReject, p)
  | Panic => Panic
  | OutOfFuel => OutOfFuel
  | Ok _ =>
      if Pool_Has singleCommit p then Ok (None, p)
      else
        or_return (GetBFTHeights_ diffStore) ValidationIgnore p (λ '(_, maxHeightPrecommited, _),
        or_return (GetBlockHeaderByHeight maxHeightPrecommited) ValidationIgnore p (λ finalizedBlockHeader,
        removal ← GetMaxRemovalHeight finalizedBlockHeader;
        if SingleCommit_height singleCommit <=? removal then Ok (None, p)
        else
          let paramExist := ExistBFTParameters_ diffStore (SingleCommit_height singleCommit) in
          if ((SingleCommit_height singleCommit <? u32 (maxHeightPrecommited - CommitRangeStored))
              || (maxHeightPrecommited <? SingleCommit_height singleCommit)) && negb paramExist
          then Ok (None, p)
          else
            or_return (GetBlockHeaderByHeight (SingleCommit_height singleCommit)) ValidationIgnore p (λ blockHeader,
            if negb (bytes_equal (bh_ID blockHeader) (SingleCommit_blockID singleCommit)) then Ok (None, p)
            else
              or_return (GetBFTParameters_ diffStore (SingleCommit_height singleCommit)) ValidationIgnore p (λ params,
              match BFTValidators_Find (SingleCommit_validatorAddress singleCommit) (bp_validators params) with
              | None => Ok (Some ValidationReject, p)
              | Some validator =>
                  let cert := NewCertificateFromBlock blockHeader in
                  let validCert := Certificate_Verify ChainID (SingleCommit_certificateSignature singleCommit)
                                     (bv_blsKey validator) cert in
                  if negb validCert then Ok (Some ValidationReject, p)
                  else Ok (None, Pool_Add singleCommit p)
              end))))
  end.

Fixpoint validate_commits (diffStore : ConsensusState) (commits : list SingleCommit) (p : Pool)
    : res (ValidationResult * Pool) :=
  match commits with
  | [] => Ok (ValidationIgnore, p)
  | singleCommit :: commits =>
      '(out, p) ← validate_commit diffStore singleCommit p;
      match out with
      | Some r => Ok (r, p)
      | None => validate_commits diffStore commits p
      end
  end.

Definition singleCommitValidator (diffStore : ConsensusState) (data : bytes) (p : Pool)
    : res (ValidationResult * Pool) :=
  match Message_DecodeStrict (A := EventPostSingleCommits) data with
  | Ok postCommits => validate_commits diffStore (EventPostSingleCommits_SingleCommits postCommits) p
  | Err _ => Ok (ValidationReject, p)
  | Panic => Panic
  | OutOfFuel => OutOfFuel
  end.

(** ** Certifying *)

(** The body of both branches after their existence test; [None] for an inactive
    address. *)
Definition certify_height `{BLSSigner} (diffStore : ConsensusState) (i : Z) (address blsPrivateKey : bytes)
    : res (option SingleCommit) :=
  params ← GetBFTParameters_ diffStore i;
  match BFTValidators_Find address (bp_validators params) with
  | None => Ok None
  | Some _ =>
      header ← GetBlockHeaderByHeight i;
      Ok (Some (NewSingleCommit header address ChainID blsPrivateKey))
  end.

Definition pool_add_opt (c : option SingleCommit) (p : Pool) : Pool :=
  match c with Some c => Pool_Add c p | None => p end.

(** The function of one goroutine. *)
Definition certify_task `{BLSSigner} (diffStore : ConsensusState) (address blsPrivateKey : bytes) (i : Z)
    : res (option SingleCommit) :=
  if ExistBFTParameters_ diffStore i then certify_height diffStore i address blsPrivateKey else Ok None.

(** All goroutines run to their end, in the order [order] in which they take the
    pool's mutex; [Wait] returns the first error. *)
Fixpoint certify_run `{BLSSigner} (diffStore : ConsensusState) (address blsPrivateKey : bytes) (order : list Z)
    (err : option error) (p : Pool) : res (option error * Pool) :=
  match order with
  | [] => Ok (err, p)
  | i :: order =>
      match certify_task diffStore address blsPrivateKey i with
      | Ok c => certify_run diffStore address blsPrivateKey order err (pool_add_opt c p)
      | Err e => certify_run diffStore address blsPrivateKey order (if err is Some _ then err else Some e) p
      | Panic => Panic
      | OutOfFuel => OutOfFuel
      end
  end.

(** [order] is a permutation of [from+1, ..., to]; the result is the error, if
    any, and the pool. *)
Definition Certify `{BLSSigner} (diffStore : ConsensusState) (order : list Z) (from to : Z)
    (address blsPrivateKey : bytes) (p : Pool) : res (option error * Pool) :=
  if to <? from then Ok (Some (Errorf "invalid range to certify"), p)
  else
    '(err, p) ← certify_run diffStore address blsPrivateKey order None p;
    match err with
    | Some e => Ok (Some e, p)
    | None =>
        if ExistBFTParameters_ diffStore (u32 (to + 1)) then Ok (None, p)
        else
          match certify_height diffStore to address blsPrivateKey with
          | Ok c => Ok (None, pool_add_opt c p)
          | Err e => Ok (Some e, p)
          | Panic => Panic
          | OutOfFuel => OutOfFuel
          end
    end.

(** ** Gossip *)

(** [commitDiscard]: [existHeight] is the state. *)
Definition commitDiscard_exist (diffStore : ConsensusState) (h : Z) (existHeight : gmap Z bool) : bool * gmap Z bool :=
  match existHeight !! h with
  | Some val => (val, existHeight)
  | None => let found := ExistBFTParameters_ diffStore h in (found, <[h := found]> existHeight)
  end.

Definition cleanup_checker (diffStore : ConsensusState) (removeHeight maxHeightPrecommited : Z) (h : Z)
    (existHeight : gmap Z bool) : bool * gmap Z bool :=
  if h <=? removeHeight then (false, existHeight)
  else
    let '(found, existHeight) := commitDiscard_exist diffStore (u32 (h + 1)) existHeight in
    if negb ((u32 (maxHeightPrecommited - CommitRangeStored) <=? h) && (h <? maxHeightPrecommited)) && negb found
    then (false, existHeight) else (true, existHeight).

(** [publish] is [c.conn.Publish] on the topic of single commits; the result is
    the error, if any, and the pool. *)
Definition broadcastCertificate (publish : bytes → option error) (diffStore : ConsensusState) (currentHeight : Z)
    (p : Pool) : res (option error * Pool) :=
  or_error (GetBFTHeights_ diffStore) p (λ '(_, maxHeightPrecommited, _),
  or_error (GetBlockHeaderByHeight maxHeightPrecommited) p (λ finalizedBlockHeader,
  removeHeight ← GetMaxRemovalHeight finalizedBlockHeader;
  let '(p, _) := Pool_Cleanup (cleanup_checker diffStore removeHeight maxHeightPrecommited) p ∅ in
  if Pool_Size p =? 0 then Ok (None, p)
  else
    or_error (GetBFTParameters_ diffStore currentHeight) p (λ params,
    let numActiveValidators := len (bp_validators params) in
    '(selectedCommites, p) ← Pool_Select maxHeightPrecommited numActiveValidators p;
    if len selectedCommites =? 0 then Ok (None, p)
    else
      let data := EventPostSingleCommits_Encode (mkEventPostSingleCommits selectedCommites) in
      match publish data with
      | Some e => Ok (Some e, p)
      | None => Ok (None, Pool_Upgrade selectedCommites p)
      end))).
End executer.

(** ** Lemmas *)

Definition key_le (a b : bytes) : Prop := bytes_ltb b a = false.

#[export] Instance key_le_antisymm : AntiSymm (=) key_le.
Proof. intros a b H1 H2. by apply bytes_ltb_total. Qed.

Section sorted_keys.
Context (params : BFTParams).

Abbreviation sorted_keys := (vb_BLSKey <$> validatorBLSKeys params).
Abbreviation keypairs_desc := (AddressKeyPairs_Sort (commit_keypairs params)).

Lemma sorted_keys_perm : sorted_keys ≡ₚ bv_blsKey <$> bp_validators params.
Proof.
  unfold validatorBLSKeys, ValidatorsWithBLSKey_sort. rewrite sort_slice_Permutation, <-list_fmap_compose. done.
Qed.

Lemma keypairs_desc_perm : keypairs_desc ≡ₚ commit_keypairs params.
Proof. apply sort_slice_Permutation. Qed.

(** The two sorts give the keys in opposite orders. *)
Lemma keys_desc_reverse : AddressKeyPairs_BLSKeys keypairs_desc = reverse sorted_keys.
Proof.
  rewrite <-(reverse_involutive (AddressKeyPairs_BLSKeys _)). f_equal.
  apply (StronglySorted_unique key_le).
  - unfold AddressKeyPairs_BLSKeys, AddressKeyPairs_Sort.
    pose proof (sort_slice_sorted (λ x y : bytes * bytes, bytes_ltb y.2 x.2) (commit_keypairs params) (less_ok_key_desc snd)) as Hs.
    induction Hs as [|x l Hl IH Hx]; [constructor|]. rewrite fmap_cons, reverse_cons.
    apply StronglySorted_app. split_and!; [|done|repeat constructor].
    intros a b Ha Hb. apply list_elem_of_singleton in Hb as ->. rewrite elem_of_reverse in Ha.
    apply list_elem_of_fmap in Ha as (y & -> & Hy). rewrite Forall_forall in Hx. exact (Hx y Hy).
  - unfold validatorBLSKeys, ValidatorsWithBLSKey_sort. set (l := _ <$> bp_validators params).
    pose proof (sort_slice_sorted (λ x y, bytes_ltb (vb_BLSKey x) (vb_BLSKey y)) l (less_ok_key vb_BLSKey)) as Hs.
    induction Hs as [|x k Hl IH Hx]; [constructor|]. rewrite fmap_cons. constructor; [done|].
    apply Forall_fmap. exact Hx.
  - rewrite reverse_Permutation, sorted_keys_perm. unfold AddressKeyPairs_BLSKeys.
    rewrite keypairs_desc_perm. unfold commit_keypairs. by rewrite <-list_fmap_compose.
Qed.
End sorted_keys.

Lemma AddressKeyPairs_BLSKey_lookup kps address key :
  NoDup kps.*1 → (address, key) ∈ kps → AddressKeyPairs_BLSKey address kps = Some key.
Proof.
  induction kps as [|[a k] kps IH]; intros Hnd Hin; [by apply not_elem_of_nil in Hin|].
  rewrite fmap_cons in Hnd. apply NoDup_cons in Hnd as [Ha Hnd]. cbn in *. unfold bytes_equal.
  apply elem_of_cons in Hin as [[= -> ->]|Hin]; [by rewrite bool_decide_eq_true_2|].
  rewrite bool_decide_eq_false_2; [by apply IH|]. intros ->. apply Ha. apply list_elem_of_fmap. by exists (a, key).
Qed.

Lemma BFTValidators_Find_elem address vs v :
  BFTValidators_Find address vs = Some v → v ∈ vs ∧ bv_address v = address.
Proof.
  induction vs as [|w vs IH]; [done|]. cbn. unfold bytes_equal. case_bool_decide as E.
  - intros [= <-]. split; [left|done].
  - intros [? ?]%IH. split; [by right|done].
Qed.

Lemma signature_pairs_keys kps commits keys :
  Forall2 (λ c k, AddressKeyPairs_BLSKey (SingleCommit_validatorAddress c) kps = Some k) commits keys →
  signature_pairs kps commits = Ok (zip keys (SingleCommit_certificateSignature <$> commits)).
Proof.
  induction 1 as [|c k commits keys Hc _ IH]; [done|]. cbn. rewrite Hc. cbn. rewrite IH. done.
Qed.

(** The [signers] are the validators of the commits. *)
Definition signed_by (params : BFTParams) (commits : list SingleCommit) (signers : list BFTValidator) : Prop :=
  Forall2 (λ c v, BFTValidators_Find (SingleCommit_validatorAddress c) (bp_validators params) = Some v) commits signers.

Lemma signed_by_pairs params commits signers :
  NoDup (bv_address <$> bp_validators params) → signed_by params commits signers →
  signature_pairs (AddressKeyPairs_Sort (commit_keypairs params)) commits
    = Ok (zip (bv_blsKey <$> signers) (SingleCommit_certificateSignature <$> commits)).
Proof.
  intros Hnd Hs. apply signature_pairs_keys. apply Forall2_fmap_r.
  eapply Forall2_impl; [exact Hs|]. intros c v Hv. cbn. apply BFTValidators_Find_elem in Hv as [Hin <-].
  apply AddressKeyPairs_BLSKey_lookup.
  - rewrite keypairs_desc_perm. unfold commit_keypairs. by rewrite <-list_fmap_compose.
  - rewrite keypairs_desc_perm. apply list_elem_of_fmap. by exists v.
Qed.

Section mirrored.
Context `{Hasher, BLS}.

(** Aggregating sets the bit of a key by its position from the end of the order
    in which the verification reads the bits. *)
Lemma Aggregate_bits params commits signers :
  let keys := vb_BLSKey <$> validatorBLSKeys params in
  NoDup (bv_address <$> bp_validators params) → NoDup (bv_blsKey <$> bp_validators params) →
  commits ≠ [] → signed_by params commits signers →
  ∃ bits height, SingleCommits_Aggregate (commit_keypairs params) commits
      = Ok (mkAggregateCommit height bits (BLS_Aggregate (SingleCommit_certificateSignature <$> commits))) ∧
    SingleCommit_height <$> head commits = Some height ∧ len keys ≤ 8 * len bits ∧
    ∀ (i : nat) k, reverse keys !! i = Some k →
      Bits.bit bits (Z.of_nat i) = bool_decide (k ∈ bv_blsKey <$> signers).
Proof.
  intros keys Hna Hnk Hne Hs. destruct commits as [|c commits]; [done|].
  assert (length (bv_blsKey <$> signers) = length (SingleCommit_certificateSignature <$> c :: commits)) as Hlen.
  { rewrite !length_fmap. symmetry. exact (Forall2_length _ _ _ Hs). }
  set (pairs := zip (bv_blsKey <$> signers) (SingleCommit_certificateSignature <$> c :: commits)).
  assert (pairs.*1 = bv_blsKey <$> signers) as Ep1 by (apply fst_zip; lia).
  assert (pairs.*2 = SingleCommit_certificateSignature <$> c :: commits) as Ep2 by (apply snd_zip; lia).
  assert (NoDup (reverse keys)) as Hnr.
  { rewrite reverse_Permutation. unfold keys. by rewrite sorted_keys_perm. }
  set (zeros := replicate (Z.to_nat ((len (reverse keys) + 7) / 8)) 0).
  pose proof (len_nonneg (reverse keys)) as Hln.
  assert (len (reverse keys) ≤ 8 * len zeros) as Hz.
  { unfold zeros, len at 2. rewrite length_replicate.
    pose proof (Z.div_mod (len (reverse keys) + 7) 8 ltac:(lia)).
    pose proof (Z.mod_pos_bound (len (reverse keys) + 7) 8 ltac:(lia)). lia. }
  destruct (aggregation_bits_spec (reverse keys) pairs zeros) as (bits & Eb & Hl & Hbits); [done| |done|].
  { intros p Hp. assert (p.1 ∈ pairs.*1) as Hp1 by (apply list_elem_of_fmap; by exists p).
    rewrite Ep1 in Hp1. apply list_elem_of_fmap in Hp1 as (v & -> & Hv).
    rewrite reverse_Permutation. unfold keys. rewrite sorted_keys_perm. apply list_elem_of_fmap. exists v.
    split; [done|]. apply list_elem_of_lookup in Hv as [i Hi].
    destruct (Forall2_lookup_r _ _ _ _ _ Hs Hi) as (c' & _ & Hf). by apply BFTValidators_Find_elem in Hf as [? _]. }
  exists bits, (SingleCommit_height c). split_and!.
  - unfold SingleCommits_Aggregate. rewrite (signed_by_pairs params (c :: commits) signers Hna Hs).
    change (zip _ _) with pairs. cbn [mbind res_bind]. unfold BLSCreateAggSig.
    rewrite keys_desc_reverse. fold keys. change (replicate _ _) with zeros. rewrite Eb. cbn [mbind res_bind].
    by rewrite Ep2.
  - done.
  - unfold len in Hz, Hl |- *. rewrite length_reverse in Hz. lia.
  - intros i k Hk. rewrite (Hbits i k Hk). unfold zeros. by rewrite Bits.bit_zero, orb_false_r, Ep1.
Qed.

(** The order of the aggregation bits.  [GetAggregateCommit] aggregates with
    the keys of the validators sorted in descending order, while
    [verifyAggregateCommit] reads the same bits against the keys sorted in
    ascending order: for commits signed by validators with distinct addresses and
    keys, the keys that verification selects are those at the mirrored positions
    of the signers' keys, so an honest aggregate commit is checked against the
    keys of other validators unless the set of signers is symmetric. *)
Theorem aggregate_commit_mirrored params commits signers :
  let keys := vb_BLSKey <$> validatorBLSKeys params in
  NoDup (bv_address <$> bp_validators params) → NoDup (bv_blsKey <$> bp_validators params) →
  commits ≠ [] → signed_by params commits signers →
  ∃ ac selected, SingleCommits_Aggregate (commit_keypairs params) commits = Ok ac ∧
    select_keys 0 keys (ac_AggregationBits ac) = Ok selected ∧
    ∀ (i : nat) k, keys !! i = Some k →
      k ∈ selected ↔ ∃ k', keys !! (length keys - S i)%nat = Some k' ∧ k' ∈ bv_blsKey <$> signers.
Proof.
  intros keys Hna Hnk Hne Hs.
  destruct (Aggregate_bits params commits signers Hna Hnk Hne Hs) as (bits & height & -> & _ & Hlen & Hbits).
  fold keys in Hlen, Hbits. destruct (select_keys_spec 0 keys bits) as (l & Hsel & _ & Hmem); [lia|lia|].
  eexists _, l. split; [done|]. split; [done|]. intros i k Hk. rewrite Hmem.
  assert (NoDup keys) as Hndk by (unfold keys; by rewrite sorted_keys_perm).
  pose proof (lookup_lt_Some _ _ _ Hk) as Hlt.
  assert (is_Some (keys !! (length keys - S i)%nat)) as [k' Hk'] by (apply lookup_lt_is_Some; lia).
  assert (Bits.bit bits (Z.of_nat i) = bool_decide (k' ∈ bv_blsKey <$> signers)) as Hb.
  { apply Hbits. rewrite reverse_lookup by done. exact Hk'. }
  split.
  - intros (j & Hj & Hbj). assert (j = i) as -> by (eapply NoDup_lookup; eauto).
    exists k'. split; [done|]. rewrite Z.add_0_l, Hb in Hbj. by apply bool_decide_eq_true in Hbj.
  - intros (k2 & Hk2 & Hin). exists i. split; [done|]. rewrite Z.add_0_l, Hb. apply bool_decide_eq_true. congruence.
Qed.
End mirrored.

Section aggregate.
Context `{Hasher, BLS, ChainReader} (diffStore : ConsensusState).

Lemma next_params_err_height r n err : next_params r = Ok (n, err) → err = true → n = 0.
Proof. destruct r as [m|e| |]; cbn; [by intros [= <- <-]| |done|done]. case_bool_decide; [by intros [= <- <-]|done]. Qed.

(** The guard on the next parameters never fires: it is tested only when there
    are none, with the bound [0 - 1] in uint32. *)
Lemma next_params_guard r n err height :
  next_params r = Ok (n, err) → u32_ok height → err && (u32 (n - 1) <? height) = false.
Proof.
  intros Hr Hh. destruct err; [|done]. rewrite (next_params_err_height _ _ _ Hr eq_refl). cbn.
  apply Z.ltb_ge. unfold u32_ok in Hh. change (u32 (0 - 1)) with (2 ^ 32 - 1). lia.
Qed.

(** The signature check of an aggregate commit. *)
Definition commit_verifies (ac : AggregateCommit) : Prop :=
  ∃ header params keys weight, GetBlockHeaderByHeight (ac_Height ac) = Ok header ∧
    GetBFTParameters_ diffStore (ac_Height ac) = Ok params ∧
    select_weighted 0 (vb_BLSKey <$> validatorBLSKeys params) (vb_BFTWeight <$> validatorBLSKeys params)
      (ac_AggregationBits ac) 0 = Ok (keys, weight) ∧
    bp_certificateThreshold params ≤ weight ∧
    BLS_FastAggregateVerify (ac_CertificateSignature ac) keys
      (certificate_message ChainID (NewCertificateFromBlock header)) = true.

Lemma weighted_iff keys bits signature weights threshold message :
  BLSVerifyWeightedAggSig keys bits signature weights threshold message = Ok true ↔
  ∃ l w, select_weighted 0 keys weights bits 0 = Ok (l, w) ∧ threshold ≤ w ∧
    BLS_FastAggregateVerify signature l message = true.
Proof.
  unfold BLSVerifyWeightedAggSig. split.
  - destruct (select_weighted _ _ _ _ _) as [[l w]|e| |] eqn:E; cbn; [|done..].
    destruct (Z.ltb_spec w threshold); [done|]. intros [= Hv]. by exists l, w.
  - intros (l & w & -> & Hw & Hv). cbn. destruct (Z.ltb_spec w threshold); [lia|]. by rewrite Hv.
Qed.

(** What [verifyAggregateCommit] accepts.  For heights that fit in uint32 the
    check succeeds exactly when the commit is empty and repeats the certified
    height, or its bits and signature are not empty, its height lies strictly
    above the certified height and not above the precommitted height, and the
    signature verifies for the header at that height under keys whose weights
    reach the certificate threshold of that height.  The height of the next BFT
    parameters does not occur, although the code reads it. *)
Theorem verifyAggregateCommit_accepts pv pc mc ac :
  GetBFTHeights_ diffStore = Ok (pv, pc, mc) → u32_ok (ac_Height ac) →
  verifyAggregateCommit diffStore ac = Ok () ↔
    (AggregateCommit_Empty ac = true ∧ ac_Height ac = mc) ∨
    (ac_AggregationBits ac ≠ [] ∧ ac_CertificateSignature ac ≠ [] ∧ mc < ac_Height ac ≤ pc ∧
     (∃ next, next_params (NextHeightBFTParameters_ diffStore (u32 (mc + 1))) = Ok next) ∧ commit_verifies ac).
Proof.
  intros Hh Hu. unfold verifyAggregateCommit. rewrite Hh. cbn [mbind res_bind].
  destruct (AggregateCommit_Empty ac && _) eqn:Ee.
  { apply andb_true_iff in Ee as [Ee1 Ee2%Z.eqb_eq]. split; [by left|done]. }
  assert (¬ (AggregateCommit_Empty ac = true ∧ ac_Height ac = mc)) as Hnot.
  { intros [E1 E2]. by rewrite E1, E2, Z.eqb_refl in Ee. }
  destruct ((len (ac_AggregationBits ac) =? 0) || _) eqn:El.
  { split; [done|]. intros [?|(Hb & Hsg & _)]; [done|]. exfalso.
    apply orb_true_iff in El as [El%Z.eqb_eq|El%Z.eqb_eq]; unfold len in El;
      [apply Hb|apply Hsg]; apply length_zero_iff_nil; lia. }
  apply orb_false_iff in El as [El1%Z.eqb_neq El2%Z.eqb_neq].
  destruct (Z.leb_spec (ac_Height ac) mc); [split; [done|]; intros [?|?]; [done|lia]|].
  destruct (Z.ltb_spec pc (ac_Height ac)); [split; [done|]; intros [?|?]; [done|lia]|].
  destruct (next_params _) as [[n err]|e| |] eqn:En; cbn [mbind res_bind];
    [|split; [done|]; intros [?|(_ & _ & _ & [? ?] & _)]; done..].
  rewrite (next_params_guard _ _ _ _ En Hu). unfold VerifyAggregateCertificateSignature.
  trans (commit_verifies ac).
  - unfold commit_verifies. destruct (GetBlockHeaderByHeight _) as [header|e| |]; cbn [mbind res_bind];
      [|split; [done|]; intros (? & ? & ? & ? & ? & _); done..].
    destruct (GetBFTParameters_ _ _) as [params|e| |]; cbn [mbind res_bind];
      [|split; [done|]; intros (? & ? & ? & ? & _ & ? & _); done..].
    set (r := BLSVerifyWeightedAggSig _ _ _ _ _ _). trans (r = Ok true).
    { destruct r as [[]|e| |]; done. }
    unfold r. rewrite weighted_iff. split.
    + intros (l & w & ? & ? & ?). by exists header, params, l, w.
    + intros (? & ? & l & w & [= <-] & [= <-] & ? & ? & ?). by exists l, w.
  - split; [|by intros [?|(_ & _ & _ & _ & ?)]]. right. split_and!; [| |lia|lia|eauto|done];
      intros E; rewrite E in *; done.
Qed.

(** The commits of the pool at [height] cannot be aggregated. *)
Definition lacks_weight (p : Pool) (height : Z) : Prop :=
  Pool_Get height p = [] ∨
  ∃ params w, GetBFTParameters_ diffStore height = Ok params ∧
    commit_weight (bp_validators params) (Pool_Get height p) 0 = Ok w ∧ w < bp_certificateThreshold params.

(** What the loop returns from [top] downwards. *)
Definition aggregated (p : Pool) (top mc : Z) (ac : AggregateCommit) : Prop :=
  (ac = mkAggregateCommit mc [] [] ∧ ∀ h, mc < h ≤ top → lacks_weight p h) ∨
  (∃ h params w, mc < h ≤ top ∧ Pool_Get h p ≠ [] ∧ GetBFTParameters_ diffStore h = Ok params ∧
    commit_weight (bp_validators params) (Pool_Get h p) 0 = Ok w ∧ bp_certificateThreshold params ≤ w ∧
    SingleCommits_Aggregate (commit_keypairs params) (Pool_Get h p) = Ok ac ∧
    ∀ h', h < h' ≤ top → lacks_weight p h').

Lemma aggregated_below p top mc ac : aggregated p (top - 1) mc ac → lacks_weight p top → aggregated p top mc ac.
Proof.
  intros [[-> Hl]|(h & params & w & Hh & Hne & Hp & Hw & Ht & Ha & Hl)] Hlack.
  - left. split; [done|]. intros h Hh. destruct (decide (h = top)) as [->|]; [done|]. apply Hl. lia.
  - right. exists h, params, w. split_and!; try done; [lia..|]. intros h' Hh'.
    destruct (decide (h' = top)) as [->|]; [done|]. apply Hl. lia.
Qed.

(** The commits of the pool come from validators of their height, as
    [singleCommitValidator] and [Certify] make sure. *)
Definition pool_signed (p : Pool) (mc top : Z) : Prop :=
  ∀ h, mc < h ≤ top → ∃ params signers, GetBFTParameters_ diffStore h = Ok params ∧
    NoDup (bv_address <$> bp_validators params) ∧ NoDup (bv_blsKey <$> bp_validators params) ∧
    signed_by params (Pool_Get h p) signers.

Lemma commit_weight_signed params commits signers acc :
  signed_by params commits signers → ∃ w, commit_weight (bp_validators params) commits acc = Ok w.
Proof.
  intros Hs. revert acc. induction Hs as [|c v commits signers Hf _ IH]; intros acc; [by exists acc|].
  cbn. rewrite Hf. apply IH.
Qed.

Lemma Pool_Get_height h p c : c ∈ Pool_Get h p → SingleCommit_height c = h.
Proof.
  unfold Pool_Get. rewrite elem_of_app, !list_elem_of_In, !filter_In, !Z.eqb_eq. naive_solver.
Qed.

Lemma aggregate_loop_spec fuel p top mc :
  (Z.to_nat (top - mc) < fuel)%nat → pool_signed p mc top →
  ∃ ac, aggregate_loop fuel diffStore p top mc = Ok ac ∧ aggregated p top mc ac ∧
    (ac_Height ac = mc ∨ mc < ac_Height ac ≤ top).
Proof.
  revert top. induction fuel as [|fuel IH]; intros top Hf Hsig; [lia|]. cbn [aggregate_loop].
  destruct (Z.ltb_spec mc top) as [Hlt|Hle].
  2: { eexists. split; [done|]. split; [|by left]. left. split; [done|]. lia. }
  destruct (IH (top - 1)) as (acd & Ed & Had & Hhd); [lia|intros h Hh; apply Hsig; lia|].
  assert (lacks_weight p top → ∃ ac, aggregate_loop fuel diffStore p (top - 1) mc = Ok ac ∧
    aggregated p top mc ac ∧ (ac_Height ac = mc ∨ mc < ac_Height ac ≤ top)) as Hdown.
  { intros Hl. exists acd. split_and!; [done|by apply aggregated_below|lia]. }
  destruct (Z.eqb_spec (len (Pool_Get top p)) 0) as [E|E].
  { apply Hdown. left. unfold len in E. apply length_zero_iff_nil. lia. }
  destruct (Hsig top) as (params & signers & Ep & Hna & Hnk & Hs); [lia|]. rewrite Ep. cbn [mbind res_bind].
  destruct (commit_weight_signed params _ signers 0 Hs) as [w Ew]. rewrite Ew. cbn [mbind res_bind].
  destruct (Z.ltb_spec w (bp_certificateThreshold params)).
  { apply Hdown. right. by exists params, w. }
  assert (Pool_Get top p ≠ []) as Hne by (intros E0; rewrite E0 in E; done).
  destruct (Aggregate_bits params _ signers Hna Hnk Hne Hs) as (bits & height & Ea & Hhead & _).
  eexists. split; [exact Ea|]. split.
  - right. exists top, params, w. split_and!; try done; [lia..|intros; lia].
  - right. destruct (Pool_Get top p) as [|c l] eqn:El; [done|]. injection Hhead as <-. cbn [ac_Height].
    rewrite (Pool_Get_height top p c); [lia|]. rewrite El. left.
Qed.

(** C22: [GetAggregateCommit] selects the highest certifiable height.  When the
    heights are known, the commits in the pool come from validators of their
    height and every height has validators with distinct addresses and keys, the
    function returns an aggregate commit: that of the commits at the greatest
    height above the certified height, and at most the precommitted height and
    the one before the next change of BFT parameters, whose commits weigh the
    certificate threshold or more; or, when no height has them, the empty commit
    at the certified height. *)
Theorem GetAggregateCommit_highest pv pc mc next p :
  let top := match next with Some n => Z.min (u32 (n - 1)) pc | None => pc end in
  GetBFTHeights_ diffStore = Ok (pv, pc, mc) →
  NextHeightBFTParameters_ diffStore (u32 (mc + 1))
    = match next with Some n => Ok n | None => Err ErrDataNotFound end →
  pool_signed p mc top →
  ∃ ac, GetAggregateCommit diffStore p = Ok ac ∧ aggregated p top mc ac ∧
    (ac_Height ac = mc ∨ mc < ac_Height ac ≤ top).
Proof.
  intros top Hh Hn Hsig. unfold GetAggregateCommit. rewrite Hh. cbn [mbind res_bind]. rewrite Hn.
  destruct next as [n|]; cbn [next_params mbind res_bind].
  - rewrite Ints.Min_2. cbn [mbind res_bind]. apply aggregate_loop_spec; [fold top; lia|done].
  - cbn [mbind res_bind]. apply aggregate_loop_spec; [fold top; lia|done].
Qed.

(** ** The pool holds authentic commits *)

(** A commit for the block of the chain at its height, by a validator of that
    height, with a valid signature. *)
Definition authentic (c : SingleCommit) : Prop :=
  ∃ header params validator, GetBlockHeaderByHeight (SingleCommit_height c) = Ok header ∧
    bh_ID header = SingleCommit_blockID c ∧ GetBFTParameters_ diffStore (SingleCommit_height c) = Ok params ∧
    BFTValidators_Find (SingleCommit_validatorAddress c) (bp_validators params) = Some validator ∧
    Certificate_Verify ChainID (SingleCommit_certificateSignature c) (bv_blsKey validator)
      (NewCertificateFromBlock header) = true.

Definition pool_all (P : SingleCommit → Prop) (p : Pool) : Prop := Forall P (nonGossiped p) ∧ Forall P (gossiped p).

Lemma pool_all_Add P c p : pool_all P p → P c → pool_all P (Pool_Add c p).
Proof. intros [H2 H3] Hc. split; [|done]. apply Forall_app. split; [done|by constructor]. Qed.

Lemma keep_commits_sub {St} (checker : Z → St → bool * St) P s st :
  Forall P s → Forall P (keep_commits checker s st).1.
Proof.
  intros Hs. revert st. induction Hs as [|c s Hc _ IH]; intros st; [constructor|]. cbn.
  destruct (checker _ st) as [[] st']; specialize (IH st'); destruct (keep_commits _ _ _) as [rest st'']; [by constructor|done].
Qed.

Lemma pool_all_Cleanup {St} (checker : Z → St → bool * St) P p st :
  pool_all P p → pool_all P (Pool_Cleanup checker p st).1.
Proof.
  intros [H2 H3]. unfold Pool_Cleanup.
  pose proof (keep_commits_sub checker P _ st H3) as K1. destruct (keep_commits _ (gossiped p) st) as [g st'].
  pose proof (keep_commits_sub checker P _ st' H2) as K2. destruct (keep_commits _ (nonGossiped p) st') as [n st''].
  by split.
Qed.

Lemma pool_all_Upgrade P commits p : pool_all P p → pool_all P (Pool_Upgrade commits p).
Proof.
  intros [H2 H3]. unfold Pool_Upgrade. rewrite !Forall_forall in *. split; cbn; apply Forall_forall; intros c.
  - rewrite !list_elem_of_In, filter_In, <-!list_elem_of_In. naive_solver.
  - rewrite elem_of_app, !list_elem_of_In, filter_In, <-!list_elem_of_In. naive_solver.
Qed.

(** [Select] only sorts the two lists. *)
Lemma Pool_Select_perm pc limit p r p' :
  Pool_Select pc limit p = Ok (r, p') → nonGossiped p' ≡ₚ nonGossiped p ∧ gossiped p' ≡ₚ gossiped p.
Proof.
  unfold Pool_Select, take_limit. cbv zeta. cbn [nonGossiped gossiped]. unfold SingleCommits_Sort.
  repeat (case_match; cbn [mbind res_bind]); try (destruct (slice _ _ _); cbn [mbind res_bind]);
    intros [= <- <-]; cbn; rewrite ?sort_slice_Permutation; done.
Qed.

Lemma validate_commit_pool sc p out p' :
  validate_commit diffStore sc p = Ok (out, p') →
  out ≠ Some ValidationAccept ∧ (p' = p ∨ p' = Pool_Add sc p ∧ authentic sc ∧ Pool_Has sc p = false).
Proof.
  unfold validate_commit, or_return. repeat (case_match; cbn [mbind res_bind]); try done;
    try (intros [= <- <-]; split; [done|by left]).
  all: try (destruct (GetMaxRemovalHeight _); cbn [mbind res_bind]; [|done..]).
  all: repeat (case_match; cbn [mbind res_bind]); try done; try (intros [= <- <-]; split; [done|by left]).
  intros [= <- <-]. split; [done|]. right. split_and!; [done| |done].
  unfold authentic. repeat match goal with E : negb _ = false |- _ => apply negb_false_iff in E end.
  eexists _, _, _. split_and!; try done.
  match goal with E : bytes_equal _ _ = true |- _ => exact (bool_decide_eq_true_1 _ E) end.
Qed.

Lemma validate_commits_pool commits p r p' :
  validate_commits diffStore commits p = Ok (r, p') → pool_all authentic p →
  r ≠ ValidationAccept ∧ pool_all authentic p'.
Proof.
  revert p. induction commits as [|c commits IH]; intros p; cbn [validate_commits]; [by intros [= <- <-]|].
  destruct (validate_commit diffStore c p) as [[out p1]|e| |] eqn:E; cbn [mbind res_bind]; [|done..].
  destruct (validate_commit_pool _ _ _ _ E) as [Ho Hp]. intros Hr Hall.
  assert (pool_all authentic p1) as Hall1.
  { destruct Hp as [->|(-> & Ha & _)]; [done|by apply pool_all_Add]. }
  destruct out as [o|]; [|by apply (IH p1)]. injection Hr as <- <-. split; [congruence|done].
Qed.

(** C23: Received commits.  A pool of authentic commits (each for the block of the
    chain at its height, by an active validator, with a valid signature) is
    still one after [singleCommitValidator] has processed any bytes from the
    network and after [broadcastCertificate] has cleaned, selected and upgraded
    it, whatever the network answers; and the validator never answers "accept",
    so messages are not republished. *)
Theorem pool_authentic p publish currentHeight data :
  pool_all authentic p →
  (∀ r p', singleCommitValidator diffStore data p = Ok (r, p') → r ≠ ValidationAccept ∧ pool_all authentic p') ∧
  (∀ err p', broadcastCertificate publish diffStore currentHeight p = Ok (err, p') → pool_all authentic p').
Proof.
  intros Hall. split.
  - intros r p'. unfold singleCommitValidator. destruct (Message_DecodeStrict data) as [m|e| |]; [|by intros [= <- <-]|done|done].
    intros Hr. by eapply validate_commits_pool.
  - intros err p'. unfold broadcastCertificate, or_error.
    destruct (GetBFTHeights_ diffStore) as [[[pv pc] mc]|e| |]; [|by intros [= <- <-]|done|done].
    destruct (GetBlockHeaderByHeight pc) as [header|e| |]; [|by intros [= <- <-]|done|done].
    destruct (GetMaxRemovalHeight header) as [rh|e| |]; cbn [mbind res_bind]; [|done..].
    pose proof (pool_all_Cleanup (cleanup_checker diffStore rh pc) authentic p ∅ Hall) as Hc.
    destruct (Pool_Cleanup _ p ∅) as [p1 st]. cbn in Hc. case_match; [by intros [= <- <-]|].
    destruct (GetBFTParameters_ diffStore currentHeight) as [params|e| |]; [|by intros [= <- <-]|done|done].
    destruct (Pool_Select _ _ _) as [[sel p2]|e| |] eqn:Es; cbn [mbind res_bind]; [|done..].
    apply Pool_Select_perm in Es as [E1 E2].
    assert (pool_all authentic p2) as Hall2 by (destruct Hc; split; [by rewrite E1|by rewrite E2]).
    repeat case_match; intros [= <- <-]; [done|done|by apply pool_all_Upgrade].
Qed.
End aggregate.

(** ** The state of a Lisk-BFT database *)

Section bft_state.
Context {S : Type} `{PebbleLaws S} (store : S) (s : Database).

Definition answer {A} (x : res (A * heap)) : res A := '(a, _) ← x; Ok a.

Definition bft_state (h : heap) : ConsensusState := {|
  GetBFTHeights_ := answer (GetBFTHeights store s h);
  GetBFTParameters_ height := answer (GetBFTParameters store s height h);
  ExistBFTParameters_ height := (ExistBFTParameters store s height h).1;
  NextHeightBFTParameters_ height := answer (NextHeightBFTParameters store s height h);
|}.

(** On a database that represents the votes [v] and the parameters [P], as every
    run of the module gives one (BFTRefine.v), the heights are those of [v] and
    the parameters of tracked heights those of [P]. *)
Lemma bft_state_reads h P v k :
  store_ok store s → bft_rep store s h P v → len (Encode v) < 2 ^ 63 → u32_ok k → low v `min` current v ≤ k →
  GetBFTHeights_ (bft_state h) = Ok (vt_maxHeightPrevoted v, vt_maxHeightPrecommited v, vt_maxHeightCertified v) ∧
  GetBFTParameters_ (bft_state h) k = match P k with Some p => Ok p | None => Err ErrBFTParamsNotFound end.
Proof.
  intros Hst [Hcs Hv Hvok (M & lo & Hrep & Hlo & Hlo' & HP & _)] Hlen Hk Hlow. split.
  - destruct (getVotes_rep store s h v Hcs Hv Hvok Hlen) as (h' & E & _). cbn. unfold GetBFTHeights. by rewrite E.
  - pose proof (getBFTParams_rep store s h M lo k Hst Hcs Hrep Hk ltac:(lia)) as Hg. rewrite HP by done.
    cbn. unfold GetBFTParameters. destruct (params_at M k); [destruct Hg as (h' & -> & _)|destruct Hg as [-> _]]; done.
Qed.

(** Existence is read from the view, so no read of the database changes it. *)
Lemma bft_state_exist h k :
  cache_state store s h →
  ExistBFTParameters_ (bft_state h) k
    = bool_decide (is_Some (view store (deref h (d_cache s)) (d_prefix s ++ dbPrefix storePrefixBFTParams ++ Bytes.FromUint32 k))).
Proof.
  intros [Hwf Hok]. cbn. unfold ExistBFTParameters.
  destruct (Get_refines store (WithPrefix (dbPrefix storePrefixBFTParams) s) h (Bytes.FromUint32 k))
    as (h' & -> & _); [by apply WithPrefix_wf|done|].
  by rewrite d_prefix_WithPrefix, <-app_assoc.
Qed.
End bft_state.

(** ** A concrete instance *)

(** A signature is the key and the message; aggregation concatenates the sorted
    signatures. *)
Definition toy_bls : BLS := {|
  BLS_Verify msg signature publicKey := bytes_equal signature (publicKey ++ msg);
  BLS_Aggregate signatures := concat (sort_slice bytes_ltb signatures);
  BLS_FastAggregateVerify signature keys msg :=
    bytes_equal signature (concat (sort_slice bytes_ltb ((λ k, k ++ msg) <$> keys)));
|}.

Lemma toy_bls_laws : BLSLaws (H := toy_bls).
Proof.
  split. intros msg l keys _ Hl Hk. apply bool_decide_eq_true. cbn. f_equal.
  assert (l.*2 ≡ₚ (λ k, k ++ msg) <$> keys) as Hp.
  { rewrite Hk. clear Hk. induction Hl as [|[pk sg] l Hv _ IH]; [done|]. rewrite !fmap_cons, IH. cbn in *.
    by apply bool_decide_eq_true in Hv as ->. }
  apply (StronglySorted_unique key_le); [apply (sort_slice_sorted _ _ (less_ok_key id))..|].
  by rewrite !sort_slice_Permutation.
Qed.

Definition toy_signer : BLSSigner := {| BLS_Sign msg secretKey := secretKey ++ msg |}.

Definition sample_block_header (height : Z) : BlockHeader :=
  mkBlockHeader [height] 2 0 height [] [] [] [] [] [] 0 0 false [] (Some (mkAggregateCommit 0 [] [])) [].
Definition sample_chain : ChainReader :=
  {| GetBlockHeaderByHeight h := Ok (sample_block_header h); ChainID := [4] |}.
Definition sample_params : BFTParams :=
  mkBFTParams 3 1 1 [mkBFTValidator [1] 1 [10]; mkBFTValidator [2] 1 [20]; mkBFTValidator [3] 1 [30]] [].
Definition sample_state : ConsensusState := {|
  GetBFTHeights_ := Ok (7, 5, 3);
  GetBFTParameters_ _ := Ok sample_params;
  ExistBFTParameters_ _ := false;
  NextHeightBFTParameters_ _ := Err ErrDataNotFound;
|}.

(** The commit of the validator [address] for height 5 with the key [sk]. *)
Definition sample_commit (address sk : bytes) : SingleCommit :=
  NewSingleCommit (H := toy_hash) (H1 := toy_signer) (sample_block_header 5) address [4] sk.

(** Validator 1, whose key is the least, signs alone: the aggregate commit of
    the same node is rejected. *)
Lemma aggregate_commit_mirrored_witness :
  (∃ ac selected, GetAggregateCommit (H0 := toy_bls) sample_state (Pool_Add (sample_commit [1] [10]) NewPool) = Ok ac ∧
    select_keys 0 (vb_BLSKey <$> validatorBLSKeys sample_params) (ac_AggregationBits ac) = Ok selected ∧
    [30] ∈ selected) ∧
  ∃ ac, GetAggregateCommit (H0 := toy_bls) sample_state (Pool_Add (sample_commit [1] [10]) NewPool) = Ok ac ∧
    verifyAggregateCommit (H := toy_hash) (H0 := toy_bls) (H1 := sample_chain) sample_state ac
      = Err (Errorf "invalid certificate received").
Proof.
  split.
  - destruct (aggregate_commit_mirrored (H0 := toy_bls) sample_params [sample_commit [1] [10]]
      [mkBFTValidator [1] 1 [10]]) as (ac & selected & Ha & Hs & Hm).
    + by apply (bool_decide_unpack _); vm_compute.
    + by apply (bool_decide_unpack _); vm_compute.
    + done.
    + repeat constructor.
    + exists ac, selected. split; [|split; [exact Hs|]].
      * rewrite <-Ha. vm_compute. reflexivity.
      * apply (Hm 2%nat [30]); [by vm_compute|]. exists [10]. split; [by vm_compute|left].
  - eexists. split; [vm_compute; reflexivity|]. vm_compute. reflexivity.
Defined.

Lemma verifyAggregateCommit_accepts_witness :
  ∃ ac, GetAggregateCommit (H0 := toy_bls) sample_state (Pool_Add (sample_commit [2] [20]) NewPool) = Ok ac ∧
    verifyAggregateCommit (H := toy_hash) (H0 := toy_bls) (H1 := sample_chain) sample_state ac = Ok ().
Proof.
  eexists. split; [vm_compute; reflexivity|].
  apply (verifyAggregateCommit_accepts (H := toy_hash) (H0 := toy_bls) (H1 := sample_chain) sample_state 7 5 3).
  - reflexivity.
  - unfold u32_ok. cbn. lia.
  - right. split_and!; [done|done|cbn; lia|cbn; lia|by exists (0, true)|].
    eexists _, _, _, _. split_and!; [reflexivity|reflexivity|vm_compute; reflexivity|by vm_compute|by vm_compute].
Defined.

Lemma GetAggregateCommit_highest_witness :
  ∃ ac, GetAggregateCommit (H0 := toy_bls) sample_state (Pool_Add (sample_commit [2] [20]) NewPool) = Ok ac ∧
    (ac_Height ac = 3 ∨ 3 < ac_Height ac ≤ 5).
Proof.
  destruct (GetAggregateCommit_highest (H0 := toy_bls) sample_state 7 5 3 None (Pool_Add (sample_commit [2] [20]) NewPool))
    as (ac & Ha & _ & Hh); [reflexivity|reflexivity| |by exists ac].
  intros h Hh. destruct (decide (h = 5)) as [->|]; [|assert (h = 4) as -> by lia].
  all: eexists sample_params, _; split_and!; [reflexivity|by apply (bool_decide_unpack _); vm_compute..|].
  - instantiate (1 := [mkBFTValidator [2] 1 [20]]). repeat constructor.
  - constructor.
Defined.

(** Commits of full length: the commit of another validator arrives and is
    stored. *)
Definition full_header (height : Z) : BlockHeader :=
  mkBlockHeader (replicate 32 height) 2 0 height [] [] [] [] [] [] 0 0 false [] (Some (mkAggregateCommit 0 [] [])) [].
Definition full_chain : ChainReader :=
  {| GetBlockHeaderByHeight h := Ok (full_header h); ChainID := [4] |}.
Definition full_params : BFTParams :=
  mkBFTParams 3 1 1 [mkBFTValidator (replicate 20 1) 1 (replicate 64 10); mkBFTValidator (replicate 20 2) 1 (replicate 64 20)] [].
Definition full_state : ConsensusState := {|
  GetBFTHeights_ := Ok (7, 5, 3);
  GetBFTParameters_ _ := Ok full_params;
  ExistBFTParameters_ _ := true;
  NextHeightBFTParameters_ _ := Err ErrDataNotFound;
|}.
Definition full_commit (address sk : Z) : SingleCommit :=
  NewSingleCommit (H := toy_hash) (H1 := toy_signer) (full_header 5) (replicate 20 address) [4] (replicate 64 sk).

Lemma pool_authentic_witness :
  ∃ p', singleCommitValidator (H := toy_hash) (H0 := toy_bls) (H1 := full_chain) full_state
      (Encode (mkEventPostSingleCommits [full_commit 1 10])) (Pool_Add (full_commit 2 20) NewPool) = Ok (ValidationIgnore, p') ∧
    pool_all (authentic (H := toy_hash) (H0 := toy_bls) (H1 := full_chain) full_state) p' ∧ Pool_Size p' = 2.
Proof.
  destruct (pool_authentic (H := toy_hash) (H0 := toy_bls) (H1 := full_chain) full_state
    (Pool_Add (full_commit 2 20) NewPool) (λ _, None) 7 (Encode (mkEventPostSingleCommits [full_commit 1 10]))) as [Hv _].
  - apply pool_all_Add; [by split|]. eexists (full_header 5), full_params, (mkBFTValidator (replicate 20 2) 1 (replicate 64 20)).
    split_and!; by vm_compute.
  - eexists. split; [vm_compute; reflexivity|]. split; [|vm_compute; reflexivity].
    refine (proj2 (Hv ValidationIgnore _ _)). vm_compute. reflexivity.
Defined.
