(* ===== verification/StateInv.v ===== *)
(** * StateInv: the Lisk-BFT functions keep the cache of the consensus store

    A consensus store is a view of the state keys of the database.  Every
    function of LiskBFT.v, applied to such a view, keeps its cache consistent
    with the database ([cache_ok]) and within the state keys, so that a commit
    writes no key of another kind and its diff can be reverted. *)

From S2P Require Import Prelude Collection Codec CodecSpec Message Crypto BlockTypes DB DiffDB ForkChoice BFTTypes Votes LiskBFT.

(** Follows a successful computation to the results of its steps. *)
Ltac ok_step :=
  match goal with
  | H : Ok _ = Ok _ |- _ => injection H as ?; subst
  | H : Err _ = Ok _ |- _ => discriminate H
  | H : Panic = Ok _ |- _ => discriminate H
  | H : OutOfFuel = Ok _ |- _ => discriminate H
  | H : mbind _ ?m = Ok _ |- _ =>
      let E := fresh "E" in destruct m eqn:E; cbn [mbind res_bind] in H; [|discriminate H..]
  | H : (let '(_, _) := ?x in _) = Ok _ |- _ => let E := fresh "E" in destruct x eqn:E
  | H : (if ?b then _ else _) = Ok _ |- _ => let E := fresh "E" in destruct b eqn:E
  | H : match ?x with _ => _ end = Ok _ |- _ => let E := fresh "E" in destruct x eqn:E
  end.
Ltac ok_steps := repeat ok_step.

(** ** The updates of the votes *)

Section votes.
Context {C : Type} `{ParamsSource C} (I : C → Prop).
Hypothesis HI : ∀ height c x c', I c → GetParameters height c = Ok (x, c') → I c'.

Lemma precommit_loop_keeps generator m p infos active c infos' active' c' :
  I c → precommit_loop generator m p infos active c = Ok (infos', active', c') → I c'.
Proof using HI.
  revert p active c infos' active' c'. induction infos as [|b infos IH]; intros p active c infos' active' c' Hc E; cbn in E; ok_steps; try done; eauto.
Qed.

Lemma prevote_loop_keeps generator m infos c infos' c' :
  I c → prevote_loop generator m infos c = Ok (infos', c') → I c'.
Proof using HI. revert c infos' c'. induction infos as [|b infos IH]; intros c infos' c' Hc E; cbn in E; ok_steps; try done; eauto. Qed.

Lemma prevoted_loop_keeps infos v c v' c' : I c → prevoted_loop infos v c = Ok (v', c') → I c'.
Proof using HI. revert c. induction infos as [|b infos IH]; intros c Hc E; cbn in E; ok_steps; try done; eauto. Qed.

Lemma precommitted_loop_keeps infos v c v' c' : I c → precommitted_loop infos v c = Ok (v', c') → I c'.
Proof using HI. revert c. induction infos as [|b infos IH]; intros c Hc E; cbn in E; ok_steps; try done; eauto. Qed.

Lemma update_votes_keeps header v c v' c' : I c → update_votes header v c = Ok (v', c') → I c'.
Proof using HI.
  intros Hc E. unfold update_votes, updatePrevotesPrecommits, updateMaxHeightPrevoted, updateMaxHeightPrecommitted in E.
  ok_steps; eauto using precommitted_loop_keeps, prevoted_loop_keeps, prevote_loop_keeps, precommit_loop_keeps.
Qed.
End votes.

(** ** The diff database *)

(** The head byte of the state keys. *)
Definition state_key (k : bytes) : Prop := ∃ x, k = 10 :: x.

Section inv.
Context {S : Type} `{PebbleLaws S} (store : S) (p : nat).
Implicit Types (c : cacheDB) (h : heap) (s : Database).

Definition state_cache c : Prop := cache_ok store c ∧ ∀ k, is_Some (c !! k) → state_key k.

Record heap_inv h : Prop := { hi_alloc : (p < length h)%nat; hi_cache : state_cache (deref h p) }.

Record state_view s : Prop := {
  sv_cache : d_cache s = p;
  sv_length : d_prefixLength s = length (d_prefix s);
  sv_prefix : state_key (d_prefix s);
}.

Lemma state_view_WithPrefix q s : state_view s → state_view (WithPrefix q s).
Proof. intros [? ? [x Hx]]. split; [done|done|]. unfold WithPrefix. cbn [d_prefix]. exists (x ++ q). unfold Bytes.Join. cbn. by rewrite Hx, app_nil_r. Qed.

Lemma state_view_wf s h : state_view s → heap_inv h → wf s h.
Proof. intros [? ? ?] [? ?]. split; [done|]. congruence. Qed.

Lemma getKey_state s key : state_view s → state_key (getKey s key).
Proof. intros [? Hl [x Hx]]. rewrite getKey_app by done. rewrite Hx. by exists (x ++ key). Qed.

Lemma heap_inv_store c h : heap_inv h → state_cache c → heap_inv (store_at p c h).
Proof. intros [Hp _] Hc. split; [unfold store_at; by rewrite length_insert|]. by rewrite deref_store_at. Qed.

(** Only keys of the view enter the cache. *)
Lemma keys_insert c k cv : (∀ k, is_Some (c !! k) → state_key k) → state_key k → ∀ k', is_Some (<[k := cv]> c !! k') → state_key k'.
Proof.
  intros Hc Hk k' Hk'. destruct (decide (k = k')) as [<-|Hne]; [done|]. rewrite lookup_insert_ne in Hk' by done. by apply Hc.
Qed.

Lemma Get_keeps s key h : state_view s → heap_inv h → heap_inv (Database_Get store s key h).2.
Proof using H0.
  intros Hs Hh. pose proof (getKey_state s key Hs) as Hk. destruct (hi_cache _ Hh) as [Hok Hkeys].
  destruct (Get_refines store s h key) as (h' & E & Hf & Hok' & _); [by apply state_view_wf|by rewrite (sv_cache _ Hs)|].
  rewrite E. cbn [snd]. rewrite (sv_cache _ Hs) in *. split; [destruct Hf as [-> _]; apply Hh|]. split; [done|].
  revert E. unfold Database_Get. rewrite (sv_cache _ Hs). destruct (c_get _ _) as [[? []] []]; [intros [= _ <-]; done..|].
  case_match; [|by intros [= _ <-]]. intros [= _ <-]. rewrite deref_store_at by apply Hh. by apply keys_insert.
Qed.

Lemma c_del_keys c k : (∀ k, is_Some (c !! k) → state_key k) → state_key k → ∀ k', is_Some (c_del k c !! k') → state_key k'.
Proof.
  intros Hc Hk. unfold c_del. destruct (c !! k) as [cv|]; [|done]. destruct (cv_init cv); [by apply keys_insert|].
  intros k' [x Hx]. apply lookup_delete_Some in Hx as [_ Hx]. eauto.
Qed.

Lemma Set_keeps s key value h h' : state_view s → heap_inv h → Database_Set store s key value h = Ok h' → heap_inv h'.
Proof using H0.
  intros Hs Hh E. pose proof (getKey_state s key Hs) as Hk. destruct (hi_cache _ Hh) as [Hok Hkeys].
  destruct (Set_refines store s h key value) as (h'' & E' & Hf & Hok' & _); [by apply state_view_wf|by rewrite (sv_cache _ Hs)|].
  rewrite E' in E. injection E as ->. rewrite (sv_cache _ Hs) in *. split; [destruct Hf as [-> _]; apply Hh|]. split; [done|].
  revert E'. unfold Database_Set, ensureCache, c_set, c_cache, c_add. rewrite (sv_cache _ Hs). clear Hok'.
  repeat case_match; simplify_eq; cbn [mbind res_bind]; try done; intros [= <-];
    rewrite deref_store_at by apply Hh; repeat (apply keys_insert; try done).
Qed.

Lemma Del_keeps s key h : state_view s → heap_inv h → heap_inv (Database_Del store s key h).
Proof using H0.
  intros Hs Hh. pose proof (getKey_state s key Hs) as Hk. destruct (hi_cache _ Hh) as [Hok Hkeys].
  destruct (Del_refines store s h key) as (Hf & Hok' & _); [by apply state_view_wf|by rewrite (sv_cache _ Hs)|].
  rewrite (sv_cache _ Hs) in *. split; [destruct Hf as [-> _]; apply Hh|]. split; [done|].
  unfold Database_Del, ensureCache. rewrite (sv_cache _ Hs), deref_store_at by apply Hh. apply c_del_keys; [|done].
  case_match; [|done]. case_match; [|done]. by apply keys_insert.
Qed.

(** An iteration over a range of a view visits state keys only: the upper bound
    of a state key is a state key or the next head byte. *)
Lemma elem_iter_loop stop limit count (l : list (bytes * bytes)) e :
  e ∈ iter_loop stop limit count l → e ∈ l ∧ stop e.1 = false.
Proof.
  revert count. induction l as [|[k v] l IH]; intros count; cbn [iter_loop]; [by intros ?%not_elem_of_nil|].
  destruct (stop k) eqn:Es; [by intros ?%not_elem_of_nil|]. intros [->|He]%elem_of_cons; [split; [left|done]|].
  case_match; [by apply not_elem_of_nil in He|]. apply IH in He as [? ?]. split; [by right|done].
Qed.

Lemma upperBound_state x u : upperBound (10 :: x) = Some u → u = [11] ∨ ∃ y, u = 10 :: y.
Proof.
  unfold upperBound. rewrite reverse_cons. generalize (reverse x). clear. intros l E.
  destruct (upperBound_loop (l ++ [10])) as [r|] eqn:Er; [|done]. injection E as <-. revert r Er.
  induction l as [|b l IH]; intros r; cbn [app upperBound_loop].
  - intros [= <-]. by left.
  - destruct (negb (u8 (b + 1) =? 0)); [|apply IH]. intros [= <-]. right. rewrite reverse_cons, reverse_snoc. by eexists.
Qed.

Lemma state_key_between x K :
  bytes_ltb K (10 :: x) = false → (K = [] → False) → (∀ y t, K = y :: t → y ≤ 10) → state_key K.
Proof.
  intros Hlt Hne Hle. destruct K as [|y t]; [by destruct Hne|]. rewrite bytes_ltb_cons in Hlt.
  apply orb_false_iff in Hlt as [Hlt _]. apply Z.ltb_ge in Hlt. specialize (Hle y t eq_refl).
  assert (y = 10) as -> by lia. by exists t.
Qed.

Lemma IterateRange_state a b limit reversed k v :
  state_key a → state_key b → (k, v) ∈ IterateRange store a b limit reversed → p_get store k = Some v ∧ state_key k.
Proof using H0.
  intros [x ->] [y ->]. unfold IterateRange, iterateRange. destruct reversed; cbn [negb]; intros [Hin Hstop]%elem_iter_loop; cbn [fst] in Hstop.
  - unfold SeekLT in Hin. apply elem_of_reverse, list_elem_of_filter in Hin as [Hlt Hin]. apply p_entries_get in Hin.
    split; [done|]. cbn [fst] in Hlt. apply (state_key_between x); [done|by intros ->|]. intros z t ->.
    destruct (upperBound (10 :: y)) as [u|] eqn:Eu; [|by rewrite bytes_ltb_nil_r in Hlt].
    cbn [default from_option id] in Hlt. apply upperBound_state in Eu as [->|[w ->]]; rewrite bytes_ltb_cons in Hlt.
    + rewrite bytes_ltb_nil_r, andb_false_r, orb_false_r in Hlt. zbool. lia.
    + zbool. lia.
  - apply list_elem_of_filter in Hin as [Hge Hin]. apply p_entries_get in Hin. split; [done|]. cbn [fst] in Hge.
    rewrite bytes_leb_ltb, negb_true_iff in Hge. apply (state_key_between x); [done|by intros ->|]. intros z t ->.
    rewrite bytes_ltb_cons in Hstop. apply orb_false_iff in Hstop as [Hz _]. apply Z.ltb_ge in Hz. lia.
Qed.

Lemma stored_loop_keeps n kv c :
  state_cache c → (∀ k v, (k, v) ∈ kv → p_get store k = Some v ∧ state_key k) → state_cache (stored_loop n kv c).2.
Proof using H0.
  revert c. induction kv as [|[k v] kv IH]; intros c Hc Hkv; [done|]. cbn [stored_loop]. unfold c_get.
  assert (∀ k v, (k, v) ∈ kv → p_get store k = Some v ∧ state_key k) as Hkv' by (intros; apply Hkv; by right).
  destruct (Hkv k v) as [Hg Hk]; [left|]. destruct (c !! k) as [cv|] eqn:Ec.
  - destruct (cv_deleted cv); [by apply IH|]. specialize (IH c Hc Hkv'). destruct (stored_loop n kv c). done.
  - assert (state_cache (c_cache k v c)) as Hc'.
    { destruct Hc as [Hok Hkeys]. split; [by apply c_cache_ok|by apply keys_insert]. }
    specialize (IH _ Hc' Hkv'). destruct (stored_loop n kv _). done.
Qed.

Lemma Range_keeps s a b limit reversed h :
  state_view s → heap_inv h → heap_inv (Database_Range store s a b limit reversed h).2.
Proof using H0.
  intros Hs Hh. unfold Database_Range.
  pose proof (stored_loop_keeps (d_prefixLength s) (IterateRange store (getKey s a) (getKey s b) limit reversed)
    (deref h (d_cache s))) as Hl. destruct (stored_loop _ _ _) as [l c]. cbn [snd] in *. rewrite (sv_cache _ Hs) in *.
  apply heap_inv_store; [done|]. apply Hl; [apply Hh|]. intros k v. apply IterateRange_state; by apply getKey_state.
Qed.
End inv.

Section keeps.
Context {S : Type} `{PebbleLaws S} `{Hasher} (store : S) (p : nat).
Implicit Types (h : heap) (s diffStore : Database).
Abbreviation hinv := (heap_inv store p).
Abbreviation sview := (state_view p).

Lemma Set_keeps_ok s key `{Message M} (value : M) h h' : sview s → hinv h → SetEncodable store s key value h = Ok h' → hinv h'.
Proof using H0. apply Set_keeps. Qed.

Lemma Range_keeps_eq s a b limit reversed h l h' :
  sview s → hinv h → Database_Range store s a b limit reversed h = (l, h') → hinv h'.
Proof using H0. intros Hs Hh E. pose proof (Range_keeps store p s a b limit reversed h Hs Hh) as Hr. by rewrite E in Hr. Qed.

Ltac set_keeps :=
  match goal with
  | Hh : heap_inv _ _ ?h, E : SetEncodable _ _ _ _ ?h = Ok _ |- _ => apply Set_keeps_ok in E; [|by apply state_view_WithPrefix|exact Hh]
  end.

Lemma getVotes_keeps s h v h' : sview s → hinv h → getVotes store s h = Ok (v, h') → hinv h'.
Proof using H0.
  intros Hs Hh E. unfold getVotes, with_heap, GetDecodable in E.
  pose proof (Get_keeps store p (WithPrefix (dbPrefix storePrefixBFTVotes) s) emptyKey h (state_view_WithPrefix p _ _ Hs) Hh) as Hg.
  destruct (Database_Get _ _ _ _) as [val h1]. cbn [fst snd] in *. ok_steps; done.
Qed.

Lemma getBFTParams_keeps s height h x h' : sview s → hinv h → getBFTParams store s height h = Ok (x, h') → hinv h'.
Proof using H0. intros Hs Hh E. unfold getBFTParams in E. ok_steps. by eapply Range_keeps_eq. Qed.

Lemma getGeneratorKeys_keeps s height h x h' : sview s → hinv h → getGeneratorKeys store s height h = Ok (x, h') → hinv h'.
Proof using H0. intros Hs Hh E. unfold getGeneratorKeys in E. ok_steps. by eapply Range_keeps_eq. Qed.

Lemma fold_Del_keeps s (kv : list (bytes * bytes)) h : sview s → hinv h → hinv (foldl (λ h e, Database_Del store s e.1 h) h kv).
Proof using H0. intros Hs. revert h. induction kv as [|e kv IH]; intros h Hh; cbn [foldl]; [done|]. apply IH. by apply Del_keeps. Qed.

Lemma deleteBFTParams_keeps s height h : sview s → hinv h → hinv (deleteBFTParams store s height h).
Proof using H0.
  intros Hs Hh. unfold deleteBFTParams. destruct (Database_Range _ _ _ _ _ _ _) as [kv h1] eqn:E.
  eapply Range_keeps_eq in E; [|done|done]. case_match; [done|]. by apply fold_Del_keeps.
Qed.

Lemma deleteGeneratorKeys_keeps s height h : sview s → hinv h → hinv (deleteGeneratorKeys store s height h).
Proof using H0.
  intros Hs Hh. unfold deleteGeneratorKeys. destruct (Database_Range _ _ _ _ _ _ _) as [kv h1] eqn:E.
  eapply Range_keeps_eq in E; [|done|done]. case_match; [done|]. by apply fold_Del_keeps.
Qed.

(** The parameters cache: its store is a state view. *)
Definition cache_inv (ch : bftParamsCache * heap) : Prop := sview (paramsStore_ ch.1) ∧ hinv ch.2.

Lemma cache_keeps c from to h c' h' : cache_inv (c, h) → cache store c from to h = Ok (c', h') → cache_inv (c', h').
Proof using H0.
  intros [Hs Hh] E. unfold cache in E. cbn [fst snd] in *. ok_steps; (split; [done|]); cbn [snd];
    repeat match goal with
    | E : Database_Range _ _ _ _ _ _ _ = _ |- _ => eapply Range_keeps_eq in E; [|done|done]
    | E : getBFTParams _ _ _ _ = _ |- _ => eapply getBFTParams_keeps in E; [|done|done]
    end; done.
Qed.

Lemma GetParameters_keeps height ch x ch' : cache_inv ch → bftParamsCache_GetParameters store height ch = Ok (x, ch') → cache_inv ch'.
Proof using H0.
  intros [Hs Hh] E. destruct ch as [c h]. unfold bftParamsCache_GetParameters in E. cbn [fst snd] in *.
  ok_steps; split; cbn [fst snd paramsStore_]; try done. by eapply getBFTParams_keeps.
Qed.

Lemma BeforeTransactionsExecute_keeps m header s h h' :
  sview s → hinv h → BeforeTransactionsExecute store m header s h = Ok h' → hinv h'.
Proof using H0.
  intros Hs Hh E. unfold BeforeTransactionsExecute in E. ok_steps.
  pose proof (state_view_WithPrefix p (dbPrefix storePrefixBFTParams) s Hs) as Hp.
  match goal with E : getVotes _ _ _ = _ |- _ => apply getVotes_keeps in E; [|done|done] end.
  match goal with E : cache _ _ _ _ _ = _ |- _ => apply cache_keeps in E; [|done] end.
  match goal with E : update_votes _ _ _ = _ |- _ => eapply (update_votes_keeps cache_inv) in E as [_ E]; [|apply GetParameters_keeps|done] end.
  apply deleteGeneratorKeys_keeps; [by apply state_view_WithPrefix|]. apply deleteBFTParams_keeps; [done|].
  cbn [snd] in *. set_keeps. done.
Qed.

Lemma SetBFTParameters_keeps a s pre cert validators h h' :
  sview s → hinv h → SetBFTParameters store a s pre cert validators h = Ok h' → hinv h'.
Proof using H0.
  intros Hs Hh E. pose proof (state_view_WithPrefix p (dbPrefix storePrefixBFTParams) s Hs) as Hp.
  unfold SetBFTParameters in E. ok_steps.
  all: match goal with E : getVotes _ _ _ = _ |- _ => apply getVotes_keeps in E; [|done|done] end.
  all: repeat match goal with
    | E : getBFTParams _ _ _ _ = Ok _ |- _ => apply getBFTParams_keeps in E; [|done|done]
    end.
  all: try (by apply Range_keeps); try done.
  all: try match goal with Hh : heap_inv _ _ ?h |- context [Database_Range ?st ?s ?a ?b ?l ?r ?h] => pose proof (Range_keeps st p s a b l r h Hp Hh) end.
  all: try match goal with Hh : heap_inv _ _ ?h, E : context [Database_Range ?st ?s ?a ?b ?l ?r ?h] |- _ =>
    pose proof (Range_keeps st p s a b l r h Hp Hh) end.
  all: repeat set_keeps; done.
Qed.

Lemma SetGeneratorKeys_keeps s generators h h' : sview s → hinv h → SetGeneratorKeys store s generators h = Ok h' → hinv h'.
Proof using H0.
  intros Hs Hh E. unfold SetGeneratorKeys in E. ok_steps;
    (match goal with E : getVotes _ _ _ = _ |- _ => apply getVotes_keeps in E; [|done|done] end; by set_keeps).
Qed.

Lemma InitGenesisState_keeps header s h h' : sview s → hinv h → InitGenesisState store header s h = Ok h' → hinv h'.
Proof using H0. intros Hs Hh. apply Set_keeps_ok; [by apply state_view_WithPrefix|done]. Qed.

Lemma GetBFTHeights_keeps s h x h' : sview s → hinv h → GetBFTHeights store s h = Ok (x, h') → hinv h'.
Proof using H0. intros Hs Hh E. unfold GetBFTHeights in E. ok_steps. by eapply getVotes_keeps. Qed.

Lemma IsHeaderContradictingChain_keeps s header h x h' : sview s → hinv h → IsHeaderContradictingChain store s header h = Ok (x, h') → hinv h'.
Proof using H0. intros Hs Hh E. unfold IsHeaderContradictingChain in E. ok_steps. by eapply getVotes_keeps. Qed.

Lemma ImpliesMaximalPrevotes_keeps s header h x h' : sview s → hinv h → ImpliesMaximalPrevotes store s header h = Ok (x, h') → hinv h'.
Proof using H0. intros Hs Hh E. unfold ImpliesMaximalPrevotes in E. ok_steps; by eapply getVotes_keeps. Qed.

Lemma GetBFTParameters_keeps s height h x h' : sview s → hinv h → GetBFTParameters store s height h = Ok (x, h') → hinv h'.
Proof using H0. intros Hs Hh. apply getBFTParams_keeps; [by apply state_view_WithPrefix|done]. Qed.

Lemma GetGeneratorKeys_keeps s height h x h' : sview s → hinv h → GetGeneratorKeys store s height h = Ok (x, h') → hinv h'.
Proof using H0. intros Hs Hh E. unfold GetGeneratorKeys in E. ok_steps. eapply getGeneratorKeys_keeps; [apply state_view_WithPrefix, Hs|done|done]. Qed.
End keeps.

(** Closes the invariant after a function of the API. *)
Ltac keeps :=
  lazymatch goal with
  | E : BeforeTransactionsExecute _ _ _ _ _ = Ok _ |- _ => eapply BeforeTransactionsExecute_keeps
  | E : SetBFTParameters _ _ _ _ _ _ _ = Ok _ |- _ => eapply SetBFTParameters_keeps
  | E : SetGeneratorKeys _ _ _ _ = Ok _ |- _ => eapply SetGeneratorKeys_keeps
  | E : InitGenesisState _ _ _ _ = Ok _ |- _ => eapply InitGenesisState_keeps
  | E : GetBFTHeights _ _ _ = Ok _ |- _ => eapply GetBFTHeights_keeps
  | E : IsHeaderContradictingChain _ _ _ _ = Ok _ |- _ => eapply IsHeaderContradictingChain_keeps
  | E : ImpliesMaximalPrevotes _ _ _ _ = Ok _ |- _ => eapply ImpliesMaximalPrevotes_keeps
  | E : GetBFTParameters _ _ _ _ = Ok _ |- _ => eapply GetBFTParameters_keeps
  | E : GetGeneratorKeys _ _ _ _ = Ok _ |- _ => eapply GetGeneratorKeys_keeps
  end; eassumption.
