(* ===== verification/Execute.v ===== *)
(** * Execute: processing, verifying and deleting blocks

    pkg/consensus: execute.go, verify.go and abi_caller.go, with
    pkg/consensus/liskbft/convert.go.  The executer is written in a monad [exec]
    over its state: the chain with its database, the caches of the diff databases
    (a heap, see DiffDB.v), the state of the application, the commit pool and
    what was published.  The application (labi.ABI) is a parameter, as are the
    clock, the iteration order of Go maps and the syncer. *)

From S2P Require Import Prelude Collection Codec CodecSpec Message Crypto RMT BlockTypes Block DB DiffDB Event ForkChoice BFTTypes Votes LiskBFT LabiTypes NetTypes Certificate DataAccess Commits.

(** ** liskbft/convert.go *)

Definition GetBFTValidatorAndGenerators (validators : list LabiValidator) : list BFTValidator * list Generator :=
  ((λ v, mkBFTValidator (LabiValidator_Address v) (LabiValidator_BFTWeight v) (LabiValidator_BLSKey v))
     <$> List.filter (λ v, 0 <? LabiValidator_BFTWeight v) validators,
   (λ v, NewGenerator (LabiValidator_Address v) (LabiValidator_GeneratorKey v)) <$> validators).

Definition GetLabiValidators (validators : list BFTValidator) (generators : list Generator) : list LabiValidator :=
  (λ generator,
     match BFTValidators_Find (gn_address generator) validators with
     | Some validator =>
         mkLabiValidator (gn_address generator) (bv_bftWeight validator) (gn_generatorKey generator) (bv_blsKey validator)
     | None => mkLabiValidator (gn_address generator) 0 (gn_generatorKey generator) []
     end) <$> generators.

(** ** The application *)

Definition TxExecuteResultSuccess : Z := 1.

(** The methods of labi.ABI the executer calls, on the state of the
    application. *)
Class Application (A : Type) := {
  app_InitStateMachine : InitStateMachineRequest → A → res InitStateMachineResponse * A;
  app_InitGenesisState : InitGenesisStateRequest → A → res InitGenesisStateResponse * A;
  app_VerifyAssets : VerifyAssetsRequest → A → res () * A;
  app_BeforeTransactionsExecute : BeforeTransactionsExecuteRequest → A → res BeforeTransactionsExecuteResponse * A;
  app_VerifyTransaction : VerifyTransactionRequest → A → res VerifyTransactionResponse * A;
  app_ExecuteTransaction : ExecuteTransactionRequest → A → res ExecuteTransactionResponse * A;
  app_AfterTransactionsExecute : AfterTransactionsExecuteRequest → A → res AfterTransactionsExecuteResponse * A;
  app_Commit : CommitRequest → A → res CommitResponse * A;
  app_Revert : RevertRequest → A → res RevertResponse * A;
  app_Clear : A → A;
}.

(** What is published with [c.events]. *)
Inductive consensus_event :=
| NetworkBlockNew (block : Block)
| BlockNew (block : Block) (events : list Event)
| BlockDelete (block : Block)
| BlockFinalize (original next : Z) (trigger : BlockHeader)
| ValidatorsChange (params : NextValidatorParams).

Section execute.
Context {S A : Type} `{Pebble S} `{Norm, Hasher, BLS, Ed25519, Application A}.

Record executer := mkExecuter {
  x_chain : Chain S;
  x_heap : heap;
  x_app : A;
  x_pool : Pool;
  x_syncying : bool;
  x_lastBlockReceived : option Z;
  x_events : list consensus_event;
  x_published : list bytes;
}.

(** ** The monad *)

Definition exec (T : Type) : Type := executer → res T * executer.

Definition ret {T} (x : T) : exec T := λ s, (Ok x, s).
Definition fail {T} (e : error) : exec T := λ s, (Err e, s).

#[export] Instance exec_bind : MBind exec := λ T U f m s,
  let '(r, s) := m s in
  match r with
  | Ok x => f x s
  | Err e => (Err e, s)
  | Panic => (Panic, s)
  | OutOfFuel => (OutOfFuel, s)
  end.

Definition lift {T} (x : res T) : exec T := λ s, (x, s).
Definition gets {T} (f : executer → T) : exec T := λ s, (Ok (f s), s).

Definition set_x_chain (c : Chain S) (s : executer) : executer :=
  mkExecuter c (x_heap s) (x_app s) (x_pool s) (x_syncying s) (x_lastBlockReceived s) (x_events s) (x_published s).
Definition set_x_heap (h : heap) (s : executer) : executer :=
  mkExecuter (x_chain s) h (x_app s) (x_pool s) (x_syncying s) (x_lastBlockReceived s) (x_events s) (x_published s).
Definition set_x_app (a : A) (s : executer) : executer :=
  mkExecuter (x_chain s) (x_heap s) a (x_pool s) (x_syncying s) (x_lastBlockReceived s) (x_events s) (x_published s).
Definition set_x_syncying (b : bool) (s : executer) : executer :=
  mkExecuter (x_chain s) (x_heap s) (x_app s) (x_pool s) b (x_lastBlockReceived s) (x_events s) (x_published s).
Definition set_x_lastBlockReceived (t : option Z) (s : executer) : executer :=
  mkExecuter (x_chain s) (x_heap s) (x_app s) (x_pool s) (x_syncying s) t (x_events s) (x_published s).
Definition add_x_event (e : consensus_event) (s : executer) : executer :=
  mkExecuter (x_chain s) (x_heap s) (x_app s) (x_pool s) (x_syncying s) (x_lastBlockReceived s) (x_events s ++ [e]) (x_published s).
Definition add_x_published (data : bytes) (s : executer) : executer :=
  mkExecuter (x_chain s) (x_heap s) (x_app s) (x_pool s) (x_syncying s) (x_lastBlockReceived s) (x_events s) (x_published s ++ [data]).

Definition modify (f : executer → executer) : exec () := λ s, (Ok (), f s).

(** [c.database]. *)
Definition x_database (s : executer) : S := da_database (dataAccess (x_chain s)).

(** A function of the diff database: it reads the persisted store. *)
Definition on_heap {T} (f : S → heap → res (T * heap)) : exec T := λ s,
  match f (x_database s) (x_heap s) with
  | Ok (x, h) => (Ok x, set_x_heap h s)
  | Err e => (Err e, s)
  | Panic => (Panic, s)
  | OutOfFuel => (OutOfFuel, s)
  end.

Definition on_heap_ (f : S → heap → res heap) : exec () :=
  on_heap (λ store h, h ← f store h; Ok ((), h)).

(** A call of the application. *)
Definition call {T} (f : A → res T * A) : exec T := λ s,
  let '(r, a) := f (x_app s) in (r, set_x_app a s).

(** [defer f()]. *)
Definition deferred {T} (f : executer → executer) (m : exec T) : exec T := λ s,
  let '(r, s) := m s in (r, f s).

Definition publish_event (e : consensus_event) : exec () := modify (add_x_event e).

(** [diffdb.New(c.database, blockchain.DBPrefixToBytes(blockchain.DBPrefixState))]. *)
Definition new_diffStore : exec Database := λ s,
  let '(d, h) := New (DBPrefixToBytes DBPrefixState) (x_heap s) in (Ok d, set_x_heap h s).

Definition chain_reader (c : Chain S) : ChainReader :=
  {| GetBlockHeaderByHeight := da_GetBlockHeaderByHeight (dataAccess c); ChainID := chainID c |}.

(** ** verify.go *)

Definition verifyBlock (slot : BlockSlot) (now : Z) (consensusStore : Database) (block : Block) : exec () :=
  blockHeader ← lift (header_of block);
  if negb (bh_Version blockHeader =? 2) then fail (Errorf "block header version must be 2")
  else
    lastBlockHeader ← (λ s, lift (last_header (x_chain s)) s);
    if negb (bh_Height blockHeader =? u32 (bh_Height lastBlockHeader + 1))
    then fail (Errorf "block header is not consecutive from last block height")
    else if negb (bytes_equal (bh_ID lastBlockHeader) (bh_PreviousBlockID blockHeader))
    then fail (Errorf "invalid previous block id")
    else
      let blockSlot := GetSlotNumber slot (bh_Timestamp blockHeader) in
      let currentBlockSlot := GetSlotNumber slot (u32 now) in
      let lastBlockSlot := GetSlotNumber slot (bh_Timestamp lastBlockHeader) in
      if currentBlockSlot <? blockSlot then fail (Errorf "future block is invalid")
      else if blockSlot <=? lastBlockSlot then fail (Errorf "block is invalid because less or equal to last block slot")
      else
        generators ← on_heap (λ store, GetGeneratorKeys store consensusStore (bh_Height blockHeader));
        generator ← lift (AtTimestamp slot generators (bh_Timestamp blockHeader));
        if negb (bytes_equal (gn_address generator) (bh_GeneratorAddress blockHeader))
        then fail (Errorf "invalid block generator")
        else
          '(maxHeightPrevoted, _, _) ← on_heap (λ store, GetBFTHeights store consensusStore);
          if negb (bh_MaxHeightPrevoted blockHeader =? maxHeightPrevoted)
          then fail (Errorf "invalid maxHeight prevoted")
          else
            contradicting ← on_heap (λ store, IsHeaderContradictingChain store consensusStore blockHeader);
            if (contradicting : bool) then fail (Errorf "received contradicting block header")
            else
              _ ← (λ s, match bh_AggregateCommit blockHeader with
                        | None => (Panic, s)
                        | Some ac =>
                            (verifyAggregateCommit (H1 := chain_reader (x_chain s))
                               (bft_state (x_database s) consensusStore (x_heap s)) ac, s)
                        end);
              valid ← gets (λ s, BlockHeader_VerifySignature (chainID (x_chain s)) (gn_generatorKey generator) blockHeader);
              if negb valid then fail (Errorf "invalid signature received") else ret ().

(** ** abi_caller.go *)

(** The fields of [stateExecuter] that change: the context and the events. *)
Record stateExecuter := mkStateExecuter { se_contextID : bytes; se_events : list Event }.

Definition newBlockExecuteABI (header : BlockHeader) : exec stateExecuter :=
  resp ← call (app_InitStateMachine (mkInitStateMachineRequest (Some header)));
  ret (mkStateExecuter (InitStateMachineResponse_ContextID resp) []).

Definition stateExecuter_Verify (c : stateExecuter) (block : Block) : exec () :=
  call (app_VerifyAssets (mkVerifyAssetsRequest (se_contextID c) (b_Assets block))).

Definition getABIConsensus (diffStore : Database) (header : BlockHeader) : exec LabiConsensus :=
  params ← on_heap (λ store, GetBFTParameters store diffStore (bh_Height header));
  generators ← on_heap (λ store, GetGeneratorKeys store diffStore (bh_Height header));
  impliesMaxPrevote ← on_heap (λ store, ImpliesMaximalPrevotes store diffStore header);
  '(_, _, maxHeightCertified) ← on_heap (λ store, GetBFTHeights store diffStore);
  ret (mkLabiConsensus (GetLabiValidators (bp_validators params) generators) impliesMaxPrevote maxHeightCertified
         (bp_certificateThreshold params)).

Fixpoint execute_transactions (contextID : bytes) (block : Block) (txs : list Transaction) (events : list Event)
    : exec (list Event) :=
  match txs with
  | [] => ret events
  | tx :: txs =>
      txVerifyRes ← call (app_VerifyTransaction (mkVerifyTransactionRequest contextID (Some tx)));
      if negb (VerifyTransactionResponse_Result txVerifyRes =? TxExecuteResultSuccess)
      then fail (Errorf "failed to execute transaction")
      else
        txResp ← call (app_ExecuteTransaction
                         (mkExecuteTransactionRequest contextID (Some tx) (b_Assets block) false (b_Header block) None));
        execute_transactions contextID block txs (events ++ ExecuteTransactionResponse_Events txResp)
  end.

Definition set_validators (bft : Module_) (diffStore : Database) (preCommitThreshold certificateThreshold : Z)
    (nextValidators : list LabiValidator) : exec () :=
  let '(bftValidators, generators) := GetBFTValidatorAndGenerators nextValidators in
  _ ← on_heap_ (λ store, SetBFTParameters store (m_api bft) diffStore preCommitThreshold certificateThreshold bftValidators);
  on_heap_ (λ store, SetGeneratorKeys store diffStore generators).

Definition stateExecuter_Execute (bft : Module_) (c : stateExecuter) (diffStore : Database) (block : Block)
    : exec (option NextValidatorParams * stateExecuter) :=
  header ← lift (header_of block);
  _ ← on_heap_ (λ store, BeforeTransactionsExecute store bft header diffStore);
  consensus ← getABIConsensus diffStore header;
  beforeTxsResp ← call (app_BeforeTransactionsExecute
                          (mkBeforeTransactionsExecuteRequest (se_contextID c) (b_Assets block) (Some consensus)));
  let events := se_events c ++ BeforeTransactionsExecuteResponse_Events beforeTxsResp in
  events ← execute_transactions (se_contextID c) block (b_Transactions block) events;
  resp ← call (app_AfterTransactionsExecute
                 (mkAfterTransactionsExecuteRequest (se_contextID c) (b_Assets block) (Some consensus) (b_Transactions block)));
  let events := UpdateIndex (events ++ AfterTransactionsExecuteResponse_Events resp) in
  let pre := AfterTransactionsExecuteResponse_PreCommitThreshold resp in
  let cert := AfterTransactionsExecuteResponse_CertificateThreshold resp in
  let next := AfterTransactionsExecuteResponse_NextValidators resp in
  if negb (pre =? 0) || negb (cert =? 0) || negb (len next =? 0) then
    _ ← set_validators bft diffStore pre cert next;
    ret (Some (mkNextValidatorParams next pre cert), mkStateExecuter (se_contextID c) events)
  else ret (None, mkStateExecuter (se_contextID c) events).

Definition stateExecuter_Commit (c : stateExecuter) (currentStateRoot expectedStateRoot : bytes) : exec () :=
  _ ← call (app_Commit (mkCommitRequest (se_contextID c) currentStateRoot expectedStateRoot false));
  ret ().

Definition app_clear (s : executer) : executer := set_x_app (app_Clear (x_app s)) s.

(** [genesisStateExecuter]. *)
Definition ExecuteGenesis (bft : Module_) (c : stateExecuter) (diffStore : Database) (block : Block)
    : exec stateExecuter :=
  header ← lift (header_of block);
  _ ← on_heap_ (λ store, InitGenesisState store header diffStore);
  resp ← call (app_InitGenesisState (mkInitGenesisStateRequest (se_contextID c)));
  _ ← set_validators bft diffStore (InitGenesisStateResponse_PreCommitThreshold resp)
        (InitGenesisStateResponse_CertificateThreshold resp) (InitGenesisStateResponse_NextValidators resp);
  ret (mkStateExecuter (se_contextID c) (UpdateIndex (se_events c ++ InitGenesisStateResponse_Events resp))).

(** [stateReverter.Revert] with the header of the reverter. *)
Definition stateReverter_Revert (contextID : bytes) (header : BlockHeader) (expectedStateRoot : bytes) : exec () :=
  _ ← call (app_Revert (mkRevertRequest contextID (bh_StateRoot header) expectedStateRoot));
  ret ().

(** ** execute.go *)

Definition diff_key (height : Z) : bytes := db_key DBPrefixStateDiff (Bytes.FromUint32 height).

(** The runtime panics when a slice grows longer than the largest int. *)
Definition go_bytes (b : bytes) : res bytes := if len b <? 2 ^ 63 then Ok b else Panic.

(** [consensusStore.Commit(batch)]: [commit_order] is the order in which Go
    iterates over the cache. *)
Context (commit_order : cacheDB → list (bytes * cacheValue)).

Definition commit_store (consensusStore : Database) (batch : Batch) (s : executer) : Batch * Diff :=
  Database_Commit consensusStore (commit_order (deref (x_heap s) (d_cache consensusStore))) batch.

(** The deletion of the diffs below the finalized height: [key[1:]] and
    [ToUint32] panic on short keys. *)
Fixpoint delete_diffs (maxHeightPrecommited : Z) (keys : list bytes) (batch : Batch) : res Batch :=
  match keys with
  | [] => Ok batch
  | key :: keys =>
      heightByte ← slice key 1 (len key);
      height ← Bytes.ToUint32 heightByte;
      delete_diffs maxHeightPrecommited keys (if height <? maxHeightPrecommited then Batch_Del key batch else batch)
  end.

Definition add_block (batch : Batch) (block : Block) (events : list Event) (finalizedHeight : Z) (removeTemp : bool)
    : exec () := λ s,
  let '(r, c) := AddBlock batch block events finalizedHeight removeTemp (x_chain s) in (r, set_x_chain c s).

Definition finalized_height : exec Z := λ s, (GetFinalizedHeight (dataAccess (x_chain s)), s).

(** The block is published by a goroutine of its own. *)
Definition processValidated (bft : Module_) (slot : BlockSlot) (now : Z) (block : Block) (publish removeTemp : bool)
    : exec () :=
  consensusStore ← new_diffStore;
  _ ← verifyBlock slot now consensusStore block;
  header ← lift (header_of block);
  abi ← newBlockExecuteABI header;
  deferred app_clear (
    _ ← stateExecuter_Verify abi block;
    _ ← modify (λ s, if publish then add_x_published (Block_Encode block) s else s);
    '(nextValidatorParams, abi) ← stateExecuter_Execute bft abi consensusStore block;
    resultParams ← on_heap (λ store, GetBFTParameters store consensusStore (u32 (bh_Height header + 1)));
    if negb (bytes_equal (bp_validatorsHash resultParams) (bh_ValidatorsHash header))
    then fail (Errorf "invalid validatorsHash")
    else if MaxEventsPerBlock <? len (se_events abi) then fail (Errorf "invalid number of events")
    else
      currentFinalziedHeight ← finalized_height;
      '(_, maxHeightPrecommited, _) ← on_heap (λ store, GetBFTHeights store consensusStore);
      '(batch, diff) ← gets (commit_store consensusStore []);
      diffBytes ← lift (go_bytes (Encode diff));
      let batch := Batch_Set (diff_key (bh_Height header)) diffBytes batch in
      lastHeader ← (λ s, lift (last_header (x_chain s)) s);
      _ ← stateExecuter_Commit abi (bh_StateRoot lastHeader) (bh_StateRoot header);
      let finalizedHeightUpdated := currentFinalziedHeight <? maxHeightPrecommited in
      let nextFinalizedHeight := if finalizedHeightUpdated then maxHeightPrecommited else currentFinalziedHeight in
      batch ← (λ s, if finalizedHeightUpdated
                    then lift (delete_diffs maxHeightPrecommited
                                 (IterateKey (x_database s) (DBPrefixToBytes DBPrefixStateDiff) (-1) false) batch) s
                    else ret batch s);
      _ ← add_block batch block (se_events abi) nextFinalizedHeight removeTemp;
      _ ← (if finalizedHeightUpdated
           then publish_event (BlockFinalize currentFinalziedHeight maxHeightPrecommited header) else ret ());
      _ ← publish_event (BlockNew block (se_events abi));
      match nextValidatorParams with
      | Some params => publish_event (ValidatorsChange params)
      | None => ret ()
      end).

Definition processGenesisBlock (bft : Module_) (block : Block) : exec () :=
  _ ← lift (Block_ValidateGenesis block);
  consensusStore ← new_diffStore;
  header ← lift (header_of block);
  abi ← newBlockExecuteABI header;
  deferred app_clear (
    abi ← ExecuteGenesis bft abi consensusStore block;
    resultParams ← on_heap (λ store, GetBFTParameters store consensusStore (u32 (bh_Height header + 1)));
    if negb (bytes_equal (bp_validatorsHash resultParams) (bh_ValidatorsHash header))
    then fail (Errorf "invalid validatorsHash")
    else
      calculatedEventRoot ← lift (CalculateEventRoot (se_events abi));
      if negb (bytes_equal calculatedEventRoot (bh_EventRoot header)) then fail (Errorf "invalid event root")
      else
        '(batch, diff) ← gets (commit_store consensusStore []);
        diffBytes ← lift (go_bytes (Encode diff));
        let batch := Batch_Set (diff_key (bh_Height header)) diffBytes batch in
        _ ← stateExecuter_Commit abi [] (bh_StateRoot header);
        add_block batch block (se_events abi) (bh_Height header) false).

Definition deleteBlock (deletingBlock : Block) (saveTemp : bool) : exec () :=
  finalizedHeight ← finalized_height;
  header ← lift (header_of deletingBlock);
  if bh_Height header <=? finalizedHeight then fail (Errorf "block height cannot be deleted")
  else
    secondLastBlock ← (λ s, lift (da_GetBlockHeaderByHeight (dataAccess (x_chain s)) (u32 (bh_Height header - 1))) s);
    diffStore ← new_diffStore;
    abi ← newBlockExecuteABI header;
    deferred app_clear (
      diffBytes ← gets (λ s, Get (x_database s) (diff_key (bh_Height header)));
      match diffBytes with
      | None => fail (Errorf "database key for diff does not exist")
      | Some diffBytes =>
          diff ← lift (Message_Decode (A := Diff) diffBytes);
          let batch := RevertDiff [] diff in
          let batch := Batch_Del (diff_key (bh_Height header)) batch in
          _ ← stateReverter_Revert (se_contextID abi) header (bh_StateRoot secondLastBlock);
          _ ← (λ s, match RemoveBlock batch saveTemp (x_chain s) with
                    | Ok c => (Ok (), set_x_chain c s)
                    | Err e => (Err e, s)
                    | Panic => (Panic, s)
                    | OutOfFuel => (OutOfFuel, s)
                    end);
          publish_event (BlockDelete deletingBlock)
      end).

(** [SyncContext] of pkg/consensus/sync without the Go context. *)
Record SyncContext := mkSyncContext {
  sy_Block : Block;
  sy_FinalizedBlockHeader : BlockHeader;
  sy_PeerID : bytes;
  sy_CurrentValidators : list bytes;
}.

Definition createSyncContext (block : Block) (peerID : bytes) : exec SyncContext :=
  diffStore ← new_diffStore;
  lastHeader ← (λ s, lift (last_header (x_chain s)) s);
  params ← on_heap (λ store, GetBFTParameters store diffStore (u32 (bh_Height lastHeader + 1)));
  finalizedHeight ← finalized_height;
  header ← (λ s, lift (da_GetBlockHeaderByHeight (dataAccess (x_chain s)) finalizedHeight) s);
  ret (mkSyncContext block header peerID (bv_address <$> bp_validators params)).

(** Errors of the tie break are logged: the original block is processed again,
    and its error is dropped too. *)
Definition logged (m : exec ()) : exec bool := λ s,
  let '(r, s) := m s in
  match r with
  | Ok _ => (Ok true, s)
  | Err _ => (Ok false, s)
  | Panic => (Panic, s)
  | OutOfFuel => (OutOfFuel, s)
  end.

(** An empty peer ID is an internal block, which is published.  [now] is the
    one reading of the clock for the whole of [process]: the fork choice and
    [verifyBlock], which call [time.Now] one after the other. *)
Definition is_internal (peerID : bytes) : bool := bool_decide (peerID = []).

Definition process (syncer_Sync : SyncContext → exec ()) (bft : Module_) (slot : BlockSlot) (now : Z) (block : Block)
    (peerID : bytes) : exec () :=
  lastBlock ← (λ s, lift (last_block (x_chain s)) s);
  lastHeader ← lift (header_of lastBlock);
  header ← lift (header_of block);
  lastReceived ← gets x_lastBlockReceived;
  match fork_choice (NewForkChoice lastHeader header slot lastReceived now) with
  | IdenticalBlock => ret ()
  | ValidBlock =>
      _ ← modify (set_x_lastBlockReceived (Some now));
      _ ← lift (Block_Validate block);
      processValidated bft slot now block (is_internal peerID) false
  | DoubleForging => ret ()
  | TieBreak =>
      _ ← modify (set_x_lastBlockReceived (Some now));
      _ ← lift (Block_Validate block);
      _ ← deleteBlock lastBlock false;
      ok ← logged (processValidated bft slot now block (is_internal peerID) false);
      if (ok : bool) then ret ()
      else _ ← logged (processValidated bft slot now lastBlock (is_internal peerID) false); ret ()
  | DifferentChain =>
      sContext ← createSyncContext block peerID;
      _ ← modify (set_x_syncying true);
      deferred (set_x_syncying false) (syncer_Sync sContext)
  | Discarding => ret ()
  end.

(** The p2p validator of blocks and the queue of 200 blocks. *)
Definition blockValidator (data : bytes) : res ValidationResult :=
  match NewBlock data with
  | Ok block =>
      match Block_Validate block with
      | Ok _ => Ok ValidationAccept
      | Err _ => Ok ValidationReject
      | Panic => Panic
      | OutOfFuel => OutOfFuel
      end
  | Err _ => Ok ValidationReject
  | Panic => Panic
  | OutOfFuel => OutOfFuel
  end.

Definition enqueue (block : Block) (peerID : bytes) (processCh : list (Block * bytes)) : list (Block * bytes) :=
  if len processCh <? 200 then processCh ++ [(block, peerID)] else processCh.

(** An undecodable block panics; the validator has decoded it before. *)
Definition onBlockReceived (data peerID : bytes) (processCh : list (Block * bytes)) (s : executer)
    : res (list (Block * bytes)) * executer :=
  match NewBlock data with
  | Ok block => (Ok (enqueue block peerID processCh), add_x_event (NetworkBlockNew block) s)
  | OutOfFuel => (OutOfFuel, s)
  | _ => (Panic, s)
  end.

Definition AddInternal (block : Block) (processCh : list (Block * bytes)) : list (Block * bytes) :=
  enqueue block [] processCh.

Definition Synced (height maxHeightPrevoted maxHeightPreviouslyForged : Z) : exec bool :=
  lastBlockHeader ← (λ s, lift (last_header (x_chain s)) s);
  if bh_Version lastBlockHeader =? 0
  then ret ((height <=? bh_Height lastBlockHeader) && (maxHeightPrevoted <=? bh_Height lastBlockHeader))
  else
    consensusStore ← new_diffStore;
    '(currentMaxHeightPrevoted, _, _) ← on_heap (λ store, GetBFTHeights store consensusStore);
    ret ((maxHeightPrevoted <? currentMaxHeightPrevoted)
         || ((maxHeightPrevoted =? currentMaxHeightPrevoted) && (height <? bh_Height lastBlockHeader))).
End execute.
