(* ===== verification/ExecuteSpec.v ===== *)
(** * ExecuteSpec: what processing and deleting a block do to the chain

    Steps of the executer are specified by triples with a condition for
    success and one for failure.  Verification, execution and the calls of the
    application leave the chain alone ([quiet]); the only writes are one batch
    of [AddBlock] and one of [RemoveBlock].  Theorems: a block that fails leaves
    the chain as it was, the finalized height never decreases, finalized blocks
    are not deleted, deleting the block that was processed last restores the
    consensus state and the stored blocks if the application agrees, and whatever
    [process] receives, the chain changes as the published events say. *)

From S2P Require Import Prelude Collection Codec CodecSpec Message Crypto RMT BlockTypes Block DB DiffDB Event ForkChoice BFTTypes Votes LiskBFT LabiTypes NetTypes Certificate DataAccess ChainSpec Commits StateInv Execute.

Section triples.
Context {S A : Type} `{PebbleLaws S} `{NormLaws, HashLaws, BLS, Ed25519, Application A}.
Abbreviation executer := (@executer S A).
Abbreviation exec := (@exec S A).

(** [m] started in [P] succeeds in [Q] or ends in [E]. *)
Definition triple {T} (P : executer → Prop) (m : exec T) (Q : T → executer → Prop) (E : executer → Prop) : Prop :=
  ∀ s, P s → match (m s).1 with Ok x => Q x (m s).2 | _ => E (m s).2 end.

Lemma triple_bind {T U} P (m : exec T) R (f : T → exec U) Q E :
  triple P m R E → (∀ x, triple (R x) (f x) Q E) → triple P (mbind f m) Q E.
Proof.
  intros Hm Hf s Hs. specialize (Hm s Hs). unfold mbind, exec_bind. destruct (m s) as [[x|e| |] s1]; cbn [fst snd] in *; try done.
  by apply Hf.
Qed.

Lemma triple_conseq {T} P P' (m : exec T) Q Q' (E E' : executer → Prop) :
  triple P' m Q' E' → (∀ s, P s → P' s) → (∀ x s, Q' x s → Q x s) → (∀ s, E' s → E s) → triple P m Q E.
Proof. intros Hm HP HQ HE s Hs. specialize (Hm s (HP s Hs)). destruct (m s) as [[x|e| |] s1]; cbn [fst snd] in *; auto. Qed.

Lemma triple_deferred {T} P (m : exec T) Q E g :
  triple P m Q E → (∀ x s, Q x s → Q x (g s)) → (∀ s, E s → E (g s)) → triple P (deferred g m) Q E.
Proof. intros Hm HQ HE s Hs. specialize (Hm s Hs). unfold deferred. destruct (m s) as [[x|e| |] s1]; cbn [fst snd] in *; auto. Qed.

(** ** Quiet steps *)

(** The chain is [c] and the cache at [p] belongs to it. *)
Record inv (c : Chain S) (p : nat) (s : executer) : Prop := {
  inv_chain : x_chain s = c;
  inv_heap : heap_inv (da_database (dataAccess c)) p (x_heap s);
}.

Definition quiet {T} (p : nat) (m : exec T) : Prop := ∀ c, triple (inv c p) m (λ _, inv c p) (inv c p).

Lemma quiet_bind {T U} (p : nat) (m : exec T) (f : T → exec U) : quiet p m → (∀ x, quiet p (f x)) → quiet p (mbind f m).
Proof. intros Hm Hf c. eapply triple_bind; [apply Hm|]. intros x. apply Hf. Qed.

Lemma quiet_ret {T} (p : nat) (x : T) : quiet p (ret x).
Proof. by intros c s. Qed.
Lemma quiet_fail {T} (p : nat) e : quiet p (fail (T := T) e).
Proof. by intros c s. Qed.
Lemma quiet_lift {T} (p : nat) (x : res T) : quiet p (lift x).
Proof. intros c s Hs. by destruct x. Qed.
Lemma quiet_gets {T} (p : nat) (f : executer → T) : quiet p (gets f).
Proof. by intros c s. Qed.
Lemma quiet_read {T} (p : nat) (f : executer → res T) : quiet p (λ s, lift (f s) s).
Proof. intros c s Hs. cbn. by destruct (f s). Qed.
Lemma quiet_call {T} (p : nat) (f : A → res T * A) : quiet p (call f).
Proof. intros c s [Hc Hh]. unfold call. destruct (f (x_app s)) as [[x|e| |] a]; by split. Qed.

Lemma quiet_on_heap {T} (p : nat) (f : S → heap → res (T * heap)) :
  (∀ store h x h', heap_inv store p h → f store h = Ok (x, h') → heap_inv store p h') → quiet p (on_heap f).
Proof.
  intros Hf c s [Hc Hh]. unfold on_heap, x_database. rewrite Hc.
  destruct (f (da_database (dataAccess c)) (x_heap s)) as [[x h]|e| |] eqn:E; cbn [fst snd]; [|by split..].
  split; [done|]. cbn [x_heap set_x_heap]. eauto.
Qed.

Lemma quiet_on_heap_ (p : nat) (f : S → heap → res heap) :
  (∀ store h h', heap_inv store p h → f store h = Ok h' → heap_inv store p h') → quiet p (on_heap_ f).
Proof. intros Hf. apply quiet_on_heap. intros store h x h' Hh E. ok_steps. eauto. Qed.

Lemma quiet_if {T} (p : nat) (b : bool) (m1 m2 : exec T) : quiet p m1 → quiet p m2 → quiet p (if b then m1 else m2).
Proof. by destruct b. Qed.

Lemma quiet_modify (p : nat) f : (∀ s, x_chain (f s) = x_chain s ∧ x_heap (f s) = x_heap s) → quiet p (modify (S := S) f).
Proof. intros Hf c s [Hc Hh]. destruct (Hf s) as [E1 E2]. split; cbn; congruence. Qed.

(** Splits a quiet step into its parts. *)
Ltac quiet_step :=
  match goal with
  | |- quiet _ (mbind _ _) => apply quiet_bind; [|intros ?]
  | |- quiet _ (if _ then _ else _) => apply quiet_if
  | |- quiet _ (let '(_, _) := ?x in _) => destruct x
  | |- quiet _ (match ?x with _ => _ end) => destruct x
  | |- quiet _ (ret _) => apply quiet_ret
  | |- quiet _ (fail _) => apply quiet_fail
  | |- quiet _ (lift _) => apply quiet_lift
  | |- quiet _ (gets _) => apply quiet_gets
  | |- quiet _ (call _) => apply quiet_call
  | |- quiet _ (on_heap_ _) => apply quiet_on_heap_; intros ? ? ? ? ?; keeps
  | |- quiet _ (on_heap _) => apply quiet_on_heap; intros ? ? ? ? ? ?; keeps
  | |- quiet _ (modify _) => apply quiet_modify; intros ?; by try case_match
  | |- quiet _ (λ s, lift _ s) => apply quiet_read
  end.
Ltac quiet := repeat quiet_step.

Section steps.
Context (p : nat) (store : Database) (Hview : state_view p store).

Lemma newBlockExecuteABI_quiet header : quiet p (newBlockExecuteABI (S := S) header).
Proof. unfold newBlockExecuteABI. quiet. Qed.

Lemma execute_transactions_quiet contextID block txs events : quiet p (execute_transactions (S := S) contextID block txs events).
Proof.
  revert events. induction txs as [|tx txs IH]; intros events; cbn [execute_transactions]; quiet. apply IH.
Qed.

Lemma set_validators_quiet bft pre cert validators : quiet p (set_validators (A := A) bft store pre cert validators).
Proof using H0 Hview. unfold set_validators. quiet. Qed.

Lemma stateExecuter_Execute_quiet bft c block : quiet p (stateExecuter_Execute bft c store block).
Proof using H0 Hview.
  unfold stateExecuter_Execute, getABIConsensus. quiet; [apply execute_transactions_quiet|apply set_validators_quiet].
Qed.
End steps.

(** ** Facts about results *)

(** A quiet step whose result satisfies [V]. *)
Definition gives {T} (p : nat) (m : exec T) (V : Chain S → T → Prop) : Prop :=
  ∀ c, triple (inv c p) m (λ x s, inv c p s ∧ V c x) (inv c p).

Lemma gives_bind {T U} (p : nat) (m : exec T) V (f : T → exec U) c Q (E : executer → Prop) :
  gives p m V → (∀ s, inv c p s → E s) → (∀ x, V c x → triple (inv c p) (f x) Q E) → triple (inv c p) (mbind f m) Q E.
Proof.
  intros Hm HE Hf. eapply triple_bind.
  - eapply triple_conseq; [apply Hm|done| |exact HE]. intros x s Hx. exact Hx.
  - intros x s [Hs Hx]. by apply Hf.
Qed.

Lemma quiet_gives {T} (p : nat) (m : exec T) : quiet p m → gives p m (λ _ _, True).
Proof. intros Hm c. eapply triple_conseq; [apply Hm|done| |done]. done. Qed.

Lemma header_gives (p : nat) block : gives p (lift (header_of block)) (λ _ h, b_Header block = Some h).
Proof. intros c s Hs. unfold header_of. cbn. by destruct (b_Header block). Qed.

Lemma finalized_height_gives (p : nat) : gives p finalized_height (λ c f, GetFinalizedHeight (dataAccess c) = Ok f).
Proof. intros c s Hs. unfold finalized_height. cbn. rewrite (inv_chain _ _ _ Hs). by destruct (GetFinalizedHeight _) eqn:E. Qed.

Lemma last_header_gives (p : nat) :
  gives (T := BlockHeader) p (λ s, lift (last_header (x_chain s)) s) (λ c h, last_header c = Ok h).
Proof. intros c s Hs. cbn. rewrite (inv_chain _ _ _ Hs). by destruct (last_header c) eqn:E. Qed.

Lemma quiet_post {T} (p : nat) (m : exec T) c (V : Prop) :
  quiet p m → V → triple (inv c p) m (λ _ s, inv c p s ∧ V) (inv c p).
Proof. intros Hm HV. eapply triple_conseq; [apply Hm|done| |done]. done. Qed.

(** A verified block follows the last block. *)
Definition follows (c : Chain S) (block : Block) : Prop :=
  ∃ h last, b_Header block = Some h ∧ last_header c = Ok last ∧ bh_Height h = u32 (bh_Height last + 1) ∧
    bh_PreviousBlockID h = bh_ID last.

Lemma verifyBlock_gives (p : nat) store slot now block :
  state_view p store → gives p (verifyBlock slot now store block) (λ c _, follows c block).
Proof using H0.
  intros Hview c. unfold verifyBlock.
  eapply gives_bind; [apply header_gives|done|intros h Hh]. case_match; [by intros s Hs|].
  eapply gives_bind; [apply last_header_gives|done|intros last Hlast].
  destruct (Z.eqb_spec (bh_Height h) (u32 (bh_Height last + 1))) as [E1|]; [|by intros s Hs]. cbn [negb].
  destruct (bytes_equal (bh_ID last) (bh_PreviousBlockID h)) eqn:E2; [|by intros s Hs]. cbn [negb].
  apply quiet_post; [|exists h, last; split_and!; [done|done|done|by apply bool_decide_eq_true_1 in E2]].
  quiet. intros c' s Hs. destruct (bh_AggregateCommit _); cbn; [|done]. by case_match.
Qed.

Lemma votes_width b v : Message_Decode (A := BFTVotes) b = Ok v → u32_ok (vt_maxHeightPrecommited v).
Proof.
  unfold Message_Decode, Decode. cbn [DecodeFromReader BFTVotes_Message]. unfold BFTVotes_DecodeFromReader, ReadUInt32. intros E.
  ok_steps. cbn [vt_maxHeightPrecommited]. apply u32_range.
Qed.

Lemma GetBFTHeights_gives (p : nat) store :
  state_view p store → gives p (on_heap (λ st, GetBFTHeights st store)) (λ _ x, u32_ok x.1.2).
Proof using H0.
  intros Hv c s Hs. pose proof (quiet_on_heap p (λ st, GetBFTHeights st store)) as Hq.
  specialize (Hq (λ st h x h' Hh E, GetBFTHeights_keeps st p store h x h' Hv Hh E) c s Hs).
  unfold on_heap in *. destruct (GetBFTHeights _ _ _) as [[x h]|e| |] eqn:E; cbn [fst snd] in *; [|done..]. split; [done|].
  unfold GetBFTHeights, getVotes, with_heap, GetDecodable in E. destruct (Database_Get _ _ _ _) as [val h1]. cbn [fst snd] in E.
  ok_steps. cbn [fst snd]. by eapply votes_width.
Qed.

(** ** Processing a block *)

Context (commit_order : cacheDB → list (bytes * cacheValue)).

Lemma commit_store_gives (p : nat) store :
  state_view p store → gives p (gets (commit_store commit_order store []))
    (λ c x, ∃ cm, state_cache (da_database (dataAccess c)) cm ∧ x = c_commit (commit_order cm) []).
Proof.
  intros Hv c s Hs. cbn. split; [done|]. exists (deref (x_heap s) (d_cache store)). split; [|done].
  rewrite (sv_cache _ _ Hv). apply (inv_heap _ _ _ Hs).
Qed.

(** The diffs that are deleted are those below the new finalized height. *)
Definition diffs_below (fin : Z) (removed : Batch) : Prop :=
  ∀ op, op ∈ removed → ∃ k height, op = BDel (51 :: k) ∧ Bytes.ToUint32 k = Ok height ∧ height < fin.

Lemma in_bounds_51 k : in_bounds [51] k = true → ∃ x, k = 51 :: x.
Proof.
  unfold in_bounds. change (upperBound [51]) with (Some [52]). rewrite bytes_leb_ltb.
  destruct k as [|y x]; [done|]. rewrite !bytes_ltb_cons, bytes_ltb_nil_r, !andb_false_r, !orb_false_r.
  rewrite andb_true_iff, negb_true_iff, Z.ltb_ge, Z.ltb_lt. intros [? ?]. exists x. f_equal. lia.
Qed.

Lemma delete_diffs_ops fin keys batch batch' :
  (∀ k, k ∈ keys → in_bounds [51] k = true) → delete_diffs fin keys batch = Ok batch' →
  ∃ removed, batch' = batch ++ removed ∧ diffs_below fin removed.
Proof.
  revert batch. induction keys as [|k keys IH]; intros batch Hkeys E; cbn [delete_diffs] in E.
  { injection E as <-. exists []. rewrite app_nil_r. split; [done|]. by intros op ?%not_elem_of_nil. }
  destruct (in_bounds_51 k) as [x ->]; [apply Hkeys; left|]. ok_steps.
  match goal with E : slice _ _ _ = Ok ?y |- _ => assert (y = x) as ->; [revert E; unfold slice|] end.
  { case_decide; [|done]. intros [= <-]. unfold len. cbn [length]. change (Z.to_nat 1) with 1%nat. cbn [drop].
    apply take_ge. lia. }
  destruct (IH _ (λ k Hk, Hkeys k (proj2 (elem_of_cons _ _ _) (or_intror Hk))) E) as (removed & -> & Hr).
  destruct (Z.ltb_spec a0 fin) as [Hlt|]; [|by exists removed].
  exists (BDel (51 :: x) :: removed). split; [unfold Batch_Del; by rewrite <-app_assoc|].
  intros op [->|Hop]%elem_of_cons; [|by apply Hr]. by exists x, a0.
Qed.

Definition commit_batch (cm : cacheDB) (height : Z) (removed : Batch) : Batch :=
  Batch_Set (diff_key height) (Encode (c_commit (commit_order cm) []).2) (c_commit (commit_order cm) []).1 ++ removed.

(** The length of the encoded diff is an int. *)
Definition short_diff (cm : cacheDB) : Prop := len (Encode (c_commit (commit_order cm) []).2) < 2 ^ 63.

Lemma go_bytes_gives (p : nat) b : gives (T := bytes) p (lift (go_bytes b)) (λ _ x, x = b ∧ len b < 2 ^ 63).
Proof. intros c s Hs. unfold go_bytes. destruct (Z.ltb_spec (len b) (2 ^ 63)); done. Qed.

(** How the chain changes. *)
Definition adds (c : Chain S) (block : Block) (rt : bool) (r : res ()) (c' : Chain S) : Prop :=
  ∃ cm h events current fin removed,
    follows c block ∧ b_Header block = Some h ∧ state_cache (da_database (dataAccess c)) cm ∧
    GetFinalizedHeight (dataAccess c) = Ok current ∧ current ≤ fin ∧ (fin = current ∨ u32_ok fin) ∧ diffs_below fin removed ∧
    short_diff cm ∧ AddBlock (commit_batch cm (bh_Height h) removed) block events fin rt c = (r, c').

Definition added (c : Chain S) (block : Block) (rt : bool) (_ : ()) (s : executer) : Prop := adds c block rt (Ok ()) (x_chain s).
Definition unchanged (c : Chain S) (block : Block) (rt : bool) (s : executer) : Prop :=
  x_chain s = c ∨ ∃ r, r ≠ Ok () ∧ adds c block rt r (x_chain s).

Lemma IterateKey_bounds (db : S) prefix limit reversed k :
  k ∈ IterateKey db prefix limit reversed → in_bounds prefix k = true.
Proof.
  unfold IterateKey, iterateKeyPrefix, iteratePrefix. intros ([k' v] & -> & [Hin _]%elem_iter_loop)%list_elem_of_fmap.
  destruct reversed; [rewrite elem_of_reverse in Hin|]; by apply list_elem_of_filter in Hin as [? _].
Qed.

Lemma new_diffStore_inv s0 :
  triple (λ s, s = s0) new_diffStore
    (λ d s, state_view (length (x_heap s0)) d ∧ inv (x_chain s0) (length (x_heap s0)) s) (λ _, False).
Proof.
  intros s ->. cbn. split; [split; [done|done|by exists []]|]. split; [done|]. cbn [x_heap set_x_heap].
  split; [rewrite length_app; cbn; lia|]. rewrite deref_alloc. split; [apply newCacheDB_ok|]. intros k [x Hx]. done.
Qed.

Lemma triple_start {T} s0 (f : Database → exec T) Q E :
  (∀ store, state_view (length (x_heap s0)) store → triple (inv (x_chain s0) (length (x_heap s0))) (f store) Q E) →
  triple (λ s, s = s0) (mbind f new_diffStore) Q E.
Proof.
  intros Hf. eapply triple_bind.
  - eapply triple_conseq; [apply (new_diffStore_inv s0)|done|intros d s Hs; exact Hs|done].
  - intros store s [Hv Hs]. by apply Hf.
Qed.

Lemma add_block_inv c (p : nat) block rt batch events fin cm h current removed :
  follows c block → b_Header block = Some h → state_cache (da_database (dataAccess c)) cm →
  GetFinalizedHeight (dataAccess c) = Ok current → current ≤ fin → (fin = current ∨ u32_ok fin) → diffs_below fin removed →
  short_diff cm → batch = commit_batch cm (bh_Height h) removed →
  triple (inv c p) (add_block batch block events fin rt) (added c block rt) (unchanged c block rt).
Proof.
  intros Hfol Hh Hcm Hf Hle Hu Hr Hshort -> s [Hc _]. unfold add_block. rewrite Hc.
  destruct (AddBlock _ _ _ _ _ _) as [r c'] eqn:E. cbn [fst snd].
  assert (adds c block rt r (x_chain (set_x_chain c' s))) as Ha by (by exists cm, h, events, current, fin, removed).
  destruct r as [[]|e| |]; [done|right; eexists; by split; [|exact Ha]..].
Qed.

Lemma added_publish c block rt e : triple (added c block rt ()) (publish_event e) (added c block rt) (unchanged c block rt).
Proof. by intros s. Qed.

Lemma added_ret c block rt : triple (added c block rt ()) (ret ()) (added c block rt) (unchanged c block rt).
Proof. by intros s. Qed.

(** Every step up to [AddBlock] is quiet. *)
Lemma processValidated_triple bft slot now block publish rt s0 :
  triple (λ s, s = s0) (processValidated commit_order bft slot now block publish rt)
    (added (x_chain s0) block rt) (unchanged (x_chain s0) block rt).
Proof using H0.
  set (c := x_chain s0). set (p := length (x_heap s0)).
  assert (∀ s, inv c p s → unchanged c block rt s) as HE by (intros s [Hc _]; by left).
  unfold processValidated. apply triple_start. intros store Hv. fold c p in Hv |- *.
  eapply gives_bind; [apply verifyBlock_gives, Hv|exact HE|intros ? Hfol].
  eapply gives_bind; [apply header_gives|exact HE|intros h Hh].
  eapply gives_bind; [apply quiet_gives, newBlockExecuteABI_quiet|exact HE|intros abi _].
  apply triple_deferred; [|by intros ? ? ?|by intros ? [|]; [left|right]].
  eapply gives_bind; [apply quiet_gives, quiet_call|exact HE|intros ? _].
  eapply gives_bind; [apply quiet_gives, quiet_modify; intros ?; by case_match|exact HE|intros ? _].
  eapply gives_bind; [apply quiet_gives, stateExecuter_Execute_quiet, Hv|exact HE|intros [params abi'] _].
  eapply gives_bind; [apply quiet_gives, quiet_on_heap; intros; keeps|exact HE|intros resultParams _].
  case_match; [by intros s Hs; apply HE|]. case_match; [by intros s Hs; apply HE|].
  eapply gives_bind; [apply finalized_height_gives|exact HE|intros current Hf].
  eapply gives_bind; [apply GetBFTHeights_gives, Hv|exact HE|intros [[? maxPre] ?] Hu]. cbn [fst snd] in Hu.
  eapply gives_bind; [apply commit_store_gives, Hv|exact HE|intros [batch diff] (cm & Hcm & Hb)].
  eapply gives_bind; [apply go_bytes_gives|exact HE|intros ? [-> Hshort]].
  assert (short_diff cm) as Hsd by (unfold short_diff; by rewrite <-Hb).
  eapply gives_bind; [apply quiet_gives, quiet_read|exact HE|intros lastHeader _].
  eapply gives_bind; [apply quiet_gives; unfold stateExecuter_Commit; quiet|exact HE|intros ? _].
  set (fin := if current <? maxPre then maxPre else current).
  assert (current ≤ fin ∧ (fin = current ∨ u32_ok fin)) as [Hle Hfu].
  { unfold fin. destruct (Z.ltb_spec current maxPre); split; auto; lia. }
  eapply (gives_bind p _ (λ _ b, ∃ removed, b = commit_batch cm (bh_Height h) removed ∧ diffs_below fin removed)); [|exact HE|].
  - intros c' s Hs. unfold commit_batch. rewrite <-Hb. cbn [fst snd]. unfold fin. destruct (current <? maxPre).
    + unfold lift. destruct (delete_diffs _ _ _) as [b'|e| |] eqn:Ed; cbn [fst snd]; [|done..]. split; [done|].
      apply delete_diffs_ops in Ed; [done|]. intros k Hk. exact (IterateKey_bounds _ _ _ _ _ Hk).
    + unfold ret. cbn [fst snd]. split; [done|]. exists []. rewrite app_nil_r. split; [done|]. by intros op ?%not_elem_of_nil.
  - intros b (removed & Eb & Hr). eapply triple_bind; [exact (add_block_inv c p block rt b _ fin cm h current removed Hfol Hh Hcm Hf Hle Hfu Hr Hsd Eb)|]. intros [].
    eapply (triple_bind _ _ (added c block rt)); [destruct (current <? maxPre); [apply added_publish|apply added_ret]|]. intros [].
    eapply (triple_bind _ _ (added c block rt)); [apply added_publish|]. intros []. destruct params; [apply added_publish|apply added_ret].
Qed.

(** ** What the batches write *)

Definition head_in (heads : list Z) (op : batch_op) : Prop := ∃ y x, op_key op = y :: x ∧ y ∈ heads.

Lemma Write_skip (b : Batch) (db : S) k : (∀ op, op ∈ b → op_key op ≠ k) → p_get (Write b db) k = p_get db k.
Proof using H0.
  intros Hb. rewrite (Write_get b db k None).
  - rewrite bool_decide_eq_false_2; [done|]. intros (op & E & Hop)%list_elem_of_fmap. by apply (Hb op Hop).
  - intros op Hop E. by destruct (Hb op Hop E).
Qed.

Lemma Write_other_head (b : Batch) (db : S) heads y x :
  (∀ op, op ∈ b → head_in heads op) → y ∉ heads → p_get (Write b db) (y :: x) = p_get db (y :: x).
Proof using H0.
  intros Hb Hy. apply Write_skip. intros op Hop E. destruct (Hb op Hop) as (y' & x' & E' & Hy').
  rewrite E in E'. injection E' as <- _. done.
Qed.

Ltac in_ops :=
  repeat match goal with
  | H : _ ∈ [] |- _ => by apply not_elem_of_nil in H
  | H : _ ∈ _ :: _ |- _ => apply elem_of_cons in H as [->|H]
  | H : _ ∈ _ ++ _ |- _ => apply elem_of_app in H as [H|H]
  | H : _ ∈ _ <$> _ |- _ => apply list_elem_of_fmap in H as (? & -> & H)
  | H : context [if ?b then _ else _] |- _ => destruct b
  end.

Lemma save_ops_head h b events fin pruned rt op :
  Forall (λ op, ∃ x, op = BDel (9 :: x)) pruned → op ∈ save_ops h b events fin pruned rt → head_in [3; 4; 5; 6; 7; 8; 9; 27] op.
Proof.
  intros Hp Hop. rewrite Forall_forall in Hp. unfold save_ops, tx_sets in Hop. in_ops; try (eexists _, _; split; [reflexivity|set_solver]).
  destruct (Hp _ Hop) as [x ->]. eexists _, _. split; [reflexivity|set_solver].
Qed.

Lemma remove_ops_head h b saveTemp op : op ∈ remove_ops h b saveTemp → head_in [3; 4; 5; 6; 7; 8; 9] op.
Proof.
  intros Hop. unfold remove_ops in Hop. in_ops; try (eexists _, _; split; [reflexivity|set_solver]).
  destruct x as [k v]. apply block_entries_key in Hop as (y & x & -> & Hy). eexists _, _. split; [reflexivity|set_solver].
Qed.

Section batch.
Context (db : S) (cm : cacheDB) (Hcm : state_cache db cm) (Horder : commit_order cm ≡ₚ map_to_list cm).
Abbreviation ops := (commit_order cm ≫= entry_ops).

Lemma entry_ops_key k cv op : op ∈ entry_ops (k, cv) → op_key op = k.
Proof. unfold entry_ops. cbn. intros Hop. repeat case_match; in_ops; done. Qed.

Lemma ops_head op : op ∈ ops → head_in [10] op.
Proof using Hcm Horder.
  intros (k & cv & Hk & Hop)%(elem_of_ops cm _ Horder). rewrite <-(entry_ops_key _ _ _ Hop) in Hk.
  destruct (proj2 Hcm (op_key op)) as [x Hx]; [by eexists|]. exists 10, x. split; [done|left].
Qed.

Lemma commit_batch_ops height removed :
  commit_batch cm height removed = ops ++ [BSet (diff_key height) (Encode (c_commit (commit_order cm) []).2)] ++ removed.
Proof. unfold commit_batch, Batch_Set. rewrite c_commit_spec. cbn [fst snd app]. by rewrite <-app_assoc. Qed.

Lemma diffs_below_head fin removed op : diffs_below fin removed → op ∈ removed → head_in [51] op.
Proof. intros Hr Hop. destruct (Hr op Hop) as (k & height & -> & _). exists 51, k. split; [done|left]. Qed.

Lemma diff_key_cons height : diff_key height = 51 :: Bytes.FromUint32 height.
Proof. unfold diff_key. by rewrite db_key_cons. Qed.

Lemma commit_batch_head height fin removed op :
  diffs_below fin removed → op ∈ commit_batch cm height removed → head_in [10; 51] op.
Proof using H0 H2 H4 Hcm Horder.
  intros Hr. rewrite commit_batch_ops, !elem_of_app, list_elem_of_singleton. intros [Hop|[->|Hop]].
  - destruct (ops_head op Hop) as (y & x & E & Hy). exists y, x. split; [done|set_solver].
  - exists 51, (Bytes.FromUint32 height). split; [cbn [op_key]; apply diff_key_cons|set_solver].
  - destruct (diffs_below_head fin removed op Hr Hop) as (y & x & E & Hy). exists y, x. split; [done|set_solver].
Qed.

Lemma commit_batch_outside height fin removed : diffs_below fin removed → batch_outside (commit_batch cm height removed).
Proof using H0 H2 H4 Hcm Horder.
  intros Hr op Hop. destruct (commit_batch_head _ _ _ _ Hr Hop) as (y & x & E & Hy). rewrite E. apply not_block_key. set_solver.
Qed.

Section saved.
Context (h : BlockHeader) (b : Block) (events : list Event) (fin : Z) (pruned removed : Batch) (rt : bool).
Hypothesis (Hp : Forall (λ op, ∃ x, op = BDel (9 :: x)) pruned) (Hr : diffs_below fin removed).
Abbreviation db' := (Write (commit_batch cm (bh_Height h) removed ++ save_ops h b events fin pruned rt) db).

(** The state keys hold the committed state. *)
Lemma saved_state k : state_key k → p_get db' k = view db cm k.
Proof using H0 H2 H4 Hcm Horder Hp Hr.
  intros [x ->]. rewrite Write_app.
  rewrite (Write_other_head _ _ [3; 4; 5; 6; 7; 8; 9; 27]) by (try (intros op Hop; by eapply save_ops_head); set_solver).
  rewrite commit_batch_ops, Write_app, (Write_other_head _ _ [51]).
  - apply (commit_view db cm _ (proj1 Hcm) Horder).
  - intros op [->%list_elem_of_singleton|Hop]%elem_of_app; [|by eapply diffs_below_head].
    exists 51, (Bytes.FromUint32 (bh_Height h)). split; [cbn [op_key]; apply diff_key_cons|left].
  - set_solver.
Qed.

Lemma saved_finalized : p_get db' [27] = Some (Bytes.FromUint32 fin).
Proof using H0 H2 H4 Hcm Horder Hp Hr.
  rewrite (Write_get _ _ [27] (Some (Bytes.FromUint32 fin))).
  - rewrite bool_decide_eq_true_2; [done|]. apply list_elem_of_fmap. exists (BSet [27] (Bytes.FromUint32 fin)). split; [done|].
    unfold save_ops. rewrite !elem_of_app. do 5 right. left. left.
  - intros op Hop E. apply elem_of_app in Hop as [Hop|Hop].
    + destruct (commit_batch_head _ _ _ _ Hr Hop) as (y & x & E' & Hy). rewrite E in E'. injection E' as <- <-. set_solver.
    + rewrite Forall_forall in Hp. unfold save_ops, tx_sets in Hop. in_ops; try done; try discriminate E.
      destruct (Hp _ Hop) as [x ->]. discriminate E.
Qed.

(** The diff of the block stays unless its height is finalized. *)
Lemma saved_diff : u32_ok (bh_Height h) → fin ≤ bh_Height h →
  p_get db' (diff_key (bh_Height h)) = Some (Encode (c_commit (commit_order cm) []).2).
Proof using H0 H2 H4 Hcm Horder Hp Hr.
  intros Hu Hfin. rewrite diff_key_cons, Write_app.
  rewrite (Write_other_head _ _ [3; 4; 5; 6; 7; 8; 9; 27]) by (try (intros op Hop; by eapply save_ops_head); set_solver).
  rewrite commit_batch_ops, !Write_app, <-diff_key_cons. rewrite (Write_skip removed).
  - cbn [Write foldl apply_op]. rewrite p_get_set. unfold bytes_equal. by rewrite bool_decide_eq_true_2.
  - intros op Hop E. destruct (Hr op Hop) as (k & height & -> & Hk & Hlt). rewrite diff_key_cons in E. cbn [op_key] in E.
    apply (f_equal tail) in E. cbn [tail] in E. subst k. rewrite Bytes.ToUint32_FromUint32 in Hk by done.
    injection Hk as <-. lia.
Qed.

Lemma saved_diffs x v :
  p_get db' (51 :: x) = Some v → v = Encode (c_commit (commit_order cm) []).2 ∨ p_get db (51 :: x) = Some v.
Proof using H0 H2 H4 Hcm Horder Hp Hr.
  rewrite Write_app, (Write_other_head _ _ [3; 4; 5; 6; 7; 8; 9; 27]) by (try (intros op Hop; by eapply save_ops_head); set_solver).
  rewrite commit_batch_ops, !Write_app. intros E.
  assert (p_get (Write [BSet (diff_key (bh_Height h)) (Encode (c_commit (commit_order cm) []).2)] (Write ops db)) (51 :: x) = Some v) as E2.
  { rewrite (Write_get removed _ _ None) in E; [by case_bool_decide|]. intros op Hop _. by destruct (Hr op Hop) as (? & ? & -> & _). }
  cbn [Write foldl apply_op] in E2. rewrite p_get_set in E2. case_match; [left; congruence|right].
  fold (Write ops db) in E2. by rewrite (Write_other_head _ _ [10]) in E2 by (try (intros op Hop; by apply ops_head); set_solver).
Qed.
End saved.

(** The diff is read back, and only reverts state keys. *)
Lemma decode_diff : short_diff cm →
  Message_Decode (A := Diff) (Encode (c_commit (commit_order cm) []).2) = Ok (c_commit (commit_order cm) []).2.
Proof.
  intros Hl. assert (Diff_ok (c_commit (commit_order cm) []).2) as Hok by (split; apply Forall_true; done).
  exact (Message_Decode_Encode (A := Diff) _ Hok Hl).
Qed.

Lemma revert_head op : op ∈ RevertDiff [] (c_commit (commit_order cm) []).2 → head_in [10] op.
Proof using H0 H2 H4 Hcm Horder.
  rewrite RevertDiff_ops. cbn [app].
  intros (k & cv & Hk & _ & ->)%(elem_of_revert_ops cm _ Horder). destruct (proj2 Hcm k) as [x ->]; [by eexists|].
  exists 10, x. split; [by case_match|left].
Qed.
End batch.

(** ** The chain with its finalized height *)

Hypothesis Horder : ∀ cm, commit_order cm ≡ₚ map_to_list cm.

(** A stored diff is read back, and only reverts state keys. *)
Definition diff_ok (v : bytes) : Prop := ∃ diff, Message_Decode (A := Diff) v = Ok diff ∧ ∀ op, op ∈ RevertDiff [] diff → head_in [10] op.

Lemma committed_diff_ok db cm : state_cache db cm → short_diff cm → diff_ok (Encode (c_commit (commit_order cm) []).2).
Proof using H0 H2 H4 Horder.
  intros Hcm Hs. exists (c_commit (commit_order cm) []).2. split; [by apply decode_diff|]. intros op. exact (revert_head db cm Hcm (Horder cm) op).
Qed.

Record final_rep (c : Chain S) (bs cached : list Block) (f : Z) : Prop := {
  fr_chain : chain_rep c bs cached;
  fr_final : p_get (da_database (dataAccess c)) [27] = Some (Bytes.FromUint32 f);
  fr_width : u32_ok f;
  fr_genesis : block_height (genesisBlock c) ≤ f;
  fr_diffs : ∀ x v, p_get (da_database (dataAccess c)) (51 :: x) = Some v → diff_ok v;
}.

Lemma GetFinalizedHeight_rep c bs cached f : final_rep c bs cached f → GetFinalizedHeight (dataAccess c) = Ok f.
Proof.
  intros [_ Hf Hu _ _]. unfold GetFinalizedHeight, Get. change (DBPrefixToBytes dbPrefixFinalizedHeight) with [27]. rewrite Hf.
  cbn [found mbind res_bind]. by apply Bytes.ToUint32_FromUint32.
Qed.

(** The cached last block is the last block of the chain. *)
Lemma last_header_rep c bs cached h :
  chain_rep c bs cached → last_header c = Ok h →
  ∃ bs0 cached0 b, bs = bs0 ++ [b] ∧ cached = cached0 ++ [b] ∧ b_Header b = Some h ∧ LastBlock c = Some b ∧
    bh_Height h = block_height (genesisBlock c) + len bs - 1.
Proof.
  intros Hch E. unfold last_header, last_block in E. rewrite (LastBlock_rep _ _ _ Hch) in E.
  destruct cached as [|b cached0 _] using rev_ind; [done|]. rewrite last_snoc in E. cbn [mbind res_bind] in E.
  destruct (ch_suffix _ _ _ Hch) as [pre ->]. rewrite app_assoc in *. exists (pre ++ cached0), cached0, b.
  unfold header_of in E. destruct (b_Header b) as [h'|] eqn:Hb; [|done]. injection E as ->.
  split_and!; [done|done|done|by rewrite (LastBlock_rep _ _ _ Hch), last_snoc|].
  pose proof (ch_heights _ _ _ Hch (length (pre ++ cached0)) b) as Eh. rewrite lookup_app_r, Nat.sub_diag in Eh by lia.
  specialize (Eh eq_refl). rewrite len_app. change (len [b]) with 1. destruct (header_of_Some b h Hb) as (_ & _ & <-). unfold len. lia.
Qed.

(** What a block must satisfy to be added when its height fits. *)
Definition may_extend (genesis : Block) (bs : list Block) (block : Block) : Prop :=
  block_height genesis + len bs < 2 ^ 32 ∧ (block_height block = block_height genesis + len bs → extends genesis bs block).

(** The block cache accepts the block after the last one. *)
Lemma AddBlock_follows c bs cached batch block events fin rt :
  chain_rep c bs cached → follows c block → ∃ c', AddBlock batch block events fin rt c = (Ok (), c').
Proof using H0 H2 H4.
  intros Hch (h & last & Hh & Hlast & Hnext & _). pose proof (last_header_rep _ _ _ _ Hch Hlast) as (bs0 & cached0 & b0 & -> & -> & Hb0 & _ & _).
  unfold AddBlock. destruct (saveBlock_ops (dataAccess c) batch block h events fin rt Hh) as (pruned & -> & _).
  pose proof (ch_cache _ _ _ Hch) as Hc. destruct (header_of_Some _ _ Hb0) as (_ & _ & Eb0).
  destruct (cr_heights _ _ Hc (length cached0) b0) as [_ E]; [by rewrite lookup_app_r, Nat.sub_diag by lia|].
  assert (bc_currentHeight (da_cache (dataAccess c)) = bh_Height last) as Ecur.
  { rewrite <-Eb0, E, len_app. change (len [b0]) with 1. unfold len. lia. }
  unfold Cache, bc_push. cbn [da_cache set_da_database]. rewrite (proj1 (header_of_Some _ _ Hh)). cbn [mbind res_bind].
  rewrite Ecur, <-Hnext, Z.eqb_refl, andb_false_r, (cr_size _ _ Hc). destruct (ch_max _ _ _ Hch) as [Hm1 Hm2].
  destruct (Z.leb_spec (bc_maxSize (da_cache (dataAccess c))) (len (cached0 ++ [b0]))) as [Hle|_]; [|by eexists].
  destruct (cached0 ++ [b0]) as [|x l] eqn:Ex; [by destruct cached0|].
  destruct (bc_evict_rep (da_cache (dataAccess c)) x l Hc) as (c1 & -> & _); [|by eexists]. pose proof (cr_max _ _ Hc). lia.
Qed.

Lemma adds_rep c bs cached f block rt r c' :
  final_rep c bs cached f → adds c block rt r c' → (r = Ok () → may_extend (genesisBlock c) bs block) →
  r = Ok () ∧ genesisBlock c' = genesisBlock c ∧ maxBlockCache c' = maxBlockCache c ∧
  ∃ cm h events fin pruned removed, f ≤ fin ∧ final_rep c' (bs ++ [block]) (pushed (maxBlockCache c) cached block) fin ∧
    b_Header block = Some h ∧ state_cache (da_database (dataAccess c)) cm ∧ short_diff cm ∧ diffs_below fin removed ∧
    Forall (λ op, ∃ x, op = BDel (9 :: x)) pruned ∧ block_height block = block_height (genesisBlock c) + len bs ∧
    da_database (dataAccess c')
    = Write (commit_batch cm (bh_Height h) removed ++ save_ops h block events fin pruned rt) (da_database (dataAccess c)).
Proof using H0 H2 H4 Horder.
  intros Hf (cm & h & events & current & fin & removed & Hfol & Hh & Hcm & Hcur & Hle & Hu & Hr & Hsd & Hadd) Hfresh.
  pose proof Hf as [Hch Hfin Hfw Hg Hdiffs]. rewrite (GetFinalizedHeight_rep _ _ _ _ Hf) in Hcur. injection Hcur as <-.
  destruct (AddBlock_follows c bs cached (commit_batch cm (bh_Height h) removed) block events fin rt Hch Hfol) as (c2 & E2).
  rewrite Hadd in E2. injection E2 as -> ->. destruct (Hfresh eq_refl) as [Hw Hext]. clear Hfresh.
  destruct Hfol as (h' & last & Hh' & Hlast & Hnext & _). rewrite Hh in Hh'. injection Hh' as <-.
  destruct (header_of_Some _ _ Hh) as (_ & _ & Eh).
  destruct (last_header_rep _ _ _ _ Hch Hlast) as (bs0 & cached0 & b0 & Hbs & _ & Hb0 & _ & Ehl).
  assert (block_height block = block_height (genesisBlock c) + len bs) as Ebh.
  { pose proof (sr_width _ _ (ch_store _ _ _ Hch)) as Hsw. rewrite Forall_forall in Hsw.
    assert (u32_ok (bh_Height last)) as Hul.
    { destruct (header_of_Some _ _ Hb0) as (_ & _ & <-). apply Hsw. rewrite Hbs. apply elem_of_app. right. left. }
    unfold u32_ok in Hul. rewrite Eh, Hnext. unfold u32. rewrite Z.mod_small; lia. }
  destruct (AddBlock_rep c bs cached (commit_batch cm (bh_Height h) removed) block events fin rt Hch (Hext Ebh))
    as (ch' & pruned & h2 & E & Hch' & Hm & Hgen & Hh2 & Hp & Hdb); [by eapply commit_batch_outside|].
  rewrite E in Hadd. injection Hadd as <-. rewrite Hh in Hh2. injection Hh2 as <-.
  split_and!; [done|done|done|]. exists cm, h, events, fin, pruned, removed. split_and!; try done. split; [done| | | |].
  - rewrite Hdb. by eapply saved_finalized.
  - by destruct Hu as [->|].
  - rewrite Hgen. lia.
  - intros x v Hx. rewrite Hdb in Hx.
    destruct (saved_diffs _ cm Hcm (Horder cm) h block events fin pruned removed rt Hp Hr x v Hx) as [->|Hx'];
      [by eapply committed_diff_ok|by eapply Hdiffs].
Qed.

Lemma unchanged_rep c bs cached f block rt s : final_rep c bs cached f → unchanged c block rt s → x_chain s = c.
Proof using H0 H2 H4.
  intros Hf [?|(r & Hr & cm & h & events & current & fin & removed & Hfol & _ & _ & _ & _ & _ & _ & _ & Hadd)]; [done|].
  destruct (AddBlock_follows c bs cached (commit_batch cm (bh_Height h) removed) block events fin rt (fr_chain _ _ _ _ Hf) Hfol) as (c2 & E2).
  rewrite Hadd in E2. by injection E2 as -> _.
Qed.

(** Success and failure of [processValidated]. *)
Lemma processValidated_rep bft slot now block publish rt s bs cached f r s' :
  final_rep (x_chain s) bs cached f → processValidated commit_order bft slot now block publish rt s = (r, s') →
  (r = Ok () → may_extend (genesisBlock (x_chain s)) bs block) →
  match r with
  | Ok _ => ∃ f', f ≤ f' ∧ final_rep (x_chain s') (bs ++ [block]) (pushed (maxBlockCache (x_chain s)) cached block) f'
  | _ => x_chain s' = x_chain s
  end.
Proof using H0 H2 H4 Horder.
  intros Hf E Hfresh. pose proof (processValidated_triple bft slot now block publish rt s s eq_refl) as Ht. rewrite E in Ht.
  cbn [fst snd] in Ht. pose proof (unchanged_rep _ _ _ _ block rt s' Hf) as Hun.
  destruct r as [[]|e| |]; [|by apply Hun..].
  destruct (adds_rep _ _ _ _ _ _ _ _ Hf Ht Hfresh) as (_ & _ & _ & cm & h & ev & fin & pr & rm & ? & ? & _). by exists fin.
Qed.

(** C12: Processing a block is all or nothing.  If [processValidated] succeeds, the
    block is the new tip of the stored chain and the finalized height has not
    decreased, where the block is assumed to be new to the chain (sealed, with a
    new ID and new transactions); if it fails, whatever the reason, the chain, its
    cache and its database are what they were. *)
Theorem processValidated_all_or_nothing bft slot now block publish rt s bs cached f r s' :
  final_rep (x_chain s) bs cached f → processValidated commit_order bft slot now block publish rt s = (r, s') →
  (r = Ok () → may_extend (genesisBlock (x_chain s)) bs block) →
  match r with
  | Ok _ => ∃ f', f ≤ f' ∧ final_rep (x_chain s') (bs ++ [block]) (pushed (maxBlockCache (x_chain s)) cached block) f'
  | _ => x_chain s' = x_chain s
  end.
Proof using H0 H2 H4 Horder. apply processValidated_rep. Qed.

(** ** Deleting a block *)

Definition revert_batch (height : Z) (diff : Diff) : Batch := Batch_Del (diff_key height) (RevertDiff [] diff).

Definition removes (c : Chain S) (block : Block) (saveTemp : bool) (c' : Chain S) : Prop :=
  ∃ h f v diff, b_Header block = Some h ∧ GetFinalizedHeight (dataAccess c) = Ok f ∧ f < bh_Height h ∧
    p_get (da_database (dataAccess c)) (diff_key (bh_Height h)) = Some v ∧ Message_Decode (A := Diff) v = Ok diff ∧
    RemoveBlock (revert_batch (bh_Height h) diff) saveTemp c = Ok c'.

(** The steps of [deleteBlock] that only read the chain. *)
Definition reads_chain {T} (m : exec T) (V : Chain S → T → Prop) : Prop :=
  ∀ c, triple (λ s, x_chain s = c) m (λ x s, x_chain s = c ∧ V c x) (λ s, x_chain s = c).

Lemma reads_bind {T U} (m : exec T) V (f : T → exec U) c Q (E : executer → Prop) :
  reads_chain m V → (∀ s, x_chain s = c → E s) → (∀ x, V c x → triple (λ s, x_chain s = c) (f x) Q E) →
  triple (λ s, x_chain s = c) (mbind f m) Q E.
Proof.
  intros Hm HE Hf. eapply triple_bind.
  - eapply triple_conseq; [apply (Hm c)|done|intros x s Hx; exact Hx|exact HE].
  - intros x s [Hs Hx]. by apply Hf.
Qed.

Lemma reads_fun {T} (f : executer → res T) (g : Chain S → res T) :
  (∀ s, f s = g (x_chain s)) → reads_chain (λ s, lift (f s) s) (λ c x, g c = Ok x).
Proof. intros Hfg c s Hs. cbn. rewrite Hfg, Hs. by destruct (g c) eqn:E. Qed.

Lemma reads_call {T} (f : A → res T * A) : reads_chain (call f) (λ _ _, True).
Proof. intros c s Hs. unfold call. by destruct (f (x_app s)) as [[x|e| |] a]. Qed.

Lemma deleteBlock_triple block saveTemp c :
  triple (λ s, x_chain s = c) (deleteBlock block saveTemp) (λ _ s, removes c block saveTemp (x_chain s)) (λ s, x_chain s = c).
Proof.
  unfold deleteBlock.
  eapply reads_bind; [apply (reads_fun _ (λ c, GetFinalizedHeight (dataAccess c))); done|done|intros f Hf].
  eapply (reads_bind _ (λ _ h, b_Header block = Some h)); [|done|intros h Hh].
  { intros c' s Hs. unfold header_of. cbn. by destruct (b_Header block). }
  destruct (Z.leb_spec (bh_Height h) f) as [|Hlt]; [by intros s Hs|].
  eapply reads_bind; [apply (reads_fun _ (λ c, da_GetBlockHeaderByHeight (dataAccess c) (u32 (bh_Height h - 1)))); done|done|intros second _].
  eapply (reads_bind _ (λ _ _, True)); [by intros c' s|done|intros store _].
  eapply (reads_bind _ (λ _ _, True)); [|done|intros abi _].
  { intros c'. unfold newBlockExecuteABI. eapply reads_bind; [apply reads_call|done|intros resp _]. by intros s. }
  apply triple_deferred; [|done|done].
  eapply (reads_bind _ (λ c v, p_get (da_database (dataAccess c)) (diff_key (bh_Height h)) = v)); [|done|intros v Hv].
  { intros c' s Hs. cbn [gets fst snd]. unfold x_database. rewrite Hs. done. }
  destruct v as [v|]; [|by intros s Hs].
  eapply (reads_bind _ (λ _ diff, Message_Decode (A := Diff) v = Ok diff)); [|done|intros diff Hd].
  { intros c' s Hs. unfold lift. cbn [fst snd]. by destruct (Message_Decode v) eqn:E. }
  eapply (reads_bind _ (λ _ _, True)); [|done|intros ? _].
  { intros c'. unfold stateReverter_Revert. eapply reads_bind; [apply reads_call|done|intros resp _]. by intros s. }
  eapply (triple_bind _ _ (λ _ s, removes c block saveTemp (x_chain s))); [|by intros ? s].
  intros s Hs. cbn beta. rewrite Hs. fold (revert_batch (bh_Height h) diff).
  destruct (RemoveBlock _ _ _) as [c'|e| |] eqn:E; cbn [fst snd]; [|done..]. by exists h, f, v, diff.
Qed.

Lemma revert_batch_head height diff op :
  (∀ op, op ∈ RevertDiff [] diff → head_in [10] op) → op ∈ revert_batch height diff → head_in [10; 51] op.
Proof.
  intros Hd. unfold revert_batch, Batch_Del. rewrite elem_of_app, list_elem_of_singleton. intros [Hop|Hop].
  - destruct (Hd op Hop) as (y & x & E & Hy). exists y, x. split; [done|]. apply list_elem_of_singleton in Hy as ->. left.
  - subst op. exists 51, (Bytes.FromUint32 height). split; [cbn [op_key]; apply diff_key_cons|right; left].
Qed.

Lemma removes_rep c bs cached b f saveTemp c' :
  final_rep c (bs ++ [b]) (cached ++ [b]) f → removes c b saveTemp c' →
  f < block_height b ∧ final_rep c' bs cached f ∧ genesisBlock c' = genesisBlock c ∧ maxBlockCache c' = maxBlockCache c ∧ bs ≠ [].
Proof using H0 H2 H4 Horder.
  intros Hf (h & f' & v & diff & Hh & Hf' & Hlt & Hv & Hd & Hrem). pose proof Hf as [Hch Hfin Hfw Hg Hdiffs].
  rewrite (GetFinalizedHeight_rep _ _ _ _ Hf) in Hf'. injection Hf' as <-. destruct (header_of_Some _ _ Hh) as (_ & _ & Eh).
  split; [lia|]. rewrite diff_key_cons in Hv. destruct (Hdiffs _ v Hv) as (diff' & Hd' & Hheads). assert (diff' = diff) as -> by congruence.
  assert (bs ≠ []) as Hne.
  { intros ->. pose proof (ch_heights _ _ _ Hch O b eq_refl). lia. }
  destruct (RemoveBlock_rep c bs cached (revert_batch (bh_Height h) diff) b saveTemp Hch Hne)
    as (ch' & ops & h2 & E & Hch' & Hm & Hgen & Hh2 & Hops & Hdb).
  { intros op Hop. destruct (revert_batch_head _ _ _ Hheads Hop) as (y & x & -> & Hy). apply not_block_key. set_solver. }
  rewrite E in Hrem. injection Hrem as <-. split; [|done].
  assert (∀ x v', p_get (da_database (dataAccess ch')) (51 :: x) = Some v' → p_get (da_database (dataAccess c)) (51 :: x) = Some v') as Hkeep.
  { intros x v'. rewrite Hdb, Write_app, (Write_other_head _ _ [3; 4; 5; 6; 7; 8; 9]).
    - unfold revert_batch, Batch_Del. rewrite Write_app. cbn [Write foldl apply_op]. rewrite p_get_del. case_match; [done|].
      fold (Write (RevertDiff [] diff) (da_database (dataAccess c))). rewrite (Write_other_head _ _ [10]); [done|done|set_solver].
    - intros op Hop. rewrite Hops in Hop. by eapply remove_ops_head.
    - set_solver. }
  split; [done| |done|by rewrite Hgen|].
  - rewrite Hdb, Write_app, (Write_other_head _ _ [3; 4; 5; 6; 7; 8; 9]).
    + rewrite (Write_other_head _ _ [10; 51]); [done| |set_solver]. intros op Hop. by eapply revert_batch_head.
    + intros op Hop. rewrite Hops in Hop. by eapply remove_ops_head.
    + set_solver.
  - intros x v' Hx. by apply (Hdiffs x), Hkeep.
Qed.

Lemma last_block_rep c bs cached b :
  chain_rep c bs cached → LastBlock c = Some b → ∃ bs0 cached0, bs = bs0 ++ [b] ∧ cached = cached0 ++ [b].
Proof.
  intros Hch Hl. rewrite (LastBlock_rep _ _ _ Hch) in Hl. apply last_Some in Hl as [cached0 ->].
  destruct (ch_suffix _ _ _ Hch) as [pre ->]. exists (pre ++ cached0), cached0. by rewrite app_assoc.
Qed.

(** Deleting a block is all or nothing, and finalized blocks stay.  If
    [deleteBlock] succeeds on the last block, that block was above the finalized
    height and the chain is the one before it, with the same finalized height;
    if it fails, the chain is what it was. *)
Theorem deleteBlock_keeps_finalized block saveTemp s bs cached f r s' :
  final_rep (x_chain s) bs cached f → LastBlock (x_chain s) = Some block →
  deleteBlock block saveTemp s = (r, s') →
  match r with
  | Ok _ => f < block_height block ∧ ∃ bs0 cached0, bs = bs0 ++ [block] ∧ cached = cached0 ++ [block] ∧
      final_rep (x_chain s') bs0 cached0 f
  | _ => x_chain s' = x_chain s
  end.
Proof using H0 H2 H4 Horder.
  intros Hf Hl E. pose proof (deleteBlock_triple block saveTemp (x_chain s) s eq_refl) as Ht. rewrite E in Ht. cbn [fst snd] in Ht.
  destruct r as [x|e| |]; [|done..]. destruct (last_block_rep _ _ _ _ (fr_chain _ _ _ _ Hf) Hl) as (bs0 & cached0 & -> & ->).
  destruct (removes_rep _ _ _ _ _ _ _ Hf Ht) as (? & ? & _). split; [done|]. by exists bs0, cached0.
Qed.

(** ** Receiving a block *)

(** A part [g] of the executer that neither the heap nor the application is
    part of, and the steps that leave it alone. *)
Class Apart {X} (g : executer → X) := {
  apart_heap h s : g (set_x_heap h s) = g s;
  apart_app a s : g (set_x_app a s) = g s;
}.
#[local] Instance events_apart : Apart x_events.
Proof. by split. Qed.
#[local] Instance chain_events_apart : Apart (λ s, (x_chain s, x_events s)).
Proof. by split. Qed.

Definition preserves {X T} (g : executer → X) (m : exec T) : Prop := ∀ s, g (m s).2 = g s.

Section preserves.
Context {X : Type} (g : executer → X) `{!Apart g}.

Lemma preserves_bind {T U} (m : exec T) (f : T → exec U) :
  preserves g m → (∀ x, preserves g (f x)) → preserves g (mbind f m).
Proof using.
  intros Hm Hf s. specialize (Hm s). unfold mbind, exec_bind. destruct (m s) as [[x|e| |] s1]; cbn [fst snd] in *; [|done..].
  by rewrite Hf.
Qed.
Lemma preserves_call {T} (f : A → res T * A) : preserves g (call f).
Proof. intros s. unfold call. destruct (f _) as [r a]. apply apart_app. Qed.
Lemma preserves_on_heap {T} (f : S → heap → res (T * heap)) : preserves g (on_heap f).
Proof. intros s. unfold on_heap. destruct (f _ _) as [[x h]|e| |]; [apply apart_heap|done..]. Qed.
Lemma preserves_modify f : (∀ s, g (f s) = g s) → preserves g (modify f).
Proof. by intros Hf s; apply Hf. Qed.
Lemma preserves_new_diffStore : preserves g new_diffStore.
Proof. intros s. unfold new_diffStore. destruct (New _ _). apply apart_heap. Qed.
End preserves.

(** Splits a step into parts that leave [g] alone. *)
Ltac preserves_step :=
  match goal with
  | |- preserves _ (mbind _ _) => apply preserves_bind; [|intros ?]
  | |- preserves _ (if ?b then _ else _) => destruct b
  | |- preserves _ (let '(_, _) := ?x in _) => destruct x
  | |- preserves _ (match ?x with _ => _ end) => destruct x
  | |- preserves _ (call _) => by apply preserves_call, _
  | |- preserves _ (on_heap_ _) => by apply preserves_on_heap, _
  | |- preserves _ (on_heap _) => by apply preserves_on_heap, _
  | |- preserves _ new_diffStore => by apply preserves_new_diffStore, _
  | |- preserves _ (modify _) => apply preserves_modify; intros ?; by try case_match
  | |- preserves _ _ => by intros ?
  end.
Ltac preserves := repeat preserves_step.

Lemma verifyBlock_events slot now store block : preserves x_events (verifyBlock slot now store block).
Proof. unfold verifyBlock. preserves. intros s. by case_match. Qed.

Lemma execute_transactions_events contextID block txs events :
  preserves x_events (execute_transactions (S := S) contextID block txs events).
Proof. revert events. induction txs as [|tx txs IH]; intros events; cbn [execute_transactions]; preserves. apply IH. Qed.

Lemma stateExecuter_Execute_events bft c store block : preserves x_events (stateExecuter_Execute bft c store block).
Proof. unfold stateExecuter_Execute, getABIConsensus, set_validators. preserves; apply execute_transactions_events. Qed.

(** Events that say nothing of the chain. *)
Definition silent (evs : list consensus_event) : Prop :=
  Forall (λ e, match e with BlockNew _ _ | BlockDelete _ => False | _ => True end) evs.

Definition log_is (log : list consensus_event) (s : executer) : Prop := x_events s = log.

Lemma events_bind {T U} (m : exec T) (f : T → exec U) log Q :
  preserves x_events m → (∀ x, triple (log_is log) (f x) Q (log_is log)) → triple (log_is log) (mbind f m) Q (log_is log).
Proof.
  intros Hm Hf. apply (triple_bind _ _ (λ _, log_is log)); [|done]. intros s Hs. specialize (Hm s). unfold log_is in *.
  destruct (m s) as [[x|e| |] s1]; cbn [fst snd] in *; congruence.
Qed.

(** Exactly the accepted block is announced. *)
Lemma processValidated_events bft slot now block publish rt log :
  triple (log_is log) (processValidated commit_order bft slot now block publish rt)
    (λ _ s, ∃ pre events post, x_events s = log ++ pre ++ BlockNew block events :: post ∧ silent pre ∧ silent post)
    (log_is log).
Proof.
  unfold processValidated. apply events_bind; [preserves|intros store]. apply events_bind; [apply verifyBlock_events|intros _].
  apply events_bind; [preserves|intros h]. apply events_bind; [unfold newBlockExecuteABI; preserves|intros abi].
  apply triple_deferred; [|done|done].
  apply events_bind; [unfold stateExecuter_Verify; preserves|intros _]. apply events_bind; [preserves|intros _].
  apply events_bind; [apply stateExecuter_Execute_events|intros [params abi']]. apply events_bind; [preserves|intros resultParams].
  case_match; [by intros s Hs|]. case_match; [by intros s Hs|].
  apply events_bind; [preserves|intros current]. apply events_bind; [preserves|intros [[? maxPre] ?]].
  apply events_bind; [preserves|intros [batch diff]]. do 2 (apply events_bind; [preserves|intros ?]).
  apply events_bind; [unfold stateExecuter_Commit; preserves|intros _].
  apply events_bind; [intros s; by case_match|intros b].
  apply events_bind; [intros s; unfold add_block; by destruct (AddBlock _ _ _ _ _ _)|intros _].
  apply (triple_bind _ _ (λ _ s, ∃ pre, x_events s = log ++ pre ∧ silent pre)).
  { intros s Hs. unfold log_is in Hs. destruct (current <? maxPre); cbn; [|by exists []; rewrite app_nil_r; split; [|constructor]].
    rewrite Hs. eexists. split; [reflexivity|]. by repeat constructor. }
  intros _ s (pre & Hs & Hpre). unfold mbind, exec_bind. cbn [publish_event modify]. destruct params; cbn; rewrite Hs.
  - eexists pre, _, [_]. rewrite <-!app_assoc. split_and!; [done|done|by repeat constructor].
  - eexists pre, _, []. rewrite <-!app_assoc. split_and!; [done|done|constructor].
Qed.

Lemma deleteBlock_events block saveTemp log :
  triple (log_is log) (deleteBlock block saveTemp) (λ _ s, x_events s = log ++ [BlockDelete block]) (log_is log).
Proof.
  unfold deleteBlock. do 2 (apply events_bind; [preserves|intros ?]). case_match; [by intros s Hs|].
  do 2 (apply events_bind; [preserves|intros ?]). apply events_bind; [unfold newBlockExecuteABI; preserves|intros abi].
  apply triple_deferred; [|done|done]. apply events_bind; [preserves|intros [v|]]; [|by intros s Hs].
  apply events_bind; [preserves|intros diff]. apply events_bind; [unfold stateReverter_Revert; preserves|intros _].
  apply events_bind; [intros s; by destruct (RemoveBlock _ _ _)|intros _]. intros s Hs. unfold log_is in Hs. cbn. by rewrite Hs.
Qed.

(** The chain that the events announce, starting from [bs]. *)
Fixpoint replay (bs : list Block) (evs : list consensus_event) : list Block :=
  match evs with
  | [] => bs
  | BlockNew b _ :: evs => replay (bs ++ [b]) evs
  | BlockDelete _ :: evs => replay (removelast bs) evs
  | _ :: evs => replay bs evs
  end.

(** Every announced block was new to the chain of its time: sealed, with a new
    ID and new transactions. *)
Fixpoint new_blocks (genesis : Block) (bs : list Block) (evs : list consensus_event) : Prop :=
  match evs with
  | [] => True
  | BlockNew b _ :: evs => may_extend genesis bs b ∧ new_blocks genesis (bs ++ [b]) evs
  | BlockDelete _ :: evs => new_blocks genesis (removelast bs) evs
  | _ :: evs => new_blocks genesis bs evs
  end.

Lemma replay_app bs evs evs' : replay bs (evs ++ evs') = replay (replay bs evs) evs'.
Proof. revert bs. induction evs as [|[] evs IH]; intros bs; cbn [app replay]; [done|apply IH..]. Qed.

Lemma new_blocks_app genesis bs evs evs' :
  new_blocks genesis bs (evs ++ evs') ↔ new_blocks genesis bs evs ∧ new_blocks genesis (replay bs evs) evs'.
Proof. revert bs. induction evs as [|[] evs IH]; intros bs; cbn [app replay new_blocks]; [tauto|rewrite IH; tauto..]. Qed.

Lemma silent_replay bs evs evs' : silent evs → replay bs (evs ++ evs') = replay bs evs'.
Proof. induction 1 as [|[] evs]; by cbn [app replay]. Qed.
Lemma silent_new genesis bs evs evs' : silent evs → new_blocks genesis bs (evs ++ evs') ↔ new_blocks genesis bs evs'.
Proof. induction 1 as [|[] evs]; by cbn [app new_blocks]. Qed.

(** The chain goes from [c] to [c'] as the events say, and keeps what was
    finalized. *)
Definition evolves (c : Chain S) (evs : list consensus_event) (c' : Chain S) : Prop :=
  ∀ bs cached f, final_rep c bs cached f → new_blocks (genesisBlock c) bs evs →
    ∃ cached' f', f ≤ f' ∧ final_rep c' (replay bs evs) cached' f' ∧ genesisBlock c' = genesisBlock c ∧
      ∀ b, b ∈ bs → block_height b ≤ f → b ∈ replay bs evs.

Lemma evolves_refl c : evolves c [] c.
Proof. intros bs cached f Hf _. exists cached, f. split_and!; [lia|done|done|done]. Qed.

Lemma evolves_trans c evs c1 evs' c2 : evolves c evs c1 → evolves c1 evs' c2 → evolves c (evs ++ evs') c2.
Proof.
  intros H01 H12 bs cached f Hf [Hn Hn']%new_blocks_app. destruct (H01 bs cached f Hf Hn) as (cached1 & f1 & Hle1 & Hf1 & Hg1 & Hk1).
  rewrite <-Hg1 in Hn'. destruct (H12 _ cached1 f1 Hf1 Hn') as (cached2 & f2 & Hle2 & Hf2 & Hg2 & Hk2). exists cached2, f2.
  rewrite replay_app. split_and!; [lia|done|congruence|]. intros b Hb Hbf. apply Hk2; [by apply Hk1|lia].
Qed.

(** A step from [s] changes the chain as the events it publishes say. *)
Definition safe_at {T} (m : exec T) (s : executer) : Prop :=
  ∃ evs, x_events (m s).2 = x_events s ++ evs ∧ evolves (x_chain s) evs (x_chain (m s).2).

Lemma safe_at_still {T} (m : exec T) s : preserves (λ s, (x_chain s, x_events s)) m → safe_at m s.
Proof. intros Hm. specialize (Hm s). injection Hm as Hc He. exists []. rewrite Hc, He, app_nil_r. split; [done|apply evolves_refl]. Qed.

Lemma safe_at_bind {T U} (m : exec T) (f : T → exec U) s :
  safe_at m s → (∀ x s1, m s = (Ok x, s1) → safe_at (f x) s1) → safe_at (mbind f m) s.
Proof.
  intros (evs & He & Hev) Hf. unfold safe_at, mbind, exec_bind. destruct (m s) as [[x|e| |] s1]; cbn [fst snd] in *; [|by exists evs..].
  destruct (Hf x s1 eq_refl) as (evs' & He' & Hev'). exists (evs ++ evs'). rewrite He', He, app_assoc. split; [done|by eapply evolves_trans].
Qed.

Lemma safe_at_logged (m : exec ()) s : safe_at m s → safe_at (logged m) s.
Proof. unfold safe_at, logged. by destruct (m s) as [[x|e| |] s1]. Qed.

Lemma safe_at_deferred {T} g (m : exec T) s :
  (∀ s, x_chain (g s) = x_chain s ∧ x_events (g s) = x_events s) → safe_at m s → safe_at (deferred g m) s.
Proof. intros Hg. unfold safe_at, deferred. destruct (m s) as [r s1]. cbn [fst snd]. destruct (Hg s1) as [-> ->]. done. Qed.

Lemma processValidated_safe bft slot now block publish rt s : safe_at (processValidated commit_order bft slot now block publish rt) s.
Proof using H0 H2 H4 Horder.
  pose proof (processValidated_triple bft slot now block publish rt s s eq_refl) as Ht.
  pose proof (processValidated_events bft slot now block publish rt (x_events s) s eq_refl) as He. unfold safe_at.
  destruct (processValidated _ _ _ _ _ _ _ s) as [[[]|e| |] s'] eqn:E; cbn [fst snd] in *.
  2-4: exists []; rewrite app_nil_r; (split; [done|]); intros bs cached f Hf Hn; rewrite (unchanged_rep _ _ _ _ _ _ _ Hf Ht);
    exact (evolves_refl _ bs cached f Hf Hn).
  destruct He as (pre & events & post & He & Hpre & Hpost). eexists. split; [exact He|]. intros bs cached f Hf Hn.
  rewrite silent_new in Hn by done. cbn [new_blocks] in Hn. destruct Hn as [Hmay _].
  destruct (adds_rep _ _ _ _ _ _ _ _ Hf Ht (λ _, Hmay)) as (_ & Hg & _ & cm & h & ev & fin & pr & rm & Hle & Hf' & _).
  rewrite silent_replay by done. cbn [replay]. rewrite <-(app_nil_r post), silent_replay by done. cbn [replay].
  eexists _, fin. split_and!; [done|exact Hf'|done|]. intros b Hb _. apply elem_of_app. by left.
Qed.

(** Deleting the last block. *)
Lemma deleteBlock_safe block saveTemp s : LastBlock (x_chain s) = Some block → safe_at (deleteBlock block saveTemp) s.
Proof using H0 H2 H4 Horder.
  intros Hl. pose proof (deleteBlock_triple block saveTemp (x_chain s) s eq_refl) as Ht.
  pose proof (deleteBlock_events block saveTemp (x_events s) s eq_refl) as He. unfold safe_at.
  destruct (deleteBlock block saveTemp s) as [[[]|e| |] s'] eqn:E; cbn [fst snd] in *.
  2-4: exists []; rewrite app_nil_r; (split; [done|]); rewrite Ht; apply evolves_refl.
  eexists. split; [exact He|]. intros bs cached f Hf _.
  destruct (last_block_rep _ _ _ _ (fr_chain _ _ _ _ Hf) Hl) as (bs0 & cached0 & -> & ->).
  destruct (removes_rep _ _ _ _ _ _ _ Hf Ht) as (Hlt & Hf0 & Hg & _ & _). cbn [replay]. rewrite removelast_last.
  exists cached0, f. split_and!; [lia|done|done|]. intros b [Hb|Hb]%elem_of_app Hbf; [done|].
  apply list_elem_of_singleton in Hb as ->. lia.
Qed.

Lemma createSyncContext_still block peerID : preserves (λ s, (x_chain s, x_events s)) (createSyncContext block peerID).
Proof. unfold createSyncContext. preserves. Qed.

(** Whatever block [process] receives. *)
Lemma process_safe syncer_Sync bft slot now block peerID s :
  (∀ ctx s, safe_at (syncer_Sync ctx) s) → safe_at (process commit_order syncer_Sync bft slot now block peerID) s.
Proof using H0 H2 H4 Horder.
  intros Hsync. unfold process.
  apply safe_at_bind; [apply safe_at_still; preserves|intros lastBlock s1 E]. unfold lift in E. injection E as Hlast <-.
  do 2 (apply safe_at_bind; [apply safe_at_still; preserves|intros ? ? [= _ <-]]).
  apply safe_at_bind; [apply safe_at_still; preserves|intros lastReceived ? [= _ <-]].
  assert (LastBlock (x_chain s) = Some lastBlock) as Hl by (unfold last_block in Hlast; by destruct (LastBlock _); [injection Hlast as ->|]).
  destruct (fork_choice _); try (apply safe_at_still; by preserves).
  - apply safe_at_bind; [apply safe_at_still; preserves|intros ? ? _].
    apply safe_at_bind; [apply safe_at_still; preserves|intros ? ? _]. apply processValidated_safe.
  - apply safe_at_bind; [apply safe_at_still; preserves|intros ? ? [= _ <-]].
    apply safe_at_bind; [apply safe_at_still; preserves|intros ? ? [= _ <-]].
    apply safe_at_bind; [by apply deleteBlock_safe|intros ? ? _].
    apply safe_at_bind; [apply safe_at_logged, processValidated_safe|intros [|] ? _]; [apply safe_at_still; preserves|].
    apply safe_at_bind; [apply safe_at_logged, processValidated_safe|intros ? ? _]. apply safe_at_still. preserves.
  - apply safe_at_bind; [apply safe_at_still, createSyncContext_still|intros ctx ? _].
    apply safe_at_bind; [apply safe_at_still; preserves|intros ? ? _]. by apply safe_at_deferred.
Qed.

(** ** Processing and deleting are inverse *)

Lemma Write_at (b : Batch) (db1 db2 : S) k : p_get db1 k = p_get db2 k → p_get (Write b db1) k = p_get (Write b db2) k.
Proof using H0.
  unfold Write. revert db1 db2. induction b as [|op b IH]; intros db1 db2 E; [done|]. cbn [foldl]. apply IH.
  rewrite !apply_op_get. unfold update. by case_match.
Qed.

Lemma header_by_height_rep c bs cached b h :
  chain_rep c bs cached → b ∈ bs → b_Header b = Some h → da_GetBlockHeaderByHeight (dataAccess c) (block_height b) = Ok h.
Proof using H0 H2 H4.
  intros Hch Hb Hh. pose proof (GetBlockByHeight_rep c bs cached Hch b Hb) as E. unfold GetBlockByHeight in E.
  unfold da_GetBlockHeaderByHeight. destruct (bc_getByHeight _ _).
  - injection E as ->. by apply header_of_Some.
  - ok_steps. cbn [mbind res_bind]. unfold getBlock in E. ok_steps. cbn [b_Header] in Hh. by injection Hh as ->.
Qed.

(** The application agrees to the two calls of [deleteBlock] for the block with
    header [h] on top of [previous]. *)
Definition accepts_revert (h previous : BlockHeader) (a : A) : Prop :=
  ∃ resp a1 resp2 a2, app_InitStateMachine (mkInitStateMachineRequest (Some h)) a = (Ok resp, a1) ∧
    app_Revert (mkRevertRequest (InitStateMachineResponse_ContextID resp) (bh_StateRoot h) (bh_StateRoot previous)) a1 = (Ok resp2, a2).

(** Only the application can refuse. *)
Lemma deleteBlock_run block saveTemp s h f previous v diff c' :
  b_Header block = Some h → GetFinalizedHeight (dataAccess (x_chain s)) = Ok f → f < bh_Height h →
  da_GetBlockHeaderByHeight (dataAccess (x_chain s)) (u32 (bh_Height h - 1)) = Ok previous →
  p_get (x_database s) (diff_key (bh_Height h)) = Some v → Message_Decode (A := Diff) v = Ok diff →
  RemoveBlock (revert_batch (bh_Height h) diff) saveTemp (x_chain s) = Ok c' →
  match deleteBlock block saveTemp s with
  | (Ok _, s') => accepts_revert h previous (x_app s) ∧ x_chain s' = c'
  | (_, s') => ¬ accepts_revert h previous (x_app s) ∧ x_chain s' = x_chain s
  end.
Proof.
  intros Hh Hf Hlt Hsecond Hv Hd Hrem. unfold deleteBlock, mbind, exec_bind, finalized_height.
  rewrite Hf. unfold lift at 1. rewrite (proj1 (header_of_Some _ _ Hh)). cbv beta iota zeta.
  destruct (Z.leb_spec (bh_Height h) f); [lia|]. unfold lift at 1. rewrite Hsecond. cbv beta iota zeta.
  unfold new_diffStore. destruct (New _ _) as [d hp]. cbv beta iota zeta. unfold newBlockExecuteABI, call, mbind, exec_bind.
  cbn [x_app set_x_heap]. unfold accepts_revert.
  destruct (app_InitStateMachine (mkInitStateMachineRequest (Some h)) (x_app s)) as [[resp|e| |] a'] eqn:Ei; cbv beta iota zeta;
    [|split; [by intros (? & ? & ? & ? & ? & _)|done]..].
  unfold ret at 1. cbv beta iota zeta. unfold deferred, gets. unfold Get. cbn [x_database x_chain set_x_app set_x_heap].
  change (x_database (set_x_app a' (set_x_heap hp s))) with (x_database s). rewrite Hv. unfold lift. rewrite Hd.
  unfold stateReverter_Revert, call, mbind, exec_bind. cbn [x_app set_x_app se_contextID].
  destruct (app_Revert _ a') as [[resp2|e| |] a2] eqn:Er; cbv beta iota zeta; [|split; [intros (? & ? & ? & ? & [= -> ->] & ?); congruence|done]..].
  unfold ret. cbn [x_chain set_x_app set_x_heap]. fold (revert_batch (bh_Height h) diff). rewrite Hrem. cbv beta iota zeta.
  split; [by exists resp, a', resp2, a2|done].
Qed.

(** The state keys after a revert. *)
Lemma reverted_state db cm h block events fin pruned removed rt height ops heads k :
  state_cache db cm → Forall (λ op, ∃ x, op = BDel (9 :: x)) pruned → diffs_below fin removed →
  (∀ op, op ∈ ops → head_in heads op) → 10 ∉ heads → state_key k →
  p_get (Write (revert_batch height (c_commit (commit_order cm) []).2 ++ ops)
    (Write (commit_batch cm (bh_Height h) removed ++ save_ops h block events fin pruned rt) db)) k = p_get db k.
Proof using H0 H2 H4 Horder.
  intros Hcm Hp Hr Hops Hheads [x ->]. rewrite Write_app, (Write_other_head ops _ heads) by done.
  unfold revert_batch, Batch_Del. rewrite RevertDiff_ops, Write_app. cbn [app].
  rewrite (Write_other_head [BDel _] _ [51]).
  - rewrite <-(revert_get db cm (commit_order cm) (proj1 Hcm) (Horder cm) (10 :: x)). apply Write_at.
    rewrite (saved_state db cm Hcm (Horder cm)) by (done || by exists x). symmetry. apply (commit_view db cm _ (proj1 Hcm) (Horder cm)).
  - intros op ->%list_elem_of_singleton. exists 51, (Bytes.FromUint32 height). split; [cbn [op_key]; apply diff_key_cons|left].
  - clear. intros ?%list_elem_of_singleton. done.
Qed.

(** C11: Deleting the block that was processed last undoes it, if the application
    agrees.  Let [processValidated] have added a block that is new to the chain
    and that it did not finalize.  Then only the application can refuse
    [deleteBlock] of this block, by failing InitStateMachine with its header or
    Revert to the state root of the previous block; in this case the chain is
    left as it is.  Otherwise the deletion succeeds: every key of the consensus
    state has the value from before the block, and the stored chain is the one
    before the block, in whatever order Go visits the cache of the consensus
    store. *)
Theorem deleteBlock_undoes_processValidated bft slot now block publish rt saveTemp s bs cached f s1 f1 h previous :
  final_rep (x_chain s) bs cached f → last_header (x_chain s) = Ok previous → b_Header block = Some h →
  processValidated commit_order bft slot now block publish rt s = (Ok (), s1) → may_extend (genesisBlock (x_chain s)) bs block →
  GetFinalizedHeight (dataAccess (x_chain s1)) = Ok f1 → f1 < block_height block →
  match deleteBlock block saveTemp s1 with
  | (Ok _, s2) => accepts_revert h previous (x_app s1) ∧ (∃ cached2, final_rep (x_chain s2) bs cached2 f1) ∧
      ∀ k, state_key k → p_get (x_database s2) k = p_get (x_database s) k
  | (_, s2) => ¬ accepts_revert h previous (x_app s1) ∧ x_chain s2 = x_chain s1
  end.
Proof using H0 H2 H4 Horder.
  intros Hf Hlast Hhd E Hfresh Hf1 Hlt. pose proof (processValidated_triple bft slot now block publish rt s s eq_refl) as Ht.
  rewrite E in Ht. cbn [fst snd] in Ht.
  destruct (last_header_rep _ _ _ _ (fr_chain _ _ _ _ Hf) Hlast) as (bs0 & _ & b0 & Hbs & _ & Hb0 & _ & El).
  destruct (adds_rep _ _ _ _ _ _ _ _ Hf Ht (λ _, Hfresh)) as (_ & Hg & _ & cm & h0 & ev & fin & pruned & removed & Hle & Hf' & Hh & Hcm & Hsd & Hr & Hp & Ebh & Hdb).
  rewrite (GetFinalizedHeight_rep _ _ _ _ Hf') in Hf1. injection Hf1 as ->. assert (h = h0) as <- by congruence. destruct (header_of_Some _ _ Hh) as (_ & _ & Eh).
  destruct Hfresh as [Hw _]. pose proof (fr_genesis _ _ _ _ Hf) as Hgf. pose proof (fr_width _ _ _ _ Hf) as Hfw. unfold u32_ok in Hfw.
  assert (u32_ok (bh_Height h)) as Hu by (unfold u32_ok; rewrite <-Eh; lia).
  assert (p_get (x_database s1) (diff_key (bh_Height h)) = Some (Encode (c_commit (commit_order cm) []).2)) as Hv.
  { unfold x_database. rewrite Hdb. apply (saved_diff _ cm Hcm (Horder cm)); [done|done|done|lia]. }
  pose proof (decode_diff cm Hsd) as Hd.
  set (cached2 := if maxBlockCache (x_chain s) <=? len cached then tail cached else cached).
  change (pushed (maxBlockCache (x_chain s)) cached block) with (cached2 ++ [block]) in Hf'.
  pose proof (λ op, revert_head _ cm Hcm (Horder cm) op) as Hheads.
  destruct (RemoveBlock_rep (x_chain s1) bs cached2 (revert_batch (bh_Height h) (c_commit (commit_order cm) []).2) block saveTemp)
    as (c2 & ops & h2 & Erem & Hch2 & _ & _ & Hh2 & Hops & Hdb2).
  { apply (fr_chain _ _ _ _ Hf'). }
  { rewrite Hbs. by destruct bs0. }
  { intros op Hop. destruct (revert_batch_head _ _ _ Hheads Hop) as (y & x & -> & Hy). apply not_block_key. set_solver. }
  pose proof (deleteBlock_run block saveTemp s1 h f1 previous (Encode (c_commit (commit_order cm) []).2) (c_commit (commit_order cm) []).2 c2) as Hrun.
  destruct (deleteBlock block saveTemp s1) as [r s2] eqn:Edel. specialize (Hrun Hh).
  assert (match r with Ok _ => accepts_revert h previous (x_app s1) ∧ x_chain s2 = c2
          | _ => ¬ accepts_revert h previous (x_app s1) ∧ x_chain s2 = x_chain s1 end) as Hres.
  { apply Hrun; [by eapply GetFinalizedHeight_rep|lia| |exact Hv|exact Hd|exact Erem].
    replace (u32 (bh_Height h - 1)) with (block_height b0).
    - apply (header_by_height_rep _ _ _ _ _ (fr_chain _ _ _ _ Hf')); [|done]. rewrite Hbs. set_solver.
    - destruct (header_of_Some _ _ Hb0) as (_ & _ & ->). unfold u32_ok in Hu. rewrite El. unfold u32. rewrite Z.mod_small; lia. }
  clear Hrun. destruct r as [x|e| |]; [|exact Hres..]. destruct Hres as [Hacc Hc2]. split; [done|]. split.
  - exists cached2. rewrite Hc2. eapply removes_rep; [exact Hf'|]. by exists h, f1, (Encode (c_commit (commit_order cm) []).2), (c_commit (commit_order cm) []).2; split_and!; [done|apply (GetFinalizedHeight_rep _ _ _ _ Hf')|lia|..].
  - intros k Hk. unfold x_database. rewrite Hc2, Hdb2, Hdb. eapply (reverted_state _ _ _ _ _ _ _ _ _ _ _ [3; 4; 5; 6; 7; 8; 9]); try done.
    + intros op Hop. rewrite Hops in Hop. by eapply remove_ops_head.
    + clear. set_solver.
Qed.

(** ** The genesis block *)

Definition genesis_adds (c : Chain S) (block : Block) (r : res ()) (c' : Chain S) : Prop :=
  ∃ cm h events, b_Header block = Some h ∧ state_cache (da_database (dataAccess c)) cm ∧ short_diff cm ∧
    AddBlock (commit_batch cm (bh_Height h) []) block events (bh_Height h) false c = (r, c').

Lemma ExecuteGenesis_quiet (p : nat) store bft abi block : state_view p store → quiet p (ExecuteGenesis bft abi store block).
Proof using H0. intros Hview. unfold ExecuteGenesis. quiet. by apply set_validators_quiet. Qed.

Lemma processGenesisBlock_triple bft block s0 :
  triple (λ s, s = s0) (processGenesisBlock commit_order bft block)
    (λ _ s, genesis_adds (x_chain s0) block (Ok ()) (x_chain s))
    (λ s, x_chain s = x_chain s0 ∨ ∃ r, r ≠ Ok () ∧ genesis_adds (x_chain s0) block r (x_chain s)).
Proof using H0.
  set (c := x_chain s0). set (p := length (x_heap s0)). set (E := λ s : executer, x_chain s = c ∨ ∃ r, r ≠ Ok () ∧ genesis_adds c block r (x_chain s)).
  change (triple (λ s, s = s0) (processGenesisBlock commit_order bft block) (λ _ s, genesis_adds c block (Ok ()) (x_chain s)) E).
  assert (∀ s, inv c p s → E s) as HE by (intros s [Hc _]; by left).
  unfold processGenesisBlock. eapply (triple_bind _ _ (λ _ s, s = s0)).
  { intros s ->. unfold lift. destruct (Block_ValidateGenesis block); cbn [fst snd]; [done|by left..]. }
  intros _. apply triple_start. intros store Hv. fold c p in Hv |- *.
  eapply gives_bind; [apply header_gives|exact HE|intros h Hh].
  eapply gives_bind; [apply quiet_gives, newBlockExecuteABI_quiet|exact HE|intros abi _].
  apply triple_deferred; [|done|by intros s [|]; [left|right]].
  eapply gives_bind; [by apply quiet_gives, ExecuteGenesis_quiet|exact HE|intros abi' _].
  eapply gives_bind; [apply quiet_gives, quiet_on_heap; intros; keeps|exact HE|intros resultParams _].
  case_match; [by intros s Hs; apply HE|].
  eapply gives_bind; [apply quiet_gives, quiet_lift|exact HE|intros root _].
  case_match; [by intros s Hs; apply HE|].
  eapply gives_bind; [apply commit_store_gives, Hv|exact HE|intros [batch diff] (cm & Hcm & Hb)].
  eapply gives_bind; [apply go_bytes_gives|exact HE|intros ? [-> Hshort]].
  assert (short_diff cm) as Hsd by (unfold short_diff; by rewrite <-Hb).
  eapply gives_bind; [apply quiet_gives; unfold stateExecuter_Commit; quiet|exact HE|intros ? _].
  intros s [Hc _]. unfold add_block. rewrite Hc.
  assert (Batch_Set (diff_key (bh_Height h)) (Encode diff) batch = commit_batch cm (bh_Height h) []) as ->
    by (unfold commit_batch; rewrite <-Hb; cbn [fst snd]; by rewrite app_nil_r).
  destruct (AddBlock _ _ _ _ _ _) as [r c'] eqn:Ea. cbn [fst snd].
  assert (genesis_adds c block r (x_chain (set_x_chain c' s))) as Ha by (by exists cm, h, (se_events abi')).
  destruct r as [[]|e| |]; [done|right; eexists; by split; [|exact Ha]..].
Qed.

Lemma processGenesisBlock_rep bft block s r s' :
  chain_rep (x_chain s) [] [] → genesisBlock (x_chain s) = block → extends block [] block →
  (∀ x, p_get (x_database s) (51 :: x) = None) →
  processGenesisBlock commit_order bft block s = (r, s') →
  match r with
  | Ok _ => final_rep (x_chain s') [block] [block] (block_height block)
  | _ => x_chain s' = x_chain s
  end.
Proof using H0 H2 H4 Horder.
  intros Hch Hg Hext Hno E. pose proof (processGenesisBlock_triple bft block s s eq_refl) as Ht. rewrite E in Ht. cbn [fst snd] in Ht.
  assert (diffs_below (block_height block) []) as Hr by (by intros op ?%not_elem_of_nil).
  assert (∀ r c', genesis_adds (x_chain s) block r c' → r = Ok () ∧ final_rep c' [block] [block] (block_height block)) as Hadd.
  { intros r' c' (cm & h & events & Hh & Hcm & Hsd & Ha). destruct (header_of_Some _ _ Hh) as (_ & _ & Eh).
    destruct (AddBlock_rep (x_chain s) [] [] (commit_batch cm (bh_Height h) []) block events (bh_Height h) false Hch)
      as (ch' & pruned & h2 & E' & Hch' & _ & Hgen & Hh2 & Hp & Hdb); [by rewrite Hg|by eapply commit_batch_outside|].
    rewrite E' in Ha. injection Ha as <- <-. split; [done|]. rewrite Hh in Hh2. injection Hh2 as <-. rewrite Eh in Hr |- *.
    split.
    - assert (pushed (maxBlockCache (x_chain s)) [] block = [block]) as Epush by (unfold pushed; by destruct (_ <=? _)).
      by rewrite Epush in Hch'.
    - rewrite Hdb. by eapply saved_finalized.
    - rewrite <-Eh. apply Hext.
    - rewrite Hgen, Hg, Eh. lia.
    - intros x v Hx. rewrite Hdb in Hx.
      destruct (saved_diffs _ cm Hcm (Horder cm) h block events (bh_Height h) pruned [] false Hp Hr x v Hx) as [->|Hx'];
        [by eapply committed_diff_ok|].
      change (da_database (dataAccess (x_chain s))) with (x_database s) in Hx'. by rewrite Hno in Hx'. }
  assert (∀ s' : executer, (x_chain s' = x_chain s ∨ ∃ r, r ≠ Ok () ∧ genesis_adds (x_chain s) block r (x_chain s')) → x_chain s' = x_chain s) as Hun.
  { intros s2 [?|(r2 & Hr2 & Ha)]; [done|]. by destruct (Hadd _ _ Ha) as [-> _]. }
  destruct r as [[]|e| |]; [|by apply Hun..]. by apply (Hadd (Ok ())).
Qed.

(** C37: The genesis block starts the chain.  On an empty store
    [processGenesisBlock] either fails and leaves the chain empty, or stores the
    genesis block as the only, finalized block.  This establishes the invariant
    that the other operations keep. *)
Theorem processGenesisBlock_starts bft block s r s' :
  chain_rep (x_chain s) [] [] → genesisBlock (x_chain s) = block → extends block [] block →
  (∀ x, p_get (x_database s) (51 :: x) = None) →
  processGenesisBlock commit_order bft block s = (r, s') →
  match r with
  | Ok _ => final_rep (x_chain s') [block] [block] (block_height block)
  | _ => x_chain s' = x_chain s
  end.
Proof using H0 H2 H4 Horder. apply processGenesisBlock_rep. Qed.
End triples.

(** ** A concrete run *)

Definition pad64 (key : bytes) : bytes := take 64 (key ++ replicate 64 0).
Definition toy_ed : Ed25519 := {|
  Sign key message := pad64 key;
  Verify publicKey message signature := bytes_equal signature (pad64 publicKey);
|}.

Definition sample_validator : LabiValidator := mkLabiValidator (replicate 20 1) 1 [7] [5].

(** An application that accepts everything and sets one validator at genesis. *)
Definition sample_app : Application () := {|
  app_InitStateMachine _ a := (Ok (mkInitStateMachineResponse [1]), a);
  app_InitGenesisState _ a := (Ok (mkInitGenesisStateResponse [] 1 1 [sample_validator]), a);
  app_VerifyAssets _ a := (Ok (), a);
  app_BeforeTransactionsExecute _ a := (Ok (mkBeforeTransactionsExecuteResponse []), a);
  app_VerifyTransaction _ a := (Ok (mkVerifyTransactionResponse 1), a);
  app_ExecuteTransaction _ a := (Ok (mkExecuteTransactionResponse [] 1), a);
  app_AfterTransactionsExecute _ a := (Ok (mkAfterTransactionsExecuteResponse [] 0 0 []), a);
  app_Commit _ a := (Ok (mkCommitResponse []), a);
  app_Revert _ a := (Ok (mkRevertResponse []), a);
  app_Clear a := a;
|}.

Definition sample_validatorsHash : bytes := ComputeValidatorsHash (H := toy_hash) [mkhashValidator [5] 1] 1.

Definition sample_genesis : Block :=
  Block_Init (H := ascii_norm) (H0 := toy_hash)
    (mkBlock (Some (mkBlockHeader [] 0 0 0 (replicate 32 0) (replicate 20 0) (emptyHash (H := toy_hash))
       (BlockAssets_GetRoot (H := ascii_norm) (H0 := toy_hash) []) (emptyHash (H := toy_hash)) [] 0 0 false sample_validatorsHash (Some (mkAggregateCommit 0 [] [])) [])) [] []).

Definition sample_block1 : Block :=
  Block_Init (H := ascii_norm) (H0 := toy_hash)
    (mkBlock (Some (mkBlockHeader [] 2 10 1 (block_ID sample_genesis) (replicate 20 1)
       (CalculateRoot (H := toy_hash) [tx_ID (Transaction_Init (H := ascii_norm) (H0 := toy_hash) sample_tx)])
       (BlockAssets_GetRoot (H := ascii_norm) (H0 := toy_hash) []) (emptyHash (H := toy_hash)) [] 0 0 false sample_validatorsHash
       (Some (mkAggregateCommit 0 [] [])) (pad64 [7]))) [sample_tx] []).

Definition sample_executer : executer (S := gmap bytes bytes) (A := ()) :=
  mkExecuter (NewChain_Init [1] 100 515 (-1) sample_genesis ∅) [] () NewPool false None [] [].
Definition sample_order (c : cacheDB) : list (bytes * cacheValue) := map_to_list c.

(** The chain after the genesis block and after the first block. *)
Definition sample_run0 : res () * executer :=
  processGenesisBlock (H0 := ascii_norm) (H1 := toy_hash) (H4 := sample_app) sample_order (Module_Init 103) sample_genesis sample_executer.

Definition sample_process : res () * executer :=
  processValidated (H0 := ascii_norm) (H1 := toy_hash) (H2 := toy_bls) (H3 := toy_ed) (H4 := sample_app) sample_order (Module_Init 103)
    (mkBlockSlot 0 10) 15 sample_block1 true false sample_run0.2.

Lemma sample_genesis_extends : sample_extends sample_genesis [] sample_genesis.
Proof. concrete_extends. Qed.
Lemma sample_block1_extends : sample_extends sample_genesis [sample_genesis] sample_block1.
Proof. concrete_extends. Qed.

Lemma sample_order_ok cm : sample_order cm ≡ₚ map_to_list cm.
Proof. done. Qed.

Lemma sample_executer_rep : chain_rep (H1 := ascii_norm) (H3 := toy_hash) (x_chain sample_executer) [] [].
Proof. apply NewChain_rep; [by eexists|lia|done]. Qed.

Lemma sample_run0_rep : final_rep (H1 := ascii_norm) (H3 := toy_hash) (x_chain sample_run0.2) [sample_genesis] [sample_genesis] 0.
Proof.
  pose proof (processGenesisBlock_rep (H2 := ascii_norm_laws) (H4 := toy_hash_laws) (H7 := sample_app) sample_order sample_order_ok
    (Module_Init 103) sample_genesis sample_executer sample_run0.1 sample_run0.2 sample_executer_rep eq_refl sample_genesis_extends) as Hr.
  assert (sample_run0.1 = Ok ()) as E by (vm_compute; reflexivity). rewrite E in Hr. apply Hr; [by intros x|].
  unfold sample_run0 in *. destruct (processGenesisBlock _ _ _ _). cbn [fst snd] in *. by rewrite E.
Qed.

Lemma sample_genesis_same : genesisBlock (x_chain sample_run0.2) = sample_genesis.
Proof. vm_compute. reflexivity. Qed.

Lemma sample_may_extend : may_extend (H1 := ascii_norm) (H3 := toy_hash) (genesisBlock (x_chain sample_run0.2)) [sample_genesis] sample_block1.
Proof. rewrite sample_genesis_same. split; [by vm_compute|]. intros _. apply sample_block1_extends. Qed.

Lemma sample_process_Ok :
  processValidated (H0 := ascii_norm) (H1 := toy_hash) (H2 := toy_bls) (H3 := toy_ed) (H4 := sample_app) sample_order (Module_Init 103)
    (mkBlockSlot 0 10) 15 sample_block1 true false sample_run0.2 = (Ok (), sample_process.2).
Proof. fold sample_process. rewrite (surjective_pairing sample_process) at 1. assert (sample_process.1 = Ok ()) as -> by (vm_compute; reflexivity). done. Qed.

Lemma sample_process_rep :
  ∃ f, final_rep (H1 := ascii_norm) (H3 := toy_hash) (x_chain sample_process.2) [sample_genesis; sample_block1]
    [sample_genesis; sample_block1] f ∧ 0 ≤ f.
Proof.
  pose proof (processValidated_rep (H2 := ascii_norm_laws) (H4 := toy_hash_laws) sample_order sample_order_ok (Module_Init 103)
    (mkBlockSlot 0 10) 15 sample_block1 true false sample_run0.2 _ _ _ (Ok ()) sample_process.2 sample_run0_rep sample_process_Ok (λ _, sample_may_extend))
    as (f & Hle & Hf). exists f. done.
Qed.

Lemma processGenesisBlock_starts_witness :
  final_rep (H1 := ascii_norm) (H3 := toy_hash) (x_chain sample_run0.2) [sample_genesis] [sample_genesis] (block_height sample_genesis).
Proof.
  pose proof (processGenesisBlock_starts (H2 := ascii_norm_laws) (H4 := toy_hash_laws) (H7 := sample_app) sample_order sample_order_ok
    (Module_Init 103) sample_genesis sample_executer sample_run0.1 sample_run0.2 sample_executer_rep eq_refl sample_genesis_extends) as Hr.
  assert (sample_run0.1 = Ok ()) as E by (vm_compute; reflexivity). rewrite E in Hr. apply Hr; [by intros x|].
  unfold sample_run0 in *. destruct (processGenesisBlock _ _ _ _). cbn [fst snd] in *. by rewrite E.
Defined.

Lemma processValidated_all_or_nothing_witness :
  ∃ f, final_rep (H1 := ascii_norm) (H3 := toy_hash) (x_chain sample_process.2) [sample_genesis; sample_block1]
    [sample_genesis; sample_block1] f.
Proof.
  pose proof (processValidated_all_or_nothing (H2 := ascii_norm_laws) (H4 := toy_hash_laws) sample_order sample_order_ok (Module_Init 103)
    (mkBlockSlot 0 10) 15 sample_block1 true false sample_run0.2 _ _ _ (Ok ()) sample_process.2 sample_run0_rep sample_process_Ok (λ _, sample_may_extend))
    as (f & _ & Hf). exists f. exact Hf.
Defined.

Lemma sample_last : LastBlock (x_chain sample_process.2) = Some sample_block1.
Proof. destruct sample_process_rep as (f & [Hch _ _ _ _] & _). by rewrite (LastBlock_rep (H2 := ascii_norm_laws) (H4 := toy_hash_laws) _ _ _ Hch). Qed.

Lemma deleteBlock_keeps_finalized_witness :
  ∃ f s', deleteBlock (H0 := ascii_norm) (H1 := toy_hash) (H4 := sample_app) sample_block1 true sample_process.2 = (Ok (), s') ∧
    final_rep (H1 := ascii_norm) (H3 := toy_hash) (x_chain s') [sample_genesis] [sample_genesis] f.
Proof.
  destruct sample_process_rep as (f & Hf & _). exists f.
  destruct (deleteBlock (H0 := ascii_norm) (H1 := toy_hash) (H4 := sample_app) sample_block1 true sample_process.2) as [r s'] eqn:E.
  assert (r = Ok ()) as ->.
  { change r with (fst (r, s')). rewrite <-E. vm_compute. reflexivity. }
  exists s'. split; [done|].
  destruct (deleteBlock_keeps_finalized (H2 := ascii_norm_laws) (H4 := toy_hash_laws) (H7 := sample_app) sample_order sample_order_ok
    sample_block1 true sample_process.2 _ _ f (Ok ()) s' Hf sample_last E) as (_ & bs0 & cached0 & E1 & E2 & Hf').
  change [sample_genesis; sample_block1] with ([sample_genesis] ++ [sample_block1]) in E1, E2.
  apply app_inj_tail in E1 as [<- _]. apply app_inj_tail in E2 as [<- _]. exact Hf'.
Defined.

Lemma deleteBlock_undoes_processValidated_witness :
  ∃ s2, deleteBlock (H0 := ascii_norm) (H1 := toy_hash) (H4 := sample_app) sample_block1 true sample_process.2 = (Ok (), s2) ∧
    ∀ k, state_key k → p_get (x_database s2) k = p_get (x_database sample_run0.2) k.
Proof.
  destruct (b_Header sample_genesis) as [h0|] eqn:E0; [|discriminate E0]. destruct (b_Header sample_block1) as [h1|] eqn:E1; [|discriminate E1].
  pose proof (deleteBlock_undoes_processValidated (H2 := ascii_norm_laws) (H4 := toy_hash_laws) (H5 := toy_bls) (H6 := toy_ed)
    (H7 := sample_app) sample_order sample_order_ok
    (Module_Init 103) (mkBlockSlot 0 10) 15 sample_block1 true false true sample_run0.2 _ _ 0 sample_process.2 0 h1 h0 sample_run0_rep) as Hd.
  destruct (deleteBlock sample_block1 true sample_process.2) as [r s2] eqn:Er.
  assert (r = Ok ()) as -> by (change r with (fst (r, s2)); rewrite <-Er; vm_compute; reflexivity).
  exists s2. split; [done|]. apply Hd.
  - unfold last_header, last_block. rewrite (LastBlock_rep (H2 := ascii_norm_laws) (H4 := toy_hash_laws) _ _ _ (fr_chain _ _ _ _ sample_run0_rep)).
    cbn [last mbind res_bind]. unfold header_of. by rewrite E0.
  - exact E1.
  - exact sample_process_Ok.
  - exact sample_may_extend.
  - vm_compute. reflexivity.
  - by vm_compute.
Defined.
