(* ===== verification/Sync.v ===== *)
(** * Sync: synchronising with another chain

    pkg/consensus/sync: sync.go, fast_sync.go, block_sync.go, download.go,
    request.go, node_info.go and peer_selection.go.  The network is part of the
    outside world, as the application is: a request is a call that returns an
    answer, an error or the timeout.  The random choice of a peer and the
    iteration order of Go maps are parameters.  A download may go on for ever; it
    has a bound on the number of requests. *)

From S2P Require Import Prelude Collection Codec CodecSpec Message Crypto RMT BlockTypes Block DB DiffDB Event ForkChoice BFTTypes Votes LiskBFT LabiTypes NetTypes Certificate DataAccess Commits Execute.

(** ** node_info.go and peer_selection.go *)

Definition NewNodeInfo (height maxHeightPrevoted blockVersion : Z) (lastBlockID : bytes) : NodeInfo :=
  mkNodeInfo [] height maxHeightPrevoted blockVersion lastBlockID.

Definition set_PeerID (peer : bytes) (n : NodeInfo) : NodeInfo :=
  mkNodeInfo peer (NodeInfo_height n) (NodeInfo_maxHeightPrevoted n) (NodeInfo_blockVersion n) (NodeInfo_lastBlockID n).

(** The loop of the two functions that keep the largest value. *)
Fixpoint largest_by (value : NodeInfo → Z) (maxValue : Z) (result info : list NodeInfo) : list NodeInfo :=
  match info with
  | [] => result
  | val :: info =>
      if maxValue <? value val then largest_by value (value val) [val] info
      else if value val =? maxValue then largest_by value maxValue (result ++ [val]) info
      else largest_by value maxValue result info
  end.

Definition getLargestMaxHeightPrevotedNodeInfo (info : list NodeInfo) : list NodeInfo :=
  match info with
  | [] => []
  | first :: _ => largest_by NodeInfo_maxHeightPrevoted (NodeInfo_maxHeightPrevoted first) [] info
  end.

Definition getLargestHeightNodeInfo (info : list NodeInfo) : list NodeInfo :=
  match info with
  | [] => []
  | first :: _ => largest_by NodeInfo_height (NodeInfo_height first) [] info
  end.

Definition frequencies (info : list NodeInfo) : gmap bytes Z :=
  foldl (λ frequency val,
    <[NodeInfo_lastBlockID val := default 0 (frequency !! NodeInfo_lastBlockID val) + 1]> frequency) ∅ info.

(** [max] stays 0: the last ID of the iteration is taken.  An ID that is empty
    is not nil. *)
Definition last_frequent (order : list (bytes * Z)) : option bytes :=
  foldl (λ blockID '(idStr, count), if 0 <? count then Some idStr else blockID) None order.

Section selection.
Context (map_order : gmap bytes Z → list (bytes * Z)) (rand_Intn : Z → Z).

Definition getMostFrequesntBlockIDNodeInfo (info : list NodeInfo) : list NodeInfo :=
  match last_frequent (map_order (frequencies info)) with
  | None => []
  | Some blockID => List.filter (λ val, bytes_equal (NodeInfo_lastBlockID val) blockID) info
  end.

Definition getBestNodeInfo (nodeInfos : list NodeInfo) : res NodeInfo :=
  if len nodeInfos =? 0 then Err (Errorf "peer does not exist to select")
  else
    let highestMaxPrevotedGroup := getLargestMaxHeightPrevotedNodeInfo nodeInfos in
    let highestHeightGroup := getLargestHeightNodeInfo highestMaxPrevotedGroup in
    let selectedInfo := getMostFrequesntBlockIDNodeInfo highestHeightGroup in
    if len selectedInfo <=? 0 then Panic else index selectedInfo (rand_Intn (len selectedInfo)).
End selection.

(** ** Heights to ask for *)

(** [getLastHeights]: [num - 1] heights from [start] down to 0. *)
Fixpoint last_heights_loop (fuel : nat) (i start num : Z) : list Z :=
  match fuel with
  | O => []
  | S fuel =>
      if i <? num - 1 then
        if start <? u32 i then [] else u32 (start - u32 i) :: last_heights_loop fuel (i + 1) start num
      else []
  end.
Definition getLastHeights (start num : Z) : list Z := last_heights_loop (Z.to_nat (num - 1)) 0 start num.

(** A round has at least one validator, and the float64 quotient of a uint32 is
    exact enough for its ceiling. *)
Definition getCommonBlockStartSearchHeight (height roundLength : Z) : Z :=
  let currentRound := (height + roundLength - 1) / roundLength in
  if currentRound =? 0 then 0 else u32 ((currentRound - 1) * roundLength).

Fixpoint gap_loop (fuel : nat) (i start minimum gap num : Z) : list Z :=
  match fuel with
  | O => []
  | S fuel =>
      if i <? num - 1 then
        if start <? u32 (minimum + u32 (i * gap)) then []
        else u32 (start - u32 (i * gap)) :: gap_loop fuel (i + 1) start minimum gap num
      else []
  end.
Definition getHeightWithGap (start minimum gap num : Z) : list Z :=
  if start <=? minimum then [minimum] else gap_loop (Z.to_nat (num - 1)) 0 start minimum gap num.

(** ** The network *)

Inductive endpoint := RPCEndpointGetLastBlock | RPCEndpointGetHighestCommonBlock | RPCEndpointGetBlocksFromID.

(** A response has data, which may be nil, or an error; an error also stands for
    the timeout of the request. *)
Class Network (A : Type) := {
  net_ConnectedPeers : A → list bytes;
  net_RequestFrom : bytes → endpoint → bytes → A → res (option bytes) * A;
  net_BanPeer : bytes → A → A;
}.

Section sync.
Context {S A : Type} `{Pebble S} `{Norm, Hasher, BLS, Ed25519, Application A} `{!Network A}.
Abbreviation exec := (@exec S A).

Definition ban (peer : bytes) : exec () := modify (λ s, set_x_app (net_BanPeer peer (x_app s)) s).

(** ** request.go *)

Definition requestLastBlockHeader (peerID : bytes) : exec BlockHeader :=
  data ← call (net_RequestFrom peerID RPCEndpointGetLastBlock []);
  block ← lift (NewBlock (default [] data));
  lift (header_of block).

Definition requestHighestCommonBlock (peerID : bytes) (ids : list bytes) : exec bytes :=
  data ← call (net_RequestFrom peerID RPCEndpointGetHighestCommonBlock (Encode (mkgetHighestCommonBlockRequest ids)));
  resp ← lift (Message_Decode (A := getHighestCommonBlockResponse) (default [] data));
  if len (getHighestCommonBlockResponse_id resp) =? 0 then fail ErrCommonBlockNotFound
  else ret (getHighestCommonBlockResponse_id resp).

Definition requestBlocksFromID (peerID id : bytes) : exec (list Block) :=
  data ← call (net_RequestFrom peerID RPCEndpointGetBlocksFromID (Encode (mkgetBlocksFromIDRequest id)));
  match data with
  | None => fail (Errorf "peer did not return common block")
  | Some data =>
      resp ← lift (Message_Decode (A := getBlocksFromIDResponse) data);
      lift (map_res NewBlock (getBlocksFromIDResponse_blocks resp))
  end.

(** Gives the error to a handler. *)
Definition on_error {T} (m : exec T) (handler : error → exec T) : exec T := λ s,
  let '(r, s) := m s in match r with Err e => handler e s | _ => (r, s) end.

(** ** The synchronisers *)

Context (commit_order : cacheDB → list (bytes * cacheValue)).
Context (map_order : gmap bytes Z → list (bytes * Z)) (rand_Intn : Z → Z).
Context (bft : Module_) (slot : BlockSlot) (now : Z).

(** [s.processor] and [s.reverter]. *)
Definition processor (block : Block) (publish removeTemp : bool) : exec () :=
  processValidated commit_order bft slot now block publish removeTemp.
Definition reverter (block : Block) (saveTemp : bool) : exec () := deleteBlock block saveTemp.

Definition read_chain {T} (f : Chain S → res T) : exec T := λ s, lift (f (x_chain s)) s.
Definition lastBlock_ : exec Block := read_chain last_block.
Definition lastHeader_ : exec BlockHeader := read_chain last_header.
Definition clear_temp : exec () :=
  modify (λ s, set_x_chain (set_dataAccess (ClearTempBlocks (dataAccess (x_chain s))) (x_chain s)) s).

(** Each round deletes one block: the height of the chain bounds the rounds. *)
Fixpoint delete_loop (fuel : nat) (lastBlockHeight commonHeight : Z) : exec () :=
  match fuel with
  | O => λ s, (OutOfFuel, s)
  | Datatypes.S fuel =>
      if lastBlockHeight =? commonHeight then ret ()
      else
        lastBlock ← lastBlock_;
        _ ← reverter lastBlock true;
        lastHeader ← lastHeader_;
        delete_loop fuel (bh_Height lastHeader) commonHeight
  end.

Definition deleteTillCommonBlock (commonBlock : BlockHeader) : exec () :=
  lastHeader ← lastHeader_;
  delete_loop (Z.to_nat (bh_Height lastHeader + 2)) (bh_Height lastHeader) (bh_Height commonBlock).

Fixpoint process_all (blocks : list Block) (publish removeTemp : bool) : exec () :=
  match blocks with
  | [] => ret ()
  | block :: blocks => _ ← processor block publish removeTemp; process_all blocks publish removeTemp
  end.

(** download.go: the consumer of the channel handles each block of an answer
    before the next request.  [take_blocks] returns the ID of the last block and
    whether it is the end. *)
Fixpoint take_blocks (handle : Block → exec ()) (end_ lastFetchedID : bytes) (blocks : list Block) : exec (bytes * bool) :=
  match blocks with
  | [] => ret (lastFetchedID, false)
  | block :: blocks =>
      header ← lift (header_of block);
      _ ← handle block;
      if bytes_equal (bh_ID header) end_ then ret (bh_ID header, true)
      else take_blocks handle end_ (bh_ID header) blocks
  end.

Fixpoint Downloader_Start (fuel : nat) (handle : Block → exec ()) (peerID startID end_ lastFetchedID : bytes) : exec () :=
  match fuel with
  | O => λ s, (OutOfFuel, s)
  | Datatypes.S fuel =>
      blocks ← requestBlocksFromID peerID startID;
      '(lastFetchedID, isLast) ← take_blocks handle end_ lastFetchedID (SortBlockByHeightAsc blocks);
      if (isLast : bool) then ret () else Downloader_Start fuel handle peerID lastFetchedID end_ lastFetchedID
  end.

(** ** fast_sync.go *)

Definition getCommonBlock (ctx : SyncContext) (lastBlockHeader : BlockHeader) : exec BlockHeader :=
  let heights := getLastHeights (bh_Height lastBlockHeader) (len (sy_CurrentValidators ctx) * 2) in
  headers ← read_chain (λ c, GetBlockHeadersByHeights (dataAccess c) heights);
  blockID ← on_error (requestHighestCommonBlock (sy_PeerID ctx) (bh_ID <$> headers))
    (λ e, if bool_decide (e = ErrCommonBlockNotFound) then _ ← ban (sy_PeerID ctx); fail e else fail e);
  read_chain (λ c, GetBlockHeader (dataAccess c) blockID).

(** The blocks that were downloaded are collected in the order of the channel. *)
Definition validate_downloaded (ctx : SyncContext) (block : Block) : exec () :=
  on_error (lift (Block_Validate block)) (λ e, _ ← ban (sy_PeerID ctx); fail e).

Fixpoint collect_blocks (ctx : SyncContext) (end_ lastFetchedID : bytes) (blocks : list Block) : exec (list Block * bytes * bool) :=
  match blocks with
  | [] => ret ([], lastFetchedID, false)
  | block :: blocks =>
      header ← lift (header_of block);
      _ ← validate_downloaded ctx block;
      if bytes_equal (bh_ID header) end_ then ret ([block], bh_ID header, true)
      else
        '(rest, lastFetchedID, isLast) ← collect_blocks ctx end_ (bh_ID header) blocks;
        ret (block :: rest, lastFetchedID, isLast)
  end.

Fixpoint downloadAndValidate (fuel : nat) (ctx : SyncContext) (peerID startID end_ lastFetchedID : bytes) : exec (list Block) :=
  match fuel with
  | O => λ s, (OutOfFuel, s)
  | Datatypes.S fuel =>
      blocks ← requestBlocksFromID peerID startID;
      '(downloaded, lastFetchedID, isLast) ← collect_blocks ctx end_ lastFetchedID (SortBlockByHeightAsc blocks);
      if (isLast : bool) then ret downloaded
      else
        rest ← downloadAndValidate fuel ctx peerID lastFetchedID end_ lastFetchedID;
        ret (downloaded ++ rest)
  end.

Definition restoreBlocks (ctx : SyncContext) (commonBlockHeader : BlockHeader) : exec () :=
  _ ← deleteTillCommonBlock commonBlockHeader;
  blocks ← read_chain (λ c, GetTempBlocks (dataAccess c));
  process_all (SortBlockByHeightAsc blocks) (is_internal (sy_PeerID ctx)) true.

(** [true] is done; an error ends the synchronisation whatever comes with it. *)
Definition fastSyncer_Sync (fuel : nat) (ctx : SyncContext) : exec bool :=
  lastBlockHeader ← lastHeader_;
  commonBlockHeader ← getCommonBlock ctx lastBlockHeader;
  if bh_Height commonBlockHeader <? bh_Height (sy_FinalizedBlockHeader ctx) then
    _ ← ban (sy_PeerID ctx); fail (Errorf "received common block has hight lower than finalized block")
  else
    let twoRounds := u32 (u32 (len (sy_CurrentValidators ctx)) * 2) in
    blockHeader ← lift (header_of (sy_Block ctx));
    if (twoRounds <? u32 (bh_Height lastBlockHeader - bh_Height commonBlockHeader))
       || (twoRounds <? u32 (bh_Height blockHeader - bh_Height commonBlockHeader))
    then fail (Errorf "height diffference is greater than 2 rounds")
    else
      downloadedBlocks ← downloadAndValidate fuel ctx (sy_PeerID ctx) (bh_ID commonBlockHeader) (bh_ID blockHeader) [];
      _ ← deleteTillCommonBlock commonBlockHeader;
      _ ← on_error (process_all downloadedBlocks (is_internal (sy_PeerID ctx)) false)
        (λ e, _ ← restoreBlocks ctx commonBlockHeader; _ ← ban (sy_PeerID ctx); fail e);
      _ ← clear_temp;
      ret true.

(** ** block_sync.go *)

Definition peer_info (peer : bytes) : exec (option NodeInfo) := λ s,
  let '(r, s) := requestLastBlockHeader peer s in
  match r with
  | Ok h => (Ok (Some (set_PeerID peer (NewNodeInfo (bh_Height h) (bh_MaxHeightPrevoted h) (bh_Version h) (bh_ID h)))), s)
  | Err _ => (Ok None, s)
  | Panic => (Panic, s)
  | OutOfFuel => (OutOfFuel, s)
  end.

(** The requests to the peers are concurrent; here they run one after the other. *)
Fixpoint peer_infos (peers : list bytes) : exec (list NodeInfo) :=
  match peers with
  | [] => ret []
  | peer :: peers =>
      info ← peer_info peer;
      rest ← peer_infos peers;
      ret (match info with Some n => n :: rest | None => rest end)
  end.

(** Only for blocks of version 2: the other chain must have priority. *)
Definition has_no_priority (lastBlockHeader : BlockHeader) (maxHeightPrevoted height : Z) : bool :=
  (bh_Version lastBlockHeader =? 2)
  && negb (IsDifferentChain (bh_MaxHeightPrevoted lastBlockHeader) maxHeightPrevoted (bh_Height lastBlockHeader) height).

Definition getAndValidateNetworkLastBlock (nodeInfo : NodeInfo) : exec BlockHeader :=
  networkLastBlockHeader ← requestLastBlockHeader (NodeInfo_PeerID nodeInfo);
  _ ← on_error (lift (BlockHeader_Validate networkLastBlockHeader))
    (λ _, _ ← ban (NodeInfo_PeerID nodeInfo); fail (Errorf "invalid block received"));
  lastBlockHeader ← lastHeader_;
  if has_no_priority lastBlockHeader (bh_MaxHeightPrevoted networkLastBlockHeader) (bh_Height networkLastBlockHeader)
  then _ ← ban (NodeInfo_PeerID nodeInfo); fail (Errorf "last block received does not have priority")
  else ret networkLastBlockHeader.

(** The search goes down from [startingHeight]; an empty list of heights panics
    when nothing is found. *)
Fixpoint common_trials (trials : nat) (ctx : SyncContext) (nodeInfo : NodeInfo) (startingHeight : Z) : exec BlockHeader :=
  match trials with
  | O => fail (Errorf "fail to obtain common block")
  | Datatypes.S trials =>
      let heights := getHeightWithGap startingHeight (bh_Height (sy_FinalizedBlockHeader ctx)) (len (sy_CurrentValidators ctx)) 10 in
      headers ← read_chain (λ c, GetBlockHeadersByHeights (dataAccess c) heights);
      found ← on_error (blockID ← requestHighestCommonBlock (NodeInfo_PeerID nodeInfo) (bh_ID <$> headers); ret (Some blockID))
        (λ e, if bool_decide (e = ErrCommonBlockNotFound) then ret None else fail e);
      match found with
      | Some blockID => read_chain (λ c, GetBlockHeader (dataAccess c) blockID)
      | None =>
          lowest ← lift (index heights (len heights - 1));
          common_trials trials ctx nodeInfo (u32 (lowest - u32 (len (sy_CurrentValidators ctx))))
      end
  end.

Definition getCommonBlockHeader (ctx : SyncContext) (nodeInfo : NodeInfo) : exec BlockHeader :=
  lastHeader ← lastHeader_;
  common_trials 3 ctx nodeInfo (getCommonBlockStartSearchHeight (bh_Height lastHeader) (len (sy_CurrentValidators ctx))).

Definition process_downloaded (ctx : SyncContext) (block : Block) : exec () :=
  _ ← validate_downloaded ctx block;
  processor block (is_internal (sy_PeerID ctx)) false.

Definition blockSyncer_Sync (fuel : nat) (ctx : SyncContext) : exec bool :=
  peers ← gets (λ s, net_ConnectedPeers (x_app s));
  nodeInfos ← peer_infos peers;
  nodeInfo ← lift (getBestNodeInfo map_order rand_Intn nodeInfos);
  lastBlockHeader ← lastHeader_;
  if has_no_priority lastBlockHeader (NodeInfo_maxHeightPrevoted nodeInfo) (NodeInfo_height nodeInfo)
  then fail (Errorf "invalid to trigger sync condition")
  else
    networkLastBlockHeader ← getAndValidateNetworkLastBlock nodeInfo;
    commonBlock ← getCommonBlockHeader ctx nodeInfo;
    _ ← deleteTillCommonBlock commonBlock;
    _ ← Downloader_Start fuel (process_downloaded ctx) (NodeInfo_PeerID nodeInfo) (bh_ID commonBlock) (bh_ID networkLastBlockHeader) [];
    _ ← clear_temp;
    ret true.

(** ** sync.go *)

Definition shouldFastSync (ctx : SyncContext) (lastBlockHeader blockHeader : BlockHeader) : bool :=
  let twoRounds := len (sy_CurrentValidators ctx) * 2 in
  let diff := Z.abs (bh_Height blockHeader - bh_Height lastBlockHeader) in
  if twoRounds <? diff then false
  else existsb (λ address, bytes_equal address (bh_GeneratorAddress blockHeader)) (sy_CurrentValidators ctx).

Definition shouldSync (ctx : SyncContext) : bool :=
  let threeRounds := len (sy_CurrentValidators ctx) * 3 in
  let currentSlot := GetSlotNumber slot (u32 now) in
  let finalizedSlot := GetSlotNumber slot (bh_Timestamp (sy_FinalizedBlockHeader ctx)) in
  threeRounds <? currentSlot - finalizedSlot.

(** [for { done, err := m(); ... }]. *)
Fixpoint until_done (rounds : nat) (m : exec bool) : exec () :=
  match rounds with
  | O => λ s, (OutOfFuel, s)
  | Datatypes.S rounds => isDone ← m; if (isDone : bool) then ret () else until_done rounds m
  end.

Definition Syncer_Sync (fuel : nat) (ctx : SyncContext) : exec () :=
  _ ← lift (Block_Validate (sy_Block ctx));
  lastBlockHeader ← lastHeader_;
  blockHeader ← lift (header_of (sy_Block ctx));
  if shouldFastSync ctx lastBlockHeader blockHeader then until_done 1 (fastSyncer_Sync fuel ctx)
  else if shouldSync ctx then until_done 1 (blockSyncer_Sync fuel ctx)
  else ret ().

(** ** Answering requests *)

Inductive rpc_answer := Written (data : option bytes) | WrittenError (e : error) | Banned.

Definition HandleRPCEndpointGetLastBlock (c : Chain S) : res rpc_answer :=
  lastBlock ← last_block c;
  Ok (Written (Some (Block_Encode lastBlock))).

(** The headers of the known IDs, whatever the error for the others. *)
Fixpoint known_headers (d : DataAccess S) (ids : list bytes) : res (list BlockHeader) :=
  match ids with
  | [] => Ok []
  | id :: ids =>
      match GetBlockHeader d id with
      | Ok header => rest ← known_headers d ids; Ok (header :: rest)
      | Err _ => known_headers d ids
      | Panic => Panic
      | OutOfFuel => OutOfFuel
      end
  end.

Definition HandleRPCEndpointGetHighestCommonBlock (c : Chain S) (data : option bytes) : res rpc_answer :=
  match data with
  | None => Ok Banned
  | Some data =>
      match Message_Decode (A := GetHighestCommonBlockRequest) data with
      | Ok req =>
          let ids := GetHighestCommonBlockRequest_IDs req in
          if len ids =? 0 then Ok Banned
          else if negb (forallb (λ id, len id =? 32) ids) then Ok Banned
          else
            headers ← known_headers (dataAccess c) ids;
            match sort_slice (λ x y, bh_Height y <? bh_Height x) headers with
            | [] => Ok (Written None)
            | header :: _ => Ok (Written (Some (Encode (mkGetHighestCommonBlockResponse (bh_ID header)))))
            end
      | Err _ => Ok Banned
      | Panic => Panic
      | OutOfFuel => OutOfFuel
      end
  end.

Definition HandleRPCEndpointGetBlocksFromID (c : Chain S) (data : option bytes) : res rpc_answer :=
  match data with
  | None => Ok Banned
  | Some data =>
      match Message_Decode (A := GetBlocksFromIDRequest) data with
      | Ok req =>
          if negb (len (GetBlocksFromIDRequest_ID req) =? IDLength) then Ok Banned
          else
            match GetBlockHeader (dataAccess c) (GetBlocksFromIDRequest_ID req) with
            | Ok requestedBlock =>
                let from := u32 (bh_Height requestedBlock + 1) in
                lastHeader ← last_header c;
                to ← Ints.Min [u32 (bh_Height requestedBlock + 103); bh_Height lastHeader];
                match GetBlocksBetweenHeight (dataAccess c) from to with
                | Ok blocks => Ok (Written (Some (GetBlocksFromIDResponse_Encode (mkGetBlocksFromIDResponse blocks))))
                | Err e => Ok (WrittenError e)
                | Panic => Panic
                | OutOfFuel => OutOfFuel
                end
            | Err e => Ok (WrittenError e)
            | Panic => Panic
            | OutOfFuel => OutOfFuel
            end
      | Err _ => Ok Banned
      | Panic => Panic
      | OutOfFuel => OutOfFuel
      end
  end.
End sync.
