(* ===== verification/SyncSpec.v ===== *)
(** * SyncSpec: synchronising keeps the finalized blocks

    A step is [safe] when the chain changes as the events it publishes say and
    keeps the finalized blocks it started with, as long as the announced blocks
    were new.  Every step of the synchronisers is, so receiving a block is.  The
    deletion down to the common block ends, and the best peer is maximal. *)

From S2P Require Import Prelude Collection Codec CodecSpec Message Crypto RMT BlockTypes Block DB DiffDB Event ForkChoice BFTTypes Votes LiskBFT LabiTypes NetTypes Certificate DataAccess ChainSpec Commits StateInv Execute ExecuteSpec Sync.

Section safe.
Context {S A : Type} `{PebbleLaws S} `{NormLaws, HashLaws, BLS, Ed25519, Application A} `{!Network A}.
Abbreviation executer := (@executer S A).
Abbreviation exec := (@exec S A).

(** In every state the step changes the chain as the events it publishes say. *)
Definition safe {T} (m : exec T) : Prop := ∀ s, safe_at m s.

Lemma safe_still {T} (m : exec T) : (∀ s, x_chain (m s).2 = x_chain s ∧ x_events (m s).2 = x_events s) → safe m.
Proof. intros Hm s. apply safe_at_still. intros s'. by destruct (Hm s') as [-> ->]. Qed.

Lemma safe_bind {T U} (m : exec T) (f : T → exec U) : safe m → (∀ x, safe (f x)) → safe (mbind f m).
Proof. intros Hm Hf s. apply safe_at_bind; [apply Hm|]. intros x s1 _. apply Hf. Qed.

Lemma safe_on_error {T} (m : exec T) handler : safe m → (∀ e, safe (handler e)) → safe (on_error m handler).
Proof.
  intros Hm Hh s. destruct (Hm s) as (evs & He & Hev). unfold safe_at, on_error.
  destruct (m s) as [[x|e| |] s1]; cbn [fst snd] in *; [by exists evs| |by exists evs..].
  destruct (Hh e s1) as (evs' & He' & Hev'). exists (evs ++ evs'). rewrite He', He, app_assoc. split; [done|by eapply evolves_trans].
Qed.

Lemma safe_fuel {T} : safe (λ s, (OutOfFuel : res T, s)).
Proof. by apply safe_still. Qed.
Lemma safe_ret {T} (x : T) : safe (ret x).
Proof. by apply safe_still. Qed.
Lemma safe_fail {T} e : safe (fail (T := T) e).
Proof. by apply safe_still. Qed.
Lemma safe_lift {T} (x : res T) : safe (lift x).
Proof. by apply safe_still. Qed.
Lemma safe_call {T} (f : A → res T * A) : safe (call f).
Proof. apply safe_still. intros s. unfold call. by destruct (f (x_app s)). Qed.
Lemma safe_read {T} (f : Chain S → res T) : safe (read_chain f).
Proof. by apply safe_still. Qed.
Lemma safe_gets {T} (f : executer → T) : safe (gets f).
Proof. by apply safe_still. Qed.
Lemma safe_ban peer : safe (ban peer).
Proof. by apply safe_still. Qed.

(** ** Clearing the temporary blocks *)

Lemma in_bounds_7 k : in_bounds [7] k = true → ∃ x, k = 7 :: x.
Proof.
  unfold in_bounds. change (upperBound [7]) with (Some [8]). rewrite bytes_leb_ltb.
  destruct k as [|y x]; [done|]. rewrite !bytes_ltb_cons, bytes_ltb_nil_r, !andb_false_r, !orb_false_r.
  rewrite andb_true_iff, negb_true_iff, Z.ltb_ge, Z.ltb_lt. intros [? ?]. exists x. f_equal. lia.
Qed.

(** [ClearTempBlocks] writes a batch of temporary keys. *)
Lemma ClearTempBlocks_ops (d : DataAccess S) :
  ∃ ops, (∀ op, op ∈ ops → head_in [7] op) ∧ ClearTempBlocks d = set_da_database (Write ops (da_database d)) d.
Proof.
  unfold ClearTempBlocks. set (kvs := Iterate _ _ _ _).
  assert (∀ e, e ∈ kvs → ∃ x, e.1 = 7 :: x) as Hkv.
  { intros e He. apply in_bounds_7. unfold kvs, Iterate, iteratePrefix in He. apply elem_iter_loop in He as [He _].
    rewrite elem_of_reverse in He. by apply list_elem_of_filter in He as [? _]. }
  destruct kvs as [|e l] eqn:E.
  - exists []. split; [by intros op ?%not_elem_of_nil|]. by destruct d.
  - rewrite <-E in *. exists (BDel <$> kvs.*1). split.
    + intros op (k & -> & (e' & -> & He')%list_elem_of_fmap)%list_elem_of_fmap. destruct (Hkv e' He') as [x Ex].
      exists 7, x. split; [done|left].
    + f_equal. f_equal. rewrite <-(app_nil_l (BDel <$> _)), <-list_fmap_compose.
      exact (foldl_Batch (λ e : bytes * bytes, BDel e.1) kvs []).
Qed.

Lemma final_rep_write c bs cached f ops :
  (∀ op, op ∈ ops → head_in [7] op) → final_rep c bs cached f →
  final_rep (set_dataAccess (set_da_database (Write ops (da_database (dataAccess c))) (dataAccess c)) c) bs cached f.
Proof using H0 H2 H4.
  intros Hops [[Hst Hc Hsuf Hhs Hm Hgen] Hfin Hw Hg Hd].
  assert (∀ y x, y ≠ 7 → p_get (Write ops (da_database (dataAccess c))) (y :: x) = p_get (da_database (dataAccess c)) (y :: x)) as Hget.
  { intros y x Hy. apply (Write_other_head _ _ [7]); [done|]. by intros ->%list_elem_of_singleton. }
  split; cbn [dataAccess set_dataAccess da_database set_da_database genesisBlock].
  - split; cbn [dataAccess set_dataAccess da_database set_da_database da_cache genesisBlock maxBlockCache]; try done.
    destruct Hst as [He ? ? ? ? ?]. split; try done. intros k v Hk. rewrite <-He by done. destruct Hk as (y & x & -> & Hy).
    rewrite Hget; [done|]. intros ->. set_solver.
  - rewrite Hget by done. done.
  - done.
  - done.
  - intros x v. rewrite Hget by done. apply Hd.
Qed.

Lemma safe_clear_temp : safe clear_temp.
Proof using H0 H2 H4.
  intros s. exists []. cbn. rewrite app_nil_r. split; [done|]. intros bs cached f Hf _. exists cached, f.
  destruct (ClearTempBlocks_ops (dataAccess (x_chain s))) as (ops & Hops & E). rewrite E.
  split_and!; [lia|by apply final_rep_write|done|done].
Qed.

(** ** The synchronisers *)

Context (commit_order : cacheDB → list (bytes * cacheValue)) (Horder : ∀ cm, commit_order cm ≡ₚ map_to_list cm).
Context (map_order : gmap bytes Z → list (bytes * Z)) (rand_Intn : Z → Z).
Context (bft : Module_) (slot : BlockSlot) (now : Z).

Ltac safe_step :=
  match goal with
  | |- safe (mbind _ _) => apply safe_bind; [|intros ?]
  | |- safe (on_error _ _) => apply safe_on_error; [|intros ?]
  | |- safe (if ?b then _ else _) => destruct b
  | |- safe (let '(_, _) := ?x in _) => destruct x
  | |- safe (match ?x with _ => _ end) => destruct x
  | |- safe (ret _) => apply safe_ret
  | |- safe (fail _) => apply safe_fail
  | |- safe (lift _) => apply safe_lift
  | |- safe (call _) => apply safe_call
  | |- safe (gets _) => apply safe_gets
  | |- safe (read_chain _) => apply safe_read
  | |- safe lastHeader_ => apply safe_read
  | |- safe lastBlock_ => apply safe_read
  | |- safe (ban _) => apply safe_ban
  | |- safe clear_temp => apply safe_clear_temp
  | |- safe (λ s, (OutOfFuel, s)) => apply safe_fuel
  end.
Ltac safe_steps := repeat safe_step.

Abbreviation processor := (processor commit_order bft slot now).

Lemma safe_processor block publish rt : safe (processor block publish rt).
Proof using H0 H2 H4 Horder. intros s. by apply processValidated_safe. Qed.

(** The reverter is always applied to the last block. *)
Lemma safe_reverter {U} (f : exec U) : safe f → safe (lastBlock ← lastBlock_; _ ← reverter lastBlock true; f).
Proof using H0 H2 H4 Horder.
  intros Hf s. apply safe_at_bind; [apply safe_read|intros b s1 E]. unfold lastBlock_, read_chain, lift in E. injection E as Hb <-.
  apply safe_at_bind; [|intros x s1 _; apply Hf]. apply (deleteBlock_safe commit_order Horder).
  unfold last_block in Hb. by destruct (LastBlock _); [injection Hb as ->|].
Qed.

Lemma safe_delete_loop fuel last common : safe (delete_loop fuel last common).
Proof using H0 H2 H4 Horder.
  revert last. induction fuel as [|fuel IH]; intros last; cbn [delete_loop]; [apply safe_fuel|].
  destruct (last =? common); [apply safe_ret|]. refine (safe_reverter _ _). apply safe_bind; [apply safe_read|intros h; apply IH].
Qed.

Lemma safe_deleteTill common : safe (deleteTillCommonBlock common).
Proof using H0 H2 H4 Horder. unfold deleteTillCommonBlock. safe_steps. apply safe_delete_loop. Qed.

(** ** The deletion loop *)

(** The application answers the calls of the reverter, whatever the answer. *)
Definition app_answers : Prop :=
  (∀ req a, (app_InitStateMachine req a).1 ≠ OutOfFuel) ∧ (∀ req a, (app_Revert req a).1 ≠ OutOfFuel).

Lemma deleteBlock_returns block saveTemp s bs cached f :
  app_answers → final_rep (x_chain s) bs cached f → LastBlock (x_chain s) = Some block → (deleteBlock block saveTemp s).1 ≠ OutOfFuel.
Proof using H0 H2 H4 Horder.
  clear rand_Intn. intros [Hinit Hrev] Hf Hl. pose proof (fr_chain _ _ _ _ Hf) as Hch. destruct (last_block_rep _ _ _ _ Hch Hl) as (bs0 & cached0 & -> & ->).
  unfold deleteBlock, mbind, exec_bind, finalized_height. rewrite (GetFinalizedHeight_rep _ _ _ _ Hf). unfold lift at 1.
  destruct (b_Header block) as [h|] eqn:Hh; [|unfold header_of; by rewrite Hh]. destruct (header_of_Some _ _ Hh) as (-> & _ & Eh). cbv beta iota zeta.
  destruct (Z.leb_spec (bh_Height h) f) as [|Hlt]; [done|]. pose proof (fr_genesis _ _ _ _ Hf) as Hg.
  assert (∃ previous, da_GetBlockHeaderByHeight (dataAccess (x_chain s)) (u32 (bh_Height h - 1)) = Ok previous) as [previous Hp].
  { destruct bs0 as [|b0 bs1 _] using rev_ind; [pose proof (ch_heights _ _ _ Hch 0 block eq_refl); lia|].
    assert (b0 ∈ (bs1 ++ [b0]) ++ [block]) as Hin by set_solver.
    pose proof (sr_sealed _ _ (ch_store _ _ _ Hch)) as Hs. rewrite Forall_forall in Hs. destruct (sealed_header b0 (Hs _ Hin)) as (h0 & Hh0 & _).
    exists (BlockHeader_Init h0). rewrite <-(header_by_height_rep _ _ _ _ _ Hch Hin Hh0). f_equal.
    pose proof (ch_heights _ _ _ Hch (length bs1) b0) as E0. rewrite lookup_app_l, lookup_app_r, Nat.sub_diag in E0 by (rewrite ?length_app; cbn; lia).
    pose proof (ch_heights _ _ _ Hch (length (bs1 ++ [b0])) block) as E1. rewrite lookup_app_r, Nat.sub_diag in E1 by lia.
    specialize (E0 eq_refl). specialize (E1 eq_refl). rewrite length_app in E1. cbn [length] in E1.
    pose proof (sr_width _ _ (ch_store _ _ _ Hch)) as Hw. rewrite Forall_forall in Hw. specialize (Hw _ Hin). unfold u32_ok, u32 in *.
    rewrite Z.mod_small; lia. }
  unfold lift at 1. rewrite Hp. cbv beta iota zeta.
  unfold new_diffStore. destruct (New _ _) as [d hp]. cbv beta iota zeta. unfold newBlockExecuteABI, call, mbind, exec_bind.
  cbn [x_app set_x_heap]. pose proof (Hinit (mkInitStateMachineRequest (Some h)) (x_app s)) as Hi.
  destruct (app_InitStateMachine _ _) as [[resp|e| |] a']; cbn [fst] in Hi; [|done..].
  unfold ret at 1. cbv beta iota zeta. unfold deferred, gets, Get. change (x_database (set_x_app a' (set_x_heap hp s))) with (x_database s).
  destruct (p_get (x_database s) (diff_key (bh_Height h))) as [v|] eqn:Hv; [|done].
  rewrite diff_key_cons in Hv. destruct (fr_diffs _ _ _ _ Hf _ v Hv) as (diff & Hd & Hheads). unfold lift. rewrite Hd.
  unfold stateReverter_Revert, call, mbind, exec_bind. cbn [x_app set_x_app se_contextID].
  match goal with |- context [app_Revert ?q ?a] => pose proof (Hrev q a) as Hr; destruct (app_Revert q a) as [[resp2|e| |] a2] end;
    cbn [fst] in Hr; [|done..].
  unfold ret. cbn [x_chain set_x_app set_x_heap]. unfold RemoveBlock, last_block. rewrite Hl. cbn [mbind res_bind].
  rewrite (proj1 (header_of_Some _ _ Hh)). cbn [mbind res_bind]. unfold header_of. destruct (b_Header (genesisBlock (x_chain s))); [|done].
  cbn [mbind res_bind]. destruct (bh_Height h =? _); [done|]. unfold removeBlock, header_of. rewrite Hh. cbn [mbind res_bind]. done.
Qed.

(** One round: the chain loses its last block, which is above the finalized
    height, or it stays as it is and the loop ends. *)
Lemma delete_round s bs cached f hd :
  app_answers → final_rep (x_chain s) bs cached f → last_header (x_chain s) = Ok hd →
  ∃ b, lastBlock_ s = (Ok b, s) ∧
    match reverter b true s with
    | (Ok _, s') => f < bh_Height hd ∧ ∃ bs0 cached0, bs = bs0 ++ [b] ∧ final_rep (x_chain s') bs0 cached0 f ∧
        ∀ hd', last_header (x_chain s') = Ok hd' → bh_Height hd' = bh_Height hd - 1
    | (OutOfFuel, _) => False
    | (_, s') => x_chain s' = x_chain s
    end.
Proof using H0 H2 H4 Horder.
  intros Happ Hf Hl. pose proof (fr_chain _ _ _ _ Hf) as Hch.
  destruct (last_header_rep _ _ _ _ Hch Hl) as (bs0' & cached0' & b & Hbs & _ & Hb & Hlast & Eh). exists b.
  split; [unfold lastBlock_, read_chain, lift, last_block; by rewrite Hlast|].
  pose proof (deleteBlock_triple b true (x_chain s) s eq_refl) as Ht. fold (reverter (S := S) (A := A) b true) in Ht.
  pose proof (deleteBlock_returns b true s bs cached f Happ Hf Hlast) as Hret. fold (reverter (S := S) (A := A) b true) in Hret.
  destruct (reverter b true s) as [[x|e| |] s']; cbn [fst snd] in *; [|done..].
  destruct (last_block_rep _ _ _ _ Hch Hlast) as (bs0 & cached0 & -> & ->).
  destruct (removes_rep commit_order Horder _ _ _ _ _ _ _ Hf Ht) as (Hlt & Hf0 & Hg & _ & _).
  destruct (header_of_Some _ _ Hb) as (_ & _ & Ebh). split; [lia|]. exists bs0, cached0. split_and!; [done|done|].
  intros hd' Hl'. destruct (last_header_rep _ _ _ _ (fr_chain _ _ _ _ Hf0) Hl') as (_ & _ & _ & _ & _ & _ & _ & Eh').
  rewrite Hg in Eh'. rewrite len_app in Eh. change (len [b]) with 1 in Eh. lia.
Qed.

(** How a deletion ends: at the common block, or earlier with an error or a panic. *)
Definition deletion_ends (bs : list Block) (f common : Z) (out : res () * executer) : Prop :=
  ∃ bs0 cached0, bs0 `prefix_of` bs ∧ final_rep (x_chain out.2) bs0 cached0 f ∧
    match out.1 with
    | Ok _ => ∃ hd, last_header (x_chain out.2) = Ok hd ∧ bh_Height hd = common
    | Err _ | Panic => True
    | OutOfFuel => False
    end.

Lemma last_header_ends (c : Chain S) : last_header c ≠ OutOfFuel.
Proof. unfold last_header, last_block. destruct (LastBlock c) as [b|]; [|done]. cbn [mbind res_bind]. unfold header_of. by case_match. Qed.

Lemma delete_loop_spec n common s bs cached f hd :
  app_answers → final_rep (x_chain s) bs cached f → last_header (x_chain s) = Ok hd → (Z.to_nat (bh_Height hd) < n)%nat →
  (∀ m, (Z.to_nat (bh_Height hd) < m)%nat → delete_loop m (bh_Height hd) common s = delete_loop n (bh_Height hd) common s) ∧
  deletion_ends bs f common (delete_loop n (bh_Height hd) common s).
Proof using H0 H2 H4 Horder.
  intros Happ. revert s bs cached hd. induction n as [|n IH]; intros s bs cached hd Hf Hl Hn; [lia|].
  destruct (Z.eqb_spec (bh_Height hd) common) as [E|Hne].
  { split.
    - intros [|m] Hm; [lia|]. cbn [delete_loop]. apply Z.eqb_eq in E. by rewrite E.
    - cbn [delete_loop]. rewrite (proj2 (Z.eqb_eq _ _) E). exists bs, cached. split_and!; [done|done|]. by exists hd. }
  apply Z.eqb_neq in Hne. destruct (delete_round s bs cached f hd Happ Hf Hl) as (b & Eb & Hr).
  assert (∀ m, delete_loop (Datatypes.S m) (bh_Height hd) common s =
    match reverter b true s with
    | (Ok _, s1) => match last_header (x_chain s1) with
                    | Ok hd1 => delete_loop m (bh_Height hd1) common s1
                    | Err e => (Err e, s1) | Panic => (Panic, s1) | OutOfFuel => (OutOfFuel, s1)
                    end
    | (Err e, s1) => (Err e, s1) | (Panic, s1) => (Panic, s1) | (OutOfFuel, s1) => (OutOfFuel, s1)
    end) as Hstep.
  { intros m. cbn [delete_loop]. rewrite Hne. unfold mbind, exec_bind. rewrite Eb. unfold lastHeader_, read_chain, lift.
    by destruct (reverter b true s) as [[x|e| |] s1]. }
  rewrite Hstep. destruct (reverter b true s) as [[x|e| |] s1] eqn:Er; [| | |done].
  2-3: split; [intros [|m] Hm; [lia|]; by rewrite Hstep|]; exists bs, cached; cbn [fst snd]; by rewrite Hr.
  destruct Hr as (Hlt & bs0 & cached0 & -> & Hf0 & Hnext). pose proof (fr_width _ _ _ _ Hf) as Hw. unfold u32_ok in Hw.
  pose proof (last_header_ends (x_chain s1)) as Hends. destruct (last_header (x_chain s1)) as [hd1|e| |] eqn:El; [| | |done].
  2-3: split; [intros [|m] Hm; [lia|]; by rewrite Hstep|]; exists bs0, cached0; cbn [fst snd]; split_and!; [by apply prefix_app_r|done|done].
  specialize (Hnext hd1 eq_refl). destruct (IH s1 bs0 cached0 hd1 Hf0 El) as [Hsame Hres]; [lia|]. split.
  - intros [|m] Hm; [lia|]. rewrite Hstep. apply Hsame. lia.
  - destruct Hres as (bs1 & cached1 & Hpre & ? & ?). exists bs1, cached1. split_and!; [by apply prefix_app_r|done|done].
Qed.

(** C38: deleting down to the common block ends.  If the calls of the application
    return, with whatever answers, so does the deletion, for every block the peer
    claims to be common: as many rounds as the height of the last block are
    enough, and more rounds change nothing.  It ends with success at the height of
    the common block, or earlier with an error or a panic; in every case the chain
    is a prefix of the one before and has the same finalized height. *)
Theorem deleteTillCommonBlock_terminates commonBlock s bs cached f hd n :
  app_answers → final_rep (x_chain s) bs cached f → last_header (x_chain s) = Ok hd → (Z.to_nat (bh_Height hd) < n)%nat →
  delete_loop n (bh_Height hd) (bh_Height commonBlock) s = deleteTillCommonBlock commonBlock s ∧
  deletion_ends bs f (bh_Height commonBlock) (deleteTillCommonBlock commonBlock s).
Proof using H0 H2 H4 Horder.
  intros Happ Hf Hl Hn. assert (0 ≤ bh_Height hd) as Hpos.
  { destruct (last_header_rep _ _ _ _ (fr_chain _ _ _ _ Hf) Hl) as (bs0 & _ & b & -> & _ & Hb & _ & _).
    destruct (header_of_Some _ _ Hb) as (_ & _ & <-). pose proof (sr_width _ _ (ch_store _ _ _ (fr_chain _ _ _ _ Hf))) as Hw.
    rewrite Forall_app, Forall_singleton in Hw. unfold u32_ok in Hw. lia. }
  assert (deleteTillCommonBlock commonBlock s = delete_loop (Z.to_nat (bh_Height hd + 2)) (bh_Height hd) (bh_Height commonBlock) s) as ->.
  { unfold deleteTillCommonBlock, mbind, exec_bind, lastHeader_, read_chain, lift. by rewrite Hl. }
  destruct (delete_loop_spec (Z.to_nat (bh_Height hd + 2)) (bh_Height commonBlock) s bs cached f hd Happ Hf Hl) as [Hsame Hres]; [lia|].
  split; [by apply Hsame|exact Hres].
Qed.

Lemma safe_process_all blocks publish rt : safe (process_all commit_order bft slot now blocks publish rt).
Proof using H0 H2 H4 Horder. induction blocks as [|b l IH]; cbn [process_all]; safe_steps; [apply safe_processor|apply IH]. Qed.

Lemma safe_requestBlocks peer id : safe (requestBlocksFromID peer id).
Proof. unfold requestBlocksFromID. safe_steps. Qed.

Lemma safe_validate ctx b : safe (validate_downloaded ctx b).
Proof. unfold validate_downloaded. safe_steps. Qed.

Lemma safe_collect ctx end_ last blocks : safe (collect_blocks ctx end_ last blocks).
Proof. revert last. induction blocks as [|b l IH]; intros last; cbn [collect_blocks]; safe_steps; [apply safe_validate|apply IH]. Qed.

Lemma safe_download fuel ctx peer start end_ last : safe (downloadAndValidate fuel ctx peer start end_ last).
Proof.
  revert start last. induction fuel as [|fuel IH]; intros start last; cbn [downloadAndValidate]; safe_steps;
    [apply safe_requestBlocks|apply safe_collect|apply IH].
Qed.

Lemma safe_take_blocks handle end_ last blocks : (∀ b, safe (handle b)) → safe (take_blocks handle end_ last blocks).
Proof. intros Hh. revert last. induction blocks as [|b l IH]; intros last; cbn [take_blocks]; safe_steps; [apply Hh|apply IH]. Qed.

Lemma safe_Downloader fuel handle peer start end_ last : (∀ b, safe (handle b)) → safe (Downloader_Start fuel handle peer start end_ last).
Proof.
  intros Hh. revert start last. induction fuel as [|fuel IH]; intros start last; cbn [Downloader_Start]; safe_steps;
    [apply safe_requestBlocks|by apply safe_take_blocks|apply IH].
Qed.

Lemma safe_requestLast peer : safe (requestLastBlockHeader peer).
Proof. unfold requestLastBlockHeader. safe_steps. Qed.

Lemma safe_requestCommon peer ids : safe (requestHighestCommonBlock peer ids).
Proof. unfold requestHighestCommonBlock. safe_steps. Qed.

Lemma safe_fastSyncer fuel ctx : safe (fastSyncer_Sync commit_order bft slot now fuel ctx).
Proof using H0 H2 H4 Horder.
  unfold fastSyncer_Sync, getCommonBlock, restoreBlocks. safe_steps; try apply safe_requestCommon; try apply safe_download;
    try apply safe_deleteTill; apply safe_process_all.
Qed.

Lemma safe_peer_infos peers : safe (peer_infos peers).
Proof.
  induction peers as [|p l IH]; cbn [peer_infos]; safe_steps; [|apply IH].
  intros s. pose proof (safe_requestLast p s) as Hr. unfold safe_at, peer_info in *.
  by destruct (requestLastBlockHeader p s) as [[h|e| |] s'].
Qed.

Lemma safe_trials trials ctx info start : safe (common_trials trials ctx info start).
Proof.
  revert start. induction trials as [|trials IH]; intros start; cbn [common_trials]; safe_steps; [apply safe_requestCommon|apply IH].
Qed.

Lemma safe_blockSyncer fuel ctx : safe (blockSyncer_Sync commit_order map_order rand_Intn bft slot now fuel ctx).
Proof using H0 H2 H4 Horder.
  unfold blockSyncer_Sync, getAndValidateNetworkLastBlock, getCommonBlockHeader. safe_steps; try apply safe_peer_infos;
    try apply safe_requestLast; try apply safe_trials; try apply safe_deleteTill.
  apply safe_Downloader. intros b. unfold process_downloaded. safe_steps; [apply safe_validate|apply safe_processor].
Qed.

Lemma safe_Sync fuel ctx : safe (Syncer_Sync commit_order map_order rand_Intn bft slot now fuel ctx).
Proof using H0 H2 H4 Horder.
  unfold Syncer_Sync. cbn [until_done]. safe_steps; [apply safe_fastSyncer|apply safe_blockSyncer].
Qed.

(** C2: no received block removes a finalized block.  Let [process] run on any
    block (the next block, a tie break that replaces the last one, one of another
    chain that starts a fast or a full synchronisation, or one to discard), with
    any answers of peers and application, and let it succeed, fail or panic.  If
    every block that was accepted in this run, as the events it published say, was
    new to the chain at its time (sealed, its ID and its transaction IDs in no
    block of the chain), then the stored chain is what these events announce, the
    finalized height has not decreased, and every block of the old chain up to the
    old finalized height is still there. *)
Theorem process_keeps_finalized fuel block peerID s bs cached f r s' :
  final_rep (x_chain s) bs cached f →
  process commit_order (Syncer_Sync commit_order map_order rand_Intn bft slot now fuel) bft slot now block peerID s = (r, s') →
  ∃ evs, x_events s' = x_events s ++ evs ∧
    (new_blocks (genesisBlock (x_chain s)) bs evs →
     ∃ cached' f', f ≤ f' ∧ final_rep (x_chain s') (replay bs evs) cached' f' ∧ genesisBlock (x_chain s') = genesisBlock (x_chain s) ∧
       ∀ b, b ∈ bs → block_height b ≤ f → b ∈ replay bs evs).
Proof using H0 H2 H4 Horder.
  intros Hf E. destruct (process_safe commit_order Horder (Syncer_Sync commit_order map_order rand_Intn bft slot now fuel) bft slot now
    block peerID s) as (evs & He & Hev); [intros ctx s1; apply safe_Sync|].
  rewrite E in He, Hev. exists evs. split; [exact He|]. intros Hn. exact (Hev bs cached f Hf Hn).
Qed.
End safe.

(** ** Choosing a peer *)

Section peers.
Implicit Types info result : list NodeInfo.

Lemma largest_by_spec (value : NodeInfo → Z) m result info x :
  Forall (λ y, value y = m) result → x ∈ largest_by value m result info →
  x ∈ result ++ info ∧ m ≤ value x ∧ ∀ y, y ∈ info → value y ≤ value x.
Proof.
  revert m result. induction info as [|v info IH]; intros m result Hr Hx; cbn [largest_by] in Hx.
  { rewrite app_nil_r. rewrite Forall_forall in Hr. rewrite (Hr x Hx). split_and!; [done|lia|by intros y ?%not_elem_of_nil]. }
  destruct (Z.ltb_spec m (value v)) as [Hlt|Hge]; [|destruct (Z.eqb_spec (value v) m) as [Hv|Hne]].
  - destruct (IH (value v) [v]) as (Hin & Hm & Hmax); [by apply Forall_singleton|done|].
    split_and!; [set_solver|lia|]. intros y [->|Hy]%elem_of_cons; [lia|by apply Hmax].
  - destruct (IH m (result ++ [v])) as (Hin & Hm & Hmax); [by apply Forall_app; split; [|apply Forall_singleton]|done|].
    split_and!; [set_solver|lia|]. intros y [->|Hy]%elem_of_cons; [lia|by apply Hmax].
  - destruct (IH m result) as (Hin & Hm & Hmax); [done|done|].
    split_and!; [set_solver|lia|]. intros y [->|Hy]%elem_of_cons; [lia|by apply Hmax].
Qed.

Lemma largest_by_nonempty (value : NodeInfo → Z) m result info :
  result ≠ [] ∨ (∃ y, y ∈ info ∧ m ≤ value y) → largest_by value m result info ≠ [].
Proof.
  revert m result. induction info as [|v info IH]; intros m result Hne; cbn [largest_by].
  { destruct Hne as [?|(y & ?%not_elem_of_nil & _)]; done. }
  destruct (Z.ltb_spec m (value v)); [apply IH; by left|]. destruct (Z.eqb_spec (value v) m).
  - apply IH. left. by destruct result.
  - apply IH. destruct Hne as [?|(y & [->|Hy]%elem_of_cons & Hle)]; [by left|lia|right; by exists y].
Qed.

Lemma largest_by_complete (value : NodeInfo → Z) m result info x :
  (x ∈ result ∧ value x = m) ∨ (x ∈ info ∧ m ≤ value x) → (∀ y, y ∈ info → value y ≤ value x) → x ∈ largest_by value m result info.
Proof.
  revert m result. induction info as [|v info IH]; intros m result Hx Hmax; cbn [largest_by].
  { destruct Hx as [[? _]|[?%not_elem_of_nil _]]; done. }
  assert (value v ≤ value x) as Hv by (apply Hmax; left).
  assert (∀ y, y ∈ info → value y ≤ value x) as Hmax' by (intros y Hy; apply Hmax; by right).
  destruct Hx as [[Hx E]|[[->|Hx]%elem_of_cons Hle]].
  - destruct (Z.ltb_spec m (value v)); [lia|]. destruct (Z.eqb_spec (value v) m); apply IH; try done; left; set_solver.
  - destruct (Z.ltb_spec m (value v)); [|destruct (Z.eqb_spec (value v) m); [|lia]]; apply IH; try done; left; set_solver.
  - destruct (Z.ltb_spec m (value v)); [|destruct (Z.eqb_spec (value v) m)]; apply IH; try done; by right.
Qed.

Lemma frequencies_spec info id n : frequencies info !! id = Some n → 0 < n ∧ ∃ x, x ∈ info ∧ NodeInfo_lastBlockID x = id.
Proof.
  unfold frequencies. revert n. induction info as [|v info IH] using rev_ind; intros n; [cbn [foldl]; by rewrite lookup_empty|].
  rewrite foldl_app. cbn [foldl]. set (m := foldl _ _ info) in *. destruct (decide (NodeInfo_lastBlockID v = id)) as [<-|Hne].
  - rewrite lookup_insert_eq. intros [= <-]. split; [|exists v; set_solver].
    destruct (m !! NodeInfo_lastBlockID v) as [k|] eqn:E; cbn; [destruct (IH k eq_refl); lia|lia].
  - rewrite lookup_insert_ne by done. intros E. destruct (IH n E) as (? & x & ? & ?). split; [done|]. exists x. set_solver.
Qed.

Lemma frequencies_nonempty info x : x ∈ info → is_Some (frequencies info !! NodeInfo_lastBlockID x).
Proof.
  unfold frequencies. induction info as [|v info IH] using rev_ind; [by intros ?%not_elem_of_nil|].
  rewrite foldl_app. cbn [foldl]. set (m := foldl _ _ info) in *. intros [Hx|Hx]%elem_of_app.
  - destruct (decide (NodeInfo_lastBlockID v = NodeInfo_lastBlockID x)) as [->|]; [rewrite lookup_insert_eq; eauto|].
    rewrite lookup_insert_ne by done. by apply IH.
  - apply list_elem_of_singleton in Hx as ->. rewrite lookup_insert_eq. eauto.
Qed.

(** Only the last entry of the iteration counts. *)
Lemma last_frequent_last order : (∀ e, e ∈ order → 0 < e.2) → last_frequent order = fst <$> last order.
Proof.
  intros Hpos. unfold last_frequent. destruct order as [|[id n] order _] using rev_ind; [done|].
  rewrite foldl_app, last_snoc. cbn [foldl fmap option_fmap option_map fst].
  assert (0 < n) as Hn by (apply (Hpos (id, n)); set_solver). destruct (Z.ltb_spec 0 n); [done|lia].
Qed.

Context (map_order : gmap bytes Z → list (bytes * Z)) (Hmap : ∀ m, map_order m ≡ₚ map_to_list m).

Lemma map_order_pos info e : e ∈ map_order (frequencies info) → 0 < e.2.
Proof using Hmap. destruct e as [id n]. rewrite Hmap, elem_of_map_to_list. intros [? _]%frequencies_spec. done. Qed.

Lemma most_frequent_nonempty info : info ≠ [] → getMostFrequesntBlockIDNodeInfo map_order info ≠ [].
Proof using Hmap.
  intros Hne. unfold getMostFrequesntBlockIDNodeInfo. rewrite last_frequent_last by apply map_order_pos.
  destruct (last (map_order (frequencies info))) as [[id n]|] eqn:El.
  - cbn. apply last_Some in El as [l El].
    assert ((id, n) ∈ map_order (frequencies info)) as Hin by (rewrite El; set_solver).
    rewrite Hmap, elem_of_map_to_list in Hin. apply frequencies_spec in Hin as (_ & x & Hx & Ex).
    intros E. assert (x ∈ List.filter (λ val, bytes_equal (NodeInfo_lastBlockID val) id) info) as Hf.
    { apply list_elem_of_In, filter_In. split; [by apply list_elem_of_In|]. unfold bytes_equal. by rewrite bool_decide_eq_true_2. }
    rewrite E in Hf. by apply not_elem_of_nil in Hf.
  - apply last_None in El. destruct info as [|x info]; [done|].
    destruct (frequencies_nonempty (x :: info) x) as [n Hn]; [left|]. apply elem_of_map_to_list in Hn. rewrite <-Hmap, El in Hn.
    by apply not_elem_of_nil in Hn.
Qed.

Lemma most_frequent_subset info x : x ∈ getMostFrequesntBlockIDNodeInfo map_order info → x ∈ info.
Proof.
  unfold getMostFrequesntBlockIDNodeInfo. case_match; [|by intros ?%not_elem_of_nil].
  intros Hx%list_elem_of_In. apply filter_In in Hx as [Hx _]. by apply list_elem_of_In.
Qed.

(** The peer to synchronise with is a best one.  Whatever the iteration order
    of the map and the random choice, [getBestNodeInfo] fails only without peers
    and otherwise returns a peer whose (maxHeightPrevoted, height) is the largest
    among the peers. *)
Theorem getBestNodeInfo_maximal rand_Intn infos :
  (∀ n, 0 < n → 0 ≤ rand_Intn n < n) → infos ≠ [] →
  ∃ best, getBestNodeInfo map_order rand_Intn infos = Ok best ∧ best ∈ infos ∧
    ∀ x, x ∈ infos → NodeInfo_maxHeightPrevoted x < NodeInfo_maxHeightPrevoted best ∨
      (NodeInfo_maxHeightPrevoted x = NodeInfo_maxHeightPrevoted best ∧ NodeInfo_height x ≤ NodeInfo_height best).
Proof using Hmap.
  intros Hrand Hne. unfold getBestNodeInfo. destruct infos as [|first rest]; [done|]. set (infos := first :: rest) in *.
  replace (len infos =? 0) with false by (unfold infos; rewrite len_cons; pose proof (len_nonneg rest); symmetry; apply Z.eqb_neq; lia).
  set (g1 := getLargestMaxHeightPrevotedNodeInfo infos).
  assert (∀ x, x ∈ g1 → x ∈ infos ∧ ∀ y, y ∈ infos → NodeInfo_maxHeightPrevoted y ≤ NodeInfo_maxHeightPrevoted x) as H1.
  { intros x Hx. apply (largest_by_spec NodeInfo_maxHeightPrevoted) in Hx as (? & _ & ?); [done|constructor]. }
  assert (g1 ≠ []) as Hg1 by (apply largest_by_nonempty; right; exists first; split; [left|lia]).
  set (g2 := getLargestHeightNodeInfo g1).
  assert (∀ x, x ∈ g2 → x ∈ g1 ∧ ∀ y, y ∈ g1 → NodeInfo_height y ≤ NodeInfo_height x) as H2.
  { intros x Hx. unfold g2, getLargestHeightNodeInfo in Hx. destruct g1 as [|y l]; [done|].
    apply (largest_by_spec NodeInfo_height) in Hx as (? & _ & ?); [done|constructor]. }
  assert (g2 ≠ []) as Hg2.
  { unfold g2, getLargestHeightNodeInfo. destruct g1 as [|y l]; [done|]. apply largest_by_nonempty. right. exists y. split; [left|lia]. }
  pose proof (most_frequent_nonempty g2 Hg2) as Hg3. pose proof (most_frequent_subset g2) as H3.
  set (g3 := getMostFrequesntBlockIDNodeInfo map_order g2) in *.
  destruct (Z.leb_spec (len g3) 0) as [Hl|Hl]; [destruct g3; [done|rewrite len_cons in Hl; pose proof (len_nonneg g3); lia]|].
  specialize (Hrand (len g3) Hl). destruct (lookup_lt_is_Some_2 g3 (Z.to_nat (rand_Intn (len g3)))) as [best Hb]; [unfold len in *; lia|].
  exists best. split; [|].
  - unfold index, idx. rewrite decide_True by lia. by rewrite Hb.
  - assert (best ∈ g3) as Hin by (by eapply list_elem_of_lookup_2). destruct (H2 best (H3 _ Hin)) as [Hbg1 Hmax2].
    destruct (H1 best Hbg1) as [Hbi Hmax1]. split; [done|]. intros x Hx. pose proof (Hmax1 x Hx) as Hle.
    destruct (Z.eq_dec (NodeInfo_maxHeightPrevoted x) (NodeInfo_maxHeightPrevoted best)) as [E|]; [|lia]. right. split; [done|].
    apply Hmax2. apply (largest_by_complete NodeInfo_maxHeightPrevoted).
    + right. split; [done|]. rewrite E. apply Hmax1. left.
    + intros y Hy. rewrite E. by apply Hmax1.
Qed.
End peers.

(** The frequency of a block ID does not count.  For every ID among the last
    blocks of the peers, however rare, there is an iteration order of the Go map
    for which the function that is to select the peers with the most frequent ID
    selects the peers with that one. *)
Theorem getMostFrequesntBlockID_any info x :
  x ∈ info → ∃ map_order, (∀ m, map_order m ≡ₚ map_to_list m) ∧
    ∀ y, y ∈ getMostFrequesntBlockIDNodeInfo map_order info ↔ y ∈ info ∧ NodeInfo_lastBlockID y = NodeInfo_lastBlockID x.
Proof.
  intros Hx. set (id := NodeInfo_lastBlockID x).
  set (order := λ m : gmap bytes Z, map_to_list (delete id m) ++ match m !! id with Some n => [(id, n)] | None => [] end).
  assert (∀ m, order m ≡ₚ map_to_list m) as Horder.
  { intros m. unfold order. destruct (m !! id) as [n|] eqn:E; [|by rewrite app_nil_r, delete_id].
    rewrite Permutation_app_comm. cbn. by rewrite map_to_list_delete. }
  exists order. split; [done|]. intros y. unfold getMostFrequesntBlockIDNodeInfo.
  rewrite last_frequent_last by (by apply map_order_pos). destruct (frequencies_nonempty info x Hx) as [n Hn].
  assert (last (order (frequencies info)) = Some (id, n)) as -> by (unfold order, id; rewrite Hn; apply last_snoc). cbn [fmap option_fmap option_map fst].
  rewrite list_elem_of_In, filter_In, <-list_elem_of_In. unfold bytes_equal. by rewrite bool_decide_eq_true.
Qed.

(** ** A network without peers *)

Definition no_network : Network () := {|
  net_ConnectedPeers _ := [];
  net_RequestFrom _ _ _ a := (Err (Errorf "context ended"), a);
  net_BanPeer _ a := a;
|}.

(** The application that accepts everything gets the first block. *)
Definition sample_received : res () * executer (S := gmap bytes bytes) (A := ()) :=
  process (H0 := ascii_norm) (H1 := toy_hash) (H2 := toy_bls) (H3 := toy_ed) (H4 := sample_app) sample_order
    (Syncer_Sync (H0 := ascii_norm) (H1 := toy_hash) (H2 := toy_bls) (H3 := toy_ed) (H4 := sample_app) (Network0 := no_network)
       sample_order (λ m, map_to_list m) (λ _, 0) (Module_Init 103) (mkBlockSlot 0 10) 15 100)
    (Module_Init 103) (mkBlockSlot 0 10) 15 sample_block1 [1] sample_run0.2.

Lemma process_keeps_finalized_witness :
  sample_received.1 = Ok () ∧
  ∃ cached f, final_rep (H1 := ascii_norm) (H3 := toy_hash) (x_chain sample_received.2) [sample_genesis; sample_block1] cached f ∧ 0 ≤ f.
Proof.
  split; [vm_compute; reflexivity|].
  destruct (process_keeps_finalized (H2 := ascii_norm_laws) (H4 := toy_hash_laws) (H5 := toy_bls) (H6 := toy_ed) (H7 := sample_app)
    (Network0 := no_network) sample_order sample_order_ok
    (λ m, map_to_list m) (λ _, 0) (Module_Init 103) (mkBlockSlot 0 10) 15 100 sample_block1 [1] sample_run0.2
    [sample_genesis] [sample_genesis] 0 sample_received.1 sample_received.2 sample_run0_rep) as (evs & He & Hk).
  { unfold sample_received. apply surjective_pairing. }
  assert (evs = [BlockNew sample_block1 []]) as ->.
  { assert (x_events sample_received.2 = x_events sample_run0.2 ++ [BlockNew sample_block1 []]) as E by (vm_compute; reflexivity).
    rewrite E in He. by apply app_inv_head in He. }
  destruct Hk as (cached & f & Hle & Hf & _); [split; [apply sample_may_extend|done]|].
  exists cached, f. split; [exact Hf|exact Hle].
Defined.

Definition sample_infos : list NodeInfo :=
  [mkNodeInfo [1] 10 5 2 [7]; mkNodeInfo [2] 9 5 2 [8]; mkNodeInfo [3] 12 4 2 [9]; mkNodeInfo [4] 10 5 2 [7]; mkNodeInfo [5] 10 5 2 [6]].

Lemma getBestNodeInfo_maximal_witness :
  ∃ best, getBestNodeInfo (λ m, map_to_list m) (λ n, n - 1) sample_infos = Ok best ∧ NodeInfo_height best = 10.
Proof.
  destruct (getBestNodeInfo_maximal (λ m, map_to_list m) (λ _, reflexivity _) (λ n, n - 1) sample_infos) as (best & E & _).
  - lia.
  - done.
  - exists best. split; [exact E|]. revert E. vm_compute. by intros [= <-].
Defined.

Lemma getMostFrequesntBlockID_any_witness :
  ∃ map_order, (∀ m, map_order m ≡ₚ map_to_list m) ∧
    mkNodeInfo [5] 10 5 2 [6] ∈ getMostFrequesntBlockIDNodeInfo map_order sample_infos ∧
    mkNodeInfo [1] 10 5 2 [7] ∉ getMostFrequesntBlockIDNodeInfo map_order sample_infos.
Proof.
  assert (mkNodeInfo [5] 10 5 2 [6] ∈ sample_infos) as Hin by (unfold sample_infos; set_solver).
  destruct (getMostFrequesntBlockID_any sample_infos (mkNodeInfo [5] 10 5 2 [6]) Hin) as (order & Ho & Hy).
  exists order. split; [exact Ho|]. split; [by apply Hy|]. intros [_ E]%Hy. discriminate E.
Defined.

Lemma deleteTillCommonBlock_terminates_witness :
  delete_loop (H0 := ascii_norm) (H1 := toy_hash) (H4 := sample_app) 100 1 0 sample_process.2
    = deleteTillCommonBlock (H0 := ascii_norm) (H1 := toy_hash) (H4 := sample_app) (sample_chain_header 0) sample_process.2 ∧
  ∃ f, deletion_ends (H1 := ascii_norm) (H3 := toy_hash) [sample_genesis; sample_block1] f 0
    (deleteTillCommonBlock (H0 := ascii_norm) (H1 := toy_hash) (H4 := sample_app) (sample_chain_header 0) sample_process.2).
Proof.
  destruct sample_process_rep as (f & Hf & _).
  destruct (b_Header sample_block1) as [hd|] eqn:Eh; [|discriminate Eh].
  assert (last_header (x_chain sample_process.2) = Ok hd) as Hl.
  { unfold last_header, last_block. rewrite sample_last. cbn [mbind res_bind]. unfold header_of. by rewrite Eh. }
  assert (bh_Height hd = 1) as E1 by (by injection Eh as <-).
  destruct (deleteTillCommonBlock_terminates (H2 := ascii_norm_laws) (H4 := toy_hash_laws) (H7 := sample_app) sample_order sample_order_ok
    (sample_chain_header 0) sample_process.2 [sample_genesis; sample_block1] [sample_genesis; sample_block1] f hd 100) as [Hd He]; [split; discriminate|exact Hf|exact Hl|rewrite E1; lia|].
  rewrite E1 in Hd. split; [exact Hd|]. exists f. exact He.
Defined.
