(* ===== verification/Download.v ===== *)
(** * Download: what one node sends is what the other gets

    A node answers requests for blocks from its chain, up to 103 blocks after the
    requested one; the downloader of another node (pkg/consensus/sync) decodes
    the answers and asks for more until it has the wanted block.  Together they
    copy the blocks of the chain. *)

From S2P Require Import Prelude Collection Codec CodecSpec Message Crypto RMT BlockTypes Block DB DiffDB Event ForkChoice BFTTypes Votes LiskBFT LabiTypes NetTypes Certificate DataAccess ChainSpec Commits StateInv Execute ExecuteSpec Sync SyncSpec.

Section served.
Context {S : Type} `{PebbleLaws S} `{NormLaws, HashLaws}.

(** ** Encoding and decoding a block of a chain *)

Definition unsealed_tx (t : Transaction) : Transaction :=
  mkTransaction [] 0 (tx_Module t) (tx_Command t) (tx_Nonce t) (tx_Fee t) (tx_SenderPublicKey t) (tx_Params t) (tx_Signatures t).

Lemma unsealed_tx_spec t0 : Transaction_ok t0 → unsealed_tx (Transaction_Init t0) = t0.
Proof. destruct t0. intros (E1 & E2 & _). cbn in E1, E2. by subst. Qed.

Lemma sealed_decode b : sealed b → len (Block_Encode b) < 2 ^ 63 → NewBlock (Block_Encode b) = Ok b.
Proof.
  intros [(h & Hh & Hok & _) Htx [Ha _]] Hl.
  set (b0 := mkBlock (Some h) (unsealed_tx <$> b_Transactions b) (b_Assets b)).
  assert (Block_Encode b0 = Block_Encode b) as E.
  { unfold Block_Encode. cbn [b0 b_Header b_Transactions b_Assets]. rewrite Hh.
    change (BlockHeader_Encode <$> Some (BlockHeader_Init h)) with (BlockHeader_Encode <$> Some h).
    generalize (NewWriter |> WriteEncodable 1 (BlockHeader_Encode <$> Some h)). intros w0. f_equal. f_equal.
    revert w0. clear. induction (b_Transactions b) as [|t l IH]; [done|]. intros w0. rewrite fmap_cons. cbn [foldl]. apply IH. }
  assert (Block_Init b0 = b) as Einit.
  { unfold b0. clear b0 E. destruct b as [hd txs assets]. cbn in *. subst hd. unfold Block_Init. cbn. f_equal.
    clear -Htx. induction Htx as [|t l (t0 & -> & Ht & _) _ IH]; [done|]. rewrite !fmap_cons, IH. by rewrite unsealed_tx_spec. }
  rewrite <-E. rewrite (NewBlock_Encode h); [by rewrite Einit|done| |by rewrite E].
  split_and!; cbn; [by exists h| |].
  - clear -Htx. induction Htx as [|t l (t0 & -> & Ht & _) _ IH]; [constructor|]. rewrite fmap_cons. constructor; [|done].
    by rewrite unsealed_tx_spec.
  - eapply Forall_impl; [exact Ha|]. by intros a [? _].
Qed.

(** ** Serving blocks *)

(** Any block of the chain is found by its ID. *)
Lemma GetBlockHeader_rep ch bs cached b : chain_rep ch bs cached → b ∈ bs → ∃ h,
  b_Header b = Some h ∧ GetBlockHeader (dataAccess ch) (block_ID b) = Ok h ∧ block_height b = bh_Height h ∧ block_ID b = bh_ID h.
Proof.
  intros Hch Hb. pose proof (sr_sealed _ _ (ch_store _ _ _ Hch)) as Hs. rewrite Forall_forall in Hs.
  destruct (sealed_header _ (Hs b Hb)) as (h & Hhd & _). exists (BlockHeader_Init h).
  destruct (header_of_Some b _ Hhd) as (Hof & EID & Eh). split_and!; [done| |done|done].
  unfold GetBlockHeader. pose proof (GetBlock_rep ch bs cached Hch b Hb) as Hget. unfold GetBlock in Hget.
  destruct (bc_get _ _) as [b'|]; [by injection Hget as ->|].
  unfold getBlock in Hget. destruct (getBlockHeader _ _) as [h'| | |]; cbn [mbind res_bind] in Hget; try done.
  destruct (getTransactions _ _) as [txs| | |]; cbn [mbind res_bind] in Hget; try done.
  destruct (getBlockAssets _ _) as [assets| | |]; cbn [mbind res_bind] in Hget; try done.
  injection Hget as <-. cbn in Hhd. congruence.
Qed.

Lemma block_ID_len ch bs cached b : chain_rep ch bs cached → b ∈ bs → len (block_ID b) = 32.
Proof.
  intros Hch Hb. pose proof (sr_sealed _ _ (ch_store _ _ _ Hch)) as Hs. rewrite Forall_forall in Hs.
  destruct (sealed_header _ (Hs b Hb)) as (h & Hhd & _). destruct (header_of_Some b _ Hhd) as (_ & -> & _). apply Hash_len.
Qed.

Lemma Min_pair x y : Ints.Min [x; y] = Ok (x `min` y).
Proof.
  unfold Ints.Min. cbn [sort_slice insert_by]. destruct (Z.ltb_spec y x).
  - change (index [y; x] 0) with (Ok y). f_equal. lia.
  - change (index [x; y] 0) with (Ok x). f_equal. lia.
Qed.

Lemma last_header_Ok ch bs cached : chain_rep ch bs cached → cached ≠ [] → ∃ h, last_header ch = Ok h.
Proof.
  intros Hch Hne. destruct cached as [|x l _] using rev_ind; [done|].
  pose proof (sr_sealed _ _ (ch_store _ _ _ Hch)) as Hs. rewrite Forall_forall in Hs.
  destruct (sealed_header x) as (h & Hx & _).
  { apply Hs. eapply suffix_elem; [apply (ch_suffix _ _ _ Hch)|]. apply elem_of_app. right. left. }
  exists (BlockHeader_Init h). unfold last_header, last_block. rewrite (LastBlock_rep _ _ _ Hch), last_snoc.
  cbn [mbind res_bind]. unfold header_of. by rewrite Hx.
Qed.

(** The blocks a node sends after block [i] of its chain. *)
Definition batch_after (bs : list Block) (i : nat) : list Block := take 103 (drop (i + 1) bs).

Lemma GetBlocksFromID_serves ch bs cached (i : nat) b :
  chain_rep ch bs cached → bs !! i = Some b → cached ≠ [] → block_height (genesisBlock ch) + len bs + 103 < 2 ^ 32 →
  HandleRPCEndpointGetBlocksFromID ch (Some (Encode (mkgetBlocksFromIDRequest (block_ID b)))) =
    Ok (Written (Some (Encode (mkgetBlocksFromIDResponse (Block_Encode <$> batch_after bs i))))).
Proof.
  intros Hch Hi Hne Hb. pose proof (list_elem_of_lookup_2 _ _ _ Hi) as Hin. unfold HandleRPCEndpointGetBlocksFromID.
  change (Encode (mkgetBlocksFromIDRequest (block_ID b))) with (Encode (mkGetBlocksFromIDRequest (block_ID b))).
  pose proof (block_ID_len ch bs cached b Hch Hin) as Hid.
  rewrite Message_Decode_Encode; [|done|].
  2: { cbn. unfold GetBlocksFromIDRequest_Encode, Result. autorewrite with writer. cbn [w_result NewWriter app].
       unfold enc_Bytes, enc_bytes. rewrite !len_app. cbn [GetBlocksFromIDRequest_ID]. rewrite Hid. by vm_compute. }
  cbn [GetBlocksFromIDRequest_ID]. rewrite Hid. cbn [negb Z.eqb IDLength Pos.eqb].
  destruct (GetBlockHeader_rep ch bs cached b Hch Hin) as (h & Hhd & -> & Eh & _).
  destruct (last_header_Ok ch bs cached Hch Hne) as [lh El]. rewrite El.
  destruct (last_header_rep _ _ _ _ Hch El) as (_ & _ & _ & _ & _ & _ & _ & Elh).
  pose proof (ch_heights _ _ _ Hch i b Hi) as Hh. pose proof (lookup_lt_Some _ _ _ Hi) as Hlt.
  pose proof (sr_width _ _ (ch_store _ _ _ Hch)) as Hw. rewrite Forall_forall in Hw. specialize (Hw b Hin). unfold u32_ok in Hw.
  cbn [mbind res_bind]. rewrite Min_pair. cbn [mbind res_bind]. rewrite <-Eh, Elh, !(u32_small (_ + _)) by (unfold u32_ok, len in *; lia).
  set (to := _ `min` _). set (l := batch_after bs i).
  assert (len l = to - block_height b) as Ell.
  { unfold l, batch_after, to, len. rewrite length_take, length_drop. unfold len. lia. }
  assert (consecutive_from (block_height b + 1) l) as Hl.
  { intros k x Hx. unfold l, batch_after in Hx. apply lookup_take_Some in Hx as [Hx _].
    destruct (chain_consecutive ch bs cached (i + 1) Hch k x Hx) as (? & ? & Ex). split_and!; [done|done|lia]. }
  assert (GetBlocksBetweenHeight (dataAccess ch) (block_height b + 1) to = Ok l) as ->.
  { unfold GetBlocksBetweenHeight. destruct (Z.ltb_spec to (block_height b + 1)).
    - destruct (Z.eqb_spec (block_height b + 1) (to + 1)); [|unfold to, len in *; lia].
      destruct l as [|x l]; [done|]. rewrite len_cons in Ell. pose proof (len_nonneg l). lia.
    - destruct (Z.eqb_spec to MaxUint32) as [E|_]; [unfold MaxUint32, to, len in *; lia|].
      replace (to - (block_height b + 1) + 1) with (len l) by lia.
      rewrite (map_res_between ch bs cached l _ Hch Hl).
      + cbn [mbind res_bind]. by rewrite (consecutive_sorted _ _ Hl).
      + intros x Hx. unfold l, batch_after in Hx. apply list_elem_of_lookup in Hx as [k Hx]. apply lookup_take_Some in Hx as [Hx _].
        rewrite lookup_drop in Hx. by eapply list_elem_of_lookup_2. }
  do 3 f_equal. cbn [Encode getBlocksFromIDResponse_Message]. unfold GetBlocksFromIDResponse_Encode, getBlocksFromIDResponse_Encode, WriteBytesArray.
  cbn [GetBlocksFromIDResponse_Blocks getBlocksFromIDResponse_blocks].
  f_equal. generalize NewWriter. clear. induction l as [|x l IH]; [done|]. intros w. rewrite fmap_cons. cbn [foldl]. apply IH.
Qed.
End served.

(** ** Downloading from such a node *)

Section honest.
Context {S A : Type} `{PebbleLaws S} `{NormLaws, HashLaws, BLS, Ed25519, Application A} `{!Network A}.

(** A block that passes [Block.Validate], with its header. *)
Definition sound_block (b : Block) : Prop := is_Some (b_Header b) ∧ Block_Validate b = Ok ().

Lemma collect_step ctx end_ last b l (s : executer (S := S) (A := A)) :
  sound_block b → collect_blocks ctx end_ last (b :: l) s =
    if decide (block_ID b = end_) then (Ok ([b], block_ID b, true), s)
    else ('(rest, last, isLast) ← collect_blocks ctx end_ (block_ID b) l; ret (b :: rest, last, isLast)) s.
Proof.
  intros [[h Hh] Hv]. destruct (header_of_Some b h Hh) as (Hof & EID & _). cbn [collect_blocks].
  unfold mbind, exec_bind at 1. rewrite Hof. cbn [lift]. unfold validate_downloaded, on_error.
  unfold exec_bind at 1, lift. rewrite Hv, EID. unfold bytes_equal. case_bool_decide; [by rewrite decide_True|by rewrite decide_False].
Qed.

Lemma collect_all ctx end_ last l (s : executer (S := S) (A := A)) :
  (∀ b, b ∈ l → sound_block b ∧ block_ID b ≠ end_) →
  collect_blocks ctx end_ last l s = (Ok (l, default last (block_ID <$> list.last l), false), s).
Proof.
  revert last. induction l as [|b l IH]; intros last Hl; [done|].
  destruct (Hl b) as [Hb Hne]; [left|]. rewrite collect_step by done. rewrite decide_False by done.
  unfold mbind, exec_bind. rewrite IH by (intros x Hx; apply Hl; by right). unfold ret. do 4 f_equal.
  destruct l as [|x l]; [done|]. rewrite last_cons_cons. destruct (list.last (x :: l)) eqn:E; [done|by apply last_None in E].
Qed.

Lemma collect_until ctx last l b k (s : executer (S := S) (A := A)) :
  (∀ x, x ∈ l → sound_block x ∧ block_ID x ≠ block_ID b) → sound_block b →
  collect_blocks ctx (block_ID b) last (l ++ b :: k) s = (Ok (l ++ [b], block_ID b, true), s).
Proof.
  intros Hl Hb. revert last. induction l as [|x l IH]; intros last.
  { cbn [app]. rewrite collect_step by done. by rewrite decide_True. }
  destruct (Hl x) as [Hx Hne]; [left|]. cbn [app]. rewrite collect_step by done. rewrite decide_False by done.
  unfold mbind, exec_bind. by rewrite IH by (intros y Hy; apply Hl; by right).
Qed.

(** The peer runs this program on the chain [c]: what its handler writes is the
    response to the request. *)
Definition honest (peer : bytes) (c : Chain S) : Prop :=
  ∀ data a d, HandleRPCEndpointGetBlocksFromID c (Some data) = Ok (Written d) →
    (net_RequestFrom peer RPCEndpointGetBlocksFromID data a).1 = Ok d.

Section download.
Context (peer : bytes) (c : Chain S) (bs cached : list Block).
Context (Hch : chain_rep c bs cached) (Hne : cached ≠ []) (Hpeer : honest peer c).
Context (Hheight : block_height (genesisBlock c) + len bs + 103 < 2 ^ 32).
Context (Hsize : ∀ i : nat, len (Encode (mkgetBlocksFromIDResponse (Block_Encode <$> batch_after bs i))) < 2 ^ 63).
Context (Hsound : Forall (λ b, Block_Validate b = Ok ()) (drop 1 bs)).

Lemma batch_elem (i : nat) b : b ∈ batch_after bs i → b ∈ bs.
Proof.
  unfold batch_after. intros Hx. apply list_elem_of_lookup in Hx as [k Hx]. apply lookup_take_Some in Hx as [Hx _].
  rewrite lookup_drop in Hx. by eapply list_elem_of_lookup_2.
Qed.

Lemma chain_sealed b : b ∈ bs → sealed b.
Proof using Hch H0 H2 H4. intros Hb. pose proof (sr_sealed _ _ (ch_store _ _ _ Hch)) as Hs. rewrite Forall_forall in Hs. by apply Hs. Qed.

Lemma chain_sound (k : nat) b : bs !! Datatypes.S k = Some b → sound_block b.
Proof using Hch Hsound H0 H2 H4.
  intros Hb. rewrite Forall_forall in Hsound. split.
  - destruct (sealed_header b) as (h & -> & _); [by eapply chain_sealed, list_elem_of_lookup_2|done].
  - apply Hsound. apply (list_elem_of_lookup_2 _ k). by rewrite lookup_drop.
Qed.

Lemma len_response_ge (l : list bytes) x : x ∈ l → len x ≤ len (Encode (mkgetBlocksFromIDResponse l)).
Proof.
  intros Hx. cbn. unfold getBlocksFromIDResponse_Encode, Result. autorewrite with writer. cbn [w_result NewWriter app].
  apply (len_enc_repeated_ge id 1 _ x Hx).
Qed.

Lemma request_gets (i : nat) b (s : executer (S := S) (A := A)) :
  bs !! i = Some b → ∃ s', requestBlocksFromID peer (block_ID b) s = (Ok (batch_after bs i), s') ∧ x_chain s' = x_chain s.
Proof using H0 H2 H4 Hch Hne Hpeer Hheight Hsize.
  intros Hi. unfold requestBlocksFromID, mbind, exec_bind, call.
  pose proof (Hpeer _ (x_app s) _ (GetBlocksFromID_serves c bs cached i b Hch Hi Hne Hheight)) as Hreq.
  destruct (net_RequestFrom _ _ _ _) as [r a]. cbn [fst] in Hreq. subst r.
  exists (set_x_app a s). split; [|done]. unfold lift.
  rewrite Message_Decode_Encode by (done || apply Hsize). cbn [getBlocksFromIDResponse_blocks].
  rewrite (map_res_fmap NewBlock Block_Encode id), list_fmap_id; [done|].
  intros x Hx. apply sealed_decode; [by apply chain_sealed, (batch_elem i)|].
  eapply Z.le_lt_trans; [|apply (Hsize i)]. by apply len_response_ge, list_elem_of_fmap_2.
Qed.

Lemma batch_sorted (i : nat) : SortBlockByHeightAsc (batch_after bs i) = batch_after bs i.
Proof using Hch H0 H2 H4.
  apply (consecutive_sorted (block_height (genesisBlock c) + Z.of_nat (i + 1))). intros k x Hx. unfold batch_after in Hx.
  apply lookup_take_Some in Hx as [Hx _]. by apply (chain_consecutive c bs cached (i + 1) Hch).
Qed.

Lemma chain_ID_index (i j : nat) x b : bs !! i = Some x → bs !! j = Some b → block_ID x = block_ID b → i = j.
Proof using Hch H0 H2 H4.
  intros Hi Hj E. apply (NoDup_lookup (block_ID <$> bs) i j (block_ID b)); [apply (sr_ids _ _ (ch_store _ _ _ Hch))|..].
  - rewrite list_lookup_fmap, Hi. cbn. by rewrite E.
  - by rewrite list_lookup_fmap, Hj.
Qed.

Lemma download_rounds fuel (i j : nat) b b' ctx last (s : executer (S := S) (A := A)) :
  bs !! i = Some b → bs !! j = Some b' → (i < j ≤ i + fuel)%nat →
  ∃ s', downloadAndValidate fuel ctx peer (block_ID b) (block_ID b') last s = (Ok (take (j - i) (drop (i + 1) bs)), s') ∧
    x_chain s' = x_chain s.
Proof using H0 H2 H4 Hch Hne Hpeer Hheight Hsize Hsound.
  revert i b last s. induction fuel as [|fuel IH]; intros i b last s Hi Hj Hij; [lia|].
  cbn [downloadAndValidate]. destruct (request_gets i b s Hi) as (s1 & E1 & Hc1). unfold mbind, exec_bind at 1. rewrite E1, batch_sorted.
  destruct (decide (j ≤ i + 103)%nat) as [Hle|Hgt].
  - exists s1. split; [|done].
    assert (drop (i + 1) bs !! (j - i - 1)%nat = Some b') as Hd by (rewrite lookup_drop; by replace (i + 1 + (j - i - 1))%nat with j by lia).
    assert (batch_after bs i = take (j - i - 1) (drop (i + 1) bs) ++ b' :: drop (j - i) (batch_after bs i)) as Eb.
    { unfold batch_after. rewrite <-(take_drop (j - i) (take 103 (drop (i + 1) bs))) at 1. rewrite take_take, Nat.min_l by lia.
      replace (j - i)%nat with (Datatypes.S (j - i - 1)) at 1 by lia. rewrite (take_S_r _ _ b') by done. by rewrite <-app_assoc. }
    rewrite Eb. unfold exec_bind at 1. rewrite collect_until.
    + unfold ret. do 2 f_equal. rewrite <-(take_S_r _ _ b') by done. f_equal. lia.
    + intros x Hx. apply list_elem_of_lookup in Hx as [k Hx]. apply lookup_take_Some in Hx as [Hx Hk]. rewrite lookup_drop in Hx.
      split; [by apply (chain_sound (i + k)); rewrite <-Hx; f_equal; lia|]. intros E. pose proof (chain_ID_index _ _ _ _ Hx Hj E). lia.
    + apply (chain_sound (j - 1)). rewrite <-Hj. f_equal. lia.
  - assert (is_Some (bs !! (i + 103)%nat)) as [b1 Hb1] by (apply lookup_lt_is_Some; apply lookup_lt_Some in Hj; lia).
    unfold exec_bind at 1. rewrite collect_all.
    2: { intros x Hx. apply list_elem_of_lookup in Hx as [k Hx]. apply lookup_take_Some in Hx as [Hx Hk]. rewrite lookup_drop in Hx.
         split; [by apply (chain_sound (i + k)); rewrite <-Hx; f_equal; lia|]. intros E. pose proof (chain_ID_index _ _ _ _ Hx Hj E). lia. }
    assert (list.last (batch_after bs i) = Some b1) as ->.
    { rewrite last_lookup. unfold batch_after. rewrite length_take, length_drop. apply lookup_lt_Some in Hj.
      rewrite Nat.min_l by lia. cbn [Nat.pred]. rewrite lookup_take_lt by lia. rewrite lookup_drop. by replace (i + 1 + 102)%nat with (i + 103)%nat by lia. }
    change (default last (block_ID <$> Some b1)) with (block_ID b1). unfold exec_bind at 1.
    destruct (IH (i + 103)%nat b1 (block_ID b1) s1 Hb1 Hj) as (s2 & -> & Hc2); [lia|].
    exists s2. split; [|congruence]. unfold ret. do 2 f_equal. unfold batch_after.
    replace (j - i)%nat with (103 + (j - (i + 103)))%nat by lia. rewrite <-take_take_drop. f_equal. f_equal. rewrite drop_drop. f_equal. lia.
Qed.
End download.

(** C21: A node that downloads from a peer running this program gets exactly the
    blocks of the peer's chain between the common block and the wanted block, in
    order, however many requests that takes, and its own chain is untouched;
    [j - i] requests are enough.  The blocks of the peer
    after genesis are valid, its heights
    fit with the 103 blocks of an answer and its answers are shorter than 2^63. *)
Theorem download_gets_chain peer c bs cached fuel (i j : nat) b b' ctx (s : executer (S := S) (A := A)) :
  chain_rep c bs cached → cached ≠ [] → honest peer c → block_height (genesisBlock c) + len bs + 103 < 2 ^ 32 →
  (∀ k : nat, len (Encode (mkgetBlocksFromIDResponse (Block_Encode <$> batch_after bs k))) < 2 ^ 63) →
  Forall (λ b, Block_Validate b = Ok ()) (drop 1 bs) →
  bs !! i = Some b → bs !! j = Some b' → (i < j ≤ i + fuel)%nat →
  ∃ s', downloadAndValidate fuel ctx peer (block_ID b) (block_ID b') [] s = (Ok (take (j - i) (drop (i + 1) bs)), s') ∧
    x_chain s' = x_chain s.
Proof using H0 H2 H4. intros. by eapply download_rounds. Qed.
End honest.

(** ** A peer with three blocks *)

Definition served_block (height : Z) (txs : list Transaction) : Block :=
  let txs := Transaction_Init (H := ascii_norm) (H0 := toy_hash) <$> txs in
  mkBlock (Some (BlockHeader_Init (H0 := toy_hash) (mkBlockHeader [] 2 (10 * height) height (replicate 32 1) (replicate 20 2)
    (CalculateRoot (H := toy_hash) (tx_ID <$> txs)) (BlockAssets_GetRoot (H := ascii_norm) (H0 := toy_hash) []) [] [] 0 0 false []
    (Some (mkAggregateCommit 0 [] [])) (replicate 64 3)))) txs [].

Definition served_chain : Chain (gmap bytes bytes) :=
  match run_chain (S := gmap bytes bytes) (H1 := ascii_norm)
    [op_add [] sample0 [] 0 false; op_add [] (served_block 1 [sample_tx]) [] 0 false; op_add [] (served_block 2 []) [] 0 false]
    (NewChain_Init [1] 100 515 (-1) sample0 ∅) with Ok c => c | _ => NewChain_Init [1] 100 515 (-1) sample0 ∅ end.

(** Every peer is this one. *)
Definition served_network : Network () := {|
  net_ConnectedPeers _ := [[1]];
  net_RequestFrom _ _ data a :=
    (match HandleRPCEndpointGetBlocksFromID (H0 := ascii_norm) (H1 := toy_hash) served_chain (Some data) with
     | Ok (Written d) => Ok d
     | _ => Err (Errorf "context ended")
     end, a);
  net_BanPeer _ a := a;
|}.

Lemma served1_extends : sample_extends sample0 [sample0] (served_block 1 [sample_tx]).
Proof. concrete_extends. Qed.
Lemma served2_extends : sample_extends sample0 [sample0; served_block 1 [sample_tx]] (served_block 2 []).
Proof. concrete_extends. Qed.

Abbreviation served := [sample0; served_block 1 [sample_tx]; served_block 2 []].

Lemma served_rep : chain_rep (H1 := ascii_norm) (H3 := toy_hash) served_chain served served.
Proof.
  pose proof batch_outside_nil as Hout.
  destruct (run_chain_rep (H2 := ascii_norm_laws) (H4 := toy_hash_laws)
    [op_add [] sample0 [] 0 false; op_add [] (served_block 1 [sample_tx]) [] 0 false; op_add [] (served_block 2 []) [] 0 false]
    ([], []) (NewChain_Init (S := gmap bytes bytes) [1] 100 515 (-1) sample0 ∅)) as (ch & E & Hrep & _); [|apply NewChain_rep; [by eexists|lia|done]|].
  - split; [by split; [apply sample0_extends|]|]. split; [by split; [apply served1_extends|]|]. by split; [split; [apply served2_extends|]|].
  - unfold served_chain. by rewrite E.
Qed.

Lemma served_honest : honest (H1 := ascii_norm) (H3 := toy_hash) (Network0 := served_network) [1] served_chain.
Proof. intros data a d E. cbn [net_RequestFrom served_network fst]. by rewrite E. Qed.

Lemma served_genesis : genesisBlock served_chain = sample0.
Proof. vm_compute. reflexivity. Qed.

Definition served_context : SyncContext :=
  mkSyncContext (served_block 2 []) (sample_chain_header 0) [1] [replicate 20 2].

Lemma download_gets_chain_witness :
  ∃ s', downloadAndValidate (H0 := ascii_norm) (H1 := toy_hash) (Network0 := served_network) 2 served_context [1] (block_ID sample0)
      (block_ID (served_block 2 [])) [] sample_executer = (Ok [served_block 1 [sample_tx]; served_block 2 []], s').
Proof.
  destruct (download_gets_chain (H2 := ascii_norm_laws) (H4 := toy_hash_laws) (Network0 := served_network) [1] served_chain served served 2 0 2
    sample0 (served_block 2 []) served_context sample_executer) as (s' & E & _).
  - exact served_rep.
  - done.
  - exact served_honest.
  - rewrite served_genesis. by vm_compute.
  - intros [|[|k]]; [by vm_compute..|]. unfold batch_after.
    rewrite drop_ge by (cbn [length]; lia). by vm_compute.
  - repeat constructor; vm_compute; reflexivity.
  - reflexivity.
  - reflexivity.
  - lia.
  - exists s'. exact E.
Defined.
