(* ===== verification/Forge.v ===== *)
(** * Forge: generating blocks

    pkg/generator: schema.go, abi_caller.go and generator.go without the
    selection of transactions (Selector.v), and the validation of encrypted
    messages of pkg/crypto/encrypt.go.  A generator works on the state of the
    executer, whose consensus, chain and application it calls, and on a database
    of its own.  The caches of that database are not shared, so they live on a
    heap of their own.  The transactions that the pool offers and the contents
    of the key file are arguments, as are the two readings of the clock. *)

From S2P Require Import Prelude Collection Codec CodecSpec Message Crypto RMT BlockTypes Block TxPool Selector DB DiffDB Event ForkChoice BFTTypes Votes LiskBFT LabiTypes NetTypes Certificate DataAccess Commits Execute.

(** ** pkg/crypto/encrypt.go *)

(** "argon2id", "aes-256-gcm" and "1". *)
Definition KDFArgon2ID : bytes := [97; 114; 103; 111; 110; 50; 105; 100].
Definition CipherAES256GCM : bytes := [97; 101; 115; 45; 50; 53; 54; 45; 103; 99; 109].
Definition messageVersion : bytes := [49].

Definition KDFParams_Validate (e : KDFParams) : res () :=
  if len (KDFParams_Salt e) =? 0 then Err (Errorf "salt cannot be empty") else Ok ().

Definition CipherParams_Validate (e : CipherParams) : res () :=
  if len (CipherParams_IV e) =? 0 then Err (Errorf "iv cannot be empty")
  else if len (CipherParams_Tag e) =? 0 then Err (Errorf "tag cannot be empty")
  else Ok ().

Definition EncryptedMessage_Validate (e : EncryptedMessage) : res () :=
  if negb (bytes_equal (EncryptedMessage_Version e) messageVersion) then Err (Errorf "version must be `1`")
  else if negb (bytes_equal (EncryptedMessage_KDF e) KDFArgon2ID) then Err (Errorf "unsupported KDF")
  else if negb (bytes_equal (EncryptedMessage_Cipher e) CipherAES256GCM) then Err (Errorf "unsupported Cipher")
  else
    match EncryptedMessage_KDFParams e with
    | None => Err (Errorf "kdfparams cannot be empty")
    | Some kdfParams =>
        _ ← KDFParams_Validate kdfParams;
        match EncryptedMessage_CipherParams e with
        | None => Err (Errorf "cipherparams cannot be empty")
        | Some cipherParams => CipherParams_Validate cipherParams
        end
    end.

(** ** schema.go *)

(** "plain" and "encrypted". *)
Definition KeyTypePlain : bytes := [112; 108; 97; 105; 110].
Definition KeyTypeEncrypted : bytes := [101; 110; 99; 114; 121; 112; 116; 101; 100].

Definition NewKeypair (address generationPublicKey generationPrivateKey blsPrivateKey : bytes) : Keypair :=
  mkKeypair address generationPublicKey generationPrivateKey blsPrivateKey.

Definition GeneratorInfo_zero : GeneratorInfo := mkGeneratorInfo 0 0 0.

Definition GeneratorInfo_IsZero (f : GeneratorInfo) : bool :=
  (GeneratorInfo_Height f =? 0) && (GeneratorInfo_MaxHeightPrevoted f =? 0) && (GeneratorInfo_MaxHeightGenerated f =? 0).

Definition GeneratorInfo_Equal (f val : GeneratorInfo) : bool :=
  (GeneratorInfo_Height f =? GeneratorInfo_Height val)
  && (GeneratorInfo_MaxHeightPrevoted f =? GeneratorInfo_MaxHeightPrevoted val)
  && (GeneratorInfo_MaxHeightGenerated f =? GeneratorInfo_MaxHeightGenerated val).

Definition Keys_IsPlain (k : Keys) : bool := bytes_equal (Keys_Type k) KeyTypePlain.
Definition Keys_IsEncrypted (k : Keys) : bool := bytes_equal (Keys_Type k) KeyTypeEncrypted.

Definition Keys_Validate (k : Keys) : res () :=
  if negb (Keys_IsPlain k) && negb (Keys_IsEncrypted k) then Err (Errorf "invalid keys type")
  else if len (Keys_Data k) =? 0 then Err (Errorf "keys data is empty")
  else Ok ().

Definition Keys_PlainKeys (k : Keys) : res PlainKeys :=
  if negb (Keys_IsPlain k) then Err (Errorf "keys type is not plain") else Message_Decode (A := PlainKeys) (Keys_Data k).

Definition Keys_EncryptedKeys `{Norm} (k : Keys) : res EncryptedMessage :=
  if negb (Keys_IsEncrypted k) then Err (Errorf "keys type is not encrypted")
  else Message_Decode (A := EncryptedMessage) (Keys_Data k).

Definition PlainKeys_Validate (k : PlainKeys) : res () :=
  if negb (len (PlainKeys_GeneratorKey k) =? 32) then Err (Errorf "invalid generator key")
  else if negb (len (PlainKeys_GeneratorPrivateKey k) =? 64) then Err (Errorf "invalid generator private key")
  else if negb (len (PlainKeys_BLSKey k) =? 48) then Err (Errorf "invalid bls key")
  else if negb (len (PlainKeys_BLSPrivateKey k) =? 32) then Err (Errorf "invalid bls private key")
  else Ok ().

(** The pointers of an item are nil when the file has no such field. *)
Record KeysFileItem := mkKeysFileItem {
  kf_Address : bytes;
  kf_Plain : option PlainKeys;
  kf_Encrypted : option EncryptedMessage;
}.

(** ** generator.go: keys *)

Definition GeneratorDBPrefixGeneratedInfo : bytes := [0].
Definition GeneratorDBPrefixKeys : bytes := [1].
Definition blockVersion : Z := 2.

(** The method of labi.ABI that only the generator calls. *)
Class AssetInserter (A : Type) := {
  app_InsertAssets : InsertAssetsRequest → A → res InsertAssetsResponse * A;
}.

Section forge.
Context {S A : Type} `{Pebble S} `{Norm, Hasher, BLS, Ed25519, Application A} `{!AssetInserter A} `{PoolEnv}.
Context (commit_order : cacheDB → list (bytes * cacheValue)).

(** The fields of [Generator] that change or are configured. *)
Record blockGenerator := mkBlockGenerator {
  bg_generatorDB : S;
  bg_enabledKeys : gmap bytes PlainKeys;
  bg_waitThreshold : Z;
  bg_MaxTransactionsSize : Z;
}.

Definition set_bg_generatorDB (db : S) (g : blockGenerator) : blockGenerator :=
  mkBlockGenerator db (bg_enabledKeys g) (bg_waitThreshold g) (bg_MaxTransactionsSize g).
Definition set_bg_enabledKeys (keys : gmap bytes PlainKeys) (g : blockGenerator) : blockGenerator :=
  mkBlockGenerator (bg_generatorDB g) keys (bg_waitThreshold g) (bg_MaxTransactionsSize g).

Definition EnableGeneration (address : bytes) (keys : PlainKeys) (g : blockGenerator) : blockGenerator :=
  set_bg_enabledKeys (<[address := keys]> (bg_enabledKeys g)) g.
Definition DisableGeneration (address : bytes) (g : blockGenerator) : blockGenerator :=
  set_bg_enabledKeys (delete address (bg_enabledKeys g)) g.
Definition IsGenerationEnabled (address : bytes) (g : blockGenerator) : bool :=
  bool_decide (is_Some (bg_enabledKeys g !! address)).

(** [batch := g.generatorDB.NewBatch(); store.Commit(batch); Write(batch)]. *)
Definition commit_generatorDB (d : Database) (h : heap) (db : S) : S :=
  Write (Database_Commit d (commit_order (deref h (d_cache d))) []).1 db.

(** The methods [Validate] have value receivers, so a nil pointer panics. *)
Fixpoint save_keys (db : S) (keysStore : Database) (items : list KeysFileItem) (h : heap) : res heap :=
  match items with
  | [] => Ok h
  | rawKeys :: items =>
      match kf_Encrypted rawKeys with
      | None => Panic
      | Some encrypted =>
          match EncryptedMessage_Validate encrypted with
          | Ok _ =>
              h ← Database_Set db keysStore (kf_Address rawKeys)
                    (Encode (mkKeys (kf_Address rawKeys) KeyTypeEncrypted (Encode encrypted))) h;
              save_keys db keysStore items h
          | _ =>
              match kf_Plain rawKeys with
              | None => Panic
              | Some plain =>
                  match PlainKeys_Validate plain with
                  | Ok _ =>
                      h ← Database_Set db keysStore (kf_Address rawKeys)
                            (Encode (mkKeys (kf_Address rawKeys) KeyTypePlain (Encode plain))) h;
                      save_keys db keysStore items h
                  | _ => save_keys db keysStore items h
                  end
              end
          end
      end
  end.

(** [file] is what reading and unmarshalling the configured file gives, [None]
    when no file is configured. *)
Definition saveGeneratorsFromFile (file : option (res (list KeysFileItem))) (g : blockGenerator) : res blockGenerator :=
  match file with
  | None => Ok g
  | Some keysFile =>
      items ← keysFile;
      let '(keysStore, h) := New GeneratorDBPrefixKeys [] in
      h ← save_keys (bg_generatorDB g) keysStore items h;
      Ok (set_bg_generatorDB (commit_generatorDB keysStore h (bg_generatorDB g)) g)
  end.

Fixpoint load_keys (keysList : list (bytes * bytes)) (g : blockGenerator) : res blockGenerator :=
  match keysList with
  | [] => Ok g
  | (key, value) :: keysList =>
      keys ← Message_Decode (A := Keys) value;
      if Keys_IsPlain keys then
        plainKeys ← Keys_PlainKeys keys;
        load_keys keysList (EnableGeneration key plainKeys g)
      else load_keys keysList g
  end.

Definition loadGenerator (g : blockGenerator) : res blockGenerator :=
  let '(keysStore, h) := New GeneratorDBPrefixKeys [] in
  let '(keysList, _) := Database_Iterate (bg_generatorDB g) keysStore [] (-1) false h in
  load_keys keysList g.

(** ** abi_caller.go *)

(** The fields of [stateExecuter] that change. *)
Record genExecuter := mkGenExecuter {
  ge_contextID : bytes;
  ge_events : list Event;
  ge_abiConsensus : option LabiConsensus;
}.

Abbreviation exec := (@exec S A).

Definition gen_newBlockExecuteABI (header : BlockHeader) : exec genExecuter :=
  resp ← call (app_InitStateMachine (mkInitStateMachineRequest (Some header)));
  ret (mkGenExecuter (InitStateMachineResponse_ContextID resp) [] None).

Definition gen_InsertAssets (c : genExecuter) : exec (list BlockAsset) :=
  resp ← call (app_InsertAssets (mkInsertAssetsRequest (ge_contextID c) 0));
  ret (InsertAssetsResponse_Assets resp).

Definition gen_getABIConsensus (diffStore : Database) (header : BlockHeader) : exec LabiConsensus :=
  params ← on_heap (λ store, GetBFTParameters store diffStore (bh_Height header));
  generators ← on_heap (λ store, GetGeneratorKeys store diffStore (bh_Height header));
  impliesMaxPrevote ← on_heap (λ store, ImpliesMaximalPrevotes store diffStore header);
  '(_, _, maxHeightCertified) ← on_heap (λ store, GetBFTHeights store diffStore);
  ret (mkLabiConsensus (GetLabiValidators (bp_validators params) generators) impliesMaxPrevote maxHeightCertified
         (bp_certificateThreshold params)).

Definition gen_BeforeTransactionsExecute (bft : Module_) (c : genExecuter) (diffStore : Database) (header : BlockHeader)
    (assets : list BlockAsset) : exec genExecuter :=
  _ ← on_heap_ (λ store, BeforeTransactionsExecute store bft header diffStore);
  abiConsensus ← gen_getABIConsensus diffStore header;
  resp ← call (app_BeforeTransactionsExecute (mkBeforeTransactionsExecuteRequest (ge_contextID c) assets (Some abiConsensus)));
  ret (mkGenExecuter (ge_contextID c) (ge_events c ++ BeforeTransactionsExecuteResponse_Events resp) (Some abiConsensus)).

(** The calls of the selection: an error is [None], the events of transactions
    that are not invalid are collected. *)
Definition gen_ABI (contextID : bytes) : ABI (A * list Event) := {|
  client_VerifyTransaction s tx :=
    let '(r, a) := app_VerifyTransaction (mkVerifyTransactionRequest contextID (Some tx)) s.1 in
    (match r with Ok resp => Some (VerifyTransactionResponse_Result resp) | _ => None end, (a, s.2));
  client_ExecuteTransaction s header assets tx :=
    let '(r, a) := app_ExecuteTransaction (mkExecuteTransactionRequest contextID (Some tx) assets false (Some header) None) s.1 in
    match r with
    | Ok resp =>
        (Some (ExecuteTransactionResponse_Result resp),
         (a, if ExecuteTransactionResponse_Result resp =? TxExecuteResultInvalid then s.2
             else s.2 ++ ExecuteTransactionResponse_Events resp))
    | _ => (None, (a, s.2))
    end;
|}.

Definition gen_select (c : genExecuter) (header : BlockHeader) (assets : list BlockAsset) (txs : list Transaction) (maxSize : Z)
    : exec (list Transaction * genExecuter) := λ s,
  match selectTransactionsByFee (H1 := gen_ABI (ge_contextID c)) header assets maxSize txs (x_app s, ge_events c) with
  | Ok (selected, (a, events)) =>
      (Ok (selected, mkGenExecuter (ge_contextID c) events (ge_abiConsensus c)), set_x_app a s)
  | Err e => (Err e, s)
  | Panic => (Panic, s)
  | OutOfFuel => (OutOfFuel, s)
  end.

(** The validators of the response are not used. *)
Definition gen_AfterTransactionsExecute (c : genExecuter) (assets : list BlockAsset) (transactions : list Transaction)
    : exec genExecuter :=
  resp ← call (app_AfterTransactionsExecute
                 (mkAfterTransactionsExecuteRequest (ge_contextID c) assets (ge_abiConsensus c) transactions));
  ret (mkGenExecuter (ge_contextID c) (ge_events c ++ AfterTransactionsExecuteResponse_Events resp) (ge_abiConsensus c)).

Definition gen_Commit (c : genExecuter) (prevStateRoot : bytes) : exec bytes :=
  resp ← call (app_Commit (mkCommitRequest (ge_contextID c) prevStateRoot [] true));
  ret (CommitResponse_StateRoot resp).

Definition gen_Events (c : genExecuter) : list Event := UpdateIndex (ge_events c).

(** ** generator.go: forging *)

Definition shouldForge (slot : BlockSlot) (now : Z) (g : blockGenerator) : exec bool :=
  syncing ← gets x_syncying;
  if (syncing : bool) then ret false
  else
    let currentTimeslot := GetSlotNumber slot (u32 now) in
    lastHeader ← (λ s, lift (last_header (x_chain s)) s);
    let lastTimeslot := GetSlotNumber slot (bh_Timestamp lastHeader) in
    if currentTimeslot =? lastTimeslot then ret false
    else
      let beginningTimeslot := GetSlotTime slot currentTimeslot in
      if (lastTimeslot <? currentTimeslot - 1) && (now <=? beginningTimeslot + bg_waitThreshold g)
      then ret false else ret true.

(** [g.consensus.GetAggregateCommit()] opens a store of its own. *)
Definition aggregate_commit (diffStore : Database) : exec AggregateCommit := λ s,
  (GetAggregateCommit (bft_state (x_database s) diffStore (x_heap s)) (x_pool s), s).
Definition consensus_GetAggregateCommit : exec AggregateCommit :=
  diffStore ← new_diffStore;
  aggregate_commit diffStore.

(** The previous info of a generator, or zero. *)
Definition previous_info (infoBytes : option bytes) : res GeneratorInfo :=
  match infoBytes with Some infoBytes => Message_Decode infoBytes | None => Ok GeneratorInfo_zero end.

Definition initBlockHeader (db : S) (generatorDB : Database) (generatorAddress : bytes) (diffStore : Database) (now : Z) (gh : heap)
    : exec (BlockHeader * heap) :=
  lastHeader ← (λ s, lift (last_header (x_chain s)) s);
  let nextHeight := u32 (bh_Height lastHeader + 1) in
  '(maxHeightPrevoted, _, _) ← on_heap (λ store, GetBFTHeights store diffStore);
  let prevInfoStore := WithPrefix GeneratorDBPrefixGeneratedInfo generatorDB in
  let '(infoBytes, gh) := Database_Get db prevInfoStore generatorAddress gh in
  previousInfo ← lift (previous_info infoBytes);
  let nextInfo := mkGeneratorInfo nextHeight maxHeightPrevoted (GeneratorInfo_Height previousInfo) in
  gh ← lift (Database_Set db prevInfoStore generatorAddress (Encode nextInfo) gh);
  aggregateCommit ← consensus_GetAggregateCommit;
  ret (mkBlockHeader [] blockVersion (u32 now) nextHeight (bh_ID lastHeader) generatorAddress [] [] [] []
         maxHeightPrevoted (GeneratorInfo_Height previousInfo) false [] (Some aggregateCommit) [], gh).

Definition sealBlock (partialHeader : BlockHeader) (txs : list Transaction) (blockAssets : list BlockAsset) (events : list Event)
    (stateRoot privateKey : bytes) (diffStore : Database) : exec Block :=
  let blockAssets := BlockAssets_Sort blockAssets in
  params ← on_heap (λ store, GetBFTParameters store diffStore (u32 (bh_Height partialHeader + 1)));
  eventRoot ← lift (CalculateEventRoot events);
  chainID ← gets (λ s, chainID (x_chain s));
  let h := partialHeader in
  let header := BlockHeader_Sign chainID privateKey
    (mkBlockHeader (bh_ID h) (bh_Version h) (bh_Timestamp h) (bh_Height h) (bh_PreviousBlockID h) (bh_GeneratorAddress h)
       (CalculateRoot (tx_ID <$> txs)) (BlockAssets_GetRoot blockAssets) eventRoot stateRoot (bh_MaxHeightPrevoted h)
       (bh_MaxHeightGenerated h) (bh_ImpliesMaxPrevotes h) (bp_validatorsHash params) (bh_AggregateCommit h) (bh_Signature h)) in
  ret (mkBlock (Some header) txs blockAssets).

(** The block that is forged and the database of the generator with its info;
    [None] when it is not the turn of an enabled generator.  [now] and [now'] are
    the readings of the clock by [forge] and [initBlockHeader], [txs] is what
    [g.pool.GetProcessable()] returns. *)
Definition forge_block (bft : Module_) (slot : BlockSlot) (now now' : Z) (txs : list Transaction) (g : blockGenerator)
    : exec (option (Block * S)) :=
  diffStore ← new_diffStore;
  should ← shouldForge slot now g;
  if negb (should : bool) then ret None
  else
    lastHeader ← (λ s, lift (last_header (x_chain s)) s);
    generators ← on_heap (λ store, GetGeneratorKeys store diffStore (u32 (bh_Height lastHeader + 1)));
    generator ← lift (AtTimestamp slot generators (u32 now));
    match bg_enabledKeys g !! gn_address generator with
    | None => ret None
    | Some keys =>
        let '(generatorDB, gh) := New GeneratorDBPrefixGeneratedInfo [] in
        '(partialHeader, gh) ← initBlockHeader (bg_generatorDB g) generatorDB (gn_address generator) diffStore now' gh;
        abi ← gen_newBlockExecuteABI partialHeader;
        deferred app_clear (
          assets ← gen_InsertAssets abi;
          abi ← gen_BeforeTransactionsExecute bft abi diffStore partialHeader assets;
          '(selectedTxs, abi) ← (if len txs =? 0 then ret ([], abi)
                                 else gen_select abi partialHeader assets txs (bg_MaxTransactionsSize g));
          let includingTxs := limitTransactionsWithSize (bg_MaxTransactionsSize g) selectedTxs in
          abi ← gen_AfterTransactionsExecute abi assets includingTxs;
          lastHeader ← (λ s, lift (last_header (x_chain s)) s);
          stateRoot ← gen_Commit abi (bh_StateRoot lastHeader);
          signedBlock ← sealBlock partialHeader includingTxs assets (gen_Events abi) stateRoot
                          (PlainKeys_GeneratorPrivateKey keys) diffStore;
          header ← lift (header_of signedBlock);
          let previousInfo := mkGeneratorInfo (bh_Height header) (bh_MaxHeightPrevoted header) (bh_MaxHeightGenerated header) in
          let previousInfoStore := WithPrefix GeneratorDBPrefixGeneratedInfo generatorDB in
          gh ← lift (Database_Set (bg_generatorDB g) previousInfoStore (bh_GeneratorAddress header) (Encode previousInfo) gh);
          ret (Some (signedBlock, commit_generatorDB generatorDB gh (bg_generatorDB g))))
    end.

(** Errors are logged. *)
Definition forge (bft : Module_) (slot : BlockSlot) (now now' : Z) (txs : list Transaction)
    (g : blockGenerator) (processCh : list (Block * bytes)) : exec (blockGenerator * list (Block * bytes)) := λ s,
  let '(r, s) := forge_block bft slot now now' txs g s in
  match r with
  | Ok (Some (block, db)) => (Ok (set_bg_generatorDB db g, AddInternal block processCh), s)
  | Ok None | Err _ => (Ok (g, processCh), s)
  | Panic => (Panic, s)
  | OutOfFuel => (OutOfFuel, s)
  end.
End forge.

(** ** generator.go: events of the consensus *)

Section events.
Context `{Norm, Hasher, PoolEnv}.

Fixpoint onNewBlock (txs : list Transaction) : pool_m () :=
  match txs with
  | [] => mret ()
  | tx :: txs => _ ← Remove (tx_ID tx); onNewBlock txs
  end.

Fixpoint onDeleteBlock (now : Z) (txs : list Transaction) : pool_m () :=
  match txs with
  | [] => mret ()
  | tx :: txs => _ ← Add now tx; onDeleteBlock now txs
  end.
End events.

(** The generator of the block that finalized others certifies them. *)
Definition onFinalizeBlock `{Hasher, ChainReader, BLSSigner} {S : Type} (diffStore : ConsensusState) (order : list Z) (original next : Z)
    (trigger : BlockHeader) (g : blockGenerator (S := S)) (p : Pool) : res Pool :=
  match bg_enabledKeys g !! bh_GeneratorAddress trigger with
  | None => Ok p
  | Some key =>
      '(_, p) ← Certify diffStore order original next (bh_GeneratorAddress trigger) (PlainKeys_BLSPrivateKey key) p;
      Ok p
  end.
