(* ===== verification/ForgeSpec.v ===== *)
(** * ForgeSpec: forged blocks

    What [forge] (Forge.v) produces: the block passes the validation and
    verification of the executer that receives it, and the headers that one
    generator signs over time do not contradict each other as long as its heights
    grow.  The first section compares reads through two views of one database
    with equal caches. *)

From S2P Require Import Prelude Collection Codec CodecSpec Message Crypto RMT BlockTypes Block TxPool Selector DB DiffDB Event ForkChoice BFTTypes Votes LiskBFT LabiTypes NetTypes Certificate DataAccess ChainSpec Commits StateInv Execute ExecuteSpec Forge.

(** ** Views with equal caches *)

Section twins.
Context {S : Type} `{Pebble S} (store : S).

Record twin (d d' : Database) (h h' : heap) : Prop := {
  tw_prefix : d_prefix d = d_prefix d' ∧ d_prefixLength d = d_prefixLength d';
  tw_cache : deref h (d_cache d) = deref h' (d_cache d');
  tw_bound : (d_cache d < length h)%nat ∧ (d_cache d' < length h')%nat;
}.

Lemma twin_New (p : bytes) (h h' : heap) : twin (New p h).1 (New p h').1 (New p h).2 (New p h').2.
Proof.
  split; [done| |].
  - unfold New, alloc, deref. cbn. by rewrite !lookup_app_r, !Nat.sub_diag by lia.
  - cbn. rewrite !length_app. cbn. lia.
Qed.

Lemma twin_store (d d' : Database) (h h' : heap) c : twin d d' h h' → twin d d' (store_at (d_cache d) c h) (store_at (d_cache d') c h').
Proof.
  intros [Hp Hc [Hb Hb']]. split; [done| |].
  - by rewrite !deref_store_at.
  - unfold store_at. by rewrite !length_insert.
Qed.

Lemma twin_WithPrefix (p : bytes) (d d' : Database) (h h' : heap) : twin d d' h h' → twin (WithPrefix p d) (WithPrefix p d') h h'.
Proof. intros [[Hp Hl] Hc Hb]. split; [|done|done]. unfold WithPrefix. cbn. by rewrite Hp. Qed.

Lemma twin_unprefix (p : bytes) (d d' : Database) (h0 h0' h h' : heap) : twin d d' h0 h0' → twin (WithPrefix p d) (WithPrefix p d') h h' → twin d d' h h'.
Proof. intros [Hp _ _] [_ Hc Hb]. split; done. Qed.

Lemma twin_key (d d' : Database) (h h' : heap) k : twin d d' h h' → getKey d k = getKey d' k.
Proof. intros [[Hp Hl] _ _]. unfold getKey. by rewrite Hp, Hl. Qed.

(** Two runs with the same outcome on twin views. *)
Definition same {T : Type} (d d' : Database) (r r' : res (T * heap)) : Prop :=
  match r, r' with
  | Ok (x, h), Ok (x', h') => x = x' ∧ twin d d' h h'
  | Err e, Err e' => e = e'
  | Panic, Panic | OutOfFuel, OutOfFuel => True
  | _, _ => False
  end.

Lemma same_bind {T U : Type} (d d' : Database) (r r' : res (T * heap)) (f f' : T * heap → res (U * heap)) :
  same d d' r r' → (∀ x h h', twin d d' h h' → same d d' (f (x, h)) (f' (x, h'))) → same d d' (mbind f r) (mbind f' r').
Proof.
  intros Hr Hf. destruct r as [[x h]|e| |], r' as [[x' h']|e'| |]; cbn in *; try done. destruct Hr as [<- Ht]. by apply Hf.
Qed.

Lemma same_pure {T U : Type} (d d' : Database) (r : res T) (f f' : T → res (U * heap)) :
  (∀ x, same d d' (f x) (f' x)) → same d d' (mbind f r) (mbind f' r).
Proof. intros Hf. destruct r; cbn; [apply Hf|done..]. Qed.

Lemma same_unprefix {T : Type} (p : bytes) (d d' : Database) (h0 h0' : heap) (r r' : res (T * heap)) :
  twin d d' h0 h0' → same (WithPrefix p d) (WithPrefix p d') r r' → same d d' r r'.
Proof.
  intros Ht Hs. destruct r as [[x h]|e| |], r' as [[x' h']|e'| |]; cbn in *; try done. destruct Hs as [<- Hs].
  split; [done|]. by eapply twin_unprefix.
Qed.

Lemma Range_twin (d d' : Database) (h h' : heap) a b limit reversed : twin d d' h h' →
  same d d' (Ok (Database_Range store d a b limit reversed h)) (Ok (Database_Range store d' a b limit reversed h')).
Proof.
  intros Ht. unfold Database_Range. rewrite !(twin_key _ _ _ _ _ Ht), (tw_cache _ _ _ _ Ht), (proj2 (tw_prefix _ _ _ _ Ht)).
  destruct (stored_loop _ _ _) as [storedValue c]. cbn. split; [done|]. by apply twin_store.
Qed.

Lemma Get_twin (d d' : Database) (h h' : heap) k : twin d d' h h' → same d d' (Ok (Database_Get store d k h)) (Ok (Database_Get store d' k h')).
Proof.
  intros Ht. unfold Database_Get. rewrite !(twin_key _ _ _ _ _ Ht), (tw_cache _ _ _ _ Ht).
  destruct (c_get _ _) as [[val ex] del]. destruct ex; [done|]. destruct del; [done|].
  destruct (p_get _ _); [|done]. cbn. split; [done|]. by apply twin_store.
Qed.

Lemma getVotes_twin (d d' : Database) (h h' : heap) : twin d d' h h' → same d d' (getVotes store d h) (getVotes store d' h').
Proof.
  intros Ht. unfold getVotes. eapply same_unprefix; [exact Ht|].
  pose proof (Get_twin _ _ _ _ emptyKey (twin_WithPrefix (dbPrefix storePrefixBFTVotes) _ _ _ _ Ht)) as Hg.
  unfold with_heap, GetDecodable. destruct (Database_Get _ _ _ h) as [val h1], (Database_Get _ _ _ h') as [val' h1'].
  destruct Hg as [<- Hg]. cbn [fst snd]. apply same_pure. intros x. by split.
Qed.

Lemma GetBFTHeights_twin (d d' : Database) (h h' : heap) : twin d d' h h' → same d d' (GetBFTHeights store d h) (GetBFTHeights store d' h').
Proof. intros Ht. apply same_bind; [by apply getVotes_twin|]. intros v h1 h1' Ht1. by split. Qed.

Lemma GetGeneratorKeys_twin (d d' : Database) (h h' : heap) height : twin d d' h h' → same d d' (GetGeneratorKeys store d height h) (GetGeneratorKeys store d' height h').
Proof.
  intros Ht. unfold GetGeneratorKeys. apply same_bind; [|intros x h1 h1' Ht1; by split]. eapply same_unprefix; [exact Ht|].
  unfold getGeneratorKeys.
  pose proof (Range_twin _ _ _ _ (Bytes.FromUint32 0) (Bytes.FromUint32 height) 1 true (twin_WithPrefix (dbPrefix storePrefixGeneratorKeys) _ _ _ _ Ht)) as Hr.
  destruct (Database_Range _ _ _ _ _ _ h) as [kv h1], (Database_Range _ _ _ _ _ _ h') as [kv' h1']. destruct Hr as [<- Hr].
  destruct (negb (len kv =? 1)); [done|]. apply same_pure. intros e. apply same_pure. intros keys. by split.
Qed.

Lemma Range_same {T : Type} (p : bytes) (d d' : Database) (h h' : heap) (a b : bytes) (limit : Z) (reversed : bool) (f : list (bytes * bytes) * heap → res (T * heap)) :
  twin d d' h h' → (∀ kv h1 h1', twin (WithPrefix p d) (WithPrefix p d') h1 h1' → same (WithPrefix p d) (WithPrefix p d') (f (kv, h1)) (f (kv, h1'))) →
  same d d' (f (Database_Range store (WithPrefix p d) a b limit reversed h)) (f (Database_Range store (WithPrefix p d') a b limit reversed h')).
Proof.
  intros Ht Hf. eapply same_unprefix; [exact Ht|].
  pose proof (Range_twin _ _ _ _ a b limit reversed (twin_WithPrefix p _ _ _ _ Ht)) as Hr.
  destruct (Database_Range _ _ _ _ _ _ h) as [kv h1], (Database_Range _ _ _ _ _ _ h') as [kv' h1']. destruct Hr as [<- Hr]. by apply Hf.
Qed.

Lemma GetBFTParameters_twin (d d' : Database) (h h' : heap) height :
  twin d d' h h' → same d d' (GetBFTParameters store d height h) (GetBFTParameters store d' height h').
Proof.
  intros Ht. unfold GetBFTParameters, getBFTParams.
  apply (Range_same (dbPrefix storePrefixBFTParams) d d' h h' _ _ 1 true (λ '(kv, h), if negb (len kv =? 1) then Err ErrBFTParamsNotFound
    else e ← index kv 0; params ← Message_Decode (A := BFTParams) e.2; Ok (params, h)) Ht).
  intros kv h1 h1' Ht1. case_match; [done|]. apply same_pure. intros e. apply same_pure. intros x. by split.
Qed.

Lemma NextHeight_twin (d d' : Database) (h h' : heap) height :
  twin d d' h h' → same d d' (NextHeightBFTParameters store d height h) (NextHeightBFTParameters store d' height h').
Proof.
  intros Ht. unfold NextHeightBFTParameters.
  apply (Range_same (dbPrefix storePrefixBFTParams) d d' h h' _ _ 1 false (λ '(kv, h), if negb (len kv =? 1) then Err ErrDataNotFound
    else e ← index kv 0; n ← Bytes.ToUint32 e.1; Ok (n, h)) Ht).
  intros kv h1 h1' Ht1. case_match; [done|]. apply same_pure. intros e. apply same_pure. intros x. by split.
Qed.

Lemma answer_same {T : Type} (d d' : Database) (r r' : res (T * heap)) : same d d' r r' → answer r = answer r'.
Proof. destruct r as [[x h]|e| |], r' as [[x' h']|e'| |]; cbn; try done; [by intros [-> _]|by intros ->]. Qed.

Lemma verifyAggregateCommit_twin `{Hasher, BLS, ChainReader} (d d' : Database) (h h' : heap) ac :
  twin d d' h h' → verifyAggregateCommit (bft_state store d h) ac = verifyAggregateCommit (bft_state store d' h') ac.
Proof.
  intros Ht. unfold verifyAggregateCommit. cbn [GetBFTHeights_ GetBFTParameters_ NextHeightBFTParameters_ bft_state].
  rewrite (answer_same _ _ _ _ (GetBFTHeights_twin _ _ _ _ Ht)). destruct (answer (GetBFTHeights store d' h')) as [[[pv pc] mc]|e| |]; [|done..]. cbn [mbind res_bind].
  by rewrite (answer_same _ _ _ _ (NextHeight_twin _ _ _ _ _ Ht)), (answer_same _ _ _ _ (GetBFTParameters_twin _ _ _ _ _ Ht)).
Qed.

(** A value that was read is cached. *)
Lemma Get_again (d : Database) (k : bytes) (h h1 : heap) (v : bytes) :
  (d_cache d < length h)%nat → Database_Get store d k h = (Some v, h1) → Database_Get store d k h1 = (Some v, h1).
Proof.
  intros Hb. unfold Database_Get. destruct (c_get _ (deref h _)) as [[val ex] del] eqn:E.
  destruct ex; [intros [= -> <-]; by rewrite E|]. destruct del; [done|].
  destruct (p_get _ _) as [v'|] eqn:Ep; [|done]. intros [= -> <-]. rewrite deref_store_at by done.
  unfold c_get, c_cache. by rewrite lookup_insert_eq.
Qed.

Lemma getVotes_again (d : Database) (h h1 : heap) (v : BFTVotes) :
  (d_cache d < length h)%nat → getVotes store d h = Ok (v, h1) → getVotes store d h1 = Ok (v, h1).
Proof.
  intros Hb. unfold getVotes, with_heap, GetDecodable. destruct (Database_Get _ _ _ h) as [val h2] eqn:E. cbn [fst snd].
  destruct val as [val|]; [|done]. destruct (Message_Decode val) as [v'|e| |] eqn:Ed; [|done..]. intros [= <- <-].
  rewrite (Get_again (WithPrefix (dbPrefix storePrefixBFTVotes) d) emptyKey h h2 val Hb E). cbn [fst snd]. by rewrite Ed.
Qed.

(** What the consensus store says about the next block: the generators of its
    height, the votes, and the state that commits are checked against. *)
Definition read_turn (height : Z) : res (list Generator * BFTVotes * ConsensusState) :=
  let '(d, h) := New (DBPrefixToBytes DBPrefixState) [] in
  '(generators, h) ← GetGeneratorKeys store d height h;
  '(votes, h) ← getVotes store d h;
  Ok (generators, votes, bft_state store d h).

Lemma read_turn_Ok (height : Z) (h0 : heap) (generators : list Generator) (votes : BFTVotes) (h1 h2 : heap) :
  let '(d, h) := New (DBPrefixToBytes DBPrefixState) h0 in
  GetGeneratorKeys store d height h = Ok (generators, h1) → getVotes store d h1 = Ok (votes, h2) →
  ∃ d' h', read_turn height = Ok (generators, votes, bft_state store d' h') ∧ twin d' d h' h2.
Proof.
  destruct (New _ h0) as [d h] eqn:En. intros E1 E2. unfold read_turn. destruct (New _ []) as [d' h'] eqn:En'.
  assert (twin d' d h' h) as Ht.
  { pose proof (twin_New (DBPrefixToBytes DBPrefixState) [] h0) as Ht. by rewrite En, En' in Ht. }
  pose proof (GetGeneratorKeys_twin _ _ _ _ height Ht) as H1. rewrite E1 in H1. destruct (GetGeneratorKeys store d' height h') as [[g1 h1']|e| |]; [|done..].
  destruct H1 as [-> Ht1]. cbn [mbind res_bind]. pose proof (getVotes_twin _ _ _ _ Ht1) as H2. rewrite E2 in H2.
  destruct (getVotes store d' h1') as [[v1 h2']|e| |]; [|done..]. destruct H2 as [-> Ht2]. cbn [mbind res_bind]. by exists d', h2'.
Qed.

Lemma read_turn_run (height : Z) (h0 : heap) (generators : list Generator) (votes : BFTVotes) (st : ConsensusState) :
  read_turn height = Ok (generators, votes, st) →
  let '(d, h) := New (DBPrefixToBytes DBPrefixState) h0 in
  ∃ h1 h2 d' h', GetGeneratorKeys store d height h = Ok (generators, h1) ∧ getVotes store d h1 = Ok (votes, h2) ∧
    st = bft_state store d' h' ∧ twin d' d h' h2 ∧ (d_cache d < length h1)%nat.
Proof.
  unfold read_turn. destruct (New _ []) as [d' h'] eqn:En'. destruct (New _ h0) as [d h] eqn:En.
  assert (twin d' d h' h) as Ht.
  { pose proof (twin_New (DBPrefixToBytes DBPrefixState) [] h0) as Ht. by rewrite En, En' in Ht. }
  pose proof (GetGeneratorKeys_twin _ _ _ _ height Ht) as H1. destruct (GetGeneratorKeys store d' height h') as [[g1 h1']|e| |]; [|done..].
  destruct (GetGeneratorKeys store d height h) as [[g2 h1]|e| |]; [|done..]. destruct H1 as [-> Ht1]. cbn [mbind res_bind].
  pose proof (getVotes_twin _ _ _ _ Ht1) as H2. destruct (getVotes store d' h1') as [[v1 h2']|e| |]; [|done..].
  destruct (getVotes store d h1) as [[v2 h2]|e| |] eqn:E2; [|done..]. destruct H2 as [-> Ht2]. cbn [mbind res_bind].
  intros [= <- <- <-]. exists h1, h2, d', h2'. split_and!; [done..|apply (tw_bound _ _ _ _ Ht1)].
Qed.
End twins.

Section forged.
Context {S A : Type} `{PebbleLaws S} `{NormLaws, HashLaws, BLS, Ed25519, Application A} `{!AssetInserter A} `{PoolEnv}.
Context (commit_order : cacheDB → list (bytes * cacheValue)) (Horder : ∀ c, commit_order c ≡ₚ map_to_list c).

(** ** The info of a generator *)

Definition info_key (address : bytes) : bytes := [0; 0] ++ address.

(** The info a database holds for an address. *)
Definition stored_info (db : S) (address : bytes) : res GeneratorInfo := previous_info (p_get db (info_key address)).

(** The view on the infos in [forge]. *)
Abbreviation info_db := (New GeneratorDBPrefixGeneratedInfo []).1.
Abbreviation info_heap := (New GeneratorDBPrefixGeneratedInfo []).2.
Abbreviation info_view := (WithPrefix GeneratorDBPrefixGeneratedInfo info_db).

Lemma info_write (db : S) address v1 v2 infoBytes gh1 gh2 gh3 :
  Database_Get db info_view address info_heap = (infoBytes, gh1) →
  Database_Set db info_view address v1 gh1 = Ok gh2 → Database_Set db info_view address v2 gh2 = Ok gh3 →
  infoBytes = p_get db (info_key address) ∧
  ∀ k, p_get (commit_generatorDB commit_order info_db gh3 db) k =
    if bytes_equal (info_key address) k then Some v2 else p_get db k.
Proof using H0 Horder.
  intros E1 E2 E3.
  assert (∀ h, (0 < length h)%nat → wf info_view h) as Hwf by (intros h Hh; split; [done|exact Hh]).
  destruct (Get_refines db info_view info_heap address) as (h1 & Eg & [Hl1 _] & Hok1 & Hv1); [by apply Hwf; cbn; lia|apply newCacheDB_ok|].
  rewrite Eg in E1. injection E1 as <- <-.
  destruct (Set_refines db info_view h1 address v1) as (h2 & Es & [Hl2 _] & Hok2 & Hv2); [apply Hwf; rewrite Hl1; cbn; lia|done|].
  rewrite Es in E2. injection E2 as <-.
  destruct (Set_refines db info_view h2 address v2) as (h3 & Es3 & _ & Hok3 & Hv3); [apply Hwf; rewrite Hl2, Hl1; cbn; lia|done|].
  rewrite Es3 in E3. injection E3 as <-. split.
  - change (d_prefix info_view ++ address) with (info_key address). apply view_newCacheDB.
  - intros k. unfold commit_generatorDB, Database_Commit. rewrite c_commit_spec. cbn [fst app].
    rewrite (commit_view db (deref h3 0) _ Hok3 (Horder _)). change (deref h3 0) with (deref h3 (d_cache info_view)). rewrite Hv3.
    change (d_prefix info_view ++ address) with (info_key address). unfold update. destruct (bytes_equal (info_key address) k) eqn:Ek; [done|].
    change 0%nat with (d_cache info_view). rewrite Hv2. unfold update.
    change (d_prefix info_view ++ address) with (info_key address). rewrite Ek, Hv1. apply view_newCacheDB.
Qed.

(** ** Steps that leave the chain alone *)

Definition calm {T} (m : exec (S := S) (A := A) T) : Prop := ∀ s, x_chain (m s).2 = x_chain s.

Lemma calm_bind {T U} (m : exec (S := S) (A := A) T) (f : T → exec U) : calm m → (∀ x, calm (f x)) → calm (mbind f m).
Proof.
  intros Hm Hf s. specialize (Hm s). unfold mbind, exec_bind. destruct (m s) as [[x|e| |] s1]; cbn [snd] in *; [|done..].
  by rewrite Hf.
Qed.
Lemma calm_ret {T} (x : T) : calm (ret x).
Proof. done. Qed.
Lemma calm_lift {T} (x : res T) : calm (lift x).
Proof. done. Qed.
Lemma calm_gets {T} (f : executer → T) : calm (gets f).
Proof. done. Qed.
Lemma calm_read {T} (f : executer → res T) : calm (λ s, lift (f s) s).
Proof. done. Qed.
Lemma calm_call {T} (f : A → res T * A) : calm (call f).
Proof. intros s. unfold call. by destruct (f (x_app s)). Qed.
Lemma calm_on_heap {T} (f : S → heap → res (T * heap)) : calm (on_heap f).
Proof. intros s. unfold on_heap. by destruct (f _ _) as [[x h]|e| |]. Qed.
Lemma calm_on_heap_ (f : S → heap → res heap) : calm (on_heap_ f).
Proof. apply calm_on_heap. Qed.
Lemma calm_diffStore : calm new_diffStore.
Proof. done. Qed.
Lemma calm_if {T} (b : bool) (m1 m2 : exec T) : calm m1 → calm m2 → calm (if b then m1 else m2).
Proof. by destruct b. Qed.
Lemma calm_select c header assets txs maxSize : calm (gen_select c header assets txs maxSize).
Proof. intros s. unfold gen_select. by destruct (selectTransactionsByFee _ _ _ _ _) as [[selected [a events]]|e| |]. Qed.

Hint Resolve calm_bind calm_ret calm_lift calm_gets calm_read calm_call calm_on_heap calm_on_heap_ calm_diffStore calm_if calm_select : calm.

Ltac calm_steps :=
  repeat first [apply calm_bind | progress intros | match goal with p : (_ * _)%type |- _ => destruct p end | solve [auto with calm] | apply calm_if].

Lemma gen_calm (bft : Module_) c diffStore header assets txs maxSize prevStateRoot :
  calm (gen_newBlockExecuteABI header) ∧ calm (gen_InsertAssets c) ∧
  calm (gen_BeforeTransactionsExecute bft c diffStore header assets) ∧ calm (gen_AfterTransactionsExecute c assets txs) ∧
  calm (gen_Commit c prevStateRoot) ∧
  calm (if len txs =? 0 then ret ([], c) else gen_select c header assets txs maxSize).
Proof.
  unfold gen_newBlockExecuteABI, gen_InsertAssets, gen_BeforeTransactionsExecute, gen_getABIConsensus, gen_AfterTransactionsExecute, gen_Commit.
  split_and!; calm_steps.
Qed.

Lemma exec_bind_Ok {T U} (m : exec (S := S) (A := A) T) (f : T → exec U) s y s' :
  mbind f m s = (Ok y, s') → ∃ x s1, m s = (Ok x, s1) ∧ f x s1 = (Ok y, s').
Proof. unfold mbind, exec_bind. destruct (m s) as [[x|e| |] s1]; intros E; try done. by exists x, s1. Qed.

Lemma calm_Ok {T} (m : exec (S := S) (A := A) T) s x s1 : calm m → m s = (Ok x, s1) → x_chain s1 = x_chain s.
Proof. intros Hm E. specialize (Hm s). by rewrite E in Hm. Qed.

Lemma deferred_Ok {T} (f : executer → executer) (m : exec (S := S) (A := A) T) s x s' :
  deferred f m s = (Ok x, s') → ∃ s1, m s = (Ok x, s1) ∧ s' = f s1.
Proof. unfold deferred. destruct (m s) as [r s1]. intros [= -> <-]. by exists s1. Qed.

(** Runs the next step of [E]. *)
Ltac run_step E x s1 Hc :=
  let Es := fresh "Es" in
  apply exec_bind_Ok in E as (x & s1 & Es & E); pose proof Es as Hc; apply calm_Ok in Hc; [|solve [calm_steps | apply gen_calm; auto]].

(** ** What [forge] produces *)

Record forged (c : Chain S) (slot : BlockSlot) (now now' : Z) (g : blockGenerator (S := S)) (b : Block) (header : BlockHeader) (db' : S) : Prop := {
  fg_header : b_Header b = Some header;
  fg_version : bh_Version header = 2;
  fg_time : bh_Timestamp header = u32 now';
  fg_last : ∃ last, last_header c = Ok last ∧ bh_Height header = u32 (bh_Height last + 1) ∧ bh_PreviousBlockID header = bh_ID last;
  fg_turn : ∃ generators votes st generator, read_turn (da_database (dataAccess c)) (bh_Height header) = Ok (generators, votes, st) ∧
    AtTimestamp slot generators (u32 now) = Ok generator ∧ gn_address generator = bh_GeneratorAddress header ∧
    vt_maxHeightPrevoted votes = bh_MaxHeightPrevoted header;
  fg_commit : ∃ ac, bh_AggregateCommit header = Some ac;
  fg_signed : ∃ keys unsigned, bg_enabledKeys g !! bh_GeneratorAddress header = Some keys ∧
    header = BlockHeader_Sign (chainID c) (PlainKeys_GeneratorPrivateKey keys) unsigned;
  fg_roots : bh_TransactionRoot header = CalculateRoot (tx_ID <$> b_Transactions b) ∧
    bh_AssetRoot header = BlockAssets_GetRoot (b_Assets b) ∧ ∃ assets, b_Assets b = BlockAssets_Sort assets;
  fg_info : ∃ info, stored_info (bg_generatorDB g) (bh_GeneratorAddress header) = Ok info ∧
    bh_MaxHeightGenerated header = GeneratorInfo_Height info;
  fg_width : GeneratorInfo_ok (mkGeneratorInfo (bh_Height header) (bh_MaxHeightPrevoted header) (bh_MaxHeightGenerated header));
  fg_db : ∀ k, p_get db' k = if bytes_equal (info_key (bh_GeneratorAddress header)) k
    then Some (Encode (mkGeneratorInfo (bh_Height header) (bh_MaxHeightPrevoted header) (bh_MaxHeightGenerated header)))
    else p_get (bg_generatorDB g) k;
}.

Lemma GetBFTHeights_width (store : S) d h x h' : GetBFTHeights store d h = Ok (x, h') → u32_ok x.1.1.
Proof.
  unfold GetBFTHeights, getVotes, with_heap, GetDecodable. destruct (Database_Get _ _ _ _) as [val h1]. cbn [fst snd]. intros E.
  ok_steps. cbn [fst snd].
  match goal with E : Message_Decode _ = Ok _ |- _ => revert E end.
  unfold Message_Decode, Decode. cbn [DecodeFromReader BFTVotes_Message]. unfold BFTVotes_DecodeFromReader, ReadUInt32. intros Ed.
  ok_steps. cbn [vt_maxHeightPrevoted]. apply u32_range.
Qed.

Lemma previous_info_ok infoBytes inf : previous_info infoBytes = Ok inf → GeneratorInfo_ok inf.
Proof.
  unfold previous_info. destruct infoBytes as [bs|]; [|by intros [= <-]].
  unfold Message_Decode, Decode. cbn [DecodeFromReader GeneratorInfo_Message]. unfold GeneratorInfo_DecodeFromReader, ReadUInt32.
  intros E. ok_steps. unfold GeneratorInfo_ok. cbn. split_and!; apply u32_range.
Qed.

Lemma initBlockHeader_Ok db address diffStore now gh header gh' (s s' : executer (S := S) (A := A)) :
  initBlockHeader db info_db address diffStore now gh s = (Ok (header, gh'), s') →
  x_chain s' = x_chain s ∧ ∃ lastH infoBytes gh1 inf mhp ac, last_header (x_chain s) = Ok lastH ∧
    Database_Get db info_view address gh = (infoBytes, gh1) ∧ previous_info infoBytes = Ok inf ∧
    Database_Set db info_view address
      (Encode (mkGeneratorInfo (u32 (bh_Height lastH + 1)) mhp (GeneratorInfo_Height inf))) gh1 = Ok gh' ∧
    u32_ok mhp ∧ (∃ pre cert h', GetBFTHeights (x_database s) diffStore (x_heap s) = Ok ((mhp, pre, cert), h')) ∧
    header = mkBlockHeader [] 2 (u32 now) (u32 (bh_Height lastH + 1)) (bh_ID lastH) address [] [] [] [] mhp
      (GeneratorInfo_Height inf) false [] (Some ac) [].
Proof.
  unfold initBlockHeader. intros E. run_step E lastH s1 Hc1. assert (last_header (x_chain s) = Ok lastH) as Hlast by (by injection Es).
  run_step E heights s2 Hc2. destruct heights as [[mhp pre] cert].
  destruct (Database_Get db info_view address gh) as [infoBytes gh1] eqn:Eg.
  run_step E inf s3 Hc3. assert (previous_info infoBytes = Ok inf) as Hinfo by (by injection Es1).
  run_step E gh2 s4 Hc4. run_step E ac s5 Hc5. injection E as <- <- <-.
  split; [congruence|]. exists lastH, infoBytes, gh1, inf, mhp, ac. assert (s1 = s) as -> by (by injection Es).
  unfold on_heap in Es0. destruct (GetBFTHeights _ _ _) as [[x h]|e| |] eqn:Eh; [|done..]. injection Es0 as -> _.
  split_and!; [done|done|done|by injection Es2|by apply GetBFTHeights_width in Eh|by exists pre, cert, h|done].
Qed.

Lemma sealBlock_Ok partial txs assets events stateRoot sk diffStore b (s s' : executer (S := S) (A := A)) :
  sealBlock partial txs assets events stateRoot sk diffStore s = (Ok b, s') →
  x_chain s' = x_chain s ∧ ∃ eventRoot params, b = mkBlock (Some (BlockHeader_Sign (chainID (x_chain s)) sk
    (mkBlockHeader (bh_ID partial) (bh_Version partial) (bh_Timestamp partial) (bh_Height partial) (bh_PreviousBlockID partial)
       (bh_GeneratorAddress partial) (CalculateRoot (tx_ID <$> txs)) (BlockAssets_GetRoot (BlockAssets_Sort assets)) eventRoot
       stateRoot (bh_MaxHeightPrevoted partial) (bh_MaxHeightGenerated partial) (bh_ImpliesMaxPrevotes partial)
       (bp_validatorsHash params) (bh_AggregateCommit partial) (bh_Signature partial)))) txs (BlockAssets_Sort assets).
Proof.
  unfold sealBlock. intros E. run_step E params s1 Hc1. run_step E eventRoot s2 Hc2. run_step E cid s3 Hc3.
  injection E as <- <-. split; [congruence|]. exists eventRoot, params. injection Es1 as <- <-. congruence.
Qed.

Lemma turn_reads (s s1 : executer (S := S) (A := A)) diffStore height generators s4 mhp pre cert h' :
  new_diffStore s = (Ok diffStore, s1) → on_heap (λ store, GetGeneratorKeys store diffStore height) s1 = (Ok generators, s4) →
  GetBFTHeights (x_database s4) diffStore (x_heap s4) = Ok ((mhp, pre, cert), h') →
  ∃ votes st, read_turn (x_database s) height = Ok (generators, votes, st) ∧ vt_maxHeightPrevoted votes = mhp.
Proof.
  intros E1 E2 E3. unfold new_diffStore in E1. destruct (New _ _) as [d h] eqn:En. injection E1 as <- <-.
  unfold on_heap in E2. destruct (GetGeneratorKeys _ _ _ _) as [[gs h1]|e| |] eqn:Eg; [|done..]. injection E2 as -> <-.
  unfold GetBFTHeights in E3. destruct (getVotes _ _ _) as [[votes h2]|e| |] eqn:Ev; [|done..]. injection E3 as Ep _ _ _.
  pose proof (read_turn_Ok (x_database s) height (x_heap s) generators votes h1 h2) as Hr. rewrite En in Hr.
  destruct (Hr Eg Ev) as (d' & h'' & Hturn & _). by eexists votes, _.
Qed.

Lemma shouldForge_state slot now g (s : executer (S := S) (A := A)) b s' : shouldForge slot now g s = (Ok b, s') → s' = s.
Proof.
  unfold shouldForge, mbind, exec_bind, gets. destruct (x_syncying s); [by intros [= _ <-]|]. unfold lift.
  destruct (last_header (x_chain s)); [|done..]. case_match; [by intros [= _ <-]|]. case_match; by intros [= _ <-].
Qed.

Lemma forge_block_forged bft slot now now' txs g (s : executer (S := S) (A := A)) b db' s' :
  forge_block commit_order bft slot now now' txs g s = (Ok (Some (b, db')), s') →
  x_chain s' = x_chain s ∧ ∃ header, forged (x_chain s) slot now now' g b header db'.
Proof using H0 Horder.
  unfold forge_block. intros E. run_step E diffStore s1 Hc1. run_step E should s2 Hc2. destruct should; [|done]. cbn [negb] in E.
  run_step E lastH s3 Hc3. run_step E generators s4 Hc4. run_step E generator s5 Hc5.
  destruct (bg_enabledKeys g !! gn_address generator) as [keys|] eqn:Ek; [|done].
  rewrite (surjective_pairing (New _ _)) in E.
  apply exec_bind_Ok in E as ([partial gh] & s6 & Ei & E). apply initBlockHeader_Ok in Ei as [Hc6 (lastH' & ib & gh1 & inf & mhp & ac & Hl & Eg & Hinfo & Hset & Hmhp & (pre & cert & h' & Hh) & Ep)].
  run_step E abi s7 Hc7. apply deferred_Ok in E as (sd & E & ->). run_step E assets s8 Hc8. run_step E abi1 s9 Hc9. 
  run_step E sel s10 Hc10. destruct sel as [selected abi2]. run_step E abi3 s11 Hc11. run_step E last2 s12 Hc12.
  run_step E stateRoot s13 Hc13. apply exec_bind_Ok in E as (b1 & s14 & Eseal & E). apply sealBlock_Ok in Eseal as [Hc14 (er & params & Eb1)].
  run_step E header s15 Hc15. run_step E gh2 s16 Hc16. injection E as Eb <- <-.
  pose proof (shouldForge_state _ _ _ _ _ _ Es0) as ->.
  assert (s3 = s1) as -> by (by injection Es1). assert (s5 = s4) as -> by (by injection Es3).
  destruct (turn_reads _ _ _ _ _ _ _ _ _ _ Es Es2 Hh) as (votes & st & Hturn & Hv).
  assert (AtTimestamp slot generators (u32 now) = Ok generator) as Hat by (by injection Es3).
  assert (lastH' = lastH) as -> by (injection Es1 as El; congruence).
  assert (x_chain s13 = x_chain s) as Hc by congruence. assert (x_chain s4 = x_chain s) as Hc' by congruence.
  split; [change (x_chain (app_clear s16)) with (x_chain s16); congruence|].
  subst b1 b. rewrite Hc in *. rewrite Hc' in Hl. clear -Horder H0 Es11 Es12 Eg Hset Hinfo Hl Ek Ep Hmhp Hturn Hv Hat.
  cbn [header_of b_Header] in Es11. unfold lift in Es11, Es12. injection Es11 as <- _. injection Es12 as Es12 _. subst partial.
  destruct (info_write _ _ _ _ _ _ _ _ Eg Hset Es12) as [-> Hdb]. eexists. split.
  - reflexivity.
  - done.
  - done.
  - by exists lastH.
  - exists generators, votes, st, generator. by rewrite Hv.
  - by exists ac.
  - by eexists keys, _.
  - split_and!; [done|done|by exists assets].
  - by exists inf.
  - split_and!; [apply u32_range|done|by apply previous_info_ok in Hinfo as (? & _)].
  - exact Hdb.
Qed.

(** ** Forged blocks are valid *)

Lemma assets_loop_self seen (a : list BlockAsset) :
  NoDup (ba_Module <$> a) → (∀ x, x ∈ a → ba_Module x ∉ seen) → assets_loop seen a a = Ok ().
Proof.
  revert seen. induction a as [|x a IH]; intros seen Hnd Hseen; [done|]. rewrite fmap_cons in Hnd. apply NoDup_cons in Hnd as [Hx Hnd].
  cbn [assets_loop]. unfold bytes_equal. rewrite bool_decide_true by done. cbn [negb].
  rewrite bool_decide_false by (apply Hseen; left). apply IH; [done|]. intros y Hy [E|Hin]%elem_of_cons.
  - apply Hx. rewrite <-E. by apply list_elem_of_fmap_2.
  - by apply (Hseen y); [right|].
Qed.

Lemma BlockAssets_Sort_Valid (a : list BlockAsset) : NoDup (ba_Module <$> BlockAssets_Sort a) → BlockAssets_Valid (BlockAssets_Sort a) = Ok ().
Proof.
  intros Hnd. unfold BlockAssets_Valid. assert (BlockAssets_Sort (BlockAssets_Sort a) = BlockAssets_Sort a) as ->.
  - apply sort_slice_id, sort_slice_sorted, (less_ok_key ba_Module).
  - apply assets_loop_self; [done|]. intros x _. apply not_elem_of_nil.
Qed.

(** A forged block passes [Block.Validate], if signatures and addresses have
    their lengths and the application inserts at most one asset per module. *)
Lemma forged_validates c bs cached slot now now' g b header db' :
  chain_rep c bs cached → forged c slot now now' g b header db' →
  (∀ sk m, len (Sign sk m) = EdSignatureLength) → (∀ a k, bg_enabledKeys g !! a = Some k → len a = AddressLength) →
  NoDup (ba_Module <$> b_Assets b) → Block_Validate b = Ok ().
Proof using H0 H2 H4.
  intros Hch Hf Hsig Haddr Hnd. destruct (fg_last _ _ _ _ _ _ _ _ Hf) as (lst & Hl & _ & Hprev).
  destruct (fg_signed _ _ _ _ _ _ _ _ Hf) as (keys & unsigned & Hk & Eh). destruct (fg_roots _ _ _ _ _ _ _ _ Hf) as (Hr1 & Hr2 & assets & Ea).
  unfold Block_Validate. rewrite (fg_header _ _ _ _ _ _ _ _ Hf). unfold BlockHeader_Validate. rewrite Hprev.
  destruct (last_header_rep _ _ _ _ Hch Hl) as (bs0 & cached0 & lb & -> & _ & Hlb & _).
  assert (len (bh_ID lst) = HashLengh) as ->.
  { pose proof (sr_sealed _ _ (ch_store _ _ _ Hch)) as Hs. rewrite Forall_forall in Hs.
    destruct (sealed_header lb) as (h & Hh & _); [apply Hs, elem_of_app; right; left|].
    assert (lst = BlockHeader_Init h) as -> by congruence. apply Hash_len. }
  rewrite (Haddr _ _ Hk). assert (len (bh_Signature header) = EdSignatureLength) as -> by (rewrite Eh; apply Hsig).
  rewrite !Z.eqb_refl. cbn [negb mbind res_bind]. rewrite Hr1, Hr2. unfold bytes_equal. rewrite !bool_decide_true by done. cbn [negb].
  rewrite Ea in *. by rewrite BlockAssets_Sort_Valid.
Qed.

(** ** Forged blocks are verified *)

Lemma bind_run {T U} (m : exec (S := S) (A := A) T) (f : T → exec U) s x s1 : m s = (Ok x, s1) → mbind f m s = f x s1.
Proof. intros E. unfold mbind, exec_bind. by rewrite E. Qed.

Lemma on_heap_run {T} (f : S → heap → res (T * heap)) (s : executer (S := S) (A := A)) x h :
  f (x_database s) (x_heap s) = Ok (x, h) → on_heap f s = (Ok x, set_x_heap h s).
Proof. intros E. unfold on_heap. by rewrite E. Qed.

(** The keys a generator has enabled are those of the generators at a height. *)
Definition keys_belong (c : Chain S) (height : Z) (g : blockGenerator (S := S)) : Prop :=
  ∀ generators votes st generator keys, read_turn (da_database (dataAccess c)) height = Ok (generators, votes, st) →
    generator ∈ generators → bg_enabledKeys g !! gn_address generator = Some keys →
    ∀ m, Verify (gn_generatorKey generator) m (Sign (PlainKeys_GeneratorPrivateKey keys) m) = true.

Lemma AtTimestamp_elem slot gs t generator : AtTimestamp slot gs t = Ok generator → generator ∈ gs.
Proof.
  unfold AtTimestamp. case_match; [done|]. unfold index. destruct (idx _ _) as [x|] eqn:E; [|done]. intros [= ->].
  unfold idx in E. case_match; [|done]. by apply list_elem_of_lookup_2 in E.
Qed.

Lemma AtTimestamp_slot slot gs t t' : GetSlotNumber slot t = GetSlotNumber slot t' → AtTimestamp slot gs t = AtTimestamp slot gs t'.
Proof. intros E. unfold AtTimestamp. by rewrite E. Qed.

Lemma forged_verifies c slot now now' now2 g b header db' last_ ac generators votes st (s2 : executer (S := S) (A := A)) :
  forged c slot now now' g b header db' → keys_belong c (bh_Height header) g → x_chain s2 = c →
  last_header c = Ok last_ → bh_AggregateCommit header = Some ac →
  read_turn (da_database (dataAccess c)) (bh_Height header) = Ok (generators, votes, st) →
  GetSlotNumber slot (u32 now') = GetSlotNumber slot (u32 now) →
  GetSlotNumber slot (bh_Timestamp last_) < GetSlotNumber slot (u32 now) ≤ GetSlotNumber slot (u32 now2) →
  ((store ← new_diffStore; verifyBlock slot now2 store b) s2).1 = Ok () ↔
    contradicting votes (NewBFTBlockHeader header) = false ∧ verifyAggregateCommit (H1 := chain_reader c) st ac = Ok ().
Proof using H0.
  intros Hf Hkeys Hc Hlast Hac Hturn Hslot Hslots.
  destruct (fg_last _ _ _ _ _ _ _ _ Hf) as (lst & Hl & Hheight & Hprev). assert (lst = last_) as -> by congruence.
  destruct (fg_turn _ _ _ _ _ _ _ _ Hf) as (gs & v & st' & generator & Hturn' & Hat & Hg & Hv). rewrite Hturn in Hturn'. injection Hturn' as <- <- <-.
  destruct (fg_signed _ _ _ _ _ _ _ _ Hf) as (keys & unsigned & Hk & Eh).
  pose proof (read_turn_run (da_database (dataAccess c)) (bh_Height header) (x_heap s2) generators votes st Hturn) as Hrun.
  unfold mbind at 1, exec_bind at 1, new_diffStore. destruct (New _ _) as [d h]. destruct Hrun as (h1 & h2 & d' & h' & E1 & E2 & -> & Ht & Hb).
  unfold verifyBlock. erewrite bind_run by (unfold lift, header_of; by rewrite (fg_header _ _ _ _ _ _ _ _ Hf)).
  rewrite (fg_version _ _ _ _ _ _ _ _ Hf). cbn [negb Z.eqb Pos.eqb].
  erewrite bind_run by (unfold lift; cbn [x_chain set_x_heap]; by rewrite Hc, Hlast).
  rewrite Hheight, Z.eqb_refl. cbn [negb]. rewrite Hprev. unfold bytes_equal at 1. rewrite bool_decide_true by done. cbn [negb].
  rewrite (fg_time _ _ _ _ _ _ _ _ Hf), Hslot. rewrite (proj2 (Z.ltb_ge _ _)), (proj2 (Z.leb_gt _ _)) by lia.
  erewrite bind_run.
  2: { apply on_heap_run. rewrite <-Hheight. unfold x_database. cbn [set_x_heap x_chain x_heap]. rewrite Hc. exact E1. }
  erewrite bind_run by (unfold lift; by rewrite (AtTimestamp_slot _ _ _ _ Hslot), Hat).
  rewrite Hg. unfold bytes_equal at 1. rewrite bool_decide_true by done. cbn [negb].
  assert (x_database (set_x_heap h1 (set_x_heap h s2)) = da_database (dataAccess c)) as Hdb by (unfold x_database; cbn [set_x_heap x_chain]; by rewrite Hc).
  erewrite bind_run by (apply on_heap_run; rewrite Hdb; cbn [x_heap set_x_heap]; unfold GetBFTHeights; rewrite E2; reflexivity).
  rewrite Hv, Z.eqb_refl. cbn [negb].
  erewrite bind_run.
  2: { apply on_heap_run. unfold x_database in *. cbn [set_x_heap x_chain x_heap] in *. rewrite Hdb. unfold IsHeaderContradictingChain.
       rewrite (getVotes_again _ _ _ _ _ Hb E2). reflexivity. }
  destruct (contradicting votes (NewBFTBlockHeader header)) eqn:Econ; [split; [done|by intros [? _]]|].
  set (s4 := set_x_heap h2 _). assert (x_chain s4 = c ∧ x_heap s4 = h2) as [Hc4 Hh4] by (by subst s4).
  unfold mbind at 1, exec_bind at 1. rewrite Hac. unfold x_database. rewrite Hc4, Hh4.
  rewrite <-(verifyAggregateCommit_twin (da_database (dataAccess c)) d' d h' h2 ac Ht).
  destruct (verifyAggregateCommit _ _) as [[]|e| |] eqn:Eac; [|split; [done|by intros [_ ?]]..].
  unfold mbind, exec_bind, gets. rewrite Hc4.
  assert (BlockHeader_VerifySignature (chainID c) (gn_generatorKey generator) header = true) as ->.
  { rewrite Eh. apply (Hkeys _ _ _ _ _ Hturn (AtTimestamp_elem _ _ _ _ Hat)). by rewrite Hg. }
  done.
Qed.

(** C24: A node accepts what it forges.  If the two readings of the clock fall into
    one slot, after that of the last block and not after that of the verifying
    clock, the enabled keys are those of the generators at the height, addresses
    and signatures have their lengths, and the application inserts at most one
    asset per module, then the forged block is valid, and [verifyBlock] of the same
    chain accepts it exactly when it does not contradict the tracked headers and
    its aggregate commit verifies: version, height, previous block, slot,
    generator, prevoted height and signature are right. *)
Theorem forged_block_accepted bft slot now now' now2 txs g (s : executer (S := S) (A := A)) b db' s' bs cached lastHeader :
  forge_block commit_order bft slot now now' txs g s = (Ok (Some (b, db')), s') →
  chain_rep (x_chain s) bs cached → last_header (x_chain s) = Ok lastHeader →
  (∀ sk m, len (Sign sk m) = EdSignatureLength) → (∀ a k, bg_enabledKeys g !! a = Some k → len a = AddressLength) →
  keys_belong (x_chain s) (u32 (bh_Height lastHeader + 1)) g → NoDup (ba_Module <$> b_Assets b) →
  GetSlotNumber slot (u32 now') = GetSlotNumber slot (u32 now) →
  GetSlotNumber slot (bh_Timestamp lastHeader) < GetSlotNumber slot (u32 now) ≤ GetSlotNumber slot (u32 now2) →
  Block_Validate b = Ok () ∧ ∃ header ac generators votes st, b_Header b = Some header ∧ bh_AggregateCommit header = Some ac ∧
    read_turn (da_database (dataAccess (x_chain s))) (bh_Height header) = Ok (generators, votes, st) ∧
    ∀ s2 : executer (S := S) (A := A), x_chain s2 = x_chain s → ((store ← new_diffStore; verifyBlock slot now2 store b) s2).1 = Ok () ↔
      contradicting votes (NewBFTBlockHeader header) = false ∧ verifyAggregateCommit (H1 := chain_reader (x_chain s)) st ac = Ok ().
Proof using H0 H2 H4 Horder.
  intros E Hch Hlast Hsig Haddr Hkeys Hnd Hslot Hslots. apply forge_block_forged in E as [_ (header & Hf)].
  assert (keys_belong (x_chain s) (bh_Height header) g) as Hkeys'.
  { destruct (fg_last _ _ _ _ _ _ _ _ Hf) as (lst & Hl & -> & _). by assert (lst = lastHeader) as -> by congruence. }
  split; [by eapply forged_validates|]. destruct (fg_commit _ _ _ _ _ _ _ _ Hf) as [ac Hac].
  destruct (fg_turn _ _ _ _ _ _ _ _ Hf) as (generators & votes & st & _ & Hturn & _).
  exists header, ac, generators, votes, st. split_and!; [apply (fg_header _ _ _ _ _ _ _ _ Hf)|done|done|].
  intros s2 Hc. by eapply forged_verifies.
Qed.

(** ** The headers of one generator *)

(** A generator forges blocks one after the other, on whatever chain the node
    has at the time; in between its keys may change. *)
Inductive forge_run : blockGenerator (S := S) → list BlockHeader → blockGenerator (S := S) → Prop :=
| run_nil g : forge_run g [] g
| run_keys keys g hs g' : forge_run (set_bg_enabledKeys keys g) hs g' → forge_run g hs g'
| run_forge bft slot now now' txs (s : executer (S := S) (A := A)) b header db s' g hs g' :
    forge_block commit_order bft slot now now' txs g s = (Ok (Some (b, db)), s') → b_Header b = Some header →
    forge_run (set_bg_generatorDB db g) hs g' → forge_run g (header :: hs) g'.

Definition signed_by (address : bytes) (hs : list BlockHeader) : list BlockHeader :=
  List.filter (λ h, bytes_equal (bh_GeneratorAddress h) address) hs.

(** Every header points to the height of the one before. *)
Fixpoint linked (height : Z) (hs : list BlockHeader) : Prop :=
  match hs with
  | [] => True
  | h :: hs => bh_MaxHeightGenerated h = height ∧ linked (bh_Height h) hs
  end.

Lemma info_len e : len (Encode (A := GeneratorInfo) e) < 2 ^ 63.
Proof.
  cbn [Encode GeneratorInfo_Message]. unfold GeneratorInfo_Encode, Result. autorewrite with writer.
  cbn [w_result NewWriter app]. unfold enc_UInt. rewrite !len_app.
  pose proof (Varint.PutUvarint_bounds (u64 (GeneratorInfo_Height e)) (u64_range _)).
  pose proof (Varint.PutUvarint_bounds (u64 (GeneratorInfo_MaxHeightPrevoted e)) (u64_range _)).
  pose proof (Varint.PutUvarint_bounds (u64 (GeneratorInfo_MaxHeightGenerated e)) (u64_range _)).
  change (len (enc_key Varint.wireType0 1)) with 1. change (len (enc_key Varint.wireType0 2)) with 1.
  change (len (enc_key Varint.wireType0 3)) with 1. lia.
Qed.

Lemma stored_info_Encode (db : S) address e :
  GeneratorInfo_ok e → p_get db (info_key address) = Some (Encode e) → stored_info db address = Ok e.
Proof. intros He Hp. unfold stored_info. rewrite Hp. cbn [previous_info]. by apply Message_Decode_Encode; [|apply info_len]. Qed.

Lemma forge_run_linked address g hs g' e :
  forge_run g hs g' → stored_info (bg_generatorDB g) address = Ok e → linked (GeneratorInfo_Height e) (signed_by address hs).
Proof using H0 H2 H4 Horder.
  intros Hrun. revert e. induction Hrun as [g|keys g hs g' _ IH|bft slot now now' txs s b header db s' g hs g' E Hh _ IH]; intros e He.
  - done.
  - by apply IH.
  - apply forge_block_forged in E as [_ (header' & Hf)]. assert (header' = header) as -> by (pose proof (fg_header _ _ _ _ _ _ _ _ Hf); congruence).
    unfold signed_by. cbn [List.filter]. pose proof (fg_db _ _ _ _ _ _ _ _ Hf) as Hdb. destruct (bytes_equal (bh_GeneratorAddress header) address) eqn:Ea.
    + apply bool_decide_eq_true in Ea as <-. destruct (fg_info _ _ _ _ _ _ _ _ Hf) as (e' & He' & Hm). assert (e' = e) as -> by congruence.
      split; [done|]. apply (IH (mkGeneratorInfo (bh_Height header) (bh_MaxHeightPrevoted header) (bh_MaxHeightGenerated header))).
      apply stored_info_Encode; [apply (fg_width _ _ _ _ _ _ _ _ Hf)|]. cbn [bg_generatorDB set_bg_generatorDB]. rewrite Hdb.
      unfold bytes_equal. by rewrite bool_decide_true.
    + apply IH. unfold stored_info. cbn [bg_generatorDB set_bg_generatorDB]. rewrite Hdb. apply bool_decide_eq_false in Ea.
      unfold bytes_equal. rewrite bool_decide_false; [exact He|]. unfold info_key. intros [= ?]. done.
Qed.

Lemma linked_signed address hs h : h ∈ signed_by address hs → bh_GeneratorAddress h = address.
Proof. unfold signed_by. rewrite list_elem_of_In, filter_In. intros [_ E]. by apply bool_decide_eq_true in E. Qed.

(** Higher, with no fewer prevotes. *)
Definition grows (x y : BlockHeader) : Prop := bh_Height x < bh_Height y ∧ bh_MaxHeightPrevoted x ≤ bh_MaxHeightPrevoted y.
Definition compatible (x y : BlockHeader) : Prop := AreDistinctHeadersContradicting (NewBFTBlockHeader x) (NewBFTBlockHeader y) = false.

Lemma grows_compatible x y : bh_MaxHeightGenerated x < bh_Height x → bh_Height x ≤ bh_MaxHeightGenerated y → grows x y → compatible x y.
Proof.
  intros Hx Hy [Hh Hp]. unfold compatible, AreDistinctHeadersContradicting, NewBFTBlockHeader.
  cbn [pb_Height pb_MaxHeightGenerated pb_MaxHeightPrevoted pb_GeneratorAddress].
  rewrite (proj2 (Z.ltb_ge (bh_MaxHeightGenerated y) (bh_MaxHeightGenerated x))), (proj2 (Z.eqb_neq (bh_MaxHeightGenerated x) _)) by lia.
  cbn [orb andb pb_Height pb_MaxHeightGenerated pb_MaxHeightPrevoted pb_GeneratorAddress].
  rewrite (proj2 (Z.leb_gt (bh_Height y) _)), (proj2 (Z.ltb_ge (bh_MaxHeightGenerated y) (bh_Height x))) by lia.
  rewrite (proj2 (Z.ltb_ge (bh_MaxHeightPrevoted y) _)) by lia. rewrite andb_false_r. by case_match.
Qed.

Lemma linked_above hs height y : linked height hs → StronglySorted grows hs → y ∈ hs →
  (∀ z, z ∈ hs → height < bh_Height z) → height ≤ bh_MaxHeightGenerated y.
Proof.
  revert height. induction hs as [|x hs IH]; intros height Hl Hs Hy Hab; [by apply not_elem_of_nil in Hy|].
  destruct Hl as [Hm Hl]. apply StronglySorted_inv in Hs as [Hs Hx]. rewrite Forall_forall in Hx.
  apply elem_of_cons in Hy as [->|Hy]; [lia|].
  assert (bh_Height x ≤ bh_MaxHeightGenerated y) by (apply IH; [done..|intros z Hz; apply (Hx z Hz)]).
  specialize (Hab x (list_elem_of_here _ _)). lia.
Qed.

Lemma linked_compatible height hs : linked height hs → StronglySorted grows hs → (∀ z, z ∈ hs → height < bh_Height z) →
  StronglySorted compatible hs.
Proof.
  revert height. induction hs as [|x hs IH]; intros height Hl Hs Hab; [constructor|].
  destruct Hl as [Hm Hl]. apply StronglySorted_inv in Hs as [Hs Hx]. rewrite Forall_forall in Hx.
  constructor; [apply (IH (bh_Height x) Hl Hs); intros z Hz; by apply (Hx z Hz)|].
  rewrite Forall_forall. intros y Hy. specialize (Hab x (list_elem_of_here _ _)). apply grows_compatible; [lia| |by apply Hx].
  apply (linked_above hs); [done..|]. intros z Hz. by apply (Hx z Hz).
Qed.

(** C25: An honest generator does not contradict itself.  Over any run of [forge], on
    chains that change in any way and with keys that are enabled and disabled, if
    the headers that one generator signs have growing heights, above the height
    its database holds at the start, and prevoted heights that do not decrease,
    no two of them contradict each other. *)
Theorem forged_never_contradict address g hs g' e :
  forge_run g hs g' → stored_info (bg_generatorDB g) address = Ok e →
  StronglySorted grows (signed_by address hs) → (∀ h, h ∈ signed_by address hs → GeneratorInfo_Height e < bh_Height h) →
  StronglySorted compatible (signed_by address hs).
Proof using H0 H2 H4 Horder. intros Hrun He Hs Hab. eapply linked_compatible; [by eapply forge_run_linked|done|done]. Qed.

(** The database of a generator holds the height of its last block, not the
    greatest one: a generator that signs [x], then [y] at a lower height after its
    node has switched to a shorter chain, and then any [z], has signed
    contradicting headers, however it follows the fork choice. *)
Theorem forged_contradict_after_switch address g hs g' e x y z :
  forge_run g hs g' → stored_info (bg_generatorDB g) address = Ok e → signed_by address hs = [x; y; z] →
  GeneratorInfo_Height e < bh_Height y → bh_Height y < bh_Height x →
  AreDistinctHeadersContradicting (NewBFTBlockHeader x) (NewBFTBlockHeader z) = true.
Proof using H0 H2 H4 Horder.
  intros Hrun He Hxyz Hy Hx. pose proof (forge_run_linked address g hs g' e Hrun He) as Hl. rewrite Hxyz in Hl.
  assert (bh_GeneratorAddress x = bh_GeneratorAddress z) as Ea.
  { transitivity address; [|symmetry]; apply (linked_signed _ hs); rewrite Hxyz; set_solver. }
  destruct Hl as (Hmx & Hmy & Hmz & _). unfold AreDistinctHeadersContradicting, NewBFTBlockHeader.
  cbn [pb_Height pb_MaxHeightGenerated pb_MaxHeightPrevoted pb_GeneratorAddress]. rewrite Hmx, Hmz, Ea.
  rewrite (proj2 (Z.ltb_ge (bh_Height y) _)), (proj2 (Z.eqb_neq _ (bh_Height y))) by lia. cbn [orb andb]. cbn.
  unfold bytes_equal. rewrite bool_decide_true by done. cbn [negb]. case_match; [done|].
  rewrite (proj2 (Z.ltb_lt (bh_Height y) _)) by lia. done.
Qed.
End forged.

(** ** A generator with one key *)

Definition no_assets : AssetInserter () := {| app_InsertAssets _ a := (Ok (mkInsertAssetsResponse []), a) |}.
Definition quiet_env : PoolEnv := {|
  abi_VerifyTransaction _ := Some 1;
  conn_Publish _ := true;
  iterate _ m := map_to_list m;
|}.
Definition sample_generator : blockGenerator (S := gmap bytes bytes) :=
  mkBlockGenerator ∅ {[replicate 20 1 := mkPlainKeys [7] [7] [5] [5]]} 2 15000.

Definition sample_forge (now : Z) (g : blockGenerator) (s : executer) : res (option (Block * gmap bytes bytes)) * executer :=
  forge_block (H0 := ascii_norm) (H1 := toy_hash) (H2 := toy_bls) (H3 := toy_ed) (H4 := sample_app) (AssetInserter0 := no_assets)
    (H5 := quiet_env) sample_order (Module_Init 103) (mkBlockSlot 0 10) now now [] g s.

Abbreviation forge_result := (res (option (Block * gmap bytes bytes)) * executer (S := gmap bytes bytes) (A := ()))%type.

(** The parts of a result. *)
Definition forged_pair (r : forge_result) : Block * gmap bytes bytes :=
  match r.1 with Ok (Some p) => p | _ => (mkBlock None [] [], ∅) end.
Definition forged_header (r : forge_result) : BlockHeader :=
  default (sample_chain_header 0) (b_Header (forged_pair r).1).
Definition next_generator (g : blockGenerator) (r : forge_result) : blockGenerator :=
  set_bg_generatorDB (forged_pair r).2 g.
Definition did_forge (r : forge_result) : bool :=
  match r.1 with Ok (Some p) => bool_decide (is_Some (b_Header p.1)) | _ => false end.

Lemma did_forge_Ok r : did_forge r = true → r = (Ok (Some (forged_pair r)), r.2) ∧ b_Header (forged_pair r).1 = Some (forged_header r).
Proof.
  destruct r as [[[p|]|e| |] s]; try done. unfold did_forge, forged_header, forged_pair. cbn [fst snd].
  intros Hb%bool_decide_eq_true. split; [done|]. by destruct Hb as [h ->].
Qed.

Abbreviation sample_run := (forge_run (S := gmap bytes bytes) (A := ()) (H1 := ascii_norm) (H3 := toy_hash) (H5 := toy_bls) (H6 := toy_ed)
  (H7 := sample_app) (AssetInserter0 := no_assets) (H8 := quiet_env) sample_order).

Lemma sample_forge_run now g s hs g' :
  did_forge (sample_forge now g s) = true → sample_run (next_generator g (sample_forge now g s)) hs g' →
  sample_run g (forged_header (sample_forge now g s) :: hs) g'.
Proof.
  intros [E Hh]%did_forge_Ok Hrun. unfold sample_forge at 1 in E. rewrite (surjective_pairing (forged_pair _)) in E.
  eapply run_forge; [exact E|exact Hh|exact Hrun].
Qed.

Abbreviation forge_low g := (sample_forge 15 g sample_run0.2).
Abbreviation forge_high g := (sample_forge 25 g sample_process.2).
Abbreviation gen1 := (next_generator sample_generator (forge_low sample_generator)).

Lemma sample_info : stored_info (bg_generatorDB sample_generator) (replicate 20 1) = Ok (mkGeneratorInfo 0 0 0).
Proof. reflexivity. Qed.

Lemma forged_never_contradict_witness :
  AreDistinctHeadersContradicting (NewBFTBlockHeader (forged_header (forge_low sample_generator)))
    (NewBFTBlockHeader (forged_header (forge_high gen1))) = false.
Proof.
  assert (sample_run sample_generator [forged_header (forge_low sample_generator); forged_header (forge_high gen1)]
    (next_generator gen1 (forge_high gen1))) as Hrun.
  { apply (sample_forge_run 15 sample_generator sample_run0.2); [vm_compute; reflexivity|].
    apply (sample_forge_run 25 gen1 sample_process.2); [vm_compute; reflexivity|]. apply run_nil. }
  assert (signed_by (replicate 20 1) [forged_header (forge_low sample_generator); forged_header (forge_high gen1)]
    = [forged_header (forge_low sample_generator); forged_header (forge_high gen1)]) as Hs by (vm_compute; reflexivity).
  pose proof (forged_never_contradict (H2 := ascii_norm_laws) (H4 := toy_hash_laws) sample_order sample_order_ok (replicate 20 1)
    sample_generator _ _ _ Hrun sample_info) as Hc.
  rewrite Hs in Hc. apply StronglySorted_inv in Hc as [_ Hc].
  - by apply Forall_cons in Hc as [Hc _].
  - repeat constructor; by vm_compute.
  - intros h [->|[->|[]%not_elem_of_nil]%elem_of_cons]%elem_of_cons; by vm_compute.
Defined.

(** At height 2, then at height 1, then at height 2 again. *)
Abbreviation gen_a := (next_generator sample_generator (forge_high sample_generator)).
Abbreviation gen_b := (next_generator gen_a (forge_low gen_a)).

Lemma forged_contradict_after_switch_witness :
  AreDistinctHeadersContradicting (NewBFTBlockHeader (forged_header (forge_high sample_generator)))
    (NewBFTBlockHeader (forged_header (forge_high gen_b))) = true.
Proof.
  assert (sample_run sample_generator [forged_header (forge_high sample_generator); forged_header (forge_low gen_a); forged_header (forge_high gen_b)]
    (next_generator gen_b (forge_high gen_b))) as Hrun.
  { apply (sample_forge_run 25 sample_generator sample_process.2); [vm_compute; reflexivity|].
    apply (sample_forge_run 15 gen_a sample_run0.2); [vm_compute; reflexivity|].
    apply (sample_forge_run 25 gen_b sample_process.2); [vm_compute; reflexivity|]. apply run_nil. }
  apply (forged_contradict_after_switch (H2 := ascii_norm_laws) (H4 := toy_hash_laws) sample_order sample_order_ok (replicate 20 1)
    sample_generator _ _ _ _ (forged_header (forge_low gen_a)) _ Hrun sample_info); [vm_compute; reflexivity|by vm_compute|by vm_compute].
Defined.

Lemma sample_keys_belong :
  keys_belong (H6 := toy_ed) (x_chain sample_run0.2) (u32 1) sample_generator.
Proof.
  intros generators votes st generator keys Hturn Hg Hk m.
  assert (match read_turn (da_database (dataAccess (x_chain sample_run0.2))) (u32 1) with Ok (gs, _, _) => gs | _ => [] end
    = [NewGenerator (replicate 20 1) [7]]) as E by (vm_compute; reflexivity).
  rewrite Hturn in E. subst generators. apply list_elem_of_singleton in Hg as ->.
  unfold sample_generator in Hk. cbn [bg_enabledKeys] in Hk. apply lookup_singleton_Some in Hk as [_ <-]. by vm_compute.
Qed.

Lemma forged_block_accepted_witness :
  Block_Validate (H := ascii_norm) (H0 := toy_hash) (forged_pair (forge_low sample_generator)).1 = Ok () ∧
  ((store ← new_diffStore; verifyBlock (H1 := toy_hash) (H2 := toy_bls) (H3 := toy_ed) (mkBlockSlot 0 10) 18 store
      (forged_pair (forge_low sample_generator)).1) sample_run0.2).1 = Ok ().
Proof.
  destruct (did_forge_Ok (forge_low sample_generator)) as [E _]; [vm_compute; reflexivity|].
  rewrite (surjective_pairing (forged_pair _)) in E. unfold sample_forge at 1 in E.
  destruct (b_Header sample_genesis) as [lastHeader|] eqn:El; [|discriminate El].
  destruct (forged_block_accepted (H2 := ascii_norm_laws) (H4 := toy_hash_laws) sample_order sample_order_ok (Module_Init 103) (mkBlockSlot 0 10)
    15 15 18 [] sample_generator sample_run0.2 _ _ _ [sample_genesis] [sample_genesis] lastHeader E)
    as [Hv (header & ac & generators & votes & st & Hh & Hac & Hturn & Hver)].
  - apply (fr_chain _ _ _ _ sample_run0_rep).
  - unfold last_header, last_block. rewrite (LastBlock_rep (H2 := ascii_norm_laws) (H4 := toy_hash_laws) _ _ _ (fr_chain _ _ _ _ sample_run0_rep)). cbn [last mbind res_bind].
    unfold header_of. by rewrite El.
  - intros sk m. cbn [Sign toy_ed]. unfold pad64, len. rewrite length_take, length_app, length_replicate. unfold EdSignatureLength. lia.
  - intros a k. unfold sample_generator. cbn [bg_enabledKeys]. intros [<- _]%lookup_singleton_Some. reflexivity.
  - injection El as <-. exact sample_keys_belong.
  - vm_compute. constructor.
  - reflexivity.
  - injection El as <-. vm_compute. split; [reflexivity|discriminate].
  - split; [exact Hv|]. apply Hver; [reflexivity|].
    assert (match b_Header (forged_pair (forge_low sample_generator)).1 with
      | Some h => match bh_AggregateCommit h, read_turn (da_database (dataAccess (x_chain sample_run0.2))) (bh_Height h) with
          | Some ac, Ok (_, votes, st) => contradicting votes (NewBFTBlockHeader h) = false ∧
              verifyAggregateCommit (H := toy_hash) (H0 := toy_bls) (H1 := chain_reader (H1 := toy_hash) (x_chain sample_run0.2)) st ac = Ok ()
          | _, _ => False
          end
      | None => False
      end) as Hok by (vm_compute; split; reflexivity).
    rewrite Hh, Hac, Hturn in Hok. exact Hok.
Defined.
