(* ===== verification/StateMachine.v ===== *)
(** * StateMachine: the execution of blocks and transactions by modules

    pkg/statemachine: the event logger, the contexts that are handed to modules
    and the executer that runs their hooks.  Modules and commands are code
    outside the repository: a hook is a program over the methods of its context,
    and every definition here takes the modules as an argument.  A store that a
    hook obtains is an object, since it has a cache pointer and snapshots of its
    own that later calls change. *)

From S2P Require Import Prelude Collection Codec CodecSpec Message Crypto BlockTypes Block DB DiffDB Event LabiTypes.

(** [EventNameDefault] of pkg/blockchain/event.go. *)
Definition EventNameDefault : bytes :=
  [99; 111; 109; 109; 97; 110; 100; 69; 120; 101; 99; 117; 116; 105; 111; 110; 82; 101; 115; 117; 108; 116].

(** ** event_logger.go *)

Definition EventTopicInitGenesisState : bytes := [0].
Definition EventTopicFinalizeGenesisState : bytes := [1].
Definition EventTopicBeforeTransactionsExecute : bytes := [2].
Definition EventTopicAfterTransactionsExecute : bytes := [3].

Record loggedEvent := mkLoggedEvent {
  le_event : Event;
  le_noRevert : bool;
}.

Record EventLogger := mkEventLogger {
  el_events : list loggedEvent;
  el_snapshotIndex : Z;
  el_height : Z;
  el_defaultTopic : option bytes;
}.

Definition NewEventLogger (height : Z) : EventLogger := mkEventLogger [] (-1) height None.

Definition set_el_events (events : list loggedEvent) (l : EventLogger) : EventLogger :=
  mkEventLogger events (el_snapshotIndex l) (el_height l) (el_defaultTopic l).

Definition createEvent (module name data : bytes) (topics : list bytes) (l : EventLogger) : res Event :=
  match el_defaultTopic l with
  | None => Err (Errorf "default topic must be set before adding a new event")
  | Some defaultTopic =>
      let topicsWithDefault := [defaultTopic] in
      let topicsWithDefault := if 0 <? len topics then topicsWithDefault ++ topics else topicsWithDefault in
      let event := NewEventFromValues module name data topicsWithDefault (el_height l) (u32 (len (el_events l))) in
      _ ← Event_Validate event;
      Ok event
  end.

(** Both kinds of events are added with [noRevert]. *)
Definition EventLogger_Add (module name data : bytes) (topics : list bytes) (l : EventLogger) : res EventLogger :=
  event ← createEvent module name data topics l;
  Ok (set_el_events (el_events l ++ [mkLoggedEvent event true]) l).

Definition EventLogger_AddUnrevertible (module name data : bytes) (topics : list bytes) (l : EventLogger) : res EventLogger :=
  event ← createEvent module name data topics l;
  Ok (set_el_events (el_events l ++ [mkLoggedEvent event true]) l).

Definition SetDefaultTopic (topic : bytes) (l : EventLogger) : EventLogger :=
  mkEventLogger (el_events l) (el_snapshotIndex l) (el_height l) (Some topic).

Definition CreateSnapshot (l : EventLogger) : EventLogger :=
  mkEventLogger (el_events l) (len (el_events l)) (el_height l) (el_defaultTopic l).

(** The events kept of the new ones; [n] of them are kept already. *)
Fixpoint keep_events (snapshotIndex n : Z) (newEvents : list loggedEvent) : list loggedEvent :=
  match newEvents with
  | [] => []
  | event :: newEvents =>
      if le_noRevert event then
        mkLoggedEvent (set_Event_Index (u32 (snapshotIndex + n)) (le_event event)) true
          :: keep_events snapshotIndex (n + 1) newEvents
      else keep_events snapshotIndex n newEvents
  end.

Definition EventLogger_RestoreSnapshot (l : EventLogger) : res EventLogger :=
  if el_snapshotIndex l <? 0 then Ok l
  else
    existingEvents ← slice (el_events l) 0 (el_snapshotIndex l);
    newEvents ← slice (el_events l) (el_snapshotIndex l) (len (el_events l));
    Ok (mkEventLogger (existingEvents ++ keep_events (el_snapshotIndex l) 0 newEvents) (-1) (el_height l) (el_defaultTopic l)).

Definition EventLogger_Events (l : EventLogger) : list Event := le_event <$> el_events l.

(** ** Programs *)

(** The code of a hook: calls of the methods of its context, and a result. *)
Inductive prog {action : Type} {result : action → Type} (R : Type) : Type :=
| Return (r : R)
| Call (a : action) (k : result a → prog R).
Arguments prog {_} _ _.
Arguments Return {_ _ _} _.
Arguments Call {_ _ _} _ _.

Fixpoint run_prog {action : Type} {result : action → Type} {R St : Type} (step : ∀ a, St → res (result a * St))
    (p : prog result R) (s : St) : res (R * St) :=
  match p with
  | Return r => Ok (r, s)
  | Call a k => '(x, s) ← step a s; run_prog step (k x) s
  end.

(** The objects of type [*diffdb.Database]: their caches and their fields; a
    pointer is an index.  [o_module] tells which of the two databases of the
    application an object reads. *)
Record object := mkObject {
  o_module : bool;
  o_db : Database;
}.

Record world := mkWorld {
  w_heap : heap;
  w_objects : list object;
}.

Definition object_at (s : nat) (w : world) : res object := match w_objects w !! s with Some o => Ok o | None => Panic end.
Definition set_object (s : nat) (o : object) (w : world) : world := mkWorld (w_heap w) (<[s := o]> (w_objects w)).
Definition set_db (s : nat) (o : object) (d : Database) (w : world) : world := set_object s (mkObject (o_module o) d) w.
Definition new_object (o : object) (w : world) : nat * world :=
  (length (w_objects w), mkWorld (w_heap w) (w_objects w ++ [o])).

(** [diffdb.New]. *)
Definition new_database (module : bool) (prefix : bytes) (w : world) : nat * world :=
  let '(d, h) := New prefix (w_heap w) in
  new_object (mkObject module d) (mkWorld h (w_objects w)).

(** ** context.go *)

Definition ModuleStorePrefix (storePrefix substorePrefix : bytes) : bytes := Bytes.Join [storePrefix; substorePrefix].

(** The methods of [StateAccessContext] and of [ImmutableStore].  [GetStore] of
    the context and of its API context are the same. *)
Inductive read_action :=
| GetStore (storePrefix substorePrefix : bytes)
| StoreGet (s : nat) (key : bytes)
| StoreHas (s : nat) (key : bytes)
| StoreIterate (s : nat) (prefix : bytes) (limit : Z) (reversed : bool)
| StoreRange (s : nat) (start end_ : bytes) (limit : Z) (reversed : bool).

Definition read_result (a : read_action) : Type :=
  match a with
  | GetStore _ _ => nat
  | StoreGet _ _ => option bytes
  | StoreHas _ _ => bool
  | StoreIterate _ _ _ _ | StoreRange _ _ _ _ _ => list (bytes * bytes)
  end.

(** The methods that [Store] has besides. *)
Inductive write_action :=
| StoreSet (s : nat) (key value : bytes)
| StoreDel (s : nat) (key : bytes)
| StoreSnapshot (s : nat)
| StoreRestoreSnapshot (s : nat) (id : Z).

(** An error is [Some]. *)
Definition write_result (a : write_action) : Type :=
  match a with
  | StoreSet _ _ _ | StoreDel _ _ => ()
  | StoreSnapshot _ => Z
  | StoreRestoreSnapshot _ _ => option error
  end.

(** [stateChangeContext]: the store and the events. *)
Inductive change_action :=
| Read (a : read_action)
| Write_ (a : write_action)
| CtxSnapshot
| CtxRestoreSnapshot (id : Z)
| AddEvent (module name data : bytes) (topics : list bytes)
| AddUnrevertible (module name data : bytes) (topics : list bytes).

Definition change_result (a : change_action) : Type :=
  match a with
  | Read a => read_result a
  | Write_ a => write_result a
  | CtxSnapshot => Z
  | CtxRestoreSnapshot _ | AddEvent _ _ _ _ | AddUnrevertible _ _ _ _ => option error
  end.

Record consensusSetter := mkConsensusSetter {
  preCommitThreshold : Z;
  certificateThreshold : Z;
  nextValidators : list LabiValidator;
}.

Definition SetNextValidators (preCommitThreshold certificateThreshold : Z) (validators : list LabiValidator) (c : consensusSetter)
    : consensusSetter := mkConsensusSetter preCommitThreshold certificateThreshold validators.

Definition GetNextValidators (c : consensusSetter) : Z * Z * list LabiValidator :=
  (preCommitThreshold c, certificateThreshold c, nextValidators c).

(** With the setter of the next validators. *)
Inductive setter_action :=
| Change (a : change_action)
| SetNext (preCommitThreshold certificateThreshold : Z) (validators : list LabiValidator)
| GetNext.

Definition setter_result (a : setter_action) : Type :=
  match a with
  | Change a => change_result a
  | SetNext _ _ _ => ()
  | GetNext => Z * Z * list LabiValidator
  end.

(** [InsertAssetsContext]. *)
Inductive insert_action :=
| InsertRead (a : read_action)
| GetGeneratorStore (storePrefix substorePrefix : bytes)
| InsertWrite (a : write_action)
| SetAsset (module data : bytes)
| GetAsset (module : bytes).

Definition insert_result (a : insert_action) : Type :=
  match a with
  | InsertRead a => read_result a
  | GetGeneratorStore _ _ => nat
  | InsertWrite a => write_result a
  | SetAsset _ _ => ()
  | GetAsset _ => option bytes
  end.

(** The data of the contexts; the store, the event logger, the setter and the
    assets that are inserted are state of the program that runs. *)
Record consensusContext := mkConsensusContext {
  currentValidators : list LabiValidator;
  implyMaxPrevote : bool;
  maxHeightCertified : Z;
}.

Record InsertAssetsContext := mkInsertAssetsContext {
  ic_chainID : bytes;
  ic_partialHeader : BlockHeader;
  ic_finalizedHeight : Z;
}.

Record VerifyAssetsContext := mkVerifyAssetsContext {
  vc_chainID : bytes;
  vc_header : BlockHeader;
  vc_blockAssets : list BlockAsset;
}.

Record TransactionVerifyContext := mkTransactionVerifyContext {
  tv_chainID : bytes;
  tv_transaction : Transaction;
}.

Record TransactionExecuteContext := mkTransactionExecuteContext {
  tc_chainID : bytes;
  tc_blockHeader : BlockHeader;
  tc_blockAssets : list BlockAsset;
  tc_consensus : consensusContext;
  tc_transaction : Transaction;
}.

Record BeforeTransactionsExecuteContext := mkBeforeTransactionsExecuteContext {
  bc_chainID : bytes;
  bc_blockHeader : BlockHeader;
  bc_blockAssets : list BlockAsset;
  bc_consensus : consensusContext;
}.

Record AfterTransactionsExecuteContext := mkAfterTransactionsExecuteContext {
  ac_before : BeforeTransactionsExecuteContext;
  ac_transactions : list Transaction;
}.

Record GenesisBlockProcessingContext := mkGenesisBlockProcessingContext {
  gc_header : BlockHeader;
  gc_assets : list BlockAsset;
}.

Definition newConsensusSetter : consensusSetter := mkConsensusSetter 0 0 [].

(** ** type.go *)

Definition verifyStatusOK : Z := 1.
Definition verifyStatusError : Z := -1.
Definition verifyStatusPending : Z := 0.
Definition execStatusInvalid : Z := -1.
Definition execStatusFail : Z := 0.
Definition execStatusOK : Z := 1.

Record verifyResult := mkVerifyResult {
  vr_err : option error;
  vr_status : Z;
}.

Definition VerifyResult_OK (v : verifyResult) : bool :=
  match vr_err v with None => vr_status v =? verifyStatusOK | Some _ => false end.

Definition NewVerifyResultOK : verifyResult := mkVerifyResult None verifyStatusOK.
Definition NewVerifyResultError (err : error) : verifyResult := mkVerifyResult (Some err) verifyStatusError.
Definition NewVerifyResultPending (err : error) : verifyResult := mkVerifyResult (Some err) verifyStatusPending.

Record execResult := mkExecResult {
  er_err : option error;
  er_status : Z;
}.

Definition NewExecResultOK : execResult := mkExecResult None execStatusOK.
Definition NewExecResultFail (err : option error) : execResult := mkExecResult err execStatusFail.
Definition NewExecResultInvalid (err : error) : execResult := mkExecResult (Some err) execStatusInvalid.

(** The interfaces [Command] and [Module]. *)
Record Command := mkCommand {
  cmd_Name : bytes;
  cmd_Verify : TransactionVerifyContext → prog read_result verifyResult;
  cmd_Execute : TransactionExecuteContext → prog change_result (option error);
}.

Record AppModule := mkAppModule {
  mod_Name : bytes;
  mod_InitGenesisState : GenesisBlockProcessingContext → prog setter_result (option error);
  mod_FinalizeGenesisState : GenesisBlockProcessingContext → prog setter_result (option error);
  mod_InsertAssets : InsertAssetsContext → prog insert_result (option error);
  mod_VerifyAssets : VerifyAssetsContext → prog read_result (option error);
  mod_VerifyTransaction : TransactionVerifyContext → prog read_result verifyResult;
  mod_BeforeTransactionsExecute : BeforeTransactionsExecuteContext → prog change_result (option error);
  mod_AfterTransactionsExecute : AfterTransactionsExecuteContext → prog setter_result (option error);
  mod_BeforeCommandExecute : TransactionExecuteContext → prog change_result (option error);
  mod_AfterCommandExecute : TransactionExecuteContext → prog change_result (option error);
  mod_GetCommand : bytes → option Command;
}.

(** ** The methods of the contexts *)

Section steps.
Context {S : Type} `{Pebble S} (stateDB moduleDB : S).

Definition store_of (o : object) : S := if o_module o then moduleDB else stateDB.

(** A method that changes the cache of an object. *)
Definition on_object {T} (s : nat) (f : S → Database → heap → res (T * heap)) (w : world) : res (T * world) :=
  o ← object_at s w;
  '(x, h) ← f (store_of o) (o_db o) (w_heap w);
  Ok (x, mkWorld h (w_objects w)).

(** [WithPrefix] of the object [s]: a new object with the same cache. *)
Definition derive (s : nat) (storePrefix substorePrefix : bytes) (w : world) : res (nat * world) :=
  o ← object_at s w;
  Ok (new_object (mkObject (o_module o) (WithPrefix (ModuleStorePrefix storePrefix substorePrefix) (o_db o))) w).

Definition object_Snapshot (s : nat) (w : world) : res (Z * world) :=
  o ← object_at s w;
  let '(id, d, h) := Snapshot (o_db o) (w_heap w) in
  Ok (id, set_db s o d (mkWorld h (w_objects w))).

Definition object_RestoreSnapshot (s : nat) (id : Z) (w : world) : res (option error * world) :=
  o ← object_at s w;
  match RestoreSnapshot id (o_db o) with
  | Ok d => Ok (None, set_db s o d w)
  | Err e => Ok (Some e, w)
  | Panic => Panic
  | OutOfFuel => OutOfFuel
  end.

Definition object_DeleteSnapshot (s : nat) (id : Z) (w : world) : res world :=
  o ← object_at s w;
  Ok (set_db s o (DeleteSnapshot id (o_db o)) w).

(** [diffStore] is the store of the context. *)
Definition read_step (diffStore : nat) (a : read_action) (w : world) : res (read_result a * world) :=
  match a with
  | GetStore storePrefix substorePrefix => derive diffStore storePrefix substorePrefix w
  | StoreGet s key => on_object s (λ store d h, Ok (Database_Get store d key h)) w
  | StoreHas s key => on_object s (λ store d h, Ok (Database_Has store d key h)) w
  | StoreIterate s prefix limit reversed => on_object s (λ store d h, Ok (Database_Iterate store d prefix limit reversed h)) w
  | StoreRange s start end_ limit reversed => on_object s (λ store d h, Ok (Database_Range store d start end_ limit reversed h)) w
  end.

Definition write_step (a : write_action) (w : world) : res (write_result a * world) :=
  match a with
  | StoreSet s key value => on_object s (λ store d h, h ← Database_Set store d key value h; Ok ((), h)) w
  | StoreDel s key => on_object s (λ store d h, Ok ((), Database_Del store d key h)) w
  | StoreSnapshot s => object_Snapshot s w
  | StoreRestoreSnapshot s id => object_RestoreSnapshot s id w
  end.

(** A method on one part of the state; errors of [add] are results. *)
Definition on_world {T L : Type} (r : res (T * world)) (l : L) : res (T * (world * L)) :=
  '(x, w) ← r; Ok (x, (w, l)).

Definition add_event {W : Type} (r : res EventLogger) (w : W) (l : EventLogger) : res (option error * (W * EventLogger)) :=
  match r with
  | Ok l => Ok (None, (w, l))
  | Err e => Ok (Some e, (w, l))
  | Panic => Panic
  | OutOfFuel => OutOfFuel
  end.

Definition change_step (diffStore : nat) (a : change_action) (s : world * EventLogger) : res (change_result a * (world * EventLogger)) :=
  let '(w, l) := s in
  match a with
  | Read a => on_world (read_step diffStore a w) l
  | Write_ a => on_world (write_step a w) l
  | CtxSnapshot => on_world (object_Snapshot diffStore w) l
  | CtxRestoreSnapshot id => on_world (object_RestoreSnapshot diffStore id w) l
  | AddEvent module name data topics => add_event (EventLogger_Add module name data topics l) w l
  | AddUnrevertible module name data topics => add_event (EventLogger_AddUnrevertible module name data topics l) w l
  end.

Definition setter_step (diffStore : nat) (a : setter_action) (s : world * EventLogger * consensusSetter)
    : res (setter_result a * (world * EventLogger * consensusSetter)) :=
  let '(s, c) := s in
  match a with
  | Change a => '(x, s) ← change_step diffStore a s; Ok (x, (s, c))
  | SetNext preCommit certificate validators => Ok ((), (s, SetNextValidators preCommit certificate validators c))
  | GetNext => Ok (GetNextValidators c, (s, c))
  end.

Definition insert_step (diffStore generatorStore : nat) (a : insert_action) (s : world * list BlockAsset)
    : res (insert_result a * (world * list BlockAsset)) :=
  let '(w, assets) := s in
  match a with
  | InsertRead a => on_world (read_step diffStore a w) assets
  | GetGeneratorStore storePrefix substorePrefix => on_world (derive generatorStore storePrefix substorePrefix w) assets
  | InsertWrite a => on_world (write_step a w) assets
  | SetAsset module data => Ok ((), (w, BlockAssets_SetAsset module data assets))
  | GetAsset module => Ok (BlockAssets_GetAsset module assets, (w, assets))
  end.

(** ** execute.go *)

(** The loops over the modules: the first error ends them. *)
Fixpoint each {St : Type} (hook : AppModule → St → res (option error * St)) (modules : list AppModule) (s : St)
    : res (option error * St) :=
  match modules with
  | [] => Ok (None, s)
  | mod_ :: modules =>
      '(err, s) ← hook mod_ s;
      match err with
      | Some e => Ok (Some e, s)
      | None => each hook modules s
      end
  end.

Definition ModuleRegistered (name : bytes) (modules : list AppModule) : bool :=
  existsb (λ m, bytes_equal (mod_Name m) name) modules.

Definition AddModule (mod_ : AppModule) (modules : list AppModule) : res (list AppModule) :=
  if existsb (λ existingModule, bytes_equal (mod_Name existingModule) (mod_Name mod_)) modules
  then Err (Errorf "module Name cannot be registered twice")
  else Ok (modules ++ [mod_]).

Fixpoint GetCommand (module command : bytes) (modules : list AppModule) : option Command :=
  match modules with
  | [] => None
  | mod_ :: modules =>
      if negb (bytes_equal (mod_Name mod_) module) then GetCommand module command modules
      else mod_GetCommand mod_ command
  end.

Definition set_topic {L : Type} (topic : bytes) (s : L * EventLogger) : L * EventLogger :=
  (s.1, SetDefaultTopic topic s.2).

Definition ExecGenesis (modules : list AppModule) (diffStore : nat) (ctx : GenesisBlockProcessingContext)
    (s : world * EventLogger * consensusSetter) : res (option error * (world * EventLogger * consensusSetter)) :=
  let s := (set_topic EventTopicInitGenesisState s.1, s.2) in
  '(err, s) ← each (λ m, run_prog (setter_step diffStore) (mod_InitGenesisState m ctx)) modules s;
  match err with
  | Some e => Ok (Some e, s)
  | None =>
      let s := (set_topic EventTopicFinalizeGenesisState s.1, s.2) in
      each (λ m, run_prog (setter_step diffStore) (mod_FinalizeGenesisState m ctx)) modules s
  end.

Definition sm_VerifyAssets (modules : list AppModule) (diffStore : nat) (ctx : VerifyAssetsContext) (w : world)
    : res (option error * world) :=
  each (λ m, run_prog (read_step diffStore) (mod_VerifyAssets m ctx)) modules w.

(** The first result that is not OK. *)
Fixpoint verify_each (modules : list AppModule) (diffStore : nat) (ctx : TransactionVerifyContext) (w : world)
    : res (option verifyResult * world) :=
  match modules with
  | [] => Ok (None, w)
  | mod_ :: modules =>
      '(result, w) ← run_prog (read_step diffStore) (mod_VerifyTransaction mod_ ctx) w;
      if negb (VerifyResult_OK result) then Ok (Some result, w) else verify_each modules diffStore ctx w
  end.

Definition sm_VerifyTransaction (modules : list AppModule) (diffStore : nat) (ctx : TransactionVerifyContext) (w : world)
    : res (verifyResult * world) :=
  '(failed, w) ← verify_each modules diffStore ctx w;
  match failed with
  | Some result => Ok (result, w)
  | None =>
      match GetCommand (tx_Module (tv_transaction ctx)) (tx_Command (tv_transaction ctx)) modules with
      | None => Ok (NewVerifyResultError (Errorf "module Command does not exist"), w)
      | Some command =>
          '(result, w) ← run_prog (read_step diffStore) (cmd_Verify command ctx) w;
          if negb (VerifyResult_OK result) then Ok (result, w) else Ok (NewVerifyResultOK, w)
      end
  end.

Definition sm_InsertAssets (modules : list AppModule) (diffStore generatorStore : nat) (ctx : InsertAssetsContext)
    (s : world * list BlockAsset) : res (option error * (world * list BlockAsset)) :=
  each (λ m, run_prog (insert_step diffStore generatorStore) (mod_InsertAssets m ctx)) modules s.

Definition BeforeExecute (modules : list AppModule) (diffStore : nat) (ctx : BeforeTransactionsExecuteContext)
    (s : world * EventLogger) : res (option error * (world * EventLogger)) :=
  let s := set_topic EventTopicBeforeTransactionsExecute s in
  each (λ m, run_prog (change_step diffStore) (mod_BeforeTransactionsExecute m ctx)) modules s.

Definition AfterExecute (modules : list AppModule) (diffStore : nat) (ctx : AfterTransactionsExecuteContext)
    (s : world * EventLogger * consensusSetter) : res (option error * (world * EventLogger * consensusSetter)) :=
  let s := (set_topic EventTopicAfterTransactionsExecute s.1, s.2) in
  each (λ m, run_prog (setter_step diffStore) (mod_AfterTransactionsExecute m ctx)) modules s.

(** The hooks around a command. *)
Definition before_hooks (modules : list AppModule) (diffStore : nat) (ctx : TransactionExecuteContext) :=
  each (λ m, run_prog (change_step diffStore) (mod_BeforeCommandExecute m ctx)) modules.
Definition after_hooks (modules : list AppModule) (diffStore : nat) (ctx : TransactionExecuteContext) :=
  each (λ m, run_prog (change_step diffStore) (mod_AfterCommandExecute m ctx)) modules.

(** The command between a snapshot and, when it fails, its restoration.  The
    first result is the error of the restoration, the second that of the
    command. *)
Definition execute_command (diffStore : nat) (command : Command) (ctx : TransactionExecuteContext) (s : world * EventLogger)
    : res (option error * option error * (world * EventLogger)) :=
  let '(w, l) := s in
  let l := CreateSnapshot l in
  '(snapshotID, w) ← object_Snapshot diffStore w;
  '(cmdErr, (w, l)) ← run_prog (change_step diffStore) (cmd_Execute command ctx) (w, l);
  '(restoreErr, (w, l)) ←
    match cmdErr with
    | None => Ok (None, (w, l))
    | Some _ =>
        '(restoreErr, w) ← object_RestoreSnapshot diffStore snapshotID w;
        match restoreErr with
        | Some e => Ok (Some e, (w, l))
        | None => l ← EventLogger_RestoreSnapshot l; Ok (None, (w, l))
        end
    end;
  match restoreErr with
  | Some _ => Ok (restoreErr, cmdErr, (w, l))
  | None => w ← object_DeleteSnapshot diffStore snapshotID w; Ok (None, cmdErr, (w, l))
  end.

Definition sm_ExecuteTransaction (modules : list AppModule) (diffStore : nat) (ctx : TransactionExecuteContext)
    (s : world * EventLogger) : res (execResult * (world * EventLogger)) :=
  let tx := tc_transaction ctx in
  let s := set_topic (tx_ID tx) s in
  '(err, s) ← before_hooks modules diffStore ctx s;
  match err with
  | Some e => Ok (NewExecResultInvalid e, s)
  | None =>
      match GetCommand (tx_Module tx) (tx_Command tx) modules with
      | None => Ok (NewExecResultInvalid (Errorf "module Command does not exist"), s)
      | Some command =>
          '(restoreErr, cmdErr, s) ← execute_command diffStore command ctx s;
          match restoreErr with
          | Some e => Ok (NewExecResultInvalid e, s)
          | None =>
              '(err, s) ← after_hooks modules diffStore ctx s;
              match err with
              | Some e => Ok (NewExecResultInvalid e, s)
              | None =>
                  let success := match cmdErr with None => true | Some _ => false end in
                  match EventLogger_Add (tx_Module tx) EventNameDefault (NewStandardTransactionEventData success) [] s.2 with
                  | Ok l =>
                      let s := (s.1, l) in
                      if negb success then Ok (NewExecResultFail cmdErr, s) else Ok (NewExecResultOK, s)
                  | Err e => Ok (NewExecResultInvalid e, s)
                  | Panic => Panic
                  | OutOfFuel => OutOfFuel
                  end
              end
          end
      end
  end.
End steps.
