(* ===== verification/StateMachineSpec.v ===== *)
(** * StateMachineSpec: what hooks and commands can do

    The theory of StateMachine.v: stores and event loggers stay well-formed
    whatever the programs of modules do, a command that fails leaves no trace in
    the store, and its events stay. *)

From S2P Require Import Prelude Collection Codec CodecSpec Message Crypto BlockTypes Block DB DiffDB Event LabiTypes StateMachine.

(** ** Programs *)

Section programs.
Context {action St : Type} {result : action → Type} (step : ∀ a, St → res (result a * St)).
Context (R : St → St → Prop) `{!PreOrder R}.

(** A relation that every method keeps is kept by programs and by loops. *)
Lemma run_prog_rel {T : Type} (p : prog result T) s x s' :
  (∀ a s x s', step a s = Ok (x, s') → R s s') → run_prog step p s = Ok (x, s') → R s s'.
Proof using PreOrder0.
  intros Hstep. revert s. induction p as [r|a k IH]; intros s; cbn [run_prog].
  - by intros [= _ ->].
  - destruct (step a s) as [[y s1]| | |] eqn:E; cbn [mbind res_bind]; [|done..].
    intros Hrun%IH. etrans; [by eapply Hstep|done].
Qed.

Lemma each_rel (hook : AppModule → St → res (option error * St)) ms s e s' :
  (∀ m s e s', hook m s = Ok (e, s') → R s s') → each hook ms s = Ok (e, s') → R s s'.
Proof using PreOrder0.
  intros Hhook. revert s. induction ms as [|m ms IH]; intros s; cbn [each]; [by intros [= _ ->]|].
  destruct (hook m s) as [[[e1|] s1]| | |] eqn:E; cbn [mbind res_bind]; [|intros Hrun%IH|done..].
  - intros [= _ ->]. by eapply Hhook.
  - etrans; [by eapply Hhook|done].
Qed.
End programs.

(** ** The objects *)

Section objects.
Context {S : Type} `{Pebble S} (stateDB moduleDB : S).

(** A method of a store writes the cache of that store only. *)
Lemma Get_frame (store : S) (d : Database) (k : bytes) (h h' : heap) v : Database_Get store d k h = (v, h') → frame (d_cache d) h h'.
Proof.
  unfold Database_Get. destruct (c_get _ _) as [[v1 ex] del]. destruct ex, del; try (intros [= _ <-]; apply frame_refl).
  destruct (p_get _ _); intros [= _ <-]; [apply frame_store_at|apply frame_refl].
Qed.

Lemma Set_frame (store : S) (d : Database) (k v : bytes) (h h' : heap) : Database_Set store d k v h = Ok h' → frame (d_cache d) h h'.
Proof.
  unfold Database_Set. assert (∀ c, c_set (getKey d k) v c ≫= (λ c, Ok (store_at (d_cache d) c h)) = Ok h' → frame (d_cache d) h h') as Hset.
  { intros c. destruct (c_set _ _ _); cbn; try done. intros [= <-]. apply frame_store_at. }
  case_match; [apply Hset|]. destruct (ensureCache _ _ _) as [[] c]; [apply Hset|]. intros [= <-]. apply frame_store_at.
Qed.

(** ** Well-formed worlds *)

(** The pointers of an object are allocated and its snapshots have numbers below
    the counter. *)
Definition object_ok (h : heap) (o : object) : Prop :=
  (d_cache (o_db o) < length h)%nat ∧
  ∀ id q, d_snapshots (o_db o) !! id = Some q → (q < length h)%nat ∧ id < d_snapshotCount (o_db o).

Definition world_ok (w : world) : Prop := ∀ i o, w_objects w !! i = Some o → object_ok (w_heap w) o.

(** What the store [s] of a context holds. *)
Definition contents (s : nat) (w : world) : option cacheDB :=
  (λ o, deref (w_heap w) (d_cache (o_db o))) <$> w_objects w !! s.

(** The snapshot [n] of the object [s] is the cache [c] and nothing else refers
    to it; or it has been used. *)
Record guarded (s : nat) (n : Z) (p : nat) (c : cacheDB) (w : world) : Prop := {
  gd_bound : (p < length (w_heap w))%nat;
  gd_cache : deref (w_heap w) p = c;
  gd_snapshot : ∃ o, w_objects w !! s = Some o ∧ d_snapshots (o_db o) !! n = Some p ∧ n < d_snapshotCount (o_db o);
  gd_alias : ∀ i o, w_objects w !! i = Some o →
    d_cache (o_db o) ≠ p ∧ ∀ id, d_snapshots (o_db o) !! id = Some p → i = s ∧ id = n;
}.

Definition used (s : nat) (n : Z) (w : world) : Prop :=
  ∃ o, w_objects w !! s = Some o ∧ d_snapshots (o_db o) !! n = None ∧ n < d_snapshotCount (o_db o).

(** [R w w'] is closed under the steps of objects: what a method of a store does
    to the world. *)
Inductive world_step : world → world → Prop :=
| step_cache w i o h : w_objects w !! i = Some o → frame (d_cache (o_db o)) (w_heap w) h →
    world_step w (mkWorld h (w_objects w))
| step_derive w i o p : w_objects w !! i = Some o → world_step w (new_object (mkObject (o_module o) (WithPrefix p (o_db o))) w).2
| step_snapshot w i o id d h : w_objects w !! i = Some o → Snapshot (o_db o) (w_heap w) = (id, d, h) →
    world_step w (set_db i o d (mkWorld h (w_objects w)))
| step_restore w i o id d : w_objects w !! i = Some o → RestoreSnapshot id (o_db o) = Ok d → world_step w (set_db i o d w).

Lemma object_at_Some s w o : object_at s w = Ok o → w_objects w !! s = Some o.
Proof. unfold object_at. case_match; [by intros [= ->]|done]. Qed.

Lemma on_object_step {T : Type} (s : nat) (f : S → Database → heap → res (T * heap)) (w : world) (x : T) (w' : world) :
  (∀ (store : S) (d : Database) (h : heap) (x : T) (h' : heap), f store d h = Ok (x, h') → frame (d_cache d) h h') →
  on_object stateDB moduleDB s f w = Ok (x, w') → world_step w w'.
Proof.
  intros Hf. unfold on_object. destruct (object_at s w) as [o| | |] eqn:Eo; cbn [mbind res_bind]; [|done..].
  destruct (f _ _ _) as [[y h]| | |] eqn:E; cbn [mbind res_bind]; [|done..]. intros [= _ <-].
  eapply step_cache; [by apply object_at_Some|by eapply Hf].
Qed.

Lemma derive_step s p q w x w' : derive s p q w = Ok (x, w') → world_step w w'.
Proof.
  unfold derive. destruct (object_at s w) as [o| | |] eqn:Eo; cbn [mbind res_bind]; [|done..]. intros [= <- <-].
  apply (step_derive _ s), object_at_Some, Eo.
Qed.

Lemma object_Snapshot_step s w x w' : object_Snapshot s w = Ok (x, w') → world_step w w'.
Proof.
  unfold object_Snapshot. destruct (object_at s w) as [o| | |] eqn:Eo; cbn [mbind res_bind]; [|done..].
  destruct (Snapshot _ _) as [[id d] h] eqn:E. intros [= <- <-]. by eapply step_snapshot; [apply object_at_Some|].
Qed.

Lemma object_RestoreSnapshot_step s id w x w' : object_RestoreSnapshot s id w = Ok (x, w') → rtc world_step w w'.
Proof.
  unfold object_RestoreSnapshot. destruct (object_at s w) as [o| | |] eqn:Eo; cbn [mbind res_bind]; [|done..].
  destruct (RestoreSnapshot _ _) as [d| | |] eqn:E; [|by intros [= _ <-]; apply rtc_refl|done..]. intros [= _ <-].
  by eapply rtc_once, step_restore; [apply object_at_Some|].
Qed.

Lemma read_step_steps ds a w x w' : read_step stateDB moduleDB ds a w = Ok (x, w') → rtc world_step w w'.
Proof.
  destruct a as [p q|s k|s k|s p limit rev|s a b limit rev]; cbn [read_step]; intros E; apply rtc_once.
  - by eapply derive_step.
  - eapply on_object_step; [|exact E]. intros store d h y h' [= ?]. by eapply Get_frame.
  - eapply on_object_step; [|exact E]. intros store d h y h'. unfold Database_Has.
    destruct (Database_Get store d k h) as [v h1] eqn:Eg. intros [= _ <-]. by eapply Get_frame.
  - eapply on_object_step; [|exact E]. intros store d h y h'. unfold Database_Iterate.
    destruct (stored_loop _ _ _). intros [= _ <-]. apply frame_store_at.
  - eapply on_object_step; [|exact E]. intros store d h y h'. unfold Database_Range.
    destruct (stored_loop _ _ _). intros [= _ <-]. apply frame_store_at.
Qed.

Lemma write_step_steps a w x w' : write_step stateDB moduleDB a w = Ok (x, w') → rtc world_step w w'.
Proof.
  destruct a as [s k v|s k|s|s id]; cbn [write_step]; intros E.
  - apply rtc_once. eapply on_object_step; [|exact E]. intros store d h y h'. cbn beta.
    destruct (Database_Set store d k v h) eqn:Es; cbn [mbind res_bind]; try done.
    intros [= _ <-]. by eapply Set_frame.
  - apply rtc_once. eapply on_object_step; [|exact E]. intros store d h y h'. cbn beta. intros [= _ <-]. apply frame_store_at.
  - by eapply rtc_once, object_Snapshot_step.
  - by eapply object_RestoreSnapshot_step.
Qed.

(** ** What steps keep *)

Lemma lookup_set_db w s o d i o' : w_objects (set_db s o d w) !! i = Some o' → is_Some (w_objects w !! s) →
  i = s ∧ o' = mkObject (o_module o) d ∨ i ≠ s ∧ w_objects w !! i = Some o'.
Proof.
  intros Hl [o0 Ho]. cbn in Hl. destruct (decide (i = s)) as [->|Hn].
  - rewrite list_lookup_insert_eq in Hl by (by eapply lookup_lt_Some). left. naive_solver.
  - rewrite list_lookup_insert_ne in Hl by done. by right.
Qed.

Lemma lookup_new_object w o i o' : w_objects (new_object o w).2 !! i = Some o' → o' = o ∨ w_objects w !! i = Some o'.
Proof.
  cbn. intros [Hl|[_ Hl]]%lookup_app_Some; [by right|]. left. by apply list_lookup_singleton_Some in Hl as [_ ->].
Qed.

Lemma world_step_ok w w' : world_step w w' → world_ok w → world_ok w'.
Proof.
  intros Hstep Hok. destruct Hstep as [w i o h Ho [Hl Hf]|w i o p Ho|w i o id d h Ho Hs|w i o id d Ho Hr].
  - intros j o' Ho'. cbn in *. destruct (Hok j o' Ho') as [? Hsn]. unfold object_ok. rewrite Hl. split; [done|naive_solver].
  - intros j o' [->|Ho']%lookup_new_object; [|by apply (Hok j)]. destruct (Hok i o Ho) as [? _]. split; [done|].
    cbn. intros id q. by rewrite lookup_empty.
  - unfold Snapshot, alloc in Hs. injection Hs as <- <- <-.
    intros j o' [(-> & ->)|(Hj & Ho')]%lookup_set_db; [| |by eexists].
    + destruct (Hok i o Ho) as [? Hsn]. split; cbn; rewrite length_app; cbn; [lia|].
      intros id q [(<- & <-)|(Hid & Hq)]%lookup_insert_Some; [lia|]. destruct (Hsn id q Hq). lia.
    + destruct (Hok j o' Ho') as [? Hsn]. split; cbn; rewrite length_app; cbn; [lia|]. intros id q Hq. destruct (Hsn id q Hq). lia.
  - unfold RestoreSnapshot in Hr. destruct (d_snapshots (o_db o) !! id) as [q|] eqn:Eq; [|done]. injection Hr as <-.
    destruct (Hok i o Ho) as [? Hsn]. destruct (Hsn id q Eq).
    intros j o' [(-> & ->)|(Hj & Ho')]%lookup_set_db; [|by apply (Hok j)|by eexists].
    split; [done|]. cbn. intros id' q' [_ Hq]%lookup_delete_Some. by apply Hsn.
Qed.

Lemma used_step s n w w' : world_step w w' → used s n w → used s n w'.
Proof.
  intros Hstep (o0 & Ho0 & Hn & Hc). destruct Hstep as [w i o h Ho Hf|w i o p Ho|w i o id d h Ho Hs|w i o id d Ho Hr].
  - by exists o0.
  - exists o0. split_and!; [|done..]. cbn. by apply lookup_app_l_Some.
  - unfold Snapshot, alloc in Hs. injection Hs as <- <- <-. unfold used, set_db, set_object. cbn [w_objects].
    destruct (decide (i = s)) as [->|Hne]; [|exists o0; by rewrite list_lookup_insert_ne].
    rewrite list_lookup_insert_eq by (by eapply lookup_lt_Some). simplify_eq. eexists. split; [done|]. cbn.
    rewrite lookup_insert_ne by (apply not_eq_sym, Z.lt_neq; done). split; [done|lia].
  - unfold RestoreSnapshot in Hr. destruct (d_snapshots (o_db o) !! id) as [q|] eqn:Eq; [|done]. injection Hr as <-.
    unfold used, set_db, set_object. cbn [w_objects]. destruct (decide (i = s)) as [->|Hne]; [|exists o0; by rewrite list_lookup_insert_ne].
    rewrite list_lookup_insert_eq by (by eapply lookup_lt_Some). simplify_eq. eexists. split; [done|]. cbn.
    split; [|done]. apply lookup_delete_None. by right.
Qed.

(** A snapshot that nothing refers to is kept until it is restored. *)
Lemma guarded_step s n p c w w' : world_step w w' → guarded s n p c w → guarded s n p c w' ∨ used s n w'.
Proof.
  intros Hstep [Hb Hc (o0 & Ho0 & Hn & Hlt) Hal]. destruct Hstep as [w i o h Ho [Hl Hf]|w i o q Ho|w i o id d h Ho Hs|w i o id d Ho Hr].
  - left. split; cbn; [by rewrite Hl| |by exists o0|done]. rewrite Hf; [done|]. intros ->. by apply (Hal i o Ho).
  - left. split; cbn [w_heap new_object snd]; [done..| |].
    + exists o0. split_and!; [|done..]. by apply lookup_app_l_Some.
    + intros j o' [->|Ho']%lookup_new_object; [|by apply (Hal j)]. split; [by apply (Hal i o Ho)|].
      cbn. intros id. by rewrite lookup_empty.
  - left. unfold Snapshot, alloc in Hs. injection Hs as <- <- <-. split; cbn [set_db set_object w_heap].
    + rewrite length_app. lia.
    + by rewrite deref_alloc_old.
    + cbn. destruct (decide (i = s)) as [->|Hne]; [|exists o0; by rewrite list_lookup_insert_ne].
      rewrite list_lookup_insert_eq by (by eapply lookup_lt_Some). simplify_eq. eexists. split; [done|]. cbn.
      rewrite lookup_insert_ne by (apply not_eq_sym, Z.lt_neq; done). split; [done|lia].
    + intros j o' [(-> & ->)|(Hj & Ho')]%lookup_set_db; [|by apply (Hal j)|by eexists].
      destruct (Hal i o Ho) as [? Hsn]. split; [done|]. cbn. intros id [(<- & Hp)|(_ & Hq)]%lookup_insert_Some; [lia|by apply Hsn].
  - unfold RestoreSnapshot in Hr. destruct (d_snapshots (o_db o) !! id) as [q|] eqn:Eq; [|done]. injection Hr as <-.
    destruct (decide (i = s ∧ id = n)) as [[-> ->]|Hne].
    { right. unfold used, set_db, set_object. cbn. rewrite list_lookup_insert_eq by (by eapply lookup_lt_Some).
      simplify_eq. eexists. split; [done|]. cbn. by rewrite lookup_delete_eq. }
    assert (q ≠ p) as Hq by (intros ->; by apply Hne, (Hal i o Ho)).
    left. split; cbn [set_db set_object w_heap]; [done..| |].
    + cbn. destruct (decide (i = s)) as [->|Hi]; [|exists o0; by rewrite list_lookup_insert_ne].
      rewrite list_lookup_insert_eq by (by eapply lookup_lt_Some). simplify_eq. eexists. split; [done|]. cbn.
      rewrite lookup_delete_ne by naive_solver. done.
    + intros j o' [(-> & ->)|(Hj & Ho')]%lookup_set_db; [|by apply (Hal j)|by eexists].
      split; [done|]. cbn. intros id' [_ Hq']%lookup_delete_Some. by apply (Hal i o Ho).
Qed.

Lemma guarded_steps s n p c w w' : rtc world_step w w' → guarded s n p c w ∨ used s n w → guarded s n p c w' ∨ used s n w'.
Proof.
  induction 1 as [|w w1 w' Hstep _ IH]; [done|]. intros [Hg|Hu]; apply IH; [by eapply guarded_step|right; by eapply used_step].
Qed.

Lemma world_steps_ok w w' : rtc world_step w w' → world_ok w → world_ok w'.
Proof. induction 1; eauto using world_step_ok. Qed.

(** Taking a snapshot guards it. *)
Lemma object_Snapshot_guards s w n w' : world_ok w → object_Snapshot s w = Ok (n, w') →
  ∃ c, contents s w = Some c ∧ guarded s n (length (w_heap w)) c w'.
Proof.
  intros Hok. unfold object_Snapshot, contents. destruct (object_at s w) as [o| | |] eqn:Eo; cbn [mbind res_bind]; [|done..].
  apply object_at_Some in Eo. unfold Snapshot, alloc. rewrite Eo. intros [= <- <-]. eexists. split; [done|].
  split; cbn [set_db set_object w_heap].
  - rewrite length_app. cbn. lia.
  - by rewrite deref_alloc, c_copy_id.
  - cbn. rewrite list_lookup_insert_eq by (by eapply lookup_lt_Some). eexists. split; [done|]. cbn.
    rewrite lookup_insert_eq. split; [done|lia].
  - intros j o' [(-> & ->)|(Hj & Ho')]%lookup_set_db; [| |by eexists]; cbn.
    + destruct (Hok s o Eo) as [? Hsn]. split; [lia|]. intros id [(<- & _)|(_ & Hq)]%lookup_insert_Some; [done|]. destruct (Hsn id _ Hq). lia.
    + destruct (Hok j o' Ho') as [? Hsn]. split; [lia|]. intros id Hq. destruct (Hsn id _ Hq). lia.
Qed.

(** Restoring a snapshot that is guarded or used either gives its cache back or
    fails. *)
Lemma object_RestoreSnapshot_guarded s n p c w w' : guarded s n p c w ∨ used s n w →
  object_RestoreSnapshot s n w = Ok (None, w') → contents s w' = Some c.
Proof.
  unfold object_RestoreSnapshot, contents. intros Hg. destruct (object_at s w) as [o| | |] eqn:Eo; cbn [mbind res_bind]; [|done..].
  apply object_at_Some in Eo. unfold RestoreSnapshot. destruct Hg as [[_ <- (o' & Ho' & Hn & _) _]|(o' & Ho' & Hn & _)]; simplify_eq; rewrite Hn; [|done].
  intros [= <-]. cbn. by rewrite list_lookup_insert_eq by (by eapply lookup_lt_Some).
Qed.

Lemma object_DeleteSnapshot_contents s n w w' : object_DeleteSnapshot s n w = Ok w' → contents s w' = contents s w.
Proof.
  unfold object_DeleteSnapshot, contents. destruct (object_at s w) as [o| | |] eqn:Eo; cbn [mbind res_bind]; [|done..].
  apply object_at_Some in Eo. intros [= <-]. cbn. by rewrite list_lookup_insert_eq, Eo by (by eapply lookup_lt_Some).
Qed.
End objects.

(** ** The event logger *)

(** An event as it is added at position [i]: valid, with the default topic
    first, and not to be reverted. *)
Definition recorded (l : EventLogger) (i : Z) (e : loggedEvent) : Prop :=
  le_noRevert e = true ∧ Event_Index (le_event e) = u32 i ∧ Event_Validate (le_event e) = Ok () ∧
  Event_Height (le_event e) = el_height l ∧ ∃ topics, el_defaultTopic l = Some (hd [] (Event_Topics (le_event e))) ∧
  Event_Topics (le_event e) = hd [] (Event_Topics (le_event e)) :: topics.

(** The logger [l'] is [l] with more events. *)
Record appends (l l' : EventLogger) : Prop := {
  ap_snapshot : el_snapshotIndex l' = el_snapshotIndex l;
  ap_height : el_height l' = el_height l;
  ap_topic : el_defaultTopic l' = el_defaultTopic l;
  ap_events : ∃ new, el_events l' = el_events l ++ new ∧
    ∀ i e, new !! i = Some e → recorded l (len (el_events l) + Z.of_nat i) e;
}.

Lemma recorded_ext l l' i e : el_height l' = el_height l → el_defaultTopic l' = el_defaultTopic l → recorded l' i e → recorded l i e.
Proof. unfold recorded. by intros -> ->. Qed.

#[export] Instance appends_preorder : PreOrder appends.
Proof.
  split.
  - intros l. split; [done..|]. exists []. by rewrite app_nil_r.
  - intros l1 l2 l3 [S12 H12 T12 (n12 & E12 & R12)] [S23 H23 T23 (n23 & E23 & R23)].
    split; [congruence..|]. exists (n12 ++ n23). rewrite E23, E12, app_assoc. split; [done|]. intros i e Hi.
    apply lookup_app_Some in Hi as [Hi|[Hle Hi]]; [by apply R12|]. apply R23, (recorded_ext l1) in Hi; [|done..].
    rewrite E12, len_app in Hi. unfold len in *. by replace (Z.of_nat (length (el_events l1)) + Z.of_nat i)
      with (Z.of_nat (length (el_events l1)) + Z.of_nat (length n12) + Z.of_nat (i - length n12)) by lia.
Qed.

Lemma createEvent_recorded module name data topics l e : createEvent module name data topics l = Ok e →
  recorded l (len (el_events l)) (mkLoggedEvent e true).
Proof.
  unfold createEvent. destruct (el_defaultTopic l) as [t|] eqn:Et; [|done].
  destruct (Event_Validate _) as [[]| | |] eqn:Ev; cbn [mbind res_bind]; [|done..]. intros [= <-].
  unfold recorded. split_and!; [done|done|exact Ev|done|].
  rewrite Et. cbn. destruct (0 <? len topics); by eexists.
Qed.

Lemma add_appends l e : recorded l (len (el_events l)) (mkLoggedEvent e true) →
  appends l (set_el_events (el_events l ++ [mkLoggedEvent e true]) l).
Proof.
  intros Hr. split; [done..|]. eexists. split; [done|]. intros i x [-> <-]%list_lookup_singleton_Some.
  by rewrite Z.add_0_r.
Qed.

Lemma EventLogger_Add_appends module name data topics l l' : EventLogger_Add module name data topics l = Ok l' → appends l l'.
Proof.
  unfold EventLogger_Add. destruct (createEvent _ _ _ _ _) eqn:E; cbn [mbind res_bind]; [|done..]. intros [= <-].
  by eapply add_appends, createEvent_recorded.
Qed.

(** Restoring a snapshot removes no event. *)
Lemma keep_events_recorded l n m new :
  (∀ i e, new !! i = Some e → recorded l (n + m + Z.of_nat i) e) → keep_events n m new = new.
Proof.
  revert m. induction new as [|e new IH]; intros m Hr; cbn [keep_events]; [done|].
  destruct (Hr 0%nat e eq_refl) as (Hn & Hi & _). rewrite Hn, (IH (m + 1)).
  - f_equal. rewrite Z.add_0_r in Hi. rewrite <-Hi. destruct e as [[] ?]. cbn in *. by subst.
  - intros i x Hx. specialize (Hr (Datatypes.S i) x Hx).
    by replace (n + (m + 1) + Z.of_nat i) with (n + m + Z.of_nat (Datatypes.S i)) by lia.
Qed.

Lemma slice_halves {A} (a b : list A) : slice (a ++ b) 0 (len a) = Ok a ∧ slice (a ++ b) (len a) (len (a ++ b)) = Ok b.
Proof.
  split; [apply (slice_app_mid [] a b)|]. rewrite len_app. pose proof (slice_app_mid a b []) as E. by rewrite app_nil_r in E.
Qed.

Lemma RestoreSnapshot_keeps_events l l1 : appends (CreateSnapshot l) l1 →
  ∃ l2, EventLogger_RestoreSnapshot l1 = Ok l2 ∧ el_events l2 = el_events l1.
Proof.
  intros [Hs _ _ (new & E & Hr)]. cbn in *. unfold EventLogger_RestoreSnapshot. rewrite Hs.
  destruct (Z.ltb_spec (len (el_events l)) 0); [pose proof (len_nonneg (el_events l)); lia|].
  destruct (slice_halves (el_events l) new) as [E1 E2]. rewrite E, E1. cbn [mbind res_bind]. rewrite E2. cbn [mbind res_bind].
  rewrite (keep_events_recorded (CreateSnapshot l)); [by eexists|]. intros i e Hi. rewrite Z.add_0_r. by apply Hr.
Qed.

(** ** Transactions *)

(** The stores move by steps of objects and the logger grows. *)
Definition change_rel (s s' : world * EventLogger) : Prop := rtc world_step s.1 s'.1 ∧ appends s.2 s'.2.

#[export] Instance change_rel_preorder : PreOrder change_rel.
Proof.
  split; [done|]. intros s1 s2 s3 [W12 L12] [W23 L23]. split; etrans; done.
Qed.

Section transactions.
Context {S : Type} `{Pebble S} (stateDB moduleDB : S).

Lemma on_world_rel {T : Type} (r : res (T * world)) w l (x : T) s' :
  (∀ y w', r = Ok (y, w') → rtc world_step w w') → on_world r l = Ok (x, s') → change_rel (w, l) s'.
Proof. intros Hr. unfold on_world. destruct r as [[y w']| | |]; cbn [mbind res_bind]; [|done..]. intros [= _ <-]. split; [by eapply Hr|done]. Qed.

Lemma add_event_rel (r : res EventLogger) (w : world) l e s' :
  (∀ l', r = Ok l' → appends l l') → add_event r w l = Ok (e, s') → change_rel (w, l) s'.
Proof. intros Hr. unfold add_event. destruct r; [|by intros [= _ <-]|done..]. intros [= _ <-]. split; [done|by apply Hr]. Qed.

Lemma change_step_rel ds a s x s' : change_step stateDB moduleDB ds a s = Ok (x, s') → change_rel s s'.
Proof.
  destruct s as [w l]. destruct a as [a|a| |id|m n d t|m n d t]; cbn [change_step]; intros E.
  - eapply on_world_rel; [|exact E]. intros y w'. apply read_step_steps.
  - eapply on_world_rel; [|exact E]. intros y w'. apply write_step_steps.
  - eapply on_world_rel; [|exact E]. intros y w' E'. by eapply rtc_once, object_Snapshot_step.
  - eapply on_world_rel; [|exact E]. intros y w'. apply object_RestoreSnapshot_step.
  - eapply add_event_rel; [|exact E]. intros l'. apply EventLogger_Add_appends.
  - eapply add_event_rel; [|exact E]. intros l'. apply EventLogger_Add_appends.
Qed.

Lemma hooks_rel ds (hook : AppModule → prog change_result (option error)) ms s e s' :
  each (λ m, run_prog (change_step stateDB moduleDB ds) (hook m)) ms s = Ok (e, s') → change_rel s s'.
Proof. apply each_rel; [apply _|]. intros m s1 e1 s1'. apply run_prog_rel; [apply _|]. intros a. apply change_step_rel. Qed.

(** The run of a command from its snapshot. *)
Definition command_run (ds : nat) (cmd : Command) (ctx : TransactionExecuteContext) (s : world * EventLogger)
    : res (Z * option error * (world * EventLogger)) :=
  '(id, w) ← object_Snapshot ds s.1;
  '(err, s) ← run_prog (change_step stateDB moduleDB ds) (cmd_Execute cmd ctx) (w, CreateSnapshot s.2);
  Ok (id, err, s).

(** A command that fails and whose snapshot is restored: the store holds what it
    held before, the logger has all events of the command. *)
Lemma execute_command_failed ds cmd ctx s e s' : world_ok s.1 →
  execute_command stateDB moduleDB ds cmd ctx s = Ok (None, Some e, s') →
  ∃ id s1 c, command_run ds cmd ctx s = Ok (id, Some e, s1) ∧ el_events s'.2 = el_events s1.2 ∧
    contents ds s.1 = Some c ∧ contents ds s'.1 = Some c.
Proof.
  destruct s as [w l]. intros Hok. unfold execute_command, command_run. cbn [fst snd] in *.
  destruct (object_Snapshot ds w) as [[id w1]| | |] eqn:Es; cbn [mbind res_bind]; [|done..].
  destruct (object_Snapshot_guards _ _ _ _ Hok Es) as (c & Hc & Hg).
  destruct (run_prog _ _ _) as [[err [w2 l2]]| | |] eqn:Erun; cbn [mbind res_bind]; [|done..].
  apply (run_prog_rel _ change_rel) in Erun as [Hw Hl]; [|intros a; apply change_step_rel]. cbn in Hw, Hl.
  destruct err as [e'|]; cbn [mbind res_bind].
  2: { destruct (object_DeleteSnapshot _ _ _); cbn [mbind res_bind]; [|done..]. by intros [= ? _]. }
  destruct (object_RestoreSnapshot ds id w2) as [[[re|] w3]| | |] eqn:Er; cbn [mbind res_bind]; [by intros [= ? _ _]| |done..].
  destruct (RestoreSnapshot_keeps_events _ _ Hl) as (l3 & -> & El). cbn [mbind res_bind].
  destruct (object_DeleteSnapshot _ _ _) as [w4| | |] eqn:Ed; cbn [mbind res_bind]; [|done..]. intros [= -> <-].
  exists id, (w2, l2), c. split_and!; [done|done|done|]. cbn. rewrite (object_DeleteSnapshot_contents _ _ _ _ Ed).
  eapply object_RestoreSnapshot_guarded; [|done]. eapply guarded_steps; [done|by left].
Qed.

(** C17: A transaction that fails leaves no trace in the store.  Whatever the hooks of
    the modules and the command do through their contexts, when
    [ExecuteTransaction] reports a failure, what the store holds when the hooks
    after the command start is what the hooks before it left; the events the
    command has added until then all stay, and the event that reports the
    failure follows those of the later hooks. *)
Theorem failed_transaction_rolled_back ms ds ctx s r s' : world_ok s.1 →
  sm_ExecuteTransaction stateDB moduleDB ms ds ctx s = Ok (r, s') → er_status r = execStatusFail →
  let tx := tc_transaction ctx in
  ∃ cmd s1 s2 s3 id e s1' c,
    before_hooks stateDB moduleDB ms ds ctx (set_topic (tx_ID tx) s) = Ok (None, s1) ∧
    GetCommand (tx_Module tx) (tx_Command tx) ms = Some cmd ∧ command_run ds cmd ctx s1 = Ok (id, Some e, s1') ∧
    contents ds s1.1 = Some c ∧ contents ds s2.1 = Some c ∧ el_events s2.2 = el_events s1'.2 ∧
    after_hooks stateDB moduleDB ms ds ctx s2 = Ok (None, s3) ∧ s'.1 = s3.1 ∧
    EventLogger_Add (tx_Module tx) EventNameDefault (NewStandardTransactionEventData false) [] s3.2 = Ok s'.2.
Proof.
  intros Hok E Hst. cbv zeta. unfold sm_ExecuteTransaction in E.
  destruct (before_hooks _ _ _ _ _ _) as [[[e1|] s1]| | |] eqn:Eb; cbn [mbind res_bind] in E; [by simplify_eq| |done..].
  destruct (GetCommand _ _ _) as [cmd|] eqn:Ec; [|by simplify_eq].
  destruct (execute_command _ _ _ _ _ _) as [[[re ce] s2]| | |] eqn:Ex; cbn [mbind res_bind] in E; [|done..].
  destruct re as [re|]; [by simplify_eq|].
  destruct (after_hooks _ _ _ _ _ _) as [[[e3|] s3]| | |] eqn:Ea; cbn [mbind res_bind] in E; [by simplify_eq| |done..].
  destruct ce as [e|]; cbn [negb] in E.
  2: { destruct (EventLogger_Add _ _ _ _ _); by simplify_eq. }
  apply hooks_rel in Eb as Hb. destruct Hb as [Hb _]. cbn in Hb.
  destruct (execute_command_failed _ _ _ _ _ _ (world_steps_ok _ _ Hb Hok) Ex) as (id & s1' & c & ? & ? & ? & ?).
  destruct (EventLogger_Add _ _ _ _ _) as [l| | |] eqn:El; [|by simplify_eq|done..]. injection E as <- <-.
  exists cmd, s1, s2, s3, id, e, s1', c. done.
Qed.
End transactions.

(** ** A module with a command that fails *)

Definition quiet_module (name : bytes) (commands : bytes → option Command) : AppModule :=
  mkAppModule name (λ _, Return None) (λ _, Return None) (λ _, Return None) (λ _, Return None) (λ _, Return NewVerifyResultOK)
    (λ _, Return None) (λ _, Return None) (λ _, Return None) (λ _, Return None) commands.

(** The command writes a key, logs an event and fails. *)
Definition failing_command : Command := mkCommand [102] (λ _, Return NewVerifyResultOK)
  (λ ctx, Call (Read (GetStore [0; 0; 0; 1] [0; 0])) (λ s : nat,
     Call (Write_ (StoreSet s [7] [1])) (λ _,
     Call (AddEvent [109] [101] [] []) (λ _, Return (Some (Errorf "failed")))))).

Definition sample_module : AppModule := quiet_module [109] (λ _, Some failing_command).

Definition sample_tx : Transaction := mkTransaction (replicate 32 9) 0 [109] [102] 0 0 [] [] [].
Definition sample_header : BlockHeader := mkBlockHeader [] 2 10 5 [] [] [] [] [] [] 0 0 false [] None [].
Definition sample_ctx : TransactionExecuteContext :=
  mkTransactionExecuteContext [1] sample_header [] (mkConsensusContext [] false 0) sample_tx.
Definition sample_world : world := (new_database false [0] (mkWorld [] [])).2.
Abbreviation sample_execution :=
  (sm_ExecuteTransaction (∅ : gmap bytes bytes) ∅ [sample_module] 0 sample_ctx (sample_world, NewEventLogger 5)).

Lemma new_database_ok module prefix w : world_ok w → world_ok (new_database module prefix w).2.
Proof.
  intros Hok. unfold new_database, New, alloc. intros i o [->|Hi]%lookup_new_object.
  - split; cbn; [rewrite length_app; cbn; lia|]. intros id q. by rewrite lookup_empty.
  - destruct (Hok i o Hi) as [? Hs]. split; cbn; rewrite length_app; [lia|]. intros id q Hq. destruct (Hs id q Hq). lia.
Qed.

Lemma failed_transaction_rolled_back_witness :
  ∃ s', sample_execution = Ok (NewExecResultFail (Some (Errorf "failed")), s') ∧ contents 0 s'.1 = Some ∅ ∧
    length (el_events s'.2) = 2%nat ∧
    ∃ s1, before_hooks (∅ : gmap bytes bytes) ∅ [sample_module] 0 sample_ctx (set_topic (replicate 32 9) (sample_world, NewEventLogger 5))
      = Ok (None, s1).
Proof.
  destruct sample_execution as [[r s']| | |] eqn:E; [|by vm_compute in E..].
  assert (world_ok sample_world) as Hok by (apply new_database_ok; intros i o Hi; by destruct i).
  assert (r = NewExecResultFail (Some (Errorf "failed"))) as -> by (vm_compute in E; by injection E as <- _).
  destruct (failed_transaction_rolled_back (∅ : gmap bytes bytes) ∅ [sample_module] 0 sample_ctx (sample_world, NewEventLogger 5)
    (NewExecResultFail (Some (Errorf "failed"))) s' Hok E eq_refl) as (cmd & s1 & s2 & s3 & id & e & s1' & c & Hb & _).
  exists s'. split; [done|]. split; [by vm_compute in E; injection E as <-|].
  split; [by vm_compute in E; injection E as <-|]. by exists s1.
Defined.
