(* ===== verification/Framework.v ===== *)
(** * Framework: the application side of the ABI

    pkg/framework (handler.go, state_batch.go, application.go), pkg/db/batchdb:
    the handler that executes blocks with the state machine, keeps the state of
    the application in a database and its root in a sparse Merkle tree.  It is
    an instance of [Application], the interface the consensus executer calls. *)

From S2P Require Import Prelude Collection Codec CodecSpec Message Crypto RMT BlockTypes Block DB DiffDB BFTTypes SMT Event LabiTypes Certificate DataAccess Commits Execute StateMachine Forge.

(** ** batchdb.go *)

(** Reads go to the database, writes to the batch. *)
Record batchDatabase (S : Type) := mkBatchDatabase {
  bd_database : S;
  bd_batch : Batch;
  bd_prefix : bytes;
}.
Arguments mkBatchDatabase {_} _ _ _.
Arguments bd_database {_} _.
Arguments bd_batch {_} _.
Arguments bd_prefix {_} _.

Section batchdb.
Context {S : Type} `{Pebble S}.

Definition NewWithPrefix (database : S) (batch : Batch) (prefix : bytes) : batchDatabase S := mkBatchDatabase database batch prefix.

Definition prefixedKey (b : batchDatabase S) (key : bytes) : bytes :=
  Bytes.JoinSize (len (bd_prefix b) + len key) [bd_prefix b; key].

Definition bd_Get (b : batchDatabase S) (key : bytes) : option bytes := Get (bd_database b) (prefixedKey b key).
Definition bd_Set (key value : bytes) (b : batchDatabase S) : batchDatabase S :=
  mkBatchDatabase (bd_database b) (Batch_Set (prefixedKey b key) value (bd_batch b)) (bd_prefix b).
Definition bd_Del (key : bytes) (b : batchDatabase S) : batchDatabase S :=
  mkBatchDatabase (bd_database b) (Batch_Del (prefixedKey b key) (bd_batch b)) (bd_prefix b).

#[export] Instance batchdb_db : DBReadWriter (batchDatabase S) := { db_Get := bd_Get; db_Set := bd_Set; db_Del := bd_Del }.
End batchdb.

(** ** state_batch.go *)

Definition dbPrefixSize : Z := 1.
Definition prefixSize : Z := 6.
Definition StateDBPrefixState : bytes := [0].
Definition StateDBPrefixTree : bytes := [1].
Definition StateDBPrefixDiff : bytes := [2].
Definition StateDBPrefixTreeState : bytes := [3].

Record stateSMTBatch := mkStateSMTBatch {
  sb_batch : Batch;
  sb_keys : list bytes;
  sb_values : list bytes;
}.

Section state_batch.
Context `{Hasher}.

Definition stateTreeKeySize : Z := hashSize + prefixSize.

Definition getTreeKey (keyBytes : bytes) : res bytes :=
  key ← slice keyBytes (dbPrefixSize + prefixSize) (len keyBytes);
  let hashedKey := Hash key in
  prefix ← slice keyBytes dbPrefixSize (dbPrefixSize + prefixSize);
  Ok (Bytes.JoinSize (hashSize + prefixSize) [prefix; hashedKey]).

Definition newStateBatch (batch : Batch) : stateSMTBatch := mkStateSMTBatch batch [] [].

Definition sb_Set (key value : bytes) (b : stateSMTBatch) : res stateSMTBatch :=
  treeKey ← getTreeKey key;
  Ok (mkStateSMTBatch (Batch_Set key value (sb_batch b)) (sb_keys b ++ [treeKey]) (sb_values b ++ [Hash value])).

(** A deleted key gets the hash of the empty string as its value. *)
Definition sb_Del (key : bytes) (b : stateSMTBatch) : res stateSMTBatch :=
  treeKey ← getTreeKey key;
  Ok (mkStateSMTBatch (Batch_Del key (sb_batch b)) (sb_keys b ++ [treeKey]) (sb_values b ++ [emptyHash])).

(** The calls of a [DatabaseWriter] one after the other. *)
Fixpoint write_all (ops : Batch) (b : stateSMTBatch) : res stateSMTBatch :=
  match ops with
  | [] => Ok b
  | BSet key value :: ops => b ← sb_Set key value b; write_all ops b
  | BDel key :: ops => b ← sb_Del key b; write_all ops b
  end.
End state_batch.

(** ** handler.go *)

Definition GeneratorDBPrefix : bytes := [0].

Record executionContext := mkExecutionContext {
  ec_id : bytes;
  ec_header : BlockHeader;
  ec_diffStore : nat;
  ec_moduleStore : nat;
}.

Section handler.
Context {S : Type} `{Pebble S} `{Norm, Hasher}.
Context (commit_order : cacheDB → list (bytes * cacheValue)) (modules : list AppModule).

(** [ah_genesisAssets] are the assets of [genesisBlock], which becomes nil. *)
Record ABIHandler := mkABIHandler {
  ah_chainID : bytes;
  ah_genesisAssets : option (list BlockAsset);
  ah_stateDB : S;
  ah_moduleDB : S;
  ah_executionContext : option executionContext;
  ah_world : world;
}.

Definition set_ah_chainID (chainID : bytes) (a : ABIHandler) : ABIHandler :=
  mkABIHandler chainID (ah_genesisAssets a) (ah_stateDB a) (ah_moduleDB a) (ah_executionContext a) (ah_world a).
Definition set_ah_genesisAssets (assets : option (list BlockAsset)) (a : ABIHandler) : ABIHandler :=
  mkABIHandler (ah_chainID a) assets (ah_stateDB a) (ah_moduleDB a) (ah_executionContext a) (ah_world a).
Definition set_ah_stateDB (db : S) (a : ABIHandler) : ABIHandler :=
  mkABIHandler (ah_chainID a) (ah_genesisAssets a) db (ah_moduleDB a) (ah_executionContext a) (ah_world a).
Definition set_ah_executionContext (c : option executionContext) (a : ABIHandler) : ABIHandler :=
  mkABIHandler (ah_chainID a) (ah_genesisAssets a) (ah_stateDB a) (ah_moduleDB a) c (ah_world a).
Definition set_ah_world (w : world) (a : ABIHandler) : ABIHandler :=
  mkABIHandler (ah_chainID a) (ah_genesisAssets a) (ah_stateDB a) (ah_moduleDB a) (ah_executionContext a) w.

(** A method of the handler. *)
Definition method (T : Type) : Type := ABIHandler → res T * ABIHandler.

#[export] Instance method_ret : MRet method := λ T x a, (Ok x, a).
#[export] Instance method_bind : MBind method := λ T U f m a,
  let '(r, a) := m a in
  match r with
  | Ok x => f x a
  | Err e => (Err e, a)
  | Panic => (Panic, a)
  | OutOfFuel => (OutOfFuel, a)
  end.

Definition ask {T} (f : ABIHandler → res T) : method T := λ a, (f a, a).
Definition returns {T} (r : res T) : method T := λ a, (r, a).
Definition update_handler (f : ABIHandler → ABIHandler) : method () := λ a, (Ok (), f a).

(** Dereferencing a pointer that may be nil. *)
Definition deref_ptr {T} (o : option T) : res T := match o with Some x => Ok x | None => Panic end.

(** A run of the state machine: its state is the objects and [s]; an error is a
    result. *)
Definition run_machine {T L : Type} (f : world * L → res (T * (world * L))) (s : L) : method (T * L) := λ a,
  match f (ah_world a, s) with
  | Ok (x, (w, s)) => (Ok (x, s), set_ah_world w a)
  | Err e => (Err e, a)
  | Panic => (Panic, a)
  | OutOfFuel => (OutOfFuel, a)
  end.

Definition with_dbs {T : Type} (f : S → S → method T) : method T := λ a, f (ah_stateDB a) (ah_moduleDB a) a.

Definition check_err (e : option error) : res () := match e with Some e => Err e | None => Ok () end.

Definition new_store (module : bool) (prefix : bytes) : method nat := λ a,
  let '(s, w) := new_database module prefix (ah_world a) in (Ok s, set_ah_world w a).

Definition checkState (id : bytes) : method executionContext := ask (λ a,
  match ah_executionContext a with
  | None => Err (Errorf "invalid context id")
  | Some c => if negb (bytes_equal (ec_id c) id) then Err (Errorf "invalid context id") else Ok c
  end).

Definition consensus_of (c : LabiConsensus) : consensusContext :=
  mkConsensusContext (LabiConsensus_CurrentValidators c) (LabiConsensus_ImplyMaxPrevote c) (LabiConsensus_MaxHeightCertified c).

Definition InitStateMachine (req : InitStateMachineRequest) : method InitStateMachineResponse :=
  already ← ask (λ a, Ok (bool_decide (is_Some (ah_executionContext a))));
  if already : bool then returns (Err (Errorf "state machine is already initialized"))
  else
    header ← returns (deref_ptr (InitStateMachineRequest_Header req));
    let header := BlockHeader_Init header in
    let id := Hash (BlockHeader_Encode header) in
    diffStore ← new_store false StateDBPrefixState;
    moduleStore ← new_store true GeneratorDBPrefix;
    _ ← update_handler (set_ah_executionContext (Some (mkExecutionContext id header diffStore moduleStore)));
    mret (mkInitStateMachineResponse id).

Definition handler_InitGenesisState (req : InitGenesisStateRequest) : method InitGenesisStateResponse :=
  c ← ask (λ a, deref_ptr (ah_executionContext a));
  assets ← ask (λ a, deref_ptr (ah_genesisAssets a));
  let ctx := mkGenesisBlockProcessingContext (ec_header c) assets in
  '(err, (eventLogger, setter)) ← with_dbs (λ stateDB moduleDB, run_machine (λ '(w, (l, sc)),
      '(err, (w, l, sc)) ← ExecGenesis stateDB moduleDB modules (ec_diffStore c) ctx (w, l, sc);
      Ok (err, (w, (l, sc)))) (NewEventLogger (bh_Height (ec_header c)), newConsensusSetter));
  _ ← returns (check_err err);
  let '(precommitThreshold, certificateThreshold, validators) := GetNextValidators setter in
  mret (mkInitGenesisStateResponse (EventLogger_Events eventLogger) precommitThreshold certificateThreshold validators).

Definition handler_InsertAssets (req : InsertAssetsRequest) : method InsertAssetsResponse :=
  c ← checkState (InsertAssetsRequest_ContextID req);
  chainID ← ask (λ a, Ok (ah_chainID a));
  let ctx := mkInsertAssetsContext chainID (ec_header c) (InsertAssetsRequest_FinalizedHeight req) in
  '(err, assets) ← with_dbs (λ stateDB moduleDB, run_machine (sm_InsertAssets stateDB moduleDB modules (ec_diffStore c) (ec_moduleStore c) ctx) []);
  _ ← returns (check_err err);
  mret (mkInsertAssetsResponse assets).

Definition handler_VerifyAssets (req : VerifyAssetsRequest) : method () :=
  _ ← update_handler (set_ah_genesisAssets None);
  c ← checkState (VerifyAssetsRequest_ContextID req);
  chainID ← ask (λ a, Ok (ah_chainID a));
  let ctx := mkVerifyAssetsContext chainID (ec_header c) (VerifyAssetsRequest_Assets req) in
  '(err, _) ← with_dbs (λ stateDB moduleDB, run_machine (λ '(w, u),
      '(err, w) ← sm_VerifyAssets stateDB moduleDB modules (ec_diffStore c) ctx w; Ok (err, (w, u))) ());
  returns (check_err err).

Definition handler_BeforeTransactionsExecute (req : BeforeTransactionsExecuteRequest) : method BeforeTransactionsExecuteResponse :=
  c ← checkState (BeforeTransactionsExecuteRequest_ContextID req);
  consensus ← returns (deref_ptr (BeforeTransactionsExecuteRequest_Consensus req));
  chainID ← ask (λ a, Ok (ah_chainID a));
  let ctx := mkBeforeTransactionsExecuteContext chainID (ec_header c) (BeforeTransactionsExecuteRequest_Assets req) (consensus_of consensus) in
  '(err, eventLogger) ← with_dbs (λ stateDB moduleDB, run_machine (BeforeExecute stateDB moduleDB modules (ec_diffStore c) ctx)
      (NewEventLogger (bh_Height (ec_header c))));
  _ ← returns (check_err err);
  mret (mkBeforeTransactionsExecuteResponse (EventLogger_Events eventLogger)).

Definition handler_AfterTransactionsExecute (req : AfterTransactionsExecuteRequest) : method AfterTransactionsExecuteResponse :=
  c ← checkState (AfterTransactionsExecuteRequest_ContextID req);
  let transactions := Transaction_Init <$> AfterTransactionsExecuteRequest_Transactions req in
  consensus ← returns (deref_ptr (AfterTransactionsExecuteRequest_Consensus req));
  chainID ← ask (λ a, Ok (ah_chainID a));
  let ctx := mkAfterTransactionsExecuteContext
    (mkBeforeTransactionsExecuteContext chainID (ec_header c) (AfterTransactionsExecuteRequest_Assets req) (consensus_of consensus))
    transactions in
  '(err, (eventLogger, setter)) ← with_dbs (λ stateDB moduleDB, run_machine (λ '(w, (l, sc)),
      '(err, (w, l, sc)) ← AfterExecute stateDB moduleDB modules (ec_diffStore c) ctx (w, l, sc);
      Ok (err, (w, (l, sc)))) (NewEventLogger (bh_Height (ec_header c)), newConsensusSetter));
  _ ← returns (check_err err);
  let '(precommitThreshold, certificateThreshold, validators) := GetNextValidators setter in
  mret (mkAfterTransactionsExecuteResponse (EventLogger_Events eventLogger) precommitThreshold certificateThreshold validators).

(** The store of the context is used when the IDs differ. *)
Definition handler_VerifyTransaction (req : VerifyTransactionRequest) : method VerifyTransactionResponse :=
  executionContext ← ask (λ a, Ok (ah_executionContext a));
  diffStore ←
    match executionContext with
    | None => new_store false StateDBPrefixState
    | Some c => if bytes_equal (ec_id c) (VerifyTransactionRequest_ContextID req) then new_store false StateDBPrefixState
                else mret (ec_diffStore c)
    end;
  transaction ← returns (deref_ptr (VerifyTransactionRequest_Transaction req));
  chainID ← ask (λ a, Ok (ah_chainID a));
  let ctx := mkTransactionVerifyContext chainID (Transaction_Init transaction) in
  '(result, _) ← with_dbs (λ stateDB moduleDB, run_machine (λ '(w, u),
      '(result, w) ← sm_VerifyTransaction stateDB moduleDB modules diffStore ctx w; Ok (result, (w, u))) ());
  mret (mkVerifyTransactionResponse (vr_status result)).

Definition handler_ExecuteTransaction (req : ExecuteTransactionRequest) : method ExecuteTransactionResponse :=
  c ← ask (λ a, deref_ptr (ah_executionContext a));
  diffStore ← (if negb (ExecuteTransactionRequest_DryRun req)
               then _ ← checkState (ExecuteTransactionRequest_ContextID req); mret (ec_diffStore c)
               else new_store false StateDBPrefixState);
  transaction ← returns (deref_ptr (ExecuteTransactionRequest_Transaction req));
  consensus ← returns (deref_ptr (ExecuteTransactionRequest_Consensus req));
  chainID ← ask (λ a, Ok (ah_chainID a));
  let ctx := mkTransactionExecuteContext chainID (ec_header c) (ExecuteTransactionRequest_Assets req) (consensus_of consensus)
    (Transaction_Init transaction) in
  '(result, eventLogger) ← with_dbs (λ stateDB moduleDB, run_machine (sm_ExecuteTransaction stateDB moduleDB modules diffStore ctx)
      (NewEventLogger (bh_Height (ec_header c))));
  mret (mkExecuteTransactionResponse (EventLogger_Events eventLogger) (er_status result)).

(** [diffStore.Commit] in the order of the runtime. *)
Definition handler_commit_store (diffStore : nat) (a : ABIHandler) : res (Batch * Diff) :=
  o ← object_at diffStore (ah_world a);
  Ok (Database_Commit (o_db o) (commit_order (deref (w_heap (ah_world a)) (d_cache (o_db o)))) []).

Definition state_diff_key (height : Z) : bytes := Bytes.Join [StateDBPrefixDiff; Bytes.FromUint32 height].

(** The tree with the changes of a batch; the batch then holds those of the tree
    as well. *)
Definition update_tree (stateRoot : bytes) (stateBatch : stateSMTBatch) (db : S) : res (bytes * Batch) :=
  let smtDB := NewWithPrefix db (sb_batch stateBatch) StateDBPrefixTree in
  let tree := NewTrie stateRoot stateTreeKeySize in
  '(root, _, smtDB) ← Update tree smtDB (sb_keys stateBatch) (sb_values stateBatch);
  Ok (root, bd_batch smtDB).

(** [currentStateDB.Set([]byte{}, currentState)]. *)
Definition set_tree_state (db : S) (height : Z) (root : bytes) (batch : Batch) : Batch :=
  bd_batch (bd_Set [] (Bytes.Join [Bytes.FromUint32 height; root]) (NewWithPrefix db batch StateDBPrefixTreeState)).

Definition handler_Commit (req : CommitRequest) : method CommitResponse :=
  c ← checkState (CommitRequest_ContextID req);
  '(ops, diff) ← ask (handler_commit_store (ec_diffStore c));
  stateBatch ← returns (write_all ops (newStateBatch []));
  let stateBatch := mkStateSMTBatch (Batch_Set (state_diff_key (bh_Height (ec_header c))) (Diff_Encode diff) (sb_batch stateBatch))
                      (sb_keys stateBatch) (sb_values stateBatch) in
  '(root, batch) ← ask (λ a, update_tree (CommitRequest_StateRoot req) stateBatch (ah_stateDB a));
  if (0 <? len (CommitRequest_ExpectedStateRoot req)) && negb (bytes_equal root (CommitRequest_ExpectedStateRoot req))
  then returns (Err (Errorf "state root does not match with expected state root"))
  else if CommitRequest_DryRun req then mret (mkCommitResponse root)
  else
    _ ← update_handler (λ a, set_ah_stateDB
          (Write (set_tree_state (ah_stateDB a) (bh_Height (ec_header c)) root batch) (ah_stateDB a)) a);
    mret (mkCommitResponse root).

(** The height that is stored is that of the execution context, not of the
    argument. *)
Definition revert (height : Z) (stateRoot expectedStateRoot : bytes) : method bytes :=
  encodedDiff ← ask (λ a, ok_or (Get (ah_stateDB a) (state_diff_key height)) (Errorf "diff does not exist"));
  diff ← returns (Message_Decode (A := Diff) encodedDiff);
  _ ← new_store false StateDBPrefixState;
  stateBatch ← returns (write_all (RevertDiff [] diff) (newStateBatch []));
  '(root, batch) ← ask (λ a, update_tree stateRoot stateBatch (ah_stateDB a));
  if (0 <? len expectedStateRoot) && negb (bytes_equal root expectedStateRoot)
  then returns (Err (Errorf "state root does not match with expected state root"))
  else
    c ← ask (λ a, deref_ptr (ah_executionContext a));
    _ ← update_handler (λ a, set_ah_stateDB
          (Write (set_tree_state (ah_stateDB a) (u32 (bh_Height (ec_header c) - 1)) root batch) (ah_stateDB a)) a);
    mret root.

Definition handler_Revert (req : RevertRequest) : method RevertResponse :=
  c ← checkState (RevertRequest_ContextID req);
  root ← revert (bh_Height (ec_header c)) (RevertRequest_StateRoot req) (RevertRequest_ExpectedStateRoot req);
  mret (mkRevertResponse root).

Fixpoint finalize_batch (finalizedHeight : Z) (keys : list bytes) (batch : Batch) : res Batch :=
  match keys with
  | [] => Ok batch
  | key :: keys =>
      heightByte ← slice key (len StateDBPrefixDiff) (len key);
      height ← Bytes.ToUint32 heightByte;
      finalize_batch finalizedHeight keys (if height <? finalizedHeight then Batch_Del key batch else batch)
  end.

Definition handler_Finalize (finalizedHeight : Z) : method () :=
  if finalizedHeight =? 0 then mret ()
  else
    batch ← ask (λ a, finalize_batch finalizedHeight (IterateKey (ah_stateDB a) StateDBPrefixDiff (-1) false) []);
    update_handler (λ a, set_ah_stateDB (Write batch (ah_stateDB a)) a).

Definition handler_Clear (a : ABIHandler) : ABIHandler := set_ah_executionContext None a.

(** The loop of [Init]: one round for each height above that of the engine. *)
Fixpoint revert_loop (rounds : nat) (currentHeight : Z) (currentRoot : bytes) : method (Z * bytes) :=
  match rounds with
  | O => mret (currentHeight, currentRoot)
  | Datatypes.S rounds =>
      nextRoot ← revert currentHeight currentRoot [];
      revert_loop rounds (currentHeight - 1) nextRoot
  end.

Definition handler_Init (req : InitRequest) : method () :=
  _ ← update_handler (set_ah_chainID (InitRequest_ChainID req));
  currentState ← ask (λ a, Ok (default (Bytes.Join [Bytes.FromUint32 0; emptyHash])
                                 (Get (ah_stateDB a) (Bytes.Join [StateDBPrefixTreeState; []]))));
  heightBytes ← returns (slice currentState 0 4);
  currentHeight ← returns (Bytes.ToUint32 heightBytes);
  currentRoot ← returns (slice currentState 4 (len currentState));
  if currentHeight <? InitRequest_LastBlockHeight req then returns (Err (Errorf "invalid application state"))
  else
    '(_, currentRoot) ← revert_loop (Z.to_nat (currentHeight - InitRequest_LastBlockHeight req)) currentHeight currentRoot;
    if negb (bytes_equal currentRoot (InitRequest_LastStateRoot req)) then returns (Err (Errorf "invalid application state"))
    else mret ().

#[export] Instance handler_Application : Application ABIHandler := {
  app_InitStateMachine := InitStateMachine;
  app_InitGenesisState := handler_InitGenesisState;
  app_VerifyAssets := handler_VerifyAssets;
  app_BeforeTransactionsExecute := handler_BeforeTransactionsExecute;
  app_VerifyTransaction := handler_VerifyTransaction;
  app_ExecuteTransaction := handler_ExecuteTransaction;
  app_AfterTransactionsExecute := handler_AfterTransactionsExecute;
  app_Commit := handler_Commit;
  app_Revert := handler_Revert;
  app_Clear := handler_Clear;
}.

#[export] Instance handler_AssetInserter : AssetInserter ABIHandler := { app_InsertAssets := handler_InsertAssets }.
End handler.

(** ** application.go *)

(** The modules of the application and those of its state machine; a module
    that is refused stays in the first list. *)
Definition RegisterModule (module : AppModule) (app : list AppModule * list AppModule) : res () * (list AppModule * list AppModule) :=
  let '(modules, machine) := app in
  match AddModule module machine with
  | Ok machine => (Ok (), (modules ++ [module], machine))
  | Err e => (Err e, (modules ++ [module], machine))
  | Panic => (Panic, app)
  | OutOfFuel => (OutOfFuel, app)
  end.

Section genesis.
Context {S : Type} `{Pebble S} `{Norm, Hasher}.
Context (commit_order : cacheDB → list (bytes * cacheValue)) (modules : list AppModule).

(** [emptyDB] is a new database in memory. *)
Definition GenerateGenesisBlock (emptyDB : S) (height timestamp : Z) (previousBlockID : bytes) (assets : list BlockAsset) : res Block :=
  let '(diffStore, w) := new_database false StateDBPrefixState (mkWorld [] []) in
  let genesisBlock := NewGenesisBlock height timestamp previousBlockID assets in
  header ← deref_ptr (b_Header genesisBlock);
  let ctx := mkGenesisBlockProcessingContext header (b_Assets genesisBlock) in
  '(err, (w, eventLogger, setter)) ← ExecGenesis emptyDB emptyDB modules diffStore ctx (w, NewEventLogger height, newConsensusSetter);
  _ ← check_err err;
  o ← object_at diffStore w;
  let '(ops, _) := Database_Commit (o_db o) (commit_order (deref (w_heap w) (d_cache (o_db o)))) [] in
  stateBatch ← write_all ops (newStateBatch []);
  '(root, _) ← update_tree [] stateBatch emptyDB;
  let '(_, certificateThreshold, validators) := GetNextValidators setter in
  let hashingValidators := (λ val, mkhashValidator (LabiValidator_BLSKey val) (LabiValidator_BFTWeight val)) <$> validators in
  let validatorsHash := ComputeValidatorsHash hashingValidators certificateThreshold in
  eventRoot ← CalculateEventRoot (EventLogger_Events eventLogger);
  let h := header in
  Ok (mkBlock (Some (mkBlockHeader (bh_ID h) (bh_Version h) (bh_Timestamp h) (bh_Height h) (bh_PreviousBlockID h) (bh_GeneratorAddress h)
        (bh_TransactionRoot h) (bh_AssetRoot h) eventRoot root (bh_MaxHeightPrevoted h) (bh_MaxHeightGenerated h)
        (bh_ImpliesMaxPrevotes h) validatorsHash (bh_AggregateCommit h) (bh_Signature h)))
      (b_Transactions genesisBlock) (b_Assets genesisBlock)).
End genesis.
