(* ===== verification/FrameworkSpec.v ===== *)
(** * FrameworkSpec: the state of the application and its root

    The theory of Framework.v: committing a block writes what its execution saw
    and the tree of that state, whatever order the runtime visits the cache in;
    what reverting the block restores; and the start of the application. *)

From S2P Require Import Prelude Collection Codec CodecSpec Message Crypto BlockTypes Block DB DiffDB SMT SMTSpec SMTMap SMTUpdate.
From S2P Require Import Event LabiTypes Certificate DataAccess Commits Execute ExecuteSpec StateMachine StateMachineSpec Framework.

(** ** Batches as databases *)

Lemma JoinSize_exact n (s : list bytes) : Z.to_nat n = length (concat s) → Bytes.JoinSize n s = concat s.
Proof. intros E. unfold Bytes.JoinSize. by rewrite E, take_app_length. Qed.

Section batches.
Context {S : Type} `{PebbleLaws S}.

Lemma prefixedKey_app (b : batchDatabase S) k : prefixedKey b k = bd_prefix b ++ k.
Proof.
  unfold prefixedKey. rewrite JoinSize_exact; cbn [concat]; rewrite app_nil_r; [done|]. rewrite length_app. unfold len. lia.
Qed.

(** What the batch leaves in the database. *)
Definition bd_View (b : batchDatabase S) (k : bytes) : option bytes := p_get (Write (bd_batch b) (bd_database b)) (bd_prefix b ++ k).

Lemma update_prefixed (q k k' : bytes) v m : update (q ++ k) v m (q ++ k') = if bytes_equal k k' then v else m (q ++ k').
Proof. unfold update, bytes_equal. by rewrite (bool_decide_ext (q ++ k = q ++ k') (k = k')) by (split; [apply (inj _)|by intros ->]). Qed.

#[export] Instance batchdb_view : DBView (batchDatabase S).
Proof.
  refine {| db_View := bd_View |}; intros d k; intros; cbn; try done.
  - unfold bd_View. cbn [bd_batch bd_Set Batch_Set bd_database bd_prefix]. unfold Batch_Set.
    rewrite Write_app, prefixedKey_app. cbn [Write foldl]. rewrite apply_op_get. apply update_prefixed.
  - unfold bd_View. cbn [bd_batch bd_Del Batch_Del bd_database bd_prefix]. unfold Batch_Del.
    rewrite Write_app, prefixedKey_app. cbn [Write foldl]. rewrite apply_op_get. apply update_prefixed.
Defined.

(** Updating a tree adds operations under the prefix to the batch. *)
Record extends (b b' : batchDatabase S) : Prop := {
  ex_database : bd_database b' = bd_database b;
  ex_prefix : bd_prefix b' = bd_prefix b;
  ex_batch : ∃ ops, bd_batch b' = bd_batch b ++ ops ∧ ∀ op, op ∈ ops → ∃ k, op_key op = bd_prefix b ++ k;
}.

#[export] Instance extends_preorder : PreOrder extends.
Proof.
  split.
  - intros b. split; [done..|]. exists []. rewrite app_nil_r. split; [done|]. by intros op ?%not_elem_of_nil.
  - intros b1 b2 b3 [D12 P12 (o12 & E12 & K12)] [D23 P23 (o23 & E23 & K23)]. split; [congruence..|].
    exists (o12 ++ o23). rewrite E23, E12, app_assoc. split; [done|]. intros op [Ho|Ho]%elem_of_app; [by apply K12|].
    rewrite <-P12. by apply K23.
Qed.

Lemma Update_extends `{Hasher} t (b : batchDatabase S) keys values r t' b' : Update t b keys values = Ok (r, t', b') → extends b b'.
Proof.
  apply Update_rel; [apply _|intros k v d|intros k d]; (split; [done..|]); eexists; (split; [done|]);
    intros op ->%list_elem_of_singleton; exists k; apply prefixedKey_app.
Qed.
End batches.

(** ** Keys and values of the tree *)

Section tree_keys.
Context `{HashLaws}.

(** A key of the state: the prefix of the state, module, store, and the rest. *)
Definition state_key_ok (k : bytes) : Prop := ∃ x, k = 0 :: x ∧ (6 ≤ length x)%nat ∧ bytes_ok x.

Definition tree_key (k : bytes) : bytes := take 6 (drop 1 k) ++ Hash (drop 7 k).
Definition tree_value (v : option bytes) : bytes := match v with Some v => Hash v | None => emptyHash end.

Lemma stateTreeKeySize_38 : stateTreeKeySize = 38.
Proof using H0. unfold stateTreeKeySize. by rewrite hashSize_32. Qed.

Lemma slice_from (l : bytes) a : 0 ≤ a ≤ len l → slice l a (len l) = Ok (drop (Z.to_nat a) l).
Proof using.
  intros Ha. rewrite <-(take_drop (Z.to_nat a) l) at 1. set (x := take (Z.to_nat a) l). set (y := drop (Z.to_nat a) l).
  assert (len x = a) as Hx by (unfold x, len in *; rewrite length_take; lia).
  pose proof (slice_app_mid x y []) as E. rewrite app_nil_r, Hx in E. rewrite <-E. f_equal.
  rewrite <-Hx, <-len_app. unfold x, y. by rewrite take_drop.
Qed.

Lemma getTreeKey_ok k : state_key_ok k → getTreeKey k = Ok (tree_key k).
Proof using H0.
  intros (x & -> & Hx & _). unfold getTreeKey, tree_key. change (dbPrefixSize + prefixSize) with 7. change dbPrefixSize with 1.
  rewrite slice_from by (rewrite len_cons; unfold len; lia). change (Z.to_nat 7) with 7%nat. cbn [mbind res_bind].
  pose proof (slice_app_mid [0] (take 6 x) (drop 6 x)) as E. cbn [app] in E. rewrite take_drop in E.
  replace (len [0] + len (take 6 x)) with 7 in E by (unfold len; rewrite length_take; cbn [length]; lia). change (len [0]) with 1 in E.
  rewrite E. cbn [mbind res_bind drop]. rewrite JoinSize_exact; cbn [concat]; rewrite app_nil_r; [done|].
  pose proof (Hash_len (drop 6 x)) as Hl. unfold len, HashLengh in Hl. rewrite hashSize_32, length_app, length_take. unfold prefixSize, HashLengh. lia.
Qed.

Lemma tree_key_ok k : state_key_ok k → length (tree_key k) = 38%nat ∧ bytes_ok (tree_key k).
Proof using H0.
  intros (x & -> & Hx & Hb). unfold tree_key. pose proof (Hash_len (drop 7 (0 :: x))) as Hl. unfold len, HashLengh in Hl. split.
  - rewrite length_app, length_take. cbn [drop] in *. rewrite drop_0. lia.
  - apply Forall_app. split; [cbn; by apply Forall_take|apply Hash_ok].
Qed.

(** Keys with one key in the tree are equal unless what is hashed collides. *)
Lemma tree_key_inj ks k k' : collision_free (drop 7 <$> ks) → k ∈ ks → k' ∈ ks → state_key_ok k → state_key_ok k' →
  tree_key k = tree_key k' → k = k'.
Proof using H0.
  intros Hf Hk Hk' (x & -> & Hx & _) (x' & -> & Hx' & _). unfold tree_key. cbn [drop]. rewrite !drop_0. intros [E1 E2]%app_inj_1; [|rewrite !length_take; lia].
  assert (drop 6 x = drop 6 x') as E3.
  { apply (collision_free_eq _ _ _ Hf); [by apply (list_elem_of_fmap_2 (drop 7) _ (0 :: x))|by apply (list_elem_of_fmap_2 (drop 7) _ (0 :: x'))|done]. }
  f_equal. by rewrite <-(take_drop 6 x), <-(take_drop 6 x'), E1, E3.
Qed.

Lemma len_tree_value v : len (tree_value v) = HashLengh.
Proof using H0. destruct v; apply Hash_len. Qed.

(** Writing a batch of state keys. *)
Lemma write_all_ok ops b : (∀ op, op ∈ ops → state_key_ok (op_key op)) →
  write_all ops b = Ok (mkStateSMTBatch (sb_batch b ++ ops) (sb_keys b ++ (tree_key ∘ op_key <$> ops))
    (sb_values b ++ (tree_value ∘ op_val <$> ops))).
Proof using H0.
  revert b. induction ops as [|op ops IH]; intros b Hops; cbn [write_all].
  { rewrite !app_nil_r. by destruct b. }
  pose proof (Hops op (list_elem_of_here _ _)) as Hop.
  destruct op as [k v|k]; cbn [op_key] in Hop; [unfold sb_Set|unfold sb_Del]; rewrite (getTreeKey_ok k Hop); cbn [mbind res_bind];
    rewrite IH by (intros op' ?; apply Hops; by right); cbn [sb_batch sb_keys sb_values]; unfold Batch_Set, Batch_Del; by rewrite <-!app_assoc.
Qed.
End tree_keys.

(** ** The tree in the database *)

Section tree.
Context {S : Type} `{PebbleLaws S} `{HashLaws}.

(** The database holds the tree of [T] with this root. *)
Definition tree_rep (db : S) (root : bytes) (T : gmap bytes bytes) : Prop :=
  represents 38 (NewTrie root stateTreeKeySize) (NewWithPrefix db [] StateDBPrefixTree) T.

(** Whoever sees the same subtrees holds the same tree. *)
Lemma holds_ext (P Q : batchDatabase S → list tree → Prop) t t' b b' T :
  holds 38 P t b T → t_root t' = tree_hash (smt 38 T) → t_keyLength t' = t_keyLength t → t_subtreeHeight t' = t_subtreeHeight t →
  t_maxNumberOfNodes t' = t_maxNumberOfNodes t → t_hasher t' = t_hasher t → (∀ ts, P b ts → Q b' ts) → holds 38 Q t' b' T.
Proof using.
  intros [? ? ? ? ? ? Hs Hsub] Hr Hk Hh Hm Hha HPQ. split; try congruence; [done| |by apply HPQ].
  destruct Hs as [?|?]; [by left|right; by apply HPQ].
Qed.

Lemma update_tree_spec (db : S) root T sb : tree_rep db root T → length (sb_keys sb) = length (sb_values sb) →
  (∀ k, k ∈ sb_keys sb → length k = 38%nat ∧ bytes_ok k) → (∀ v, v ∈ sb_values sb → len v = HashLengh) →
  (∀ op, op ∈ sb_batch sb → head_in [0; 2] op) →
  let T' := apply (zip (sb_keys sb) (sb_values sb)) T in
  collision_free (preimage <$> hashed_trees 38 T T') →
  ∃ ops, update_tree root sb db = Ok (tree_hash (smt 38 T'), sb_batch sb ++ ops) ∧ (∀ op, op ∈ ops → head_in [1] op) ∧
    ∀ post, (∀ op, op ∈ post → head_in [3] op) → tree_rep (Write (sb_batch sb ++ ops ++ post) db) (tree_hash (smt 38 T')) T'.
Proof using H0 H2.
  intros Hrep Hlen Hk Hv Hops T' Hfree. unfold update_tree. set (b := NewWithPrefix db (sb_batch sb) StateDBPrefixTree).
  assert (represents 38 (NewTrie root stateTreeKeySize) b T) as Hb.
  { pose proof Hrep as [? ? ? ? ? Hroot ? ?]. eapply holds_ext; [exact Hrep|done..|]. intros ts Hp x Hx. destruct (Hp x Hx) as [Hvw Hg].
    split; [|done]. cbn [db_View batchdb_view] in *. unfold bd_View in *. cbn [b bd_batch bd_database bd_prefix NewWithPrefix] in *.
    cbn [StateDBPrefixTree app] in *. by rewrite (Write_other_head _ _ [0; 2]) by (done || set_solver). }
  destruct (Update_written 38 (NewTrie root stateTreeKeySize) b T (sb_keys sb) (sb_values sb) ltac:(lia) Hb Hlen Hk
    ltac:(intros v ?; right; by apply Hv) Hfree) as (t' & b' & E & Hw).
  destruct (Update_extends _ _ _ _ _ _ _ E) as [Ed Ep (ops & Eb & Hh)].
  exists ops. rewrite E. cbn [mbind res_bind]. rewrite Eb. split; [done|]. split.
  { intros op Ho. destruct (Hh op Ho) as [k Ek]. exists 1, k. split; [done|left]. }
  intros post Hpost. destruct Hw as [? ? ? ? HM Hroot Hs Hsub].
  eapply (holds_ext stored); [by split|..|].
  - cbn [NewTrie t_root]. rewrite len_tree_hash. done.
  - cbn. by rewrite stateTreeKeySize_38.
  - done.
  - done.
  - done.
  - intros ts Hst x Hx. specialize (Hst x Hx). cbn [db_View db_Get batchdb_view batchdb_db] in *. unfold bd_View, bd_Get in *.
    rewrite prefixedKey_app. cbn [NewWithPrefix bd_batch bd_database bd_prefix Write foldl] in *. unfold Get.
    rewrite Eb, Ed, Ep in Hst. cbn [b NewWithPrefix bd_batch bd_database bd_prefix StateDBPrefixTree app] in Hst |- *.
    rewrite app_assoc, Write_app, (Write_other_head post _ [3]) by (done || set_solver). done.
Qed.
End tree.

(** ** Batches of state keys *)

Section updates.
Context `{HashLaws}.

(** The entries of the tree that a batch changes. *)
Definition tree_updates (ops : Batch) : list (bytes * bytes) := (λ op, (tree_key (op_key op), tree_value (op_val op))) <$> ops.

Lemma tree_updates_zip ops : zip (tree_key ∘ op_key <$> ops) (tree_value ∘ op_val <$> ops) = tree_updates ops.
Proof using. induction ops as [|op ops IH]; [done|]. cbn. by rewrite IH. Qed.

Lemma tree_updates_keys ops : (tree_updates ops).*1 = tree_key ∘ op_key <$> ops.
Proof using. unfold tree_updates. by rewrite <-list_fmap_compose. Qed.

(** Distinct keys that do not collide stay distinct in the tree. *)
Lemma tree_updates_NoDup ks ops : collision_free (drop 7 <$> ks) → (∀ op, op ∈ ops → op_key op ∈ ks ∧ state_key_ok (op_key op)) →
  NoDup (op_key <$> ops) → NoDup (tree_updates ops).*1.
Proof using H0.
  intros Hf Hops Hnd. rewrite tree_updates_keys, list_fmap_compose. apply NoDup_fmap_2_strong; [|done].
  intros k k' (op & -> & Ho)%list_elem_of_fmap (op' & -> & Ho')%list_elem_of_fmap.
  destruct (Hops op Ho), (Hops op' Ho'). by apply (tree_key_inj ks).
Qed.

Lemma lookup_updated ops T op : NoDup (tree_updates ops).*1 → op ∈ ops →
  apply (tree_updates ops) T !! tree_key (op_key op) = Some (tree_value (op_val op)).
Proof using H0.
  intros Hnd Ho. rewrite lookup_apply. rewrite (elem_of_list_to_map_1 _ _ (tree_value (op_val op))); [|done|].
  - pose proof (len_tree_value (op_val op)) as Hl. cbn. by destruct (tree_value (op_val op)).
  - apply list_elem_of_fmap. by exists op.
Qed.

Lemma lookup_not_updated ops T tk : (∀ op, op ∈ ops → tree_key (op_key op) ≠ tk) → apply (tree_updates ops) T !! tk = T !! tk.
Proof using.
  intros Hne. rewrite lookup_apply, not_elem_of_list_to_map_1; [done|]. rewrite tree_updates_keys.
  intros (op & E & Ho)%list_elem_of_fmap. by apply (Hne op Ho).
Qed.
End updates.

(** The operations of a commit and of its reversal touch the same keys, each
    once. *)
Lemma entry_ops_keys order : op_key <$> (order ≫= entry_ops) `sublist_of` order.*1.
Proof.
  induction order as [|[k cv] order IH]; [done|]. cbn [mbind list_bind]. rewrite fmap_app, fmap_cons. cbn [fst].
  unfold entry_ops at 1. cbn [fst snd]. repeat case_match; cbn; by constructor.
Qed.

Lemma revert_ops_keys order : op_key <$> revert_ops order ≡ₚ op_key <$> (order ≫= entry_ops).
Proof.
  unfold revert_ops. rewrite !fmap_app, <-!list_fmap_compose. cbn [op_key compose].
  induction order as [|[k cv] order IH]; [done|]. cbn [mbind list_bind]. rewrite !fmap_app, <-IH. clear IH.
  unfold entry_ops, entry_added, entry_deleted, entry_updated. cbn [fst snd].
  destruct (cv_init cv); [destruct (cv_deleted cv); [|destruct (cv_dirty cv)]|]; cbn; try solve_Permutation.
Qed.

(** ** Commit and revert *)

Section commit.
Context {S : Type} `{PebbleLaws S} `{Norm} `{HashLaws}.
Context (commit_order : cacheDB → list (bytes * cacheValue)) (Horder : ∀ c, commit_order c ≡ₚ map_to_list c).
Context (modules : list AppModule).

(** The state of the application: the tree has the hash of every stored value,
    and the hash of the empty string or nothing where none is stored. *)
Record app_rep (db : S) (root : bytes) (T : gmap bytes bytes) : Prop := {
  ar_tree : tree_rep db root T;
  ar_keys : ∀ x v, p_get db (0 :: x) = Some v → state_key_ok (0 :: x);
  ar_values : ∀ k v, state_key_ok k → p_get db k = Some v → T !! tree_key k = Some (Hash v);
}.

(** The keys that occur: the stored ones and those of a cache. *)
Definition used_keys (db : S) (cm : cacheDB) : list bytes := (p_entries db).*1 ++ (map_to_list cm).*1.

Definition keys_ok (db : S) (cm : cacheDB) : Prop :=
  cache_ok db cm ∧ (∀ k, is_Some (cm !! k) → state_key_ok k) ∧ collision_free (drop 7 <$> used_keys db cm).

(** What a cache changes, and the tree after it. *)
Definition changes (cm : cacheDB) : Batch := map_to_list cm ≫= entry_ops.
Definition committed_tree (cm : cacheDB) (T : gmap bytes bytes) : gmap bytes bytes := apply (tree_updates (changes cm)) T.

Section cache.
Context (db : S) (cm : cacheDB) (Hkeys : keys_ok db cm).

Lemma order_NoDup (order : list (bytes * cacheValue)) : order ≡ₚ map_to_list cm → NoDup order.*1.
Proof using. intros ->. apply NoDup_fst_map_to_list. Qed.

Lemma ops_keys order op : order ≡ₚ map_to_list cm → op_key op ∈ op_key <$> (order ≫= entry_ops) →
  op_key op ∈ used_keys db cm ∧ state_key_ok (op_key op).
Proof using Hkeys.
  intros Ho Hop. eapply elem_of_sublist in Hop; [|apply entry_ops_keys]. apply list_elem_of_fmap in Hop as ([k cv] & -> & Hin). cbn [fst].
  rewrite Ho in Hin. split.
  - apply elem_of_app. right. apply list_elem_of_fmap. by exists (k, cv).
  - apply Hkeys. exists cv. by apply elem_of_map_to_list.
Qed.

Lemma updates_NoDup order ops : order ≡ₚ map_to_list cm → op_key <$> ops ≡ₚ op_key <$> (order ≫= entry_ops) → NoDup (tree_updates ops).*1.
Proof using H3 Hkeys.
  intros Ho Hops. eapply (tree_updates_NoDup (used_keys db cm)); [apply Hkeys| |].
  - intros op Hop. apply (ops_keys order op Ho). rewrite <-Hops. by apply list_elem_of_fmap_2.
  - rewrite Hops. eapply sublist_NoDup; [by eapply order_NoDup|apply entry_ops_keys].
Qed.

(** The order does not matter. *)
Lemma committed_tree_order order T : order ≡ₚ map_to_list cm → apply (tree_updates (order ≫= entry_ops)) T = committed_tree cm T.
Proof using H3 Hkeys.
  intros Ho. unfold committed_tree, changes. apply apply_perm.
  - by apply (updates_NoDup order).
  - unfold tree_updates. by rewrite Ho.
Qed.

(** An operation writes what readers of the cache see. *)
Lemma changes_val op : op ∈ changes cm → op_val op = view db cm (op_key op).
Proof using Hkeys.
  intros ([k cv] & Hop & Hin)%list_elem_of_bind. apply elem_of_map_to_list in Hin. destruct Hkeys as [Hok _].
  specialize (Hok k cv Hin). unfold entry_ok in Hok. unfold entry_ops in Hop. cbn [fst snd] in Hop. unfold view.
  destruct (cv_init cv); [destruct (cv_deleted cv) eqn:Ed; [|destruct (cv_dirty cv)]|];
    try (by apply not_elem_of_nil in Hop); apply list_elem_of_singleton in Hop; subst op; cbn [op_key op_val]; rewrite Hin.
  - by rewrite Ed.
  - by rewrite Ed.
  - destruct Hok as [_ Hd]. by rewrite Hd.
Qed.

Lemma not_changed k : k ∉ op_key <$> changes cm → view db cm k = p_get db k.
Proof using H0 Hkeys.
  intros Hk. rewrite <-(commit_view db cm (map_to_list cm)) by (done || apply Hkeys).
  apply Write_skip. intros op Hop <-. apply Hk. by apply list_elem_of_fmap_2.
Qed.

Lemma view_used k v : view db cm k = Some v → k ∈ used_keys db cm.
Proof using H0.
  unfold view, used_keys. rewrite elem_of_app. destruct (cm !! k) as [cv|] eqn:E.
  - intros _. right. apply list_elem_of_fmap. exists (k, cv). split; [done|]. by apply elem_of_map_to_list.
  - intros Hv. left. apply list_elem_of_fmap. exists (k, v). split; [done|]. by apply p_entries_get.
Qed.

(** The tree after a commit holds the state after it. *)
Lemma committed_values root T k v : app_rep db root T → state_key_ok k → view db cm k = Some v →
  committed_tree cm T !! tree_key k = Some (Hash v).
Proof using H0 H3 Hkeys.
  intros Hrep Hk Hv. destruct (decide (k ∈ op_key <$> changes cm)) as [Hin|Hn].
  - apply list_elem_of_fmap in Hin as (op & -> & Hop). unfold committed_tree. rewrite lookup_updated; [|by eapply updates_NoDup|done].
    by rewrite changes_val, Hv.
  - unfold committed_tree. rewrite lookup_not_updated.
    + eapply ar_values; [done..|]. by rewrite <-not_changed.
    + intros op Hop E. apply Hn. destruct (ops_keys (map_to_list cm) op) as [Hu Ho]; [done|by apply list_elem_of_fmap_2|].
      destruct Hkeys as (_ & _ & Hf). rewrite <-(tree_key_inj _ _ _ Hf Hu (view_used _ _ Hv) Ho Hk E). by apply list_elem_of_fmap_2.
Qed.
End cache.

(** The database after the commit of [cm] at [height]. *)
Record committed (db : S) (cm : cacheDB) (height : Z) (T : gmap bytes bytes) (db' : S) : Prop := {
  cd_state : ∀ x, p_get db' (0 :: x) = view db cm (0 :: x);
  cd_diff : p_get db' (state_diff_key height) = Some (Diff_Encode (c_commit (commit_order cm) []).2);
  cd_tree_state : p_get db' StateDBPrefixTreeState = Some (Bytes.FromUint32 height ++ tree_hash (smt 38 (committed_tree cm T)));
  cd_rep : app_rep db' (tree_hash (smt 38 (committed_tree cm T))) (committed_tree cm T);
}.

Lemma state_diff_key_cons height : state_diff_key height = 2 :: Bytes.FromUint32 height.
Proof using. unfold state_diff_key, Bytes.Join. cbn. by rewrite ?app_nil_r. Qed.

Lemma set_tree_state_app (db : S) height root batch :
  set_tree_state db height root batch = batch ++ [BSet [3] (Bytes.FromUint32 height ++ root)].
Proof using.
  unfold set_tree_state, bd_Set. cbn [bd_batch NewWithPrefix]. rewrite prefixedKey_app. unfold Batch_Set, Bytes.Join. cbn. by rewrite app_nil_r.
Qed.

(** The work of [Commit] before it looks at the request. *)
Lemma commit_effect (db : S) cm root T height : keys_ok db cm → app_rep db root T →
  let T' := committed_tree cm T in
  let '(ops, diff) := c_commit (commit_order cm) [] in
  collision_free (preimage <$> hashed_trees 38 T T') →
  ∃ sb batch, write_all ops (newStateBatch []) = Ok sb ∧
    update_tree root (mkStateSMTBatch (Batch_Set (state_diff_key height) (Diff_Encode diff) (sb_batch sb)) (sb_keys sb) (sb_values sb)) db
      = Ok (tree_hash (smt 38 T'), batch) ∧
    committed db cm height T (Write (set_tree_state db height (tree_hash (smt 38 T')) batch) db).
Proof using H0 H3 Horder.
  intros Hkeys Hrep T'. rewrite c_commit_spec. set (ops := commit_order cm ≫= entry_ops). set (diff := mkDiff _ _ _). intros Hfree.
  assert (∀ op, op ∈ ops → op_key op ∈ used_keys db cm ∧ state_key_ok (op_key op)) as Hops.
  { intros op Hop. apply (ops_keys db cm Hkeys (commit_order cm)); [apply Horder|]. by apply list_elem_of_fmap_2. }
  assert (apply (tree_updates ops) T = T') as ET by (by apply (committed_tree_order db cm Hkeys)).
  cbn [app]. rewrite write_all_ok by (intros; by apply Hops). cbn [sb_batch sb_keys sb_values newStateBatch app].
  set (sb0 := mkStateSMTBatch ops _ _). exists sb0.
  set (sb := mkStateSMTBatch (Batch_Set (state_diff_key height) (Diff_Encode diff) (sb_batch sb0)) (sb_keys sb0) (sb_values sb0)).
  destruct (update_tree_spec db root T sb) as (sops & E & Hs & Hpost).
  { apply Hrep. }
  { unfold sb, sb0; cbn [sb_keys sb_values]. by rewrite !length_fmap. }
  { intros k (op & -> & Hop)%list_elem_of_fmap. by apply tree_key_ok, Hops. }
  { intros v (op & -> & Hop)%list_elem_of_fmap. apply len_tree_value. }
  { unfold sb, sb0; cbn [sb_batch]. unfold Batch_Set. rewrite state_diff_key_cons. intros op [Hop| ->%list_elem_of_singleton]%elem_of_app.
    - destruct (Hops op Hop) as [_ (x & E & _)]. exists 0, x. split; [done|left].
    - eexists 2, _. split; [done|right; left]. }
  { unfold sb, sb0; cbn [sb_keys sb_values]. by rewrite tree_updates_zip, ET. }
  unfold sb, sb0 in E, Hpost; cbn [sb_keys sb_values] in E, Hpost. rewrite tree_updates_zip, ET in E, Hpost. exists (sb_batch sb ++ sops).
  split; [done|]. split; [exact E|]. rewrite set_tree_state_app, <-app_assoc. set (post := [BSet [3] _]).
  assert (∀ op, op ∈ post → head_in [3] op) as Hp by (intros op ->%list_elem_of_singleton; eexists 3, _; split; [done|left]).
  assert (∀ op, op ∈ sops ++ post → head_in [1; 3] op) as Hsp.
  { intros op [(y & x & ? & ?)%Hs|(y & x & ? & ?)%Hp]%elem_of_app; exists y, x; set_solver. }
  unfold sb, sb0 in *; cbn [sb_batch] in *. unfold Batch_Set in *. set (db' := Write _ db).
  assert (∀ x, p_get db' (0 :: x) = view db cm (0 :: x)) as Hstate.
  { intros x. unfold db'. rewrite Write_app, (Write_other_head _ _ [1; 3]) by (exact Hsp || set_solver).
    rewrite Write_app, (Write_other_head [BSet _ _] _ [2]).
    - apply commit_view; [apply Hkeys|apply Horder].
    - intros op ->%list_elem_of_singleton. rewrite state_diff_key_cons. eexists 2, _. split; [done|left].
    - set_solver. }
  split.
  - done.
  - unfold db'. rewrite Write_app, state_diff_key_cons, (Write_other_head _ _ [1; 3]) by (exact Hsp || set_solver).
    rewrite Write_app. cbn [Write foldl]. rewrite apply_op_get. unfold update, bytes_equal. cbn [op_key op_val].
    by rewrite bool_decide_true, c_commit_spec.
  - unfold db'. rewrite !Write_app. cbn [post Write foldl]. rewrite apply_op_get. unfold update, bytes_equal. by rewrite bool_decide_true.
  - split.
    + by apply (Hpost post).
    + intros x v. rewrite Hstate. unfold view. destruct (cm !! (0 :: x)) eqn:Ec; [|by apply Hrep]. intros _. apply Hkeys. by eexists.
    + intros k v Hk. pose proof Hk as (x & -> & _). rewrite Hstate. intros Hv. by eapply committed_values.
Qed.

(** *** Revert *)

(** The keys a cache adds, and the tree after its reversal: they keep an entry
    with the hash of the empty string. *)
Definition added_keys (cm : cacheDB) : list bytes := map_to_list cm ≫= entry_added.
Definition reverted_tree (cm : cacheDB) (T : gmap bytes bytes) : gmap bytes bytes := apply (tree_updates (BDel <$> added_keys cm)) T.

Lemma elem_of_added cm k : k ∈ added_keys cm ↔ ∃ cv, cm !! k = Some cv ∧ cv_init cv = None.
Proof using.
  unfold added_keys. rewrite list_elem_of_bind. unfold entry_added. split.
  - intros ([k' cv] & Hk & Hin%elem_of_map_to_list). cbn [fst snd] in Hk. destruct (cv_init cv) eqn:E; [by apply not_elem_of_nil in Hk|].
    apply list_elem_of_singleton in Hk as ->. by exists cv.
  - intros (cv & Hk & E). exists (k, cv). cbn [fst snd]. rewrite E. split; [left|]. by apply elem_of_map_to_list.
Qed.

Section revert.
Context (db : S) (cm : cacheDB) (Hkeys : keys_ok db cm).

(** Operations of the reversal: what was stored before. *)
Lemma revert_ops_val op : op ∈ revert_ops (commit_order cm) →
  op_val op = p_get db (op_key op) ∧ (op_key op ∈ added_keys cm ↔ op_val op = None) ∧
  op_key op ∈ used_keys db cm ∧ state_key_ok (op_key op).
Proof using H0 Hkeys Horder.
  intros Hop. assert (op_key op ∈ used_keys db cm ∧ state_key_ok (op_key op)) as [Hu Hok].
  { apply (ops_keys db cm Hkeys (commit_order cm)); [apply Horder|]. rewrite <-revert_ops_keys. by apply list_elem_of_fmap_2. }
  apply (elem_of_revert_ops cm) in Hop as (k & cv & Hcv & _ & ->); [|apply Horder]. destruct Hkeys as [Hc _]. specialize (Hc k cv Hcv).
  unfold entry_ok in Hc. rewrite elem_of_added. destruct (cv_init cv) as [i|] eqn:Ei; cbn [op_val op_key] in *.
  - destruct Hc as [Hc _]. split; [by rewrite Hc|]. split; [|done]. split; [|done]. intros (cv' & ? & ?). congruence.
  - destruct Hc as [Hc _]. split; [by rewrite Hc|]. split; [|done]. split; [done|]. intros _. by exists cv.
Qed.

Lemma added_revert_op k : k ∈ added_keys cm → BDel k ∈ revert_ops (commit_order cm).
Proof using Horder.
  intros (cv & Hcv & E)%elem_of_added. apply (elem_of_revert_ops cm); [apply Horder|]. exists k, cv. unfold entry_ops. cbn [fst snd]. by rewrite E.
Qed.

Lemma revert_updates_NoDup : NoDup (tree_updates (revert_ops (commit_order cm))).*1.
Proof using H3 Hkeys Horder. eapply (updates_NoDup db cm Hkeys (commit_order cm)); [apply Horder|apply revert_ops_keys]. Qed.

Lemma added_updates_NoDup : NoDup (tree_updates (BDel <$> added_keys cm)).*1.
Proof using H0 H3 Hkeys Horder.
  apply (tree_updates_NoDup (used_keys db cm)); [apply Hkeys| |].
  - intros op (k & -> & Hk)%list_elem_of_fmap. by destruct (revert_ops_val _ (added_revert_op k Hk)) as (_ & _ & ? & ?).
  - rewrite <-list_fmap_compose. cbn [compose op_key]. rewrite list_fmap_id.
    eapply sublist_NoDup; [apply (order_NoDup cm (map_to_list cm)); done|]. unfold added_keys. induction (map_to_list cm) as [|[k cv] l IH]; [done|].
    cbn [mbind list_bind]. unfold entry_added at 1. cbn [fst snd fmap list_fmap]. destruct (cv_init cv); cbn; by constructor.
Qed.

(** The tree after commit and reversal. *)
Lemma apply_revert_ops root T : app_rep db root T →
  apply (tree_updates (revert_ops (commit_order cm))) (committed_tree cm T) = reverted_tree cm T.
Proof using H0 H3 Hkeys Horder.
  intros Hrep. apply map_eq. intros tk.
  destruct (decide (tk ∈ (tree_updates (revert_ops (commit_order cm))).*1)) as [Hin|Hn].
  - rewrite tree_updates_keys in Hin. apply list_elem_of_fmap in Hin as (op & -> & Hop). cbn [compose].
    destruct (revert_ops_val op Hop) as (Hv & Hadd & Hu & Hok). rewrite lookup_updated by (done || apply revert_updates_NoDup).
    destruct (op_val op) as [i|] eqn:Eo.
    + unfold reverted_tree. rewrite lookup_not_updated; [symmetry; by apply (ar_values _ _ _ Hrep)|].
      intros op' (k & -> & Hk)%list_elem_of_fmap E. cbn [op_key] in E. pose proof (added_revert_op k Hk) as Hop'.
      destruct (revert_ops_val _ Hop') as (_ & _ & Hu' & Hok'). cbn [op_key] in Hu', Hok'.
      destruct Hkeys as (_ & _ & Hf). rewrite (tree_key_inj _ _ _ Hf Hu' Hu Hok' Hok E) in Hk. by apply Hadd in Hk.
    + symmetry. apply (lookup_updated (BDel <$> added_keys cm) T (BDel (op_key op))).
      * apply added_updates_NoDup.
      * apply list_elem_of_fmap_2. by apply Hadd.
  - rewrite tree_updates_keys in Hn. assert (∀ op, op_key op ∈ op_key <$> revert_ops (commit_order cm) → tree_key (op_key op) ≠ tk) as Hne.
    { intros op (op' & E & Hop')%list_elem_of_fmap <-. apply Hn, list_elem_of_fmap. exists op'. cbn. by rewrite E. }
    unfold committed_tree, reverted_tree. rewrite !lookup_not_updated; [done|..].
    + intros op (k & -> & Hk)%list_elem_of_fmap. apply (Hne (BDel k)). apply list_elem_of_fmap. exists (BDel k). split; [done|by apply added_revert_op].
    + intros op Hop. apply Hne. rewrite revert_ops_keys. unfold changes in Hop. rewrite (Horder cm). by apply list_elem_of_fmap_2.
    + intros op Hop. apply Hne. by apply list_elem_of_fmap_2.
Qed.

Lemma reverted_tree_same T : reverted_tree cm T = T ↔ Forall (λ k, T !! tree_key k = Some emptyHash) (added_keys cm).
Proof using H0 H3 Hkeys Horder.
  rewrite Forall_forall.
  assert (∀ k, k ∈ added_keys cm → reverted_tree cm T !! tree_key k = Some emptyHash) as Hadd.
  { intros k Hk. apply (lookup_updated (BDel <$> added_keys cm) T (BDel k) added_updates_NoDup). by apply list_elem_of_fmap_2. }
  split; [by intros <-|]. intros HT. apply map_eq. intros tk.
  destruct (decide (tk ∈ tree_key <$> added_keys cm)) as [(k & -> & Hk)%list_elem_of_fmap|Hn]; [by rewrite HT, Hadd|].
  apply lookup_not_updated. intros op (k & -> & Hk)%list_elem_of_fmap <-. apply Hn. by apply list_elem_of_fmap_2.
Qed.

(** The work of [revert] on the database of a commit. *)
Lemma revert_effect (db1 : S) root T height : app_rep db root T → committed db cm height T db1 →
  len (Diff_Encode (c_commit (commit_order cm) []).2) < 2 ^ 63 →
  let T2 := reverted_tree cm T in
  collision_free (preimage <$> hashed_trees 38 (committed_tree cm T) T2) →
  ∃ diff sb batch, Message_Decode (Diff_Encode (c_commit (commit_order cm) []).2) = Ok diff ∧
    write_all (RevertDiff [] diff) (newStateBatch []) = Ok sb ∧
    update_tree (tree_hash (smt 38 (committed_tree cm T))) sb db1 = Ok (tree_hash (smt 38 T2), batch) ∧
    ∀ h, let db2 := Write (set_tree_state db1 h (tree_hash (smt 38 T2)) batch) db1 in
      (∀ x, p_get db2 (0 :: x) = p_get db (0 :: x)) ∧ app_rep db2 (tree_hash (smt 38 T2)) T2.
Proof using H0 H3 Hkeys Horder.
  intros Hrep Hcom Hlen T2 Hfree. set (diff := (c_commit (commit_order cm) []).2) in *.
  assert (Message_Decode (Diff_Encode diff) = Ok diff) as Hdec.
  { assert (Diff_ok diff) as Hd by (split; apply Forall_true; done). exact (Message_Decode_Encode diff Hd Hlen). }
  assert (RevertDiff [] diff = revert_ops (commit_order cm)) as Hrev by apply RevertDiff_ops.
  exists diff. rewrite Hdec, Hrev, write_all_ok by (intros op Hop; by apply revert_ops_val). cbn [newStateBatch sb_batch sb_keys sb_values app].
  set (ops := revert_ops (commit_order cm)). set (sb := mkStateSMTBatch ops _ _).
  assert (apply (tree_updates ops) (committed_tree cm T) = T2) as ET by (by apply (apply_revert_ops root)).
  destruct (update_tree_spec db1 _ _ sb (ar_tree _ _ _ (cd_rep _ _ _ _ _ Hcom))) as (sops & E & Hs & Hpost).
  { unfold sb; cbn [sb_keys sb_values]. by rewrite !length_fmap. }
  { intros k (op & -> & Hop)%list_elem_of_fmap. by apply tree_key_ok, revert_ops_val. }
  { intros v (op & -> & Hop)%list_elem_of_fmap. apply len_tree_value. }
  { intros op Hop. destruct (revert_ops_val op Hop) as (_ & _ & _ & (x & E & _)). exists 0, x. split; [done|left]. }
  { unfold sb; cbn [sb_keys sb_values]. by rewrite tree_updates_zip, ET. }
  unfold sb in E, Hpost; cbn [sb_keys sb_values sb_batch] in E, Hpost. rewrite tree_updates_zip, ET in E, Hpost.
  exists sb, (ops ++ sops). split_and!; [done|done|exact E|]. intros h. rewrite set_tree_state_app, <-app_assoc. set (post := [BSet [3] _]).
  assert (∀ op, op ∈ post → head_in [3] op) as Hp by (intros op ->%list_elem_of_singleton; eexists 3, _; split; [done|left]).
  assert (∀ op, op ∈ sops ++ post → head_in [1; 3] op) as Hsp.
  { intros op [(y & x & ? & ?)%Hs|(y & x & ? & ?)%Hp]%elem_of_app; exists y, x; set_solver. }
  cbv zeta. set (db2 := Write _ db1).
  assert (∀ x, p_get db2 (0 :: x) = p_get db (0 :: x)) as Hstate.
  { intros x. unfold db2. rewrite Write_app, (Write_other_head _ _ [1; 3]) by (exact Hsp || set_solver).
    rewrite (Write_get ops db1 _ (p_get db (0 :: x))).
    - case_bool_decide as Hin; [done|]. rewrite (cd_state _ _ _ _ _ Hcom). apply (not_changed db cm Hkeys).
      unfold ops in Hin. by rewrite revert_ops_keys, (Horder cm) in Hin.
    - intros op Hop <-. by apply revert_ops_val. }
  split; [done|]. split.
  - by apply (Hpost post).
  - intros x v. rewrite Hstate. by apply Hrep.
  - intros k v Hk. pose proof Hk as (x & -> & _). rewrite Hstate. intros Hv.
    destruct (decide (tree_key (0 :: x) ∈ tree_key <$> added_keys cm)) as [Hin|Hn].
    + apply list_elem_of_fmap in Hin as (k & E' & Hadd). destruct (revert_ops_val _ (added_revert_op k Hadd)) as (Hkv & _ & Hu & Hok).
      cbn [op_key op_val] in *. destruct Hkeys as (_ & _ & Hf).
      assert (0 :: x ∈ used_keys db cm) as Hu' by (apply elem_of_app; left; apply list_elem_of_fmap; exists (0 :: x, v); split; [done|by apply p_entries_get]).
      rewrite <-(tree_key_inj _ _ _ Hf Hu' Hu Hk Hok E') in Hkv. congruence.
    + unfold T2, reverted_tree. rewrite lookup_not_updated; [by apply (ar_values _ _ _ Hrep)|].
      intros op (k & -> & Hadd)%list_elem_of_fmap E'. apply Hn. cbn [op_key] in E'. rewrite <-E'. by apply list_elem_of_fmap_2.
Qed.
End revert.


(** *** The methods of the handler *)

#[local] Opaque smt.

Abbreviation handler := (ABIHandler (S := S)).

Lemma method_bind_Ok {T U : Type} (m : method (S := S) T) (f : T → method U) (a : handler) x a1 : m a = (Ok x, a1) → mbind f m a = f x a1.
Proof using. unfold mbind, method_bind. by intros ->. Qed.

Lemma checkState_ok (a : handler) c id : ah_executionContext a = Some c → ec_id c = id → checkState id a = (Ok c, a).
Proof using. unfold checkState, ask. intros -> ->. unfold bytes_equal. by rewrite bool_decide_true. Qed.

Lemma handler_commit_store_ok (a : handler) ds cm : contents ds (ah_world a) = Some cm →
  handler_commit_store commit_order ds a = Ok (c_commit (commit_order cm) []).
Proof using.
  unfold contents, handler_commit_store, object_at. destruct (w_objects (ah_world a) !! ds); [|done]. cbn. by intros [= ->].
Qed.

(** C15: [Commit] writes what the execution saw and the tree of that state.  In the
    context of a block whose store reads as [cm], on a database with the tree of
    [T] under the root of the request, the root that [Commit] computes is that of
    [T] with the changes of [cm], whatever order the runtime visits the cache in.
    A request that expects another root is refused and changes nothing; a dry run
    returns the root and changes nothing; otherwise the database afterwards holds
    what the execution saw, its tree, the diff and the height with the root. *)
Theorem Commit_writes_state (a : handler) c cm req T :
  ah_executionContext a = Some c → ec_id c = CommitRequest_ContextID req → contents (ec_diffStore c) (ah_world a) = Some cm →
  keys_ok (ah_stateDB a) cm → app_rep (ah_stateDB a) (CommitRequest_StateRoot req) T →
  collision_free (preimage <$> hashed_trees 38 T (committed_tree cm T)) →
  let root := tree_hash (smt 38 (committed_tree cm T)) in
  let expected := CommitRequest_ExpectedStateRoot req in
  (expected ≠ [] → expected ≠ root → ∃ e, handler_Commit commit_order req a = (Err e, a)) ∧
  (expected = [] ∨ expected = root → ∃ db', committed (ah_stateDB a) cm (bh_Height (ec_header c)) T db' ∧
    handler_Commit commit_order req a = (Ok (mkCommitResponse root), if CommitRequest_DryRun req then a else set_ah_stateDB db' a)).
Proof using H0 H3 Horder.
  intros Hc Hid Hcm Hkeys Hrep Hfree root expected.
  pose proof (commit_effect (ah_stateDB a) cm _ T (bh_Height (ec_header c)) Hkeys Hrep) as Heff. cbv zeta in Heff.
  destruct (c_commit (commit_order cm) []) as [ops diff] eqn:Eops. destruct (Heff Hfree) as (sb & batch & Ew & Eu & Hcom).
  assert (handler_Commit commit_order req a =
    if (0 <? len expected) && negb (bytes_equal root expected)
    then (Err (Errorf "state root does not match with expected state root"), a)
    else (Ok (mkCommitResponse root), if CommitRequest_DryRun req then a
          else set_ah_stateDB (Write (set_tree_state (ah_stateDB a) (bh_Height (ec_header c)) root batch) (ah_stateDB a)) a)) as ->.
  { unfold handler_Commit. rewrite (method_bind_Ok _ _ _ c a) by (by apply checkState_ok).
    rewrite (method_bind_Ok _ _ _ (ops, diff) a) by (unfold ask; by rewrite (handler_commit_store_ok _ _ cm), Eops).
    rewrite (method_bind_Ok _ _ _ sb a) by (unfold returns; by rewrite Ew).
    rewrite (method_bind_Ok _ _ _ (root, batch) a) by (unfold ask; by rewrite Eu). fold expected.
    destruct ((0 <? len expected) && negb (bytes_equal root expected)); [done|]. by destruct (CommitRequest_DryRun req). }
  split.
  - intros Hne Hnr. destruct (Z.ltb_spec 0 (len expected)) as [|Hle]; [|destruct expected; [done|rewrite len_cons in Hle; pose proof (len_nonneg expected); lia]].
    unfold bytes_equal. rewrite bool_decide_false by done. by eexists.
  - intros He. eexists. split; [exact Hcom|]. destruct He as [->| ->]; [done|].
    unfold bytes_equal. by rewrite bool_decide_true, andb_false_r.
Qed.

(** The handler after [diffdb.New]. *)
Definition with_store (a : handler) : handler := (new_store false StateDBPrefixState a).2.

Lemma with_store_db (a : handler) : ah_stateDB (with_store a) = ah_stateDB a ∧ ah_executionContext (with_store a) = ah_executionContext a.
Proof using. done. Qed.

(** All of [revert] on the database of a commit. *)
Lemma revert_run (a : handler) (db : S) cm root T height expected : keys_ok db cm → app_rep db root T → committed db cm height T (ah_stateDB a) →
  len (Diff_Encode (c_commit (commit_order cm) []).2) < 2 ^ 63 →
  let T2 := reverted_tree cm T in let root2 := tree_hash (smt 38 T2) in
  collision_free (preimage <$> hashed_trees 38 (committed_tree cm T) T2) →
  ∃ db2 : Z → S, (∀ h, (∀ x, p_get (db2 h) (0 :: x) = p_get db (0 :: x)) ∧ app_rep (db2 h) root2 T2) ∧
    revert height (tree_hash (smt 38 (committed_tree cm T))) expected a =
      if (0 <? len expected) && negb (bytes_equal root2 expected)
      then (Err (Errorf "state root does not match with expected state root"), with_store a)
      else match ah_executionContext a with
           | Some c => (Ok root2, set_ah_stateDB (db2 (u32 (bh_Height (ec_header c) - 1))) (with_store a))
           | None => (Panic, with_store a)
           end.
Proof using H0 H3 Horder.
  intros Hkeys Hrep Hcom Hlen T2 root2 Hfree.
  destruct (revert_effect db cm Hkeys (ah_stateDB a) root T height Hrep Hcom Hlen Hfree) as (diff & sb & batch & Ed & Ew & Eu & Hdb2).
  exists (λ h, Write (set_tree_state (ah_stateDB a) h root2 batch) (ah_stateDB a)). split; [exact Hdb2|].
  unfold revert. rewrite (method_bind_Ok _ _ _ (Diff_Encode (c_commit (commit_order cm) []).2) a)
    by (unfold ask, Get; by rewrite (cd_diff _ _ _ _ _ Hcom)).
  rewrite (method_bind_Ok _ _ _ diff a) by (unfold returns; by rewrite Ed).
  rewrite (method_bind_Ok _ _ _ (length (w_objects (ah_world a))) (with_store a)) by done.
  rewrite (method_bind_Ok _ _ _ sb (with_store a)) by (unfold returns; by rewrite Ew).
  rewrite (method_bind_Ok _ _ _ (root2, batch) (with_store a)) by (unfold ask; destruct (with_store_db a) as [-> _]; by rewrite Eu).
  destruct ((0 <? len expected) && negb (bytes_equal root2 expected)); [done|].
  destruct (ah_executionContext a) as [c|] eqn:Ec; [|unfold mbind, method_bind, ask; destruct (with_store_db a) as [_ ->]; by rewrite Ec].
  rewrite (method_bind_Ok _ _ _ c (with_store a)) by (unfold ask; destruct (with_store_db a) as [_ ->]; by rewrite Ec). done.
Qed.

(** [Revert] on the database of a commit. *)
Lemma handler_Revert_result (a : handler) c (db : S) cm T req :
  ah_executionContext a = Some c → ec_id c = RevertRequest_ContextID req → keys_ok db cm →
  app_rep db (RevertRequest_ExpectedStateRoot req) T → RevertRequest_ExpectedStateRoot req = tree_hash (smt 38 T) →
  committed db cm (bh_Height (ec_header c)) T (ah_stateDB a) → RevertRequest_StateRoot req = tree_hash (smt 38 (committed_tree cm T)) →
  len (Diff_Encode (c_commit (commit_order cm) []).2) < 2 ^ 63 →
  collision_free (preimage <$> hashed_trees 38 (committed_tree cm T) (reverted_tree cm T) ++ hashed_trees 38 T (reverted_tree cm T)) →
  let '(r, a') := handler_Revert req a in
  if bool_decide (Forall (λ k, T !! tree_key k = Some emptyHash) (added_keys cm))
  then r = Ok (mkRevertResponse (RevertRequest_ExpectedStateRoot req)) ∧ app_rep (ah_stateDB a') (RevertRequest_ExpectedStateRoot req) T ∧
    ∀ x, p_get (ah_stateDB a') (0 :: x) = p_get db (0 :: x)
  else (∃ e, r = Err e) ∧ ah_stateDB a' = ah_stateDB a.
Proof using H0 H3 Horder.
  intros Hc Hid Hkeys Hrep Hexp Hcom Hroot Hlen Hfree.
  destruct (revert_run a db cm _ T (bh_Height (ec_header c)) (RevertRequest_ExpectedStateRoot req) Hkeys Hrep Hcom Hlen) as (db2 & Hdb2 & E).
  { eapply collision_free_subset; [|exact Hfree]. rewrite fmap_app. intros x Hx. apply elem_of_app. by left. }
  unfold handler_Revert. rewrite (method_bind_Ok _ _ _ c a) by (by apply checkState_ok). rewrite Hroot.
  assert (bytes_equal (tree_hash (smt 38 (reverted_tree cm T))) (RevertRequest_ExpectedStateRoot req)
    = bool_decide (Forall (λ k, T !! tree_key k = Some emptyHash) (added_keys cm))) as Heq.
  { unfold bytes_equal. apply bool_decide_ext. rewrite Hexp, <-(reverted_tree_same db cm Hkeys T). split; [|intros E'; rewrite E'; reflexivity].
    intros Et. symmetry. apply (smt_root_inj 38); [| | |symmetry; exact Et].
    - apply (rep_map _ _ _ _ _ (ar_tree _ _ _ Hrep)).
    - apply (rep_map _ _ _ _ _ (ar_tree _ _ _ (proj2 (Hdb2 0)))).
    - eapply collision_free_subset; [|exact Hfree]. rewrite fmap_app. intros x Hx. apply elem_of_app. by right. }
  rewrite Heq, Hc in E. assert (0 <? len (RevertRequest_ExpectedStateRoot req) = true) as Hl by (by rewrite Hexp, len_tree_hash).
  rewrite Hl in E. case_bool_decide as Hd; cbn [negb andb] in E.
  - rewrite (method_bind_Ok _ _ _ _ _ E). unfold mret, method_ret. apply (reverted_tree_same db cm Hkeys) in Hd.
    destruct (Hdb2 (u32 (bh_Height (ec_header c) - 1))) as [Hs Hr]. rewrite Hd in *. rewrite Hexp in *. done.
  - unfold mbind, method_bind. rewrite E. split; [by eexists|]. apply with_store_db.
Qed.

(** C16: [Revert] undoes [Commit] only for blocks that add no key.  On the database
    that the commit of [cm] has left, a request to revert that expects the root
    before the commit succeeds exactly when every key that [cm] added had an
    entry with the hash of the empty string in the tree before, as keys deleted
    earlier do; it then restores state, tree and root.  Otherwise, as for every
    key that is new, it returns an error and the database stays as it is: a
    deleted key is not removed from the tree. *)
Theorem Revert_undoes_Commit_iff (a : handler) c (db : S) cm T req :
  ah_executionContext a = Some c → ec_id c = RevertRequest_ContextID req → keys_ok db cm →
  app_rep db (RevertRequest_ExpectedStateRoot req) T → RevertRequest_ExpectedStateRoot req = tree_hash (smt 38 T) →
  committed db cm (bh_Height (ec_header c)) T (ah_stateDB a) → RevertRequest_StateRoot req = tree_hash (smt 38 (committed_tree cm T)) →
  len (Diff_Encode (c_commit (commit_order cm) []).2) < 2 ^ 63 →
  collision_free (preimage <$> hashed_trees 38 (committed_tree cm T) (reverted_tree cm T) ++ hashed_trees 38 T (reverted_tree cm T)) →
  let '(r, a') := handler_Revert req a in
  if bool_decide (Forall (λ k, T !! tree_key k = Some emptyHash) (added_keys cm))
  then r = Ok (mkRevertResponse (RevertRequest_ExpectedStateRoot req)) ∧ app_rep (ah_stateDB a') (RevertRequest_ExpectedStateRoot req) T ∧
    ∀ x, p_get (ah_stateDB a') (0 :: x) = p_get db (0 :: x)
  else (∃ e, r = Err e) ∧ ah_stateDB a' = ah_stateDB a.
Proof using H0 H3 Horder. apply handler_Revert_result. Qed.

(** The application cannot start below its own height.  [Init] is to revert
    blocks that the engine does not have, as after a crash between the commit of
    the application and that of the engine; it runs before any context exists
    and dereferences that context, so it panics after each commit above the
    height of the engine. *)
Theorem Init_panics_when_ahead (a : handler) (db : S) cm root T height req :
  ah_executionContext a = None → keys_ok db cm → app_rep db root T → committed db cm height T (ah_stateDB a) →
  len (Diff_Encode (c_commit (commit_order cm) []).2) < 2 ^ 63 → 0 ≤ height < 2 ^ 32 → InitRequest_LastBlockHeight req < height →
  collision_free (preimage <$> hashed_trees 38 (committed_tree cm T) (reverted_tree cm T)) →
  (handler_Init req a).1 = Panic.
Proof using H0 H3 Horder.
  intros Hc Hkeys Hrep Hcom Hlen Hh Hlt Hfree. set (a1 := set_ah_chainID (InitRequest_ChainID req) a).
  set (root1 := tree_hash (smt 38 (committed_tree cm T))).
  assert (Get (ah_stateDB a1) (Bytes.Join [StateDBPrefixTreeState; []]) = Some (Bytes.FromUint32 height ++ root1)) as Hstate
    by (cbn; apply (cd_tree_state _ _ _ _ _ Hcom)).
  unfold handler_Init. rewrite (method_bind_Ok _ _ _ () a1) by done.
  rewrite (method_bind_Ok _ _ _ (Bytes.FromUint32 height ++ root1) a1) by (unfold ask; by rewrite Hstate).
  assert (len (Bytes.FromUint32 height) = 4) as H4 by (unfold len, Bytes.FromUint32; by rewrite Bytes.length_be_put).
  destruct (slice_halves (Bytes.FromUint32 height) root1) as [E1 E2]. rewrite H4 in E1, E2.
  rewrite (method_bind_Ok _ _ _ (Bytes.FromUint32 height) a1) by (unfold returns; by rewrite E1).
  rewrite (method_bind_Ok _ _ _ height a1) by (unfold returns; by rewrite Bytes.ToUint32_FromUint32).
  rewrite (method_bind_Ok _ _ _ root1 a1) by (unfold returns; by rewrite E2).
  destruct (Z.ltb_spec height (InitRequest_LastBlockHeight req)); [lia|].
  destruct (Z.to_nat (height - InitRequest_LastBlockHeight req)) as [|n] eqn:En; [lia|]. cbn [revert_loop].
  destruct (revert_run a1 db cm root T height [] Hkeys Hrep Hcom Hlen Hfree) as (db2 & _ & E). cbn [len length Z.of_nat Z.ltb Z.compare andb] in E.
  change (ah_executionContext a1) with (ah_executionContext a) in E. rewrite Hc in E. unfold mbind, method_bind. fold root1 in E. by rewrite E.
Qed.
End commit.

Lemma tree_rep_empty {S : Type} `{PebbleLaws S} `{HashLaws} (db : S) root : root = [] ∨ root = emptyHash → tree_rep db root ∅.
Proof.
  intros Hroot. unfold tree_rep. rewrite stateTreeKeySize_38.
  assert (NewTrie root 38 = NewTrie [] 38) as ->; [|exact (represents_new 38 _)].
  destruct Hroot as [->| ->]; [done|]. unfold NewTrie. change emptyHash with (tree_hash Empty). by rewrite len_tree_hash.
Qed.

(** ** An application with two keys *)

Definition first_cache : cacheDB :=
  {[ [0; 1; 0; 0; 0; 0; 0; 7] := mkCacheValue None [1] false false; [0; 200; 0; 0; 0; 0; 0; 9] := mkCacheValue None [2] false false ]}.
Definition first_context : executionContext := mkExecutionContext [9] sample_header 0 0.
Definition first_handler : ABIHandler (S := gmap bytes bytes) :=
  mkABIHandler [] None ∅ ∅ (Some first_context) (mkWorld [first_cache] [mkObject false (mkDatabase [0] 1 0 ∅ 0)]).

Abbreviation first_tree := (committed_tree (H2 := toy_hash) first_cache ∅).
Abbreviation first_root := (tree_hash (H := toy_hash) (smt 38 first_tree)).

Lemma first_keys_ok : keys_ok (H2 := toy_hash) (∅ : gmap bytes bytes) first_cache.
Proof.
  split_and!.
  - intros k cv Hk. unfold first_cache in Hk. by apply lookup_insert_Some in Hk as [[<- <-]|[_ [<- <-]%lookup_singleton_Some]].
  - intros k [cv Hk]. unfold first_cache in Hk. apply lookup_insert_Some in Hk as [[<- _]|[_ [<- _]%lookup_singleton_Some]];
      (eexists; split; [done|]; split; [cbn; lia|by repeat constructor]).
  - apply collision_free_NoDup, (bool_decide_unpack _). by vm_compute.
Qed.

Lemma first_rep root : root = [] ∨ root = emptyHash (H := toy_hash) →
  app_rep (H2 := toy_hash) (∅ : gmap bytes bytes) root ∅.
Proof.
  intros Hroot. pose proof toy_hash_laws. split; [by apply tree_rep_empty|by intros x v Hv; cbn in Hv; rewrite lookup_empty in Hv|].
  by intros k v _ Hv; cbn in Hv; rewrite lookup_empty in Hv.
Qed.

Lemma first_free : collision_free (H := toy_hash) (preimage (H := toy_hash) <$> hashed_trees 38 ∅ first_tree).
Proof. apply collision_free_NoDup, (bool_decide_unpack _). by vm_compute. Qed.

Lemma first_committed : ∃ db : gmap bytes bytes, committed (H2 := toy_hash) map_to_list ∅ first_cache 5 ∅ db.
Proof.
  assert (HashLaws (H := toy_hash)) as HL by exact toy_hash_laws.
  pose proof (commit_effect (H2 := toy_hash) map_to_list (λ c, reflexivity _) ∅ first_cache [] ∅ 5 first_keys_ok (first_rep [] (or_introl eq_refl))) as E.
  cbv zeta in E. destruct (c_commit (map_to_list first_cache) []) as [ops diff]. destruct (E first_free) as (sb & batch & _ & _ & Hc). by eexists.
Qed.

Lemma Commit_writes_state_witness :
  ∃ db, committed (H2 := toy_hash) map_to_list ∅ first_cache 5 ∅ db ∧
    handler_Commit (H1 := toy_hash) map_to_list (mkCommitRequest [9] [] [] false) first_handler
      = (Ok (mkCommitResponse first_root), set_ah_stateDB db first_handler).
Proof.
  assert (HashLaws (H := toy_hash)) as HL by exact toy_hash_laws.
  destruct (Commit_writes_state (H2 := toy_hash) map_to_list (λ c, reflexivity _) first_handler first_context first_cache
    (mkCommitRequest [9] [] [] false) ∅ eq_refl eq_refl eq_refl first_keys_ok (first_rep [] (or_introl eq_refl)) first_free) as [_ Hok].
  destruct (Hok (or_introl eq_refl)) as (db & Hc & E). exists db. split; [exact Hc|exact E].
Defined.

Abbreviation second_handler db := (set_ah_stateDB db first_handler).

Lemma first_revert_free : collision_free (H := toy_hash) (preimage (H := toy_hash) <$>
  hashed_trees 38 first_tree (reverted_tree (H2 := toy_hash) first_cache ∅) ++ hashed_trees 38 ∅ (reverted_tree (H2 := toy_hash) first_cache ∅)).
Proof. apply collision_free_NoDup, (bool_decide_unpack _). by vm_compute. Qed.

Lemma first_diff_small : len (Diff_Encode (c_commit (map_to_list first_cache) []).2) < 2 ^ 63.
Proof. by vm_compute. Qed.

Lemma smt_empty_root : emptyHash (H := toy_hash) = tree_hash (H := toy_hash) (smt 38 ∅).
Proof. unfold smt. rewrite build_empty. reflexivity. Qed.

Lemma first_request_root : RevertRequest_StateRoot (mkRevertRequest [9] first_root (emptyHash (H := toy_hash))) = first_root.
Proof. cbn [RevertRequest_StateRoot]. reflexivity. Qed.

(** Two new keys: the block cannot be reverted. *)
Lemma Revert_undoes_Commit_iff_witness :
  ∃ (db : gmap bytes bytes) e, committed (H2 := toy_hash) map_to_list ∅ first_cache 5 ∅ db ∧
    (handler_Revert (H1 := toy_hash) (mkRevertRequest [9] first_root (emptyHash (H := toy_hash))) (second_handler db)).1 = Err e.
Proof.
  assert (HashLaws (H := toy_hash)) as HL by exact toy_hash_laws. destruct first_committed as [db Hc].
  pose proof (Revert_undoes_Commit_iff (H2 := toy_hash) map_to_list (λ c, reflexivity _) (second_handler db) first_context ∅ first_cache ∅
    (mkRevertRequest [9] first_root (emptyHash (H := toy_hash))) eq_refl eq_refl first_keys_ok (first_rep _ (or_intror eq_refl)) smt_empty_root Hc first_request_root
    first_diff_small first_revert_free) as E.
  destruct (handler_Revert _ _) as [r a'] eqn:Er. rewrite bool_decide_false in E.
  - destruct E as [[e ->] _]. exists db, e. split; [exact Hc|]. by rewrite Er.
  - intros HF. assert ([0; 1; 0; 0; 0; 0; 0; 7] ∈ added_keys first_cache) as Hin.
    { apply elem_of_added. exists (mkCacheValue None [1] false false). split; vm_compute; reflexivity. }
    rewrite Forall_forall in HF. specialize (HF _ Hin). by rewrite lookup_empty in HF.
Defined.

Lemma Init_panics_when_ahead_witness :
  ∃ db : gmap bytes bytes, committed (H2 := toy_hash) map_to_list ∅ first_cache 5 ∅ db ∧
    (handler_Init (H1 := toy_hash) (mkInitRequest [1] 4 (emptyHash (H := toy_hash))) (handler_Clear (second_handler db))).1 = Panic.
Proof.
  assert (HashLaws (H := toy_hash)) as HL by exact toy_hash_laws. destruct first_committed as [db Hc]. exists db. split; [exact Hc|].
  apply (Init_panics_when_ahead (H2 := toy_hash) map_to_list (λ c, reflexivity _) (handler_Clear (second_handler db)) ∅ first_cache [] ∅ 5
    (mkInitRequest [1] 4 (emptyHash (H := toy_hash))) eq_refl first_keys_ok (first_rep [] (or_introl eq_refl)) Hc first_diff_small);
    [lia|cbn; lia|].
  eapply collision_free_subset; [|exact first_revert_free]. rewrite fmap_app. intros x Hx. apply elem_of_app. by left.
Defined.
