(* ===== verification/AppChain.v ===== *)
(** * AppChain: the executer with the application of the framework

    The handler of Framework.v is an instance of the interface that the
    consensus executer calls; this file puts the two together. *)

From S2P Require Import Prelude Collection Codec CodecSpec Message Crypto BlockTypes Block DB DiffDB SMT SMTSpec SMTMap SMTUpdate.
From S2P Require Import Event LabiTypes Certificate DataAccess Commits Execute ExecuteSpec StateMachine StateMachineSpec Forge ForgeSpec.
From S2P Require Import Framework FrameworkSpec.

Section chain.
Context {S D : Type} `{PebbleLaws S} `{PebbleLaws D} `{Norm} `{HashLaws}.
Context (commit_order : cacheDB → list (bytes * cacheValue)) (Horder : ∀ c, commit_order c ≡ₚ map_to_list c).
Context (modules : list AppModule).

#[local] Instance framework_app : Application (ABIHandler (S := D)) := handler_Application commit_order modules.

Abbreviation app_node := (executer (S := S) (A := ABIHandler (S := D))).

(** A step that returns no result and leaves the chain alone. *)
Definition refuses {T : Type} (m : exec (S := S) (A := ABIHandler (S := D)) T) (s : app_node) : Prop :=
  (∀ x s', m s ≠ (Ok x, s')) ∧ x_chain (m s).2 = x_chain s.

Lemma refuses_bind {T U : Type} (m : exec T) (f : T → exec U) (s : app_node) :
  calm m → (∀ x s1, m s = (Ok x, s1) → refuses (f x) s1) → refuses (mbind f m) s.
Proof.
  intros Hm Hf. unfold refuses, mbind, exec_bind. specialize (Hm s). destruct (m s) as [[x|e| |] s1] eqn:E; try done.
  destruct (Hf x s1 eq_refl) as [Hn Hc]. split; [done|]. cbn [snd] in *. by rewrite Hc.
Qed.

Lemma refuses_first {T U : Type} (m : exec T) (f : T → exec U) (s : app_node) : refuses m s → refuses (mbind f m) s.
Proof.
  intros [Hn Hc]. unfold refuses, mbind, exec_bind. destruct (m s) as [[x|e| |] s1]; try done. by destruct (Hn x s1).
Qed.

Lemma refuses_deferred {T : Type} (m : exec T) (s : app_node) : refuses m s → refuses (deferred app_clear m) s.
Proof.
  intros [Hn Hc]. unfold refuses, deferred. destruct (m s) as [r s1] eqn:E. split; [|done]. intros x s' [= -> _]. by apply (Hn x s1).
Qed.

Lemma InitStateMachine_Ok (a : ABIHandler (S := D)) header : ah_executionContext a = None → ∃ c a',
  InitStateMachine (mkInitStateMachineRequest (Some header)) a = (Ok (mkInitStateMachineResponse (ec_id c)), a') ∧
  ah_executionContext a' = Some c ∧ ah_stateDB a' = ah_stateDB a ∧ bh_Height (ec_header c) = bh_Height header.
Proof.
  intros Hc. unfold InitStateMachine. rewrite (method_bind_Ok _ _ _ false a) by (unfold ask; by rewrite Hc).
  eexists (mkExecutionContext _ _ _ _), _. split; [reflexivity|]. done.
Qed.

(** C18: A block that adds state cannot be deleted.  If the block at the tip was
    committed by the application with a key that has no entry in the tree (or
    another one than a key deleted earlier), its header has the root after it and
    the header below the root before it, as [processValidated] has checked, then
    [deleteBlock] does not succeed and leaves the chain as it is:
    the node cannot leave that block any more, neither for a tie break nor for a
    synchronisation with a better chain. *)
Theorem deleteBlock_refused_after_addition block saveTemp (s : app_node) header prev (db : D) cm T k :
  header_of block = Ok header → da_GetBlockHeaderByHeight (dataAccess (x_chain s)) (u32 (bh_Height header - 1)) = Ok prev →
  ah_executionContext (x_app s) = None → keys_ok db cm → app_rep db (bh_StateRoot prev) T →
  committed commit_order db cm (bh_Height header) T (ah_stateDB (x_app s)) →
  bh_StateRoot prev = tree_hash (smt 38 T) → bh_StateRoot header = tree_hash (smt 38 (committed_tree cm T)) →
  len (Diff_Encode (c_commit (commit_order cm) []).2) < 2 ^ 63 →
  collision_free (preimage <$> hashed_trees 38 (committed_tree cm T) (reverted_tree cm T) ++ hashed_trees 38 T (reverted_tree cm T)) →
  k ∈ added_keys cm → T !! tree_key k ≠ Some emptyHash →
  refuses (deleteBlock block saveTemp) s.
Proof using All.
  intros Hh Hprev Hctx Hkeys Hrep Hcom Hr0 Hr1 Hlen Hfree Hadd Hnew. unfold deleteBlock.
  apply refuses_bind; [done|]. intros fin s1 [= _ <-]. apply refuses_bind; [done|]. rewrite Hh. intros h s1 [= <- <-].
  case_match; [done|]. apply refuses_bind; [done|]. unfold lift. rewrite Hprev. intros p s1 [= <- <-].
  apply refuses_bind; [done|]. unfold new_diffStore. destruct (New _ _) as [d hp]. intros d' s1 [= <- <-].
  apply refuses_bind; [apply calm_bind; [apply calm_call|intros; apply calm_ret]|]. intros abi s1 Eabi.
  unfold newBlockExecuteABI in Eabi. apply exec_bind_Ok in Eabi as (resp & s2 & Ecall & [= <- <-]).
  destruct (InitStateMachine_Ok (x_app s) header Hctx) as (c & a' & Einit & Hc & Hdb & Hht).
  unfold call in Ecall. cbn [x_app set_x_heap app_InitStateMachine framework_app handler_Application] in Ecall. rewrite Einit in Ecall.
  injection Ecall as <- <-. cbn [se_contextID InitStateMachineResponse_ContextID].
  apply refuses_deferred. apply refuses_bind; [done|]. intros bs s1 [= <- <-]. case_match; [|done].
  apply refuses_bind; [done|]. intros diff s1 Es. assert (s1 = set_x_app a' (set_x_heap hp s)) as -> by (unfold lift in Es; by injection Es).
  apply refuses_first. unfold stateReverter_Revert. apply refuses_first. unfold refuses, call. cbn [x_app set_x_app app_Revert framework_app handler_Application].
  pose proof (handler_Revert_result commit_order Horder a' c db cm T (mkRevertRequest (ec_id c) (bh_StateRoot header) (bh_StateRoot prev))) as E.
  cbn [RevertRequest_ContextID RevertRequest_StateRoot RevertRequest_ExpectedStateRoot] in E. rewrite Hdb, Hht in E.
  specialize (E Hc eq_refl Hkeys Hrep Hr0 Hcom Hr1 Hlen Hfree). destruct (handler_Revert _ _) as [r a2].
  rewrite bool_decide_false in E; [|intros HF; rewrite Forall_forall in HF; by apply Hnew, HF]. destruct E as [[e ->] _]. by split.
Qed.
End chain.

(** ** A chain of two blocks

    The second block is that of [first_cache], which adds two keys. *)

Definition empty_genesis : Block :=
  mkBlock (Some (mkBlockHeader [4] 0 0 4 (replicate 32 0) (replicate 20 0) [] [] [] (emptyHash (H := toy_hash)) 4 0 false [] None [])) [] [].
Definition adding_header : BlockHeader :=
  mkBlockHeader [5] 2 10 5 [4] (replicate 20 1) [] [] [] (tree_hash (H := toy_hash) (smt 38 (committed_tree (H2 := toy_hash) first_cache ∅)))
    4 0 false [] None [7].
Definition adding_block : Block := mkBlock (Some adding_header) [] [].

(** The chain after both, with the diff of the second. *)
Definition two_blocks : Chain (gmap bytes bytes) :=
  let add := AddBlock (H0 := ascii_norm) in
  (add (Batch_Set (diff_key 5) (Diff_Encode (mkDiff [] [] [])) []) adding_block [] 4 false
    (add [] empty_genesis [] 4 false (NewChain_Init [1] 100 515 (-1) empty_genesis ∅)).2).2.

Definition two_node (db : gmap bytes bytes) : executer (S := gmap bytes bytes) (A := ABIHandler (S := gmap bytes bytes)) :=
  mkExecuter two_blocks [] (handler_Clear (second_handler db)) NewPool false None [] [].

Lemma two_blocks_prev : da_GetBlockHeaderByHeight (H1 := toy_hash) (dataAccess two_blocks) (u32 (bh_Height adding_header - 1))
  = header_of empty_genesis.
Proof. vm_compute. reflexivity. Qed.

Lemma deleteBlock_refused_after_addition_witness :
  LastBlock two_blocks = Some adding_block ∧
  ∃ db : gmap bytes bytes, committed (H2 := toy_hash) map_to_list ∅ first_cache 5 ∅ db ∧
    refuses (deleteBlock (H0 := ascii_norm) (H1 := toy_hash) (H4 := framework_app (H3 := ascii_norm) (H4 := toy_hash) map_to_list []) adding_block false) (two_node db).
Proof.
  split; [vm_compute; reflexivity|].
  assert (HashLaws (H := toy_hash)) as HL by exact toy_hash_laws. destruct first_committed as [db Hc]. exists db. split; [exact Hc|].
  assert ([0; 1; 0; 0; 0; 0; 0; 7] ∈ added_keys first_cache) as Hin.
  { apply elem_of_added. exists (mkCacheValue None [1] false false). split; vm_compute; reflexivity. }
  destruct (b_Header empty_genesis) as [prev|] eqn:Ep; [|discriminate Ep].
  assert (bh_StateRoot prev = emptyHash (H := toy_hash)) as Hroot by (by injection Ep as <-).
  apply (deleteBlock_refused_after_addition (H3 := ascii_norm) (H4 := toy_hash) map_to_list (λ c, reflexivity _) [] adding_block false (two_node db) adding_header
    prev ∅ first_cache ∅ [0; 1; 0; 0; 0; 0; 0; 7] eq_refl).
  - cbn [x_chain two_node]. rewrite two_blocks_prev. unfold header_of. by rewrite Ep.
  - reflexivity.
  - exact first_keys_ok.
  - rewrite Hroot. exact (first_rep _ (or_intror eq_refl)).
  - exact Hc.
  - rewrite Hroot. exact smt_empty_root.
  - reflexivity.
  - exact first_diff_small.
  - exact first_revert_free.
  - exact Hin.
  - by rewrite lookup_empty.
Defined.
