(* ===== verification/P2P.v ===== *)
(** * P2P: penalties, rate limits and messages between peers

    pkg/p2p (conngater.go, peer.go, peerbook.go, ratelimit.go,
    message_protocol.go, discovery.go, gossipsub.go, msg_validator.go, p2p.go):
    what the node does with peers, over the operations of libp2p.  The functions
    take the time they read from the clock as an argument.  Waiting for responses
    is in P2PRequests.v. *)

From S2P Require Import Prelude Collection Codec CodecSpec Message Crypto BlockTypes Block NetTypes.

(** libp2p, multiaddr and net: addresses, IPs and peers. *)
Class Libp2p (Multiaddr IP : Type) := {
  ToIP : Multiaddr → res IP;
  IP_String : IP → bytes;
  ParseIP : bytes → option IP;
  Multiaddr_String : Multiaddr → bytes;
  NewMultiaddr : bytes → res Multiaddr;
  FirstComponent_Value : Multiaddr → bytes;
  AddrInfoFromP2pAddr : Multiaddr → res (bytes * list Multiaddr);
  PeerID_String : bytes → bytes;
  ClosePeer : bytes → res ();
}.

(** ** Text *)

(** [hex.EncodeToString] of the standard library. *)
Definition hex_digit (d : Z) : Z := if d <? 10 then 48 + d else 87 + d.
Definition Hex_String (b : bytes) : bytes := b ≫= λ x, [hex_digit (Z.shiftr x 4); hex_digit (Z.land x 15)].

(** "/lisk/message/req/", "/lisk/message/res/" and "/p2p/" *)
Definition req_path : bytes := [47; 108; 105; 115; 107; 47; 109; 101; 115; 115; 97; 103; 101; 47; 114; 101; 113; 47].
Definition res_path : bytes := [47; 108; 105; 115; 107; 47; 109; 101; 115; 115; 97; 103; 101; 47; 114; 101; 115; 47].
Definition p2p_path : bytes := [47; 112; 50; 112; 47].

Definition messageProtocolReqID (chainID version : bytes) : bytes := req_path ++ Hex_String chainID ++ [47] ++ version.
Definition messageProtocolResID (chainID version : bytes) : bytes := res_path ++ Hex_String chainID ++ [47] ++ version.

(** ** conngater.go *)

Definition MaxPenaltyScore : Z := 100.

Record peerInfo := mkPeerInfo {
  pi_score : Z;
  pi_expiration : Z;
}.

Definition newPeerInfo (expiration score : Z) : peerInfo := mkPeerInfo score expiration.

(** [cg_expiration] is the number of whole seconds of the duration. *)
Record connectionGater := mkConnectionGater {
  cg_peerScore : gmap bytes peerInfo;
  cg_blockedAddrs : gset bytes;
  cg_expiration : Z;
  cg_isStarted : bool;
}.

Definition newConnGater (expiration intervalCheck : Z) : res connectionGater :=
  if (expiration <=? 0) || (intervalCheck <=? 0) then Err (Errorf "invalid duration")
  else Ok (mkConnectionGater ∅ ∅ (expiration / 10 ^ 9) false).

Definition set_peerScore (ps : gmap bytes peerInfo) (cg : connectionGater) : connectionGater :=
  mkConnectionGater ps (cg_blockedAddrs cg) (cg_expiration cg) (cg_isStarted cg).
Definition set_blockedAddrs (b : gset bytes) (cg : connectionGater) : connectionGater :=
  mkConnectionGater (cg_peerScore cg) b (cg_expiration cg) (cg_isStarted cg).

Definition cg_start (cg : connectionGater) : connectionGater :=
  mkConnectionGater (cg_peerScore cg) (cg_blockedAddrs cg) (cg_expiration cg) true.

(** One tick of the goroutine of [start]. *)
Definition cg_tick (now : Z) (cg : connectionGater) : connectionGater :=
  set_peerScore (filter (λ '(_, info), ¬ (pi_expiration info ≠ -1 ∧ pi_expiration info < now)) (cg_peerScore cg)) cg.

(** The counters of a procedure, per peer. *)
Record rpcMessageCounter := mkRpcMessageCounter {
  mc_limit : Z;
  mc_penalty : Z;
  mc_counters : gmap bytes Z;
}.

Abbreviation rpcMessageCounters := (gmap bytes rpcMessageCounter).

Section gater.
Context {Multiaddr IP : Type} `{!Libp2p Multiaddr IP}.

(** The score of one IP, in the map. *)
Definition penalise (now expiration : Z) (key : bytes) (score : Z) (ps : gmap bytes peerInfo) : Z * gmap bytes peerInfo :=
  let '(newScore, ps) :=
    match ps !! key with
    | Some info => let newScore := i64 (pi_score info + score) in (newScore, <[key := mkPeerInfo newScore (pi_expiration info)]> ps)
    | None => (score, <[key := newPeerInfo (-1) score]> ps)
    end in
  if MaxPenaltyScore <=? newScore then
    let exTime := i64 (now + expiration) in
    (newScore, match ps !! key with
               | Some info => <[key := mkPeerInfo (pi_score info) exTime]> ps
               | None => <[key := newPeerInfo exTime 0]> ps
               end)
  else (newScore, ps).

Definition cg_addPenalty (now : Z) (addr : Multiaddr) (score : Z) (cg : connectionGater) : res Z * connectionGater :=
  if negb (cg_isStarted cg) then (Err (Errorf "failed to add new peer, start needs to be called first"), cg)
  else
    match ToIP addr with
    | Ok ip => let '(newScore, ps) := penalise now (cg_expiration cg) (IP_String ip) score (cg_peerScore cg) in (Ok newScore, set_peerScore ps cg)
    | Err e => (Err e, cg)
    | Panic => (Panic, cg)
    | OutOfFuel => (OutOfFuel, cg)
    end.

(** The maps are visited in any order. *)
Definition listBannedPeers (order : list (bytes * peerInfo)) : list (option IP) :=
  (λ p, ParseIP p.1) <$> filter (λ p, pi_expiration p.2 ≠ -1) order.
Definition listBlockedAddrs (order : list bytes) : list (option IP) := ParseIP <$> order.

Definition blockAddr (ip : IP) (cg : connectionGater) : connectionGater := set_blockedAddrs ({[IP_String ip]} ∪ cg_blockedAddrs cg) cg.
Definition unblockAddr (ip : IP) (cg : connectionGater) : connectionGater := set_blockedAddrs (cg_blockedAddrs cg ∖ {[IP_String ip]}) cg.

Fixpoint parse_IPs (bl : list bytes) : res (list IP) :=
  match bl with
  | [] => Ok []
  | ipStr :: bl =>
      match ParseIP ipStr with
      | None => Err (Errorf "IP is invalid")
      | Some ip => ips ← parse_IPs bl; Ok (ip :: ips)
      end
  end.

Definition optionWithBlacklist (bl : list bytes) (cg : connectionGater) : res () * connectionGater :=
  match parse_IPs bl with
  | Ok ips => (Ok (), foldl (λ cg ip, blockAddr ip cg) cg ips)
  | Err e => (Err e, cg)
  | Panic => (Panic, cg)
  | OutOfFuel => (OutOfFuel, cg)
  end.

(** Whether the IP is blocked or banned. *)
Definition ip_allowed (key : bytes) (cg : connectionGater) : bool :=
  let block := bool_decide (key ∈ cg_blockedAddrs cg) in
  negb block && negb (match cg_peerScore cg !! key with Some info => negb (pi_expiration info =? -1) | None => false end).

Definition isPeerConnectionAllowed (addr : Multiaddr) (cg : connectionGater) : bool :=
  match ToIP addr with Ok ip => ip_allowed (IP_String ip) cg | _ => true end.

Definition InterceptPeerDial (pid : bytes) (cg : connectionGater) : bool := true.
Definition InterceptAddrDial (pid : bytes) (addr : Multiaddr) (cg : connectionGater) : bool := isPeerConnectionAllowed addr cg.
Definition InterceptAccept (remote : Multiaddr) (cg : connectionGater) : bool := isPeerConnectionAllowed remote cg.
Definition InterceptSecured (outbound : bool) (pid : bytes) (remote : Multiaddr) (cg : connectionGater) : bool :=
  if outbound then true else isPeerConnectionAllowed remote cg.

(** ** peer.go, addr.go *)

Definition AddrInfoFromMultiAddr (s : bytes) : res (bytes * list Multiaddr) := addr ← NewMultiaddr s; AddrInfoFromP2pAddr addr.
Definition extractIP (address : Multiaddr) : bytes := FirstComponent_Value address.

(** [p_closed] are the peers whose connections the node has closed. *)
Record Peer := mkPeer {
  p_connGater : connectionGater;
  p_closed : list bytes;
}.

Definition set_connGater (cg : connectionGater) (p : Peer) : Peer := mkPeer cg (p_closed p).

Definition Disconnect (peer : bytes) (p : Peer) : res () * Peer :=
  match ClosePeer peer with
  | Ok () => (Ok (), mkPeer (p_connGater p) (p_closed p ++ [peer]))
  | Err e => (Err e, p)
  | Panic => (Panic, p)
  | OutOfFuel => (OutOfFuel, p)
  end.

(** Disconnects from the peer that the address names. *)
Definition disconnect_addr (addr : Multiaddr) (p : Peer) : res () * Peer :=
  match AddrInfoFromMultiAddr (Multiaddr_String addr) with
  | Ok (id, _) => Disconnect id p
  | Err e => (Err e, p)
  | Panic => (Panic, p)
  | OutOfFuel => (OutOfFuel, p)
  end.

Definition peer_addPenalty (now : Z) (addr : Multiaddr) (score : Z) (p : Peer) : res () * Peer :=
  let '(r, cg) := cg_addPenalty now addr score (p_connGater p) in
  let p := set_connGater cg p in
  match r with
  | Ok newScore => if MaxPenaltyScore <=? newScore then disconnect_addr addr p else (Ok (), p)
  | Err e => (Err e, p)
  | Panic => (Panic, p)
  | OutOfFuel => (OutOfFuel, p)
  end.

Definition banPeer (now : Z) (addr : Multiaddr) (p : Peer) : res () * Peer :=
  let '(r, cg) := cg_addPenalty now addr MaxPenaltyScore (p_connGater p) in
  let p := set_connGater cg p in
  match r with
  | Ok _ => disconnect_addr addr p
  | Err e => (Err e, p)
  | Panic => (Panic, p)
  | OutOfFuel => (OutOfFuel, p)
  end.

(** "<nil>", the text of a missing IP *)
Definition nil_text : bytes := [60; 110; 105; 108; 62].

(** [BlacklistedPeers] for one known peer: the first loop goes on with the next
    banned IP after a match, so a peer with two banned IPs is listed twice. *)
Definition has_IP (ip : option IP) (addrs : list Multiaddr) : bool :=
  existsb (λ addr, bytes_equal (extractIP addr) (match ip with Some ip => IP_String ip | None => nil_text end)) addrs.

Definition blacklist_entries (banned blocked : list (option IP)) (knownPeer : bytes * list Multiaddr) : list (bytes * list Multiaddr) :=
  let hits := filter (λ ip, has_IP ip knownPeer.2 = true) banned in
  if 0 <? len hits then (λ _, knownPeer) <$> hits
  else if existsb (λ ip, has_IP ip knownPeer.2) blocked then [knownPeer] else [].

Definition BlacklistedPeers (knownPeers : list (bytes * list Multiaddr)) (banned blocked : list (option IP)) : list (bytes * list Multiaddr) :=
  knownPeers ≫= blacklist_entries banned blocked.

(** The peers that [peerSource] sends, after the shuffle. *)
Definition peerSource {A : Type} (knownPeers : list A) (numPeers : Z) : res (list A) :=
  let numPeers := if len knownPeers <? numPeers then len knownPeers else numPeers in
  if numPeers <? 0 then Panic else Ok (reverse (take (Z.to_nat numPeers) knownPeers)).

(** ** peerbook.go *)

Record peerbook := mkPeerbook {
  pb_seedPeers : list (bytes * list Multiaddr);
  pb_fixedPeers : list (bytes * list Multiaddr);
  pb_permanentlyBlacklistedIPs : list bytes;
}.

Fixpoint addr_infos (addrs : list bytes) : res (list (bytes * list Multiaddr)) :=
  match addrs with
  | [] => Ok []
  | a :: addrs => info ← AddrInfoFromMultiAddr a; infos ← addr_infos addrs; Ok (info :: infos)
  end.

Definition newPeerbook (seedPeers fixedPeers blacklistedIPs : list bytes) : res peerbook :=
  seed ← addr_infos seedPeers;
  fixed ← addr_infos fixedPeers;
  Ok (mkPeerbook seed fixed blacklistedIPs).

Definition isIPIn (peers : list (bytes * list Multiaddr)) (ip : bytes) : bool :=
  existsb (λ peer, existsb (λ addr, bytes_equal ip (extractIP addr)) peer.2) peers.
Definition isIPInSeedPeers (pb : peerbook) (ip : bytes) : bool := isIPIn (pb_seedPeers pb) ip.
Definition isIPInFixedPeers (pb : peerbook) (ip : bytes) : bool := isIPIn (pb_fixedPeers pb) ip.
Definition isIPPermanentlyBlacklisted (pb : peerbook) (ip : bytes) : bool :=
  negb (Slices.FindIndex (pb_permanentlyBlacklistedIPs pb) (λ val, bytes_equal val ip) =? -1).

(** The text form of the stored ID is compared with the ID. *)
Definition isInSeedPeers (pb : peerbook) (pid : bytes) : bool :=
  negb (Slices.FindIndex (pb_seedPeers pb) (λ val, bytes_equal (PeerID_String val.1) pid) =? -1).
Definition isInFixedPeers (pb : peerbook) (pid : bytes) : bool :=
  negb (Slices.FindIndex (pb_fixedPeers pb) (λ val, bytes_equal (PeerID_String val.1) pid) =? -1).

(** ** p2p.go *)

(** [conns] are the remote addresses of the connections to the peer. *)
Fixpoint ApplyPenalty (now : Z) (pid : bytes) (score : Z) (conns : list Multiaddr) (p : Peer) : Peer :=
  match conns with
  | [] => p
  | c :: conns =>
      match NewMultiaddr (Multiaddr_String c ++ p2p_path ++ PeerID_String pid) with
      | Ok maddr => ApplyPenalty now pid score conns (peer_addPenalty now maddr score p).2
      | _ => p
      end
  end.

Fixpoint BanPeer (now : Z) (pid : bytes) (conns : list Multiaddr) (p : Peer) : Peer :=
  match conns with
  | [] => p
  | c :: conns =>
      match NewMultiaddr (Multiaddr_String c ++ p2p_path ++ PeerID_String pid) with
      | Ok maddr => BanPeer now pid conns (banPeer now maddr p).2
      | _ => p
      end
  end.

(** One tick of [connectionsHandler]; [shuffle] is the random order.  The check
    counts all connections, the one to drop is taken from those that are not to
    fixed peers. *)
Definition connectionsHandler_tick (fixedPeers : list bytes) (minNumOfConnections : Z) (allConns : list (Multiaddr * bytes))
    (shuffle : list (Multiaddr * bytes) → list (Multiaddr * bytes)) (p : Peer) : res () * Peer :=
  let conns := filter (λ c, Slices.FindIndex fixedPeers (λ peer, bytes_equal peer (Multiaddr_String c.1 ++ p2p_path ++ PeerID_String c.2)) = -1) allConns in
  if minNumOfConnections <? len allConns then
    match index (shuffle conns) 0 with
    | Ok c => (Ok (), (Disconnect c.2 p).2)
    | _ => (Panic, p)
    end
  else (Ok (), p).

(** ** discovery.go *)

(** [self] or a connected peer is skipped; [fuel] is [index]. *)
Fixpoint nextValidPeer (self : bytes) (connected : bytes → bool) (peers : list (bytes * list Multiaddr)) (index_ : nat) : res Z :=
  match index_ with
  | O => Ok (-1)
  | S i =>
      p ← index peers (Z.of_nat i);
      if bytes_equal p.1 self then nextValidPeer self connected peers i
      else if connected p.1 then nextValidPeer self connected peers i
      else Ok (Z.of_nat i)
  end.

(** The peers that [FindPeers] sends until it closes the channel. *)
Fixpoint find_peers (fuel : nat) (self : bytes) (connected : bytes → bool) (peers : list (bytes * list Multiaddr)) (peerIndex : nat)
    : res (list (bytes * list Multiaddr)) :=
  match fuel with
  | O => OutOfFuel
  | S fuel =>
      next ← nextValidPeer self connected peers peerIndex;
      if next =? -1 then Ok []
      else
        p ← index peers next;
        rest ← find_peers fuel self connected peers (Z.to_nat next);
        Ok (p :: rest)
  end.

Definition FindPeers (self : bytes) (connected : bytes → bool) (peers : list (bytes * list Multiaddr)) : res (list (bytes * list Multiaddr)) :=
  find_peers (S (length peers)) self connected peers (length peers).

(** ** ratelimit.go *)

Definition defaultRateLimit : Z := 100.
Definition defaultRateLimitPenalty : Z := 10.

Definition addRPCMessageCounter (rpcName : bytes) (rl : rpcMessageCounters) : res rpcMessageCounters :=
  match rl !! rpcName with
  | Some _ => Err (Errorf "rpcMessageCounter already exists")
  | None => Ok (<[rpcName := mkRpcMessageCounter defaultRateLimit defaultRateLimitPenalty ∅]> rl)
  end.

Definition WithRPCMessageCounter (limit penalty : Z) (name : bytes) (rl : rpcMessageCounters) : res rpcMessageCounters :=
  match rl !! name with
  | Some c => Ok (<[name := mkRpcMessageCounter limit penalty (mc_counters c)]> rl)
  | None => Panic
  end.

Definition count (peerID : bytes) (c : rpcMessageCounter) : Z := default 0 (mc_counters c !! peerID).
Definition set_count (peerID : bytes) (n : Z) (c : rpcMessageCounter) : rpcMessageCounter :=
  mkRpcMessageCounter (mc_limit c) (mc_penalty c) (<[peerID := n]> (mc_counters c)).

Definition increaseCounter (rpcName peerID : bytes) (rl : rpcMessageCounters) : res rpcMessageCounters :=
  match rl !! rpcName with
  | Some c => Ok (<[rpcName := set_count peerID (i64 (count peerID c + 1)) c]> rl)
  | None => Panic
  end.

(** The counter is reset only when the penalty was applied without an error. *)
Definition checkLimit (now : Z) (started : bool) (rpcName peerID : bytes) (peerAddr : Multiaddr) (rl : rpcMessageCounters) (p : Peer)
    : res () * rpcMessageCounters * Peer :=
  if negb started then (Err (Errorf "cannot check rate limits because rate limiter is not started"), rl, p)
  else
    match rl !! rpcName with
    | None => (Panic, rl, p)
    | Some c =>
        if mc_limit c <? count peerID c then
          match NewMultiaddr (Multiaddr_String peerAddr ++ p2p_path ++ PeerID_String peerID) with
          | Ok maddr =>
              let '(r, p) := peer_addPenalty now maddr (mc_penalty c) p in
              match r with
              | Ok () => (Ok (), <[rpcName := set_count peerID 0 c]> rl, p)
              | Err e => (Err e, rl, p)
              | Panic => (Panic, rl, p)
              | OutOfFuel => (OutOfFuel, rl, p)
              end
          | Err e => (Err e, rl, p)
          | Panic => (Panic, rl, p)
          | OutOfFuel => (OutOfFuel, rl, p)
          end
        else (Ok (), rl, p)
    end.

(** One tick of [rateLimiterHandler]. *)
Definition reset_counters (rl : rpcMessageCounters) : rpcMessageCounters :=
  (λ c, mkRpcMessageCounter (mc_limit c) (mc_penalty c) ∅) <$> rl.
End gater.

(** ** rpc.go *)

Record responseWriter := mkResponseWriter {
  rw_data : bytes;
  rw_err : option bytes;
}.

Definition rw_Write (data : bytes) (w : responseWriter) : responseWriter := mkResponseWriter data (rw_err w).
Definition rw_Error (err : bytes) (w : responseWriter) : responseWriter := mkResponseWriter (rw_data w) (Some err).

Record Response := mkResponse {
  r_timestamp : Z;
  r_peerID : bytes;
  r_data : bytes;
  r_err : option bytes;
}.

Definition NewResponse (timestamp : Z) (peerID data : bytes) (err : option bytes) : Response := mkResponse timestamp peerID data err.

(** ** message.go *)

Definition newRequestMessage (id : bytes) (now : Z) (peerID procedure data : bytes) : p2pRequest := mkp2pRequest now peerID id procedure data.

Definition newResponseMessage (now : Z) (reqMsgID procedure data : bytes) (err : option bytes) : responseMsg :=
  mkresponseMsg now [] reqMsgID procedure data (default [] err).

(** ** message_protocol.go *)

Section protocol.
Context {Multiaddr IP W : Type} `{!Libp2p Multiaddr IP} `{Norm}.

(** A handler changes the rest of the node, [W]. *)
Abbreviation RPCHandler := (p2pRequest → W → responseWriter * W).

(** [mp_sent] are the messages that were written to streams. *)
Record MessageProtocol := mkMessageProtocol {
  mp_started : bool;
  mp_rpcHandlers : gmap bytes RPCHandler;
  mp_rateLimit : rpcMessageCounters;
  mp_chainID : bytes;
  mp_version : bytes;
  mp_peer : Peer;
  mp_world : W;
  mp_sent : list (bytes * bytes * bytes);
}.

Definition set_mp_rateLimit (rl : rpcMessageCounters) (mp : MessageProtocol) : MessageProtocol :=
  mkMessageProtocol (mp_started mp) (mp_rpcHandlers mp) rl (mp_chainID mp) (mp_version mp) (mp_peer mp) (mp_world mp) (mp_sent mp).
Definition set_mp_peer (p : Peer) (mp : MessageProtocol) : MessageProtocol :=
  mkMessageProtocol (mp_started mp) (mp_rpcHandlers mp) (mp_rateLimit mp) (mp_chainID mp) (mp_version mp) p (mp_world mp) (mp_sent mp).
Definition set_mp_world (w : W) (mp : MessageProtocol) : MessageProtocol :=
  mkMessageProtocol (mp_started mp) (mp_rpcHandlers mp) (mp_rateLimit mp) (mp_chainID mp) (mp_version mp) (mp_peer mp) w (mp_sent mp).
Definition set_mp_sent (l : list (bytes * bytes * bytes)) (mp : MessageProtocol) : MessageProtocol :=
  mkMessageProtocol (mp_started mp) (mp_rpcHandlers mp) (mp_rateLimit mp) (mp_chainID mp) (mp_version mp) (mp_peer mp) (mp_world mp) l.
Definition set_mp_rpcHandlers (h : gmap bytes RPCHandler) (mp : MessageProtocol) : MessageProtocol :=
  mkMessageProtocol (mp_started mp) h (mp_rateLimit mp) (mp_chainID mp) (mp_version mp) (mp_peer mp) (mp_world mp) (mp_sent mp).

(** Options of [RegisterRPCHandler]. *)
Fixpoint apply_options (opts : list (bytes → rpcMessageCounters → res rpcMessageCounters)) (name : bytes) (rl : rpcMessageCounters)
    : res () * rpcMessageCounters :=
  match opts with
  | [] => (Ok (), rl)
  | opt :: opts =>
      match opt name rl with
      | Ok rl => apply_options opts name rl
      | Err e => (Err e, rl)
      | Panic => (Panic, rl)
      | OutOfFuel => (OutOfFuel, rl)
      end
  end.

Definition RegisterRPCHandler (name : bytes) (handler : RPCHandler) (opts : list (bytes → rpcMessageCounters → res rpcMessageCounters))
    (mp : MessageProtocol) : res () * MessageProtocol :=
  if mp_started mp then (Err (Errorf "cannot register RPC handler after MessageProtocol is started"), mp)
  else
    match mp_rpcHandlers mp !! name with
    | Some _ => (Err (Errorf "rpcHandler is already registered"), mp)
    | None =>
        let mp := set_mp_rpcHandlers (<[name := handler]> (mp_rpcHandlers mp)) mp in
        match addRPCMessageCounter name (mp_rateLimit mp) with
        | Ok rl => let '(r, rl) := apply_options opts name rl in (r, set_mp_rateLimit rl mp)
        | Err e => (Err e, mp)
        | Panic => (Panic, mp)
        | OutOfFuel => (OutOfFuel, mp)
        end
    end.

(** A stream takes the whole message ([Ok]) or fails. *)
Definition send (stream : res ()) (id pId data : bytes) (mp : MessageProtocol) : res () * MessageProtocol :=
  match stream with
  | Ok () => (Ok (), set_mp_sent (mp_sent mp ++ [(id, pId, data)]) mp)
  | Err e => (Err e, mp)
  | Panic => (Panic, mp)
  | OutOfFuel => (OutOfFuel, mp)
  end.

Definition respond (now : Z) (stream : res ()) (id reqMsgID procedure data : bytes) (err : option bytes) (mp : MessageProtocol)
    : res () * MessageProtocol :=
  let resMsg := newResponseMessage now reqMsgID procedure data err in
  send stream id (messageProtocolResID (mp_chainID mp) (mp_version mp)) (responseMsg_Encode resMsg) mp.

(** The sender is banned, errors are logged. *)
Definition ban_sender (now : Z) (addr : Multiaddr) (mp : MessageProtocol) : MessageProtocol :=
  set_mp_peer (banPeer now addr (mp_peer mp)).2 mp.

(** Counts a message and checks the limit: [true] when processing goes on. *)
Definition limit_message (now : Z) (procedure remoteID : bytes) (remoteAddr : Multiaddr) (mp : MessageProtocol) : res bool * MessageProtocol :=
  match increaseCounter procedure remoteID (mp_rateLimit mp) with
  | Ok rl =>
      let '(r, rl, p) := checkLimit now (mp_started mp) procedure remoteID remoteAddr rl (mp_peer mp) in
      let mp := set_mp_peer p (set_mp_rateLimit rl mp) in
      match r with Ok () => (Ok true, mp) | Err _ => (Ok false, mp) | Panic => (Panic, mp) | OutOfFuel => (OutOfFuel, mp) end
  | Err e => (Err e, mp)
  | Panic => (Panic, mp)
  | OutOfFuel => (OutOfFuel, mp)
  end.

(** [buf] is what was read from the stream; errors of the response are logged. *)
Definition onRequest (now : Z) (stream : res ()) (remoteID : bytes) (remoteAddr : Multiaddr) (buf : bytes) (mp : MessageProtocol)
    : res () * MessageProtocol :=
  match Message_Decode (A := p2pRequest) buf with
  | Ok msg =>
      let newMsg := newRequestMessage (p2pRequest_ID msg) now remoteID (p2pRequest_Procedure msg) (p2pRequest_Data msg) in
      match mp_rpcHandlers mp !! p2pRequest_Procedure newMsg with
      | None => (Ok (), ban_sender now remoteAddr mp)
      | Some handler =>
          let '(r, mp) := limit_message now (p2pRequest_Procedure newMsg) remoteID remoteAddr mp in
          match r with
          | Ok true =>
              let '(w, world) := handler newMsg (mp_world mp) in
              let mp := set_mp_world world mp in
              (Ok (), (respond now stream remoteID (p2pRequest_ID newMsg) (p2pRequest_Procedure newMsg) (rw_data w) (rw_err w) mp).2)
          | Ok false => (Ok (), mp)
          | Err e => (Err e, mp)
          | Panic => (Panic, mp)
          | OutOfFuel => (OutOfFuel, mp)
          end
      end
  | Err _ => (Ok (), ban_sender now remoteAddr mp)
  | Panic => (Panic, mp)
  | OutOfFuel => (OutOfFuel, mp)
  end.

(** [onResponse] up to the lock: the response to hand over, with its ID.  Which
    peer was asked is not compared with the sender. *)
Definition onResponse (now : Z) (remoteID : bytes) (remoteAddr : Multiaddr) (buf : bytes) (mp : MessageProtocol)
    : res (option (bytes * Response)) * MessageProtocol :=
  match Message_Decode (A := responseMsg) buf with
  | Ok newMsg =>
      match mp_rpcHandlers mp !! responseMsg_Procedure newMsg with
      | None => (Ok None, ban_sender now remoteAddr mp)
      | Some _ =>
          let '(r, mp) := limit_message now (responseMsg_Procedure newMsg) remoteID remoteAddr mp in
          match r with
          | Ok true =>
              let resError := if bytes_equal (responseMsg_Error newMsg) [] then None else Some (responseMsg_Error newMsg) in
              (Ok (Some (responseMsg_ID newMsg, NewResponse now remoteID (responseMsg_Data newMsg) resError)), mp)
          | Ok false => (Ok None, mp)
          | Err e => (Err e, mp)
          | Panic => (Panic, mp)
          | OutOfFuel => (OutOfFuel, mp)
          end
      end
  | Err _ => (Ok None, ban_sender now remoteAddr mp)
  | Panic => (Panic, mp)
  | OutOfFuel => (OutOfFuel, mp)
  end.
End protocol.

(** ** msg_validator.go, gossipsub.go *)

Definition ValidationAccept : Z := 0.
Definition ValidationReject : Z := 1.
Definition ValidationIgnore : Z := 2.

Section gossip.
Context `{Norm, Hasher} {W : Type}.

Definition newMessageValidator (mv : p2pMessage → W → Z * W) (data : bytes) (w : W) : Z * W :=
  match Message_Decode (A := p2pMessage) data with Ok msg => mv msg w | _ => (ValidationReject, w) end.

Definition getMessageID (data : bytes) : bytes := Hex_String (Hash data).

Definition formatTopic (chainID version name : bytes) : bytes := [47] ++ Hex_String chainID ++ [47] ++ version ++ [47] ++ name.

(** A handler gets the sender, the topic and the data. *)
Abbreviation EventHandler := (bytes → bytes → bytes → W → W).
Abbreviation Validator := (p2pMessage → W → Z * W).

(** [gs_topics] holds the joined topics; [gs_running] is that [ps] is not nil. *)
Record GossipSub := mkGossipSub {
  gs_running : bool;
  gs_topics : gmap bytes bool;
  gs_eventHandlers : gmap bytes EventHandler;
  gs_validatorHandlers : gmap bytes (option Validator);
  gs_chainID : bytes;
  gs_version : bytes;
}.

Definition RegisterEventHandler (name : bytes) (handler : EventHandler) (validator : option Validator) (gs : GossipSub) : res GossipSub :=
  if gs_running gs then Err (Errorf "gossipSub is running the action is not possible")
  else
    let formattedTopic := formatTopic (gs_chainID gs) (gs_version gs) name in
    match gs_eventHandlers gs !! formattedTopic with
    | Some _ => Err (Errorf "eventHandler is already registered")
    | None => Ok (mkGossipSub false (<[formattedTopic := false]> (gs_topics gs)) (<[formattedTopic := handler]> (gs_eventHandlers gs))
                    (<[formattedTopic := validator]> (gs_validatorHandlers gs)) (gs_chainID gs) (gs_version gs))
    end.

Definition set_topic_joined (t : bytes) (gs : GossipSub) : GossipSub :=
  mkGossipSub (gs_running gs) (<[t := true]> (gs_topics gs)) (gs_eventHandlers gs) (gs_validatorHandlers gs) (gs_chainID gs) (gs_version gs).

(** Joins the topics in the order of the map.  [join] is what libp2p answers when
    a topic is joined and subscribed to, [register] to a validator for it. *)
Fixpoint join_topics (join register : bytes → res ()) (order : list bytes) (gs : GossipSub) : res () * GossipSub :=
  match order with
  | [] => (Ok (), gs)
  | t :: order =>
      match join t with
      | Ok () =>
          let gs := set_topic_joined t gs in
          match (match gs_validatorHandlers gs !! t with Some (Some _) => register t | _ => Ok () end) with
          | Ok () => join_topics join register order gs
          | Err e => (Err e, gs)
          | Panic => (Panic, gs)
          | OutOfFuel => (OutOfFuel, gs)
          end
      | Err e => (Err e, gs)
      | Panic => (Panic, gs)
      | OutOfFuel => (OutOfFuel, gs)
      end
  end.

Definition createSubscriptionHandlers (join register : bytes → res ()) (order : list bytes) (gs : GossipSub) : res () * GossipSub :=
  if negb (gs_running gs) then (Err (Errorf "gossipSub is not running"), gs) else join_topics join register order gs.

(** What is published under which topic. *)
Definition gs_Publish (now : Z) (topicName data : bytes) (gs : GossipSub) : res (bytes * bytes) :=
  let topic := formatTopic (gs_chainID gs) (gs_version gs) topicName in
  match gs_topics gs !! topic with
  | Some true => Ok (topic, p2pMessage_Encode (mkp2pMessage now data))
  | _ => Err (Errorf "topic not found")
  end.

(** The loop of a subscription for one message. *)
Definition gs_receive (self topic receivedFrom data : bytes) (gs : GossipSub) (w : W) : W :=
  if bytes_equal receivedFrom self then w
  else
    match Message_Decode (A := p2pMessage) data with
    | Ok m =>
        match gs_eventHandlers gs !! topic with
        | Some handler => handler receivedFrom topic (p2pMessage_Data m) w
        | None => w
        end
    | _ => w
    end.
End gossip.
