(* ===== verification/P2PSpec.v ===== *)
(** * P2PSpec: bans and rate limits

    The theory of P2P.v: how long a ban lasts, after how many messages a peer is
    banned, and what the node does with a peer that sends malformed data. *)

From S2P Require Import Prelude Collection Codec CodecSpec Message Crypto BlockTypes Block NetTypes P2P.

Section bans.
Context {Multiaddr IP : Type} `{!Libp2p Multiaddr IP}.

(** What happens to the gater: a penalty, a tick, a blacklisted or released IP. *)
Inductive gater_op :=
| OpPenalty (now : Z) (addr : Multiaddr) (score : Z)
| OpTick (now : Z)
| OpBlock (ip : IP)
| OpUnblock (ip : IP).

Definition gater_step (op : gater_op) (cg : connectionGater) : connectionGater :=
  match op with
  | OpPenalty now addr score => (cg_addPenalty now addr score cg).2
  | OpTick now => cg_tick now cg
  | OpBlock ip => blockAddr ip cg
  | OpUnblock ip => unblockAddr ip cg
  end.

Definition gater_run (ops : list gater_op) (cg : connectionGater) : connectionGater := foldl (λ cg op, gater_step op cg) cg ops.

(** The clock of the operations shows times between [from] and [until]. *)
Definition op_between (from until : Z) (op : gater_op) : Prop :=
  match op with OpPenalty now _ _ | OpTick now => from ≤ now ≤ until | _ => True end.

(** The IP is banned at least until [t]. *)
Definition banned_until (t : Z) (key : bytes) (cg : connectionGater) : Prop :=
  ∃ info, cg_peerScore cg !! key = Some info ∧ t ≤ pi_expiration info.

Lemma banned_not_allowed t key cg : 0 ≤ t → banned_until t key cg → ip_allowed key cg = false.
Proof using.
  intros Ht (info & E & He). unfold ip_allowed. rewrite E. destruct (Z.eqb_spec (pi_expiration info) (-1)); [lia|]. apply andb_false_r.
Qed.

(** A penalty for one IP. *)
Lemma penalise_other now ex key score ps k : k ≠ key → (penalise now ex key score ps).2 !! k = ps !! k.
Proof using.
  intros Hk. unfold penalise. destruct (ps !! key); cbv zeta; case_match; cbn [snd]; rewrite ?lookup_insert_eq, ?lookup_insert_ne by done; done.
Qed.

Lemma penalise_same now ex key score ps : let '(newScore, ps') := penalise now ex key score ps in
  ∃ info', ps' !! key = Some info' ∧ pi_score info' = newScore ∧
    newScore = match ps !! key with Some info => i64 (pi_score info + score) | None => score end ∧
    pi_expiration info' = if MaxPenaltyScore <=? newScore then i64 (now + ex)
                          else match ps !! key with Some info => pi_expiration info | None => -1 end.
Proof using.
  unfold penalise. destruct (ps !! key) as [info|]; cbv zeta; destruct (MaxPenaltyScore <=? _) eqn:E; rewrite ?lookup_insert_eq;
    (eexists; split; [reflexivity|]); rewrite E; done.
Qed.

Lemma gater_step_banned t0 t key op cg : t = t0 + cg_expiration cg → 0 ≤ t < 2 ^ 62 → 0 ≤ cg_expiration cg < 2 ^ 62 → 
  op_between t0 t op → banned_until t key cg → banned_until t key (gater_step op cg) ∧ cg_expiration (gater_step op cg) = cg_expiration cg.
Proof using.
  intros Et Ht Hex Hop (info & E & He). destruct op as [now addr score|now|ip|ip]; cbn [gater_step op_between] in *; try (split; [by exists info|done]).
  - unfold cg_addPenalty. destruct (cg_isStarted cg); cbn [negb]; [|split; [by exists info|done]].
    destruct (ToIP addr) as [ip| | |]; cbn [snd]; try (split; [by exists info|done]).
    pose proof (penalise_same now (cg_expiration cg) (IP_String ip) score (cg_peerScore cg)) as Hs.
    pose proof (penalise_other now (cg_expiration cg) (IP_String ip) score (cg_peerScore cg) key) as Ho.
    destruct (penalise _ _ _ _ _) as [ns ps]. cbn [snd] in *. split; [|done]. unfold banned_until. cbn [cg_peerScore set_peerScore].
    destruct (decide (key = IP_String ip)) as [->|Hne]; [|rewrite Ho by done; by exists info].
    destruct Hs as (info' & E' & _ & _ & Hx). exists info'. split; [done|]. rewrite Hx, E.
    destruct (MaxPenaltyScore <=? ns); [|done]. rewrite i64_small by (unfold i64_ok; lia). lia.
  - split; [|done]. exists info. split; [|done]. cbn [cg_peerScore cg_tick set_peerScore]. apply map_lookup_filter_Some. split; [done|]. lia.
Qed.

(** C31: A ban lasts for its whole time.  When a penalty takes the score of an IP to
    the maximum, then no further penalties (also negative ones), ticks or changes
    of the blacklist before the ban expires let the peer connect; the first tick
    after the last expiration lets it connect again, with no score left. *)
Theorem ban_lasts now addr ip score cg newScore ops : cg_isStarted cg = true → ToIP addr = Ok ip → 0 ≤ now → 0 ≤ cg_expiration cg →
  now + cg_expiration cg < 2 ^ 62 → (cg_addPenalty now addr score cg).1 = Ok newScore → MaxPenaltyScore ≤ newScore →
  Forall (op_between now (now + cg_expiration cg)) ops →
  let cg' := gater_run ops (cg_addPenalty now addr score cg).2 in
  isPeerConnectionAllowed addr cg' = false ∧
  ∀ later info, cg_peerScore cg' !! IP_String ip = Some info → pi_expiration info < later → IP_String ip ∉ cg_blockedAddrs cg' →
    isPeerConnectionAllowed addr (cg_tick later cg') = true ∧ cg_peerScore (cg_tick later cg') !! IP_String ip = None.
Proof using.
  intros Hst Hip Hnow Hex Hsum Hr Hmax Hops cg'. set (t := now + cg_expiration cg).
  assert (banned_until t (IP_String ip) cg') as Hban.
  { assert (banned_until t (IP_String ip) (cg_addPenalty now addr score cg).2 ∧
      cg_expiration (cg_addPenalty now addr score cg).2 = cg_expiration cg) as [Hb He].
    { unfold cg_addPenalty in *. rewrite Hst, Hip in *. cbn [negb] in *.
      pose proof (penalise_same now (cg_expiration cg) (IP_String ip) score (cg_peerScore cg)) as Hs.
      destruct (penalise _ _ _ _ _) as [ns ps]. cbn [fst snd] in *. injection Hr as ->. destruct Hs as (info & E & _ & _ & Hx). split; [|done].
      exists info. split; [exact E|]. rewrite Hx. destruct (Z.leb_spec MaxPenaltyScore newScore); [|lia]. rewrite i64_small by (unfold i64_ok; lia). done. }
    unfold cg'. clear cg' Hr. revert Hb He. generalize (cg_addPenalty now addr score cg).2. induction Hops as [|op ops Hop Hops IH]; intros c Hb He; [done|].
    cbn [gater_run foldl]. destruct (gater_step_banned now t (IP_String ip) op c) as [Hb' He']; [by rewrite He|lia|lia|done|done|].
    apply IH; [done|congruence]. }
  unfold isPeerConnectionAllowed. rewrite Hip. split; [by apply (banned_not_allowed t); [lia|]|].
  intros later info E Hlt Hnb. assert (cg_peerScore (cg_tick later cg') !! IP_String ip = None) as Hnone.
  { cbn [cg_peerScore cg_tick set_peerScore]. apply map_lookup_filter_None. right. intros info' E'. rewrite E in E'. injection E' as <-. intros Hn. apply Hn.
    split; [|done]. destruct Hban as (info' & E' & He'). rewrite E in E'. injection E' as <-. lia. }
  split; [|done]. unfold ip_allowed. rewrite Hnone, bool_decide_false by exact Hnb. done.
Qed.
End bans.

(** ** Rate limits *)

Section limits.
Context {Multiaddr IP W : Type} `{!Libp2p Multiaddr IP} `{Norm}.
Abbreviation protocol := (MessageProtocol (W := W)).

(** Messages from one peer, with the time and the stream for the response. *)
Definition requests (remoteID : bytes) (remoteAddr : Multiaddr) (l : list (Z * res () * bytes)) (mp : protocol) : protocol :=
  foldl (λ mp '(now, stream, buf), (onRequest now stream remoteID remoteAddr buf mp).2) mp l.

(** A well-formed request for the procedure, at a time whose sum with the length
    of a ban is no overflow. *)
Definition request_for (proc : bytes) (ex : Z) (r : Z * res () * bytes) : Prop :=
  let '(now, _, buf) := r in 0 ≤ now ∧ now + ex < 2 ^ 63 ∧ ∃ msg, Message_Decode (A := p2pRequest) buf = Ok msg ∧ p2pRequest_Procedure msg = proc.

(** The addresses of the peer, as libp2p reads them. *)
Record peer_address (remoteID : bytes) (remoteAddr : Multiaddr) (ip : IP) : Prop := {
  pa_ip : ToIP remoteAddr = Ok ip;
  pa_full : ∃ maddr id addrs, NewMultiaddr (Multiaddr_String remoteAddr ++ p2p_path ++ PeerID_String remoteID) = Ok maddr ∧
    ToIP maddr = Ok ip ∧ AddrInfoFromMultiAddr (Multiaddr_String maddr) = Ok (id, addrs) ∧ ClosePeer id = Ok ();
}.

Section run.
Context (remoteID : bytes) (remoteAddr : Multiaddr) (ip : IP) (Haddr : peer_address remoteID remoteAddr ip).
Context (proc : bytes) (limit penalty ex : Z) (Hlimit : 0 ≤ limit < 2 ^ 62) (Hpenalty : 0 < penalty) (Hex : 0 ≤ ex).

(** After [n] messages. *)
Record limited (n : Z) (mp : protocol) : Prop := {
  ld_started : mp_started mp = true;
  ld_handler : is_Some (mp_rpcHandlers mp !! proc);
  ld_counter : ∃ c, mp_rateLimit mp !! proc = Some c ∧ mc_limit c = limit ∧ mc_penalty c = penalty ∧ count remoteID c = n mod (limit + 1);
  ld_gater : cg_isStarted (p_connGater (mp_peer mp)) = true ∧ cg_expiration (p_connGater (mp_peer mp)) = ex ∧
    IP_String ip ∉ cg_blockedAddrs (p_connGater (mp_peer mp));
  ld_score : let score := penalty * (n / (limit + 1)) in
    match cg_peerScore (p_connGater (mp_peer mp)) !! IP_String ip with
    | None => score = 0
    | Some info => pi_score info = score ∧ (pi_expiration info = -1 ↔ score < MaxPenaltyScore)
    end;
}.

Lemma limited_allowed n mp : limited n mp →
  isPeerConnectionAllowed remoteAddr (p_connGater (mp_peer mp)) = bool_decide (penalty * (n / (limit + 1)) < MaxPenaltyScore).
Proof using Haddr Hlimit.
  intros [_ _ _ (_ & _ & Hb) Hs]. unfold isPeerConnectionAllowed, ip_allowed. rewrite (pa_ip _ _ _ Haddr), bool_decide_false by done. cbn [negb andb].
  cbv zeta in Hs. destruct (cg_peerScore _ !! _) as [info|].
  - destruct Hs as [_ Hs]. destruct (Z.eqb_spec (pi_expiration info) (-1)) as [E|E]; cbn [negb]; symmetry; [apply bool_decide_eq_true|apply bool_decide_eq_false]; tauto.
  - rewrite Hs. done.
Qed.

(** The arithmetic of one message. *)
Lemma next_message n : 0 ≤ n →
  (n mod (limit + 1) = limit ∧ (n + 1) mod (limit + 1) = 0 ∧ (n + 1) / (limit + 1) = n / (limit + 1) + 1) ∨
  (n mod (limit + 1) < limit ∧ (n + 1) mod (limit + 1) = n mod (limit + 1) + 1 ∧ (n + 1) / (limit + 1) = n / (limit + 1)).
Proof using Hlimit.
  intros Hn. pose proof (Z.mod_pos_bound n (limit + 1) ltac:(lia)). pose proof (Z.div_mod n (limit + 1) ltac:(lia)).
  destruct (Z.eq_dec (n mod (limit + 1)) limit); [left|right]; (split; [lia|]).
  - symmetry in H1. split; [symmetry; apply (Z.mod_unique_pos _ _ (n / (limit + 1) + 1)); lia|symmetry; apply (Z.div_unique_pos _ _ _ 0); lia].
  - split; [symmetry; apply (Z.mod_unique_pos _ _ (n / (limit + 1))); lia|symmetry; apply (Z.div_unique_pos _ _ _ (n mod (limit + 1) + 1)); lia].
Qed.

(** A penalty for the peer. *)
Lemma peer_addPenalty_ok now maddr id addrs score p : cg_isStarted (p_connGater p) = true → ToIP maddr = Ok ip →
  AddrInfoFromMultiAddr (Multiaddr_String maddr) = Ok (id, addrs) → ClosePeer id = Ok () →
  ∃ p', peer_addPenalty now maddr score p = (Ok (), p') ∧ p_connGater p' =
    set_peerScore (penalise now (cg_expiration (p_connGater p)) (IP_String ip) score (cg_peerScore (p_connGater p))).2 (p_connGater p).
Proof using.
  intros Hst Hip Hinfo Hclose. unfold peer_addPenalty, cg_addPenalty. rewrite Hst, Hip. cbn [negb]. destruct (penalise _ _ _ _ _) as [ns ps]. cbn [snd].
  destruct (MaxPenaltyScore <=? ns); [|by eexists]. unfold disconnect_addr, Disconnect. rewrite Hinfo, Hclose. by eexists.
Qed.

Lemma limited_message n now mp : limited n mp → 0 ≤ n → penalty * (n + 1) < 2 ^ 62 → 0 ≤ now → now + ex < 2 ^ 63 →
  ∃ mp', limit_message now proc remoteID remoteAddr mp = (Ok true, mp') ∧ limited (n + 1) mp'.
Proof using Haddr Hlimit Hpenalty Hex.
  intros [Hst Hh (c & Ec & Hl & Hp & Hcnt) (Hg1 & Hg2 & Hg3) Hs] Hn Hov Hnow Hsum. cbv zeta in Hs.
  pose proof (Z.mod_pos_bound n (limit + 1) ltac:(lia)) as Hk. set (c1 := set_count remoteID (i64 (count remoteID c + 1)) c).
  assert (count remoteID c1 = n mod (limit + 1) + 1) as Hc1.
  { unfold c1, count, set_count. cbn [mc_counters]. rewrite lookup_insert_eq. cbn [default from_option]. fold (count remoteID c).
    rewrite Hcnt. apply i64_small. unfold i64_ok. lia. }
  unfold limit_message, increaseCounter. rewrite Ec. fold c1. unfold checkLimit. rewrite Hst, lookup_insert_eq. cbn [negb].
  change (mc_limit c1) with (mc_limit c). change (mc_penalty c1) with (mc_penalty c). rewrite Hl, Hp, Hc1.
  destruct (next_message n Hn) as [(Hm & Em & Ed)|(Hm & Em & Ed)].
  - destruct (Z.ltb_spec limit (n mod (limit + 1) + 1)); [|lia].
    destruct (pa_full _ _ _ Haddr) as (maddr & id & addrs & -> & Hip & Hinfo & Hclose).
    destruct (peer_addPenalty_ok now maddr id addrs penalty (mp_peer mp) Hg1 Hip Hinfo Hclose) as (p' & -> & Hp').
    eexists. split; [reflexivity|]. split; cbn [mp_started mp_rpcHandlers mp_rateLimit mp_peer set_mp_peer set_mp_rateLimit]; try done.
    + eexists. split; [apply lookup_insert_eq|]. cbn. split; [done|]. split; [done|]. unfold count. cbn. by rewrite lookup_insert_eq, Em.
    + by rewrite Hp'.
    + cbv zeta. rewrite Hp', Ed. cbn [cg_peerScore set_peerScore].
      pose proof (penalise_same now (cg_expiration (p_connGater (mp_peer mp))) (IP_String ip) penalty (cg_peerScore (p_connGater (mp_peer mp)))) as Hpen.
      destruct (penalise _ _ _ _ _) as [ns ps]. destruct Hpen as (info' & E' & Hsc & Hns & Hx). cbn [snd]. rewrite E'.
      assert (0 ≤ n / (limit + 1) ≤ n) as Hd by (split; [apply Z.div_pos; lia|apply Z.div_le_upper_bound; nia]).
      assert (ns = penalty * (n / (limit + 1) + 1)) as Hns'.
      { rewrite Hns. destruct (cg_peerScore _ !! _) as [info|]; [|nia]. destruct Hs as [-> _]. rewrite i64_small by (unfold i64_ok; nia). lia. }
      split; [congruence|]. rewrite Hx, <-Hns', Hg2. destruct (Z.leb_spec MaxPenaltyScore ns).
      * rewrite i64_small by (unfold i64_ok; lia). lia.
      * destruct (cg_peerScore _ !! _) as [info|]; [|tauto]. destruct Hs as [_ Hs]. unfold MaxPenaltyScore in *. split; [done|]. intros _. apply Hs. nia.
  - destruct (Z.ltb_spec limit (n mod (limit + 1) + 1)); [lia|]. eexists. split; [reflexivity|].
    split; cbn [mp_started mp_rpcHandlers mp_rateLimit mp_peer set_mp_peer set_mp_rateLimit]; try done.
    + eexists. split; [apply lookup_insert_eq|]. cbn. split; [done|]. split; [done|]. by rewrite Hc1, Em.
    + cbv zeta. by rewrite Ed.
Qed.

Lemma limited_request n r mp : limited n mp → 0 ≤ n → penalty * (n + 1) < 2 ^ 62 → request_for proc ex r →
  let '(now, stream, buf) := r in
  ∃ mp', onRequest now stream remoteID remoteAddr buf mp = (Ok (), mp') ∧ limited (n + 1) mp'.
Proof using Haddr Hlimit Hpenalty Hex.
  destruct r as [[now stream] buf]. intros Hl Hn Hov (Hnow & Hsum & msg & Em & Ep). unfold onRequest. rewrite Em. cbn [newRequestMessage p2pRequest_Procedure].
  rewrite Ep. destruct (ld_handler _ _ Hl) as [h ->]. destruct (limited_message n now mp Hl Hn Hov Hnow Hsum) as (mp1 & -> & Hl1).
  destruct (h _ _) as [w world]. eexists. split; [reflexivity|]. destruct Hl1. unfold respond, send. destruct stream as [[]| | |]; by split.
Qed.

(** C32: The rate limit bans a peer after exactly so many messages.  When a peer sends
    [n] well-formed requests for one procedure without a reset of the counters in
    between, each [limit + 1] of them cost the penalty, and the peer may connect
    exactly while the penalties are below the maximum. *)
Theorem rate_limit_bans l mp : limited 0 mp → Forall (request_for proc ex) l → penalty * len l < 2 ^ 62 →
  isPeerConnectionAllowed remoteAddr (p_connGater (mp_peer (requests remoteID remoteAddr l mp)))
    = bool_decide (penalty * (len l / (limit + 1)) < MaxPenaltyScore).
Proof using Haddr Hlimit Hpenalty Hex.
  intros Hl Hr Hov. apply limited_allowed. revert Hr Hov. induction l as [|r l IH] using rev_ind; intros Hr Hov; [done|].
  apply Forall_app in Hr as [Hr Hr1]. inversion_clear Hr1. assert (len (l ++ [r]) = len l + 1) as Hlen by (rewrite len_app; done). rewrite Hlen in Hov |- *.
  pose proof (len_nonneg l). unfold requests. rewrite foldl_app. cbn [foldl]. fold (requests remoteID remoteAddr l mp).
  pose proof (limited_request (len l) r (requests remoteID remoteAddr l mp) (IH Hr ltac:(nia)) ltac:(lia) Hov ltac:(done)) as E.
  destruct r as [[now stream] buf]. destruct E as (mp' & -> & Hl'). done.
Qed.
End run.
End limits.

(** ** Malformed messages *)

Section malformed.
Context {Multiaddr IP W : Type} `{!Libp2p Multiaddr IP} `{Norm}.

(** A malformed request bans its sender but leaves the connection open.  The IP
    may not connect any more and nothing is answered; the connection that the
    message came over is closed only when the remote address of it names the
    peer, which the address of a transport does not. *)
Theorem malformed_request_banned now stream remoteID (remoteAddr : Multiaddr) (ip : IP) buf (mp : MessageProtocol (W := W)) e :
  let cg := p_connGater (mp_peer mp) in
  cg_isStarted cg = true → ToIP remoteAddr = Ok ip → 0 ≤ now → 0 ≤ cg_expiration cg → now + cg_expiration cg < 2 ^ 63 →
  (∀ info, cg_peerScore cg !! IP_String ip = Some info → 0 ≤ pi_score info < 2 ^ 62) → Message_Decode (A := p2pRequest) buf = Err e →
  let mp' := (onRequest now stream remoteID remoteAddr buf mp).2 in
  isPeerConnectionAllowed remoteAddr (p_connGater (mp_peer mp')) = false ∧ mp_sent mp' = mp_sent mp ∧ mp_world mp' = mp_world mp ∧
  ∀ e', AddrInfoFromMultiAddr (Multiaddr_String remoteAddr) = Err e' → p_closed (mp_peer mp') = p_closed (mp_peer mp).
Proof using.
  intros cg Hst Hip Hnow Hex Hsum Hsc Hd mp'. unfold mp', onRequest. rewrite Hd. cbn [snd ban_sender set_mp_peer mp_peer mp_sent mp_world].
  unfold banPeer, cg_addPenalty. fold cg. rewrite Hst, Hip. cbn [negb].
  pose proof (penalise_same now (cg_expiration cg) (IP_String ip) MaxPenaltyScore (cg_peerScore cg)) as Hs.
  destruct (penalise _ _ _ _ _) as [ns ps]. destruct Hs as (info' & E' & _ & Hns & Hx).
  assert (MaxPenaltyScore ≤ ns) as Hmax.
  { rewrite Hns. unfold MaxPenaltyScore in *. destruct (cg_peerScore cg !! IP_String ip) as [info|] eqn:Ei; [|lia]. specialize (Hsc info eq_refl).
    rewrite i64_small by (unfold i64_ok; lia). lia. }
  split_and!; [|done|done|].
  - assert (∀ p, p_connGater (disconnect_addr remoteAddr p).2 = p_connGater p) as Hda.
    { intros p. unfold disconnect_addr, Disconnect. repeat case_match; done. }
    rewrite Hda. unfold isPeerConnectionAllowed. rewrite Hip. apply (banned_not_allowed 0); [done|]. exists info'. split; [exact E'|]. rewrite Hx.
    destruct (Z.leb_spec MaxPenaltyScore ns); [|lia]. rewrite i64_small by (unfold i64_ok; lia). lia.
  - intros e' Ee. unfold disconnect_addr. by rewrite Ee.
Qed.

(** When all connections are to fixed peers and there are more of them than the
    minimum, the handler that drops a random connection indexes an empty slice. *)
Lemma connectionsHandler_panics fixedPeers minimum (allConns : list (Multiaddr * bytes)) shuffle (p : Peer) :
  (∀ l, shuffle l ≡ₚ l) → minimum < len allConns →
  (∀ c, c ∈ allConns → Slices.FindIndex fixedPeers (λ peer, bytes_equal peer (Multiaddr_String c.1 ++ p2p_path ++ PeerID_String c.2)) ≠ -1) →
  connectionsHandler_tick fixedPeers minimum allConns shuffle p = (Panic, p).
Proof using.
  intros Hsh Hmin Hfix. unfold connectionsHandler_tick. destruct (Z.ltb_spec minimum (len allConns)); [|lia].
  set (conns := filter _ _). assert (conns = []) as ->.
  { destruct conns as [|c rest] eqn:E; [done|]. assert (c ∈ c :: rest) as Hc by left. rewrite <-E in Hc.
    apply list_elem_of_filter in Hc as [Hc1 Hc2]. by destruct (Hfix c Hc2). }
  specialize (Hsh []). apply Permutation_nil_r in Hsh. by rewrite Hsh.
Qed.

(** The peers worth connecting to. *)
Definition new_peer (self : bytes) (connected : bytes → bool) (p : bytes * list Multiaddr) : Prop := p.1 ≠ self ∧ connected p.1 = false.

Lemma nextValidPeer_spec self connected (peers : list (bytes * list Multiaddr)) i : (i ≤ length peers)%nat →
  let news := filter (new_peer self connected) in
  (nextValidPeer self connected peers i = Ok (-1) ∧ news (take i peers) = []) ∨
  ∃ j p, (j < i)%nat ∧ nextValidPeer self connected peers i = Ok (Z.of_nat j) ∧ peers !! j = Some p ∧
    news (take i peers) = news (take j peers) ++ [p].
Proof using.
  intros Hi news. unfold news. induction i as [|i IH]; [by left|]. cbn [nextValidPeer].
  destruct (lookup_lt_is_Some_2 peers i ltac:(lia)) as [p Hp]. unfold index. rewrite idx_nonneg, Nat2Z.id, Hp by lia. cbn [mbind res_bind].
  rewrite (take_S_r _ _ p Hp), filter_app.
  destruct (decide (new_peer self connected p)) as [[Hs Hc]|Hnot].
  - right. exists i, p. rewrite filter_cons_True by done. unfold bytes_equal. rewrite bool_decide_false, Hc by done. split_and!; [lia|done..].
  - rewrite filter_cons_False, filter_nil, app_nil_r by done.
    assert ((if bytes_equal p.1 self then nextValidPeer self connected peers i
      else if connected p.1 then nextValidPeer self connected peers i else Ok (Z.of_nat i)) = nextValidPeer self connected peers i) as ->.
    { unfold bytes_equal. case_bool_decide; [done|]. destruct (connected p.1) eqn:E; [done|]. by destruct Hnot. }
    destruct (IH ltac:(lia)) as [?|(j & q & ? & ? & ? & ?)]; [by left|right]. exists j, q. split_and!; [lia|done..].
Qed.

(** [FindPeers] sends the known peers that are neither the node itself nor
    connected, from the last to the first. *)
Theorem FindPeers_spec self connected (peers : list (bytes * list Multiaddr)) :
  FindPeers self connected peers = Ok (reverse (filter (new_peer self connected) peers)).
Proof using.
  unfold FindPeers. assert (∀ fuel i, (i < fuel)%nat → (i ≤ length peers)%nat →
    find_peers fuel self connected peers i = Ok (reverse (filter (new_peer self connected) (take i peers)))) as Hall.
  { induction fuel as [|fuel IH]; intros i Hf Hi; [lia|]. cbn [find_peers].
    destruct (nextValidPeer_spec self connected peers i Hi) as [[-> ->]|(j & p & Hj & -> & Hp & ->)]; cbn [mbind res_bind]; [done|].
    destruct (Z.eqb_spec (Z.of_nat j) (-1)); [lia|]. unfold index. rewrite idx_nonneg, Nat2Z.id, Hp by lia. cbn [mbind res_bind].
    rewrite IH by lia. cbn [mbind res_bind]. by rewrite reverse_snoc. }
  rewrite Hall, firstn_all by lia. done.
Qed.
End malformed.

(** ** A network of addresses of four bytes

    An address is an IP of four bytes, with the ID of the peer after "/p2p/". *)

Definition toy_libp2p : Libp2p bytes bytes := {|
  ToIP a := Ok (take 4 a);
  IP_String ip := ip;
  ParseIP s := if len s =? 4 then Some s else None;
  Multiaddr_String a := a;
  NewMultiaddr s := Ok s;
  FirstComponent_Value a := take 4 a;
  AddrInfoFromP2pAddr a := if bytes_equal (take 5 (drop 4 a)) p2p_path then Ok (drop 9 a, [take 4 a]) else Err (Errorf "invalid p2p multiaddr");
  PeerID_String id := id;
  ClosePeer _ := Ok ();
|}.

Definition toy_gater : connectionGater := mkConnectionGater ∅ ∅ 86400 true.
Definition toy_addr : bytes := [10; 0; 0; 1].
Definition echo (req : p2pRequest) (w : ()) : responseWriter * () := (mkResponseWriter (p2pRequest_Data req) None, w).
Definition toy_protocol : MessageProtocol (W := ()) :=
  mkMessageProtocol true {[ [97] := echo ]} {[ [97] := mkRpcMessageCounter 1 50 ∅ ]} [4] [49] (mkPeer toy_gater []) () [].
Definition toy_request (now : Z) : Z * res () * bytes := (now, Ok (), p2pRequest_Encode (H := ascii_norm) (mkp2pRequest 0 [] [120] [97] [1; 2])).

Lemma ban_lasts_witness :
  let cg' := gater_run (Libp2p0 := toy_libp2p) [OpPenalty 2000 toy_addr (-90); OpTick 80000] (cg_addPenalty (Libp2p0 := toy_libp2p) 1000 toy_addr 120 toy_gater).2 in
  isPeerConnectionAllowed (Libp2p0 := toy_libp2p) toy_addr cg' = false.
Proof.
  destruct (ban_lasts (Libp2p0 := toy_libp2p) 1000 toy_addr toy_addr 120 toy_gater 120 [OpPenalty 2000 toy_addr (-90); OpTick 80000]) as [Hno _];
    [reflexivity|reflexivity|lia|by vm_compute|by vm_compute|vm_compute; reflexivity|by vm_compute| |exact Hno].
  repeat constructor; by vm_compute.
Defined.

Lemma rate_limit_bans_witness :
  isPeerConnectionAllowed (Libp2p0 := toy_libp2p) toy_addr
    (p_connGater (mp_peer (requests (Libp2p0 := toy_libp2p) (H := ascii_norm) [7] toy_addr (toy_request <$> [1; 2; 3; 4]) toy_protocol))) = false.
Proof.
  assert (peer_address (Libp2p0 := toy_libp2p) [7] toy_addr toy_addr) as Ha by (split; [done|by eexists _, _, _]).
  assert (limited (Libp2p0 := toy_libp2p) [7] toy_addr [97] 1 50 86400 0 toy_protocol) as Hl by (split; [done|by eexists|by eexists|done|done]).
  assert (Forall (request_for (H := ascii_norm) [97] 86400) (toy_request <$> [1; 2; 3; 4])) as Hr.
  { repeat constructor; try lia; eexists; (split; [vm_compute; reflexivity|reflexivity]). }
  refine (eq_trans (rate_limit_bans (Libp2p0 := toy_libp2p) (H := ascii_norm) [7] toy_addr toy_addr Ha [97] 1 50 86400 _ _ _
    (toy_request <$> [1; 2; 3; 4]) toy_protocol Hl Hr _) _); [lia..|by vm_compute|by vm_compute].
Defined.

(** A message of one byte, from a connection whose address has no ID. *)
Lemma malformed_request_banned_witness :
  p_closed (mp_peer (onRequest (Libp2p0 := toy_libp2p) (H := ascii_norm) 5 (Ok ()) [7] toy_addr [255] toy_protocol).2) = [].
Proof.
  destruct (malformed_request_banned (Libp2p0 := toy_libp2p) (H := ascii_norm) 5 (Ok ()) [7] toy_addr toy_addr [255] toy_protocol
    (match Message_Decode (A := p2pRequest) (H := p2pRequest_Message (H := ascii_norm)) [255] with Err e => e | _ => ErrInvalidData end)) as (_ & _ & _ & Hc);
    [reflexivity|reflexivity|lia|by vm_compute|by vm_compute|by intros info|vm_compute; reflexivity|].
  exact (Hc _ eq_refl).
Defined.
