(* ===== verification/P2PRequests.v ===== *)
(** * P2PRequests: waiting for responses

    pkg/p2p/message_protocol.go, [request], [sendRequestMessage] and the part of
    [onResponse] under the lock: the goroutines that wait for responses and those
    that hand them over share the map [resCh] under the mutex [resMu] and talk
    over channels without a buffer.  Goroutines run interleaved, so this file has
    a step relation; a critical section that cannot block is one step. *)

From S2P Require Import Prelude Collection NetTypes P2P.

Definition messageMaxRetries : Z := 3.

(** How waiting ended. *)
Inductive outcome :=
| Got (r : Response)
| TimedOut
| Cancelled
| SendFailed.

(** Where a goroutine is: in the attempt [i] of a request with the ID [id], or
    with a response for [id]. *)
Inductive goroutine :=
| Sending (i : Z) (id : bytes)
| Registering (i : Z) (id : bytes)
| Waiting (i : Z) (id : bytes)
| Removing (i : Z) (id : bytes) (o : outcome)
| Returned (o : outcome)
| Delivering (id : bytes) (r : Response)
| HandingOver (id : bytes) (r : Response) (target : nat)
| Delivered (found : bool).

(** [resMu] with the goroutine that holds it; [resCh], whose channels are named
    by the goroutine that waits on them and the ID of its request. *)
Record requestState := mkRequestState {
  rs_resMu : option nat;
  rs_resCh : gmap bytes nat;
  rs_goroutines : gmap nat goroutine;
}.

Definition set_goroutine (g : nat) (pc : goroutine) (s : requestState) : requestState :=
  mkRequestState (rs_resMu s) (rs_resCh s) (<[g := pc]> (rs_goroutines s)).
Definition set_resCh (m : gmap bytes nat) (s : requestState) : requestState := mkRequestState (rs_resMu s) m (rs_goroutines s).
Definition set_resMu (l : option nat) (s : requestState) : requestState := mkRequestState l (rs_resCh s) (rs_goroutines s).

(** After the entry was removed: a timeout is tried again with a new ID. *)
Definition after_attempt (i : Z) (o : outcome) (id' : bytes) : goroutine :=
  match o with
  | TimedOut => if i <? messageMaxRetries then Sending (i + 1) id' else Returned TimedOut
  | _ => Returned o
  end.

(** [request] and [sendRequestMessage].  The channel is registered after the
    message was sent. *)
Inductive requester_step (s : requestState) : requestState → Prop :=
| step_request g id : rs_goroutines s !! g = None → requester_step s (set_goroutine g (Sending 0 id) s)
| step_sent g i id : rs_goroutines s !! g = Some (Sending i id) → requester_step s (set_goroutine g (Registering i id) s)
| step_send_failed g i id : rs_goroutines s !! g = Some (Sending i id) → requester_step s (set_goroutine g (Returned SendFailed) s)
| step_register g i id : rs_goroutines s !! g = Some (Registering i id) → rs_resMu s = None →
    requester_step s (set_resCh (<[id := g]> (rs_resCh s)) (set_goroutine g (Waiting i id) s))
| step_timeout g i id : rs_goroutines s !! g = Some (Waiting i id) → requester_step s (set_goroutine g (Removing i id TimedOut) s)
| step_cancelled g i id : rs_goroutines s !! g = Some (Waiting i id) → requester_step s (set_goroutine g (Removing i id Cancelled) s)
| step_remove g i id o id' : rs_goroutines s !! g = Some (Removing i id o) → rs_resMu s = None →
    requester_step s (set_resCh (delete id (rs_resCh s)) (set_goroutine g (after_attempt i o id') s)).

(** The end of [onResponse].  The mutex is held while the response is sent, until
    the goroutine that waits on the channel receives it. *)
Inductive responder_step (s : requestState) : requestState → Prop :=
| step_response g id r : rs_goroutines s !! g = None → responder_step s (set_goroutine g (Delivering id r) s)
| step_unknown g id r : rs_goroutines s !! g = Some (Delivering id r) → rs_resMu s = None → rs_resCh s !! id = None →
    responder_step s (set_goroutine g (Delivered false) s)
| step_found g id r target : rs_goroutines s !! g = Some (Delivering id r) → rs_resMu s = None → rs_resCh s !! id = Some target →
    responder_step s (set_resMu (Some g) (set_goroutine g (HandingOver id r target) s))
| step_handed g id r target i : rs_goroutines s !! g = Some (HandingOver id r target) → rs_goroutines s !! target = Some (Waiting i id) →
    responder_step s (set_resMu None (set_goroutine g (Delivered true) (set_goroutine target (Removing i id (Got r)) s))).

Definition request_step (s s' : requestState) : Prop := requester_step s s' ∨ responder_step s s'.

Definition no_requests : requestState := mkRequestState None ∅ ∅.
Definition reachable (s : requestState) : Prop := rtc request_step no_requests s.

(** ** The lock *)

(** A registered channel is that of a goroutine that has not removed it yet; the
    holder of the mutex is handing over to such a goroutine. *)
Record lock_inv (s : requestState) : Prop := {
  li_entries : ∀ id g, rs_resCh s !! id = Some g →
    ∃ i, rs_goroutines s !! g = Some (Waiting i id) ∨ ∃ o, rs_goroutines s !! g = Some (Removing i id o);
  li_holder : ∀ g, rs_resMu s = Some g ↔ ∃ id r target, rs_goroutines s !! g = Some (HandingOver id r target);
  li_target : ∀ g id r target, rs_goroutines s !! g = Some (HandingOver id r target) → rs_resCh s !! id = Some target;
}.

Lemma lock_inv_init : lock_inv no_requests.
Proof. split; cbn; intros; [by rewrite lookup_empty in *|split; [done|intros (? & ? & ? & E); by rewrite lookup_empty in E]|by rewrite lookup_empty in *]. Qed.

(** What a step does to the other goroutines. *)
Lemma lookup_set g pc (m : gmap nat goroutine) h x : <[g := pc]> m !! h = Some x ↔ (h = g ∧ x = pc) ∨ (h ≠ g ∧ m !! h = Some x).
Proof. rewrite lookup_insert_Some. naive_solver. Qed.

(** Changing a goroutine that neither waits nor holds the mutex, to one that does
    not either. *)
Definition idle (pc : goroutine) : Prop :=
  match pc with Waiting _ _ | Removing _ _ _ | HandingOver _ _ _ => False | _ => True end.

Lemma lock_inv_idle s g pc : lock_inv s → (∀ pc0, rs_goroutines s !! g = Some pc0 → idle pc0) → idle pc → lock_inv (set_goroutine g pc s).
Proof.
  intros [He Hh Ht] Hg Hpc. split; cbn.
  - intros id h E. destruct (He id h E) as [i Hi]. exists i.
    assert (h ≠ g) by (intros ->; destruct Hi as [Hi|[o Hi]]; by destruct (Hg _ Hi)). rewrite lookup_insert_ne by done. done.
  - intros h. rewrite Hh. split; intros (id & r & t & E); exists id, r, t.
    + apply lookup_set. right. split; [|done]. intros ->. by destruct (Hg _ E).
    + apply lookup_set in E as [[-> <-]|[_ E]]; [done|done].
  - intros h id r t E. apply lookup_set in E as [[-> <-]|[_ E]]; [done|]. by apply (Ht h id r t).
Qed.

(** Nothing is handed over while the mutex is free. *)
Lemma free_no_handing s g id r t : lock_inv s → rs_resMu s = None → rs_goroutines s !! g ≠ Some (HandingOver id r t).
Proof. intros Hinv El E. assert (rs_resMu s = Some g) by (apply (li_holder _ Hinv); eauto). congruence. Qed.

(** Leaving the select. *)
Lemma lock_inv_leave s g i id o : lock_inv s → rs_goroutines s !! g = Some (Waiting i id) → lock_inv (set_goroutine g (Removing i id o) s).
Proof.
  intros [He Hh Ht] Hg. split; cbn.
  - intros id' h E. destruct (decide (h = g)) as [->|Hne]; [|rewrite lookup_insert_ne by done; by apply He].
    destruct (He id' g E) as [j [Hj|[o' Hj]]]; rewrite Hg in Hj; [|done]. injection Hj as <- <-. exists i. right. exists o. apply lookup_insert_eq.
  - intros h. rewrite Hh. split; intros (id' & r & t & E); exists id', r, t.
    + rewrite lookup_insert_ne; [done|]. intros ->. congruence.
    + by apply lookup_set in E as [[_ ?]|[_ E]].
  - intros h id' r t E. apply lookup_set in E as [[_ ?]|[_ E]]; [done|]. by apply (Ht h id' r t).
Qed.

Lemma lock_inv_register s g i id : lock_inv s → rs_goroutines s !! g = Some (Registering i id) → rs_resMu s = None →
  lock_inv (set_resCh (<[id := g]> (rs_resCh s)) (set_goroutine g (Waiting i id) s)).
Proof.
  intros Hinv Hg El. pose proof (λ h id' r t, free_no_handing s h id' r t Hinv El) as Hno. pose proof Hinv as [He Hh Ht]. split; cbn.
  - intros id' h E. apply lookup_insert_Some in E as [[<- <-]|[Hid E]]; [exists i; left; apply lookup_insert_eq|].
    destruct (He id' h E) as [j Hj]. exists j. rewrite lookup_insert_ne; [done|]. intros <-. destruct Hj as [Hj|[o Hj]]; congruence.
  - intros h. rewrite El. split; [done|]. intros (id' & r & t & E). apply lookup_set in E as [[_ ?]|[_ E]]; [done|]. by destruct (Hno h id' r t).
  - intros h id' r t E. apply lookup_set in E as [[_ ?]|[_ E]]; [done|]. by destruct (Hno h id' r t).
Qed.

Lemma idle_after i o id' : idle (after_attempt i o id').
Proof. destruct o; cbn; try done. by case_match. Qed.

Lemma lock_inv_remove s g i id o id' : lock_inv s → rs_goroutines s !! g = Some (Removing i id o) → rs_resMu s = None →
  lock_inv (set_resCh (delete id (rs_resCh s)) (set_goroutine g (after_attempt i o id') s)).
Proof.
  intros Hinv Hg El. pose proof (λ h id' r t, free_no_handing s h id' r t Hinv El) as Hno. pose proof Hinv as [He Hh Ht].
  pose proof (idle_after i o id') as Hidle. split; cbn.
  - intros id2 h E. apply lookup_delete_Some in E as [Hid E]. destruct (He id2 h E) as [j Hj]. exists j. rewrite lookup_insert_ne; [done|].
    intros <-. destruct Hj as [Hj|[o' Hj]]; congruence.
  - intros h. rewrite El. split; [done|]. intros (id2 & r & t & E). apply lookup_set in E as [[_ E]|[_ E]]; [by rewrite <-E in Hidle|]. by destruct (Hno h id2 r t).
  - intros h id2 r t E. apply lookup_set in E as [[_ E]|[_ E]]; [by rewrite <-E in Hidle|]. by destruct (Hno h id2 r t).
Qed.

Lemma lock_inv_found s g id r target : lock_inv s → rs_goroutines s !! g = Some (Delivering id r) → rs_resMu s = None →
  rs_resCh s !! id = Some target → lock_inv (set_resMu (Some g) (set_goroutine g (HandingOver id r target) s)).
Proof.
  intros Hinv Hg El Em. pose proof (λ h id' r t, free_no_handing s h id' r t Hinv El) as Hno. pose proof Hinv as [He Hh Ht]. split; cbn.
  - intros id' h E. destruct (He id' h E) as [j Hj]. exists j. rewrite lookup_insert_ne; [done|]. intros <-. destruct Hj as [Hj|[o Hj]]; congruence.
  - intros h. split.
    + intros [= <-]. exists id, r, target. apply lookup_insert_eq.
    + intros (id' & r' & t & E). apply lookup_set in E as [[-> _]|[_ E]]; [done|]. by destruct (Hno h id' r' t).
  - intros h id' r' t E. apply lookup_set in E as [[-> [= <- <- <-]]|[_ E]]; [done|]. by destruct (Hno h id' r' t).
Qed.

Lemma lock_inv_handed s g id r target i : lock_inv s → rs_goroutines s !! g = Some (HandingOver id r target) →
  rs_goroutines s !! target = Some (Waiting i id) →
  lock_inv (set_resMu None (set_goroutine g (Delivered true) (set_goroutine target (Removing i id (Got r)) s))).
Proof.
  intros Hinv Hg Hw. assert (∀ h id' r' t, rs_goroutines s !! h = Some (HandingOver id' r' t) → h = g) as Honly.
  { intros h id' r' t E. assert (rs_resMu s = Some h) by (apply (li_holder _ Hinv); eauto).
    assert (rs_resMu s = Some g) by (apply (li_holder _ Hinv); eauto). congruence. }
  assert (target ≠ g) as Htg by congruence.
  pose proof (lock_inv_leave s target i id (Got r) Hinv Hw) as [He Hh Ht]. cbn in He, Hh, Ht. split; cbn.
  - intros id' h E. destruct (He id' h E) as [j Hj]. exists j. rewrite lookup_insert_ne; [done|]. intros <-.
    rewrite lookup_insert_ne in Hj by done. destruct Hj as [Hj|[o Hj]]; congruence.
  - intros h. split; [done|]. intros (id' & r' & t & E). apply lookup_set in E as [[_ ?]|[Hne E]]; [done|].
    apply lookup_set in E as [[_ ?]|[_ E]]; [done|]. by destruct Hne; eapply Honly.
  - intros h id' r' t E. apply lookup_set in E as [[_ ?]|[Hne E]]; [done|]. apply lookup_set in E as [[_ ?]|[_ E]]; [done|].
    by destruct Hne; eapply Honly.
Qed.

Lemma lock_inv_step s s' : lock_inv s → request_step s s' → lock_inv s'.
Proof.
  intros Hinv [Hst|Hst]; destruct Hst as [g id E|g i id E|g i id E|g i id E El|g i id E|g i id E|g i id o id' E El]
    || destruct Hst as [g id r E|g id r E El Em|g id r t E El Em|g id r t i E Ew].
  all: try (apply lock_inv_idle; [done|intros pc0; by rewrite E; intros [= <-]|done]).
  - by apply lock_inv_register.
  - by apply lock_inv_leave.
  - by apply lock_inv_leave.
  - by apply lock_inv_remove.
  - by apply lock_inv_found.
  - by apply lock_inv_handed.
Qed.

Lemma lock_inv_reachable s : reachable s → lock_inv s.
Proof.
  revert s. apply (rtc_ind_r (R := request_step) lock_inv no_requests); [apply lock_inv_init|]. intros y z _ Hst Hy. by eapply lock_inv_step.
Qed.

(** ** Deadlock *)

(** The mutex is held by a goroutine that hands over to one that no longer waits. *)
Definition stuck (s : requestState) : Prop :=
  ∃ g id r target i o, rs_resMu s = Some g ∧ rs_goroutines s !! g = Some (HandingOver id r target) ∧
    rs_goroutines s !! target = Some (Removing i id o).

(** The places where a goroutine waits for the mutex. *)
Definition needs_lock (pc : goroutine) : Prop :=
  match pc with Registering _ _ | Removing _ _ _ | Delivering _ _ => True | _ => False end.

Lemma stuck_step s s' g id r target i o : lock_inv s → rs_resMu s = Some g → rs_goroutines s !! g = Some (HandingOver id r target) →
  rs_goroutines s !! target = Some (Removing i id o) → request_step s s' →
  rs_resMu s' = Some g ∧ (∀ h pc, needs_lock pc ∨ h = g → rs_goroutines s !! h = Some pc → rs_goroutines s' !! h = Some pc).
Proof.
  intros Hinv El Hg Ht [Hst|Hst]; destruct Hst as [h id0 E|h j id0 E|h j id0 E|h j id0 E El'|h j id0 E|h j id0 E|h j id0 o' id' E El']
    || destruct Hst as [h id0 r0 E|h id0 r0 E El' Em|h id0 r0 t E El' Em|h id0 r0 t j E Ew].
  all: try congruence.
  all: try (split; [exact El|]; cbn; intros h' pc Hn E'; rewrite lookup_insert_ne; [done|]; intros <-; destruct Hn as [Hn|Hn]; simplify_eq; done).
  assert (h = g) as ->; [|congruence].
  assert (rs_resMu s = Some h) by (apply (li_holder _ Hinv); eauto). congruence.
Qed.

(** C19: A response that meets a timeout blocks every request.  In a reachable state
    the mutex is free, or the next step can free it, or it is held by a goroutine
    that hands over a response to one that has just left its select.  In the last
    case no later step frees the mutex: the goroutines that wait for it, to
    register a request, to end one or to deliver a response, wait for ever. *)
Theorem response_race_deadlocks s : reachable s →
  (rs_resMu s = None ∨ (∃ s', request_step s s' ∧ rs_resMu s' = None) ∨ stuck s) ∧
  (stuck s → ∀ s', rtc request_step s s' →
    stuck s' ∧ ∀ h pc, needs_lock pc → rs_goroutines s !! h = Some pc → rs_goroutines s' !! h = Some pc).
Proof.
  intros Hr. pose proof (lock_inv_reachable s Hr) as Hinv. split.
  - destruct (rs_resMu s) as [g|] eqn:El; [right|by left]. destruct (proj1 (li_holder _ Hinv g) El) as (id & r & t & Hg).
    destruct (li_entries _ Hinv id t (li_target _ Hinv _ _ _ _ Hg)) as [i [Hw|[o Hw]]].
    + left. eexists. split; [right; by eapply step_handed|done].
    + right. exists g, id, r, t, i, o. done.
  - intros (g & id & r & t & i & o & El & Hg & Ht) s'.
    cut (∀ s', rtc request_step s s' → lock_inv s' ∧ rs_resMu s' = Some g ∧
      ∀ h pc, needs_lock pc ∨ h = g → rs_goroutines s !! h = Some pc → rs_goroutines s' !! h = Some pc).
    { intros Hcut Hrun. destruct (Hcut s' Hrun) as (_ & El' & Hk). split; [|intros h pc Hn; apply Hk; by left].
      exists g, id, r, t, i, o. split_and!; [done|apply Hk; [by right|done]|apply Hk; [by left|done]]. }
    apply (rtc_ind_r (R := request_step)); [by eauto|]. intros y z _ Hst (Hy & Ely & Hk).
    destruct (stuck_step y z g id r t i o Hy Ely) as [Elz Hkz]; [apply Hk; [by right|done]|apply Hk; [by left|done]|done|].
    split_and!; [by eapply lock_inv_step|done|]. intros h pc Hn E. apply Hkz; [done|]. by apply Hk.
Qed.

(** A request whose response arrives when it times out, and a second request. *)
Definition sample_response : Response := mkResponse 5 [9] [1] None.
Definition race : requestState :=
  mkRequestState (Some 2%nat) {[ [1] := 1%nat ]}
    {[ 1%nat := Removing 0 [1] TimedOut; 2%nat := HandingOver [1] sample_response 1%nat; 3%nat := Registering 0 [2] ]}.

Lemma race_reachable : reachable race.
Proof.
  unfold reachable.
  eapply rtc_l; [left; apply (step_request _ 1 [1]); reflexivity|].
  eapply rtc_l; [left; apply (step_sent _ 1 0 [1]); reflexivity|].
  eapply rtc_l; [left; apply (step_register _ 1 0 [1]); reflexivity|].
  eapply rtc_l; [right; apply (step_response _ 2 [1] sample_response); reflexivity|].
  eapply rtc_l; [right; apply (step_found _ 2 [1] sample_response 1); reflexivity|].
  eapply rtc_l; [left; apply (step_timeout _ 1 0 [1]); reflexivity|].
  eapply rtc_l; [left; apply (step_request _ 3 [2]); reflexivity|].
  eapply rtc_l; [left; apply (step_sent _ 3 0 [2]); reflexivity|].
  match goal with |- rtc _ ?s _ => assert (s = race) as ->; [|apply rtc_refl] end.
  vm_compute. reflexivity.
Qed.

Lemma response_race_deadlocks_witness :
  reachable race ∧ ∀ s', rtc request_step race s' → rs_goroutines s' !! 3%nat = Some (Registering 0 [2]).
Proof.
  split; [exact race_reachable|]. intros s' Hrun. destruct (response_race_deadlocks race race_reachable) as [_ Hdead].
  destruct (Hdead ltac:(by eexists 2%nat, [1], sample_response, 1%nat, 0, TimedOut) s' Hrun) as [_ Hk]. by apply Hk.
Defined.
